(* ===== verification/_CoqProject ===== *)
-Q . S2P
Prelude.v
Gas.v
SealingTypes.v
Pieces.v
SealingEvents.v
SealingStats.v
SealingInput.v
SealingPlan.v
SealingProps.v
SealingSafety.v
StateTree.v
StateTreeProps.v
TipSet.v
SyncManager.v
SyncManagerProps.v
SyncRuns.v
Rlp.v
Fr32.v
Fr32Props.v
TsCache.v
TsCacheProps.v
ChainMsg.v
MsgSet.v
MsgSetProps.v
MPool.v
MPoolProps.v
IndexLocks.v
ChangeHandler.v
ChangeHandlerProps.v
ChainStore.v
ChainStoreProps.v
ChainHead.v
ChainHeadProps.v
SlashFilter.v
RateLimit.v
Election.v
SealingApi.v
SealingFailed.v
SealingUpdate.v
SealingCommit.v
SealingRuns.v
SealingReceive.v
Blockstore.v
BlockstoreProps.v
Autobatch.v
AutobatchProps.v
Kv.v
NumAssign.v
MsgSigner.v
Paych.v
PaychProps.v
PaychFunds.v
PaychFundsProps.v
SchedRes.v
Sched.v
SchedProps.v
SchedResProps.v
CtlAddr.v
Batcher.v
BatcherProps.v
PreCommitRuns.v
BatchCommit.v
BatchTerminate.v
BatchCommitProps.v
CommitRuns.v
TerminateRuns.v
