(* ===== verification/Prelude.v ===== *)
(** * Lotus: a verification development

    Lotus is a node of the Filecoin network and the software of its storage miners.  This
    library models parts of it that decide about funds, state and sectors, and proves what
    they are relied on for.  Paths are relative to src/.

    ** The parts and their files

    - [Prelude] (this file): results of Go functions, machine integers, amounts, slices, maps,
      and the lemmas and tactics the other files share.
    - [Gas]: chain/vm/burn.go and chain/store/basefee.go.  How the gas limit of a message is
      split into burned, refunded and tipped funds, and how the base fee follows the gas use.
    - [SealingTypes], [SealingEvents], [SealingStats], [SealingPlan]: the state machine that
      takes a sector through sealing, storage/pipeline/{types,sector_state,fsm_events,stats,
      fsm}.go.  [SectorInfo] is the persisted record, [Event] has a constructor per event
      struct, [fsmPlanners] is the transition table and [Plan] the step of the machine.
      [SealingProps] and [SealingSafety] have its theorems.
    - [SealingApi], [SealingFailed], [SealingUpdate], [SealingCommit]: the handlers of the
      states, storage/pipeline/{checks,currentdealinfo,states_failed,states_replica_update,
      states_proving,states_sealing,input,receive,precommit_policy}.go.  A handler is a
      computation [M] over the maps of [Sealing] and a world of calls to the node, the sealer
      and the clock, and ends with the event it sends.  [SealingRuns] joins the handlers to the
      planners.  [SealingReceive]: the checks of sectors that are imported, receive.go.
    - [Pieces], [SealingInput]: the layout of pieces in a sector and the handlers that put
      deals into it, storage/pipeline/{utils,input,states_sealing,types}.go and
      storage/sealer/ffiwrapper/sealer_cgo.go.
    - [StateTree], [StateTreeProps]: chain/state/statetree.go.  The actors of the chain in a
      HAMT under a stack of snapshot layers, with the caches of addresses.
    - [TipSet]: chain/types/{tipset,tipset_key,blockheader}.go.
    - [SyncManager], [SyncManagerProps], [SyncRuns]: chain/sync_manager.go.  [syncManager] is
      the record of the manager, [scheduler] the handlers of its loop.
    - [Rlp]: chain/types/ethtypes/rlp.go.
    - [Fr32], [Fr32Props]: storage/sealer/fr32/fr32.go.
    - [TsCache], [TsCacheProps]: chain/events/tscache.go.
    - [ChainMsg]: chain/types/{message,signedmessage,bigint,percent}.go.
    - [MsgSet], [MsgSetProps], [MPool], [MPoolProps]: chain/messagepool/messagepool.go.  The
      pending messages of one sender, and the pool of all of them over the chain.
    - [IndexLocks]: storage/paths/index_locks.go.  The calls that lock files of sectors, as
      steps on shared lock objects.
    - [ChangeHandler], [ChangeHandlerProps]: storage/wdpost/wdpost_changehandler.go.  The
      prover and the submitter of window proofs, as steps on shared windows and commands.

    - [ChainStore], [ChainStoreProps]: chain/store/{index,coalescer}.go and the walks of
      chain/store/store.go: lookups by height, reorganisations, the merge of head changes.
    - [ChainHead], [ChainHeadProps]: chain/store/store.go.  The tracker of blocks, the choice of
      the head, the fork check and the checkpoint.
    - [SlashFilter]: chain/gen/slashfilter/slashfilter.go.
    - [RateLimit]: chain/sub/ratelimit/{queue,window}.go.
    - [Election]: chain/types/electionproof.go.
    - [Blockstore], [BlockstoreProps]: blockstore/{blockstore,mem,sync,buffered,union,idstore,
      discard,fallback,timed}.go.  The interface is a class, the stores are instances of it over
      the stores they wrap, and [BlockstoreOk] is what a store promises to its users.
    - [Autobatch], [AutobatchProps]: blockstore/autobatch.go, as steps of the callers and of the
      flushing goroutine.
    - [Kv]: datastores, shared by [NumAssign] (storage/pipeline/numassign.go, the numbers of new
      sectors) and [MsgSigner] (chain/messagesigner/messagesigner.go).
    - [Paych], [PaychProps]: paychmgr/{store,state,paych,util,accessorcache,manager}.go.  The
      channels and their vouchers in a datastore; [Manager] is the state, and a method a
      computation [PM] on it that may fail or panic at any call of the node or the datastore.
    - [SchedRes], [Sched], [SchedProps], [SchedResProps]: storage/sealer/{request_queue,sched,
      sched_worker,sched_resources,sched_assigner_*}.go, sealtasks/task.go and
      storiface/{resources,worker}.go.  The scheduler that assigns tasks to workers; [Sys] has its
      state, the handles of the workers, the channels and the tasks, and [schedStep] is a step of
      any of the goroutines.
    - [PaychFunds], [PaychFundsProps]: paychmgr/simple.go.  The queue of requests for funds and
      the messages that create and fund channels.
    - [CtlAddr]: storage/ctladdr/addresses.go.  The choice of the address that pays for a message.
    - [Batcher], [BatcherProps], [PreCommitRuns]: storage/pipeline/precommit_batch.go and what the
      batchers have in common.  A method is a computation [BM] on a node that answers anything; it
      ends, crashes or waits.  [BatchCommit], [BatchCommitProps], [CommitRuns]: commit_batch.go.
      [BatchTerminate], [TerminateRuns]: terminate_batch.go.

    The message pool uses the tipsets, the messages and the gas parameters; the sync manager,
    the chain store, the tipset cache and the change handler use the tipsets; sealing uses the
    piece layout; the batchers use the choice of the address, and the bitfields of the sector numbers.

    ** How the code is written down

    A function that returns an error and may panic has a result in [outcome].  Integers keep
    their width through [i64], [u64] and [u8] where the code computes with them.  Maps are
    [gmap]; where the order of an iteration matters it is a parameter, and theorems hold for
    every order.  A struct that is shared through pointers has a number and lives in a map of
    the state.  A struct that a goroutine guards by a loop or a mutex is a record, and a turn
    of the loop a function on it; runs are lists of such turns, in any order.

    Code of other modules is a type class of operations, and a second class with the name
    ending in [Ok] states what is relied on: [BigOps] (go-state-types/big), [PieceSizes]
    (go-state-types/abi), [StateStore] (the HAMT, the block store and the init actor),
    [Hashing] (hashes and the CID decoder), [TsCacheAPI] and [Provider] (the chain behind the
    cache and the pool), [MsgOps] (the CBOR encoder, the CID builder, addresses), [Deadlines]
    (go-state-types/dline), the datastore and keys of the slash filter, [Kv] (datastores that may fail), [BitFields]
    (go-bitfield), [CidOps] and [BlockOps] (go-cid, go-block-format), [BasicBlockstore] (the
    stores of boxo), [SignerOps] (cbor-gen headers and Ethereum messages), [KvQuery] and [PaychNode] (queries of a datastore,
    and the chain, the wallet, the actor state and the encoding of payment channels), [GoSort] (the
    sort of the standard library, which need not be stable), [CtlNode] (the wallet and the state behind
    the choice of an address), [BatchNode], [CommitNode] and [TermNode] (the node, the prover and the
    encoders of the batchers).  [SealingWorld] is the
    class of all calls of the handlers; it has no laws, and the theorems hold for every answer.
    Each file with theorems has an instance on which they are applied
    to concrete values.

    ** What the theorems show

    - Gas: no funds are lost or made up, the parts are never negative, the burn follows the
      documented bands, the base fee moves by at most an eighth, and every message of a tipset
      counts once.
    - Sealing: the table is complete and unambiguous; a sector reaches Proving only through
      the whole pipeline; under the pipeline's events it is never stuck; an aborted upgrade
      restores the sector; any sector can be removed; the log is bounded; the counters are the
      numbers of sectors.  Whatever a handler is answered, the event it sends is one that the
      planner of its state takes, apart from two events named in [refused]; a sector that its
      handlers drive is a run of the machine and is given up after the fourth failure of the
      first phase.  An imported sector was checked as its state requires, and gets to it.
    - Pieces: padding is the least that aligns, sectors are filled exactly, deals stay aligned
      and within the limits.
    - State tree: it refines a stack of finite maps for all operations and errors, a reverted
      snapshot leaves no trace, flushing and loading are inverse, iteration is exact.
    - Tipsets: construction is canonical, keys decode to their blocks, parenthood is decided.
    - Sync manager: over every sequence of events it does not panic, workers are bounded, and
      targets are the heaviest ones and not synced already.
    - Codecs: RLP and Fr32 round trips for all values, also with threads in any order; the RLP
      decoder is total; Fr32 is the insertion of two bits after every 254.
    - Tipset cache: the ring buffer refines the window of the chain's last epochs, and lookups
      give the nearest tipsets.
    - Message pool: over every sequence of operations and chain changes its counters and funds
      are exact and nothing panics; accepted messages are covered by the sender's balance.
    - Locks: over every interleaving a written file has one holder and the counts are exact.
    - Chain store: the skip index answers as a walk does, paths between tipsets are exact, the
      coalescer reports exactly the change since its last report and in time.
    - The head: a new head is not lighter, no long fork, and keeps the checkpoint; the tipset of
      a height is a heaviest one of those without equivocating miners.
    - Slash filter, rate limit, election: exactly the faulty blocks are refused; exactly the
      events over the limit are; the count of wins ends, is bounded and monotone.
    - Block stores: a stack of stores refines a set of blocks although calls may fail, the timed
      cache keeps blocks between one and two intervals, and the batching store never misses a
      block that was put, in any interleaving.
    - Sector numbers and nonces: none is given out twice, whatever fails in between.
    - Scheduler: over every interleaving each request for a task has one place, from the queue to
      its answer, and the tasks and windows of a worker fit into its resources.
    - Payment channels: over any calls on a channel vouchers are kept, their nonces increase and
      lanes are fresh; a voucher that is taken can be paid; a run of the queue settles each
      request once, and the amounts of the channel agree with the answers and the message.
    - Batchers: over any calls and rounds nothing crashes or waits with the lock held, a call is
      answered at most once and with a result of its sector, and the messages have exactly what
      their sectors need, within the limits of the actor and the balance of the miner.
    - Payers: the address is the first that can pay and has its key, or else the richest.
    - Window proofs: over every interleaving no deadline has two running submissions, and what
      is submitted was generated for that deadline and sent while it is open.

    ** Bounds

    Loops that are not structural have a number of rounds, and running out of them is [Panic],
    so that a theorem that excludes [Panic] shows that the rounds are enough.  The RLP decoder
    and the key decoder have the length of their input, of which every round takes a byte.
    The loops over nonces ([fillGap]) and over deadlines with proofs ([firstIncomplete]) have
    the size of the map they look in, since each round finds a different key.  The loops of
    the sync manager have the number of buckets or of workers, one of which each round uses
    up; those of the tipset cache the number of slots or entries; [lookupID] the depth of its
    one nested call.  The loops of the chain store have a height, which each round lowers, and
    the election the largest count.  The handlers that poll until the chain is ready
    ([handleWaitMutable], [handleTerminateFinality], and the retries of sealer calls) may wait
    forever; they take a number of rounds, after which they stop without an event, and the
    theorems hold for every number.  So does the wait of the commit batcher for the next head
    ([nextHead]), which ends in [Waits]; the splitting of a batch has the number of its entries,
    of which each half has fewer.

    ** Not modelled

    The virtual machine, the state manager, the consensus rules, the proofs and the actors
    need code that is not in the repository.  Message selection computes with floating-point
    numbers.  Networking, storage on disk, RPC, the commands and generated codecs are input
    and output.
    Not yet modelled, though it could be: the split store and the fr32
    readers.

    Within the modelled parts these are left out: logs, metrics, journals and notifications; the
    waits of callers for their promises in payment channels; the eviction of LRU caches except in the message pool's runs; pruning, republishing and configuration of the
    pool; the display of the sync manager's state and of the locks; the size of the channel of
    new proofs; shutdown. *)

From stdpp Require Export functions prelude gmap strings list fin_maps.
From Stdlib Require Export ZArith Lia.

#[global] Open Scope Z_scope.

(** ** Go values *)

(** Result of a Go function that returns [(T, error)] and may panic. *)
Inductive outcome (A : Type) : Type :=
| Ret (a : A)
| Err (e : string)
| Panic.
Arguments Ret {A} a.
Arguments Err {A} e.
Arguments Panic {A}.

#[export] Instance outcome_ret : MRet outcome := fun A a => Ret a.
#[export] Instance outcome_bind : MBind outcome := fun A B f m =>
  match m with
  | Ret a => f a
  | Err e => Err e
  | Panic => Panic
  end.
#[export] Instance outcome_fmap : FMap outcome := fun A B f m =>
  match m with
  | Ret a => Ret (f a)
  | Err e => Err e
  | Panic => Panic
  end.

(** Machine integers: Go's [int64] (also [int]) and [uint64] wrap around. *)
Definition i64 (z : Z) : Z := (z + 9223372036854775808) mod 18446744073709551616 - 9223372036854775808.
Definition u64 (z : Z) : Z := z mod 18446744073709551616.
Definition u8 (z : Z) : Z := z mod 256.

Definition in_i64 (z : Z) : Prop := -9223372036854775808 <= z < 9223372036854775808.
Definition in_u64 (z : Z) : Prop := 0 <= z < 18446744073709551616.

Lemma i64_id z : in_i64 z -> i64 z = z.
Proof. unfold in_i64, i64. intros H. rewrite Z.mod_small; lia. Qed.

Lemma u64_id z : in_u64 z -> u64 z = z.
Proof. unfold in_u64, u64. intros H. apply Z.mod_small. lia. Qed.

Lemma u8_id z : 0 <= z < 256 -> u8 z = z.
Proof. apply Z.mod_small. Qed.

Lemma i64_range z : in_i64 (i64 z).
Proof.
  unfold in_i64, i64.
  pose proof (Z.mod_pos_bound (z + 9223372036854775808) 18446744073709551616 ltac:(lia)). lia.
Qed.

Lemma u64_range z : in_u64 (u64 z).
Proof. unfold in_u64, u64. apply Z.mod_pos_bound. lia. Qed.

Lemma u64_add_l a b : u64 (u64 a + b) = u64 (a + b).
Proof. unfold u64. apply Zplus_mod_idemp_l. Qed.

Lemma i64_add_l a b : i64 (i64 a + b) = i64 (a + b).
Proof.
  unfold i64. f_equal.
  replace (_ + b + 9223372036854775808)
    with ((a + 9223372036854775808) mod 18446744073709551616 + b) by lia.
  rewrite Zplus_mod_idemp_l. f_equal. lia.
Qed.

(** Go's [int64] division truncates and panics on a zero divisor. *)
Definition go_quot (a b : Z) : outcome Z :=
  if b =? 0 then Panic else Ret (i64 (Z.quot a b)).

(** ** Arbitrary-precision amounts

    [abi.TokenAmount] and [types.BigInt] are the [Int] of the package
    [go-state-types/big], which is not part of the repository.  An amount is
    represented by the integer it denotes; the package's operations are the
    fields of [BigOps], and what the code relies on is [BigOpsOk]. *)
Class BigOps := {
  big_NewInt : Z -> Z;
  big_Mul : Z -> Z -> Z;
  big_Add : Z -> Z -> Z;
  big_Sub : Z -> Z -> Z;
  big_Div : Z -> Z -> Z;
  big_Cmp : Z -> Z -> Z;
  big_Int64 : Z -> Z;
  big_LessThan : Z -> Z -> bool;
  big_GreaterThan : Z -> Z -> bool;
  big_GreaterThanEqual : Z -> Z -> bool;
  big_Equals : Z -> Z -> bool;
  big_Min : Z -> Z -> Z;
}.

Class BigOpsOk `{BigOps} : Prop := {
  big_NewInt_ok z : big_NewInt z = z;
  big_Mul_ok a b : big_Mul a b = a * b;
  big_Add_ok a b : big_Add a b = a + b;
  big_Sub_ok a b : big_Sub a b = a - b;
  big_Div_ok a b : 0 < b -> big_Div a b = a / b;
  big_Cmp_ok a b : big_Cmp a b = match a ?= b with Lt => -1 | Eq => 0 | Gt => 1 end;
  big_Int64_ok z : in_i64 z -> big_Int64 z = z;
  big_LessThan_ok a b : big_LessThan a b = (a <? b);
  big_GreaterThan_ok a b : big_GreaterThan a b = (b <? a);
  big_GreaterThanEqual_ok a b : big_GreaterThanEqual a b = (b <=? a);
  big_Equals_ok a b : big_Equals a b = (a =? b);
  big_Min_ok a b : big_Min a b = Z.min a b;
}.

(** The integers themselves are an instance. *)
#[export] Instance ZBig : BigOps := {|
  big_NewInt := fun z => z;
  big_Mul := Z.mul;
  big_Add := Z.add;
  big_Sub := Z.sub;
  big_Div := fun a b => Z.sgn b * (a / Z.abs b);
  big_Cmp := fun a b => match a ?= b with Lt => -1 | Eq => 0 | Gt => 1 end;
  big_Int64 := i64;
  big_LessThan := Z.ltb;
  big_GreaterThan := fun a b => b <? a;
  big_GreaterThanEqual := fun a b => b <=? a;
  big_Equals := Z.eqb;
  big_Min := Z.min;
|}.

#[export] Instance ZBigOk : BigOpsOk.
Proof.
  split; intros; simpl; try reflexivity.
  - rewrite Z.abs_eq, Z.sgn_pos by lia. lia.
  - by apply i64_id.
Qed.

Section big_facts.
Context `{BigOpsOk}.

Lemma big_Cmp_gt0 a b : (0 <? big_Cmp a b) = (b <? a).
Proof. rewrite big_Cmp_ok. destruct (Z.compare_spec a b), (Z.ltb_spec b a); lia. Qed.

Lemma big_Cmp_lt0 a b : (big_Cmp a b <? 0) = (a <? b).
Proof. rewrite big_Cmp_ok. destruct (Z.compare_spec a b), (Z.ltb_spec a b); lia. Qed.

Lemma big_Cmp_le0 a b : (big_Cmp a b <=? 0) = (a <=? b).
Proof. rewrite big_Cmp_ok. destruct (Z.compare_spec a b), (Z.leb_spec a b); lia. Qed.
End big_facts.

(** [bigs] turns the package's operations into those of [Z]. *)
Create Rewrite HintDb bigs.
#[export] Hint Rewrite @big_NewInt_ok @big_Mul_ok @big_Add_ok @big_Sub_ok @big_LessThan_ok
  @big_GreaterThan_ok @big_GreaterThanEqual_ok @big_Equals_ok @big_Min_ok @big_Cmp_gt0 @big_Cmp_lt0 @big_Cmp_le0 using (typeclasses eauto) : bigs.
#[export] Hint Rewrite @big_Div_ok using (first [typeclasses eauto | lia]) : bigs.

(** ** Automation *)

(** Case analysis on the integer comparisons of the goal and the hypotheses. *)
Ltac zcases1 :=
  match goal with
  | |- context [?a <? ?b] => destruct (Z.ltb_spec a b)
  | |- context [?a <=? ?b] => destruct (Z.leb_spec a b)
  | |- context [?a =? ?b] => destruct (Z.eqb_spec a b)
  | H : context [?a <? ?b] |- _ => destruct (Z.ltb_spec a b)
  | H : context [?a <=? ?b] |- _ => destruct (Z.leb_spec a b)
  | H : context [?a =? ?b] |- _ => destruct (Z.eqb_spec a b)
  end.
Ltac zcases := repeat (zcases1; simplify_eq/=; try lia).

(** Decide the comparisons of the goal that [lia] can decide. *)
Ltac zdecide :=
  repeat match goal with
  | |- context [?a <? ?b] => first [rewrite (proj2 (Z.ltb_lt a b)) by lia | rewrite (proj2 (Z.ltb_ge a b)) by lia]
  | |- context [?a <=? ?b] => first [rewrite (proj2 (Z.leb_le a b)) by lia | rewrite (proj2 (Z.leb_gt a b)) by lia]
  | |- context [?a =? ?b] => first [rewrite (proj2 (Z.eqb_eq a b)) by lia | rewrite (proj2 (Z.eqb_neq a b)) by lia]
  end; cbn [andb orb negb].

(** [lia] with the defining equations of [/] and [mod]. *)
Ltac dlia := Z.div_mod_to_equations; lia.

(** ** Association lists, for Go map literals *)

Fixpoint assoc `{EqDecision K} {V} (k : K) (l : list (K * V)) : option V :=
  match l with
  | [] => None
  | (k', v) :: l => if decide (k = k') then Some v else assoc k l
  end.

Lemma assoc_elem `{EqDecision K} {V} (k : K) (l : list (K * V)) v :
  assoc k l = Some v -> (k, v) ∈ l.
Proof.
  induction l as [|[k' v'] l IH]; simpl; [done|].
  case_decide; intros; simplify_eq; [left|right; auto].
Qed.

Lemma assoc_is_Some `{EqDecision K} {V} (k : K) (l : list (K * V)) :
  is_Some (assoc k l) <-> k ∈ l.*1.
Proof.
  induction l as [|[k' v'] l IH]; simpl.
  - split; [intros [? ?]; done|]. intros H%elem_of_nil. done.
  - rewrite elem_of_cons, <- IH. case_decide; naive_solver.
Qed.

(** ** Sums *)

Definition sumZ {A} (f : A -> Z) (l : list A) : Z := foldr (fun x acc => f x + acc) 0 l.

Lemma sumZ_cons {A} (f : A -> Z) x l : sumZ f (x :: l) = f x + sumZ f l.
Proof. done. Qed.

Lemma sumZ_id_cons x l : sumZ id (x :: l) = x + sumZ id l.
Proof. done. Qed.

Lemma sumZ_id_singleton x : sumZ id [x] = x.
Proof. unfold sumZ, id. simpl. lia. Qed.

Lemma sumZ_app {A} (f : A -> Z) l1 l2 : sumZ f (l1 ++ l2) = sumZ f l1 + sumZ f l2.
Proof. induction l1; simpl; unfold sumZ in *; simpl; lia. Qed.

#[export] Instance sumZ_proper {A} (f : A -> Z) : Proper ((≡ₚ) ==> (=)) (sumZ f).
Proof. intros l1 l2 Hp. unfold sumZ. induction Hp; simpl; lia. Qed.

(** The sum over the values of a map. *)
Definition map_sum `{Countable K} {A} (f : A -> Z) (m : gmap K A) : Z := sumZ (fun p => f p.2) (map_to_list m).

Section map_sum.
Context `{Countable K} {A : Type} (f : A -> Z).

Lemma map_sum_empty : map_sum f (∅ : gmap K A) = 0.
Proof. unfold map_sum. by rewrite map_to_list_empty. Qed.

Lemma map_sum_insert (m : gmap K A) k x : m !! k = None -> map_sum f (<[k := x]> m) = f x + map_sum f m.
Proof. intros E. unfold map_sum. by rewrite map_to_list_insert by done. Qed.

Lemma map_sum_delete (m : gmap K A) k x : m !! k = Some x -> map_sum f (delete k m) = map_sum f m - f x.
Proof.
  intros E. assert (map_sum f m = f x + map_sum f (delete k m)); [|lia].
  rewrite <- (map_sum_insert _ k) by apply lookup_delete_eq. by rewrite insert_delete_id.
Qed.

Lemma map_sum_replace (m : gmap K A) k x y : m !! k = Some x -> map_sum f (<[k := y]> m) = map_sum f m - f x + f y.
Proof.
  intros E. rewrite <- insert_delete_eq, map_sum_insert by apply lookup_delete_eq. rewrite (map_sum_delete m k x E). lia.
Qed.

(** Writing a key, whether it was there or not. *)
Lemma map_sum_update (m : gmap K A) k y : map_sum f (<[k := y]> m) = map_sum f m - from_option f 0 (m !! k) + f y.
Proof.
  destruct (m !! k) as [x|] eqn:E; cbn [from_option]; [by apply map_sum_replace|]. rewrite map_sum_insert by done. lia.
Qed.

Lemma map_sum_zero (m : gmap K A) : (forall k x, m !! k = Some x -> f x = 0) -> map_sum f m = 0.
Proof.
  induction m as [|k x m Hk IH] using map_ind; intros Hf; [by rewrite map_sum_empty|]. rewrite map_sum_insert by done.
  rewrite (Hf k x) by apply lookup_insert_eq. rewrite IH; [done|].
  intros k' x' Hx. apply (Hf k'). rewrite lookup_insert_ne; [done|]. intros ->. congruence.
Qed.

Lemma map_sum_nonneg (m : gmap K A) : (forall k x, m !! k = Some x -> 0 <= f x) -> 0 <= map_sum f m.
Proof.
  induction m as [|k x m Hk IH] using map_ind; intros Hf; [by rewrite map_sum_empty|]. rewrite map_sum_insert by done.
  assert (0 <= f x) by (eapply Hf; apply lookup_insert_eq). assert (0 <= map_sum f m); [|lia].
  apply IH. intros k' x' Hx. apply (Hf k'). rewrite lookup_insert_ne; [done|]. intros ->. congruence.
Qed.

(** A term of a sum without negative terms. *)
Lemma map_sum_ge (m : gmap K A) k x : (forall k x, m !! k = Some x -> 0 <= f x) -> m !! k = Some x -> f x <= map_sum f m.
Proof.
  intros Hf Hx. pose proof (map_sum_delete m k x Hx). assert (0 <= map_sum f (delete k m)); [|lia].
  apply map_sum_nonneg. intros k' x' Hk'. apply lookup_delete_Some in Hk' as [_ Hk']. by apply (Hf k').
Qed.

Lemma map_sum_ge2 (m : gmap K A) k1 k2 x y :
  (forall k x, m !! k = Some x -> 0 <= f x) -> k1 <> k2 -> m !! k1 = Some x -> m !! k2 = Some y -> f x + f y <= map_sum f m.
Proof.
  intros Hf Hne Hx Hy. pose proof (map_sum_delete m k1 x Hx). assert (f y <= map_sum f (delete k1 m)); [|lia].
  apply (map_sum_ge _ k2); [|by rewrite lookup_delete_ne].
  intros k' x' Hk'. apply lookup_delete_Some in Hk' as [_ Hk']. by apply (Hf k').
Qed.

Lemma map_sum_pos (m : gmap K A) : 0 < map_sum f m -> exists k x, m !! k = Some x /\ 0 < f x.
Proof.
  induction m as [|k x m Hk IH] using map_ind; [rewrite map_sum_empty; lia|]. rewrite map_sum_insert by done. intros Hp.
  destruct (Z.lt_ge_cases 0 (f x)) as [|Hle]; [exists k, x; split; [apply lookup_insert_eq|done]|].
  destruct IH as (k' & x' & Hx & Hf); [lia|]. exists k', x'. split; [|done]. rewrite lookup_insert_ne; [done|]. intros ->. congruence.
Qed.
End map_sum.

(** ** Bytes *)

Notation bytes := (list Z).

Definition is_byte (b : Z) : Prop := 0 <= b < 256.

Definition len {A} (l : list A) : Z := Z.of_nat (length l).

(** The Go slice [l[a:b]], which panics outside the bounds. *)
Definition slice {A} (l : list A) (a b : Z) : outcome (list A) :=
  if (0 <=? a) && (a <=? b) && (b <=? len l) then Ret (take (Z.to_nat (b - a)) (drop (Z.to_nat a) l)) else Panic.

(** The element [l[i]]. *)
Definition index {A} (l : list A) (i : Z) : outcome A :=
  if i <? 0 then Panic else match l !! Z.to_nat i with Some x => Ret x | None => Panic end.

(** Big-endian integers: the last [n] bytes of [z], and the value of bytes. *)
Fixpoint be_bytes (n : nat) (z : Z) : bytes :=
  match n with
  | O => []
  | S n => (z / 256 ^ Z.of_nat n) mod 256 :: be_bytes n z
  end.

Fixpoint be_val (l : bytes) : Z :=
  match l with
  | [] => 0
  | b :: l => b * 256 ^ len l + be_val l
  end.

Lemma len_nonneg {A} (l : list A) : 0 <= len l.
Proof. unfold len. lia. Qed.

Lemma len_cons {A} (x : A) l : len (x :: l) = 1 + len l.
Proof. unfold len. simpl. lia. Qed.

Lemma len_app {A} (l1 l2 : list A) : len (l1 ++ l2) = len l1 + len l2.
Proof. unfold len. rewrite length_app. lia. Qed.

Lemma slice_full {A} (l : list A) : slice l 0 (len l) = Ret l.
Proof.
  unfold slice. pose proof (len_nonneg l). rewrite !(proj2 (Z.leb_le _ _)) by lia. simpl.
  rewrite Z.sub_0_r. unfold len. change (drop (Z.to_nat 0) l) with l. rewrite Nat2Z.id. by rewrite take_ge.
Qed.

(** A slice in the middle of a list. *)
Lemma slice_mid {A} (l1 l2 l3 : list A) a b :
  a = len l1 -> b = len l1 + len l2 -> slice (l1 ++ l2 ++ l3) a b = Ret l2.
Proof.
  intros -> ->. unfold slice. rewrite !len_app.
  pose proof (len_nonneg l1). pose proof (len_nonneg l2). pose proof (len_nonneg l3).
  rewrite !(proj2 (Z.leb_le _ _)) by lia. simpl. f_equal. unfold len.
  rewrite Nat2Z.id, drop_app_length. replace (Z.to_nat _) with (length l2) by lia. apply take_app_length.
Qed.

Lemma slice_tail {A} (l1 l2 : list A) a b : a = len l1 -> b = len l1 + len l2 -> slice (l1 ++ l2) a b = Ret l2.
Proof. intros Ha Hb. pose proof (slice_mid l1 l2 [] a b Ha Hb) as E. by rewrite app_nil_r in E. Qed.

Lemma slice_head {A} (l1 l2 : list A) b : b = len l1 -> slice (l1 ++ l2) 0 b = Ret l1.
Proof. intros ->. by apply (slice_mid [] l1 l2). Qed.

Lemma slice_Ret {A} (l : list A) a b s :
  slice l a b = Ret s -> 0 <= a <= b /\ b <= len l /\ len s = b - a /\ exists l1 l3, l = l1 ++ s ++ l3 /\ len l1 = a.
Proof.
  unfold slice. destruct (Z.leb_spec 0 a), (Z.leb_spec a b), (Z.leb_spec b (len l)); simpl; try done. intros [= <-].
  unfold len in *. split; [lia|]. split; [lia|]. split; [rewrite length_take, length_drop; lia|].
  exists (take (Z.to_nat a) l), (drop (Z.to_nat (b - a)) (drop (Z.to_nat a) l)). split; [|rewrite length_take; lia].
  by rewrite !take_drop.
Qed.

Lemma length_be_bytes n z : length (be_bytes n z) = n.
Proof. induction n; simpl; auto. Qed.

Lemma be_bytes_byte n z : Forall is_byte (be_bytes n z).
Proof. induction n; simpl; constructor; [|done]. unfold is_byte. apply Z.mod_pos_bound. lia. Qed.

Lemma be_val_bytes n z : be_val (be_bytes n z) = z mod 256 ^ Z.of_nat n.
Proof.
  induction n as [|n IH]; [simpl; symmetry; apply Z.mod_1_r|].
  cbn [be_bytes be_val]. rewrite IH. unfold len. rewrite length_be_bytes, Nat2Z.inj_succ, Z.pow_succ_r by lia.
  rewrite Z.mul_comm, (Z.mul_comm 256), Z.rem_mul_r by lia. lia.
Qed.

Lemma be_val_app l1 l2 : be_val (l1 ++ l2) = be_val l1 * 256 ^ len l2 + be_val l2.
Proof.
  induction l1 as [|b l1 IH]; [done|]. cbn [app be_val]. rewrite IH, len_app, Z.pow_add_r by apply len_nonneg. ring.
Qed.

Lemma be_val_zeros n l : be_val (replicate n 0 ++ l) = be_val l.
Proof. induction n as [|n IH]; [done|]. cbn [replicate app be_val]. rewrite IH. lia. Qed.

Lemma be_val_bound l : Forall is_byte l -> 0 <= be_val l < 256 ^ len l.
Proof.
  induction 1 as [|b l Hb _ IH]; [done|]. cbn [be_val]. rewrite len_cons, Z.pow_add_r by (pose proof (len_nonneg l); lia).
  unfold is_byte in Hb. nia.
Qed.

(** Little-endian integers. *)
Fixpoint le_val (l : bytes) : Z :=
  match l with
  | [] => 0
  | b :: l => b + 256 * le_val l
  end.

Lemma le_val_app l1 l2 : le_val (l1 ++ l2) = le_val l1 + 256 ^ len l1 * le_val l2.
Proof.
  induction l1 as [|b l1 IH]; cbn [app le_val]; [change (len (@nil Z)) with 0; lia|].
  rewrite IH, len_cons, Z.pow_add_r by (pose proof (len_nonneg l1); lia). lia.
Qed.

Lemma le_val_bound l : Forall is_byte l -> 0 <= le_val l < 256 ^ len l.
Proof.
  induction 1 as [|b l Hb _ IH]; [done|]. cbn [le_val]. rewrite len_cons, Z.pow_add_r by (pose proof (len_nonneg l); lia).
  unfold is_byte in Hb. lia.
Qed.

Lemma le_val_inj l1 l2 :
  Forall is_byte l1 -> Forall is_byte l2 -> length l1 = length l2 -> le_val l1 = le_val l2 -> l1 = l2.
Proof.
  intros H1. revert l2. induction H1 as [|b l1 Hb H1 IH]; intros [|b2 l2] H2; cbn [length le_val]; try done.
  apply Forall_cons in H2 as [Hb2 H2]. intros El Ev. unfold is_byte in *.
  assert (b = b2) as -> by lia. f_equal. apply IH; [done|lia|lia].
Qed.

(** Bits that do not overlap. *)
Lemma lxor_disjoint x t n : 0 <= n -> 0 <= t < 2 ^ n -> Z.lxor (x * 2 ^ n) t = x * 2 ^ n + t /\ Z.lor (x * 2 ^ n) t = x * 2 ^ n + t.
Proof.
  intros Hn Ht. assert (Z.land (x * 2 ^ n) t = 0) as E.
  { apply Z.bits_inj'. intros i Hi. rewrite Z.land_spec, Z.bits_0, <- Z.shiftl_mul_pow2, Z.shiftl_spec by lia.
    destruct (Z.lt_ge_cases i n) as [Hlt|Hge]; [by rewrite Z.testbit_neg_r by lia|].
    rewrite <- (Z.mod_small t (2 ^ n)) by lia. rewrite Z.mod_pow2_bits_high by lia. apply andb_false_r. }
  split; [by rewrite Z.add_nocarry_lxor|]. by rewrite <- Z.lxor_lor, Z.add_nocarry_lxor.
Qed.

(** Splitting a list at a position, and off its last element. *)
Lemma list_split {A} (l : list A) n m : length l = (n + m)%nat -> exists l1 l2, l = l1 ++ l2 /\ length l1 = n /\ length l2 = m.
Proof.
  intros El. exists (take n l), (drop n l). rewrite take_drop, length_take, length_drop. repeat split; lia.
Qed.

Lemma list_snoc {A} (l : list A) n : length l = S n -> exists l' x, l = l' ++ [x] /\ length l' = n.
Proof.
  intros El. destruct (list_split l n 1) as (l1 & l2 & -> & E1 & E2); [lia|]. destruct l2 as [|x [|? ?]]; try done. eauto.
Qed.

(** Filters that keep all or nothing, or that agree on the list. *)
Lemma filter_all {A} (P : A -> Prop) `{!forall x, Decision (P x)} (l : list A) : Forall P l -> filter P l = l.
Proof. induction 1; [done|]. rewrite filter_cons_True by done. by f_equal. Qed.

Lemma filter_none {A} (P : A -> Prop) `{!forall x, Decision (P x)} (l : list A) : Forall (fun x => ~ P x) l -> filter P l = [].
Proof. induction 1; [done|]. by rewrite filter_cons_False. Qed.

Lemma filter_ext_in {A} (P Q : A -> Prop) `{!forall x, Decision (P x)} `{!forall x, Decision (Q x)} (l : list A) :
  (forall x, x ∈ l -> P x <-> Q x) -> filter P l = filter Q l.
Proof.
  induction l as [|x l IH]; intros HPQ; [done|]. rewrite !filter_cons, IH by set_solver.
  destruct (HPQ x) as [H1 H2]; [set_solver|]. destruct (decide (P x)), (decide (Q x)); tauto.
Qed.
