(* ===== verification/Gas.v ===== *)
(** * Gas accounting: chain/vm/burn.go and chain/store/basefee.go

    How a message's gas limit is split into burned, refunded and tipped funds
    ([ComputeGasOverestimationBurn], [ComputeGasOutputs]) and how the base fee
    follows the gas used by a tipset ([ComputeNextBaseFee], [ComputeBaseFee]).
    Gas quantities are [int64] and wrap; amounts are [big.Int]. *)

From S2P Require Import Prelude.

(** ** chain/vm/burn.go *)

Definition gasOveruseNum : Z := 11.
Definition gasOveruseDenom : Z := 10.

Record GasOutputs := {
  BaseFeeBurn : Z;
  OverEstimationBurn : Z;
  MinerPenalty : Z;
  MinerTip : Z;
  Refund : Z;
  GasRefund : Z;
  GasBurned : Z;
}.

Section burn.
Context `{BigOps}.

(** The result is [(refund, burn)]. *)
Definition ComputeGasOverestimationBurn (gasUsed gasLimit : Z) : Z * Z :=
  if gasUsed =? 0 then (0, gasLimit)
  else
    let over := i64 (gasLimit - Z.quot (i64 (gasOveruseNum * gasUsed)) gasOveruseDenom) in
    if over <? 0 then (i64 (gasLimit - gasUsed), 0)
    else
      let over := if gasUsed <? over then gasUsed else over in
      let gasToBurn := big_NewInt (i64 (gasLimit - gasUsed)) in
      let gasToBurn := big_Mul gasToBurn (big_NewInt over) in
      let gasToBurn := big_Div gasToBurn (big_NewInt gasUsed) in
      (i64 (i64 (gasLimit - gasUsed) - big_Int64 gasToBurn), big_Int64 gasToBurn).

Definition ComputeGasOutputs (gasUsed gasLimit baseFee feeCap gasPremium : Z)
    (chargeNetworkFee : bool) : GasOutputs :=
  let gasUsedBig := big_NewInt gasUsed in
  let '(baseFeeToPay, minerPenalty) :=
    if 0 <? big_Cmp baseFee feeCap
    then (feeCap, big_Mul (big_Sub baseFee feeCap) gasUsedBig)
    else (baseFee, big_NewInt 0) in
  let baseFeeBurn :=
    if chargeNetworkFee then big_Mul baseFeeToPay gasUsedBig else big_NewInt 0 in
  let minerTip :=
    if 0 <? big_Cmp (big_Add baseFeeToPay gasPremium) feeCap
    then big_Sub feeCap baseFeeToPay
    else gasPremium in
  let minerTip := big_Mul minerTip (big_NewInt gasLimit) in
  let '(gasRefund, gasBurned) := ComputeGasOverestimationBurn gasUsed gasLimit in
  let '(overEstimationBurn, minerPenalty) :=
    if negb (gasBurned =? 0)
    then
      let gasBurnedBig := big_NewInt gasBurned in
      (big_Mul baseFeeToPay gasBurnedBig,
       big_Add minerPenalty (big_Mul (big_Sub baseFee baseFeeToPay) gasBurnedBig))
    else (big_NewInt 0, minerPenalty) in
  let requiredFunds := big_Mul (big_NewInt gasLimit) feeCap in
  let refund := big_Sub requiredFunds baseFeeBurn in
  let refund := big_Sub refund minerTip in
  let refund := big_Sub refund overEstimationBurn in
  {| BaseFeeBurn := baseFeeBurn;
     OverEstimationBurn := overEstimationBurn;
     MinerPenalty := minerPenalty;
     MinerTip := minerTip;
     Refund := refund;
     GasRefund := gasRefund;
     GasBurned := gasBurned |}.

End burn.

(** ** chain/store/basefee.go *)

(** build/params_shared_vals.go *)
Definition BlockGasLimit : Z := 10000000000.
Definition BlockGasTarget : Z := Z.quot BlockGasLimit 2.
Definition BaseFeeMaxChangeDenom : Z := 8.
Definition MinimumBaseFee : Z := 100.
Definition PackingEfficiencyNum : Z := 4.
Definition PackingEfficiencyDenom : Z := 5.

(** The heights that the network's build tag selects. *)
Record NetworkParams := {
  UpgradeBreezeHeight : Z;
  BreezeGasTampingDuration : Z;
  UpgradeSmokeHeight : Z;
}.

(** build/params_mainnet.go *)
Definition mainnet : NetworkParams := {|
  UpgradeBreezeHeight := 41280;
  BreezeGasTampingDuration := 120;
  UpgradeSmokeHeight := 51000;
|}.

Section basefee.
Context `{BigOps} (np : NetworkParams).

Definition ComputeNextBaseFee (baseFee gasLimitUsed noOfBlocks epoch : Z) : outcome Z :=
  delta ←
    (if UpgradeSmokeHeight np <? epoch then
       delta ← go_quot gasLimitUsed noOfBlocks;
       Ret (i64 (delta - BlockGasTarget))
     else
       delta ← go_quot (i64 (PackingEfficiencyDenom * gasLimitUsed))
                       (i64 (noOfBlocks * PackingEfficiencyNum));
       Ret (i64 (delta - BlockGasTarget)));
  let delta := if BlockGasTarget <? delta then BlockGasTarget else delta in
  let delta := if delta <? - BlockGasTarget then - BlockGasTarget else delta in
  let change := big_Mul baseFee (big_NewInt delta) in
  let change := big_Div change (big_NewInt BlockGasTarget) in
  let change := big_Div change (big_NewInt BaseFeeMaxChangeDenom) in
  let nextBaseFee := big_Add baseFee change in
  Ret (if big_Cmp nextBaseFee (big_NewInt MinimumBaseFee) <? 0
       then big_NewInt MinimumBaseFee
       else nextBaseFee).

End basefee.

(** [ComputeBaseFee] walks the messages of the tipset's blocks.  [MessagesForBlock]
    reads them from the chain store; a message is its CID and its gas limit. *)
Section compute_basefee.
Context `{BigOps} {Cid : Type} `{Countable Cid} {Block : Type}.
Context (np : NetworkParams).
Context (MessagesForBlock : Block -> outcome (list (Cid * Z) * list (Cid * Z))).
Context (ParentBaseFee : Block -> Z).

(** One of the two inner loops: messages not seen yet are charged. *)
Fixpoint chargeMessages (msgs : list (Cid * Z)) (seen : gset Cid) (totalLimit : Z)
    : gset Cid * Z :=
  match msgs with
  | [] => (seen, totalLimit)
  | (c, gasLimit) :: ms =>
      if decide (c ∈ seen) then chargeMessages ms seen totalLimit
      else chargeMessages ms ({[c]} ∪ seen) (i64 (totalLimit + gasLimit))
  end.

Fixpoint chargeBlocks (blks : list Block) (seen : gset Cid) (totalLimit : Z) : outcome Z :=
  match blks with
  | [] => Ret totalLimit
  | b :: bs =>
      '(msg1, msg2) ← MessagesForBlock b;
      let '(seen, totalLimit) := chargeMessages msg1 seen totalLimit in
      let '(seen, totalLimit) := chargeMessages msg2 seen totalLimit in
      chargeBlocks bs seen totalLimit
  end.

Definition ComputeBaseFee (blks : list Block) (height : Z) : outcome Z :=
  if (0 <=? UpgradeBreezeHeight np) && (UpgradeBreezeHeight np <? height)
     && (height <? UpgradeBreezeHeight np + BreezeGasTampingDuration np)
  then Ret 100
  else
    totalLimit ← chargeBlocks blks ∅ 0;
    match blks with
    | [] => Panic
    | b :: _ => ComputeNextBaseFee np (ParentBaseFee b) totalLimit (Z.of_nat (length blks)) height
    end.

End compute_basefee.

(** ** Properties of the gas split *)

Section burn_facts.
Context `{BigOpsOk}.

(** Gas amounts for which no intermediate [int64] product overflows; the block
    gas limit is far below. *)
Definition gas_ok (gasUsed gasLimit : Z) : Prop :=
  0 <= gasUsed <= gasLimit /\ gasOveruseNum * gasLimit < 9223372036854775808.

(** The burned gas, over the integers. *)
Definition burn_of (gasUsed gasLimit : Z) : Z :=
  if gasUsed =? 0 then gasLimit
  else (gasLimit - gasUsed) * Z.max 0 (Z.min gasUsed (gasLimit - 11 * gasUsed / 10)) / gasUsed.

Lemma burn_of_bounds gasUsed gasLimit :
  0 <= gasUsed <= gasLimit -> 0 <= burn_of gasUsed gasLimit <= gasLimit - gasUsed.
Proof.
  intros Hu. unfold burn_of. zcases.
  set (o := Z.max 0 _). assert (0 <= o <= gasUsed) by lia. split.
  - apply Z.div_pos; [apply Z.mul_nonneg_nonneg|]; lia.
  - apply Z.div_le_upper_bound; nia.
Qed.

Lemma burn_correct gasUsed gasLimit :
  gas_ok gasUsed gasLimit ->
  ComputeGasOverestimationBurn gasUsed gasLimit =
    (gasLimit - gasUsed - burn_of gasUsed gasLimit, burn_of gasUsed gasLimit).
Proof.
  intros [Hu Hl]. pose proof (burn_of_bounds gasUsed gasLimit Hu) as Hb.
  unfold ComputeGasOverestimationBurn, gasOveruseNum, gasOveruseDenom in *.
  autorewrite with bigs.
  destruct (Z.eqb_spec gasUsed 0) as [->|Hn].
  { unfold burn_of. simpl. f_equal. lia. }
  rewrite big_Div_ok by lia.
  rewrite (i64_id (11 * gasUsed)) by (unfold in_i64; lia).
  rewrite Z.quot_div_nonneg by lia.
  rewrite (i64_id (gasLimit - 11 * gasUsed / 10)) by (unfold in_i64; dlia).
  rewrite !(i64_id (gasLimit - gasUsed)) by (unfold in_i64; lia).
  set (over := gasLimit - 11 * gasUsed / 10) in *.
  assert (burn_of gasUsed gasLimit
    = (gasLimit - gasUsed) * Z.max 0 (Z.min gasUsed over) / gasUsed) as E.
  { unfold burn_of. destruct (Z.eqb_spec gasUsed 0); [lia|done]. }
  destruct (Z.ltb_spec over 0).
  - rewrite E, Z.max_l, Z.mul_0_r, Zdiv_0_l by lia. f_equal. lia.
  - replace (if gasUsed <? over then gasUsed else over) with (Z.max 0 (Z.min gasUsed over))
      by (zcases; lia).
    rewrite <- E, big_Int64_ok by (unfold in_i64; lia).
    f_equal. apply i64_id. unfold in_i64. lia.
Qed.

Lemma burn_of_mono gasUsed l1 l2 :
  0 <= gasUsed <= l1 -> l1 <= l2 -> burn_of gasUsed l1 <= burn_of gasUsed l2.
Proof.
  intros Hu Hl. unfold burn_of. zcases.
  apply Z.div_le_mono; [lia|]. apply Z.mul_le_mono_nonneg; dlia.
Qed.

(** Overestimating gas costs: the gas limit is exactly split into gas used,
    refunded and burned, none of them negative; nothing is burned up to ten percent of
    overestimation, the whole excess is burned once the limit exceeds the gas used by
    110 percent, and a higher limit never burns less. *)
Theorem overestimation_burn_split gasUsed gasLimit gasLimit' :
  gas_ok gasUsed gasLimit -> gas_ok gasUsed gasLimit' -> gasLimit <= gasLimit' ->
  let '(refund, burn) := ComputeGasOverestimationBurn gasUsed gasLimit in
  gasUsed + refund + burn = gasLimit /\ 0 <= refund /\ 0 <= burn /\
  (10 * gasLimit <= 11 * gasUsed -> 0 < gasUsed -> burn = 0) /\
  (21 * gasUsed <= 10 * gasLimit -> refund = 0) /\
  burn <= (ComputeGasOverestimationBurn gasUsed gasLimit').2.
Proof.
  intros Hok Hok' Hle. rewrite !burn_correct by done. simpl.
  pose proof (burn_of_bounds gasUsed gasLimit (proj1 Hok)) as Hb.
  pose proof (burn_of_mono gasUsed gasLimit gasLimit' (proj1 Hok) Hle) as Hm.
  repeat split; [lia..| | |done].
  - intros H10 Hp. unfold burn_of. rewrite (proj2 (Z.eqb_neq gasUsed 0)) by lia.
    rewrite Z.max_l, Z.mul_0_r, Zdiv_0_l by dlia. done.
  - intros H21. unfold burn_of. zcases.
    destruct Hok as [Hu _]. rewrite Z.max_r, Z.min_l, Z.div_mul by dlia. lia.
Qed.

(** The fee a message pays per unit of gas used, the effective premium, and
    the amounts of [ComputeGasOutputs] in terms of them. *)
Lemma gas_outputs_correct gasUsed gasLimit baseFee feeCap gasPremium charge :
  gas_ok gasUsed gasLimit ->
  let out := ComputeGasOutputs gasUsed gasLimit baseFee feeCap gasPremium charge in
  let fee := Z.min baseFee feeCap in
  let burned := burn_of gasUsed gasLimit in
  BaseFeeBurn out = (if charge then fee * gasUsed else 0) /\
  OverEstimationBurn out = fee * burned /\
  MinerTip out = Z.min gasPremium (feeCap - fee) * gasLimit /\
  MinerPenalty out = (baseFee - fee) * (gasUsed + burned) /\
  Refund out = gasLimit * feeCap - BaseFeeBurn out - MinerTip out - OverEstimationBurn out /\
  GasBurned out = burned /\ GasRefund out = gasLimit - gasUsed - burned.
Proof.
  intros Hok. unfold ComputeGasOutputs. rewrite burn_correct by done.
  autorewrite with bigs. generalize (burn_of gasUsed gasLimit). intros burned.
  assert (forall fee, (if feeCap <? fee + gasPremium then feeCap - fee else gasPremium)
    = Z.min gasPremium (feeCap - fee)) as Etip by (intros; zcases; lia).
  destruct (Z.ltb_spec feeCap baseFee); destruct (Z.eqb_spec burned 0) as [->|?]; simpl;
    autorewrite with bigs; rewrite ?(Z.min_l baseFee), ?(Z.min_r baseFee) by lia;
    rewrite ?Etip; repeat split; destruct charge; lia.
Qed.

(** [C26] Conservation of funds: a message is charged exactly [gasLimit * feeCap], which is
    burned, tipped or refunded without remainder; no part is negative (so the
    payer is never overdrawn), the tip never exceeds the premium offered, and the
    miner pays the shortfall of the fee cap for all the gas used or burned. *)
Theorem gas_funds_conserved gasUsed gasLimit baseFee feeCap gasPremium charge :
  gas_ok gasUsed gasLimit -> 0 <= baseFee -> 0 <= gasPremium <= feeCap ->
  let out := ComputeGasOutputs gasUsed gasLimit baseFee feeCap gasPremium charge in
  BaseFeeBurn out + OverEstimationBurn out + MinerTip out + Refund out = gasLimit * feeCap /\
  0 <= BaseFeeBurn out /\ 0 <= OverEstimationBurn out /\ 0 <= Refund out /\
  0 <= MinerTip out <= gasPremium * gasLimit /\
  MinerPenalty out = Z.max 0 (baseFee - feeCap) * (gasLimit - GasRefund out).
Proof.
  intros Hok Hbf Hp. pose proof (burn_of_bounds gasUsed gasLimit (proj1 Hok)) as Hb.
  destruct (gas_outputs_correct gasUsed gasLimit baseFee feeCap gasPremium charge Hok)
    as (E1 & E2 & E3 & E4 & E5 & E6 & E7).
  destruct Hok as [Hu _]. intros out. subst out. rewrite E5, E4, E3, E2, E1, E7.
  set (fee := Z.min baseFee feeCap). set (tip := Z.min gasPremium (feeCap - fee)).
  assert (0 <= fee <= feeCap) by lia. assert (0 <= tip <= gasPremium) by lia.
  assert (fee + tip <= feeCap) by lia.
  set (burned := burn_of gasUsed gasLimit) in *.
  repeat split; try (destruct charge; nia).
Qed.
End burn_facts.

Definition gas_example := ComputeGasOutputs 1000 1500 120 100 10 true.

Lemma overestimation_burn_split_witness :
  let '(refund, burn) := ComputeGasOverestimationBurn 1000 1500 in
  1000 + refund + burn = 1500 /\ burn <= (ComputeGasOverestimationBurn 1000 1900).2.
Proof.
  destruct (overestimation_burn_split 1000 1500 1900) as (H1 & _ & _ & _ & _ & H2);
    [by vm_compute|by vm_compute|done|]. by split.
Defined.

Lemma gas_funds_conserved_witness :
  Refund gas_example = 30000 /\ 0 <= Refund gas_example.
Proof.
  split; [by vm_compute|].
  destruct (gas_funds_conserved 1000 1500 120 100 10 true) as (_ & _ & _ & Hr & _);
    [by vm_compute..|]. exact Hr.
Defined.

(** ** Properties of the base fee *)

Section basefee_facts.
Context `{BigOpsOk} (np : NetworkParams).

(** The gas used per block, which the base fee compares with the target. *)
Definition gas_per_block (gasLimitUsed noOfBlocks epoch : Z) : Z :=
  if UpgradeSmokeHeight np <? epoch then gasLimitUsed / noOfBlocks
  else PackingEfficiencyDenom * gasLimitUsed / (noOfBlocks * PackingEfficiencyNum).

Definition basefee_step (baseFee perBlock : Z) : Z :=
  let delta := Z.max (- BlockGasTarget) (Z.min BlockGasTarget (perBlock - BlockGasTarget)) in
  Z.max MinimumBaseFee
    (baseFee + baseFee * delta / BlockGasTarget / BaseFeeMaxChangeDenom).

Lemma clamp_delta t delta :
  0 <= t ->
  (if (if t <? delta then t else delta) <? - t then - t
   else (if t <? delta then t else delta)) = Z.max (- t) (Z.min t delta).
Proof. intros. zcases. Qed.

Lemma go_quot_nonneg a b :
  0 <= a < 9223372036854775808 -> 0 < b -> go_quot a b = Ret (a / b) /\ 0 <= a / b <= a.
Proof.
  intros Ha Hb. unfold go_quot. rewrite (proj2 (Z.eqb_neq b 0)) by lia.
  rewrite Z.quot_div_nonneg by lia.
  assert (0 <= a / b <= a) by (split; [apply Z.div_pos|apply Z.div_le_upper_bound]; nia).
  rewrite i64_id by (unfold in_i64; lia). done.
Qed.

Lemma next_base_fee_correct baseFee gasLimitUsed noOfBlocks epoch :
  0 <= gasLimitUsed < 1000000000000000000 -> 0 < noOfBlocks < 1000000000000000000 ->
  ComputeNextBaseFee np baseFee gasLimitUsed noOfBlocks epoch =
    Ret (basefee_step baseFee (gas_per_block gasLimitUsed noOfBlocks epoch)).
Proof.
  intros Hg Hn. unfold ComputeNextBaseFee, gas_per_block, PackingEfficiencyDenom,
    PackingEfficiencyNum.
  rewrite (i64_id (5 * _)), (i64_id (_ * 4)) by (unfold in_i64; lia).
  destruct (go_quot_nonneg gasLimitUsed noOfBlocks) as [E1 B1]; [lia..|].
  destruct (go_quot_nonneg (5 * gasLimitUsed) (noOfBlocks * 4)) as [E2 B2]; [lia..|].
  rewrite E1, E2. unfold basefee_step, BlockGasTarget, BlockGasLimit, BaseFeeMaxChangeDenom,
    MinimumBaseFee. change (Z.quot 10000000000 2) with 5000000000.
  destruct (UpgradeSmokeHeight np <? epoch); cbn [mbind outcome_bind];
    rewrite clamp_delta, i64_id by (unfold in_i64; lia);
    autorewrite with bigs; f_equal; zcases.
Qed.

(** [C37] The base fee moves by at most one eighth per epoch and never falls below the
    minimum; it does not fall when blocks are fuller than the target and does not rise
    (above the minimum) when they are emptier. *)
Theorem next_base_fee_bounded baseFee gasLimitUsed noOfBlocks epoch :
  MinimumBaseFee <= baseFee ->
  0 <= gasLimitUsed < 1000000000000000000 -> 0 < noOfBlocks < 1000000000000000000 ->
  exists next,
    ComputeNextBaseFee np baseFee gasLimitUsed noOfBlocks epoch = Ret next /\
    MinimumBaseFee <= next /\
    next - baseFee <= baseFee / BaseFeeMaxChangeDenom /\
    baseFee - next <= (baseFee + 7) / BaseFeeMaxChangeDenom /\
    (BlockGasTarget <= gas_per_block gasLimitUsed noOfBlocks epoch -> baseFee <= next) /\
    (gas_per_block gasLimitUsed noOfBlocks epoch <= BlockGasTarget -> next <= baseFee).
Proof.
  intros Hb Hg Hn. rewrite next_base_fee_correct by done. eexists; split; [done|].
  generalize (gas_per_block gasLimitUsed noOfBlocks epoch). intros g.
  unfold basefee_step, BlockGasTarget, BlockGasLimit, BaseFeeMaxChangeDenom,
    MinimumBaseFee in *. change (Z.quot 10000000000 2) with 5000000000.
  set (d := Z.max _ (Z.min _ _)).
  assert (- baseFee <= baseFee * d / 5000000000 <= baseFee) as Hc.
  { split; [apply Z.div_le_lower_bound|apply Z.div_le_upper_bound]; nia. }
  assert (0 <= d -> 0 <= baseFee * d / 5000000000) as Hup by (intros; apply Z.div_pos; nia).
  assert (d <= 0 -> baseFee * d / 5000000000 <= 0) as Hdn
    by (intros; apply Z.div_le_upper_bound; nia).
  generalize dependent (baseFee * d / 5000000000). intros c Hc Hup Hdn.
  repeat split; [lia|dlia|dlia| |]; intros; dlia.
Qed.
End basefee_facts.

Lemma next_base_fee_bounded_witness :
  ComputeNextBaseFee mainnet 1000 60000000000 5 60000 = Ret 1125 /\
  exists next, ComputeNextBaseFee mainnet 1000 60000000000 5 60000 = Ret next /\ 100 <= next.
Proof.
  split; [by vm_compute|].
  destruct (next_base_fee_bounded mainnet 1000 60000000000 5 60000) as (n & E & Hn & _);
    [by vm_compute|lia|lia|]. exists n. split; [exact E|exact Hn].
Defined.

(** ** Unique messages *)

Section unique_messages.
Context `{BigOpsOk} {Cid : Type} `{Countable Cid} {Block : Type}.
Context (np : NetworkParams).
Context (MessagesForBlock : Block -> outcome (list (Cid * Z) * list (Cid * Z))).
Context (ParentBaseFee : Block -> Z).

(** The CIDs of a list of messages, and the gas of a set of them. *)
Definition cids_of (msgs : list (Cid * Z)) : gset Cid := list_to_set msgs.*1.
Definition gas_of (gasOf : Cid -> Z) (X : gset Cid) : Z :=
  sumZ gasOf (elements X).

(** A CID determines its message. *)
Definition consistent (gasOf : Cid -> Z) (msgs : list (Cid * Z)) : Prop :=
  Forall (fun m => m.2 = gasOf m.1) msgs.

Lemma gas_of_insert gasOf c X : c ∉ X -> gas_of gasOf ({[c]} ∪ X) = gasOf c + gas_of gasOf X.
Proof. intros Hc. unfold gas_of. by rewrite (elements_union_singleton X c Hc). Qed.

Lemma charge_messages_correct gasOf msgs seen :
  consistent gasOf msgs ->
  chargeMessages msgs seen (i64 (gas_of gasOf seen)) =
    (cids_of msgs ∪ seen, i64 (gas_of gasOf (cids_of msgs ∪ seen))).
Proof.
  intros Hc. revert seen. induction Hc as [|[c g] msgs Hg _ IH]; intros seen; simpl in *.
  { unfold cids_of. simpl. by rewrite union_empty_l_L. }
  assert (forall X, {[c]} ∪ X ∪ seen = X ∪ ({[c]} ∪ seen)) as E by set_solver.
  unfold cids_of in *. simpl. rewrite E. case_decide as Hin.
  - rewrite IH. assert ({[c]} ∪ seen = seen) as -> by set_solver. done.
  - rewrite <- IH, gas_of_insert, Hg, i64_add_l by done. do 2 f_equal. lia.
Qed.

(** The messages [ComputeBaseFee] reads, when the store has them all. *)
Fixpoint blocks_messages (blks : list Block) : option (list (Cid * Z)) :=
  match blks with
  | [] => Some []
  | b :: bs =>
      match MessagesForBlock b, blocks_messages bs with
      | Ret (msg1, msg2), Some rest => Some (msg1 ++ msg2 ++ rest)
      | _, _ => None
      end
  end.

Lemma charge_blocks_correct gasOf blks msgs seen :
  blocks_messages blks = Some msgs -> consistent gasOf msgs ->
  chargeBlocks MessagesForBlock blks seen (i64 (gas_of gasOf seen)) =
    Ret (i64 (gas_of gasOf (cids_of msgs ∪ seen))).
Proof.
  revert msgs seen. induction blks as [|b blks IH]; intros msgs seen Hm Hc; simpl in *.
  { simplify_eq. unfold cids_of. simpl. by rewrite union_empty_l_L. }
  destruct (MessagesForBlock b) as [[m1 m2]| |]; simplify_eq/=.
  destruct (blocks_messages blks) as [rest|]; simplify_eq/=.
  unfold consistent in Hc. rewrite !Forall_app in Hc. destruct Hc as (Hc1 & Hc2 & Hc3).
  rewrite (charge_messages_correct gasOf m1), (charge_messages_correct gasOf m2) by done.
  rewrite (IH rest) by done. do 3 f_equal. unfold cids_of.
  rewrite !fmap_app, !list_to_set_app_L. set_solver.
Qed.

(** The base fee of a tipset is the step from its parents' base fee for the gas of the
    distinct messages of its blocks: a message included by several blocks, or by both
    message lists of a block, counts once. *)
Theorem base_fee_unique_messages gasOf b blks msgs height :
  blocks_messages (b :: blks) = Some msgs -> consistent gasOf msgs ->
  in_i64 (gas_of gasOf (cids_of msgs)) ->
  ~ (0 <= UpgradeBreezeHeight np < height /\
     height < UpgradeBreezeHeight np + BreezeGasTampingDuration np) ->
  ComputeBaseFee np MessagesForBlock ParentBaseFee (b :: blks) height =
    ComputeNextBaseFee np (ParentBaseFee b) (gas_of gasOf (cids_of msgs))
      (Z.of_nat (S (length blks))) height.
Proof.
  intros Hm Hc Hr Hh. unfold ComputeBaseFee.
  pose proof (charge_blocks_correct gasOf (b :: blks) msgs ∅ Hm Hc) as E.
  rewrite union_empty_r_L, (i64_id _ Hr) in E.
  replace (i64 (gas_of gasOf ∅)) with 0 in E by (unfold gas_of; by rewrite elements_empty).
  rewrite E. destruct (_ && _) eqn:Ec; [|done]. exfalso. apply Hh. lia.
Qed.
End unique_messages.

(** Two blocks that share the message 7. *)
Definition example_messages (b : bool) : outcome (list (Z * Z) * list (Z * Z)) :=
  if b then Ret ([(7, 4000000000); (8, 6000000000)], [(7, 4000000000)])
  else Ret ([(7, 4000000000)], [(9, 20000000000)]).
Definition example_gas (c : Z) : Z :=
  if c =? 7 then 4000000000 else if c =? 8 then 6000000000 else 20000000000.

Definition example_tipset : list (Z * Z) :=
  [(7, 4000000000); (8, 6000000000); (7, 4000000000); (7, 4000000000); (9, 20000000000)].

Lemma base_fee_unique_messages_witness :
  ComputeBaseFee mainnet example_messages (fun _ => 1000) [true; false] 60000 =
    ComputeNextBaseFee mainnet 1000 30000000000 2 60000.
Proof.
  replace 30000000000 with (gas_of example_gas (cids_of example_tipset))
    by (vm_compute; reflexivity).
  apply (base_fee_unique_messages mainnet example_messages (fun _ => 1000) example_gas true [false]
    example_tipset 60000).
  - reflexivity.
  - unfold consistent, example_tipset. rewrite !Forall_cons. repeat split; vm_compute; constructor.
  - vm_compute. split; [discriminate|reflexivity].
  - simpl. lia.
Defined.
