(* ===== verification/SealingTypes.v ===== *)
(** * The sealing pipeline's data: storage/pipeline/{sector_state,types,fsm_events}.go

    The sector states, the [SectorInfo] record the state machine mutates, and the
    events it receives.  A [SectorState] is a string, as in the source: an operator
    can force a sector into any state, also into one the table does not have. *)

From S2P Require Import Prelude.

(** Identifiers that are only stored and compared. *)
Definition Cid := string.
Definition TipSetKey := string.
Definition bytes := list Z.
(** Third-party structures that are carried along and never inspected. *)
Definition opaque := string.

(** ** storage/pipeline/sector_state.go *)

Definition SectorState := string.

Definition UndefinedSectorState : SectorState := EmptyString.
Definition Empty : SectorState := "Empty".
Definition WaitDeals : SectorState := "WaitDeals".
Definition AddPiece : SectorState := "AddPiece".
Definition Packing : SectorState := "Packing".
Definition GetTicket : SectorState := "GetTicket".
Definition PreCommit1 : SectorState := "PreCommit1".
Definition PreCommit2 : SectorState := "PreCommit2".
Definition PreCommitting : SectorState := "PreCommitting".
Definition PreCommitWait : SectorState := "PreCommitWait".
Definition SubmitPreCommitBatch : SectorState := "SubmitPreCommitBatch".
Definition PreCommitBatchWait : SectorState := "PreCommitBatchWait".
Definition WaitSeed : SectorState := "WaitSeed".
Definition Committing : SectorState := "Committing".
Definition CommitFinalize : SectorState := "CommitFinalize".
Definition CommitFinalizeFailed : SectorState := "CommitFinalizeFailed".
Definition SubmitCommit : SectorState := "SubmitCommit".
Definition CommitWait : SectorState := "CommitWait".
Definition SubmitCommitAggregate : SectorState := "SubmitCommitAggregate".
Definition CommitAggregateWait : SectorState := "CommitAggregateWait".
Definition FinalizeSector : SectorState := "FinalizeSector".
Definition Proving : SectorState := "Proving".
Definition Available : SectorState := "Available".
Definition SnapDealsWaitDeals : SectorState := "SnapDealsWaitDeals".
Definition SnapDealsAddPiece : SectorState := "SnapDealsAddPiece".
Definition SnapDealsPacking : SectorState := "SnapDealsPacking".
Definition UpdateReplica : SectorState := "UpdateReplica".
Definition ProveReplicaUpdate : SectorState := "ProveReplicaUpdate".
Definition SubmitReplicaUpdate : SectorState := "SubmitReplicaUpdate".
Definition WaitMutable : SectorState := "WaitMutable".
Definition ReplicaUpdateWait : SectorState := "ReplicaUpdateWait".
Definition FinalizeReplicaUpdate : SectorState := "FinalizeReplicaUpdate".
Definition UpdateActivating : SectorState := "UpdateActivating".
Definition ReleaseSectorKey : SectorState := "ReleaseSectorKey".
Definition ReceiveSector : SectorState := "ReceiveSector".
Definition FailedUnrecoverable : SectorState := "FailedUnrecoverable".
Definition AddPieceFailed : SectorState := "AddPieceFailed".
Definition SealPreCommit1Failed : SectorState := "SealPreCommit1Failed".
Definition SealPreCommit2Failed : SectorState := "SealPreCommit2Failed".
Definition PreCommitFailed : SectorState := "PreCommitFailed".
Definition ComputeProofFailed : SectorState := "ComputeProofFailed".
Definition RemoteCommitFailed : SectorState := "RemoteCommitFailed".
Definition CommitFailed : SectorState := "CommitFailed".
Definition PackingFailed : SectorState := "PackingFailed".
Definition FinalizeFailed : SectorState := "FinalizeFailed".
Definition DealsExpired : SectorState := "DealsExpired".
Definition RecoverDealIDs : SectorState := "RecoverDealIDs".
Definition SnapDealsAddPieceFailed : SectorState := "SnapDealsAddPieceFailed".
Definition SnapDealsDealsExpired : SectorState := "SnapDealsDealsExpired".
Definition SnapDealsRecoverDealIDs : SectorState := "SnapDealsRecoverDealIDs".
Definition AbortUpgrade : SectorState := "AbortUpgrade".
Definition ReplicaUpdateFailed : SectorState := "ReplicaUpdateFailed".
Definition ReleaseSectorKeyFailed : SectorState := "ReleaseSectorKeyFailed".
Definition FinalizeReplicaUpdateFailed : SectorState := "FinalizeReplicaUpdateFailed".
Definition Faulty : SectorState := "Faulty".
Definition FaultReported : SectorState := "FaultReported".
Definition FaultedFinal : SectorState := "FaultedFinal".
Definition Terminating : SectorState := "Terminating".
Definition TerminateWait : SectorState := "TerminateWait".
Definition TerminateFinality : SectorState := "TerminateFinality".
Definition TerminateFailed : SectorState := "TerminateFailed".
Definition Removing : SectorState := "Removing".
Definition RemoveFailed : SectorState := "RemoveFailed".
Definition Removed : SectorState := "Removed".

Definition ExistSectorStateList : list SectorState :=
  [Empty; WaitDeals; Packing; AddPiece; AddPieceFailed; GetTicket; PreCommit1; PreCommit2;
   PreCommitting; PreCommitWait; SubmitPreCommitBatch; PreCommitBatchWait; WaitSeed;
   Committing; CommitFinalize; CommitFinalizeFailed; SubmitCommit; CommitWait;
   SubmitCommitAggregate; CommitAggregateWait; FinalizeSector; Proving; Available;
   FailedUnrecoverable; SealPreCommit1Failed; SealPreCommit2Failed; PreCommitFailed;
   ComputeProofFailed; RemoteCommitFailed; CommitFailed; PackingFailed; FinalizeFailed;
   DealsExpired; RecoverDealIDs; Faulty; FaultReported; FaultedFinal; Terminating;
   TerminateWait; TerminateFinality; TerminateFailed; Removing; RemoveFailed; Removed;
   SnapDealsWaitDeals; SnapDealsAddPiece; SnapDealsPacking; UpdateReplica;
   ProveReplicaUpdate; SubmitReplicaUpdate; WaitMutable; ReplicaUpdateWait;
   UpdateActivating; ReleaseSectorKey; FinalizeReplicaUpdate; SnapDealsAddPieceFailed;
   SnapDealsDealsExpired; SnapDealsRecoverDealIDs; ReplicaUpdateFailed;
   ReleaseSectorKeyFailed; FinalizeReplicaUpdateFailed; AbortUpgrade; ReceiveSector].

(** storage/pipeline/stats.go *)
Inductive statSectorState := sstStaging | sstSealing | sstFailed | sstProving.

#[export] Instance statSectorState_eq_dec : EqDecision statSectorState.
Proof. solve_decision. Defined.

Definition toStatState (st : SectorState) (finEarly : bool) : statSectorState :=
  if decide (st ∈ [UndefinedSectorState; Empty; WaitDeals; AddPiece; AddPieceFailed;
                   SnapDealsWaitDeals; SnapDealsAddPiece])
  then sstStaging
  else if decide (st ∈ [Packing; GetTicket; PreCommit1; PreCommit2; PreCommitting;
                        PreCommitWait; SubmitPreCommitBatch; PreCommitBatchWait; WaitSeed;
                        Committing; CommitFinalize; FinalizeSector; SnapDealsPacking;
                        UpdateReplica; ProveReplicaUpdate; FinalizeReplicaUpdate;
                        ReceiveSector])
  then sstSealing
  else if decide (st ∈ [SubmitCommit; CommitWait; SubmitCommitAggregate;
                        CommitAggregateWait; WaitMutable; SubmitReplicaUpdate;
                        ReplicaUpdateWait])
  then if finEarly then sstProving else sstSealing
  else if decide (st ∈ [Proving; Available; UpdateActivating; ReleaseSectorKey; Removed;
                        Removing; Terminating; TerminateWait; TerminateFinality;
                        TerminateFailed])
  then sstProving
  else sstFailed.

Definition IsUpgradeState (st : SectorState) : bool :=
  bool_decide (st ∈ [SnapDealsWaitDeals; SnapDealsAddPiece; SnapDealsPacking; UpdateReplica;
    ProveReplicaUpdate; SubmitReplicaUpdate; WaitMutable; SnapDealsAddPieceFailed;
    SnapDealsDealsExpired; SnapDealsRecoverDealIDs; AbortUpgrade; ReplicaUpdateFailed;
    ReleaseSectorKeyFailed; FinalizeReplicaUpdateFailed]).

(** ** storage/pipeline/types.go *)

Record LogEntry := {
  Timestamp : Z;
  Trace : string;
  Message : string;
  Kind : string;
}.

Definition ReturnState := string.
Definition RetPreCommit1 : ReturnState := PreCommit1.
Definition RetPreCommitting : ReturnState := PreCommitting.
Definition RetPreCommitFailed : ReturnState := PreCommitFailed.
Definition RetCommitFailed : ReturnState := CommitFailed.

(** [abi.PieceInfo] and [api.SectorPiece]; a piece without deal info is a filler. *)
Record PieceInfo := {
  Size : Z;
  PieceCID : Cid;
}.

Record DealSchedule := {
  StartEpoch : Z;
  EndEpoch : Z;
}.

Record PieceDealInfo := {
  PublishCid : option Cid;
  DealID : Z;
  DealProposal : option opaque;
  Schedule : DealSchedule; (* [DealSchedule] in the source *)
  KeepUnsealed : bool;
}.

Record SectorPiece := {
  Piece : PieceInfo;
  DealInfo : option PieceDealInfo;
}.

Record SectorLocation := {
  Local : bool;
  URL : string;
  Headers : list (string * string);
}.

Record SectorInfo := {
  State : SectorState;
  SectorNumber : Z;
  SectorType : Z;
  CreationTime : Z;
  Pieces : list SectorPiece;
  TicketValue : bytes;
  TicketEpoch : Z;
  PreCommit1Out : bytes;
  PreCommit1Fails : Z;
  CommD : option Cid;
  CommR : option Cid;
  PoRepProof : bytes; (* [Proof] in the source *)
  PreCommitDeposit : Z;
  PreCommitMessage : option Cid;
  PreCommitTipSet : TipSetKey;
  PreCommit2Fails : Z;
  SeedValue : bytes;
  SeedEpoch : Z;
  CommitMessage : option Cid;
  InvalidProofs : Z;
  CCUpdate : bool;
  CCPieces : list SectorPiece;
  UpdateSealed : option Cid;
  UpdateUnsealed : option Cid;
  ReplicaUpdateProof : bytes;
  ReplicaUpdateMessage : option Cid;
  FaultReportMsg : option Cid;
  Return : ReturnState;
  TerminateMessage : option Cid;
  TerminatedAt : Z;
  RemoteDataUnsealed : option SectorLocation;
  RemoteDataSealed : option SectorLocation;
  RemoteDataCache : option SectorLocation;
  RemoteCommit1Endpoint : string;
  RemoteCommit2Endpoint : string;
  RemoteSealingDoneEndpoint : string;
  RemoteDataFinalized : bool;
  LastErr : string;
  Log : list LogEntry;
}.

(** Field assignment.  [mk_setter] abstracts the field from the eta-expanded record. *)
Definition SectorInfo_eta (s : SectorInfo) : SectorInfo :=
  {| State := State s;
     SectorNumber := SectorNumber s;
     SectorType := SectorType s;
     CreationTime := CreationTime s;
     Pieces := Pieces s;
     TicketValue := TicketValue s;
     TicketEpoch := TicketEpoch s;
     PreCommit1Out := PreCommit1Out s;
     PreCommit1Fails := PreCommit1Fails s;
     CommD := CommD s;
     CommR := CommR s;
     PoRepProof := PoRepProof s;
     PreCommitDeposit := PreCommitDeposit s;
     PreCommitMessage := PreCommitMessage s;
     PreCommitTipSet := PreCommitTipSet s;
     PreCommit2Fails := PreCommit2Fails s;
     SeedValue := SeedValue s;
     SeedEpoch := SeedEpoch s;
     CommitMessage := CommitMessage s;
     InvalidProofs := InvalidProofs s;
     CCUpdate := CCUpdate s;
     CCPieces := CCPieces s;
     UpdateSealed := UpdateSealed s;
     UpdateUnsealed := UpdateUnsealed s;
     ReplicaUpdateProof := ReplicaUpdateProof s;
     ReplicaUpdateMessage := ReplicaUpdateMessage s;
     FaultReportMsg := FaultReportMsg s;
     Return := Return s;
     TerminateMessage := TerminateMessage s;
     TerminatedAt := TerminatedAt s;
     RemoteDataUnsealed := RemoteDataUnsealed s;
     RemoteDataSealed := RemoteDataSealed s;
     RemoteDataCache := RemoteDataCache s;
     RemoteCommit1Endpoint := RemoteCommit1Endpoint s;
     RemoteCommit2Endpoint := RemoteCommit2Endpoint s;
     RemoteSealingDoneEndpoint := RemoteSealingDoneEndpoint s;
     RemoteDataFinalized := RemoteDataFinalized s;
     LastErr := LastErr s;
     Log := Log s |}.

Ltac mk_setter proj :=
  intros v s;
  let t := eval unfold SectorInfo_eta in (SectorInfo_eta s) in
  match eval pattern (proj s) in t with
  | ?f _ => let r := eval cbv beta in (f v) in exact r
  end.

Definition set_State : SectorState -> SectorInfo -> SectorInfo := ltac:(mk_setter State).
Definition set_SectorNumber : Z -> SectorInfo -> SectorInfo := ltac:(mk_setter SectorNumber).
Definition set_SectorType : Z -> SectorInfo -> SectorInfo := ltac:(mk_setter SectorType).
Definition set_CreationTime : Z -> SectorInfo -> SectorInfo := ltac:(mk_setter CreationTime).
Definition set_Pieces : list SectorPiece -> SectorInfo -> SectorInfo := ltac:(mk_setter Pieces).
Definition set_TicketValue : bytes -> SectorInfo -> SectorInfo := ltac:(mk_setter TicketValue).
Definition set_TicketEpoch : Z -> SectorInfo -> SectorInfo := ltac:(mk_setter TicketEpoch).
Definition set_PreCommit1Out : bytes -> SectorInfo -> SectorInfo := ltac:(mk_setter PreCommit1Out).
Definition set_PreCommit1Fails : Z -> SectorInfo -> SectorInfo := ltac:(mk_setter PreCommit1Fails).
Definition set_CommD : option Cid -> SectorInfo -> SectorInfo := ltac:(mk_setter CommD).
Definition set_CommR : option Cid -> SectorInfo -> SectorInfo := ltac:(mk_setter CommR).
Definition set_PoRepProof : bytes -> SectorInfo -> SectorInfo := ltac:(mk_setter PoRepProof).
Definition set_PreCommitDeposit : Z -> SectorInfo -> SectorInfo := ltac:(mk_setter PreCommitDeposit).
Definition set_PreCommitMessage : option Cid -> SectorInfo -> SectorInfo := ltac:(mk_setter PreCommitMessage).
Definition set_PreCommitTipSet : TipSetKey -> SectorInfo -> SectorInfo := ltac:(mk_setter PreCommitTipSet).
Definition set_PreCommit2Fails : Z -> SectorInfo -> SectorInfo := ltac:(mk_setter PreCommit2Fails).
Definition set_SeedValue : bytes -> SectorInfo -> SectorInfo := ltac:(mk_setter SeedValue).
Definition set_SeedEpoch : Z -> SectorInfo -> SectorInfo := ltac:(mk_setter SeedEpoch).
Definition set_CommitMessage : option Cid -> SectorInfo -> SectorInfo := ltac:(mk_setter CommitMessage).
Definition set_InvalidProofs : Z -> SectorInfo -> SectorInfo := ltac:(mk_setter InvalidProofs).
Definition set_CCUpdate : bool -> SectorInfo -> SectorInfo := ltac:(mk_setter CCUpdate).
Definition set_CCPieces : list SectorPiece -> SectorInfo -> SectorInfo := ltac:(mk_setter CCPieces).
Definition set_UpdateSealed : option Cid -> SectorInfo -> SectorInfo := ltac:(mk_setter UpdateSealed).
Definition set_UpdateUnsealed : option Cid -> SectorInfo -> SectorInfo := ltac:(mk_setter UpdateUnsealed).
Definition set_ReplicaUpdateProof : bytes -> SectorInfo -> SectorInfo := ltac:(mk_setter ReplicaUpdateProof).
Definition set_ReplicaUpdateMessage : option Cid -> SectorInfo -> SectorInfo := ltac:(mk_setter ReplicaUpdateMessage).
Definition set_FaultReportMsg : option Cid -> SectorInfo -> SectorInfo := ltac:(mk_setter FaultReportMsg).
Definition set_Return : ReturnState -> SectorInfo -> SectorInfo := ltac:(mk_setter Return).
Definition set_TerminateMessage : option Cid -> SectorInfo -> SectorInfo := ltac:(mk_setter TerminateMessage).
Definition set_TerminatedAt : Z -> SectorInfo -> SectorInfo := ltac:(mk_setter TerminatedAt).
Definition set_Log : list LogEntry -> SectorInfo -> SectorInfo := ltac:(mk_setter Log).

(** Go's zero value, the [SectorInfo] of a sector that has seen no event. *)
Definition zeroSectorInfo : SectorInfo :=
  {| State := EmptyString;
     SectorNumber := 0;
     SectorType := 0;
     CreationTime := 0;
     Pieces := [];
     TicketValue := [];
     TicketEpoch := 0;
     PreCommit1Out := [];
     PreCommit1Fails := 0;
     CommD := None;
     CommR := None;
     PoRepProof := [];
     PreCommitDeposit := 0;
     PreCommitMessage := None;
     PreCommitTipSet := EmptyString;
     PreCommit2Fails := 0;
     SeedValue := [];
     SeedEpoch := 0;
     CommitMessage := None;
     InvalidProofs := 0;
     CCUpdate := false;
     CCPieces := [];
     UpdateSealed := None;
     UpdateUnsealed := None;
     ReplicaUpdateProof := [];
     ReplicaUpdateMessage := None;
     FaultReportMsg := None;
     Return := EmptyString;
     TerminateMessage := None;
     TerminatedAt := 0;
     RemoteDataUnsealed := None;
     RemoteDataSealed := None;
     RemoteDataCache := None;
     RemoteCommit1Endpoint := EmptyString;
     RemoteCommit2Endpoint := EmptyString;
     RemoteSealingDoneEndpoint := EmptyString;
     RemoteDataFinalized := false;
     LastErr := EmptyString;
     Log := [] |}.
