(* ===== verification/Pieces.v ===== *)
(** * Piece layout in a sector

    [fillersFromRem] (storage/pipeline/utils.go), [GetRequiredPadding] and the layout that
    [GenerateUnsealedCID] passes to the proofs library
    (storage/sealer/ffiwrapper/sealer_cgo.go).  Pieces are powers of two and each must
    start at a multiple of its size. *)

From S2P Require Import Prelude SealingTypes.

(** ** math/bits *)

Definition OnesCount64 (x : Z) : nat :=
  length (filter (fun i => Z.testbit x (Z.of_nat i) = true) (seq 0 64)).

Definition TrailingZeros64 (x : Z) : Z :=
  match list_find (fun i => Z.testbit x (Z.of_nat i) = true) (seq 0 64) with
  | Some (_, i) => Z.of_nat i
  | None => 64
  end.

(** ** Piece sizes: [abi.PaddedPieceSize] and [abi.UnpaddedPieceSize]

    The conversions are those of go-state-types: 128 bytes of a sector hold 127 bytes of
    data. *)
Class PieceSizes := {
  Unpadded : Z -> Z;
  Padded : Z -> Z;
}.

Class PieceSizesOk `{PieceSizes} : Prop := {
  Unpadded_ok s : in_u64 s -> Unpadded s = s - s / 128;
  Padded_ok s : 0 <= s -> in_u64 (s + s / 127) -> Padded s = s + s / 127;
}.

#[export] Instance stdPieceSizes : PieceSizes := {|
  Unpadded := fun s => u64 (s - s / 128);
  Padded := fun s => u64 (s + s / 127);
|}.

#[export] Instance stdPieceSizesOk : PieceSizesOk.
Proof.
  split; intros; simpl; apply u64_id; [|done]. unfold in_u64 in *.
  pose proof (Z.div_le_upper_bound s 128 s). pose proof (Z.div_pos s 128). lia.
Qed.

(** ** Splitting into powers of two *)

(** The loop of [fillersFromRem] and of [GetRequiredPadding]: the lowest set bit, [n] times. *)
Fixpoint lowestBits (n : nat) (toFill : Z) : list Z :=
  match n with
  | O => []
  | S n =>
      let next := TrailingZeros64 toFill in
      let psize := u64 (Z.shiftl 1 next) in
      psize :: lowestBits n (Z.lxor toFill psize)
  end.

Definition fillersFromRem `{PieceSizes} (in_ : Z) : list Z :=
  let toFill := u64 (in_ + in_ / 127) in
  Unpadded <$> lowestBits (OnesCount64 toFill) toFill.

(** [None] is the panic of a division by zero. *)
Definition GetRequiredPadding (oldLength newPieceLength : Z) : option (list Z * Z) :=
  if newPieceLength =? 0 then None
  else
    let toFill := u64 (- oldLength) mod newPieceLength in
    let padPieces := lowestBits (OnesCount64 toFill) toFill in
    Some (padPieces, foldl (fun sum padded => u64 (sum + padded)) 0 padPieces).

(** ** The pieces of [GenerateUnsealedCID] *)

Section layout.
Context `{PieceSizes} (ZeroPieceCommitment : Z -> Cid).

Definition zeroPiece (p : Z) : PieceInfo :=
  {| Size := p; PieceCID := ZeroPieceCommitment (Unpadded p) |}.

(** [padTo] on the pieces so far and their sum. *)
Definition padTo (pads : list Z) (st : list PieceInfo * Z) : list PieceInfo * Z :=
  foldl (fun '(all, sum) p => (all ++ [zeroPiece p], u64 (sum + p))) st pads.

Definition layoutPiece (st : option (list PieceInfo * Z)) (p : PieceInfo)
    : option (list PieceInfo * Z) :=
  '(all, sum) ← st;
  '(ps, _) ← GetRequiredPadding sum (Size p);
  let '(all, sum) := padTo ps (all, sum) in
  Some (all ++ [p], u64 (sum + Size p)).

(** The list [allPieces]; [None] is a panic. *)
Definition layoutPieces (pssize : Z) (pieces : list PieceInfo) : option (list PieceInfo) :=
  match pieces with
  | [] => Some [zeroPiece pssize]
  | _ =>
      '(all, sum) ← foldl layoutPiece (Some ([], 0)) pieces;
      '(ps, _) ← GetRequiredPadding sum pssize;
      Some (padTo ps (all, sum)).1
  end.

Definition GenerateUnsealedCID (SectorSize : outcome Z)
    (ffi_GenerateUnsealedCID : list PieceInfo -> outcome Cid) (pieces : list PieceInfo)
    : outcome Cid :=
  ssize ← SectorSize;
  match layoutPieces ssize pieces with
  | Some allPieces => ffi_GenerateUnsealedCID allPieces
  | None => Panic
  end.
End layout.

(** ** Bits *)

Definition low_zero (k : nat) (x : Z) : Prop := forall i, 0 <= i < Z.of_nat k -> Z.testbit x i = false.

(** The set bits from [k] on, as powers of two. *)
Definition bits_from (k n : nat) (x : Z) : list Z :=
  (fun i => 2 ^ Z.of_nat i) <$> filter (fun i => Z.testbit x (Z.of_nat i) = true) (seq k n).

Lemma bits_from_S k n x :
  bits_from k (S n) x =
    (if Z.testbit x (Z.of_nat k) then [2 ^ Z.of_nat k] else []) ++ bits_from (S k) n x.
Proof.
  unfold bits_from. simpl. rewrite filter_cons. by destruct (Z.testbit x (Z.of_nat k)).
Qed.

Lemma clear_bit x k :
  0 <= k -> Z.testbit x k = true -> Z.lxor x (2 ^ k) = x - 2 ^ k.
Proof.
  intros Hk Hb. assert (Z.lxor x (2 ^ k) = Z.ldiff x (2 ^ k)) as ->.
  { apply Z.bits_inj'. intros i Hi. rewrite Z.lxor_spec, Z.ldiff_spec, Z.pow2_bits_eqb by done.
    destruct (Z.eqb_spec k i) as [->|]; [rewrite Hb|]; by destruct (Z.testbit x i). }
  symmetry. apply Z.sub_nocarry_ldiff. apply Z.bits_inj'. intros i Hi.
  rewrite Z.ldiff_spec, Z.pow2_bits_eqb, Z.bits_0 by done.
  destruct (Z.eqb_spec k i) as [->|]; [by rewrite Hb|done].
Qed.

Lemma low_zero_S k x : low_zero k x -> Z.testbit x (Z.of_nat k) = false -> low_zero (S k) x.
Proof.
  intros Hl Hk i Hi. destruct (decide (i = Z.of_nat k)) as [->|]; [done|]. apply Hl. lia.
Qed.

Lemma low_zero_clear k x :
  low_zero k x -> Z.testbit x (Z.of_nat k) = true -> low_zero (S k) (Z.lxor x (2 ^ Z.of_nat k)).
Proof.
  intros Hl Hk i Hi. rewrite Z.lxor_spec, Z.pow2_bits_eqb by lia.
  destruct (Z.eqb_spec (Z.of_nat k) i) as [<-|]; [by rewrite Hk|].
  rewrite Hl by lia. done.
Qed.

Lemma clear_bit_above k x i :
  Z.of_nat k < i -> Z.testbit (Z.lxor x (2 ^ Z.of_nat k)) i = Z.testbit x i.
Proof.
  intros Hi. rewrite Z.lxor_spec, Z.pow2_bits_eqb by lia.
  destruct (Z.eqb_spec (Z.of_nat k) i); [lia|]. by destruct (Z.testbit x i).
Qed.

Lemma bits_from_ext k n x y :
  (forall i, Z.of_nat k <= i -> Z.testbit x i = Z.testbit y i) -> bits_from k n x = bits_from k n y.
Proof.
  revert k. induction n as [|n IH]; intros k Hxy; [done|].
  rewrite !bits_from_S, Hxy, (IH (S k)) by (try intros; try apply Hxy; lia). done.
Qed.

Lemma bits_from_clear k n x : bits_from (S k) n (Z.lxor x (2 ^ Z.of_nat k)) = bits_from (S k) n x.
Proof. apply bits_from_ext. intros i Hi. apply clear_bit_above. lia. Qed.

Lemma TrailingZeros64_low k x :
  (k < 64)%nat -> low_zero k x -> Z.testbit x (Z.of_nat k) = true -> TrailingZeros64 x = Z.of_nat k.
Proof.
  intros Hk Hl Hb. unfold TrailingZeros64.
  replace (list_find _ _) with (Some (k, k)); [done|]. symmetry. apply list_find_Some.
  rewrite lookup_seq. split; [lia|]. split; [done|].
  intros j y [-> Hj]%lookup_seq ?. rewrite Hl by lia. done.
Qed.

Lemma lowestBits_from k n x :
  (k + n = 64)%nat -> low_zero k x -> lowestBits (length (bits_from k n x)) x = bits_from k n x.
Proof.
  revert k x. induction n as [|n IH]; intros k x Hk Hl; [done|]. rewrite bits_from_S.
  destruct (Z.testbit x (Z.of_nat k)) eqn:Hb; simpl.
  - rewrite (TrailingZeros64_low k), Z.shiftl_1_l by (done || lia).
    rewrite u64_id by (unfold in_u64; split; [lia|]; change 18446744073709551616 with (2 ^ 64);
      apply Z.pow_lt_mono_r; lia).
    f_equal. rewrite <- (bits_from_clear k). apply IH; [lia|]. by apply low_zero_clear.
  - apply IH; [lia|]. by apply low_zero_S.
Qed.

Lemma low_zero_0 x : low_zero 0 x.
Proof. intros i Hi. simpl in Hi. lia. Qed.

Definition bits64 (x : Z) : list Z := bits_from 0 64 x.

(** The loops compute the set bits in increasing order. *)
Lemma lowestBits_bits x : lowestBits (OnesCount64 x) x = bits64 x.
Proof.
  unfold bits64. rewrite <- (lowestBits_from 0 64) by (done || apply low_zero_0).
  unfold bits_from at 1. by rewrite length_fmap.
Qed.

Lemma low_zero_divide k x : low_zero k x -> (2 ^ Z.of_nat k | x).
Proof.
  intros Hl. apply Z.mod_divide; [lia|]. rewrite <- Z.land_ones by lia.
  apply Z.bits_inj'. intros i Hi. rewrite Z.land_spec, Z.bits_0.
  destruct (Z.lt_ge_cases i (Z.of_nat k)).
  - by rewrite Hl by lia.
  - rewrite Z.ones_spec_high by lia. apply andb_false_r.
Qed.

Lemma low_zero_bit_le k x : 0 <= x -> Z.testbit x (Z.of_nat k) = true -> 2 ^ Z.of_nat k <= x.
Proof.
  intros Hx Hb. destruct (Z.lt_ge_cases x (2 ^ Z.of_nat k)) as [Hlt|]; [|done].
  exfalso. destruct (decide (x = 0)) as [->|]; [by rewrite Z.bits_0 in Hb|].
  rewrite Z.bits_above_log2 in Hb; [done..|]. apply Z.log2_lt_pow2; lia.
Qed.

Lemma bits_from_sum k n x :
  low_zero k x -> 0 <= x < 2 ^ Z.of_nat (k + n) -> sumZ id (bits_from k n x) = x.
Proof.
  revert k x. induction n as [|n IH]; intros k x Hl Hx.
  - simpl. rewrite Nat.add_0_r in Hx. destruct (low_zero_divide k x Hl) as [q ->].
    rewrite <- (Z.mod_small (q * _) (2 ^ Z.of_nat k)) by done.
    by rewrite Z.mod_mul by lia.
  - rewrite bits_from_S. replace (k + S n)%nat with (S k + n)%nat in Hx by lia.
    destruct (Z.testbit x (Z.of_nat k)) eqn:Hb; simpl.
    + pose proof (low_zero_bit_le k x (proj1 Hx) Hb).
      rewrite <- bits_from_clear, IH, clear_bit by
        (try apply low_zero_clear; try rewrite clear_bit; done || lia). unfold id. lia.
    + apply IH; [by apply low_zero_S|done].
Qed.

(** ** Alignment *)

(** Every piece of a list placed from [at_] on starts at a multiple of its size. *)
Fixpoint aligned (at_ : Z) (l : list Z) : Prop :=
  match l with
  | [] => True
  | p :: l => (p | at_) /\ aligned (at_ + p) l
  end.

Lemma aligned_app at_ l1 l2 : aligned at_ (l1 ++ l2) <-> aligned at_ l1 /\ aligned (at_ + sumZ id l1) l2.
Proof.
  revert at_. induction l1 as [|p l1 IH]; intros at_; simpl; [rewrite Z.add_0_r; tauto|].
  rewrite IH. unfold id at 2. rewrite Z.add_assoc. tauto.
Qed.

Lemma bits_from_aligned k n x m at_ :
  low_zero k x -> 0 <= x <= 2 ^ Z.of_nat m -> (2 ^ Z.of_nat m | at_ + x) -> aligned at_ (bits_from k n x).
Proof.
  revert k x at_. induction n as [|n IH]; intros k x at_ Hl Hx Hd; [done|]. rewrite bits_from_S.
  destruct (Z.testbit x (Z.of_nat k)) eqn:Hb; [|by apply IH; [apply low_zero_S|..]].
  pose proof (low_zero_bit_le k x (proj1 Hx) Hb). simpl. split.
  - apply (Z.divide_add_cancel_r _ x); [by apply low_zero_divide|]. rewrite Z.add_comm.
    etrans; [|exact Hd]. exists (2 ^ (Z.of_nat m - Z.of_nat k)).
    rewrite <- Z.pow_add_r; [f_equal; lia| |lia].
    assert (Z.of_nat k <= Z.of_nat m); [|lia]. apply (Z.pow_le_mono_r_iff 2); lia.
  - rewrite <- bits_from_clear. apply IH; [by apply low_zero_clear|..];
      rewrite clear_bit by (done || lia); [lia|].
    by replace (at_ + 2 ^ Z.of_nat k + (x - 2 ^ Z.of_nat k)) with (at_ + x) by lia.
Qed.

(** ** Sums *)

Lemma foldl_u64 {A} (f : A -> Z) l a :
  in_u64 a -> foldl (fun sum p => u64 (sum + f p)) a l = u64 (a + sumZ f l).
Proof.
  revert a. induction l as [|p l IH]; intros a Ha; simpl; [by rewrite Z.add_0_r, u64_id|].
  rewrite IH by apply u64_range. by rewrite u64_add_l, Z.add_assoc.
Qed.

Lemma bits64_sum x : in_u64 x -> sumZ id (bits64 x) = x.
Proof. intros Hx. apply bits_from_sum; [apply low_zero_0|exact Hx]. Qed.

Definition pow2 (p : Z) : Prop := exists i, 0 <= i <= 63 /\ p = 2 ^ i.

Lemma pow2_u64 p : pow2 p -> 0 < p < 18446744073709551616.
Proof.
  intros (i & Hi & ->). change 18446744073709551616 with (2 ^ 64).
  split; [lia|]. apply Z.pow_lt_mono_r; lia.
Qed.

Lemma bits64_pow2 x : Forall pow2 (bits64 x).
Proof.
  apply Forall_forall. intros p (i & -> & Hi)%list_elem_of_fmap.
  apply list_elem_of_filter in Hi as [_ Hi%elem_of_seq]. exists (Z.of_nat i). split; [lia|done].
Qed.

Lemma bits64_divide x k : (k <= 64)%nat -> (2 ^ Z.of_nat k | x) -> Forall (fun p => (2 ^ Z.of_nat k | p)) (bits64 x).
Proof.
  intros Hk [q ->]. apply Forall_forall. intros p (i & -> & Hi)%list_elem_of_fmap.
  apply list_elem_of_filter in Hi as [Hb _].
  rewrite Z.mul_pow2_bits in Hb by lia.
  destruct (Z.lt_ge_cases (Z.of_nat i) (Z.of_nat k)); [rewrite Z.testbit_neg_r in Hb by lia; done|].
  exists (2 ^ (Z.of_nat i - Z.of_nat k)). rewrite <- Z.pow_add_r by lia. f_equal. lia.
Qed.

(** A power of two divides 2^64, so that negation may wrap. *)
Lemma u64_neg_mod old new : pow2 new -> u64 (- old) mod new = - old mod new.
Proof.
  intros (i & Hi & ->). unfold u64.
  apply Z.mod_mod_divide.
  exists (2 ^ (64 - i)). rewrite <- Z.pow_add_r by lia. by replace (64 - i + i) with 64 by lia.
Qed.

Record padding_ok (old new : Z) (pads : list Z) (sum : Z) : Prop := {
  pad_sum : sumZ id pads = sum;
  pad_range : 0 <= sum < new;
  pad_divide : (new | old + sum);
  pad_aligned : aligned old pads;
  pad_pow2 : Forall pow2 pads;
  pad_least d : 0 <= d -> (new | old + d) -> sum <= d;
}.

Lemma GetRequiredPadding_ok old new :
  pow2 new -> exists pads sum, GetRequiredPadding old new = Some (pads, sum) /\ padding_ok old new pads sum.
Proof.
  intros Hnew. pose proof (pow2_u64 new Hnew) as Hn. unfold GetRequiredPadding.
  destruct (Z.eqb_spec new 0); [lia|]. rewrite u64_neg_mod by done.
  set (x := - old mod new). assert (0 <= x < new) as Hx by (apply Z.mod_pos_bound; lia).
  rewrite lowestBits_bits, (foldl_u64 id) by (unfold in_u64; lia).
  rewrite bits64_sum, Z.add_0_l, u64_id by (unfold in_u64; lia).
  assert ((new | old + x)) as Hd.
  { exists (- (- old / new)). unfold x. rewrite Z.mod_eq by lia. lia. }
  eexists _, _. split; [done|]. constructor; [by apply bits64_sum; unfold in_u64; lia|done|done|..].
  - destruct Hnew as (i & Hi & E). rewrite E in Hx, Hd.
    apply (bits_from_aligned 0 64 x (Z.to_nat i)); [apply low_zero_0|..];
      rewrite Z2Nat.id by lia; [lia|done].
  - apply bits64_pow2.
  - intros d Hd0 [q Hq]. destruct Hd as [q' Hq']. destruct (Z.le_gt_cases q' q); nia.
Qed.

(** [GetRequiredPadding] inserts the least padding after which a piece of power-of-two
    size is aligned: the pads are powers of two in an order in which each of them is
    itself aligned, and they add up to the returned length. *)
Theorem required_padding_least old new :
  pow2 new -> exists pads sum, GetRequiredPadding old new = Some (pads, sum) /\ padding_ok old new pads sum.
Proof. apply GetRequiredPadding_ok. Qed.

Lemma required_padding_least_witness :
  exists pads sum, GetRequiredPadding 1152 2048 = Some (pads, sum) /\ pads = [128; 256; 512] /\
    padding_ok 1152 2048 pads sum.
Proof.
  destruct (required_padding_least 1152 2048) as (pads & sum & H & Hok); [exists 11; lia|].
  exists pads, sum. split; [exact H|]. split; [|exact Hok].
  assert (GetRequiredPadding 1152 2048 = Some ([128; 256; 512], 896)) as E by by vm_compute.
  rewrite E in H. by injection H as <- _.
Defined.

(** ** Filling a sector *)

Section sizes.
Context `{PieceSizesOk}.

Lemma Unpadded_mul k : 0 <= k -> 128 * k < 18446744073709551616 -> Unpadded (128 * k) = 127 * k.
Proof.
  intros Hk Hlt. rewrite Unpadded_ok by (unfold in_u64; lia).
  rewrite (Z.mul_comm 128), Z.div_mul by lia. lia.
Qed.

Lemma sum_Unpadded l :
  Forall pow2 l -> Forall (fun p => (128 | p)) l ->
  128 * sumZ id (Unpadded <$> l) = 127 * sumZ id l.
Proof.
  induction l as [|p l IH]; intros Hp Hd; [done|].
  apply Forall_cons in Hp as [Hp Hps]. apply Forall_cons in Hd as [[q ->] Hds].
  pose proof (pow2_u64 _ Hp). specialize (IH Hps Hds).
  rewrite fmap_cons, !sumZ_id_cons, (Z.mul_comm q 128), Unpadded_mul by lia. lia.
Qed.

(** The fillers of a sector of size 2^m with [at_] bytes in use complete it exactly: they are
    the unpadded sizes of powers of two that fill the rest of the sector, each aligned where
    it is put, and they add up to the user bytes that were left. *)
Lemma fillersFromRem_ok m at_ :
  7 <= m <= 63 -> (128 | at_) -> 0 <= at_ <= 2 ^ m ->
  exists pads, fillersFromRem (Unpadded (2 ^ m) - Unpadded at_) = Unpadded <$> pads /\
    sumZ id pads = 2 ^ m - at_ /\ aligned at_ pads /\ Forall (fun p => pow2 p /\ (128 | p)) pads /\
    sumZ id (Unpadded <$> pads) = Unpadded (2 ^ m) - Unpadded at_.
Proof.
  intros Hm [c ->] Hat. rewrite (Z.mul_comm c) in *.
  assert (2 ^ m < 18446744073709551616) as Hlt
    by (change 18446744073709551616 with (2 ^ 64); apply Z.pow_lt_mono_r; lia).
  assert (2 ^ m = 128 * 2 ^ (m - 7)) as E
    by (change 128 with (2 ^ 7); rewrite <- Z.pow_add_r by lia; f_equal; lia).
  set (n := 2 ^ (m - 7)) in *. rewrite E in Hat, Hlt |- *. rewrite !Unpadded_mul by lia.
  unfold fillersFromRem.
  replace (127 * n - 127 * c) with ((n - c) * 127) by lia. rewrite Z.div_mul by lia.
  replace ((n - c) * 127 + (n - c)) with (128 * n - 128 * c) by lia.
  assert (in_u64 (128 * n - 128 * c)) as Hx by (unfold in_u64; lia).
  rewrite u64_id, lowestBits_bits by done. exists (bits64 (128 * n - 128 * c)).
  assert (Forall pow2 (bits64 (128 * n - 128 * c))) as Hp by apply bits64_pow2.
  assert (Forall (fun p => (128 | p)) (bits64 (128 * n - 128 * c))) as Hd.
  { apply (bits64_divide _ 7); [lia|]. exists (n - c). change (2 ^ Z.of_nat 7) with 128. lia. }
  split; [done|]. split; [by apply bits64_sum|]. split; [|split; [by apply Forall_and|]].
  - apply (bits_from_aligned 0 64 _ (Z.to_nat m)); [apply low_zero_0|..];
      rewrite Z2Nat.id by lia; rewrite E; [lia|]. by exists 1; lia.
  - pose proof (sum_Unpadded _ Hp Hd) as Hs. rewrite bits64_sum in Hs by done. lia.
Qed.
End sizes.

(** ** The layout of a sector's pieces *)

Section layout_ok.
Context `{PieceSizes} (ZeroPieceCommitment : Z -> Cid).
Notation zero := (zeroPiece ZeroPieceCommitment).

Lemma padTo_spec pads all sum :
  in_u64 sum -> padTo ZeroPieceCommitment pads (all, sum) = (all ++ (zero <$> pads), u64 (sum + sumZ id pads)).
Proof.
  unfold padTo. revert all sum. induction pads as [|p pads IH]; intros all sum Hs; simpl.
  { by rewrite app_nil_r, Z.add_0_r, u64_id. }
  rewrite IH by apply u64_range. rewrite <- app_assoc, u64_add_l. unfold id. simpl.
  by rewrite Z.add_assoc.
Qed.

(** What holds of the pieces placed so far. *)
Record laid_out (pieces all : list PieceInfo) (sum : Z) : Prop := {
  lo_sum : sumZ Size all = sum;
  lo_aligned : aligned 0 (Size <$> all);
  lo_sub : pieces `sublist_of` all;
  lo_from : Forall (fun p => p ∈ pieces \/ exists n, p = zero n) all;
}.

Lemma sumZ_fmap_zero pads : sumZ Size (zero <$> pads) = sumZ id pads.
Proof. induction pads; [done|]. rewrite fmap_cons, sumZ_cons, sumZ_id_cons. simpl. lia. Qed.

Lemma fmap_Size_zero (pads : list Z) : Size <$> (zero <$> pads) = pads.
Proof. induction pads; simpl; [done|]. by f_equal. Qed.

Lemma sumZ_fmap_Size all : sumZ id (Size <$> all) = sumZ Size all.
Proof. induction all; [done|]. rewrite fmap_cons, sumZ_id_cons, sumZ_cons. lia. Qed.

Lemma laid_out_pads pieces all sum new pads s :
  laid_out pieces all sum -> padding_ok sum new pads s ->
  laid_out pieces (all ++ (zero <$> pads)) (sum + s).
Proof.
  intros [Hs Ha Hsub Hf] Hp. constructor.
  - rewrite sumZ_app, sumZ_fmap_zero, (pad_sum _ _ _ _ Hp). lia.
  - rewrite fmap_app, fmap_Size_zero. apply aligned_app. split; [done|].
    rewrite sumZ_fmap_Size, Hs. apply (pad_aligned _ _ _ _ Hp).
  - by apply sublist_inserts_r.
  - apply Forall_app. split; [done|]. apply Forall_fmap, Forall_forall. intros p _. right. by exists p.
Qed.

Lemma laid_out_piece pieces all sum p :
  laid_out pieces all sum -> (Size p | sum) -> laid_out (pieces ++ [p]) (all ++ [p]) (sum + Size p).
Proof.
  intros [Hs Ha Hsub Hf] Hd. constructor.
  - rewrite sumZ_app. simpl. lia.
  - rewrite fmap_app. apply aligned_app. split; [done|]. rewrite sumZ_fmap_Size, Hs. simpl. auto.
  - by apply sublist_app.
  - apply Forall_app. split.
    + eapply Forall_impl; [exact Hf|]. intros q [Hq|Hq]; [left|by right]. apply elem_of_app. by left.
    + constructor; [|done]. left. apply elem_of_app. right. by apply list_elem_of_singleton.
Qed.

(** The loop over the pieces: at most as much padding as data. *)
Lemma layoutPieces_loop done all sum pieces :
  laid_out done all sum -> 0 <= sum -> Forall (fun p => pow2 (Size p)) pieces ->
  sum + 2 * sumZ Size pieces < 18446744073709551616 ->
  exists all' sum', foldl (layoutPiece ZeroPieceCommitment) (Some (all, sum)) pieces = Some (all', sum') /\
    laid_out (done ++ pieces) all' sum' /\ 0 <= sum' <= sum + 2 * sumZ Size pieces.
Proof.
  revert done all sum. induction pieces as [|p pieces IH]; intros done all sum Hl H0 Hp Hb; simpl in *.
  { exists all, sum. rewrite app_nil_r. split; [reflexivity|]. split; [done|lia]. }
  apply Forall_cons in Hp as [Hp Hps]. pose proof (pow2_u64 _ Hp).
  assert (0 <= sumZ Size pieces).
  { clear -Hps. induction Hps as [|q l Hq _ IHq]; simpl; [lia|]. pose proof (pow2_u64 _ Hq). lia. }
  destruct (GetRequiredPadding_ok sum (Size p) Hp) as (pads & s & Hg & Hpad).
  pose proof (pad_range _ _ _ _ Hpad) as Hr.
  rewrite Hg. simpl. rewrite padTo_spec, (pad_sum _ _ _ _ Hpad) by (unfold in_u64; lia).
  rewrite !(u64_id (sum + s)), u64_id by (unfold in_u64; lia).
  destruct (IH (done ++ [p]) ((all ++ (zero <$> pads)) ++ [p]) (sum + s + Size p))
    as (all' & sum' & Hf & Hl' & Hs'); [| |done| |].
  - apply laid_out_piece; [by eapply laid_out_pads|apply (pad_divide _ _ _ _ Hpad)].
  - lia.
  - lia.
  - exists all', sum'. split; [done|]. rewrite <- app_assoc in Hl'. split; [done|lia].
Qed.

(** The pieces whose commitment is computed for a sector form a complete layout: the
    given pieces in order, with zero pieces between and after them, every piece at a
    multiple of its size and the whole a multiple of the sector size. *)
Theorem layout_complete pssize pieces :
  pow2 pssize -> Forall (fun p => pow2 (Size p)) pieces ->
  2 * sumZ Size pieces + pssize < 18446744073709551616 ->
  exists all, layoutPieces ZeroPieceCommitment pssize pieces = Some all /\
    laid_out pieces all (sumZ Size all) /\ (pssize | sumZ Size all) /\
    sumZ Size all <= 2 * sumZ Size pieces + pssize.
Proof.
  intros Hps Hp Hb. pose proof (pow2_u64 _ Hps). unfold layoutPieces.
  destruct pieces as [|p0 pieces'] eqn:Epieces.
  { exists [zero pssize]. simpl. split; [done|]. rewrite Z.add_0_r. split; [|split; [by exists 1; lia|lia]].
    constructor; simpl; [lia|split; [apply Z.divide_0_r|done]|apply sublist_nil_l|].
    apply Forall_singleton. right. by exists pssize. }
  rewrite <- Epieces in *. clear Epieces p0 pieces'.
  destruct (layoutPieces_loop [] [] 0 pieces) as (all & sum & -> & Hl & Hs);
    [by constructor|lia|done|lia|]. simpl.
  destruct (GetRequiredPadding_ok sum pssize Hps) as (pads & s & -> & Hpad). simpl.
  pose proof (pad_range _ _ _ _ Hpad).
  rewrite padTo_spec by (unfold in_u64; lia). simpl.
  pose proof (laid_out_pads _ _ _ _ _ _ Hl Hpad) as Hl'.
  exists (all ++ (zero <$> pads)). split; [done|].
  rewrite (lo_sum _ _ _ Hl'). split; [done|]. split; [apply (pad_divide _ _ _ _ Hpad)|lia].
Qed.
End layout_ok.

Lemma layout_complete_witness :
  exists all, layoutPieces (fun _ => "zero") 2048 [{| Size := 128; PieceCID := "a" |};
      {| Size := 512; PieceCID := "b" |}] = Some all /\
    Size <$> all = [128; 128; 256; 512; 1024] /\ (2048 | sumZ Size all).
Proof.
  pose (pieces := [{| Size := 128; PieceCID := "a" |}; {| Size := 512; PieceCID := "b" |}]).
  destruct (layout_complete (fun _ => "zero") 2048 pieces) as (all & H & _ & Hd & _).
  - exists 11. lia.
  - repeat constructor; [exists 7|exists 9]; simpl; lia.
  - by vm_compute.
  - exists all. split; [exact H|]. split; [|exact Hd]. vm_compute in H. by injection H as <-.
Defined.
