(* ===== verification/SealingEvents.v ===== *)
(** * The sealing state machine's events: storage/pipeline/fsm_events.go

    [Event] has one constructor per event struct of the source.  [event_apply] is the
    [apply] method of the events that implement [mutator], [applyGlobal] the one
    of those that implement [globalMutator]. *)

From S2P Require Import Prelude SealingTypes.

Inductive Event :=
(* Global events *)
| SectorRestart
| SectorFatalError (err : string)
| SectorForceState (st : SectorState)
(* Normal path *)
| SectorStart (ID sectorType : Z)
| SectorStartCC (ID sectorType : Z)
| SectorAddPiece
| SectorPieceAdded (NewPieces : list SectorPiece)
| SectorAddPieceFailed (err : string)
| SectorRetryWaitDeals
| SectorStartPacking
| SectorPacked (FillerPieces : list PieceInfo)
| SectorTicket (ticketValue : bytes) (ticketEpoch : Z)
| SectorOldTicket
| SectorPreCommit1 (preCommit1Out : bytes)
| SectorPreCommit2 (Sealed Unsealed : Cid)
| SectorPreCommitBatch
| SectorPreCommitBatchSent (msg : Cid)
| SectorPreCommitLanded (tipSet : TipSetKey)
| SectorSealPreCommit1Failed (err : string)
| SectorSealPreCommit2Failed (err : string)
| SectorChainPreCommitFailed (err : string)
| SectorPreCommitted (msg : Cid) (preCommitDeposit : Z) (preCommitInfo : opaque)
| SectorSeedReady (seedValue : bytes) (seedEpoch : Z)
| SectorRemoteCommit1Failed (err : string)
| SectorRemoteCommit2Failed (err : string)
| SectorComputeProofFailed (err : string)
| SectorCommitFailed (err : string)
| SectorRetrySubmitCommit
| SectorDealsExpired (err : string)
| SectorTicketExpired (err : string)
| SectorCommitted (proof : bytes)
| SectorProofReady (proof : bytes)
| SectorSubmitCommitAggregate
| SectorCommitSubmitted (msg : Cid)
| SectorCommitAggregateSent (msg : Cid)
| SectorProving
| SectorFinalized
| SectorFinalizedAvailable
| SectorRetryFinalize
| SectorFinalizeFailed (err : string)
(* Snap deals: the CC update path *)
| SectorMarkForUpdate
| SectorStartCCUpdate
| SectorReplicaUpdate (NewSealed NewUnsealed : Cid)
| SectorProveReplicaUpdate (proof : bytes)
| SectorReplicaUpdateSubmitted (msg : Cid)
| SectorReplicaUpdateLanded
| SectorUpdateActive
| SectorKeyReleased
(* Failed state recovery *)
| SectorRetrySealPreCommit1
| SectorRetrySealPreCommit2
| SectorRetryPreCommit
| SectorRetryWaitSeed
| SectorRetryPreCommitWait
| SectorRetryComputeProof
| SectorRetryInvalidProof
| SectorRetryCommitWait
| SectorInvalidDealIDs (return_ : ReturnState)
| SectorUpdateDealIDs (Updates : gmap Z Z)
(* Snap deals failure and recovery *)
| SectorRetryReplicaUpdate
| SectorRetryProveReplicaUpdate
| SectorUpdateReplicaFailed (err : string)
| SectorProveReplicaUpdateFailed (err : string)
| SectorAbortUpgrade (err : string)
| SectorRevertUpgradeToProving
| SectorRetrySubmitReplicaUpdateWait
| SectorRetrySubmitReplicaUpdate
| SectorSubmitReplicaUpdateFailed
| SectorDeadlineImmutable
| SectorDeadlineMutable
| SectorReleaseKeyFailed (err : string)
(* Faults *)
| SectorFaulty
| SectorFaultReported (reportMsg : Cid)
| SectorFaultedFinal
(* Terminating *)
| SectorTerminate
| SectorTerminating (msg : option Cid)
| SectorTerminated (terminatedAt : Z)
| SectorTerminateFailed (err : string)
(* External events *)
| SectorRemove
| SectorRemoved
| SectorRemoveFailed (err : string)
| SectorReceive (info : SectorInfo)
| SectorReceived.

(** The dynamic type of an event, what [reflect.TypeOf] distinguishes. *)
Inductive EventType :=
| TSectorRestart | TSectorFatalError | TSectorForceState
| TSectorStart | TSectorStartCC | TSectorAddPiece
| TSectorPieceAdded | TSectorAddPieceFailed | TSectorRetryWaitDeals
| TSectorStartPacking | TSectorPacked | TSectorTicket
| TSectorOldTicket | TSectorPreCommit1 | TSectorPreCommit2
| TSectorPreCommitBatch | TSectorPreCommitBatchSent | TSectorPreCommitLanded
| TSectorSealPreCommit1Failed | TSectorSealPreCommit2Failed | TSectorChainPreCommitFailed
| TSectorPreCommitted | TSectorSeedReady | TSectorRemoteCommit1Failed
| TSectorRemoteCommit2Failed | TSectorComputeProofFailed | TSectorCommitFailed
| TSectorRetrySubmitCommit | TSectorDealsExpired | TSectorTicketExpired
| TSectorCommitted | TSectorProofReady | TSectorSubmitCommitAggregate
| TSectorCommitSubmitted | TSectorCommitAggregateSent | TSectorProving
| TSectorFinalized | TSectorFinalizedAvailable | TSectorRetryFinalize
| TSectorFinalizeFailed | TSectorMarkForUpdate | TSectorStartCCUpdate
| TSectorReplicaUpdate | TSectorProveReplicaUpdate | TSectorReplicaUpdateSubmitted
| TSectorReplicaUpdateLanded | TSectorUpdateActive | TSectorKeyReleased
| TSectorRetrySealPreCommit1 | TSectorRetrySealPreCommit2 | TSectorRetryPreCommit
| TSectorRetryWaitSeed | TSectorRetryPreCommitWait | TSectorRetryComputeProof
| TSectorRetryInvalidProof | TSectorRetryCommitWait | TSectorInvalidDealIDs
| TSectorUpdateDealIDs | TSectorRetryReplicaUpdate | TSectorRetryProveReplicaUpdate
| TSectorUpdateReplicaFailed | TSectorProveReplicaUpdateFailed | TSectorAbortUpgrade
| TSectorRevertUpgradeToProving | TSectorRetrySubmitReplicaUpdateWait | TSectorRetrySubmitReplicaUpdate
| TSectorSubmitReplicaUpdateFailed | TSectorDeadlineImmutable | TSectorDeadlineMutable
| TSectorReleaseKeyFailed | TSectorFaulty | TSectorFaultReported
| TSectorFaultedFinal | TSectorTerminate | TSectorTerminating
| TSectorTerminated | TSectorTerminateFailed | TSectorRemove
| TSectorRemoved | TSectorRemoveFailed | TSectorReceive
| TSectorReceived.

#[export] Instance EventType_eq_dec : EqDecision EventType.
Proof. solve_decision. Defined.

Definition typeOf (e : Event) : EventType :=
  match e with
  | SectorRestart => TSectorRestart
  | SectorFatalError _ => TSectorFatalError
  | SectorForceState _ => TSectorForceState
  | SectorStart _ _ => TSectorStart
  | SectorStartCC _ _ => TSectorStartCC
  | SectorAddPiece => TSectorAddPiece
  | SectorPieceAdded _ => TSectorPieceAdded
  | SectorAddPieceFailed _ => TSectorAddPieceFailed
  | SectorRetryWaitDeals => TSectorRetryWaitDeals
  | SectorStartPacking => TSectorStartPacking
  | SectorPacked _ => TSectorPacked
  | SectorTicket _ _ => TSectorTicket
  | SectorOldTicket => TSectorOldTicket
  | SectorPreCommit1 _ => TSectorPreCommit1
  | SectorPreCommit2 _ _ => TSectorPreCommit2
  | SectorPreCommitBatch => TSectorPreCommitBatch
  | SectorPreCommitBatchSent _ => TSectorPreCommitBatchSent
  | SectorPreCommitLanded _ => TSectorPreCommitLanded
  | SectorSealPreCommit1Failed _ => TSectorSealPreCommit1Failed
  | SectorSealPreCommit2Failed _ => TSectorSealPreCommit2Failed
  | SectorChainPreCommitFailed _ => TSectorChainPreCommitFailed
  | SectorPreCommitted _ _ _ => TSectorPreCommitted
  | SectorSeedReady _ _ => TSectorSeedReady
  | SectorRemoteCommit1Failed _ => TSectorRemoteCommit1Failed
  | SectorRemoteCommit2Failed _ => TSectorRemoteCommit2Failed
  | SectorComputeProofFailed _ => TSectorComputeProofFailed
  | SectorCommitFailed _ => TSectorCommitFailed
  | SectorRetrySubmitCommit => TSectorRetrySubmitCommit
  | SectorDealsExpired _ => TSectorDealsExpired
  | SectorTicketExpired _ => TSectorTicketExpired
  | SectorCommitted _ => TSectorCommitted
  | SectorProofReady _ => TSectorProofReady
  | SectorSubmitCommitAggregate => TSectorSubmitCommitAggregate
  | SectorCommitSubmitted _ => TSectorCommitSubmitted
  | SectorCommitAggregateSent _ => TSectorCommitAggregateSent
  | SectorProving => TSectorProving
  | SectorFinalized => TSectorFinalized
  | SectorFinalizedAvailable => TSectorFinalizedAvailable
  | SectorRetryFinalize => TSectorRetryFinalize
  | SectorFinalizeFailed _ => TSectorFinalizeFailed
  | SectorMarkForUpdate => TSectorMarkForUpdate
  | SectorStartCCUpdate => TSectorStartCCUpdate
  | SectorReplicaUpdate _ _ => TSectorReplicaUpdate
  | SectorProveReplicaUpdate _ => TSectorProveReplicaUpdate
  | SectorReplicaUpdateSubmitted _ => TSectorReplicaUpdateSubmitted
  | SectorReplicaUpdateLanded => TSectorReplicaUpdateLanded
  | SectorUpdateActive => TSectorUpdateActive
  | SectorKeyReleased => TSectorKeyReleased
  | SectorRetrySealPreCommit1 => TSectorRetrySealPreCommit1
  | SectorRetrySealPreCommit2 => TSectorRetrySealPreCommit2
  | SectorRetryPreCommit => TSectorRetryPreCommit
  | SectorRetryWaitSeed => TSectorRetryWaitSeed
  | SectorRetryPreCommitWait => TSectorRetryPreCommitWait
  | SectorRetryComputeProof => TSectorRetryComputeProof
  | SectorRetryInvalidProof => TSectorRetryInvalidProof
  | SectorRetryCommitWait => TSectorRetryCommitWait
  | SectorInvalidDealIDs _ => TSectorInvalidDealIDs
  | SectorUpdateDealIDs _ => TSectorUpdateDealIDs
  | SectorRetryReplicaUpdate => TSectorRetryReplicaUpdate
  | SectorRetryProveReplicaUpdate => TSectorRetryProveReplicaUpdate
  | SectorUpdateReplicaFailed _ => TSectorUpdateReplicaFailed
  | SectorProveReplicaUpdateFailed _ => TSectorProveReplicaUpdateFailed
  | SectorAbortUpgrade _ => TSectorAbortUpgrade
  | SectorRevertUpgradeToProving => TSectorRevertUpgradeToProving
  | SectorRetrySubmitReplicaUpdateWait => TSectorRetrySubmitReplicaUpdateWait
  | SectorRetrySubmitReplicaUpdate => TSectorRetrySubmitReplicaUpdate
  | SectorSubmitReplicaUpdateFailed => TSectorSubmitReplicaUpdateFailed
  | SectorDeadlineImmutable => TSectorDeadlineImmutable
  | SectorDeadlineMutable => TSectorDeadlineMutable
  | SectorReleaseKeyFailed _ => TSectorReleaseKeyFailed
  | SectorFaulty => TSectorFaulty
  | SectorFaultReported _ => TSectorFaultReported
  | SectorFaultedFinal => TSectorFaultedFinal
  | SectorTerminate => TSectorTerminate
  | SectorTerminating _ => TSectorTerminating
  | SectorTerminated _ => TSectorTerminated
  | SectorTerminateFailed _ => TSectorTerminateFailed
  | SectorRemove => TSectorRemove
  | SectorRemoved => TSectorRemoved
  | SectorRemoveFailed _ => TSectorRemoveFailed
  | SectorReceive _ => TSectorReceive
  | SectorReceived => TSectorReceived
  end.

(** ** Remote notifications

    [maybeNotifyRemoteDone] posts to the sector's endpoint, when it has one; failures
    of the request are only logged. *)
Record RemoteSealingDone := {
  Endpoint : string;
  Successful : bool;
  DoneState : string;
  DoneCommitMessage : option Cid;
}.

Definition maybeNotifyRemoteDone (success : bool) (state : string) (sector : SectorInfo)
    : list RemoteSealingDone :=
  if decide (RemoteSealingDoneEndpoint sector = EmptyString) then []
  else [{| Endpoint := RemoteSealingDoneEndpoint sector;
           Successful := success;
           DoneState := state;
           DoneCommitMessage := CommitMessage sector |}].

(** ** Global events

    [None] for an event that is not a [globalMutator]; the boolean is the method's
    result. *)
Definition applyGlobal (evt : Event) (state : SectorInfo)
    : option (SectorInfo * list RemoteSealingDone * bool) :=
  match evt with
  | SectorRestart => Some (state, [], false)
  | SectorFatalError _ => Some (state, [], true)
  | SectorForceState st => Some (set_State st state, [], true)
  | SectorTerminate => Some (set_State Terminating state, [], true)
  | SectorRemove =>
      Some (set_State Removing state, maybeNotifyRemoteDone false "Removing" state, true)
  | _ => None
  end.

Definition isGlobal (evt : Event) : bool :=
  match evt with
  | SectorRestart | SectorFatalError _ | SectorForceState _ | SectorTerminate
  | SectorRemove => true
  | _ => false
  end.

Definition isIgnorable (evt : Event) : bool :=
  match evt with
  | SectorStartPacking => true
  | _ => false
  end.

(** ** The [apply] methods *)

(** [now] is the wall clock. *)
Definition SectorAddPiece_apply (now : Z) (state : SectorInfo) : SectorInfo :=
  if CreationTime state =? 0 then set_CreationTime now state else state.

Definition SectorPacked_apply (FillerPieces : list PieceInfo) (state : SectorInfo)
    : SectorInfo :=
  foldl (fun state p =>
           set_Pieces (Pieces state ++ [{| Piece := p; DealInfo := None |}]) state)
        state FillerPieces.

Definition SectorPreCommit2_apply (Sealed Unsealed : Cid) (state : SectorInfo) : SectorInfo :=
  set_CommR (Some Sealed) (set_CommD (Some Unsealed) state).

Definition SectorSealPreCommit1Failed_apply (si : SectorInfo) : SectorInfo :=
  let si := set_InvalidProofs 0 si in
  let si := set_PreCommit2Fails 0 si in
  set_PreCommit1Fails (u64 (PreCommit1Fails si + 1)) si.

Definition SectorSealPreCommit2Failed_apply (si : SectorInfo) : SectorInfo :=
  let si := set_InvalidProofs 0 si in
  set_PreCommit2Fails (u64 (PreCommit2Fails si + 1)) si.

Definition SectorStartCCUpdate_apply (state : SectorInfo) : SectorInfo :=
  let state := set_CCUpdate true state in
  let state := set_CCPieces (Pieces state) state in
  let state := set_Pieces [] state in
  set_CreationTime 0 state.

(** Assigning the deal ID of a piece that is out of range, or has no deal, panics. *)
Definition updateDealID (i id : Z) (pieces : list SectorPiece) : option (list SectorPiece) :=
  if i <? 0 then None
  else
    p ← pieces !! Z.to_nat i;
    d ← DealInfo p;
    Some (<[Z.to_nat i := {| Piece := Piece p;
                             DealInfo := Some {| PublishCid := PublishCid d;
                                                 DealID := id;
                                                 DealProposal := DealProposal d;
                                                 Schedule := Schedule d;
                                                 KeepUnsealed := KeepUnsealed d |} |}]> pieces).

Definition SectorUpdateDealIDs_apply (Updates : gmap Z Z) (state : SectorInfo)
    : option SectorInfo :=
  pieces ← foldl (fun acc u => pieces ← acc; updateDealID u.1 u.2 pieces)
                 (Some (Pieces state)) (map_to_list Updates);
  Some (set_Pieces pieces state).

Definition SectorRevertUpgradeToProving_apply (state : SectorInfo) : SectorInfo :=
  let state := set_CCUpdate false state in
  let state := set_UpdateSealed None state in
  let state := set_UpdateUnsealed None state in
  let state := set_ReplicaUpdateProof [] state in
  let state := set_ReplicaUpdateMessage None state in
  let state := set_Pieces (CCPieces state) state in
  let state := set_CCPieces [] state in
  set_CreationTime 0 state.

(** One dispatcher per section of the source file.  [None] means the event is not
    one of the section, [Some None] that its [apply] panics. *)
Definition applied (state : SectorInfo) : option (option SectorInfo) := Some (Some state).

Definition precommit_apply (now : Z) (evt : Event) (state : SectorInfo)
    : option (option SectorInfo) :=
  match evt with
  | SectorStart ID sectorType => applied (set_SectorType sectorType (set_SectorNumber ID state))
  | SectorStartCC ID sectorType => applied (set_SectorType sectorType (set_SectorNumber ID state))
  | SectorAddPiece => applied (SectorAddPiece_apply now state)
  | SectorPieceAdded NewPieces => applied (set_Pieces (Pieces state ++ NewPieces) state)
  | SectorAddPieceFailed _ => applied state
  | SectorRetryWaitDeals => applied state
  | SectorStartPacking => applied state
  | SectorPacked FillerPieces => applied (SectorPacked_apply FillerPieces state)
  | SectorTicket value epoch => applied (set_TicketValue value (set_TicketEpoch epoch state))
  | SectorOldTicket => applied state
  | SectorPreCommit1 out => applied (set_PreCommit2Fails 0 (set_PreCommit1Out out state))
  | SectorPreCommit2 Sealed Unsealed => applied (SectorPreCommit2_apply Sealed Unsealed state)
  | SectorPreCommitBatch => applied state
  | SectorPreCommitBatchSent msg => applied (set_PreCommitMessage (Some msg) state)
  | SectorPreCommitLanded tipSet => applied (set_PreCommitTipSet tipSet state)
  | SectorSealPreCommit1Failed _ => applied (SectorSealPreCommit1Failed_apply state)
  | SectorSealPreCommit2Failed _ => applied (SectorSealPreCommit2Failed_apply state)
  | SectorChainPreCommitFailed _ => applied state
  | SectorPreCommitted msg deposit _ =>
      applied (set_PreCommitDeposit deposit (set_PreCommitMessage (Some msg) state))
  | _ => None
  end.

Definition commit_apply (evt : Event) (state : SectorInfo) : option (option SectorInfo) :=
  match evt with
  | SectorSeedReady value epoch => applied (set_SeedValue value (set_SeedEpoch epoch state))
  | SectorRemoteCommit1Failed _ => applied state
  | SectorRemoteCommit2Failed _ => applied state
  | SectorComputeProofFailed _ => applied state
  | SectorCommitFailed _ => applied state
  | SectorRetrySubmitCommit => applied state
  | SectorDealsExpired _ => applied state
  | SectorTicketExpired _ => applied state
  | SectorCommitted proof => applied (set_PoRepProof proof state)
  | SectorProofReady proof => applied (set_PoRepProof proof state)
  | SectorSubmitCommitAggregate => applied state
  | SectorCommitSubmitted msg => applied (set_CommitMessage (Some msg) state)
  | SectorCommitAggregateSent msg => applied (set_CommitMessage (Some msg) state)
  | SectorProving => applied state
  | SectorFinalized => applied state
  | SectorFinalizedAvailable => applied state
  | SectorRetryFinalize => applied state
  | SectorFinalizeFailed _ => applied state
  | _ => None
  end.

Definition snap_apply (evt : Event) (state : SectorInfo) : option (option SectorInfo) :=
  match evt with
  | SectorMarkForUpdate => applied state
  | SectorStartCCUpdate => applied (SectorStartCCUpdate_apply state)
  | SectorReplicaUpdate NewSealed NewUnsealed =>
      applied (set_UpdateUnsealed (Some NewUnsealed) (set_UpdateSealed (Some NewSealed) state))
  | SectorProveReplicaUpdate proof => applied (set_ReplicaUpdateProof proof state)
  | SectorReplicaUpdateSubmitted msg => applied (set_ReplicaUpdateMessage (Some msg) state)
  | SectorReplicaUpdateLanded => applied state
  | SectorUpdateActive => applied state
  | SectorKeyReleased => applied state
  | _ => None
  end.

Definition recovery_apply (evt : Event) (state : SectorInfo) : option (option SectorInfo) :=
  match evt with
  | SectorRetrySealPreCommit1 => applied state
  | SectorRetrySealPreCommit2 => applied state
  | SectorRetryPreCommit => applied state
  | SectorRetryWaitSeed => applied state
  | SectorRetryPreCommitWait => applied state
  | SectorRetryComputeProof => applied (set_InvalidProofs (u64 (InvalidProofs state + 1)) state)
  | SectorRetryInvalidProof => applied (set_InvalidProofs (u64 (InvalidProofs state + 1)) state)
  | SectorRetryCommitWait => applied state
  | SectorInvalidDealIDs ret => applied (set_Return ret state)
  | SectorUpdateDealIDs Updates => Some (SectorUpdateDealIDs_apply Updates state)
  | _ => None
  end.

Definition snap_recovery_apply (evt : Event) (state : SectorInfo)
    : option (option SectorInfo) :=
  match evt with
  | SectorRetryReplicaUpdate => applied state
  | SectorRetryProveReplicaUpdate => applied state
  | SectorUpdateReplicaFailed _ => applied state
  | SectorProveReplicaUpdateFailed _ => applied state
  | SectorAbortUpgrade _ => applied state
  | SectorRevertUpgradeToProving => applied (SectorRevertUpgradeToProving_apply state)
  | SectorRetrySubmitReplicaUpdateWait => applied state
  | SectorRetrySubmitReplicaUpdate => applied state
  | SectorSubmitReplicaUpdateFailed => applied state
  | SectorDeadlineImmutable => applied state
  | SectorDeadlineMutable => applied state
  | SectorReleaseKeyFailed _ => applied state
  | _ => None
  end.

(** Faults, termination and external events.  [SectorFaultedFinal] has no method. *)
Definition lifecycle_apply (evt : Event) (state : SectorInfo) : option (option SectorInfo) :=
  match evt with
  | SectorFaulty => applied state
  | SectorFaultReported reportMsg => applied (set_FaultReportMsg (Some reportMsg) state)
  | SectorTerminating msg => applied (set_TerminateMessage msg state)
  | SectorTerminated at_ => applied (set_TerminatedAt at_ state)
  | SectorTerminateFailed _ => applied state
  | SectorRemoved => applied state
  | SectorRemoveFailed _ => applied state
  | SectorReceive info => applied info
  | SectorReceived => applied state
  | _ => None
  end.

Definition mutator_apply (now : Z) (evt : Event) (state : SectorInfo)
    : option (option SectorInfo) :=
  precommit_apply now evt state ∪ commit_apply evt state ∪ snap_apply evt state
  ∪ recovery_apply evt state ∪ snap_recovery_apply evt state ∪ lifecycle_apply evt state.

(** [event.User.(mutator).apply(state)]: [None] is a panic. *)
Definition event_apply (now : Z) (evt : Event) (state : SectorInfo) : option SectorInfo :=
  match mutator_apply now evt state with
  | Some r => r
  | None => None
  end.
