(* ===== verification/SealingStats.v ===== *)
(** * Sector counters of the sealing pipeline: storage/pipeline/stats.go

    [SectorStats] tracks how many sectors are staging, sealing, failed or proving;
    [updateSector] is called on every step of the state machine and tells whether more
    deals can be let into the pipeline. *)

From S2P Require Import Prelude SealingTypes.

Definition SectorID : Type := Z * Z.

(** The fields of [sealiface.Config] that the counters use; zero is no limit. *)
Record Config := {
  MaxWaitDealsSectors : Z;
  MaxSealingSectorsForDeals : Z;
  FinalizeEarly : bool;
}.

Record SectorStats := {
  bySector : gmap SectorID SectorState;
  byState : gmap SectorState Z;
  totals : statSectorState -> Z;
}.

Definition zeroSectorStats : SectorStats :=
  {| bySector := ∅; byState := ∅; totals := fun _ => 0 |}.

Definition curSealingLocked (ss : SectorStats) : Z :=
  u64 (totals ss sstStaging + totals ss sstSealing + totals ss sstFailed).

Definition curStagingLocked (ss : SectorStats) : Z := totals ss sstStaging.

(** A missing key of [byState] reads as zero. *)
Definition byState_add (d : Z) (st : SectorState) (m : gmap SectorState Z) : gmap SectorState Z :=
  <[st := i64 (default 0 (m !! st) + d)]> m.

Definition totals_add (d : Z) (sst : statSectorState) (t : statSectorState -> Z)
    : statSectorState -> Z :=
  <[sst := u64 (t sst + d)]> t.

Definition updateSector (cfg : Config) (id : SectorID) (st : SectorState) (ss : SectorStats)
    : SectorStats * bool :=
  let preSealing := curSealingLocked ss in
  let preStaging := curStagingLocked ss in
  let ss1 :=
    match bySector ss !! id with
    | Some oldst =>
        {| bySector := bySector ss;
           byState := byState_add (-1) oldst (byState ss);
           totals := totals_add (-1) (toStatState oldst (FinalizeEarly cfg)) (totals ss) |}
    | None => ss
    end in
  let sst := toStatState st (FinalizeEarly cfg) in
  let ss2 :=
    {| bySector := <[id := st]> (bySector ss1);
       byState := byState_add 1 st (byState ss1);
       totals := totals_add 1 sst (totals ss1) |} in
  let sealing := curSealingLocked ss2 in
  let staging := curStagingLocked ss2 in
  let updateInput :=
    ((0 <? MaxSealingSectorsForDeals cfg) && (MaxSealingSectorsForDeals cfg <=? preSealing)
     && (sealing <? MaxSealingSectorsForDeals cfg))
    || ((0 <? MaxWaitDealsSectors cfg) && (MaxWaitDealsSectors cfg <=? preStaging)
        && (staging <? MaxWaitDealsSectors cfg)) in
  (ss2, updateInput).

(** ** The counters count

    With a fixed [FinalizeEarly], [totals] and [byState] are the numbers of sectors of
    [bySector] in each group and in each state. *)

Definition b2z (b : bool) : Z := if b then 1 else 0.

Definition count_where (P : SectorState -> bool) (m : gmap SectorID SectorState) : Z :=
  sumZ (fun x => b2z (P x.2)) (map_to_list m).

Definition in_group (fin : bool) (g : statSectorState) (st : SectorState) : bool :=
  bool_decide (toStatState st fin = g).

Definition is_state (s st : SectorState) : bool := bool_decide (st = s).

Record stats_ok (fin : bool) (ss : SectorStats) : Prop := {
  totals_ok g : totals ss g = u64 (count_where (in_group fin g) (bySector ss));
  byState_ok s : default 0 (byState ss !! s) = i64 (count_where (is_state s) (bySector ss));
}.

Lemma count_where_insert P id st m :
  count_where P (<[id := st]> m) =
    count_where P m + b2z (P st)
    - match m !! id with Some old => b2z (P old) | None => 0 end.
Proof.
  unfold count_where.
  rewrite <- insert_delete_eq, map_to_list_insert by apply lookup_delete_eq.
  destruct (m !! id) as [old|] eqn:Hm.
  - rewrite <- (insert_delete_id m id old) at 2 by done.
    rewrite map_to_list_insert by apply lookup_delete_eq. simpl. lia.
  - rewrite delete_id by done. simpl. lia.
Qed.

Lemma totals_add_ok d g0 t (c : statSectorState -> Z) g :
  (forall g, t g = u64 (c g)) ->
  totals_add d g0 t g = u64 (c g + d * b2z (bool_decide (g0 = g))).
Proof.
  intros Ht. unfold totals_add. destruct (decide (g0 = g)) as [->|Hn].
  - rewrite fn_lookup_insert, Ht, u64_add_l, bool_decide_true by done. simpl. f_equal. lia.
  - rewrite fn_lookup_insert_ne, Ht, bool_decide_false by done. simpl. f_equal. lia.
Qed.

Lemma byState_add_ok d s0 m (c : SectorState -> Z) s :
  (forall s, default 0 (m !! s) = i64 (c s)) ->
  default 0 (byState_add d s0 m !! s) = i64 (c s + d * b2z (is_state s s0)).
Proof.
  intros Hm. unfold byState_add, is_state. destruct (decide (s0 = s)) as [->|Hn].
  - rewrite lookup_insert_eq, Hm, bool_decide_true by done. simpl.
    rewrite i64_add_l. f_equal. lia.
  - rewrite lookup_insert_ne, Hm, bool_decide_false by done. simpl. f_equal. lia.
Qed.

(** The sector counters stay exact: whatever sectors report whatever states, in any
    order, every total is the number of tracked sectors of its group and every state
    counter the number of sectors in the state, as long as [FinalizeEarly], which
    decides the group of a state, does not change. *)
Theorem update_sector_counts cfg id st ss :
  stats_ok (FinalizeEarly cfg) ss ->
  stats_ok (FinalizeEarly cfg) (updateSector cfg id st ss).1 /\
  bySector (updateSector cfg id st ss).1 = <[id := st]> (bySector ss).
Proof.
  intros [Ht Hs]. split; [|by unfold updateSector; destruct (bySector ss !! id)].
  unfold updateSector. destruct (bySector ss !! id) as [old|] eqn:Hb; split; simpl;
    intros x; rewrite count_where_insert, Hb.
  - erewrite totals_add_ok; [|intros g; apply totals_add_ok, Ht]. unfold in_group. f_equal. lia.
  - erewrite byState_add_ok; [|intros s; apply byState_add_ok, Hs]. f_equal. lia.
  - erewrite totals_add_ok by apply Ht. unfold in_group. f_equal. lia.
  - erewrite byState_add_ok by apply Hs. f_equal. lia.
Qed.

Lemma zero_stats_ok fin : stats_ok fin zeroSectorStats.
Proof. by split. Qed.

Definition example_cfg (fin : bool) : Config :=
  {| MaxWaitDealsSectors := 2; MaxSealingSectorsForDeals := 1; FinalizeEarly := fin |}.

Lemma update_sector_counts_witness :
  stats_ok false (updateSector (example_cfg false) (1, 1) Packing zeroSectorStats).1 /\
  (updateSector (example_cfg false) (1, 1) Proving
     (updateSector (example_cfg false) (1, 1) Packing zeroSectorStats).1).2 = true.
Proof.
  split; [|by vm_compute].
  apply (update_sector_counts (example_cfg false) (1, 1) Packing zeroSectorStats).
  apply zero_stats_ok.
Defined.

(** ** A configuration change breaks the counters

    [FinalizeEarly] is re-read on every update.  A sector counted as sealing under
    the old value is subtracted from another group under the new one: the total it
    leaves wraps below zero and the sealing total keeps a sector that is gone. *)

(** Switching [FinalizeEarly] on while a sector waits for its commit message makes the
    counters wrong for good: after the sector is proving, one sector is still counted
    as sealing although none is, and the deal limit is never lifted. *)
Theorem finalize_early_switch_breaks_counts :
  let ss1 := (updateSector (example_cfg false) (1, 1) CommitWait zeroSectorStats).1 in
  let '(ss2, updateInput) := updateSector (example_cfg true) (1, 1) Proving ss1 in
  bySector ss2 = {[ (1, 1) := Proving ]} /\
  curSealingLocked ss2 = 1 /\ updateInput = false /\
  ~ stats_ok true ss2.
Proof.
  simpl. split; [by vm_compute|]. split; [by vm_compute|]. split; [by vm_compute|].
  intros [Ht _]. specialize (Ht sstSealing). revert Ht. by vm_compute.
Qed.
