(* ===== verification/SealingInput.v ===== *)
(** * Filling sectors: storage/pipeline/input.go, states_sealing.go and types.go

    The handlers that put pieces into a sector: [handleAddPiece] places the deals assigned
    to it, [handlePacking] fills the rest, [maybeStartSealing] decides when a sector stops
    waiting for deals.  The sealer, the clock and the chain are parameters. *)

From S2P Require Import Prelude SealingTypes Pieces SealingEvents SealingStats.

(** ** storage/pipeline/types.go *)

Definition pieceInfos (t : SectorInfo) : list PieceInfo := Piece <$> Pieces t.

Definition dealIDs (t : SectorInfo) : list Z :=
  omap (fun p => match DealInfo p with None => None | Some d => Some (DealID d) end) (Pieces t).

Definition existingPieceSizes `{PieceSizes} (t : SectorInfo) : list Z :=
  (fun p => Unpadded (Size (Piece p))) <$> Pieces t.

Definition hasDeals (t : SectorInfo) : bool :=
  existsb (fun piece => match DealInfo piece with Some _ => true | None => false end) (Pieces t).

Record Range := { Offset : Z; RangeSize : Z (* [Size] in the source *) }.

Fixpoint keepUnsealedRanges_loop `{PieceSizes} (pieces : list SectorPiece) (invert alwaysKeep : bool)
    (at_ : Z) : list Range :=
  match pieces with
  | [] => []
  | piece :: pieces =>
      let psize := Unpadded (Size (Piece piece)) in
      let at_ := u64 (at_ + psize) in
      let rest := keepUnsealedRanges_loop pieces invert alwaysKeep at_ in
      match DealInfo piece with
      | None => rest
      | Some d =>
          let keep := KeepUnsealed d || alwaysKeep in
          if Bool.eqb keep invert then rest
          else {| Offset := u64 (at_ - psize); RangeSize := psize |} :: rest
      end
  end.

Definition keepUnsealedRanges `{PieceSizes} (pieces : list SectorPiece) (invert alwaysKeep : bool)
    : list Range :=
  keepUnsealedRanges_loop pieces invert alwaysKeep 0.

(** ** storage/pipeline/sealing.go *)

Definition getDealPerSectorLimit (size : Z) : Z := if size <? Z.shiftl 64 30 then 256 else 512.

(** What a handler does: it sends an event, or returns an error without sending one. *)
Inductive Sent :=
| Send (e : Event)
| Fail (err : string)
| Crash.

Record pendingPiece := {
  size : Z;
  deal : PieceDealInfo;
}.

(** A call of [pendingPiece.accepted]. *)
Record Accepted := {
  acc_piece : Cid;
  acc_sector : Z;
  acc_offset : Z;
  acc_err : option string;
}.

(** The maps of [Sealing] that [inputLk] guards. *)
Record InputMaps := {
  assignedPieces : gmap SectorID (list Cid);
  pendingPieces : gmap Cid pendingPiece;
  openSectors : gset SectorID;
}.

Section handlers.
Context `{PieceSizes} (ZeroPieceCommitment : Z -> Cid) (minerSectorID : Z -> SectorID).
(** [sealer.AddPiece] on the sizes of the pieces already in the sector; the data is that of
    a deal, or zeros. *)
Context (sealerAddPiece : list Z -> Z -> option Cid -> outcome PieceInfo).
(** Fields of a [market.DealProposal]. *)
Context (proposalPieceCID : opaque -> Cid) (proposalStartEpoch : opaque -> Z).

(** ** storage/pipeline/input.go *)

(** The sum of the pieces' user bytes, which several handlers compute in a loop. *)
Definition usedBytes (pieces : list SectorPiece) : Z :=
  foldl (fun used piece => u64 (used + Unpadded (Size (Piece piece)))) 0 pieces.

(** [maybeStartSealing] either sends [SectorStartPacking], or waits, with a timer when the
    sector has a creation time. *)
Inductive StartDecision :=
| StartPacking
| Wait (timer : option Z)
| StartErr (err : string)
| StartCrash.

Record WaitConfig := {
  WaitDealsDelay : Z;
  StartEpochSealingBuffer : Z;
}.

(** The loop that computes the epoch by which to start sealing.  A nil [DealProposal]
    panics; [allocationFor] is the expiration of the allocation of a pending deal. *)
Definition dealSafeSealEpoch (allocationFor : Z -> option Z) (buffer : Z)
    (pieces : list SectorPiece) : option Z :=
  foldl (fun acc piece =>
           safe ← acc;
           match DealInfo piece with
           | None => Some safe
           | Some d =>
               prop ← DealProposal d;
               let safe := i64 (proposalStartEpoch prop - buffer) in
               match allocationFor (DealID d) with
               | None => Some safe
               | Some expiration =>
                   if i64 (expiration - buffer) <? safe
                   then Some (i64 (expiration - buffer)) else Some safe
               end
           end)
    (Some 0) pieces.

(** Times are in nanoseconds.  [timer] is the result of stopping the sector's timer, if it
    has one; [now] and [now2] are the two readings of the clock. *)
Definition maybeStartSealing (now now2 BlockDelaySecs : Z) (timer : option bool)
    (SectorSize : outcome Z) (getConfig : outcome WaitConfig) (ChainHead : outcome Z)
    (allocationFor : Z -> option Z) (sector : SectorInfo) (used : Z) : StartDecision :=
  if bool_decide (timer = Some false) then StartPacking
  else
    match SectorSize with
    | Panic => StartCrash
    | Err _ => StartErr "getting sector size"
    | Ret ssize =>
        if getDealPerSectorLimit ssize <=? Z.of_nat (length (dealIDs sector)) then StartPacking
        else if Padded used =? ssize then StartPacking
        else if CreationTime sector =? 0 then Wait None
        else
          match getConfig, ChainHead with
          | Panic, _ => StartCrash
          | Err e, _ => StartErr e
          | Ret _, Panic => StartCrash
          | Ret _, Err e => StartErr e
          | Ret cfg, Ret height =>
              let sealTime := CreationTime sector * 1000000000 + WaitDealsDelay cfg in
              let blockTime := i64 (1000000000 * BlockDelaySecs) in
              match dealSafeSealEpoch allocationFor (StartEpochSealingBuffer cfg) (Pieces sector) with
              | None => StartCrash
              | Some safe =>
                  let safeTime := now2 + i64 (i64 (safe - height) * blockTime) in
                  let sealTime := if safeTime <? sealTime then safeTime else sealTime in
                  if sealTime <? now then StartPacking else Wait (Some (sealTime - now))
              end
          end
    end.

(** The variables of the loop of [handleAddPiece]. *)
Record AddState := {
  offset : Z;
  pieceSizes : list Z;
  NewPieces : list SectorPiece;
  accepts : list Accepted;
}.

Definition accept_ (piece : Cid) (sn : Z) (err : option string) (st : AddState) : AddState :=
  {| offset := offset st; pieceSizes := pieceSizes st; NewPieces := NewPieces st;
     accepts := accepts st ++
       [{| acc_piece := piece; acc_sector := sn; acc_offset := offset st; acc_err := err |}] |}.

Definition add_offset (d : Z) (st : AddState) : AddState :=
  {| offset := u64 (offset st + d); pieceSizes := pieceSizes st; NewPieces := NewPieces st;
     accepts := accepts st |}.

Definition add_piece (sz : Z) (p : SectorPiece) (st : AddState) : AddState :=
  {| offset := offset st; pieceSizes := pieceSizes st ++ [sz]; NewPieces := NewPieces st ++ [p];
     accepts := accepts st |}.

(** The loop that writes the padding pieces; [inr] returns from the handler. *)
Fixpoint addPads (piece : Cid) (sn : Z) (pads : list Z) (st : AddState)
    : AddState + (AddState * Sent) :=
  match pads with
  | [] => inl st
  | p :: pads =>
      let expectCid := ZeroPieceCommitment (Unpadded p) in
      match sealerAddPiece (pieceSizes st) (Unpadded p) None with
      | Ret ppi =>
          if bool_decide (PieceCID ppi = expectCid)
          then addPads piece sn pads
                 (add_piece (Unpadded p) {| Piece := ppi; DealInfo := None |} st)
          else inr (accept_ piece sn (Some "got unexpected padding piece CID") st,
                    Send (SectorAddPieceFailed "got unexpected padding piece CID"))
      | Err e => inr (accept_ piece sn (Some e) st, Send (SectorAddPieceFailed e))
      | Panic => inr (st, Crash)
      end
  end.

(** The body of the loop over the assigned pieces.  A nil [DealProposal] panics. *)
Definition addDeal (m : InputMaps) (sector : SectorInfo) (ssize maxDeals : Z) (i : Z) (piece : Cid)
    (st : AddState) : AddState + (AddState * Sent) :=
  match pendingPieces m !! piece with
  | None => inr (st, Fail "piece assigned to sector not found")
  | Some d =>
      let sn := SectorNumber sector in
      if maxDeals <? Z.of_nat (length (dealIDs sector)) + (i + 1)
      then inl (accept_ piece sn (Some "too many deals assigned to sector") st)
      else
        match GetRequiredPadding (Padded (offset st)) (Padded (size d)) with
        | None => inr (st, Crash)
        | Some (pads, padLength) =>
            if ssize <? u64 (u64 (Padded (offset st) + padLength) + Padded (size d))
            then inl (accept_ piece sn (Some "piece assigned to sector with not enough space") st)
            else
              match addPads piece sn pads (add_offset (Unpadded padLength) st) with
              | inr r => inr r
              | inl st =>
                  match sealerAddPiece (pieceSizes st) (size d) (Some piece) with
                  | Err e => inr (accept_ piece sn (Some e) st, Send (SectorAddPieceFailed e))
                  | Panic => inr (st, Crash)
                  | Ret ppi =>
                      match DealProposal (deal d) with
                      | None => inr (st, Crash)
                      | Some prop =>
                          if bool_decide (PieceCID ppi = proposalPieceCID prop)
                          then
                            let st := accept_ piece sn None st in
                            let st := add_offset (size d) st in
                            inl (add_piece (size d)
                                   {| Piece := ppi; DealInfo := Some (deal d) |} st)
                          else inr (accept_ piece sn (Some "got unexpected piece CID") st,
                                    Send (SectorAddPieceFailed "got unexpected piece CID"))
                      end
                  end
              end
        end
  end.

Fixpoint addDeals (m : InputMaps) (sector : SectorInfo) (ssize maxDeals : Z) (i : Z)
    (pending : list Cid) (st : AddState) : AddState * Sent :=
  match pending with
  | [] => (st, Send (SectorPieceAdded (NewPieces st)))
  | piece :: pending =>
      match addDeal m sector ssize maxDeals i piece st with
      | inl st => addDeals m sector ssize maxDeals (i + 1) pending st
      | inr r => r
      end
  end.

Definition addStart (sector : SectorInfo) : AddState :=
  {| offset := usedBytes (Pieces sector);
     pieceSizes := (fun p => Unpadded (Size (Piece p))) <$> Pieces sector;
     NewPieces := []; accepts := [] |}.

(** The maps after the handler, the replies to the deals' clients, and the event. *)
Definition handleAddPiece (SectorSize : outcome Z) (m : InputMaps) (sector : SectorInfo)
    : InputMaps * list Accepted * Sent :=
  match SectorSize with
  | Err e => (m, [], Fail e)
  | Panic => (m, [], Crash)
  | Ret ssize =>
      let sid := minerSectorID (SectorNumber sector) in
      match assignedPieces m !! sid with
      | None => (m, [], Send (SectorPieceAdded []))
      | Some pending =>
          let m := {| assignedPieces := delete sid (assignedPieces m);
                      pendingPieces := pendingPieces m; openSectors := openSectors m |} in
          let '(st, sent) :=
            addDeals m sector ssize (getDealPerSectorLimit ssize) 0 pending (addStart sector) in
          (m, accepts st, sent)
      end
  end.

(** ** storage/pipeline/states_sealing.go *)

Definition cleanupAssignedDeals (m : InputMaps) (sector : SectorInfo) : InputMaps * list Accepted :=
  let sid := minerSectorID (SectorNumber sector) in
  let '(pending, acc) :=
    foldl (fun '(pending, acc) c =>
             (delete c pending,
              match pending !! c with
              | None => acc
              | Some _ =>
                  acc ++ [{| acc_piece := c; acc_sector := SectorNumber sector; acc_offset := 0;
                             acc_err := Some "sector entered packing state early" |}]
              end))
      (pendingPieces m, []) (default [] (assignedPieces m !! sid)) in
  ({| assignedPieces := delete sid (assignedPieces m);
      pendingPieces := pending;
      openSectors := openSectors m ∖ {[sid]} |}, acc).

Fixpoint padSector_loop (existing sizes : list Z) (out : list PieceInfo)
    : list PieceInfo + Sent :=
  match sizes with
  | [] => inl out
  | sz :: sizes =>
      let expectCid := ZeroPieceCommitment sz in
      match sealerAddPiece existing sz None with
      | Err e => inr (Fail e)
      | Panic => inr Crash
      | Ret ppi =>
          if bool_decide (PieceCID ppi = expectCid)
          then padSector_loop (existing ++ [sz]) sizes (out ++ [ppi])
          else inr (Fail "got unexpected padding piece CID")
      end
  end.

Definition padSector (existing sizes : list Z) : list PieceInfo + Sent :=
  padSector_loop existing sizes [].

Definition handlePacking (SectorSize : outcome Z) (m : InputMaps) (sector : SectorInfo)
    : InputMaps * list Accepted * Sent :=
  let '(m, acc) := cleanupAssignedDeals m sector in
  (m, acc,
   if bool_decide (State sector = SnapDealsPacking) && negb (hasDeals sector)
   then Send (SectorAbortUpgrade "sector had no deals")
   else
     let allocated := usedBytes (Pieces sector) in
     match SectorSize with
     | Err e => Fail e
     | Panic => Crash
     | Ret ssize =>
         let ubytes := Unpadded ssize in
         if ubytes <? allocated then Fail "too much data in sector"
         else
           match padSector (existingPieceSizes sector) (fillersFromRem (u64 (ubytes - allocated))) with
           | inl fillerPieces => Send (SectorPacked fillerPieces)
           | inr s => s
           end
     end).

End handlers.

(** ** Pieces stay aligned *)

Definition piece_size (p : SectorPiece) : Z := Size (Piece p).
Definition piece_sizes (l : list SectorPiece) : list Z := piece_size <$> l.

(** A sound layout: powers of two of at least 128 bytes, each at a multiple of its size,
    within the sector. *)
Record sector_layout (ssize : Z) (l : list Z) : Prop := {
  sl_pow2 : Forall (fun p => pow2 p /\ (128 | p)) l;
  sl_aligned : aligned 0 l;
  sl_fits : sumZ id l <= ssize;
}.

(** The number of deals among pieces. *)
Definition deal_count (l : list SectorPiece) : Z :=
  Z.of_nat (length (omap DealInfo l)).

(** A reply without an error names the place of the deal's piece in the sector. *)
Definition reply_ok `{PieceSizes} (m : InputMaps) (pieces : list SectorPiece) (a : Accepted) : Prop :=
  acc_err a = None ->
  exists l1 p l2 d, pieces = l1 ++ p :: l2 /\ pendingPieces m !! acc_piece a = Some d /\
    DealInfo p = Some (deal d) /\ acc_offset a = Unpadded (sumZ id (piece_sizes l1)).

(** A deal of a size the pipeline admits (checked when the deal is queued). *)
Definition deal_ok `{PieceSizes} (ssize : Z) (d : pendingPiece) : Prop :=
  exists P, pow2 P /\ (128 | P) /\ P <= ssize /\ size d = Unpadded P.

Section add_pieces.
Context `{PieceSizesOk} (ZeroPieceCommitment : Z -> Cid) (minerSectorID : Z -> SectorID).
Context (sealerAddPiece : list Z -> Z -> option Cid -> outcome PieceInfo).
Context (proposalPieceCID : opaque -> Cid).
(** The sealer reports the padded size of the piece it has written. *)
Context (sealer_size : forall ps sz d ppi, sealerAddPiece ps sz d = Ret ppi -> Size ppi = Padded sz).
Context (ssize : Z) (Hssize : 0 < ssize <= 2 ^ 62).

Lemma Padded_Unpadded P : 0 <= P < 18446744073709551616 -> (128 | P) -> Padded (Unpadded P) = P.
Proof using Type*.
  intros HP [k ->]. rewrite (Z.mul_comm k) in *. rewrite Unpadded_mul by lia.
  assert (127 * k / 127 = k) as E by (rewrite Z.mul_comm; apply Z.div_mul; lia).
  rewrite Padded_ok; rewrite ?E; unfold in_u64; lia.
Qed.

Lemma sum_divide l : Forall (fun p => pow2 p /\ (128 | p)) l -> (128 | sumZ id l) /\ 0 <= sumZ id l.
Proof using Type*.
  induction 1 as [|p l [Hp Hd] _ [IH1 IH2]]; [split; [apply Z.divide_0_r|done]|].
  rewrite sumZ_id_cons. pose proof (pow2_u64 p Hp). split; [by apply Z.divide_add_r|lia].
Qed.

Lemma Unpadded_add a b :
  (128 | a) -> (128 | b) -> 0 <= a -> 0 <= b -> a + b < 18446744073709551616 ->
  Unpadded (a + b) = Unpadded a + Unpadded b.
Proof using Type*.
  intros [i ->] [j ->] ???. rewrite <- Z.mul_add_distr_r, !(Z.mul_comm _ 128), !Unpadded_mul by lia. lia.
Qed.

Lemma Unpadded_u64 a : 0 <= a < 18446744073709551616 -> (128 | a) -> 0 <= Unpadded a <= a.
Proof using Type*. intros Ha [i ->]. rewrite (Z.mul_comm i) in *. rewrite Unpadded_mul; lia. Qed.

Lemma usedBytes_ok l : sector_layout ssize (piece_sizes l) -> usedBytes l = Unpadded (sumZ id (piece_sizes l)).
Proof using Type*.
  intros [Hp _ Hf]. unfold usedBytes.
  rewrite (foldl_u64 (fun p => Unpadded (Size (Piece p)))) by done.
  assert (sumZ (fun p => Unpadded (Size (Piece p))) l = sumZ id (Unpadded <$> piece_sizes l)) as ->.
  { clear. unfold piece_sizes, sumZ. induction l as [|p l IH]; simpl in *; [done|]. by rewrite IH. }
  destruct (sum_divide _ Hp) as [[k Hk] Hpos]. rewrite Forall_and in Hp. destruct Hp as [Hp Hd].
  pose proof (sum_Unpadded _ Hp Hd) as Hs. rewrite Hk in *. rewrite (Z.mul_comm k), Unpadded_mul by lia.
  rewrite u64_id; [lia|unfold in_u64; lia].
Qed.
Lemma sector_layout_app l new :
  sector_layout ssize l -> Forall (fun p => pow2 p /\ (128 | p)) new ->
  aligned (sumZ id l) new -> sumZ id l + sumZ id new <= ssize -> sector_layout ssize (l ++ new).
Proof using Type*.
  intros [Hp Ha Hf] Hn Han Hle. constructor.
  - by apply Forall_app.
  - by apply aligned_app.
  - by rewrite sumZ_app.
Qed.

Lemma addPads_ok piece sn pads st st' :
  Forall (fun p => pow2 p /\ (128 | p)) pads ->
  addPads ZeroPieceCommitment sealerAddPiece piece sn pads st = inl st' ->
  offset st' = offset st /\ accepts st' = accepts st /\
  exists new, NewPieces st' = NewPieces st ++ new /\ piece_sizes new = pads /\ deal_count new = 0.
Proof using Type*.
  intros Hp. revert st. induction Hp as [|p pads [Hp Hd] _ IH]; intros st; simpl.
  { intros [= <-]. split; [done|]. split; [done|]. exists []. by rewrite app_nil_r. }
  destruct (sealerAddPiece _ _ _) as [ppi|e|] eqn:Ha; [|done..].
  case_bool_decide; [|done]. intros (Ho & Hacc & new & Hn & Hs & Hc)%IH.
  split; [done|]. split; [done|]. exists ({| Piece := ppi; DealInfo := None |} :: new).
  rewrite Hn. simpl. rewrite <- app_assoc. split; [done|]. split; [|done].
  unfold piece_sizes in *. simpl. rewrite Hs. f_equal. unfold piece_size. simpl.
  rewrite (sealer_size _ _ _ _ Ha). pose proof (pow2_u64 p Hp). apply Padded_Unpadded; [lia|done].
Qed.

Lemma advance_offset a b :
  (128 | a) -> (128 | b) -> 0 <= a -> 0 <= b -> a + b <= ssize ->
  u64 (Unpadded a + Unpadded b) = Unpadded (a + b).
Proof using Type*.
  intros Ha Hb Ha0 Hb0 Hle. rewrite Unpadded_add by (done || lia). apply u64_id. unfold in_u64.
  pose proof (Unpadded_u64 a ltac:(lia) Ha). pose proof (Unpadded_u64 b ltac:(lia) Hb). lia.
Qed.

Lemma piece_sizes_app l1 l2 : piece_sizes (l1 ++ l2) = piece_sizes l1 ++ piece_sizes l2.
Proof using Type*. apply fmap_app. Qed.

(** The loop invariant of [handleAddPiece] after [i] of the assigned pieces. *)
Record add_inv (m : InputMaps) (sector : SectorInfo) (i : Z) (st : AddState) : Prop := {
  ai_layout : sector_layout ssize (piece_sizes (Pieces sector ++ NewPieces st));
  ai_offset : offset st = Unpadded (sumZ id (piece_sizes (Pieces sector ++ NewPieces st)));
  ai_replies : Forall (reply_ok m (Pieces sector ++ NewPieces st)) (accepts st);
  ai_count : 0 <= deal_count (NewPieces st) <= i;
  ai_limit : deal_count (NewPieces st) = 0 \/
    Z.of_nat (length (dealIDs sector)) + deal_count (NewPieces st) <= getDealPerSectorLimit ssize;
}.

Lemma deal_count_app l1 l2 : deal_count (l1 ++ l2) = deal_count l1 + deal_count l2.
Proof using Type*. unfold deal_count. rewrite omap_app, length_app. lia. Qed.

Lemma reply_ok_app m pieces new a : reply_ok m pieces a -> reply_ok m (pieces ++ new) a.
Proof using Type*.
  intros Ha He. destruct (Ha He) as (l1 & p & l2 & d & -> & Hd).
  exists l1, p, (l2 ++ new), d. by rewrite <- app_assoc.
Qed.

Lemma add_inv_reply m sector i st piece err :
  add_inv m sector i st -> add_inv m sector (i + 1) (accept_ piece (SectorNumber sector) (Some err) st).
Proof using Type*.
  intros [Hl Ho Hr Hc Hm]. constructor; simpl; try done; [|lia].
  apply Forall_app. split; [done|]. by apply Forall_singleton.
Qed.

(** Adding a deal after its padding keeps the invariant. *)
Lemma add_inv_deal m sector i st piece d P pads s padPieces ppi :
  add_inv m sector i st -> pendingPieces m !! piece = Some d ->
  pow2 P -> (128 | P) -> size d = Unpadded P -> Size ppi = P ->
  Z.of_nat (length (dealIDs sector)) + (i + 1) <= getDealPerSectorLimit ssize ->
  padding_ok (sumZ id (piece_sizes (Pieces sector ++ NewPieces st))) P pads s ->
  Forall (fun p => pow2 p /\ (128 | p)) pads ->
  sumZ id (piece_sizes (Pieces sector ++ NewPieces st)) + s + P <= ssize ->
  piece_sizes padPieces = pads -> deal_count padPieces = 0 ->
  add_inv m sector (i + 1)
    {| offset := u64 (u64 (offset st + Unpadded s) + size d);
       pieceSizes := pieceSizes st;
       NewPieces := (NewPieces st ++ padPieces) ++ [{| Piece := ppi; DealInfo := Some (deal d) |}];
       accepts := accepts st ++ [{| acc_piece := piece; acc_sector := SectorNumber sector;
         acc_offset := u64 (offset st + Unpadded s); acc_err := None |}] |}.
Proof using Type*.
  intros [Hl Ho Hr Hc Hm] Hd HP HP128 Hsz Hppi Hlim Hpad Hpads Hfit Hps Hdc.
  set (l := Pieces sector ++ NewPieces st) in *.
  pose proof (pow2_u64 P HP). pose proof (pad_range _ _ _ _ Hpad) as Hs.
  destruct (sum_divide _ (sl_pow2 _ _ Hl)) as [Hld Hl0].
  assert ((128 | s)) as Hsd by (rewrite <- (pad_sum _ _ _ _ Hpad); by apply sum_divide).
  assert (sumZ id (piece_sizes (l ++ padPieces)) = sumZ id (piece_sizes l) + s) as Esum
    by (rewrite piece_sizes_app, Hps, sumZ_app, (pad_sum _ _ _ _ Hpad); done).
  assert (u64 (offset st + Unpadded s) = Unpadded (sumZ id (piece_sizes (l ++ padPieces)))) as Eoff
    by (rewrite Ho, Esum; apply advance_offset; done || lia).
  assert (sector_layout ssize (piece_sizes (l ++ padPieces))) as Hl1.
  { rewrite piece_sizes_app, Hps. apply sector_layout_app; [done..|apply (pad_aligned _ _ _ _ Hpad)|].
    rewrite (pad_sum _ _ _ _ Hpad). lia. }
  set (q := {| Piece := ppi; DealInfo := Some (deal d) |}).
  assert (piece_sizes [q] = [P]) as Eq by (simpl; unfold piece_size; simpl; by rewrite Hppi).
  constructor; simpl; rewrite ?app_assoc; fold l; rewrite ?Eoff.
  - rewrite piece_sizes_app, Eq. apply sector_layout_app; [done|by apply Forall_singleton|..];
      rewrite Esum; [split; [apply (pad_divide _ _ _ _ Hpad)|done]|rewrite sumZ_id_singleton; lia].
  - rewrite (piece_sizes_app _ [q]), Eq, sumZ_app, sumZ_id_singleton, Hsz, Esum.
    apply advance_offset; try lia; [by apply Z.divide_add_r|done].
  - apply Forall_app. split.
    + eapply Forall_impl; [exact Hr|]. intros a Ha. by do 2 apply reply_ok_app.
    + apply Forall_singleton. intros _. by exists (l ++ padPieces), q, [], d.
  - rewrite !deal_count_app, Hdc. change (deal_count [q]) with 1. lia.
  - right. rewrite !deal_count_app, Hdc. change (deal_count [q]) with 1. lia.
Qed.
Lemma padding_128 old P pads s :
  (128 | old) -> (128 | P) -> pow2 P -> GetRequiredPadding old P = Some (pads, s) ->
  padding_ok old P pads s /\ Forall (fun p => pow2 p /\ (128 | p)) pads.
Proof using Type*.
  intros Hold HP128 HP Hg. destruct (GetRequiredPadding_ok old P HP) as (pads' & s' & Hg' & Hok).
  rewrite Hg in Hg'. simplify_eq. split; [done|]. apply Forall_and. split; [apply Hok|].
  unfold GetRequiredPadding in Hg. pose proof (pow2_u64 P HP).
  destruct (Z.eqb_spec P 0); [done|]. rewrite lowestBits_bits, u64_neg_mod in Hg by done.
  injection Hg as <- _. apply (bits64_divide _ 7); [lia|]. change (2 ^ Z.of_nat 7) with 128.
  apply Z.mod_divide; [lia|]. rewrite Z.mod_mod_divide by done.
  apply Z.mod_divide; [lia|]. by apply Z.divide_opp_r.
Qed.

Lemma addDeal_ok m sector i piece st st' :
  add_inv m sector i st -> (forall d, pendingPieces m !! piece = Some d -> deal_ok ssize d) ->
  addDeal ZeroPieceCommitment sealerAddPiece proposalPieceCID m sector ssize
    (getDealPerSectorLimit ssize) i piece st = inl st' ->
  add_inv m sector (i + 1) st'.
Proof using Type*.
  intros Hinv Hdeal. unfold addDeal. destruct (pendingPieces m !! piece) as [d|] eqn:Hd; [|done].
  destruct (Hdeal d eq_refl) as (P & HP & HP128 & HPs & Hsz). pose proof (pow2_u64 P HP).
  destruct (Z.ltb_spec (getDealPerSectorLimit ssize) (Z.of_nat (length (dealIDs sector)) + (i + 1)))
    as [|Hlim]; [intros [= <-]; by apply add_inv_reply|].
  pose proof (ai_layout _ _ _ _ Hinv) as Hl. destruct (sum_divide _ (sl_pow2 _ _ Hl)) as [Hld Hl0].
  pose proof (sl_fits _ _ Hl) as Hfits.
  rewrite (ai_offset _ _ _ _ Hinv), Hsz, !Padded_Unpadded by (done || lia).
  destruct (GetRequiredPadding _ P) as [[pads s]|] eqn:Hg; [|done].
  destruct (padding_128 _ _ _ _ Hld HP128 HP Hg) as [Hpad Hpads].
  pose proof (pad_range _ _ _ _ Hpad) as Hs.
  rewrite !u64_id by (unfold in_u64; try rewrite u64_id; unfold in_u64; lia).
  destruct (Z.ltb_spec ssize (sumZ id (piece_sizes (Pieces sector ++ NewPieces st)) + s + P))
    as [|Hfit]; [intros [= <-]; by apply add_inv_reply|].
  destruct (addPads _ _ _ _ _ _) as [st1|] eqn:Hap; [|done].
  destruct (addPads_ok _ _ _ _ _ Hpads Hap) as (Ho & Hacc & padPieces & Hn & Hps & Hdc).
  destruct (sealerAddPiece _ _ _) as [ppi|e|] eqn:Ha; [|done..].
  apply sealer_size in Ha. rewrite Padded_Unpadded in Ha by (done || lia).
  destruct (DealProposal (deal d)) as [prop|]; [|done]. case_bool_decide; [|done].
  intros [= <-]. unfold add_piece, add_offset, accept_. simpl. rewrite Ho, Hacc, Hn. simpl.
  rewrite <- Hsz.
  destruct (add_inv_deal m sector i st piece d P pads s padPieces ppi) as [????]; try done.
Qed.

(** The handler leaves the loop early only with another event, an error or a panic. *)
Lemma addPads_not_added piece sn pads st st' new :
  addPads ZeroPieceCommitment sealerAddPiece piece sn pads st <> inr (st', Send (SectorPieceAdded new)).
Proof using Type*.
  revert st. induction pads as [|p pads IH]; intros st; simpl; [done|].
  destruct (sealerAddPiece _ _ _); [|done..]. case_bool_decide; [apply IH|done].
Qed.

Lemma addDeal_not_added m sector maxDeals i piece st st' new :
  addDeal ZeroPieceCommitment sealerAddPiece proposalPieceCID m sector ssize maxDeals i piece st
    <> inr (st', Send (SectorPieceAdded new)).
Proof using Type*.
  unfold addDeal. destruct (pendingPieces m !! piece) as [d|]; [|done].
  destruct (_ <? _); [done|]. destruct (GetRequiredPadding _ _) as [[pads s]|]; [|done].
  destruct (_ <? _); [done|]. destruct (addPads _ _ _ _ _ _) as [st1|[st1 sent]] eqn:Ha.
  - destruct (sealerAddPiece _ _ _); [|done..]. destruct (DealProposal _); [|done].
    by case_bool_decide.
  - intros [= -> ->]. by apply addPads_not_added in Ha.
Qed.

Lemma addDeals_ok m sector pending i st st' new :
  add_inv m sector i st ->
  (forall c d, c ∈ pending -> pendingPieces m !! c = Some d -> deal_ok ssize d) ->
  addDeals ZeroPieceCommitment sealerAddPiece proposalPieceCID m sector ssize
    (getDealPerSectorLimit ssize) i pending st = (st', Send (SectorPieceAdded new)) ->
  new = NewPieces st' /\ add_inv m sector (i + Z.of_nat (length pending)) st'.
Proof using Type*.
  revert i st. induction pending as [|c pending IH]; intros i st Hinv Hd; simpl.
  { intros [= <- <-]. by rewrite Z.add_0_r. }
  destruct (addDeal _ _ _ _ _ _ _ _ _ _) as [st1|[st1 sent]] eqn:Ha.
  - apply addDeal_ok in Ha; [|done|intros d; apply Hd; left].
    intros Hr. apply IH in Hr as [Hn Hi]; [|done|intros c' d Hc; apply Hd; by right].
    split; [done|]. by replace (i + Z.of_nat (S (length pending))) with (i + 1 + Z.of_nat (length pending)) by lia.
  - intros [= <- ->]. by apply addDeal_not_added in Ha.
Qed.
Lemma add_inv_start m sector :
  sector_layout ssize (piece_sizes (Pieces sector)) -> add_inv m sector 0 (addStart sector).
Proof using Type*.
  intros Hl. constructor; simpl; rewrite ?app_nil_r; try done; [by apply usedBytes_ok|by left].
Qed.


Lemma padSector_loop_ok existing sizes out out' :
  padSector_loop ZeroPieceCommitment sealerAddPiece existing sizes out = inl out' ->
  exists new, out' = out ++ new /\ Size <$> new = Padded <$> sizes.
Proof using Type*.
  revert existing out. induction sizes as [|sz sizes IH]; intros existing out; simpl.
  { intros [= <-]. exists []. by rewrite app_nil_r. }
  destruct (sealerAddPiece _ _ _) as [ppi|e|] eqn:Ha; [|done..]. case_bool_decide; [|done].
  intros (new & -> & Hn)%IH. exists (ppi :: new). rewrite <- app_assoc. split; [done|].
  rewrite !fmap_cons, Hn. f_equal. by eapply sealer_size.
Qed.

Lemma padSector_not_sent existing sizes out e :
  padSector_loop ZeroPieceCommitment sealerAddPiece existing sizes out <> inr (Send e).
Proof using Type*.
  revert existing out. induction sizes as [|sz sizes IH]; intros existing out; simpl; [done|].
  destruct (sealerAddPiece _ _ _); [|done..]. case_bool_decide; [apply IH|done].
Qed.

Lemma Padded_Unpadded_list pads :
  Forall (fun p => pow2 p /\ (128 | p)) pads -> Padded <$> (Unpadded <$> pads) = pads.
Proof using Type*.
  induction 1 as [|p pads [Hp Hd] _ IH]; [done|]. pose proof (pow2_u64 p Hp).
  rewrite !fmap_cons, IH, Padded_Unpadded by (done || lia). done.
Qed.

(** Packing completes a sector: when [handlePacking] reports filler pieces for a sector
    with a sound layout, the pieces of the sector and the fillers are a sound layout that
    fills the sector to its last byte. *)
Theorem packing_fills_sector k m m' sector acc fillers :
  ssize = 2 ^ k -> 7 <= k -> sector_layout ssize (piece_sizes (Pieces sector)) ->
  handlePacking ZeroPieceCommitment minerSectorID sealerAddPiece (Ret ssize) m sector
    = (m', acc, Send (SectorPacked fillers)) ->
  sector_layout ssize (piece_sizes (Pieces sector) ++ (Size <$> fillers)) /\
  sumZ id (piece_sizes (Pieces sector) ++ (Size <$> fillers)) = ssize.
Proof using Type*.
  intros Hk Hk7 Hl. unfold handlePacking.
  destruct (cleanupAssignedDeals minerSectorID m sector) as [m1 acc1].
  destruct (_ && _); [done|]. rewrite usedBytes_ok by done.
  destruct (sum_divide _ (sl_pow2 _ _ Hl)) as [Hld Hl0]. pose proof (sl_fits _ _ Hl) as Hf.
  destruct (_ <? _); [done|].
  assert (k <= 62) by (apply (Z.pow_le_mono_r_iff 2); lia).
  destruct (fillersFromRem_ok k (sumZ id (piece_sizes (Pieces sector))))
    as (pads & Hfill & Hsum & Hal & Hp2 & Hus); [lia|done|lia|].
  rewrite <- Hk in *.
  pose proof Hp2 as Hp2'. rewrite Forall_and in Hp2'. destruct Hp2' as [Hp Hd].
  pose proof (sum_Unpadded _ Hp Hd) as Hu. rewrite Hus, Hsum in Hu.
  rewrite u64_id, Hfill by (unfold in_u64; lia).
  destruct (padSector _ _ _ _) as [out|sent] eqn:Hpad;
    [|intros [= <- <- ->]; by apply padSector_not_sent in Hpad].
  intros [= <- <- <-]. apply padSector_loop_ok in Hpad as (new & -> & Hn). simpl in *.
  rewrite Padded_Unpadded_list in Hn by done. rewrite Hn.
  split; [apply sector_layout_app; [done..|lia]|]. rewrite sumZ_app. lia.
Qed.
End add_pieces.

(** A sealer that always succeeds, one deal of 512 bytes and a sector with a piece of 128. *)
Definition demoSealer (ps : list Z) (sz : Z) (d : option Cid) : outcome PieceInfo :=
  Ret {| Size := Padded sz; PieceCID := default "zero" d |}.

Definition demoDeal : pendingPiece :=
  {| size := 508;
     deal := {| PublishCid := None; DealID := 5; DealProposal := Some "deal5";
                Schedule := {| StartEpoch := 10; EndEpoch := 20 |}; KeepUnsealed := true |} |}.

Definition demoMaps : InputMaps :=
  {| assignedPieces := {[ (1000, 0) := ["deal5"] ]}; pendingPieces := {[ "deal5" := demoDeal ]};
     openSectors := ∅ |}.

Definition demoSector : SectorInfo :=
  set_Pieces [{| Piece := {| Size := 128; PieceCID := "a" |}; DealInfo := None |}] zeroSectorInfo.

Lemma demo_layout : sector_layout 2048 (piece_sizes (Pieces demoSector)).
Proof.
  constructor; simpl.
  - apply Forall_singleton. split; [exists 7; unfold piece_size; simpl; lia|by exists 1].
  - split; [apply Z.divide_0_r|done].
  - unfold piece_size, id. simpl. lia.
Qed.


Lemma packing_fills_sector_witness :
  exists fillers acc m',
    handlePacking (fun _ => "zero") (pair 1000) demoSealer (Ret 2048) demoMaps demoSector
      = (m', acc, Send (SectorPacked fillers)) /\
    Size <$> fillers = [128; 256; 512; 1024] /\
    sumZ id (piece_sizes (Pieces demoSector) ++ (Size <$> fillers)) = 2048.
Proof.
  destruct (handlePacking (fun _ => "zero") (pair 1000) demoSealer (Ret 2048) demoMaps demoSector)
    as [[m' acc] sent] eqn:Hr.
  assert (exists fillers, sent = Send (SectorPacked fillers) /\ Size <$> fillers = [128; 256; 512; 1024])
    as (fillers & -> & Hf).
  { vm_compute in Hr. injection Hr as _ _ <-. eexists. split; [reflexivity|]. by vm_compute. }
  exists fillers, acc, m'. split; [reflexivity|]. split; [exact Hf|].
  destruct (packing_fills_sector (fun _ => "zero") (pair 1000) demoSealer
    ltac:(by intros ps sz d ppi [= <-]) 2048 ltac:(lia) 11 demoMaps m' demoSector acc fillers
    eq_refl ltac:(lia) demo_layout Hr) as [_ H]. exact H.
Defined.

(** ** When a sector stops waiting for deals *)

(** The time by which a sector starts sealing is set by its last deal alone: whatever
    the other deals, and however soon they start, the epoch that
    [maybeStartSealing] computes is the same. *)
Theorem seal_deadline_last_deal proposalStartEpoch allocationFor buffer l1 l2 p d prop :
  DealInfo p = Some d -> DealProposal d = Some prop ->
  is_Some (dealSafeSealEpoch proposalStartEpoch allocationFor buffer l1) ->
  is_Some (dealSafeSealEpoch proposalStartEpoch allocationFor buffer l2) ->
  dealSafeSealEpoch proposalStartEpoch allocationFor buffer (l1 ++ [p]) =
  dealSafeSealEpoch proposalStartEpoch allocationFor buffer (l2 ++ [p]).
Proof.
  intros Hd Hp [x1 H1] [x2 H2]. unfold dealSafeSealEpoch in *.
  rewrite !foldl_snoc, H1, H2. simpl. rewrite Hd. simpl. by rewrite Hp.
Qed.

Definition dealPiece (prop : opaque) : SectorPiece :=
  {| Piece := {| Size := 128; PieceCID := prop |};
     DealInfo := Some {| PublishCid := None; DealID := 1; DealProposal := Some prop;
       Schedule := {| StartEpoch := 0; EndEpoch := 0 |}; KeepUnsealed := false |} |}.

(** A deal that starts at epoch 100 does not bring the deadline of epoch 1000 forward. *)
Example seal_deadline_late :
  let start (p : opaque) := if bool_decide (p = "soon") then 100 else 1000 in
  dealSafeSealEpoch start (fun _ => None) 10 ([dealPiece "soon"] ++ [dealPiece "late"]) =
  dealSafeSealEpoch start (fun _ => None) 10 ([] ++ [dealPiece "late"]) /\
  dealSafeSealEpoch start (fun _ => None) 10 ([] ++ [dealPiece "late"]) = Some 990.
Proof.
  split; [|by vm_compute].
  eapply (seal_deadline_last_deal _ (fun _ => None) 10 [dealPiece "soon"] [] (dealPiece "late"));
    try reflexivity; by eexists; vm_compute.
Defined.
