(* ===== verification/SealingPlan.v ===== *)
(** * The sealing state machine: storage/pipeline/fsm.go

    [fsmPlanners] is the transition table, [planOne], [planOneOrIgnore],
    [planCommitting], [final] and [finalRemoved] the planners, [plan] and [Plan] what
    runs a batch of events and chooses the handler of the new state. *)

From S2P Require Import Prelude SealingTypes SealingEvents SealingStats.

(** ** Transitions *)

(** The four ways a table entry is built, with the type of its [mutator]. *)
Inductive Transition :=
| on (mut : EventType) (next : SectorState)
| onWithCB (mut : EventType) (next : SectorState)
    (cb : SectorInfo -> list RemoteSealingDone)
| applyOnly (mut : EventType)
| onReturning (mut : EventType).

Definition transition_mut (t : Transition) : EventType :=
  match t with
  | on mut _ | onWithCB mut _ _ | applyOnly mut | onReturning mut => mut
  end.

(** The closure an entry returns: the new state, notifications sent, [more] and
    the error. *)
Definition transition_next (t : Transition) (state : SectorInfo)
    : SectorInfo * list RemoteSealingDone * bool * option string :=
  match t with
  | on _ next => (set_State next state, [], false, None)
  | onWithCB _ next cb => (set_State next state, cb state, false, None)
  | applyOnly _ => (state, [], true, None)
  | onReturning _ =>
      if decide (Return state = EmptyString)
      then (state, [], false, Some "return state not set")
      else (set_Return EmptyString (set_State (Return state) state), [], false, None)
  end.

(** ** Planners *)

(** What a planner leaves behind: the sector, the notifications sent, the number of
    processed events and the error. *)
Record PlanResult := {
  pr_state : SectorInfo;
  pr_notifs : list RemoteSealingDone;
  pr_processed : Z;
  pr_err : option string;
}.

Section planners.
Context (now : Z).

(** The event loop of [planOne]; [None] is a panic of an event's [apply]. *)
Fixpoint planOne_loop (ts : list Transition) (events : list Event) (i : Z)
    (state : SectorInfo) (notifs : list RemoteSealingDone) : option PlanResult :=
  match events with
  | [] => Some {| pr_state := state; pr_notifs := notifs; pr_processed := i; pr_err := None |}
  | event :: events =>
      match applyGlobal event state with
      | Some (state, ns, _) =>
          Some {| pr_state := state; pr_notifs := notifs ++ ns; pr_processed := i + 1;
                  pr_err := None |}
      | None =>
          match list_find (fun t => transition_mut t = typeOf event) ts with
          | Some (_, t) =>
              state ← event_apply now event state;
              let '(state, ns, more, err) := transition_next t state in
              if bool_decide (err <> None) || negb more
              then Some {| pr_state := state; pr_notifs := notifs ++ ns; pr_processed := i + 1;
                           pr_err := err |}
              else planOne_loop ts events (i + 1) state (notifs ++ ns)
          | None =>
              if isIgnorable event then planOne_loop ts events (i + 1) state notifs
              else Some {| pr_state := state; pr_notifs := notifs; pr_processed := i + 1;
                           pr_err := Some "planner received unexpected event" |}
          end
      end
  end.

Definition planOne (ts : list Transition) (events : list Event) (state : SectorInfo)
    : option PlanResult :=
  planOne_loop ts events 0 state [].

Definition planOneOrIgnore (ts : list Transition) (events : list Event) (state : SectorInfo)
    : option PlanResult :=
  r ← planOne ts events state;
  Some {| pr_state := pr_state r; pr_notifs := pr_notifs r; pr_processed := pr_processed r;
          pr_err := None |}.

(** One iteration of [planCommitting]: [inr] returns, [inl] goes on. *)
Definition planCommitting_step (event : Event) (i : Z) (state : SectorInfo)
    (notifs : list RemoteSealingDone)
    : option (SectorInfo * list RemoteSealingDone + PlanResult) :=
  let continue_ state := Some (inl (state, notifs)) in
  match applyGlobal event state with
  | Some (state, ns, true) =>
      Some (inr {| pr_state := state; pr_notifs := notifs ++ ns; pr_processed := i + 1;
                   pr_err := None |})
  | Some (state, ns, false) => Some (inl (state, notifs ++ ns))
  | None =>
      match event with
      | SectorCommitted _ =>
          state ← event_apply now event state;
          continue_ (set_State SubmitCommit state)
      | SectorProofReady _ =>
          state ← event_apply now event state;
          continue_ (set_State CommitFinalize state)
      | SectorSeedReady seedValue seedEpoch =>
          if (seedEpoch =? SeedEpoch state) && bool_decide (seedValue = SeedValue state)
          then continue_ state
          else
            state ← event_apply now event state;
            Some (inr {| pr_state := set_State Committing state; pr_notifs := notifs;
                         pr_processed := i + 1; pr_err := None |})
      | SectorComputeProofFailed _ => continue_ (set_State ComputeProofFailed state)
      | SectorRemoteCommit1Failed _ | SectorRemoteCommit2Failed _ =>
          continue_ (set_State RemoteCommitFailed state)
      | SectorSealPreCommit1Failed _ => continue_ (set_State SealPreCommit1Failed state)
      | SectorCommitFailed _ => continue_ (set_State CommitFailed state)
      | SectorRetryCommitWait => continue_ (set_State CommitWait state)
      | _ =>
          Some (inr {| pr_state := state; pr_notifs := notifs; pr_processed := i;
                       pr_err := Some "planCommitting got event of unknown type" |})
      end
  end.

Fixpoint planCommitting_loop (events : list Event) (i : Z) (state : SectorInfo)
    (notifs : list RemoteSealingDone) : option PlanResult :=
  match events with
  | [] => Some {| pr_state := state; pr_notifs := notifs; pr_processed := i; pr_err := None |}
  | event :: events =>
      r ← planCommitting_step event i state notifs;
      match r with
      | inr res => Some res
      | inl (state, notifs) => planCommitting_loop events (i + 1) state notifs
      end
  end.

Definition planCommitting (events : list Event) (state : SectorInfo) : option PlanResult :=
  planCommitting_loop events 0 state [].

Definition finalRemoved (events : list Event) (state : SectorInfo) : option PlanResult :=
  Some {| pr_state := state; pr_notifs := []; pr_processed := Z.of_nat (length events);
          pr_err := None |}.

Definition final (events : list Event) (state : SectorInfo) : option PlanResult :=
  match events with
  | event :: _ =>
      match applyGlobal event state with
      | Some (state, ns, _) =>
          Some {| pr_state := state; pr_notifs := ns; pr_processed := 1; pr_err := None |}
      | None =>
          Some {| pr_state := state; pr_notifs := []; pr_processed := 0;
                  pr_err := Some "didn't expect any events" |}
      end
  | [] =>
      Some {| pr_state := state; pr_notifs := []; pr_processed := 0;
              pr_err := Some "didn't expect any events" |}
  end.

(** The table holds planners; [runPlanner] calls one. *)
Inductive Planner :=
| PlanOne (ts : list Transition)
| PlanOneOrIgnore (ts : list Transition)
| PlanCommitting
| Final
| FinalRemoved.

Definition runPlanner (p : Planner) (events : list Event) (state : SectorInfo)
    : option PlanResult :=
  match p with
  | PlanOne ts => planOne ts events state
  | PlanOneOrIgnore ts => planOneOrIgnore ts events state
  | PlanCommitting => planCommitting events state
  | Final => final events state
  | FinalRemoved => finalRemoved events state
  end.

End planners.

(** ** The transition table, by the sections of the source *)

Definition fsmPlanners_receive : list (SectorState * Planner) :=
  [(ReceiveSector, PlanOne [onReturning TSectorReceived])].

Definition fsmPlanners_sealing : list (SectorState * Planner) :=
  [(UndefinedSectorState, PlanOne [on TSectorStart WaitDeals;
      on TSectorStartCC Packing;
      on TSectorReceive ReceiveSector]);
   (Empty, PlanOne [on TSectorAddPiece AddPiece;
      on TSectorStartPacking Packing]);
   (WaitDeals, PlanOne [on TSectorAddPiece AddPiece;
      on TSectorStartPacking Packing]);
   (AddPiece, PlanOne [on TSectorPieceAdded WaitDeals;
      applyOnly TSectorStartPacking;
      applyOnly TSectorAddPiece;
      on TSectorAddPieceFailed AddPieceFailed]);
   (Packing, PlanOne [on TSectorPacked GetTicket]);
   (GetTicket, PlanOne [on TSectorTicket PreCommit1;
      on TSectorCommitFailed CommitFailed]);
   (PreCommit1, PlanOne [on TSectorPreCommit1 PreCommit2;
      on TSectorSealPreCommit1Failed SealPreCommit1Failed;
      on TSectorDealsExpired DealsExpired;
      on TSectorInvalidDealIDs RecoverDealIDs;
      on TSectorOldTicket GetTicket]);
   (PreCommit2, PlanOne [on TSectorPreCommit2 SubmitPreCommitBatch;
      on TSectorSealPreCommit2Failed SealPreCommit2Failed;
      on TSectorSealPreCommit1Failed SealPreCommit1Failed]);
   (PreCommitting, PlanOne [on TSectorPreCommitBatch SubmitPreCommitBatch;
      on TSectorPreCommitted PreCommitWait;
      on TSectorSealPreCommit1Failed SealPreCommit1Failed;
      on TSectorChainPreCommitFailed PreCommitFailed;
      on TSectorPreCommitLanded WaitSeed;
      on TSectorDealsExpired DealsExpired;
      on TSectorInvalidDealIDs RecoverDealIDs]);
   (SubmitPreCommitBatch, PlanOne [on TSectorPreCommitBatchSent PreCommitBatchWait;
      on TSectorSealPreCommit1Failed SealPreCommit1Failed;
      on TSectorChainPreCommitFailed PreCommitFailed;
      on TSectorPreCommitLanded WaitSeed;
      on TSectorDealsExpired DealsExpired;
      on TSectorInvalidDealIDs RecoverDealIDs]);
   (PreCommitBatchWait, PlanOne [on TSectorChainPreCommitFailed PreCommitFailed;
      on TSectorPreCommitLanded WaitSeed;
      on TSectorRetryPreCommit PreCommitting]);
   (PreCommitWait, PlanOne [on TSectorChainPreCommitFailed PreCommitFailed;
      on TSectorPreCommitLanded WaitSeed;
      on TSectorRetryPreCommit PreCommitting]);
   (WaitSeed, PlanOne [on TSectorSeedReady Committing;
      on TSectorChainPreCommitFailed PreCommitFailed]);
   (Committing, PlanCommitting);
   (CommitFinalize, PlanOne [on TSectorFinalized SubmitCommit;
      on TSectorFinalizedAvailable SubmitCommit;
      on TSectorFinalizeFailed CommitFinalizeFailed]);
   (SubmitCommit, PlanOne [on TSectorCommitSubmitted CommitWait;
      on TSectorSubmitCommitAggregate SubmitCommitAggregate;
      on TSectorCommitFailed CommitFailed]);
   (SubmitCommitAggregate, PlanOne [on TSectorCommitAggregateSent CommitAggregateWait;
      on TSectorCommitFailed CommitFailed;
      on TSectorRetrySubmitCommit SubmitCommit]);
   (CommitWait, PlanOne [on TSectorProving FinalizeSector;
      on TSectorCommitFailed CommitFailed;
      on TSectorRetrySubmitCommit SubmitCommit]);
   (CommitAggregateWait, PlanOne [on TSectorProving FinalizeSector;
      on TSectorCommitFailed CommitFailed;
      on TSectorRetrySubmitCommit SubmitCommit]);
   (FinalizeSector, PlanOne [onWithCB TSectorFinalized Proving (maybeNotifyRemoteDone true "Proving");
      onWithCB TSectorFinalizedAvailable Available (maybeNotifyRemoteDone true "Available");
      on TSectorFinalizeFailed FinalizeFailed])].

Definition fsmPlanners_snap : list (SectorState * Planner) :=
  [(SnapDealsWaitDeals, PlanOne [on TSectorAddPiece SnapDealsAddPiece;
      on TSectorStartPacking SnapDealsPacking;
      on TSectorAbortUpgrade AbortUpgrade]);
   (SnapDealsAddPiece, PlanOne [on TSectorPieceAdded SnapDealsWaitDeals;
      applyOnly TSectorStartPacking;
      applyOnly TSectorAddPiece;
      on TSectorAddPieceFailed SnapDealsAddPieceFailed;
      on TSectorAbortUpgrade AbortUpgrade]);
   (SnapDealsPacking, PlanOne [on TSectorPacked UpdateReplica;
      on TSectorAbortUpgrade AbortUpgrade]);
   (UpdateReplica, PlanOne [on TSectorReplicaUpdate ProveReplicaUpdate;
      on TSectorUpdateReplicaFailed ReplicaUpdateFailed;
      on TSectorDealsExpired SnapDealsDealsExpired;
      on TSectorInvalidDealIDs SnapDealsRecoverDealIDs;
      on TSectorAbortUpgrade AbortUpgrade]);
   (ProveReplicaUpdate, PlanOne [on TSectorProveReplicaUpdate FinalizeReplicaUpdate;
      on TSectorProveReplicaUpdateFailed ReplicaUpdateFailed;
      on TSectorDealsExpired SnapDealsDealsExpired;
      on TSectorInvalidDealIDs SnapDealsRecoverDealIDs;
      on TSectorAbortUpgrade AbortUpgrade]);
   (FinalizeReplicaUpdate, PlanOne [on TSectorFinalized SubmitReplicaUpdate;
      on TSectorFinalizeFailed FinalizeReplicaUpdateFailed]);
   (SubmitReplicaUpdate, PlanOne [on TSectorReplicaUpdateSubmitted ReplicaUpdateWait;
      on TSectorSubmitReplicaUpdateFailed ReplicaUpdateFailed;
      on TSectorDeadlineImmutable WaitMutable]);
   (WaitMutable, PlanOne [on TSectorDeadlineMutable SubmitReplicaUpdate;
      on TSectorAbortUpgrade AbortUpgrade]);
   (ReplicaUpdateWait, PlanOne [on TSectorReplicaUpdateLanded UpdateActivating;
      on TSectorSubmitReplicaUpdateFailed ReplicaUpdateFailed;
      on TSectorAbortUpgrade AbortUpgrade]);
   (UpdateActivating, PlanOne [on TSectorUpdateActive ReleaseSectorKey]);
   (ReleaseSectorKey, PlanOne [on TSectorKeyReleased Proving;
      on TSectorReleaseKeyFailed ReleaseSectorKeyFailed])].

Definition fsmPlanners_errors : list (SectorState * Planner) :=
  [(AddPieceFailed, PlanOne [on TSectorRetryWaitDeals WaitDeals;
      applyOnly TSectorStartPacking;
      applyOnly TSectorAddPiece]);
   (SealPreCommit1Failed, PlanOne [on TSectorRetrySealPreCommit1 PreCommit1]);
   (SealPreCommit2Failed, PlanOne [on TSectorRetrySealPreCommit1 PreCommit1;
      on TSectorRetrySealPreCommit2 PreCommit2]);
   (PreCommitFailed, PlanOne [on TSectorRetryPreCommit PreCommitting;
      on TSectorRetryPreCommitWait PreCommitWait;
      on TSectorRetryWaitSeed WaitSeed;
      on TSectorSealPreCommit1Failed SealPreCommit1Failed;
      on TSectorPreCommitLanded WaitSeed;
      onWithCB TSectorDealsExpired DealsExpired (maybeNotifyRemoteDone false "DealsExpired");
      on TSectorInvalidDealIDs RecoverDealIDs]);
   (ComputeProofFailed, PlanOne [on TSectorRetryComputeProof Committing;
      on TSectorSealPreCommit1Failed SealPreCommit1Failed]);
   (RemoteCommitFailed, PlanOne [on TSectorRetryComputeProof Committing]);
   (CommitFinalizeFailed, PlanOne [on TSectorRetryFinalize CommitFinalize]);
   (CommitFailed, PlanOne [on TSectorSealPreCommit1Failed SealPreCommit1Failed;
      on TSectorRetryWaitSeed WaitSeed;
      on TSectorRetryComputeProof Committing;
      on TSectorRetryInvalidProof Committing;
      on TSectorRetryPreCommitWait PreCommitWait;
      on TSectorChainPreCommitFailed PreCommitFailed;
      on TSectorRetryPreCommit PreCommitting;
      on TSectorRetryCommitWait CommitWait;
      on TSectorRetrySubmitCommit SubmitCommit;
      onWithCB TSectorDealsExpired DealsExpired (maybeNotifyRemoteDone false "DealsExpired");
      on TSectorInvalidDealIDs RecoverDealIDs;
      onWithCB TSectorTicketExpired Removing (maybeNotifyRemoteDone false "Removing")]);
   (FinalizeFailed, PlanOne [on TSectorRetryFinalize FinalizeSector]);
   (PackingFailed, PlanOne []);
   (DealsExpired, PlanOne []);
   (RecoverDealIDs, PlanOne [onReturning TSectorUpdateDealIDs])].

Definition fsmPlanners_snap_errors : list (SectorState * Planner) :=
  [(SnapDealsAddPieceFailed, PlanOne [on TSectorRetryWaitDeals SnapDealsWaitDeals;
      applyOnly TSectorStartPacking;
      applyOnly TSectorAddPiece;
      on TSectorAbortUpgrade AbortUpgrade]);
   (SnapDealsDealsExpired, PlanOne [on TSectorAbortUpgrade AbortUpgrade]);
   (SnapDealsRecoverDealIDs, PlanOne [on TSectorUpdateDealIDs SubmitReplicaUpdate;
      on TSectorAbortUpgrade AbortUpgrade]);
   (AbortUpgrade, PlanOneOrIgnore [on TSectorRevertUpgradeToProving Proving]);
   (ReplicaUpdateFailed, PlanOne [on TSectorRetrySubmitReplicaUpdateWait ReplicaUpdateWait;
      on TSectorRetrySubmitReplicaUpdate SubmitReplicaUpdate;
      on TSectorRetryReplicaUpdate UpdateReplica;
      on TSectorRetryProveReplicaUpdate ProveReplicaUpdate;
      on TSectorInvalidDealIDs SnapDealsRecoverDealIDs;
      on TSectorDealsExpired SnapDealsDealsExpired;
      on TSectorAbortUpgrade AbortUpgrade]);
   (ReleaseSectorKeyFailed, PlanOne [on TSectorUpdateActive ReleaseSectorKey]);
   (FinalizeReplicaUpdateFailed, PlanOne [on TSectorRetryFinalize FinalizeReplicaUpdate])].

Definition fsmPlanners_post_seal : list (SectorState * Planner) :=
  [(Proving, PlanOne [on TSectorFaultReported FaultReported;
      on TSectorFaulty Faulty;
      on TSectorMarkForUpdate Available]);
   (Available, PlanOne [on TSectorStartCCUpdate SnapDealsWaitDeals;
      on TSectorAbortUpgrade Proving]);
   (Terminating, PlanOne [on TSectorTerminating TerminateWait;
      on TSectorTerminateFailed TerminateFailed]);
   (TerminateWait, PlanOne [on TSectorTerminated TerminateFinality;
      on TSectorTerminateFailed TerminateFailed]);
   (TerminateFinality, PlanOne [on TSectorTerminateFailed TerminateFailed]);
   (TerminateFailed, PlanOne []);
   (Removing, PlanOneOrIgnore [on TSectorRemoved Removed;
      on TSectorRemoveFailed RemoveFailed]);
   (RemoveFailed, PlanOne []);
   (Faulty, PlanOne [on TSectorFaultReported FaultReported]);
   (FaultReported, Final);
   (FaultedFinal, Final);
   (Removed, FinalRemoved);
   (FailedUnrecoverable, Final)].

Definition fsmPlanners : list (SectorState * Planner) :=
  fsmPlanners_receive ++ fsmPlanners_sealing ++ fsmPlanners_snap ++ fsmPlanners_errors ++ fsmPlanners_snap_errors ++ fsmPlanners_post_seal.

(** ** Choosing the handler *)

(** The [handleX] methods that the machine runs next. *)
Inductive Handler :=
| handleReceiveSector | handleWaitDeals | handleAddPiece
| handlePacking | handleGetTicket | handlePreCommit1
| handlePreCommit2 | handlePreCommitting | handleSubmitPreCommitBatch
| handlePreCommitWait | handleWaitSeed | handleCommitting
| handleSubmitCommit | handleSubmitCommitAggregate | handleCommitWait
| handleFinalizeSector | handleReplicaUpdate | handleProveReplicaUpdate
| handleSubmitReplicaUpdate | handleWaitMutable | handleReplicaUpdateWait
| handleFinalizeReplicaUpdate | handleUpdateActivating | handleReleaseSectorKey
| handleAddPieceFailed | handleSealPrecommit1Failed | handleSealPrecommit2Failed
| handlePreCommitFailed | handleComputeProofFailed | handleRemoteCommitFailed
| handleCommitFailed | handleFinalizeFailed | handleDealsExpired
| HandleRecoverDealIDs | handleDealsExpiredSnapDeals | handleSnapDealsRecoverDealIDs
| handleSubmitReplicaUpdateFailed | handleAbortUpgrade | handleProvingSector
| handleAvailableSector | handleTerminating | handleTerminateWait
| handleTerminateFinality | handleTerminateFailed | handleRemoving
| handleRemoveFailed | handleFaulty | handleFaultReported
| handleReleaseSectorKeyFailed.

(** The cases of the [switch] that return a handler with [processed] and no error. *)
Definition handlers : list (SectorState * Handler) :=
  [(ReceiveSector, handleReceiveSector);
   (Empty, handleWaitDeals);
   (WaitDeals, handleWaitDeals);
   (AddPiece, handleAddPiece);
   (Packing, handlePacking);
   (GetTicket, handleGetTicket);
   (PreCommit1, handlePreCommit1);
   (PreCommit2, handlePreCommit2);
   (PreCommitting, handlePreCommitting);
   (SubmitPreCommitBatch, handleSubmitPreCommitBatch);
   (PreCommitBatchWait, handlePreCommitWait);
   (PreCommitWait, handlePreCommitWait);
   (WaitSeed, handleWaitSeed);
   (Committing, handleCommitting);
   (SubmitCommit, handleSubmitCommit);
   (SubmitCommitAggregate, handleSubmitCommitAggregate);
   (CommitAggregateWait, handleCommitWait);
   (CommitWait, handleCommitWait);
   (CommitFinalize, handleFinalizeSector);
   (FinalizeSector, handleFinalizeSector);
   (SnapDealsWaitDeals, handleWaitDeals);
   (SnapDealsAddPiece, handleAddPiece);
   (SnapDealsPacking, handlePacking);
   (UpdateReplica, handleReplicaUpdate);
   (ProveReplicaUpdate, handleProveReplicaUpdate);
   (SubmitReplicaUpdate, handleSubmitReplicaUpdate);
   (WaitMutable, handleWaitMutable);
   (ReplicaUpdateWait, handleReplicaUpdateWait);
   (FinalizeReplicaUpdate, handleFinalizeReplicaUpdate);
   (UpdateActivating, handleUpdateActivating);
   (ReleaseSectorKey, handleReleaseSectorKey);
   (AddPieceFailed, handleAddPieceFailed);
   (SealPreCommit1Failed, handleSealPrecommit1Failed);
   (SealPreCommit2Failed, handleSealPrecommit2Failed);
   (PreCommitFailed, handlePreCommitFailed);
   (ComputeProofFailed, handleComputeProofFailed);
   (RemoteCommitFailed, handleRemoteCommitFailed);
   (CommitFailed, handleCommitFailed);
   (CommitFinalizeFailed, handleFinalizeFailed);
   (FinalizeFailed, handleFinalizeFailed);
   (DealsExpired, handleDealsExpired);
   (RecoverDealIDs, HandleRecoverDealIDs);
   (SnapDealsAddPieceFailed, handleAddPieceFailed);
   (SnapDealsDealsExpired, handleDealsExpiredSnapDeals);
   (SnapDealsRecoverDealIDs, handleSnapDealsRecoverDealIDs);
   (ReplicaUpdateFailed, handleSubmitReplicaUpdateFailed);
   (FinalizeReplicaUpdateFailed, handleFinalizeFailed);
   (AbortUpgrade, handleAbortUpgrade);
   (Proving, handleProvingSector);
   (Available, handleAvailableSector);
   (Terminating, handleTerminating);
   (TerminateWait, handleTerminateWait);
   (TerminateFinality, handleTerminateFinality);
   (TerminateFailed, handleTerminateFailed);
   (Removing, handleRemoving);
   (RemoveFailed, handleRemoveFailed);
   (Faulty, handleFaulty);
   (FaultReported, handleFaultReported)].

Inductive PlanErr :=
| errSectorRemoved
| errPlan (msg : string).

(** The [switch] on the new state: the sector (a deprecated state is renamed), the handler,
    the number of processed events and the error. *)
Definition dispatch (state : SectorInfo) (processed : Z)
    : SectorInfo * option Handler * Z * option PlanErr :=
  if decide (State state = PackingFailed) then
    (set_State DealsExpired state, Some handleDealsExpired, processed, None)
  else if decide (State state = ReleaseSectorKeyFailed) then
    (state, Some handleReleaseSectorKeyFailed, 0, None)
  else if decide (State state = Removed) then
    (state, None, processed, Some errSectorRemoved)
  else if decide (State state = UndefinedSectorState) then
    (state, None, processed, Some (errPlan "sector update with undefined state"))
  else if decide (State state = FailedUnrecoverable) then
    (state, None, processed, Some (errPlan "sector failed unrecoverably"))
  else
    match assoc (State state) handlers with
    | Some h => (state, Some h, processed, None)
    | None => (state, None, processed, Some (errPlan "unexpected sector update state"))
    end.

(** ** The sector log *)

(** Above 8000 entries the middle of the log is cut out. *)
Definition logAppend (now : Z) (l : LogEntry) (state : SectorInfo) : SectorInfo :=
  let state :=
    if 8000 <? Z.of_nat (length (Log state)) then
      let log := <[Z.to_nat 2000 :=
                     {| Timestamp := u64 now; Trace := EmptyString;
                        Message := "truncating log (above 8000 entries)";
                        Kind := "truncate" |}]> (Log state) in
      set_Log (take (Z.to_nat 2000) log ++ drop (Z.to_nat 6000) log) state
    else state in
  set_Log (Log state ++ [l]) state.

Section plan.
(** The clock, the event serializer ([json.Marshal] and the error formatter), the names
    [%T] prints, the configuration and the sealing proof the node reads, whether a
    notifee is registered, and how errors are printed. *)
Context (now : Z) (marshal : Event -> option string) (formatTrace : Event -> option string).
Context (typeName : EventType -> string).
Context (getConfig : option (outcome Config)) (minerSectorID : Z -> SectorID).
Context (currentSealProof : outcome Z) (hasNotifee : bool).
Context (errText errKind : option PlanErr -> string).

Definition isRestart (evt : Event) : bool :=
  match evt with SectorRestart => true | _ => false end.

(** A serialized event of more than 8000 bytes is cut. *)
Definition truncateEvent (e : string) : string :=
  if 8000 <? Z.of_nat (String.length e)
  then String.append (String.substring 0 (Z.to_nat 8000) e) "... truncated"
  else e.

Definition logEvent (state : SectorInfo) (event : Event) : SectorInfo :=
  match marshal event with
  | None => state
  | Some e =>
      if isRestart event then state
      else logAppend now
             {| Timestamp := u64 now;
                Trace := default EmptyString (formatTrace event);
                Message := truncateEvent e;
                Kind := String.append "event;" (typeName (typeOf event)) |} state
  end.

Definition logEvents (events : list Event) (state : SectorInfo) : SectorInfo :=
  foldl logEvent state events.

(** What the machine does to the outside. *)
Inductive Effect :=
| NotifyRemote (r : RemoteSealingDone)
| Notifee (before after : SectorInfo)
| UpdateInput (sealProof : Z).

Definition onUpdateSector (state : SectorInfo) (ss : SectorStats) : SectorStats * list Effect :=
  match getConfig with
  | Some (Ret cfg) =>
      let '(ss, shouldUpdateInput) :=
        updateSector cfg (minerSectorID (SectorNumber state)) (State state) ss in
      if shouldUpdateInput
      then match currentSealProof with
           | Ret sp => (ss, [UpdateInput sp])
           | _ => (ss, [])
           end
      else (ss, [])
  | _ => (ss, [])
  end.

(** The planner of a state; in a state the table does not have, a single global event is
    still let through. *)
Definition plannerFor (st : SectorState) (events : list Event) : option Planner :=
  match assoc st fsmPlanners with
  | Some p => Some p
  | None =>
      match events with
      | [event] => if isGlobal event then Some (PlanOne []) else None
      | _ => None
      end
  end.

Record PlanOutcome := {
  po_state : SectorInfo;
  po_stats : SectorStats;
  po_effects : list Effect;
  po_next : option Handler;
  po_processed : Z;
  po_err : option PlanErr;
}.

(** [None] is a panic.  The deferred notifee runs on every return. *)
Definition plan (events : list Event) (state : SectorInfo) (ss : SectorStats)
    : option PlanOutcome :=
  let state := logEvents events state in
  let notify after := if hasNotifee then [Notifee state after] else [] in
  match plannerFor (State state) events with
  | None =>
      Some {| po_state := state; po_stats := ss; po_effects := notify state; po_next := None;
              po_processed := 0; po_err := Some (errPlan "planner for state not found") |}
  | Some p =>
      r ← runPlanner now p events state;
      let sent := NotifyRemote <$> pr_notifs r in
      match pr_err r with
      | Some e =>
          Some {| po_state := pr_state r; po_stats := ss;
                  po_effects := sent ++ notify (pr_state r);
                  po_next := None; po_processed := pr_processed r;
                  po_err := Some (errPlan e) |}
      | None =>
          let '(ss, upd) := onUpdateSector (pr_state r) ss in
          let '(after, next, processed, err) := dispatch (pr_state r) (pr_processed r) in
          Some {| po_state := after; po_stats := ss;
                  po_effects := sent ++ upd ++ notify after;
                  po_next := next; po_processed := processed; po_err := err |}
      end
  end.

(** [Plan] turns the removal of a sector into the machine's termination and logs
    every other error; the boolean is [ErrTerminated]. *)
Definition Plan (keepRemovedActive : bool) (events : list Event) (state : SectorInfo)
    (ss : SectorStats) : option (PlanOutcome * bool) :=
  o ← plan events state ss;
  match po_err o, po_next o with
  | None, Some _ => Some (o, false)
  | err, _ =>
      let terminated :=
        match err with Some errSectorRemoved => negb keepRemovedActive | _ => false end in
      let after :=
        if terminated then po_state o
        else logAppend now
               {| Timestamp := u64 now; Trace := EmptyString;
                  Message := String.append "state machine error: " (errText err);
                  Kind := String.append "error;" (errKind err) |} (po_state o) in
      Some ({| po_state := after; po_stats := po_stats o; po_effects := po_effects o;
               po_next := None; po_processed := po_processed o; po_err := None |}, terminated)
  end.

End plan.
