(* ===== verification/SealingSafety.v ===== *)
(** * Upgrades, the sector log, consumed events and removal

    More properties of [Plan] (storage/pipeline/fsm.go): an aborted upgrade restores the
    sector, the log is bounded, the number of consumed events is in range, and a sector
    can always be removed. *)

From S2P Require Import Prelude SealingTypes SealingEvents SealingStats SealingPlan SealingProps.

(** ** Upgrades *)

(** What an upgrade must not touch: the identity of the sector, its ticket and seed, its
    commitments and proof, its deposit and messages, its failure counters and its
    remote endpoints. *)
Definition sealed_view (s : SectorInfo) :=
  (SectorNumber s, SectorType s, (TicketValue s, TicketEpoch s, SeedValue s, SeedEpoch s),
   (PreCommit1Out s, CommD s, CommR s, PoRepProof s),
   (PreCommitDeposit s, PreCommitMessage s, PreCommitTipSet s, CommitMessage s),
   (PreCommit1Fails s, PreCommit2Fails s, InvalidProofs s, FaultReportMsg s),
   (RemoteDataUnsealed s, RemoteDataSealed s, RemoteDataCache s, RemoteDataFinalized s),
   (RemoteCommit1Endpoint s, RemoteCommit2Endpoint s, RemoteSealingDoneEndpoint s)).

(** The states of an upgrade, and those a sector under upgrade can be terminated or
    removed through. *)
Definition upgrade_states : list SectorState :=
  [SnapDealsWaitDeals; SnapDealsAddPiece; SnapDealsPacking; UpdateReplica; ProveReplicaUpdate;
   FinalizeReplicaUpdate; SubmitReplicaUpdate; WaitMutable; ReplicaUpdateWait; UpdateActivating;
   ReleaseSectorKey; SnapDealsAddPieceFailed; SnapDealsDealsExpired; SnapDealsRecoverDealIDs;
   AbortUpgrade; ReplicaUpdateFailed; ReleaseSectorKeyFailed; FinalizeReplicaUpdateFailed;
   Terminating; TerminateWait; TerminateFinality; TerminateFailed; Removing; RemoveFailed; Removed].

(** The events whose [apply] changes the sealed sector. *)
Definition touches_sealed (t : EventType) : bool :=
  match t with
  | TSectorStart | TSectorStartCC | TSectorTicket | TSectorPreCommit1 | TSectorPreCommit2
  | TSectorPreCommitBatchSent | TSectorPreCommitLanded | TSectorSealPreCommit1Failed
  | TSectorSealPreCommit2Failed | TSectorPreCommitted | TSectorSeedReady | TSectorCommitted
  | TSectorProofReady | TSectorCommitSubmitted | TSectorCommitAggregateSent
  | TSectorStartCCUpdate | TSectorRetryComputeProof | TSectorRetryInvalidProof
  | TSectorRevertUpgradeToProving | TSectorFaultReported | TSectorReceive => true
  | _ => false
  end.

Definition upgrade_planner (p : Planner) : Prop :=
  Forall (fun st => st ∈ Proving :: upgrade_states) (planner_targets p) /\
  existsb is_onReturning (planner_transitions p) = false /\
  Forall (fun t => touches_sealed t = false \/ t = TSectorRevertUpgradeToProving) (planner_muts p).

(** Events of an upgrade that has neither completed nor been reverted. *)
Definition upgrade_event (st : SectorState) (e : Event) : Prop :=
  st <> Proving /\
  match e with
  | SectorForceState _ | SectorReceive _ | SectorRevertUpgradeToProving => False
  | _ => True
  end.

Record upgrade_step (s s' : SectorInfo) : Prop := {
  us_state : State s ∈ Proving :: upgrade_states -> State s' ∈ Proving :: upgrade_states;
  us_view : sealed_view s' = sealed_view s;
  us_pieces : CCPieces s' = CCPieces s;
}.

(** What aborting an upgrade leaves of the sector [s0] it started from. *)
Record restored (s0 s : SectorInfo) : Prop := {
  rs_state : State s = Proving;
  rs_pieces : Pieces s = Pieces s0;
  rs_view : sealed_view s = sealed_view s0;
  rs_update : CCUpdate s = false /\ CCPieces s = [] /\ UpdateSealed s = None /\
    UpdateUnsealed s = None /\ ReplicaUpdateProof s = [] /\ ReplicaUpdateMessage s = None;
}.

#[global] Instance upgrade_step_preorder : PreOrder upgrade_step.
Proof.
  split; [by constructor|]. intros s1 s2 s3 [A1 A2 A3] [B1 B2 B3].
  constructor; [auto|congruence|congruence].
Qed.

Lemma upgrade_closed st p :
  st ∈ upgrade_states -> assoc st fsmPlanners = Some p -> upgrade_planner p.
Proof.
  assert (Forall (fun x => x.1 ∈ upgrade_states -> upgrade_planner x.2) fsmPlanners) as H
    by (unfold upgrade_planner; apply (bool_decide_unpack _); by vm_compute).
  rewrite Forall_forall in H. intros Hst Hp%assoc_elem. by apply (H (st, p)).
Qed.

Lemma upgrade_step_State st s :
  bool_decide (st ∈ Proving :: upgrade_states) = true -> upgrade_step s (set_State st s).
Proof. intros ?%bool_decide_eq_true_1. by constructor. Qed.

Lemma upgrade_apply now e s s' :
  touches_sealed (typeOf e) = false -> event_apply now e s = Some s' -> upgrade_step s s'.
Proof.
  intros Ht Ha.
  assert (State s' = State s) as Hst.
  { destruct (event_apply_sig now e s s') as [? _]; [|done..]. by intros info ->. }
  assert (sealed_view s' = sealed_view s /\ CCPieces s' = CCPieces s) as [? ?];
    [|constructor; [by rewrite Hst|done..]].
  clear Hst. unfold event_apply in Ha.
  destruct e; try discriminate Ht; simpl in Ha; simplify_eq/=;
    try (split; reflexivity).
  - unfold SectorAddPiece_apply. destruct (_ =? _); split; reflexivity.
  - destruct (SectorPacked_fields FillerPieces s) as [l ->]. split; reflexivity.
  - destruct (SectorUpdateDealIDs_fields Updates s s' Ha) as [l ->]. split; reflexivity.
Qed.

Lemma upgrade_planner_step now st p events s r :
  st ∈ upgrade_states -> assoc st fsmPlanners = Some p ->
  Forall (upgrade_event st) events -> runPlanner now p events s = Some r ->
  upgrade_step s (pr_state r).
Proof.
  intros Hst Hp Hev. destruct (upgrade_closed st p Hst Hp) as (Ht & Hr & Hm).
  rewrite Forall_forall in Ht. rewrite Forall_forall in Hm.
  apply (runPlanner_rel now upgrade_step (upgrade_event st) p); [..|done].
  - intros e s1 s2 ns b [_ He] Hg.
    destruct e; simpl in Hg; simplify_eq; try reflexivity; try done; by apply upgrade_step_State.
  - intros e s1 s2 [_ He] Hin Ha. apply (upgrade_apply now e); [|done].
    destruct (Hm _ Hin) as [?|Hrev]; [done|]. by destruct e.
  - intros st' s1 Hin. constructor; [intros _; by apply Ht|done..].
  - rewrite Hr. done.
Qed.

Lemma upgrade_log l s : upgrade_step s (set_Log l s).
Proof. by constructor. Qed.

Lemma runPlanner_nil now p s r : runPlanner now p [] s = Some r -> pr_state r = s.
Proof. destruct p; simpl; intros [= <-]; done. Qed.

Lemma upgrade_plannerFor st events p :
  st ∈ Proving :: upgrade_states -> plannerFor st events = Some p -> assoc st fsmPlanners = Some p.
Proof.
  assert (Forall (fun st => st ∈ knownStates) (Proving :: upgrade_states)) as H
    by (apply (bool_decide_unpack _); by vm_compute).
  rewrite Forall_forall in H. intros [p' Hp]%H%assoc_is_Some. unfold plannerFor. by rewrite Hp.
Qed.

(** While an upgrade is under way it stays in its states and keeps the sealed sector. *)
Lemma upgrade_run s1 visited s2 :
  State s1 ∈ upgrade_states -> run upgrade_event s1 visited s2 -> upgrade_step s1 s2.
Proof.
  intros Hs1 Hrun.
  induction Hrun as [|s visited s1' env events ss o t Hrun IH Hev Hplan]; [reflexivity|].
  specialize (IH Hs1). etrans; [exact IH|].
  assert (State s1' ∈ Proving :: upgrade_states) as Hst by (apply (us_state _ _ IH); by right).
  destruct (Plan_inv env events s1' ss o t Hplan)
    as (s1 & s' & (log1 & -> & _) & (log2 & -> & _) & Hs').
  etrans; [|apply upgrade_log].
  destruct Hs' as [[_ ->]|(p & r & Hp & Hr & Hs')]; [apply upgrade_log|].
  apply upgrade_plannerFor in Hp; [|done].
  assert (upgrade_step (set_Log log1 s1') (pr_state r)) as Hr'.
  { destruct (proj1 (elem_of_cons _ _ _) Hst) as [HP|Hup]; [|by eapply upgrade_planner_step].
    destruct Hev as [|e events [? _] _]; [by rewrite (runPlanner_nil _ _ _ _ Hr)|done]. }
  destruct Hs' as [->|[Hpf _]]; [etrans; [apply (upgrade_log log1)|done]|].
  exfalso. pose proof (us_state _ _ Hr' Hst) as Hin. rewrite Hpf in Hin. revert Hin.
  apply (bool_decide_unpack _). by vm_compute.
Qed.

Lemma Plan_single env event s ss o t p :
  assoc (State s) fsmPlanners = Some p -> PlanIn env [event] s ss = Some (o, t) ->
  exists log1 log2 r s', runPlanner (e_now env) p [event] (set_Log log1 s) = Some r /\
    po_state o = set_Log log2 s' /\ (State (pr_state r) <> PackingFailed -> s' = pr_state r).
Proof.
  intros Hp Hplan.
  destruct (Plan_inv env [event] s ss o t Hplan)
    as (s1 & s' & (log1 & -> & _) & (log2 & Ho & _) & Hs').
  unfold plannerFor in Hs'. rewrite Hp in Hs'.
  destruct Hs' as [[? _]|(p' & r & ? & Hr & Hs')]; [done|]. simplify_eq.
  exists log1, log2, r, s'. split; [done|]. split; [done|]. by destruct Hs' as [->|[? _]].
Qed.

(** Aborting an upgrade restores the sector: whatever happened between the start of a
    replica update of an [Available] sector and its revert, short of its completion, the
    sector is back in [Proving] with the pieces, the commitments and everything else it
    was sealed with, and nothing of the update is left. *)
Theorem abort_upgrade_restores env1 env2 s0 ss1 o1 t1 visited s2 ss2 o2 t2 :
  State s0 = Available ->
  PlanIn env1 [SectorStartCCUpdate] s0 ss1 = Some (o1, t1) ->
  run upgrade_event (po_state o1) visited s2 -> State s2 = AbortUpgrade ->
  PlanIn env2 [SectorRevertUpgradeToProving] s2 ss2 = Some (o2, t2) ->
  restored s0 (po_state o2).
Proof.
  intros H0 Hp1 Hrun H2 Hp2.
  destruct (Plan_single env1 SectorStartCCUpdate s0 ss1 o1 t1
    (PlanOne [on TSectorStartCCUpdate SnapDealsWaitDeals; on TSectorAbortUpgrade Proving]))
    as (l1 & l2 & r & s' & Hr & Ho & Hs'); [rewrite H0; by vm_compute|done|].
  simpl in Hr. injection Hr as <-. rewrite Hs' in Ho by done. rewrite Ho in Hrun. clear Hp1 Ho Hs'.
  apply upgrade_run in Hrun as [_ Hview Hpieces]; [|simpl; apply (bool_decide_unpack _); by vm_compute].
  destruct (Plan_single env2 SectorRevertUpgradeToProving s2 ss2 o2 t2
    (PlanOneOrIgnore [on TSectorRevertUpgradeToProving Proving]))
    as (l3 & l4 & r & s3 & Hr & Ho & Hs3); [rewrite H2; by vm_compute|done|].
  simpl in Hr. injection Hr as <-. rewrite Hs3 in Ho by done. rewrite Ho. clear Ho Hs3.
  constructor; done.
Qed.

(** A committed-capacity sector, and an upgrade that adds a piece before it is aborted. *)
Definition cc_piece : SectorPiece :=
  {| Piece := {| Size := 2048; PieceCID := "zero" |}; DealInfo := None |}.

Definition cc_sector : SectorInfo :=
  set_State Available (set_Pieces [cc_piece] (set_CommR (Some "sealed") zeroSectorInfo)).

Definition upgrade_batches : list (list Event) :=
  [[SectorAddPiece]; [SectorPieceAdded [cc_piece; cc_piece]]; [SectorStartPacking]; [SectorPacked []];
   [SectorReplicaUpdate "sealed2" "unsealed2"]; [SectorProveReplicaUpdateFailed "proof"];
   [SectorAbortUpgrade "aborted"]].

Lemma abort_upgrade_restores_witness :
  exists env1 env2 s0 ss1 o1 t1 visited s2 ss2 o2 t2,
    PlanIn env1 [SectorStartCCUpdate] s0 ss1 = Some (o1, t1) /\
    run upgrade_event (po_state o1) visited s2 /\
    PlanIn env2 [SectorRevertUpgradeToProving] s2 ss2 = Some (o2, t2) /\
    Pieces s0 = [cc_piece] /\ length (Pieces s2) = 2%nat /\ restored s0 (po_state o2).
Proof.
  destruct (PlanIn demoEnv [SectorStartCCUpdate] cc_sector zeroSectorStats) as [[o1 t1]|] eqn:H1;
    [|exfalso; by vm_compute in H1].
  destruct (runBatches demoEnv upgrade_batches [State (po_state o1)] (po_state o1) zeroSectorStats)
    as [[visited s2]|] eqn:H2;
    [|exfalso; vm_compute in H1; injection H1 as <- _; by vm_compute in H2].
  destruct (PlanIn demoEnv [SectorRevertUpgradeToProving] s2 zeroSectorStats) as [[o2 t2]|] eqn:H3;
    [|exfalso; vm_compute in H1; injection H1 as <- _; vm_compute in H2; injection H2 as _ <-;
      by vm_compute in H3].
  assert (State s2 = AbortUpgrade /\ length (Pieces s2) = 2%nat) as [Hs2 Hlen].
  { clear H3. vm_compute in H1. injection H1 as <- _. vm_compute in H2. by injection H2 as _ <-. }
  exists demoEnv, demoEnv, cc_sector, zeroSectorStats, o1, t1, visited, s2, zeroSectorStats, o2, t2.
  assert (run upgrade_event (po_state o1) visited s2) as Hrun.
  { eapply runBatches_run; [|apply run_start|exact H2]. intros events st He Hst.
    assert (st <> Proving) as Hn.
    { clear H3. vm_compute in H1. injection H1 as <- _. vm_compute in H2. injection H2 as <- _.
      revert st Hst. apply Forall_forall. apply (bool_decide_unpack _). by vm_compute. }
    revert events He. apply (Forall_forall (Forall (upgrade_event st))).
    by repeat constructor. }
  split; [exact H1|]. split; [exact Hrun|]. split; [exact H3|]. split; [reflexivity|].
  split; [exact Hlen|].
  exact (abort_upgrade_restores demoEnv demoEnv cc_sector zeroSectorStats o1 t1 visited s2
    zeroSectorStats o2 t2 eq_refl H1 Hrun Hs2 H3).
Defined.

(** ** The sector log *)

Lemma planner_log now p events s r :
  Forall (fun e => forall info, e <> SectorReceive info) events ->
  runPlanner now p events s = Some r -> Log (pr_state r) = Log s.
Proof.
  assert (PreOrder (fun s s' => Log s' = Log s)) by (split; [done|intros ???; congruence]).
  apply (runPlanner_rel now (fun s s' => Log s' = Log s) (fun e => forall info, e <> SectorReceive info) p).
  - by intros e s1 s2 ns b _ [->|[st ->]]%applyGlobal_state.
  - intros e s1 s2 He _ Ha. unfold event_apply in Ha.
    destruct e; simpl in Ha; simplify_eq/=; try done.
    + unfold SectorAddPiece_apply. by destruct (_ =? _).
    + by destruct (SectorPacked_fields FillerPieces s1) as [l ->].
    + by destruct (SectorUpdateDealIDs_fields Updates s1 s2 Ha) as [l ->].
    + exfalso. by eapply He.
  - done.
  - done.
Qed.

(** The log of a sector stays bounded: a step that receives no sector from a remote
    node leaves at most 8001 entries, whatever the events and whether it fails. *)
Theorem log_bounded env events s ss o t :
  Forall (fun e => forall info, e <> SectorReceive info) events ->
  Z.of_nat (length (Log s)) <= log_max -> PlanIn env events s ss = Some (o, t) ->
  Z.of_nat (length (Log (po_state o))) <= log_max.
Proof.
  intros Hev Hs Hplan.
  destruct (Plan_inv env events s ss o t Hplan)
    as (s1 & s' & (log1 & -> & H1) & (log2 & -> & H2) & Hs').
  apply H2. destruct Hs' as [[_ ->]|(p & r & _ & Hr & Hs')]; [by apply H1|].
  apply planner_log in Hr; [|done]. simpl in Hr.
  destruct Hs' as [-> | [_ ->]]; simpl; rewrite Hr; by apply H1.
Qed.

Lemma log_bounded_witness :
  exists env events s ss o t, Z.of_nat (length (Log s)) = 8001 /\
    PlanIn env events s ss = Some (o, t) /\ Z.of_nat (length (Log (po_state o))) <= log_max.
Proof.
  pose (e := {| Timestamp := 0; Trace := EmptyString; Message := EmptyString; Kind := EmptyString |}).
  pose (s := set_Log (replicate (Z.to_nat 8001) e) cc_sector).
  destruct (PlanIn demoEnv [SectorAbortUpgrade "stop"] s zeroSectorStats) as [[o t]|] eqn:Hp;
    [|exfalso; by vm_compute in Hp].
  exists demoEnv, [SectorAbortUpgrade "stop"], s, zeroSectorStats, o, t.
  assert (Z.of_nat (length (Log s)) = 8001) as Hl by by vm_compute.
  split; [exact Hl|]. split; [exact Hp|].
  refine (log_bounded demoEnv [SectorAbortUpgrade "stop"] s zeroSectorStats o t _ _ Hp).
  - by repeat constructor.
  - by rewrite Hl.
Defined.

(** When the log is cut, the entries 2000 to 5999 are dropped and nothing marks the
    cut: the entry written to announce the truncation is at index 2000 and is dropped
    with the rest. *)
Theorem log_truncation_unmarked now l s :
  8000 < Z.of_nat (length (Log s)) ->
  Log (logAppend now l s) =
    take (Z.to_nat 2000) (Log s) ++ drop (Z.to_nat 6000) (Log s) ++ [l].
Proof.
  intros H. rewrite logAppend_log. destruct (Z.ltb_spec 8000 (Z.of_nat (length (Log s)))); [|lia].
  simpl. by rewrite <- app_assoc.
Qed.

(** ** Consumed events *)

Lemma planOne_loop_processed now ts events i s notifs r :
  planOne_loop now ts events i s notifs = Some r ->
  i <= pr_processed r <= i + Z.of_nat (length events) /\ (events <> [] -> i + 1 <= pr_processed r).
Proof.
  revert i s notifs. induction events as [|e events IH]; intros i s notifs; simpl planOne_loop.
  { intros; simplify_eq/=. split; [lia|done]. }
  assert (forall s1 n1, planOne_loop now ts events (i + 1) s1 n1 = Some r ->
    i <= pr_processed r <= i + Z.of_nat (length (e :: events)) /\
    (e :: events <> [] -> i + 1 <= pr_processed r)) as Hgo
    by (intros s1 n1 [? _]%IH; simpl length; lia).
  assert (forall s1 n1 err, Some {| pr_state := s1; pr_notifs := n1; pr_processed := i + 1;
      pr_err := err |} = Some r ->
    i <= pr_processed r <= i + Z.of_nat (length (e :: events)) /\
    (e :: events <> [] -> i + 1 <= pr_processed r)) as Hret
    by (intros s1 n1 err [= <-]; simpl; lia).
  destruct (applyGlobal e s) as [[[s1 ns] b]|]; [apply Hret|].
  destruct (list_find _ ts) as [[j t]|].
  - destruct (event_apply now e s) as [s1|]; simpl; [|done].
    destruct (transition_next t s1) as [[[s2 ns] more] err].
    destruct (_ || _); [apply Hret|apply Hgo].
  - destruct (isIgnorable e); [apply Hgo|apply Hret].
Qed.

Lemma planCommitting_step_processed now e i s notifs r :
  planCommitting_step now e i s notifs = Some (inr r) ->
  pr_processed r = i + 1 \/ pr_processed r = i /\ pr_err r <> None.
Proof.
  unfold planCommitting_step.
  destruct (applyGlobal e s) as [[[s1 ns] [|]]|]; [intros; simplify_eq/=; auto|done|].
  destruct e; try (destruct (event_apply now _ s); simpl); try destruct (_ && _);
    intros; simplify_eq/=; auto.
Qed.

Lemma planCommitting_loop_processed now events i s notifs r :
  planCommitting_loop now events i s notifs = Some r ->
  i <= pr_processed r <= i + Z.of_nat (length events) /\
  (events <> [] -> pr_err r = None -> i + 1 <= pr_processed r).
Proof.
  revert i s notifs. induction events as [|e events IH]; intros i s notifs; simpl planCommitting_loop.
  { intros; simplify_eq/=. split; [lia|done]. }
  destruct (planCommitting_step now e i s notifs) as [[[s1 n1]|r1]|] eqn:Hs; simpl; [| |done].
  - intros [? _]%IH. lia.
  - intros [= <-]. apply planCommitting_step_processed in Hs as [?|[? ?]]; split; try lia. done.
Qed.

Lemma runPlanner_processed now p events s r :
  runPlanner now p events s = Some r ->
  0 <= pr_processed r <= Z.of_nat (length events) /\
  (events <> [] -> pr_err r = None -> 1 <= pr_processed r).
Proof.
  destruct p as [ts|ts| | |]; simpl.
  - intros H%planOne_loop_processed. intuition lia.
  - unfold planOneOrIgnore. destruct (planOne now ts events s) as [r1|] eqn:Hr; simpl; [|done].
    intros [= <-]. apply planOne_loop_processed in Hr. simpl. intuition lia.
  - intros H%planCommitting_loop_processed. intuition lia.
  - unfold final. destruct events as [|e events]; [intros [= <-]; simpl; split; [lia|done]|].
    destruct (applyGlobal e s) as [[[s1 ns] b]|]; intros [= <-]; simpl; split; lia || done.
  - unfold finalRemoved. intros [= <-]. simpl. split; [lia|]. destruct events; simpl; [done|lia].
Qed.

Lemma dispatch_processed s n :
  (dispatch s n).1.2 = n \/ dispatch s n = (s, Some handleReleaseSectorKeyFailed, 0, None).
Proof.
  unfold dispatch. generalize (assoc (State s) handlers). intros h.
  repeat case_decide; auto. destruct h; auto.
Qed.

(** The number of events a step reports as consumed never exceeds those it was given,
    and a step that starts a handler consumes at least one of them, except when the
    handler is that of [ReleaseSectorKeyFailed]. *)
Theorem plan_consumes env events s ss o t :
  PlanIn env events s ss = Some (o, t) ->
  0 <= po_processed o <= Z.of_nat (length events) /\
  (forall h, po_next o = Some h -> h <> handleReleaseSectorKeyFailed -> events <> [] ->
   1 <= po_processed o).
Proof.
  unfold PlanIn, Plan. destruct (plan _ _ _ _ _ _ _ _ _ _ _) as [o1|] eqn:Hp; simpl; [|done].
  intros Ho.
  assert (po_processed o = po_processed o1 /\ (po_next o = None \/ po_next o = po_next o1)) as [-> Hn].
  { destruct (po_err o1), (po_next o1) eqn:?; simplify_eq/=; auto. }
  clear Ho. enough (0 <= po_processed o1 <= Z.of_nat (length events) /\
    (forall h, po_next o1 = Some h -> h <> handleReleaseSectorKeyFailed -> events <> [] ->
     1 <= po_processed o1)) as [? Hh].
  { split; [done|]. intros h Hh'. destruct Hn as [Hn|Hn]; rewrite Hn in Hh'; [done|by apply Hh]. }
  unfold plan in Hp. destruct (plannerFor _ _) as [p|]; [|simplify_eq/=; split; [lia|done]].
  destruct (runPlanner _ p events _) as [r|] eqn:Hr; simpl in Hp; [|done].
  apply runPlanner_processed in Hr as [Hb Hpos].
  destruct (pr_err r) eqn:He; [simplify_eq/=; split; [lia|done]|].
  destruct (onUpdateSector _ _ _ _ _) as [ss1 upd].
  pose proof (dispatch_processed (pr_state r) (pr_processed r)) as Hd.
  destruct (dispatch (pr_state r) (pr_processed r)) as [[[after next] n] err].
  simplify_eq/=. destruct Hd as [->|?]; simplify_eq/=; [auto|]. split; [lia|]. intros h [= <-]. done.
Qed.

Lemma plan_consumes_witness :
  exists env events s ss o t, PlanIn env events s ss = Some (o, t) /\
    length events = 2%nat /\ 1 <= po_processed o <= 2.
Proof.
  destruct (PlanIn demoEnv [SectorStartCCUpdate; SectorAddPiece] cc_sector zeroSectorStats)
    as [[o t]|] eqn:Hp; [|exfalso; by vm_compute in Hp].
  exists demoEnv, [SectorStartCCUpdate; SectorAddPiece], cc_sector, zeroSectorStats, o, t.
  split; [exact Hp|]. split; [reflexivity|].
  destruct (plan_consumes _ _ _ _ _ _ Hp) as [[_ Hle] Hge]. split; [|exact Hle].
  apply (Hge handleWaitDeals); [|done..]. vm_compute in Hp. by injection Hp as <- _.
Defined.

(** ** Steps with a known plan *)

(** A step whose planner succeeds and whose new state has a handler. *)
Lemma Plan_ok env events s ss p r s' h n :
  plannerFor (State s) events = Some p ->
  runPlanner (e_now env) p events
    (logEvents (e_now env) (e_marshal env) (e_formatTrace env) (e_typeName env) events s) = Some r ->
  pr_err r = None -> dispatch (pr_state r) (pr_processed r) = (s', Some h, n, None) ->
  exists o, PlanIn env events s ss = Some (o, false) /\ po_state o = s' /\ po_next o = Some h /\
    po_processed o = n /\ po_stats o = (onUpdateSector (e_getConfig env) (e_minerSectorID env)
      (e_currentSealProof env) (pr_state r) ss).1.
Proof.
  intros Hp Hr He Hd. unfold PlanIn, Plan, plan.
  destruct (logEvents_logged (e_now env) (e_marshal env) (e_formatTrace env) (e_typeName env)
    events s) as (log & E & _). rewrite E in Hr |- *.
  change (State (set_Log log s)) with (State s). rewrite Hp, Hr. simpl. rewrite He, Hd.
  destruct (onUpdateSector _ _ _ _ _) as [ss1 upd]. simpl. eexists. split_and!; reflexivity.
Qed.

Lemma applyGlobal_planner now p e s s' ns b :
  p <> FinalRemoved -> applyGlobal e s = Some (s', ns, b) ->
  exists r, runPlanner now p [e] s = Some r /\ pr_state r = s' /\ pr_err r = None /\
    pr_processed r = 1.
Proof.
  intros Hp Hg.
  destruct p as [ts|ts| | |]; [..|done]; simpl;
    unfold planOneOrIgnore, planOne, planCommitting, planCommitting_loop, planCommitting_step;
    simpl; rewrite Hg; try destruct b; simpl; eexists; split_and!; reflexivity.
Qed.

Lemma plannerFor_global st e :
  st <> Removed -> isGlobal e = true -> exists p, plannerFor st [e] = Some p /\ p <> FinalRemoved.
Proof.
  intros Hst He. unfold plannerFor. destruct (assoc st fsmPlanners) as [p|] eqn:Hp.
  - exists p. split; [done|]. apply assoc_elem in Hp. intros ->.
    assert (Forall (fun x => match x.2 with FinalRemoved => x.1 = Removed | _ => True end) fsmPlanners)
      as H by (repeat constructor).
    rewrite Forall_forall in H. exact (Hst (H _ Hp)).
  - rewrite He. by exists (PlanOne []).
Qed.

(** [C38] Every sector can be removed: in any state but [Removed], even one the table does
    not know, [SectorRemove] leads to [Removing] and starts its handler, and
    [SectorRemoved] then leads to [Removed], where the machine terminates unless it is
    configured to keep removed sectors. *)
Theorem sector_removable env env' s ss ss' :
  State s <> Removed ->
  exists o1 o2, PlanIn env [SectorRemove] s ss = Some (o1, false) /\
    State (po_state o1) = Removing /\ po_next o1 = Some handleRemoving /\
    PlanIn env' [SectorRemoved] (po_state o1) ss' = Some (o2, negb (e_keepRemoved env')) /\
    State (po_state o2) = Removed.
Proof.
  intros Hs. destruct (plannerFor_global (State s) SectorRemove Hs eq_refl) as (p & Hp & Hne).
  set (s1 := logEvents (e_now env) (e_marshal env) (e_formatTrace env) (e_typeName env)
    [SectorRemove] s).
  destruct (applyGlobal_planner (e_now env) p SectorRemove s1 (set_State Removing s1)
    (maybeNotifyRemoteDone false "Removing" s1) true) as (r & Hr & Hs' & He & Hn); [done|done|].
  destruct (Plan_ok env [SectorRemove] s ss p r (set_State Removing s1) handleRemoving 1)
    as (o1 & Ho1 & Hst & Hnext & _); [done..|by rewrite Hs', Hn|].
  exists o1. rewrite Hst. clear Hst Hs' Hr.
  unfold PlanIn, Plan, plan.
  destruct (logEvents_logged (e_now env') (e_marshal env') (e_formatTrace env') (e_typeName env')
    [SectorRemoved] (set_State Removing s1)) as (log & -> & _).
  change (State (set_Log log (set_State Removing s1))) with Removing.
  replace (plannerFor Removing [SectorRemoved])
    with (Some (PlanOneOrIgnore [on TSectorRemoved Removed; on TSectorRemoveFailed RemoveFailed]))
    by by vm_compute.
  simpl. destruct (onUpdateSector _ _ _ _ _) as [ss1 upd]. simpl.
  eexists. split; [exact Ho1|]. split; [done|]. split; [done|]. split; [reflexivity|].
  destruct (e_keepRemoved env'); cbn [po_state negb]; [by rewrite logAppend_log|done].
Qed.

Lemma sector_removable_witness :
  exists s, State s = FailedUnrecoverable /\
  exists o1 o2, PlanIn demoEnv [SectorRemove] s zeroSectorStats = Some (o1, false) /\
    State (po_state o1) = Removing /\ po_next o1 = Some handleRemoving /\
    PlanIn demoEnv [SectorRemoved] (po_state o1) zeroSectorStats = Some (o2, true) /\
    State (po_state o2) = Removed.
Proof.
  exists (set_State FailedUnrecoverable cc_sector). split; [reflexivity|].
  exact (sector_removable demoEnv demoEnv (set_State FailedUnrecoverable cc_sector)
    zeroSectorStats zeroSectorStats ltac:(by vm_compute)).
Defined.

(** The event that reports a failed release of the sector key is not consumed: the step
    starts the handler of [ReleaseSectorKeyFailed] with zero events processed, and the
    same event, planned again, is refused. *)
Theorem release_key_failure_unconsumed env env' err s ss ss' :
  State s = ReleaseSectorKey ->
  exists o1 o2, PlanIn env [SectorReleaseKeyFailed err] s ss = Some (o1, false) /\
    State (po_state o1) = ReleaseSectorKeyFailed /\
    po_next o1 = Some handleReleaseSectorKeyFailed /\ po_processed o1 = 0 /\
    PlanIn env' [SectorReleaseKeyFailed err] (po_state o1) ss' = Some (o2, false) /\
    po_next o2 = None /\ State (po_state o2) = ReleaseSectorKeyFailed.
Proof.
  intros Hs.
  set (s1 := logEvents (e_now env) (e_marshal env) (e_formatTrace env) (e_typeName env)
    [SectorReleaseKeyFailed err] s).
  destruct (Plan_ok env [SectorReleaseKeyFailed err] s ss
    (PlanOne [on TSectorKeyReleased Proving; on TSectorReleaseKeyFailed ReleaseSectorKeyFailed])
    {| pr_state := set_State ReleaseSectorKeyFailed s1; pr_notifs := []; pr_processed := 1;
       pr_err := None |} (set_State ReleaseSectorKeyFailed s1) handleReleaseSectorKeyFailed 0)
    as (o1 & Ho1 & Hst & Hnext & Hproc & _); [by rewrite Hs; vm_compute|done..|].
  exists o1. rewrite Hst. unfold PlanIn at 2, Plan, plan.
  destruct (logEvents_logged (e_now env') (e_marshal env') (e_formatTrace env') (e_typeName env')
    [SectorReleaseKeyFailed err] (set_State ReleaseSectorKeyFailed s1)) as (log & -> & _).
  change (State (set_Log log (set_State ReleaseSectorKeyFailed s1))) with ReleaseSectorKeyFailed.
  replace (plannerFor ReleaseSectorKeyFailed [SectorReleaseKeyFailed err])
    with (Some (PlanOne [on TSectorUpdateActive ReleaseSectorKey])) by by vm_compute.
  simpl. eexists. split; [exact Ho1|]. split_and!; try done.
  cbn [po_state]. by rewrite logAppend_log.
Qed.
