(* ===== verification/StateTree.v ===== *)
(** * The state tree: chain/state/statetree.go

    [StateTree] holds the actors of the chain in a HAMT and, above it, a stack of layers with
    the writes since each snapshot.  Every layer also caches address resolutions.  The HAMT,
    the block store and the init actor are not part of the repository: [StateStore] has
    their operations and [StateStoreOk] what the tree relies on. *)

From S2P Require Import Prelude.

Definition Address := string.
Definition Undef : Address := EmptyString.
Definition Cid := string.

(** ** chain/types/actor.go and state.go *)

Record ActorV4 := {
  Code4 : Cid;
  Head4 : Cid;
  Nonce4 : Z;
  Balance4 : Z;
}.

Record Actor := {
  Code : Cid;
  Head : Cid;
  Nonce : Z;
  Balance : Z;
  DelegatedAddress : option Address; (* [Address] in the source *)
}.

Definition AsActorV4 (a : Actor) : ActorV4 :=
  {| Code4 := Code a; Head4 := Head a; Nonce4 := Nonce a; Balance4 := Balance a |}.

Definition AsActorV5 (a : ActorV4) : Actor :=
  {| Code := Code4 a; Head := Head4 a; Nonce := Nonce4 a; Balance := Balance4 a;
     DelegatedAddress := None |}.

Definition set_Head (h : Cid) (a : Actor) : Actor :=
  {| Code := Code a; Head := h; Nonce := Nonce a; Balance := Balance a;
     DelegatedAddress := DelegatedAddress a |}.

(** A value of the HAMT, in the encoding of the tree's version. *)
Inductive StoredActor := SV4 (a : ActorV4) | SV5 (a : Actor).

Definition ErrActorNotFound : string := "actor not found".

Record StateRoot := {
  RootVersion : Z;
  RootActors : Cid;
  RootInfo : Cid;
}.

(** ** What the tree is built on *)

Class StateStore := {
  (** [addr.Protocol() == address.ID] *)
  isID : Address -> bool;
  (** the HAMT *)
  hamt : Type;
  hamt_New : Z -> outcome hamt;
  hamt_Load : Z -> Cid -> outcome hamt;
  hamt_Get : hamt -> Address -> outcome (option StoredActor);
  hamt_Put : hamt -> Address -> StoredActor -> outcome hamt;
  hamt_Delete : hamt -> Address -> outcome hamt;
  hamt_ForEach : hamt -> list (Address * StoredActor);
  hamt_Root : hamt -> outcome Cid;
  (** the block store *)
  store_PutInfo : outcome Cid;
  store_GetRoot : Cid -> outcome StateRoot;
  store_PutRoot : StateRoot -> outcome Cid;
  (** the init actor: [init_.Load] with [ResolveAddress], and with [MapAddressToNewID]
      followed by storing the new state, whose CID it returns *)
  init_Address : Address;
  init_Resolve : Actor -> Address -> outcome (option Address);
  init_MapNew : Actor -> Address -> outcome (Address * Cid);
}.

(** ** Layers *)

Record streeOp := {
  Act : Actor;
  Delete : bool;
}.

Record stateSnapLayer := {
  actors : gmap Address streeOp;
  resolveCache : gmap Address Address;
}.

(** The layers are listed from the last to the first: the head has the highest index. *)
Record stateSnaps := {
  layers : list stateSnapLayer;
  lastMaybeNonEmptyResolveCache : Z;
}.

Section statetree.
Context `{StateStore}.

Record StateTree := {
  root : hamt;
  version : Z;
  info : Cid;
  snaps : stateSnaps;
}.

Definition zeroActor : Actor :=
  {| Code := EmptyString; Head := EmptyString; Nonce := 0; Balance := 0; DelegatedAddress := None |}.

Definition newStateSnapLayer : stateSnapLayer := {| actors := ∅; resolveCache := ∅ |}.

Definition addLayer (ss : stateSnaps) : stateSnaps :=
  {| layers := newStateSnapLayer :: layers ss;
     lastMaybeNonEmptyResolveCache := lastMaybeNonEmptyResolveCache ss |}.

Definition newStateSnaps : stateSnaps :=
  addLayer {| layers := []; lastMaybeNonEmptyResolveCache := 0 |}.

(** [None] is an index out of range. *)
Definition dropLayer (ss : stateSnaps) : option stateSnaps :=
  match layers ss with
  | [] => None
  | _ :: ls =>
      let n := Z.of_nat (length ls) in
      Some {| layers := ls;
              lastMaybeNonEmptyResolveCache :=
                if lastMaybeNonEmptyResolveCache ss =? n then n - 1
                else lastMaybeNonEmptyResolveCache ss |}
  end.

Definition mergeLastLayer (ss : stateSnaps) : option stateSnaps :=
  match layers ss with
  | last :: nextLast :: ls =>
      let merged := {| actors := actors last ∪ actors nextLast;
                       resolveCache := resolveCache last ∪ resolveCache nextLast |} in
      dropLayer {| layers := last :: merged :: ls;
                   lastMaybeNonEmptyResolveCache := lastMaybeNonEmptyResolveCache ss |}
  | _ => None
  end.

(** The loop of [resolveAddress] from the highest index down: it starts at [last]. *)
Fixpoint resolveLoop (ls : list stateSnapLayer) (addr : Address) (last0 last : Z)
    : option Address * Z :=
  match ls with
  | [] => (None, last)
  | l :: ls =>
      let i := Z.of_nat (length ls) in
      if last0 <? i then resolveLoop ls addr last0 last
      else if Nat.eqb (size (resolveCache l)) 0
      then resolveLoop ls addr last0 (if last =? i then i - 1 else last)
      else match resolveCache l !! addr with
           | Some resa => (Some resa, last)
           | None => resolveLoop ls addr last0 last
           end
  end.

(** [None] is an index out of range. *)
Definition resolveAddress (ss : stateSnaps) (addr : Address)
    : option (option Address * stateSnaps) :=
  let last := lastMaybeNonEmptyResolveCache ss in
  if Z.of_nat (length (layers ss)) <=? last then None
  else
    let '(resa, last) := resolveLoop (layers ss) addr last last in
    Some (resa, {| layers := layers ss; lastMaybeNonEmptyResolveCache := last |}).

(** Updates of the last layer; [None] is an index out of range. *)
Definition cacheResolveAddress (addr resa : Address) (ss : stateSnaps) : option stateSnaps :=
  match layers ss with
  | [] => None
  | l :: ls =>
      Some {| layers := {| actors := actors l; resolveCache := <[addr := resa]> (resolveCache l) |} :: ls;
              lastMaybeNonEmptyResolveCache := Z.of_nat (length ls) |}
  end.

Definition writeActor (addr : Address) (op : streeOp) (ss : stateSnaps) : option stateSnaps :=
  match layers ss with
  | [] => None
  | l :: ls =>
      Some {| layers := {| actors := <[addr := op]> (actors l); resolveCache := resolveCache l |} :: ls;
              lastMaybeNonEmptyResolveCache := lastMaybeNonEmptyResolveCache ss |}
  end.

Definition snaps_setActor (addr : Address) (act : Actor) : stateSnaps -> option stateSnaps :=
  writeActor addr {| Act := act; Delete := false |}.

Definition snaps_deleteActor (addr : Address) : stateSnaps -> option stateSnaps :=
  writeActor addr {| Act := zeroActor; Delete := true |}.

(** The loop of [stateSnaps.getActor]. *)
Fixpoint findOp (ls : list stateSnapLayer) (addr : Address) : option streeOp :=
  match ls with
  | [] => None
  | l :: ls =>
      match actors l !! addr with
      | Some op => Some op
      | None => findOp ls addr
      end
  end.

Definition snaps_getActor (ss : stateSnaps) (addr : Address) : outcome (option Actor) :=
  match findOp (layers ss) addr with
  | Some act => if Delete act then Err ErrActorNotFound else Ret (Some (Act act))
  | None => Ret None
  end.

(** ** Versions *)

(** [None] is the panic on an unsupported version. *)
Definition VersionForNetwork (ver : Z) : option Z :=
  if bool_decide (ver ∈ [0; 1; 2; 3]) then Some 0
  else if bool_decide (ver ∈ [4; 5; 6; 7; 8; 9]) then Some 1
  else if bool_decide (ver ∈ [10; 11]) then Some 2
  else if bool_decide (ver = 12) then Some 3
  else if bool_decide (ver ∈ [13; 14; 15; 16; 17]) then Some 4
  else if bool_decide (ver ∈ [18; 19; 20; 21]) then Some 5
  else None.

Definition supportedVersion (ver : Z) : bool := bool_decide (ver ∈ [0; 1; 2; 3; 4; 5]).

Definition NewStateTree (ver : Z) : outcome StateTree :=
  if negb (supportedVersion ver) then Err "unsupported state tree version"
  else
    info ← (if ver =? 0 then Ret EmptyString else store_PutInfo);
    h ← hamt_New ver;
    Ret {| root := h; version := ver; info := info; snaps := newStateSnaps |}.

Definition LoadStateTree (c : Cid) : outcome StateTree :=
  r ← (match store_GetRoot c with
       | Ret r => Ret r
       | Err _ => Ret {| RootVersion := 0; RootActors := c; RootInfo := EmptyString |}
       | Panic => Panic
       end);
  if negb (supportedVersion (RootVersion r)) then Err "unsupported state tree version"
  else
    h ← hamt_Load (RootVersion r) (RootActors r);
    Ret {| root := h; version := RootVersion r; info := RootInfo r; snaps := newStateSnaps |}.

(** ** Operations

    An operation may fail and still have changed the tree, whose caches it fills. *)

Definition ST (A : Type) : Type := StateTree -> outcome A * StateTree.

Definition st_ret {A} (a : A) : ST A := fun st => (Ret a, st).
Definition st_lift {A} (o : outcome A) : ST A := fun st => (o, st).
Definition st_bind {A B} (m : ST A) (k : A -> ST B) : ST B := fun st =>
  match m st with
  | (Ret a, st) => k a st
  | (Err e, st) => (Err e, st)
  | (Panic, st) => (Panic, st)
  end.

Definition with_snaps (ss : stateSnaps) (st : StateTree) : StateTree :=
  {| root := root st; version := version st; info := info st; snaps := ss |}.

Definition with_root (h : hamt) (st : StateTree) : StateTree :=
  {| root := h; version := version st; info := info st; snaps := snaps st |}.

(** A method of [stateSnaps] on the tree. *)
Definition on_snaps (f : stateSnaps -> option stateSnaps) : ST unit := fun st =>
  match f (snaps st) with
  | Some ss => (Ret tt, with_snaps ss st)
  | None => (Panic, st)
  end.

Definition decodeActor (ver : Z) (v : StoredActor) : outcome Actor :=
  match v with
  | SV4 a => if ver <=? 4 then Ret (AsActorV5 a) else Err "hamt find failed"
  | SV5 a => if ver <=? 4 then Err "hamt find failed" else Ret a
  end.

Definition encodeActor (ver : Z) (a : Actor) : StoredActor :=
  if ver <=? 4 then SV4 (AsActorV4 a) else SV5 a.

Definition rootGet (st : StateTree) (addr : Address) : outcome (option Actor) :=
  v ← hamt_Get (root st) addr;
  match v with
  | None => Ret None
  | Some v => a ← decodeActor (version st) v; Ret (Some a)
  end.

Definition getActorWith (LookupID : Address -> ST Address) (addr : Address) : ST Actor :=
  if bool_decide (addr = Undef) then st_lift (Err "GetActor called on undefined address")
  else
    st_bind (LookupID addr) (fun addr st =>
      match snaps_getActor (snaps st) addr with
      | Err e => (Err e, st)
      | Panic => (Panic, st)
      | Ret (Some act) => (Ret act, st)
      | Ret None =>
          match rootGet st addr with
          | Err e => (Err e, st)
          | Panic => (Panic, st)
          | Ret None => (Err ErrActorNotFound, st)
          | Ret (Some act) =>
              st_bind (on_snaps (snaps_setActor addr act)) (fun _ => st_ret act) st
          end
      end).

(** [LookupID], [lookupIDinternal] and [GetActor] call each other; the inner call is on the
    address of the init actor, which is an ID address.  Running out of [n] stands for
    unbounded recursion. *)
Fixpoint lookupID (n : nat) (addr : Address) : ST Address := fun st =>
  if isID addr then (Ret addr, st)
  else
    match resolveAddress (snaps st) addr with
    | None => (Panic, st)
    | Some (Some resa, ss) => (Ret resa, with_snaps ss st)
    | Some (None, ss) =>
        match n with
        | O => (Panic, with_snaps ss st)
        | S n =>
            st_bind (getActorWith (lookupID n) init_Address) (fun act =>
            st_bind (st_lift (init_Resolve act addr)) (fun found =>
              match found with
              | None => st_lift (Err ErrActorNotFound)
              | Some a => st_bind (on_snaps (cacheResolveAddress addr a)) (fun _ => st_ret a)
              end)) (with_snaps ss st)
        end
    end.

Definition LookupID : Address -> ST Address := lookupID 1.

Definition GetActor (addr : Address) : ST Actor := getActorWith LookupID addr.

Definition SetActor (addr : Address) (act : Actor) : ST unit :=
  st_bind (LookupID addr) (fun addr => on_snaps (snaps_setActor addr act)).

Definition DeleteActor (addr : Address) : ST unit :=
  if bool_decide (addr = Undef) then st_lift (Err "DeleteActor called on undefined address")
  else
    st_bind (LookupID addr) (fun addr =>
    st_bind (GetActor addr) (fun _ => on_snaps (snaps_deleteActor addr))).

Definition Snapshot : ST unit := on_snaps (fun ss => Some (addLayer ss)).
Definition ClearSnapshot : ST unit := on_snaps mergeLastLayer.
Definition Revert : ST unit := on_snaps (fun ss => ss ← dropLayer ss; Some (addLayer ss)).

Definition MutateActor (addr : Address) (f : Actor -> outcome Actor) : ST unit :=
  st_bind (GetActor addr) (fun act =>
  st_bind (st_lift (f act)) (fun act => SetActor addr act)).

Definition RegisterNewAddress (addr : Address) : ST Address :=
  st_bind (GetActor init_Address) (fun initact =>
  st_bind (st_lift (init_MapNew initact addr)) (fun '(oaddr, ncid) =>
  st_bind (SetActor init_Address (set_Head ncid initact)) (fun _ => st_ret oaddr))).

(** The loop of [Flush]; the HAMT is updated in place, also when a later write fails. *)
Fixpoint flushOps (ver : Z) (ops : list (Address * streeOp)) (h : hamt) : outcome unit * hamt :=
  match ops with
  | [] => (Ret tt, h)
  | (addr, sto) :: ops =>
      match (if Delete sto then hamt_Delete h addr else hamt_Put h addr (encodeActor ver (Act sto))) with
      | Ret h => flushOps ver ops h
      | Err e => (Err e, h)
      | Panic => (Panic, h)
      end
  end.

Definition Flush : ST Cid := fun st =>
  match layers (snaps st) with
  | [l] =>
      let '(r, h) := flushOps (version st) (map_to_list (actors l)) (root st) in
      st_bind (st_lift r) (fun _ =>
      st_bind (st_lift (hamt_Root h)) (fun c =>
        if version st =? 0 then st_ret c
        else st_lift (store_PutRoot {| RootVersion := version st; RootActors := c;
                                       RootInfo := info st |}))) (with_root h st)
  | _ => (Err "tried to flush state tree with snapshots on the stack", st)
  end.

(** ** Iteration *)

Section iteration.
Context {S : Type} (f : S -> Address -> Actor -> outcome S).

Fixpoint forEachOps (ops : list (Address * streeOp)) (seen : gset Address) (s : S)
    : outcome (gset Address * S) :=
  match ops with
  | [] => Ret (seen, s)
  | (addr, op) :: ops =>
      if bool_decide (addr ∈ seen) then forEachOps ops seen s
      else
        let seen := {[addr]} ∪ seen in
        if Delete op then forEachOps ops seen s
        else s ← f s addr (Act op); forEachOps ops seen s
  end.

Fixpoint forEachLayers (ls : list stateSnapLayer) (seen : gset Address) (s : S)
    : outcome (gset Address * S) :=
  match ls with
  | [] => Ret (seen, s)
  | l :: ls =>
      '(seen, s) ← forEachOps (map_to_list (actors l)) seen s;
      forEachLayers ls seen s
  end.

Fixpoint forEachRoot (ver : Z) (vs : list (Address * StoredActor)) (seen : gset Address) (s : S)
    : outcome S :=
  match vs with
  | [] => Ret s
  | (addr, v) :: vs =>
      act ← decodeActor ver v;
      if bool_decide (addr ∈ seen) then forEachRoot ver vs seen s
      else s ← f s addr act; forEachRoot ver vs seen s
  end.

Definition ForEach (st : StateTree) (s : S) : outcome S :=
  '(seen, s) ← forEachLayers (layers (snaps st)) ∅ s;
  forEachRoot (version st) (hamt_ForEach (root st)) seen s.
End iteration.

(** Stored values are compared as bytes. *)
#[global] Instance StoredActor_eq_dec : EqDecision StoredActor.
Proof.
  assert (EqDecision ActorV4) by solve_decision. assert (EqDecision Actor) by solve_decision.
  solve_decision.
Defined.

(** [Diff] on the saved actors; [addr_String] renders an address. *)
Definition Diff (addr_String : Address -> string) (oldTree newTree : StateTree)
    : outcome (gmap string Actor) :=
  foldl (fun out '(addr, ncval) =>
           out ← out;
           ocval ← hamt_Get (root oldTree) addr;
           if bool_decide (ocval = Some ncval) then Ret out
           else act ← decodeActor (version newTree) ncval; Ret (<[addr_String addr := act]> out))
    (Ret ∅) (hamt_ForEach (root newTree)).

End statetree.

