(* ===== verification/StateTreeProps.v ===== *)
(** * The state tree is a stack of maps

    The layers, the HAMT and the caches of chain/state/statetree.go implement a stack of
    finite maps from ID addresses to actors: [specOp] gives the operations on the stack,
    [statetree_refines] the refinement.  Flushing and loading, and iteration, are related
    to the map on top. *)

From S2P Require Import Prelude StateTree.

(** What the tree relies on: the HAMT is a map that can be stored and loaded, the init actor
    maps addresses to ID addresses and only ever adds to its map. *)
Class StateStoreOk `{StateStore} := {
  hamt_view : hamt -> gmap Address StoredActor;
  hamt_Get_ok h a : hamt_Get h a = Ret (hamt_view h !! a);
  hamt_Put_ok h a v h' : hamt_Put h a v = Ret h' -> hamt_view h' = <[a := v]> (hamt_view h);
  hamt_Delete_ok h a h' : hamt_Delete h a = Ret h' -> hamt_view h' = delete a (hamt_view h);
  hamt_ForEach_ok h : hamt_ForEach h ≡ₚ map_to_list (hamt_view h);
  hamt_New_ok ver h : hamt_New ver = Ret h -> hamt_view h = ∅;
  hamt_Load_ok ver h c : hamt_Root h = Ret c ->
    exists h', hamt_Load ver c = Ret h' /\ hamt_view h' = hamt_view h;
  hamt_Root_raw h c : hamt_Root h = Ret c -> exists e, store_GetRoot c = Err e;
  store_PutRoot_ok r c : store_PutRoot r = Ret c -> store_GetRoot c = Ret r;
  isID_Undef : isID Undef = false;
  init_isID : isID init_Address = true;
  init_Resolve_ID act a r : init_Resolve act a = Ret (Some r) -> isID r = true;
  init_MapNew_ok act a r h : init_MapNew act a = Ret (r, h) ->
    init_Resolve (set_Head h act) a = Ret (Some r);
  init_MapNew_keeps act a r h b x : init_MapNew act a = Ret (r, h) -> b <> a ->
    init_Resolve act b = Ret (Some x) -> init_Resolve (set_Head h act) b = Ret (Some x);
}.

(** ** The specification *)

Notation View := (gmap Address Actor).

Inductive Op :=
| OpLookup (a : Address)
| OpGet (a : Address)
| OpSet (a : Address) (act : Actor)
| OpDelete (a : Address)
| OpRegister (a : Address)
| OpSnapshot
| OpClear
| OpRevert.

Inductive Res := RAddr (a : Address) | RActor (act : Actor) | RUnit.

Section spec.
Context `{StateStore}.

Definition specLookup (v : View) (a : Address) : outcome Address :=
  if isID a then Ret a
  else match v !! init_Address with
       | None => Err ErrActorNotFound
       | Some act =>
           found ← init_Resolve act a;
           match found with Some r => Ret r | None => Err ErrActorNotFound end
       end.

Definition specFind (v : View) (id : Address) : outcome Actor :=
  match v !! id with Some act => Ret act | None => Err ErrActorNotFound end.

(** An operation on the top of the stack: its result and the new top. *)
Definition specTop (o : Op) (v : View) : outcome (Res * View) :=
  match o with
  | OpLookup a => r ← specLookup v a; Ret (RAddr r, v)
  | OpGet a =>
      if bool_decide (a = Undef) then Err "GetActor called on undefined address"
      else r ← specLookup v a; act ← specFind v r; Ret (RActor act, v)
  | OpSet a act => r ← specLookup v a; Ret (RUnit, <[r := act]> v)
  | OpDelete a =>
      if bool_decide (a = Undef) then Err "DeleteActor called on undefined address"
      else r ← specLookup v a; _ ← specFind v r; Ret (RUnit, delete r v)
  | OpRegister a =>
      act ← specFind v init_Address;
      '(r, h) ← init_MapNew act a;
      Ret (RAddr r, <[init_Address := set_Head h act]> v)
  | _ => Ret (RUnit, v)
  end.

(** The stack of maps, the last snapshot first, above the saved map [base]. *)
Definition specOp (base : View) (o : Op) (V : list View) : outcome Res * list View :=
  match V, o with
  | v :: V, OpSnapshot => (Ret RUnit, v :: v :: V)
  | v :: _ :: V, OpClear => (Ret RUnit, v :: V)
  | [_], OpClear => (Panic, V)
  | _ :: V, OpRevert => (Ret RUnit, default base (head V) :: V)
  | v :: V, o =>
      match specTop o v with
      | Ret (r, v) => (Ret r, v :: V)
      | Err e => (Err e, v :: V)
      | Panic => (Panic, v :: V)
      end
  | [], _ => (Panic, [])
  end.

(** The operation on the tree. *)
Definition execOp (o : Op) : ST Res :=
  match o with
  | OpLookup a => st_bind (LookupID a) (fun r => st_ret (RAddr r))
  | OpGet a => st_bind (GetActor a) (fun act => st_ret (RActor act))
  | OpSet a act => st_bind (SetActor a act) (fun _ => st_ret RUnit)
  | OpDelete a => st_bind (DeleteActor a) (fun _ => st_ret RUnit)
  | OpRegister a => st_bind (RegisterNewAddress a) (fun r => st_ret (RAddr r))
  | OpSnapshot => st_bind Snapshot (fun _ => st_ret RUnit)
  | OpClear => st_bind ClearSnapshot (fun _ => st_ret RUnit)
  | OpRevert => st_bind Revert (fun _ => st_ret RUnit)
  end.
End spec.

Section refinement.
Context `{StateStoreOk}.

(** ** Abstraction *)

Definition savedMap (ver : Z) (h : hamt) : View :=
  omap (fun v => match decodeActor ver v with Ret a => Some a | _ => None end) (hamt_view h).

Definition saved_typed (ver : Z) (h : hamt) : Prop :=
  map_Forall (fun _ v => exists a, decodeActor ver v = Ret a) (hamt_view h).

Definition base (st : StateTree) : View := savedMap (version st) (root st).

Definition applyOp (op : option streeOp) (old : option Actor) : option Actor :=
  match op with
  | Some op => if Delete op then None else Some (Act op)
  | None => old
  end.

Definition applyLayer (l : stateSnapLayer) (v : View) : View := merge applyOp (actors l) v.

Fixpoint viewOf (b : View) (ls : list stateSnapLayer) : View :=
  match ls with
  | [] => b
  | l :: ls => applyLayer l (viewOf b ls)
  end.

Fixpoint viewsOf (b : View) (ls : list stateSnapLayer) : list View :=
  match ls with
  | [] => []
  | l :: ls => viewOf b (l :: ls) :: viewsOf b ls
  end.

Definition abs (st : StateTree) : list View := viewsOf (base st) (layers (snaps st)).

(** ** Invariant *)

(** The layers with an index above [last] have an empty cache. *)
Fixpoint empty_above (last : Z) (ls : list stateSnapLayer) : Prop :=
  match ls with
  | [] => True
  | l :: ls => (last < Z.of_nat (length ls) -> resolveCache l = ∅) /\ empty_above last ls
  end.

Definition cached (ls : list stateSnapLayer) (a r : Address) : Prop :=
  exists l, l ∈ ls /\ resolveCache l !! a = Some r.

Definition resolves (v : View) (a r : Address) : Prop :=
  isID a = false /\ exists act, v !! init_Address = Some act /\ init_Resolve act a = Ret (Some r).

(** What a layer has cached is what the init actor says in it and in every later one. *)
Fixpoint cache_ok (b : View) (ls : list stateSnapLayer) : Prop :=
  match ls with
  | [] => True
  | l :: ls' => (forall a r, cached ls a r -> resolves (viewOf b ls) a r) /\ cache_ok b ls'
  end.

Record tree_ok (st : StateTree) : Prop := {
  ok_layers : layers (snaps st) <> [];
  ok_last : -1 <= lastMaybeNonEmptyResolveCache (snaps st) < Z.of_nat (length (layers (snaps st)));
  ok_empty : empty_above (lastMaybeNonEmptyResolveCache (snaps st)) (layers (snaps st));
  ok_typed : saved_typed (version st) (root st);
  ok_cache : cache_ok (base st) (layers (snaps st));
}.

(** Writes to the init actor must keep the addresses it resolves, and it is not deleted; a
    registered address is new. *)
Definition op_ok (v : View) (o : Op) : Prop :=
  match o with
  | OpSet a act =>
      specLookup v a = Ret init_Address -> forall b r, resolves v b r -> init_Resolve act b = Ret (Some r)
  | OpDelete a => specLookup v a <> Ret init_Address
  | OpRegister a => forall r, ~ resolves v a r
  | _ => True
  end.

(** ** Lemmas on layers *)

Lemma applyLayer_lookup l v a : applyLayer l v !! a = applyOp (actors l !! a) (v !! a).
Proof. unfold applyLayer. rewrite lookup_merge. by destruct (actors l !! a), (v !! a). Qed.

Lemma viewOf_lookup b ls a : viewOf b ls !! a = applyOp (findOp ls a) (b !! a).
Proof.
  induction ls as [|l ls IH]; simpl; [done|]. rewrite applyLayer_lookup, IH.
  by destruct (actors l !! a).
Qed.

Lemma cached_nil a r : ~ cached [] a r.
Proof. intros (l & Hl%elem_of_nil & _). done. Qed.

Lemma cached_cons l ls a r :
  cached (l :: ls) a r <-> resolveCache l !! a = Some r \/ cached ls a r.
Proof.
  unfold cached. split.
  - intros (l' & [->|Hl]%elem_of_cons & Ha); eauto.
  - intros [Ha|(l' & Hl & Ha)]; [exists l|exists l']; split; try done; rewrite elem_of_cons; auto.
Qed.

Lemma empty_above_top last ls : Z.of_nat (length ls) - 1 <= last -> empty_above last ls.
Proof. induction ls as [|l ls IH]; simpl; [done|]. intros. split; [lia|apply IH; lia]. Qed.

(** The right answer of a cache lookup. *)
Definition found_ok (ls : list stateSnapLayer) (a : Address) (res : option Address) : Prop :=
  match res with Some r => cached ls a r | None => forall r, ~ cached ls a r end.

Lemma found_ok_cons l ls a res :
  resolveCache l !! a = None -> found_ok ls a res -> found_ok (l :: ls) a res.
Proof.
  intros Ha. destruct res as [r|]; simpl; [intros; apply cached_cons; by right|].
  intros Hn r [Hc|Hc]%cached_cons; [congruence|by eapply Hn].
Qed.

(** The loop finds what is cached, and what it learns about empty caches is true. *)
Lemma resolveLoop_spec ls a last0 last res last' :
  last <= last0 -> empty_above last ls -> resolveLoop ls a last0 last = (res, last') ->
  found_ok ls a res /\ empty_above last' ls /\ last' <= last /\
  (Z.of_nat (length ls) <= last -> last' = last) /\ (-1 <= last -> -1 <= last').
Proof.
  revert last. induction ls as [|l ls IH]; intros last Hle Hemp; simpl.
  { intros; simplify_eq. split; [intros r; apply cached_nil|]. split; [done|]. lia. }
  destruct Hemp as [Hl Hemp]. set (i := Z.of_nat (length ls)) in *.
  destruct (Z.ltb_spec last0 i).
  { intros Hr. apply IH in Hr as (Hres & He & ? & ? & ?); [|lia|done].
    assert (resolveCache l = ∅) as E by (apply Hl; lia).
    split; [apply found_ok_cons; [by rewrite E|done]|]. split; [done|lia]. }
  destruct (Nat.eqb_spec (size (resolveCache l)) 0) as [Hsz|Hsz].
  { apply map_size_empty_inv in Hsz as E. intros Hr.
    apply IH in Hr as (Hres & He & ? & ? & ?); [|destruct (Z.eqb_spec last i); lia|].
    - split; [apply found_ok_cons; [by rewrite E|done]|]. split; [done|].
      destruct (Z.eqb_spec last i); lia.
    - destruct (Z.eqb_spec last i); [apply empty_above_top; lia|done]. }
  destruct (resolveCache l !! a) as [r|] eqn:Ha.
  { intros; simplify_eq. split; [apply cached_cons; by left|]. split; [done|]. lia. }
  intros Hr. apply IH in Hr as (Hres & He & ? & ? & ?); [|lia|done].
  split; [by apply found_ok_cons|]. split; [|lia]. split; [|done]. intros Hlt. apply Hl. lia.
Qed.

(** ** Changes that only concern the caches *)

(** [st'] has the views of [st] and is well-formed if [st] is. *)
Record same_views (st st' : StateTree) : Prop := {
  sv_root : root st' = root st;
  sv_version : version st' = version st;
  sv_info : info st' = info st;
  sv_abs : abs st' = abs st;
  sv_ok : tree_ok st';
}.

Lemma same_views_refl st : tree_ok st -> same_views st st.
Proof. by constructor. Qed.

Lemma same_views_trans st1 st2 st3 : same_views st1 st2 -> same_views st2 st3 -> same_views st1 st3.
Proof. intros [????] [????]. constructor; congruence || done. Qed.

Lemma sv_base st st' : same_views st st' -> base st' = base st.
Proof. intros [Hr Hv _ _ _]. unfold base. by rewrite Hr, Hv. Qed.

(** The top of the stack. *)
Definition top (st : StateTree) : View := viewOf (base st) (layers (snaps st)).

Lemma abs_top st : layers (snaps st) <> [] -> exists V, abs st = top st :: V.
Proof.
  unfold abs, top. destruct (layers (snaps st)) as [|l ls]; [done|]. intros _. by eexists.
Qed.

Lemma same_views_top st st' : tree_ok st -> same_views st st' -> top st' = top st.
Proof.
  intros Hok Hs. destruct (abs_top st (ok_layers _ Hok)) as [V E].
  destruct (abs_top st' (ok_layers _ (sv_ok _ _ Hs))) as [V' E'].
  pose proof (sv_abs _ _ Hs) as Ha. rewrite E, E' in Ha. by simplify_eq.
Qed.

Lemma resolveAddress_ok st a :
  tree_ok st -> exists res ss, resolveAddress (snaps st) a = Some (res, ss) /\
    same_views st (with_snaps ss st) /\ layers ss = layers (snaps st) /\
    found_ok (layers (snaps st)) a res.
Proof.
  intros [Hne Hlast Hemp Hty Hc]. unfold resolveAddress.
  destruct (Z.leb_spec (Z.of_nat (length (layers (snaps st)))) (lastMaybeNonEmptyResolveCache (snaps st)));
    [lia|].
  destruct (resolveLoop _ _ _ _) as [res last'] eqn:Hr.
  apply resolveLoop_spec in Hr as (Hres & He & ? & ? & ?); [|lia|done].
  exists res. eexists. split; [done|]. split; [|done].
  constructor; try done. constructor; simpl; try done. lia.
Qed.

(** Reading the saved actors. *)
Lemma rootGet_ok st a : saved_typed (version st) (root st) -> rootGet st a = Ret (base st !! a).
Proof.
  intros Hty. unfold rootGet, base, savedMap. rewrite hamt_Get_ok, lookup_omap. simpl.
  destruct (hamt_view (root st) !! a) as [v|] eqn:Hv; simpl; [|done].
  destruct (Hty a v Hv) as [act ->]. done.
Qed.

(** ** Writes to the last layer *)

Definition put_op (id : Address) (op : streeOp) (v : View) : View :=
  if Delete op then delete id v else <[id := Act op]> v.

(** A write that keeps what the init actor resolves. *)
Definition write_ok (v : View) (id : Address) (op : streeOp) : Prop :=
  id = init_Address ->
  Delete op = false /\ forall b r, resolves v b r -> init_Resolve (Act op) b = Ret (Some r).

Lemma viewOf_write b l ls id op :
  viewOf b ({| actors := <[id := op]> (actors l); resolveCache := resolveCache l |} :: ls) =
  put_op id op (viewOf b (l :: ls)).
Proof.
  apply map_eq. intros a. unfold put_op. simpl. rewrite applyLayer_lookup. simpl.
  destruct (decide (a = id)) as [->|Hne].
  - rewrite lookup_insert_eq. simpl.
    by destruct (Delete op); rewrite ?lookup_delete_eq, ?lookup_insert_eq.
  - rewrite lookup_insert_ne by done.
    destruct (Delete op); rewrite ?lookup_delete_ne, ?lookup_insert_ne by done;
      by rewrite applyLayer_lookup.
Qed.

Lemma resolves_write v id op a r : write_ok v id op -> resolves v a r -> resolves (put_op id op v) a r.
Proof.
  intros Hw Hr. pose proof Hr as (Ha & act & Hact & Hres). split; [done|]. unfold put_op.
  destruct (decide (id = init_Address)) as [->|Hne].
  - destruct (Hw eq_refl) as [-> Hw']. exists (Act op). rewrite lookup_insert_eq. auto.
  - exists act. split; [|done]. by destruct (Delete op); rewrite ?lookup_delete_ne, ?lookup_insert_ne.
Qed.

Lemma writeActor_ok st id op :
  tree_ok st -> write_ok (top st) id op ->
  exists st', on_snaps (writeActor id op) st = (Ret tt, st') /\ tree_ok st' /\
    root st' = root st /\ version st' = version st /\ info st' = info st /\
    abs st' = match abs st with [] => [] | v :: V => put_op id op v :: V end.
Proof.
  intros [Hne Hlast Hemp Hty Hc] Hw. unfold on_snaps, writeActor, abs, top in *.
  destruct (layers (snaps st)) as [|l ls] eqn:Hls; [done|].
  eexists. split; [reflexivity|]. split; [|simpl].
  - constructor; simpl; try done. destruct Hc as [Hc1 Hc2]. split; [|done].
    change (applyLayer ?x (viewOf ?b ls)) with (viewOf b (x :: ls)).
    rewrite viewOf_write. intros a r Ha. apply resolves_write; [done|]. apply Hc1.
    apply cached_cons. by apply cached_cons in Ha.
  - split_and!; try done. f_equal. apply (viewOf_write (base st) l ls id op).
Qed.

(** Writing what is there already changes nothing. *)
Lemma writeActor_same st id act :
  tree_ok st -> top st !! id = Some act ->
  exists st', on_snaps (snaps_setActor id act) st = (Ret tt, st') /\ same_views st st'.
Proof.
  intros Hok Hact. destruct (writeActor_ok st id {| Act := act; Delete := false |} Hok)
    as (st' & He & Hok' & Hr & Hv & Hi & Ha).
  { intros ->. split; [done|]. intros b r (_ & act' & Hact' & Hres). simpl. by simplify_eq. }
  exists st'. split; [done|]. constructor; try done. rewrite Ha.
  destruct (abs_top st (ok_layers _ Hok)) as [V ->]. f_equal. unfold put_op. simpl.
  by apply insert_id.
Qed.

Lemma cacheResolve_ok st a r :
  tree_ok st -> resolves (top st) a r ->
  exists st', on_snaps (cacheResolveAddress a r) st = (Ret tt, st') /\ same_views st st'.
Proof.
  intros [Hne Hlast Hemp Hty Hc] Hres. unfold on_snaps, cacheResolveAddress, top in *.
  destruct (layers (snaps st)) as [|l ls] eqn:Hls; [done|].
  eexists. split; [reflexivity|]. constructor; try done.
  - unfold abs. simpl. by rewrite Hls.
  - destruct Hc as [Hc1 Hc2]. constructor; simpl; try done; [lia| |].
    + split; [lia|]. apply empty_above_top. lia.
    + split; [|done]. intros b x [Hx|Hx]%cached_cons; simpl in Hx.
      * destruct (decide (b = a)) as [->|Hn].
        -- rewrite lookup_insert_eq in Hx. simplify_eq. exact Hres.
        -- rewrite lookup_insert_ne in Hx by done. apply Hc1. apply cached_cons. by left.
      * apply Hc1. apply cached_cons. by right.
Qed.

(** ** Lookups *)

Lemma getActor_found st id :
  tree_ok st ->
  exists st', match snaps_getActor (snaps st) id with
      | Err e => (Err e, st)
      | Panic => (Panic, st)
      | Ret (Some act) => (Ret act, st)
      | Ret None =>
          match rootGet st id with
          | Err e => (Err e, st)
          | Panic => (Panic, st)
          | Ret None => (Err ErrActorNotFound, st)
          | Ret (Some act) =>
              st_bind (on_snaps (snaps_setActor id act)) (fun _ => st_ret act) st
          end
      end = (specFind (top st) id, st') /\ same_views st st'.
Proof.
  intros Hok. unfold snaps_getActor, specFind.
  assert (top st !! id = applyOp (findOp (layers (snaps st)) id) (base st !! id)) as Htop
    by apply viewOf_lookup.
  destruct (findOp (layers (snaps st)) id) as [op|]; simpl in Htop.
  - rewrite Htop. exists st. destruct (Delete op); split; done || by apply same_views_refl.
  - rewrite rootGet_ok by apply Hok. rewrite <- Htop. destruct (top st !! id) as [act|] eqn:Hact.
    + destruct (writeActor_same st id act Hok Hact) as (st' & He & Hs).
      exists st'. unfold st_bind. rewrite He. done.
    + exists st. split; [done|by apply same_views_refl].
Qed.

Lemma getActorWith_ok lk a id st st1 :
  a <> Undef -> lk a st = (Ret id, st1) -> tree_ok st -> same_views st st1 ->
  exists st', getActorWith lk a st = (specFind (top st) id, st') /\ same_views st st'.
Proof.
  intros Ha Hlk Hok Hs. unfold getActorWith. rewrite bool_decide_false by done.
  unfold st_bind at 1. rewrite Hlk.
  destruct (getActor_found st1 id (sv_ok _ _ Hs)) as (st' & -> & Hs').
  exists st'. rewrite (same_views_top st st1) by done. split; [done|]. by eapply same_views_trans.
Qed.

Lemma ID_not_Undef a : isID a = true -> a <> Undef.
Proof. intros Ha ->. by rewrite isID_Undef in Ha. Qed.

Lemma specLookup_resolves v a r : resolves v a r -> specLookup v a = Ret r.
Proof. intros (Ha & act & Hact & Hr). unfold specLookup. rewrite Ha, Hact. simpl. by rewrite Hr. Qed.

(** The result of a lookup is what the init actor of the last layer says, and one level of
    recursion is enough. *)
Lemma lookupID_ok n a st :
  tree_ok st ->
  exists st', lookupID (S n) a st = (specLookup (top st) a, st') /\ same_views st st'.
Proof.
  intros Hok. simpl lookupID. destruct (isID a) eqn:Ha.
  { exists st. unfold specLookup. rewrite Ha. split; [done|by apply same_views_refl]. }
  destruct (resolveAddress_ok st a Hok) as (res & ss & -> & Hs & Hls & Hres).
  set (st1 := with_snaps ss st) in *. destruct res as [r|].
  { exists st1. split; [|done]. f_equal. symmetry. apply specLookup_resolves.
    pose proof (ok_cache _ Hok) as Hc. unfold top.
    destruct (layers (snaps st)) as [|l ls]; [by apply cached_nil in Hres|].
    by apply Hc. }
  destruct (getActorWith_ok (lookupID n) init_Address init_Address st1 st1) as (st2 & Hg & Hs2);
    [apply ID_not_Undef, init_isID| |apply Hs|apply same_views_refl, Hs|].
  { destruct n; simpl; by rewrite init_isID. }
  unfold st_bind at 1. rewrite Hg, (same_views_top st st1) by done.
  assert (same_views st st2) as Hs02 by (by eapply same_views_trans).
  unfold specFind, specLookup. rewrite Ha. destruct (top st !! init_Address) as [act|] eqn:Hact;
    [|exists st2; done].
  unfold st_bind, st_lift. destruct (init_Resolve act a) as [[r|]|e|] eqn:Hr; simpl;
    [|exists st2; done..].
  destruct (cacheResolve_ok st2 a r) as (st3 & -> & Hs3); [apply Hs02| |].
  { rewrite (same_views_top st st2) by done. split; [done|]. by exists act. }
  exists st3. split; [done|]. by eapply same_views_trans.
Qed.

Lemma LookupID_ok a st :
  tree_ok st -> exists st', LookupID a st = (specLookup (top st) a, st') /\ same_views st st'.
Proof. apply lookupID_ok. Qed.

Lemma GetActor_ok a st :
  tree_ok st -> a <> Undef ->
  exists st', GetActor a st = ((r ← specLookup (top st) a; specFind (top st) r), st') /\
    same_views st st'.
Proof.
  intros Hok Ha. destruct (LookupID_ok a st Hok) as (st1 & Hl & Hs).
  destruct (specLookup (top st) a) as [r|e|] eqn:Hr; simpl.
  - by eapply getActorWith_ok.
  - exists st1. unfold GetActor, getActorWith, st_bind. rewrite bool_decide_false by done. by rewrite Hl.
  - exists st1. unfold GetActor, getActorWith, st_bind. rewrite bool_decide_false by done. by rewrite Hl.
Qed.

(** ** Snapshots *)

Lemma viewOf_new b ls : viewOf b (newStateSnapLayer :: ls) = viewOf b ls.
Proof. apply map_eq. intros a. simpl. rewrite applyLayer_lookup. simpl. by rewrite lookup_empty. Qed.

Lemma cached_new ls a r : cached (newStateSnapLayer :: ls) a r <-> cached ls a r.
Proof. rewrite cached_cons. simpl. rewrite lookup_empty. naive_solver. Qed.

Lemma cache_ok_top b ls a r : cache_ok b ls -> cached ls a r -> resolves (viewOf b ls) a r.
Proof. destruct ls as [|l ls]; [by intros _ ?%cached_nil|]. intros [Hc _]. apply Hc. Qed.

(** A new layer on layers that satisfy the invariant. *)
Lemma addLayer_ok st ls last :
  tree_ok st -> -1 <= last <= Z.of_nat (length ls) -> empty_above last ls -> cache_ok (base st) ls ->
  tree_ok (with_snaps (addLayer {| layers := ls; lastMaybeNonEmptyResolveCache := last |}) st).
Proof.
  intros Hok Hlast Hemp Hc. constructor; simpl; try done; [lia|apply Hok|]. split; [|done].
  change (applyLayer newStateSnapLayer (viewOf ?b ls)) with (viewOf b (newStateSnapLayer :: ls)).
  rewrite viewOf_new. intros a r Ha.
  apply cache_ok_top; [exact Hc|by apply (cached_new ls a r)].
Qed.

Lemma viewOf_merged b l1 l2 ls :
  viewOf b ({| actors := actors l1 ∪ actors l2; resolveCache := resolveCache l1 ∪ resolveCache l2 |} :: ls) =
  viewOf b (l1 :: l2 :: ls).
Proof.
  apply map_eq. intros a. simpl. rewrite !applyLayer_lookup. simpl. rewrite lookup_union.
  by destruct (actors l1 !! a), (actors l2 !! a).
Qed.

Lemma cached_merged l1 l2 ls a r :
  cached ({| actors := actors l1 ∪ actors l2; resolveCache := resolveCache l1 ∪ resolveCache l2 |} :: ls) a r ->
  cached (l1 :: l2 :: ls) a r.
Proof.
  rewrite !cached_cons. simpl. rewrite lookup_union_Some_raw. naive_solver.
Qed.

(** A well-formed tree with its layers exposed. *)
Lemma tree_ok_layers st l ls :
  tree_ok st -> layers (snaps st) = l :: ls ->
  abs st = top st :: viewsOf (base st) ls /\ cache_ok (base st) ls /\
  (lastMaybeNonEmptyResolveCache (snaps st) < Z.of_nat (length ls) -> resolveCache l = ∅) /\
  empty_above (lastMaybeNonEmptyResolveCache (snaps st)) ls /\
  -1 <= lastMaybeNonEmptyResolveCache (snaps st) <= Z.of_nat (length ls).
Proof.
  intros [Hne Hlast Hemp Hty Hc] Hls. unfold abs, top. rewrite Hls in *.
  destruct Hc as [_ Hc], Hemp as [Hl Hemp]. simpl in Hlast. split_and!; done || lia.
Qed.

Lemma Snapshot_ok st :
  tree_ok st -> exists st', Snapshot st = (Ret tt, st') /\ tree_ok st' /\ base st' = base st /\
    abs st' = top st :: abs st.
Proof.
  intros Hok. eexists. split; [reflexivity|]. destruct st as [r v i [ls last]].
  split; [apply (addLayer_ok _ ls last Hok); [|apply Hok..]; pose proof (ok_last _ Hok); simpl in *; lia|].
  split; [done|]. unfold abs, top. simpl. f_equal. apply viewOf_new.
Qed.

Lemma ClearSnapshot_ok st :
  tree_ok st ->
  exists st', ClearSnapshot st = ((match abs st with _ :: _ :: _ => Ret tt | _ => Panic end), st') /\
    tree_ok st' /\ base st' = base st /\
    abs st' = match abs st with v :: _ :: V => v :: V | V => V end.
Proof.
  intros Hok. unfold ClearSnapshot, on_snaps, mergeLastLayer.
  destruct (layers (snaps st)) as [|l1 [|l2 ls]] eqn:Hls.
  - by destruct (ok_layers _ Hok).
  - exists st. unfold abs. rewrite Hls. by split_and!.
  - destruct (tree_ok_layers st l1 (l2 :: ls) Hok Hls) as (Ha & [Hc2 Hc] & Hl1 & [Hl2 Hemp] & Hlast).
    pose proof (ok_cache _ Hok) as Hcache. rewrite Hls in Hcache. destruct Hcache as [Hc1 _].
    rewrite Ha. simpl. eexists. split; [reflexivity|]. simpl in Hl1, Hlast.
    set (last := lastMaybeNonEmptyResolveCache (snaps st)) in *.
    split; [|split; [done|]].
    + constructor; simpl; try done; [destruct (Z.eqb_spec last (Z.of_nat (S (length ls)))); lia| |apply Hok|].
      * destruct (Z.eqb_spec last (Z.of_nat (S (length ls)))) as [E|E].
        { split; [lia|]. apply empty_above_top. lia. }
        split; [|done]. intros Hlt. rewrite Hl1, Hl2 by lia. apply map_empty_union.
      * split; [|done].
        change (applyLayer ?x (viewOf ?b ls)) with (viewOf b (x :: ls)). rewrite viewOf_merged.
        intros a r Hca%cached_merged. by apply Hc1.
    + unfold abs, top. simpl. rewrite Hls. f_equal. apply (viewOf_merged (base st) l1 l2 ls).
Qed.

Lemma Revert_ok st :
  tree_ok st ->
  exists st', Revert st = (Ret tt, st') /\ tree_ok st' /\ base st' = base st /\
    abs st' = match abs st with [] => [] | _ :: V => default (base st) (head V) :: V end.
Proof.
  intros Hok. unfold Revert, on_snaps, dropLayer.
  destruct (layers (snaps st)) as [|l ls] eqn:Hls; [by destruct (ok_layers _ Hok)|]. simpl.
  destruct (tree_ok_layers st l ls Hok Hls) as (Ha & Hc & Hl & Hemp & Hlast).
  eexists. split; [reflexivity|]. set (last := lastMaybeNonEmptyResolveCache (snaps st)) in *.
  split; [|split; [done|]].
  - apply addLayer_ok; [done| | |done];
      destruct (Z.eqb_spec last (Z.of_nat (length ls))); try done; try lia. apply empty_above_top. lia.
  - rewrite Ha. unfold abs. simpl. f_equal.
    etrans; [apply (viewOf_new (base st) ls)|]. by destruct ls.
Qed.

(** ** Refinement *)

(** The result of an operation and the tree after it, against the specification. *)
Definition refines (o : Op) (st : StateTree) (r : outcome Res * StateTree) : Prop :=
  r.1 = (specOp (base st) o (abs st)).1 /\ abs r.2 = (specOp (base st) o (abs st)).2 /\
  tree_ok r.2 /\ base r.2 = base st.

(** For an operation that only reads or writes the top of the stack. *)
Lemma refines_top o st r st' :
  match o with OpSnapshot | OpClear | OpRevert => False | _ => True end ->
  tree_ok st -> tree_ok st' -> base st' = base st ->
  (exists v, specTop o (top st) = Ret (r, v) /\ abs st' = match abs st with [] => [] | _ :: V => v :: V end) ->
  refines o st (Ret r, st').
Proof.
  intros Ho Hok Hok' Hb (v & Hs & Ha). unfold refines. cbn [fst snd]. rewrite Ha.
  destruct (abs_top st (ok_layers _ Hok)) as [V ->].
  destruct o; try done; unfold specOp; rewrite Hs; destruct V; done.
Qed.

Lemma refines_fail o st (e : outcome Res) st' :
  match o with OpSnapshot | OpClear | OpRevert => False | _ => True end ->
  tree_ok st -> same_views st st' ->
  match e with Ret _ => False | Err x => specTop o (top st) = Err x | Panic => specTop o (top st) = Panic end ->
  refines o st (e, st').
Proof.
  intros Ho Hok Hs He. unfold refines. cbn [fst snd]. rewrite (sv_abs _ _ Hs), (sv_base _ _ Hs).
  destruct (abs_top st (ok_layers _ Hok)) as [V ->].
  destruct e; [done|..]; destruct o; try done; unfold specOp; rewrite He; destruct V;
    split_and!; try done; apply Hs.
Qed.

Lemma refines_read o st r st' :
  match o with OpSnapshot | OpClear | OpRevert => False | _ => True end ->
  tree_ok st -> same_views st st' -> specTop o (top st) = Ret (r, top st) -> refines o st (Ret r, st').
Proof.
  intros Ho Hok Hs Hr. apply refines_top; [done|done|apply Hs|by apply sv_base|].
  exists (top st). split; [done|]. rewrite (sv_abs _ _ Hs).
  by destruct (abs_top st (ok_layers _ Hok)) as [V ->].
Qed.

Lemma refines_write o st st1 id op r :
  match o with OpSnapshot | OpClear | OpRevert => False | _ => True end ->
  tree_ok st -> same_views st st1 -> write_ok (top st) id op ->
  specTop o (top st) = Ret (r, put_op id op (top st)) ->
  refines o st (st_bind (on_snaps (writeActor id op)) (fun _ => st_ret r) st1).
Proof.
  intros Ho Hok Hs Hw Hr. rewrite <- (same_views_top st st1) in Hw by done.
  destruct (writeActor_ok st1 id op (sv_ok _ _ Hs) Hw) as (st' & He & Hok' & Hroot & Hver & _ & Ha).
  unfold st_bind. rewrite He. apply refines_top; [done..| |].
  - rewrite <- (sv_base st st1) by done. unfold base. by rewrite Hroot, Hver.
  - exists (put_op id op (top st)). split; [done|]. rewrite Ha, (sv_abs _ _ Hs).
    by destruct (abs_top st (ok_layers _ Hok)) as [V ->].
Qed.

Lemma specLookup_ID v a r : specLookup v a = Ret r -> isID r = true.
Proof.
  unfold specLookup. destruct (isID a) eqn:Ha; [intros; by simplify_eq|].
  destruct (v !! init_Address) as [act|]; [|done].
  destruct (init_Resolve act a) as [[x|]|e|] eqn:Hr; simpl; [|done..].
  intros; simplify_eq. by eapply init_Resolve_ID.
Qed.

Lemma specLookup_self v r : isID r = true -> specLookup v r = Ret r.
Proof. intros Hr. unfold specLookup. by rewrite Hr. Qed.

Lemma SetActor_refines a act st :
  tree_ok st -> op_ok (top st) (OpSet a act) -> refines (OpSet a act) st (execOp (OpSet a act) st).
Proof.
  intros Hok Hop. destruct (LookupID_ok a st Hok) as (st1 & Hl & Hs).
  unfold execOp, SetActor. unfold st_bind at 2. unfold st_bind at 1. rewrite Hl.
  destruct (specLookup (top st) a) as [r|e|] eqn:Hr.
  - apply (refines_write (OpSet a act) st st1 r {| Act := act; Delete := false |} RUnit); [done..| |].
    + intros ->. split; [done|]. simpl. apply Hop. exact Hr.
    + simpl. by rewrite Hr.
  - apply refines_fail; [done..|]. simpl. by rewrite Hr.
  - apply refines_fail; [done..|]. simpl. by rewrite Hr.
Qed.

Lemma DeleteActor_refines a st :
  tree_ok st -> op_ok (top st) (OpDelete a) -> refines (OpDelete a) st (execOp (OpDelete a) st).
Proof.
  intros Hok Hop. unfold execOp, DeleteActor. case_bool_decide as Ha.
  { apply refines_fail; [done|done|by apply same_views_refl|]. simpl. by rewrite bool_decide_true. }
  destruct (LookupID_ok a st Hok) as (st1 & Hl & Hs).
  unfold st_bind at 2. unfold st_bind at 1. rewrite Hl.
  destruct (specLookup (top st) a) as [r|e|] eqn:Hr;
    [|apply refines_fail; [done..|]; simpl; by rewrite bool_decide_false, Hr by done..].
  pose proof (specLookup_ID _ _ _ Hr) as Hid.
  destruct (GetActor_ok r st1 (sv_ok _ _ Hs) (ID_not_Undef r Hid)) as (st2 & Hg & Hs2).
  rewrite (same_views_top st st1), specLookup_self in Hg by done. simpl in Hg.
  assert (same_views st st2) as Hs02 by (by eapply same_views_trans).
  unfold st_bind at 1. rewrite Hg. unfold specFind in *.
  destruct (top st !! r) as [act|] eqn:Hact.
  - apply (refines_write (OpDelete a) st st2 r {| Act := zeroActor; Delete := true |} RUnit); [done..| |].
    + intros ->. done.
    + simpl. rewrite bool_decide_false, Hr by done. simpl. unfold specFind. by rewrite Hact.
  - apply refines_fail; [done..|]. simpl. rewrite bool_decide_false, Hr by done. simpl.
    unfold specFind. by rewrite Hact.
Qed.

Lemma LookupID_refines a st : tree_ok st -> refines (OpLookup a) st (execOp (OpLookup a) st).
Proof.
  intros Hok. destruct (LookupID_ok a st Hok) as (st1 & Hl & Hs). unfold execOp, st_bind. rewrite Hl.
  destruct (specLookup (top st) a) as [r|e|] eqn:Hr.
  - apply refines_read; [done..|]. simpl. by rewrite Hr.
  - apply refines_fail; [done..|]. simpl. by rewrite Hr.
  - apply refines_fail; [done..|]. simpl. by rewrite Hr.
Qed.

Lemma GetActor_refines a st : tree_ok st -> refines (OpGet a) st (execOp (OpGet a) st).
Proof.
  intros Hok. unfold execOp, st_bind at 1. destruct (decide (a = Undef)) as [Ha|Ha].
  { unfold GetActor, getActorWith. rewrite bool_decide_true by done.
    apply refines_fail; [done|done|by apply same_views_refl|]. simpl. by rewrite bool_decide_true. }
  destruct (GetActor_ok a st Hok Ha) as (st1 & -> & Hs).
  destruct (specLookup (top st) a) as [r|e|] eqn:Hr; simpl;
    [|apply refines_fail; [done..|]; simpl; by rewrite bool_decide_false, Hr by done..].
  destruct (specFind (top st) r) as [act|e|] eqn:Hf.
  - apply refines_read; [done..|]. simpl. rewrite bool_decide_false, Hr by done. simpl. by rewrite Hf.
  - apply refines_fail; [done..|]. simpl. rewrite bool_decide_false, Hr by done. simpl. by rewrite Hf.
  - apply refines_fail; [done..|]. simpl. rewrite bool_decide_false, Hr by done. simpl. by rewrite Hf.
Qed.

Lemma st_bind_ret {A B C} (m : ST A) (b : B) (g : B -> C) st :
  st_bind (st_bind m (fun _ => st_ret b)) (fun b => st_ret (g b)) st = st_bind m (fun _ => st_ret (g b)) st.
Proof. unfold st_bind. by destruct (m st) as [[] ?]. Qed.

Lemma Register_refines a st :
  tree_ok st -> op_ok (top st) (OpRegister a) -> refines (OpRegister a) st (execOp (OpRegister a) st).
Proof.
  intros Hok Hop. unfold execOp, RegisterNewAddress. unfold st_bind at 2. unfold st_bind at 1.
  destruct (GetActor_ok init_Address st Hok (ID_not_Undef _ init_isID)) as (st1 & -> & Hs).
  rewrite specLookup_self by apply init_isID. simpl. unfold specFind.
  destruct (top st !! init_Address) as [act|] eqn:Hact;
    [|apply refines_fail; [done..|]; simpl; unfold specFind; by rewrite Hact].
  unfold st_bind at 1, st_lift. destruct (init_MapNew act a) as [[r h]|e|] eqn:Hm.
  - unfold SetActor. unfold st_bind at 2. destruct (LookupID_ok init_Address st1 (sv_ok _ _ Hs)) as (st2 & Hl & Hs2).
    rewrite specLookup_self in Hl by apply init_isID. unfold st_bind at 1. rewrite Hl.
    assert (same_views st st2) as Hs02 by (by eapply same_views_trans).
    change (refines (OpRegister a) st
      (st_bind (st_bind (on_snaps (snaps_setActor init_Address (set_Head h act))) (fun _ => st_ret r))
        (fun r => st_ret (RAddr r)) st2)).
    rewrite st_bind_ret. apply refines_write; [done..| |].
    + intros _. split; [done|]. intros b x Hb. simpl.
      eapply init_MapNew_keeps; [exact Hm|intros ->; by eapply Hop|].
      destruct Hb as (_ & act' & Hact' & Hres). by simplify_eq.
    + simpl. unfold specFind. rewrite Hact. simpl. rewrite Hm. done.
  - apply refines_fail; [done..|]. simpl. unfold specFind. rewrite Hact. simpl. by rewrite Hm.
  - apply refines_fail; [done..|]. simpl. unfold specFind. rewrite Hact. simpl. by rewrite Hm.
Qed.

Lemma execOp_refines o st : tree_ok st -> op_ok (top st) o -> refines o st (execOp o st).
Proof.
  intros Hok Hop. destruct o as [a|a|a act|a|a| | |].
  - by apply LookupID_refines.
  - by apply GetActor_refines.
  - by apply SetActor_refines.
  - by apply DeleteActor_refines.
  - by apply Register_refines.
  - destruct (Snapshot_ok st Hok) as (st' & He & Hok' & Hb & Ha).
    unfold execOp, st_bind. rewrite He. unfold refines. cbn [fst snd st_ret]. rewrite Ha.
    destruct (abs_top st (ok_layers _ Hok)) as [V ->]. by destruct V.
  - destruct (ClearSnapshot_ok st Hok) as (st' & He & Hok' & Hb & Ha).
    unfold execOp, st_bind. rewrite He. unfold refines.
    destruct (abs_top st (ok_layers _ Hok)) as [V EV]. rewrite EV in *. by destruct V.
  - destruct (Revert_ok st Hok) as (st' & He & Hok' & Hb & Ha).
    unfold execOp, st_bind. rewrite He. unfold refines. cbn [fst snd st_ret]. rewrite Ha.
    destruct (abs_top st (ok_layers _ Hok)) as [V ->]. by destruct V.
Qed.


(** ** Sequences of operations *)

Fixpoint execOps (os : list Op) (st : StateTree) : StateTree :=
  match os with
  | [] => st
  | o :: os => execOps os (execOp o st).2
  end.

(** The operations act within the snapshots above depth [n]: the depth of the stack
    after them, or [None] when they reach below. *)
Fixpoint depth (n : nat) (os : list Op) : option nat :=
  match os with
  | [] => Some n
  | OpSnapshot :: os => depth (S n) os
  | OpClear :: os => match n with S (S n) => depth (S n) os | _ => None end
  | _ :: os => match n with S _ => depth n os | O => None end
  end.

(** Every operation is admissible in the state it meets. *)
Fixpoint ops_ok (os : list Op) (st : StateTree) : Prop :=
  match os with
  | [] => True
  | o :: os => op_ok (top st) o /\ ops_ok os (execOp o st).2
  end.

Lemma specOp_suffix b o n V W :
  length V = n -> (0 < n)%nat -> (o = OpClear -> 1 < n)%nat ->
  exists V', (specOp b o (V ++ W)).2 = V' ++ W /\
    length V' = match o with OpSnapshot => S n | OpClear => pred n | _ => n end.
Proof.
  intros Hn Hpos Hc. destruct V as [|v V]; simpl in Hn; [lia|]. subst n.
  assert (forall o, match o with OpSnapshot | OpClear | OpRevert => False | _ => True end ->
    exists V', (specOp b o ((v :: V) ++ W)).2 = V' ++ W /\ length V' = S (length V)) as Hgen.
  { intros o' Ho'. simpl app. unfold specOp.
    destruct (specTop o' v) as [[r v']|e|], o', (V ++ W) eqn:HVW; try done; rewrite <- HVW;
      first [by exists (v' :: V)|by exists (v :: V)]. }
  destruct o; try by apply Hgen.
  - exists (v :: v :: V). simpl. by destruct (V ++ W).
  - destruct V as [|w V]; [specialize (Hc eq_refl); simpl in Hc; lia|]. by exists (v :: V).
  - exists (default b (head (V ++ W)) :: V). simpl. by destruct (V ++ W).
Qed.

Lemma execOps_suffix os st V W n n' :
  tree_ok st -> ops_ok os st -> abs st = V ++ W -> length V = n -> depth n os = Some n' ->
  (0 < n)%nat ->
  exists V', abs (execOps os st) = V' ++ W /\ length V' = n' /\ tree_ok (execOps os st) /\
    base (execOps os st) = base st.
Proof.
  revert st V n. induction os as [|o os IH]; intros st V n Hok Hops Ha Hn Hd Hpos; simpl in *.
  { exists V. by simplify_eq. }
  destruct Hops as [Hop Hops]. pose proof (execOp_refines o st Hok Hop) as (_ & Ha' & Hok' & Hb').
  assert ((o = OpClear -> 1 < n)%nat) as Hc by (intros ->; destruct n as [|[|n]]; done || lia).
  rewrite Ha in Ha'. destruct (specOp_suffix (base st) o n V W Hn Hpos Hc) as (V1 & HV1 & Hl1).
  rewrite HV1 in Ha'.
  destruct (IH (execOp o st).2 V1 (length V1) Hok' Hops Ha' eq_refl) as (V' & ? & ? & ? & Hb).
  - rewrite Hl1. destruct n as [|n]; [lia|]. destruct o; try done. by destruct n.
  - rewrite Hl1. destruct o; try done; [lia|]. specialize (Hc eq_refl). lia.
  - exists V'. split_and!; try done. by rewrite Hb.
Qed.

(** A transaction that is rolled back leaves no trace: after a snapshot, any admissible
    operations with nested snapshots that are all closed, a revert and the removal of the
    snapshot, every actor, in every snapshot of the stack, is what it was before. *)
Theorem revert_undoes os st :
  tree_ok st -> ops_ok os (execOp OpSnapshot st).2 -> depth 1 os = Some 1%nat ->
  abs (execOps (OpSnapshot :: os ++ [OpRevert; OpClear]) st) = abs st.
Proof.
  intros Hok Hops Hd. cbn [execOps].
  destruct (execOp_refines OpSnapshot st Hok I) as (_ & Ha & Hok1 & Hb1).
  destruct (abs_top st (ok_layers _ Hok)) as [V EV].
  assert (abs (execOp OpSnapshot st).2 = [top st] ++ abs st) as Ha1
    by (rewrite Ha, EV; by destruct V).
  destruct (execOps_suffix os _ [top st] (abs st) 1 1 Hok1 Hops Ha1 eq_refl Hd) as (V' & Ha2 & Hl & Hok2 & Hb2);
    [lia|].
  assert (forall os1 os2 st, execOps (os1 ++ os2) st = execOps os2 (execOps os1 st)) as Happ
    by (induction os1; simpl; auto).
  rewrite Happ. set (st2 := execOps os (execOp OpSnapshot st).2) in *. cbn [execOps].
  destruct (execOp_refines OpRevert st2 Hok2 I) as (_ & Ha3 & Hok3 & _).
  destruct (execOp_refines OpClear (execOp OpRevert st2).2 Hok3 I) as (_ & Ha4 & _).
  rewrite Ha4, Ha3, Ha2. destruct V' as [|v' [|]]; simpl in Hl; [lia| |lia].
  rewrite EV. simpl. done.
Qed.

(** ** Flushing and loading *)

(** What is left of an actor in the encoding of a version. *)
Definition normActor (ver : Z) (a : Actor) : Actor :=
  if ver <=? 4 then AsActorV5 (AsActorV4 a) else a.

Lemma decode_encode ver a : decodeActor ver (encodeActor ver a) = Ret (normActor ver a).
Proof. unfold encodeActor, normActor. destruct (ver <=? 4) eqn:E; simpl; by rewrite E. Qed.

Lemma decode_norm ver v a : decodeActor ver v = Ret a -> normActor ver a = a.
Proof.
  unfold normActor. destruct v as [x|x]; simpl; destruct (ver <=? 4); intros; simplify_eq; [|done].
  by destruct x.
Qed.

Lemma flushOps_view ver ops h h' :
  NoDup ops.*1 -> flushOps ver ops h = (Ret tt, h') ->
  forall a, hamt_view h' !! a =
    match (list_to_map ops : gmap Address streeOp) !! a with
    | Some op => if Delete op then None else Some (encodeActor ver (Act op))
    | None => hamt_view h !! a
    end.
Proof.
  revert h. induction ops as [|[addr op] ops IH]; intros h Hnd; simpl.
  { intros; simplify_eq. by rewrite lookup_empty. }
  apply NoDup_cons in Hnd as [Hni Hnd].
  destruct (if Delete op then _ else _) as [h1|e|] eqn:Hw; [|done..].
  intros Hf a. rewrite (IH h1 Hnd Hf a). destruct (decide (a = addr)) as [->|Hne].
  - rewrite lookup_insert_eq, not_elem_of_list_to_map_1 by done.
    destruct (Delete op); [apply hamt_Delete_ok in Hw as ->|apply hamt_Put_ok in Hw as ->].
    + apply lookup_delete_eq.
    + apply lookup_insert_eq.
  - rewrite lookup_insert_ne by done. destruct (list_to_map ops !! a); [done|].
    destruct (Delete op); [apply hamt_Delete_ok in Hw as ->|apply hamt_Put_ok in Hw as ->].
    + by apply lookup_delete_ne.
    + by apply lookup_insert_ne.
Qed.

(** After a flush the saved map is the map on top. *)
Lemma flush_saved st l h' :
  saved_typed (version st) (root st) ->
  flushOps (version st) (map_to_list (actors l)) (root st) = (Ret tt, h') ->
  saved_typed (version st) h' /\
  savedMap (version st) h' = normActor (version st) <$> applyLayer l (base st).
Proof.
  intros Hty Hf. pose proof (flushOps_view _ _ _ _ (NoDup_fst_map_to_list _) Hf) as Hv.
  rewrite list_to_map_to_list in Hv. split.
  - intros a v Ha. rewrite Hv in Ha. destruct (actors l !! a) as [op|]; [|by eapply Hty].
    destruct (Delete op); [done|]. simplify_eq. eexists. apply decode_encode.
  - apply map_eq. intros a. unfold savedMap, base. rewrite lookup_omap, Hv, lookup_fmap, applyLayer_lookup.
    unfold savedMap. rewrite lookup_omap. destruct (actors l !! a) as [op|]; simpl.
    + destruct (Delete op); simpl; [done|]. by rewrite decode_encode.
    + destruct (hamt_view (root st) !! a) as [v|] eqn:Hr; simpl; [|done].
      destruct (Hty a v Hr) as [act E]. rewrite E. simpl. by rewrite (decode_norm _ _ _ E).
Qed.

Lemma newTree_ok h ver i :
  saved_typed ver h ->
  tree_ok {| root := h; version := ver; info := i; snaps := newStateSnaps |} /\
  abs {| root := h; version := ver; info := i; snaps := newStateSnaps |} = [savedMap ver h].
Proof.
  intros Hty. split.
  - constructor; simpl; try done. split; [|done].
    intros a r [Hc|Hc]%cached_cons; [done|by apply cached_nil in Hc].
  - unfold abs. simpl. f_equal. apply (viewOf_new (savedMap ver h) []).
Qed.

(** What is flushed is what is loaded: when [Flush] of a well-formed tree succeeds, the
    tree loaded from the CID it returns is well-formed, has the same version, and holds
    the actors that were on top of the stack (without their delegated addresses in the
    versions that cannot store them). *)
Theorem flush_load_roundtrip st c st' :
  tree_ok st -> supportedVersion (version st) = true -> Flush st = (Ret c, st') ->
  exists st2, LoadStateTree c = Ret st2 /\ tree_ok st2 /\ version st2 = version st /\
    abs st2 = [normActor (version st) <$> top st].
Proof.
  intros Hok Hver. unfold Flush, top.
  destruct (layers (snaps st)) as [|l [|l2 ls]]; [done| |done].
  destruct (flushOps _ _ _) as [r h'] eqn:Hf. unfold st_bind, st_lift.
  destruct r as [[]|e|]; [|done..]. destruct (hamt_Root h') as [rc|e|] eqn:Hroot; [|done..].
  destruct (flush_saved st l h' (ok_typed _ Hok) Hf) as [Hty Hs].
  destruct (hamt_Load_ok (version st) h' rc Hroot) as (h2 & Hload & Hview).
  assert (saved_typed (version st) h2) as Hty2 by (unfold saved_typed; by rewrite Hview).
  destruct (Z.eqb_spec (version st) 0) as [Hv0|Hv0]; intros Hfl.
  - injection Hfl as <- <-. destruct (hamt_Root_raw h' rc Hroot) as [e He].
    unfold LoadStateTree. rewrite He.
    cbn [mbind outcome_bind RootVersion RootActors RootInfo]. rewrite <- Hv0, Hver, Hload. simpl.
    eexists. split; [reflexivity|]. destruct (newTree_ok h2 (version st) EmptyString Hty2) as [? ->].
    split_and!; try done. f_equal. rewrite <- Hs. unfold savedMap. by rewrite Hview.
  - injection Hfl as Hput <-. apply store_PutRoot_ok in Hput.
    unfold LoadStateTree. rewrite Hput.
    cbn [mbind outcome_bind RootVersion RootActors RootInfo]. rewrite Hver, Hload. simpl.
    eexists. split; [reflexivity|]. destruct (newTree_ok h2 (version st) (info st) Hty2) as [? ->].
    split_and!; try done. f_equal. rewrite <- Hs. unfold savedMap. by rewrite Hview.
Qed.

(** ** Iteration *)

Definition foldO {S} (f : S -> Address -> Actor -> outcome S) (s : S) (l : list (Address * Actor))
    : outcome S :=
  foldl (fun s x => s ← s; f s x.1 x.2) (Ret s) l.

Lemma foldO_cons {S} f (s : S) x l :
  foldO f s (x :: l) = (s ← f s x.1 x.2; foldO f s l).
Proof.
  unfold foldO. simpl. destruct (f s x.1 x.2) as [s'|e|]; simpl; [done|..]; by induction l.
Qed.

Lemma foldO_app {S} f (s : S) l1 l2 : foldO f s (l1 ++ l2) = (s ← foldO f s l1; foldO f s l2).
Proof.
  revert s. induction l1 as [|x l1 IH]; intros s; [done|]. simpl app. rewrite !foldO_cons.
  destruct (f s x.1 x.2); simpl; [apply IH|done..].
Qed.

(** The actors the loops visit, in order, and the addresses seen. *)
Fixpoint visitOps (ops : list (Address * streeOp)) (seen : gset Address)
    : list (Address * Actor) * gset Address :=
  match ops with
  | [] => ([], seen)
  | (a, op) :: ops =>
      if bool_decide (a ∈ seen) then visitOps ops seen
      else
        let '(l, seen) := visitOps ops ({[a]} ∪ seen) in
        (if Delete op then l else (a, Act op) :: l, seen)
  end.

Fixpoint visitLayers (ls : list stateSnapLayer) (seen : gset Address)
    : list (Address * Actor) * gset Address :=
  match ls with
  | [] => ([], seen)
  | l :: ls =>
      let '(v1, seen) := visitOps (map_to_list (actors l)) seen in
      let '(v2, seen) := visitLayers ls seen in (v1 ++ v2, seen)
  end.

Lemma forEachOps_visit {S} (f : S -> Address -> Actor -> outcome S) ops seen s :
  forEachOps f ops seen s =
    (s ← foldO f s (visitOps ops seen).1; Ret ((visitOps ops seen).2, s)).
Proof.
  revert seen s. induction ops as [|[a op] ops IH]; intros seen s; simpl; [done|].
  destruct (bool_decide (a ∈ seen)); [apply IH|]. specialize (IH ({[a]} ∪ seen)).
  destruct (visitOps ops ({[a]} ∪ seen)) as [l seen']. simpl in *.
  destruct (Delete op); [apply IH|]. rewrite foldO_cons. simpl.
  destruct (f s a (Act op)); simpl; [apply IH|done..].
Qed.

Lemma forEachLayers_visit {S} (f : S -> Address -> Actor -> outcome S) ls seen s :
  forEachLayers f ls seen s =
    (s ← foldO f s (visitLayers ls seen).1; Ret ((visitLayers ls seen).2, s)).
Proof.
  revert seen s. induction ls as [|l ls IH]; intros seen s; simpl; [done|].
  rewrite forEachOps_visit. destruct (visitOps _ seen) as [v1 seen1]. simpl.
  specialize (IH seen1). destruct (visitLayers ls seen1) as [v2 seen2]. simpl in *.
  rewrite foldO_app. destruct (foldO f s v1); simpl; [apply IH|done..].
Qed.

(** [visited l seen0 seen P]: the list has one entry for each address outside [seen0] that [P]
    maps to an actor. *)
Record visited (l : list (Address * Actor)) (seen0 : gset Address) (P : Address -> option Actor)
    : Prop := {
  v_nodup : NoDup l.*1;
  v_in a act : (a, act) ∈ l <-> a ∉ seen0 /\ P a = Some act;
}.

Definition opActor (op : option streeOp) : option Actor := applyOp op None.

Lemma visitOps_ok ops seen :
  NoDup ops.*1 ->
  visited (visitOps ops seen).1 seen (fun a => opActor ((list_to_map ops : gmap Address streeOp) !! a)) /\
  forall a, a ∈ (visitOps ops seen).2 <-> a ∈ seen \/ a ∈ ops.*1.
Proof.
  revert seen. induction ops as [|[b op] ops IH]; intros seen Hnd; simpl.
  { split; [split; [constructor|]|set_solver]. intros a act. rewrite lookup_empty. simpl.
    rewrite elem_of_nil. naive_solver. }
  apply NoDup_cons in Hnd as [Hni Hnd]. case_bool_decide as Hb.
  - destruct (IH seen Hnd) as [[Hn Hin] Hs]. split; [split; [done|]|set_solver].
    intros a act. rewrite Hin. destruct (decide (a = b)) as [->|Hne]; [tauto|].
    by rewrite lookup_insert_ne.
  - destruct (IH ({[b]} ∪ seen) Hnd) as [[Hn Hin] Hs].
    destruct (visitOps ops ({[b]} ∪ seen)) as [l seen']. simpl in *.
    split; [|intros a; rewrite Hs; set_solver].
    assert (b ∉ l.*1) as Hbl.
    { intros ([b' act] & -> & Hl)%list_elem_of_fmap. apply Hin in Hl. set_solver. }
    split; [destruct (Delete op); [done|by constructor]|].
    intros a act. destruct (decide (a = b)) as [->|Hne].
    + rewrite lookup_insert_eq. simpl. destruct (Delete op); simpl.
      * rewrite Hin. set_solver.
      * rewrite elem_of_cons, Hin. set_solver.
    + rewrite lookup_insert_ne by done.
      assert ((a, act) ∈ l <->
        a ∉ seen /\ opActor ((list_to_map ops : gmap Address streeOp) !! a) = Some act) as Hl
        by (rewrite Hin; set_solver).
      destruct (Delete op); [done|]. rewrite elem_of_cons, Hl. naive_solver.
Qed.

Lemma findOp_cons_None l ls a : actors l !! a = None -> findOp (l :: ls) a = findOp ls a.
Proof. intros Ha. simpl. by rewrite Ha. Qed.

Lemma visitLayers_ok ls seen :
  visited (visitLayers ls seen).1 seen (fun a => opActor (findOp ls a)) /\
  forall a, a ∈ (visitLayers ls seen).2 <-> a ∈ seen \/ is_Some (findOp ls a).
Proof.
  revert seen. induction ls as [|l ls IH]; intros seen; simpl.
  { split; [split; [constructor|]|]; intros; simpl; rewrite ?elem_of_nil; [naive_solver|].
    split; [auto|]. intros [?|[? ?]]; done. }
  destruct (visitOps_ok (map_to_list (actors l)) seen (NoDup_fst_map_to_list _)) as [[Hn1 Hin1] Hs1].
  rewrite list_to_map_to_list in Hin1.
  assert (forall a, a ∈ (map_to_list (actors l)).*1 <-> is_Some (actors l !! a)) as Hkeys.
  { intros a. rewrite list_elem_of_fmap. split.
    - intros ([a' op] & -> & Hl%elem_of_map_to_list). by exists op.
    - intros [op Hop]. exists (a, op). by rewrite elem_of_map_to_list. }
  destruct (visitOps _ seen) as [v1 seen1]. simpl in *.
  destruct (IH seen1) as [[Hn2 Hin2] Hs2]. destruct (visitLayers ls seen1) as [v2 seen2]. simpl in *.
  split; [split|].
  - rewrite fmap_app. apply NoDup_app. split_and!; [done| |done].
    intros a ([a1 x1] & -> & H1)%list_elem_of_fmap ([a2 x2] & E & H2)%list_elem_of_fmap. simpl in E. subst a2.
    apply Hin1 in H1 as [_ Hop]. apply Hin2 in H2 as [Hns _]. apply Hns, Hs1. right. apply Hkeys.
    by destruct (actors l !! a1); [eexists|].
  - intros a act. rewrite elem_of_app, Hin1, Hin2, Hs1, Hkeys.
    destruct (actors l !! a) as [op|] eqn:Ha; simpl.
    + split; [intros [?|[Hc _]]; [done|]; exfalso; apply Hc; right; by eexists|by left].
    + split; [intros [[_ ?]|[Hc ?]]; [done|]; split; [tauto|done]|].
      intros [Hc ?]. right. split; [|done]. intros [?|[? ?]]; done.
  - intros a. rewrite Hs2, Hs1, Hkeys. destruct (actors l !! a) as [op|]; [|naive_solver].
    split; intros; [|left]; right; by eexists.
Qed.

(** The saved actors that are visited after the layers. *)
Definition visitRoot (ver : Z) (vs : list (Address * StoredActor)) (seen : gset Address)
    : list (Address * Actor) :=
  omap (fun '(a, v) => if bool_decide (a ∈ seen) then None
                       else match decodeActor ver v with Ret act => Some (a, act) | _ => None end) vs.

Lemma forEachRoot_visit {S} (f : S -> Address -> Actor -> outcome S) ver vs seen s :
  Forall (fun x => exists act, decodeActor ver x.2 = Ret act) vs ->
  forEachRoot f ver vs seen s = foldO f s (visitRoot ver vs seen).
Proof.
  intros Hty. revert s. induction Hty as [|[a v] vs [act Hv] _ IH]; intros s; simpl in *; [done|].
  rewrite Hv. simpl. destruct (bool_decide (a ∈ seen)); [apply IH|]. rewrite foldO_cons. simpl.
  destruct (f s a act); simpl; [apply IH|done..].
Qed.

Lemma visitRoot_ok st seen :
  saved_typed (version st) (root st) ->
  visited (visitRoot (version st) (hamt_ForEach (root st)) seen) seen (fun a => base st !! a).
Proof.
  intros Hty. pose proof (hamt_ForEach_ok (root st)) as Hp. split.
  - assert (NoDup (hamt_ForEach (root st)).*1) as Hnd by (rewrite Hp; apply NoDup_fst_map_to_list).
    clear Hp. unfold visitRoot. induction (hamt_ForEach (root st)) as [|[a v] vs IH]; simpl; [constructor|].
    apply NoDup_cons in Hnd as [Hni Hnd]. destruct (bool_decide (a ∈ seen)); [by apply IH|].
    destruct (decodeActor (version st) v) as [act|e|]; [|by apply IH..].
    rewrite fmap_cons. constructor; [|by apply IH]. simpl.
    intros ([a' x] & -> & ([a2 v2] & Hin & Hx)%list_elem_of_omap)%list_elem_of_fmap. simpl in *.
    destruct (bool_decide (a2 ∈ seen)); [done|]. destruct (decodeActor (version st) v2); simplify_eq.
    apply Hni. apply list_elem_of_fmap. by exists (a', v2).
  - intros a act. unfold visitRoot. rewrite list_elem_of_omap. unfold base, savedMap. rewrite lookup_omap.
    split.
    + intros ([a' v] & Hin & Hx). rewrite Hp, elem_of_map_to_list in Hin.
      case_bool_decide; [done|]. destruct (decodeActor (version st) v) eqn:Hd; simplify_eq.
      split; [done|]. rewrite Hin. simpl. by rewrite Hd.
    + intros [Hns Ha]. destruct (hamt_view (root st) !! a) as [v|] eqn:Hv; [|done]. simpl in Ha.
      exists (a, v). split; [by rewrite Hp, elem_of_map_to_list|].
      rewrite bool_decide_false by done. by destruct (decodeActor (version st) v); simplify_eq.
Qed.

(** [ForEach] visits every actor of the map on top exactly once, whatever the layers
    shadow: there is an enumeration of that map, the same for every callback, in whose
    order the callback is called until it fails. *)
Theorem foreach_visits_all st :
  tree_ok st ->
  exists l, l ≡ₚ map_to_list (top st) /\
    forall S (f : S -> Address -> Actor -> outcome S) s, ForEach f st s = foldO f s l.
Proof.
  intros Hok. destruct (visitLayers_ok (layers (snaps st)) ∅) as [[Hn1 Hin1] Hs1].
  set (L1 := (visitLayers (layers (snaps st)) ∅).1) in *.
  set (seen := (visitLayers (layers (snaps st)) ∅).2) in *.
  destruct (visitRoot_ok st seen (ok_typed _ Hok)) as [Hn2 Hin2].
  set (L2 := visitRoot (version st) (hamt_ForEach (root st)) seen) in *.
  exists (L1 ++ L2). split.
  - apply NoDup_Permutation; [|apply NoDup_map_to_list|].
    + apply (NoDup_fmap_1 fst). rewrite fmap_app. apply NoDup_app. split_and!; [done| |done].
      intros a ([a1 x1] & -> & H1)%list_elem_of_fmap ([a2 x2] & E & H2)%list_elem_of_fmap. simpl in E. subst a2.
      apply Hin1 in H1 as [_ Hop]. apply Hin2 in H2 as [Hns _]. apply Hns, Hs1. right.
      by destruct (findOp (layers (snaps st)) a1); [eexists|].
    + intros [a act]. rewrite elem_of_app, elem_of_map_to_list, Hin1, Hin2, Hs1. unfold top.
      rewrite viewOf_lookup. destruct (findOp (layers (snaps st)) a) as [op|]; simpl.
      * split; [intros [[_ ?]|[Hc _]]; [done|]; exfalso; apply Hc; right; by eexists|].
        intros ?. left. split; [apply not_elem_of_empty|done].
      * split; [intros [[_ ?]|[_ ?]]; done|]. intros ?. right. split; [|done].
        intros [?%not_elem_of_empty|[? ?]]; done.
  - intros S f s. unfold ForEach. rewrite forEachLayers_visit. fold L1 seen. rewrite foldO_app.
    destruct (foldO f s L1) as [s1|e|]; simpl; [|done..]. apply forEachRoot_visit.
    rewrite hamt_ForEach_ok. apply Forall_forall. intros [a v] Hv%elem_of_map_to_list.
    by apply (ok_typed _ Hok a).
Qed.
End refinement.

(** ** A concrete store

    The HAMT is a map, of which one version can be stored; the init actor has a state
    without and one with an address for [alice]. *)

#[global] Instance StateRoot_eq_dec : EqDecision StateRoot.
Proof. solve_decision. Defined.

Definition demoID (a : Address) : bool :=
  match a with
  | String c _ => Nat.eqb (Ascii.nat_of_ascii c) 48
  | EmptyString => false
  end.

Definition demoInit (h : Cid) : Actor :=
  {| Code := "init"; Head := h; Nonce := 0; Balance := 0; DelegatedAddress := None |}.

Definition demoAccount (n : Z) : Actor :=
  {| Code := "account"; Head := "empty"; Nonce := n; Balance := 10; DelegatedAddress := None |}.

Definition demoActors : gmap Address StoredActor := {[ "01" := SV5 (demoInit "h0") ]}.

Definition demoSaved : gmap Address StoredActor :=
  <[ "0100" := SV5 (demoAccount 3) ]> demoActors.

Definition demoRoot : StateRoot := {| RootVersion := 5; RootActors := "actors"; RootInfo := "info" |}.

#[export] Instance demoStore : StateStore := {|
  isID := demoID;
  hamt := gmap Address StoredActor;
  hamt_New := fun _ => Ret ∅;
  hamt_Load := fun _ c => if bool_decide (c = "actors") then Ret demoSaved else Err "not found";
  hamt_Get := fun h a => Ret (h !! a);
  hamt_Put := fun h a v => Ret (<[a := v]> h);
  hamt_Delete := fun h a => if bool_decide (is_Some (h !! a)) then Ret (delete a h) else Err "no such key";
  hamt_ForEach := fun h => map_to_list h;
  hamt_Root := fun h => if bool_decide (h = demoSaved) then Ret "actors" else Err "not stored";
  store_PutInfo := Ret "info";
  store_GetRoot := fun c => if bool_decide (c = "root") then Ret demoRoot else Err "not a root";
  store_PutRoot := fun r => if bool_decide (r = demoRoot) then Ret "root" else Err "not stored";
  init_Address := "01";
  init_Resolve := fun act a =>
    Ret (if bool_decide (Head act = "h1" /\ a = "alice") then Some "0100" else None);
  init_MapNew := fun act a =>
    if bool_decide (Head act = "h0" /\ a = "alice") then Ret ("0100", "h1") else Err "exists";
|}.

#[export] Instance demoStoreOk : StateStoreOk.
Proof.
  refine {| hamt_view := fun h => h |}; simpl; try done.
  - intros; by simplify_eq.
  - intros h a h'. case_bool_decide; intros; by simplify_eq.
  - intros; by simplify_eq.
  - intros _ h c. case_bool_decide; intros; simplify_eq. by exists demoSaved.
  - intros h c. case_bool_decide; intros; simplify_eq. by eexists.
  - intros r c. do 2 case_bool_decide; intros; by simplify_eq.
  - intros act a r. case_bool_decide; intros; by simplify_eq.
  - intros act a r h. case_bool_decide as E; intros; simplify_eq. by destruct E as [_ ->].
  - intros act a r h b x. case_bool_decide as E; intros; simplify_eq. destruct E as [E _].
    case_bool_decide as E2; [|done]. destruct E2 as [E2 _]. congruence.
Defined.

Definition demoTree : StateTree :=
  {| root := (demoActors : @hamt demoStore); version := 5; info := "info"; snaps := newStateSnaps |}.

Lemma demoTree_ok : tree_ok demoTree.
Proof.
  apply (newTree_ok (demoActors : @hamt demoStore) 5 "info"). intros a v Hv.
  change (demoActors !! a = Some v) in Hv. unfold demoActors in Hv.
  apply lookup_singleton_Some in Hv as [<- <-]. by eexists.
Qed.


Definition demoOps : list Op :=
  [OpSet "0100" (demoAccount 1); OpGet "0100"; OpSnapshot; OpDelete "0100"; OpClear].

Lemma revert_undoes_witness :
  length (abs (execOps (OpSnapshot :: demoOps) demoTree)) = 2%nat /\
  abs (execOps (OpSnapshot :: demoOps ++ [OpRevert; OpClear]) demoTree) = abs demoTree.
Proof.
  split; [by vm_compute|]. apply (revert_undoes demoOps demoTree demoTree_ok); [|reflexivity].
  cbn [demoOps ops_ok]. split_and!; try exact I; intros He; vm_compute in He; discriminate He.
Defined.

Lemma flush_load_roundtrip_witness :
  exists st c st' st2, tree_ok st /\ Flush st = (Ret c, st') /\ LoadStateTree c = Ret st2 /\
    abs st2 = [normActor 5 <$> top st].
Proof.
  pose (st := (execOp (OpSet "0100" (demoAccount 3)) demoTree).2).
  assert (tree_ok st) as Hok.
  { apply (execOp_refines (OpSet "0100" (demoAccount 3)) demoTree demoTree_ok).
    intros He. by vm_compute in He. }
  assert ((Flush st).1 = Ret "root") as E by (vm_compute; reflexivity).
  destruct (Flush st) as [r st'] eqn:Hf. simpl in E. subst r.
  destruct (flush_load_roundtrip st "root" st' Hok eq_refl Hf) as (st2 & Hl & _ & _ & Ha).
  exists st, "root", st', st2. split; [exact Hok|]. split; [exact Hf|]. split; [exact Hl|exact Ha].
Defined.

Lemma foreach_visits_all_witness :
  ForEach (fun n _ _ => Ret (n + 1)) demoTree 0 = Ret 1 /\
  exists l, l ≡ₚ map_to_list (top demoTree) /\
    ForEach (fun n _ _ => Ret (n + 1)) demoTree 0 = foldO (fun n _ _ => Ret (n + 1)) 0 l.
Proof.
  split; [by vm_compute|]. destruct (foreach_visits_all demoTree demoTree_ok) as (l & Hp & Hl).
  exists l. split; [exact Hp|]. apply Hl.
Defined.
