(* ===== verification/TipSet.v ===== *)
(** * Tipsets: chain/types/tipset.go, tipset_key.go and blockheader.go

    A tipset is a set of blocks with the same height and parents, kept in the order of their
    tickets; its key is the concatenation of the blocks' CIDs.  The hash of tickets, the CID
    of a block and the CID decoder are the operations of [Hashing]. *)

From stdpp Require Import sorting.
From S2P Require Import Prelude.

(** A CID is its bytes. *)
Definition Cid := bytes.
Definition Address := string.
Definition opaque := string.

(** ** bytes.Compare *)

Fixpoint bytes_Compare (a b : bytes) : comparison :=
  match a, b with
  | [], [] => Eq
  | [], _ => Lt
  | _, [] => Gt
  | x :: a, y :: b => match x ?= y with Eq => bytes_Compare a b | c => c end
  end.

Definition bytes_less (a b : bytes) : bool :=
  match bytes_Compare a b with Lt => true | _ => false end.

(** ** Blocks

    The ticket of a block is a pointer in the source; the operations here dereference it, so
    the blocks of the model have one. *)

Record Ticket := { VRFProof : bytes }.

Record BeaconEntry := {
  Round : Z;
  Data : bytes;
}.

Record BlockHeader := {
  Miner : Address;
  BlockTicket : Ticket; (* [Ticket] in the source *)
  ElectionProof : option opaque;
  BeaconEntries : list BeaconEntry;
  WinPoStProof : list opaque;
  BlockParents : list Cid; (* [Parents] *)
  BlockParentWeight : Z; (* [ParentWeight] *)
  BlockHeight : Z; (* [Height] *)
  ParentStateRoot : Cid;
  ParentReceipts : Cid; (* [ParentMessageReceipts] *)
  Messages : Cid;
  BLSAggregate : option opaque;
  Timestamp : Z;
  BlockSig : option opaque;
  ForkSignaling : Z;
  ParentBaseFee : Z;
  validated : bool;
}.

(** [blake2b.Sum256], [BlockHeader.Cid] (the hash of the encoded header) and
    [cid.CidFromBytes], which returns the number of bytes read. *)
Class Hashing := {
  blake2b_Sum256 : bytes -> bytes;
  Block_Cid : BlockHeader -> Cid;
  CidFromBytes : bytes -> outcome (nat * Cid);
}.

Definition Ticket_Equals (t ot : Ticket) : bool := bool_decide (VRFProof t = VRFProof ot).

Definition LastTicket (blk : BlockHeader) : Ticket := BlockTicket blk.

Definition CidArrsEqual (a b : list Cid) : bool :=
  if negb (Nat.eqb (length a) (length b)) then false
  else let s : gset Cid := list_to_set a in forallb (fun c => bool_decide (c ∈ s)) b.

Definition CidArrsSubset (a b : list Cid) : bool :=
  let s : gset Cid := list_to_set b in forallb (fun c => bool_decide (c ∈ s)) a.

Definition CidArrsContains (a : list Cid) (b : Cid) : bool :=
  existsb (fun elem => bool_decide (elem = b)) a.

(** ** Tipset keys *)

Definition TipSetKey := bytes.
Definition EmptyTSK : TipSetKey := [].

Definition encodeKey (cids : list Cid) : bytes := concat cids.

Definition NewTipSetKey (cids : list Cid) : TipSetKey := encodeKey cids.

Section keys.
Context `{Hashing}.

(** The loop of [decodeKey]; it reads at least one byte per round or does not end, and the
    rounds are bounded by the length of the input. *)
Fixpoint decodeKey_loop (n : nat) (encoded : bytes) : outcome (list Cid) :=
  match encoded with
  | [] => Ret []
  | _ =>
      match n with
      | O => Panic
      | S n =>
          '(nr, c) ← CidFromBytes encoded;
          cids ← decodeKey_loop n (drop nr encoded);
          Ret (c :: cids)
      end
  end.

Definition decodeKey (encoded : bytes) : outcome (list Cid) :=
  decodeKey_loop (length encoded) encoded.

Definition TipSetKeyFromBytes (encoded : bytes) : outcome TipSetKey :=
  _ ← decodeKey encoded; Ret encoded.

(** An invalid key panics. *)
Definition TipSetKey_Cids (k : TipSetKey) : outcome (list Cid) :=
  match decodeKey k with
  | Ret cids => Ret cids
  | _ => Panic
  end.

Definition TipSetKey_IsEmpty (k : TipSetKey) : bool := Nat.eqb (length k) 0.

(** ** Tipsets *)

Record TipSet := {
  cids : list Cid;
  blks : list BlockHeader;
  height : Z;
}.

Definition Ticket_Less (t o : Ticket) : bool :=
  bytes_less (blake2b_Sum256 (VRFProof t)) (blake2b_Sum256 (VRFProof o)).

Definition tipsetLess (bi bj : BlockHeader) : bool :=
  let ti := LastTicket bi in
  let tj := LastTicket bj in
  if Ticket_Equals ti tj then bytes_less (Block_Cid bi) (Block_Cid bj) else Ticket_Less ti tj.

(** [sort.Slice] with a comparison function, as an insertion sort. *)
Fixpoint sortInsert {A} (less : A -> A -> bool) (x : A) (l : list A) : list A :=
  match l with
  | [] => [x]
  | y :: l => if less y x then y :: sortInsert less x l else x :: y :: l
  end.

Definition sortSlice {A} (less : A -> A -> bool) (l : list A) : list A :=
  foldr (sortInsert less) [] l.

(** The check of the parents of a block against those of the first. *)
Definition sameParents (p0 p : list Cid) : outcome unit :=
  if negb (Nat.eqb (length p0) (length p)) then Err "cannot create tipset with mismatching number of parents"
  else if forallb (fun '(c, c0) => bool_decide (c = c0)) (zip p p0) then Ret tt
  else Err "cannot create tipset with mismatching parents".

Fixpoint checkBlocks (b0 : BlockHeader) (l : list BlockHeader) : outcome (list Cid) :=
  match l with
  | [] => Ret []
  | b :: l =>
      if negb (BlockHeight b =? BlockHeight b0) then Err "cannot create tipset with mismatching heights"
      else
        _ ← sameParents (BlockParents b0) (BlockParents b);
        cids ← checkBlocks b0 l;
        Ret (Block_Cid b :: cids)
  end.

Definition NewTipSet (blks : list BlockHeader) : outcome TipSet :=
  match sortSlice tipsetLess blks with
  | [] => Err "NewTipSet called with zero length array of blocks"
  | b0 :: rest =>
      cids ← checkBlocks b0 rest;
      Ret {| cids := Block_Cid b0 :: cids; blks := b0 :: rest; height := BlockHeight b0 |}
  end.

(** The methods on a pointer to a tipset take an [option], [None] for nil. *)
Definition Key (ts : option TipSet) : TipSetKey :=
  match ts with
  | None => EmptyTSK
  | Some ts => NewTipSetKey (cids ts)
  end.

(** [ts.blks[0]], which panics on a tipset with no block. *)
Definition firstBlock (ts : TipSet) : outcome BlockHeader :=
  match blks ts with
  | [] => Panic
  | b :: _ => Ret b
  end.

Definition Parents (ts : TipSet) : outcome TipSetKey :=
  b ← firstBlock ts; Ret (NewTipSetKey (BlockParents b)).

Definition ParentWeight (ts : TipSet) : outcome Z := b ← firstBlock ts; Ret (BlockParentWeight b).
Definition ParentState (ts : TipSet) : outcome Cid := b ← firstBlock ts; Ret (ParentStateRoot b).
Definition ParentMessageReceipts (ts : TipSet) : outcome Cid := b ← firstBlock ts; Ret (ParentReceipts b).

Definition Equals (ts ots : option TipSet) : bool :=
  match ts, ots with
  | None, None => true
  | None, _ | _, None => false
  | Some ts, Some ots =>
      if negb (height ts =? height ots) then false
      else if negb (Nat.eqb (length (cids ts)) (length (cids ots))) then false
      else forallb (fun '(c, oc) => bool_decide (c = oc)) (zip (cids ts) (cids ots))
  end.

Definition MinTicketBlock (ts : TipSet) : outcome BlockHeader :=
  b0 ← firstBlock ts;
  Ret (foldl (fun min b => if Ticket_Less (LastTicket b) (LastTicket min) then b else min) b0 (tail (blks ts))).

Definition MinTicket (ts : TipSet) : outcome Ticket := b ← MinTicketBlock ts; Ret (BlockTicket b).

Definition MinTimestamp (ts : option TipSet) : Z :=
  match ts with
  | None => 0
  | Some ts =>
      match blks ts with
      | [] => 0
      | b0 :: rest =>
          foldl (fun minTs bh => if Timestamp bh <? minTs then Timestamp bh else minTs) (Timestamp b0) rest
      end
  end.

Definition Contains (ts : TipSet) (oc : Cid) : bool := existsb (fun c => bool_decide (c = oc)) (cids ts).

Definition IsChildOf (ts parent : TipSet) : outcome bool :=
  k ← Parents ts;
  ps ← TipSetKey_Cids k;
  Ret (CidArrsEqual ps (cids parent) && (height parent <? height ts)).
End keys.

(** ** What is relied on

    CIDs are self-describing: the decoder finds the end of a CID in front of other bytes.
    [valid_cid] are the CIDs the package builds, those of blocks among them. *)
Class HashingOk `{Hashing} := {
  valid_cid : Cid -> Prop;
  valid_cid_nonempty c : valid_cid c -> c <> [];
  CidFromBytes_app c rest : valid_cid c -> CidFromBytes (c ++ rest) = Ret (length c, c);
  Block_Cid_valid b : valid_cid (Block_Cid b);
}.

(** The order by digest and then CID, which [tipsetLess] is where tickets do not collide. *)
Definition digest `{Hashing} (b : BlockHeader) : bytes := blake2b_Sum256 (VRFProof (BlockTicket b)).

Definition keyLess `{Hashing} (b1 b2 : BlockHeader) : bool :=
  match bytes_Compare (digest b1) (digest b2) with
  | Lt => true
  | Gt => false
  | Eq => bytes_less (Block_Cid b1) (Block_Cid b2)
  end.

(** Different tickets of a list of blocks have different digests. *)
Definition collision_free `{Hashing} (l : list BlockHeader) : Prop :=
  forall b1 b2, b1 ∈ l -> b2 ∈ l -> digest b1 = digest b2 -> VRFProof (BlockTicket b1) = VRFProof (BlockTicket b2).

(** ** Byte strings *)

Lemma bytes_Compare_refl a : bytes_Compare a a = Eq.
Proof. induction a; simpl; [done|]. by rewrite Z.compare_refl. Qed.

Lemma bytes_Compare_eq a b : bytes_Compare a b = Eq -> a = b.
Proof.
  revert b. induction a as [|x a IH]; intros [|y b]; simpl; try done.
  destruct (Z.compare_spec x y); try done. intros ?%IH. by subst.
Qed.

Lemma bytes_Compare_antisym a b : bytes_Compare b a = CompOpp (bytes_Compare a b).
Proof.
  revert b. induction a as [|x a IH]; intros [|y b]; simpl; try done.
  rewrite (Z.compare_antisym x y). destruct (x ?= y); simpl; auto.
Qed.

Lemma bytes_Compare_trans a b c :
  bytes_Compare a b = Lt -> bytes_Compare b c = Lt -> bytes_Compare a c = Lt.
Proof.
  revert b c. induction a as [|x a IH]; intros [|y b] [|z c]; simpl; try done.
  destruct (Z.compare_spec x y), (Z.compare_spec y z), (Z.compare_spec x z); try done; try lia; eauto.
Qed.

(** ** Sorting *)

Section sorting.
Context {A : Type} (less : A -> A -> bool).

Lemma sortInsert_perm x l : sortInsert less x l ≡ₚ x :: l.
Proof.
  induction l as [|y l IH]; simpl; [done|]. destruct (less y x); [|done].
  rewrite IH. apply Permutation_swap.
Qed.

Lemma sortSlice_perm l : sortSlice less l ≡ₚ l.
Proof. induction l as [|x l IH]; simpl; [done|]. rewrite sortInsert_perm. by f_equiv. Qed.

Lemma sortInsert_ext less' x l :
  (forall y, y ∈ l -> less y x = less' y x) -> sortInsert less x l = sortInsert less' x l.
Proof.
  induction l as [|y l IH]; simpl; intros Heq; [done|].
  rewrite <- (Heq y) by left. destruct (less y x); [|done].
  f_equal. apply IH. intros z Hz. apply Heq. by right.
Qed.

Lemma sortSlice_ext less' l :
  (forall x y, x ∈ l -> y ∈ l -> less x y = less' x y) -> sortSlice less l = sortSlice less' l.
Proof.
  induction l as [|x l IH]; simpl; intros Heq; [done|].
  unfold sortSlice in *. simpl. rewrite <- IH by (intros; apply Heq; by right).
  apply sortInsert_ext. intros y Hy. apply Heq; [|left].
  right. change (y ∈ sortSlice less l) in Hy. by rewrite sortSlice_perm in Hy.
Qed.

(** A strict total preorder: [le x y] is "not [less y x]". *)
Context (less_asym : forall x y, less x y = true -> less y x = false).
Context (le_trans : forall x y z, less y x = false -> less z y = false -> less z x = false).

Lemma sortSlice_sorted l : StronglySorted (fun x y => less y x = false) (sortSlice less l).
Proof using less_asym le_trans.
  induction l as [|x l IH]; simpl; [constructor|].
  unfold sortSlice in *. simpl. generalize dependent (foldr (sortInsert less) [] l).
  intros s Hs. induction Hs as [|y s Hs IHs Hy]; simpl; [repeat constructor|].
  destruct (less y x) eqn:E.
  - constructor; [done|]. rewrite sortInsert_perm. constructor; auto.
  - constructor; [by constructor|]. constructor; [done|].
    eapply Forall_impl; [exact Hy|]. simpl. eauto.
Qed.
End sorting.

Section tipsets.
Context `{HashingOk}.

Lemma tipsetLess_keyLess l b1 b2 :
  collision_free l -> b1 ∈ l -> b2 ∈ l -> tipsetLess b1 b2 = keyLess b1 b2.
Proof.
  intros Hcf H1 H2. unfold tipsetLess, keyLess, Ticket_Equals, Ticket_Less, LastTicket, digest, bytes_less.
  case_bool_decide as E.
  - by rewrite E, bytes_Compare_refl.
  - destruct (bytes_Compare _ _) eqn:C; try done.
    apply bytes_Compare_eq in C. by destruct E; apply Hcf.
Qed.

Lemma keyLess_asym b1 b2 : keyLess b1 b2 = true -> keyLess b2 b1 = false.
Proof.
  unfold keyLess, bytes_less.
  rewrite (bytes_Compare_antisym (digest b1)), (bytes_Compare_antisym (Block_Cid b1)).
  by destruct (bytes_Compare (digest b1) _), (bytes_Compare (Block_Cid b1) _).
Qed.

Lemma keyLess_trans b1 b2 b3 : keyLess b1 b2 = true -> keyLess b2 b3 = true -> keyLess b1 b3 = true.
Proof.
  unfold keyLess, bytes_less.
  destruct (bytes_Compare (digest b1) (digest b2)) eqn:E12;
    destruct (bytes_Compare (digest b2) (digest b3)) eqn:E23; intros C12 C23; try done.
  - apply bytes_Compare_eq in E12, E23. rewrite E12, E23, bytes_Compare_refl.
    destruct (bytes_Compare (Block_Cid b1) (Block_Cid b2)) eqn:D12; try done.
    destruct (bytes_Compare (Block_Cid b2) (Block_Cid b3)) eqn:D23; try done.
    by rewrite (bytes_Compare_trans _ _ _ D12 D23).
  - apply bytes_Compare_eq in E12. by rewrite E12, E23.
  - apply bytes_Compare_eq in E23. by rewrite <- E23, E12.
  - by rewrite (bytes_Compare_trans _ _ _ E12 E23).
Qed.

(** Blocks neither of which is below the other have the same CID. *)
Lemma keyLess_tie b1 b2 : keyLess b1 b2 = false -> keyLess b2 b1 = false -> digest b1 = digest b2 /\ Block_Cid b1 = Block_Cid b2.
Proof.
  unfold keyLess, bytes_less.
  rewrite (bytes_Compare_antisym (digest b1)), (bytes_Compare_antisym (Block_Cid b1)).
  destruct (bytes_Compare (digest b1) (digest b2)) eqn:E, (bytes_Compare (Block_Cid b1) _) eqn:D; simpl; try done.
  split; by apply bytes_Compare_eq.
Qed.

Lemma keyLess_le_trans b1 b2 b3 : keyLess b2 b1 = false -> keyLess b3 b2 = false -> keyLess b3 b1 = false.
Proof.
  intros H21 H32. destruct (keyLess b3 b1) eqn:H31; [|done].
  destruct (keyLess b1 b2) eqn:H12.
  - by rewrite (keyLess_trans _ _ _ H31 H12) in H32.
  - destruct (keyLess_tie _ _ H12 H21) as [Hd Hc].
    unfold keyLess in H31, H32. rewrite Hd, Hc in H31. congruence.
Qed.

Lemma collision_free_perm l1 l2 : l1 ≡ₚ l2 -> collision_free l1 -> collision_free l2.
Proof. intros Hp Hcf b1 b2. rewrite <- Hp. apply Hcf. Qed.

Lemma sort_tipsetLess l : collision_free l -> sortSlice tipsetLess l = sortSlice keyLess l.
Proof. intros Hcf. apply sortSlice_ext. intros. by eapply tipsetLess_keyLess. Qed.

Lemma sort_sorted l : StronglySorted (fun x y => keyLess y x = false) (sortSlice keyLess l).
Proof. apply sortSlice_sorted; [apply keyLess_asym|apply keyLess_le_trans]. Qed.

Lemma NoDup_cid_inj (l : list BlockHeader) b1 b2 :
  NoDup (Block_Cid <$> l) -> b1 ∈ l -> b2 ∈ l -> Block_Cid b1 = Block_Cid b2 -> b1 = b2.
Proof.
  intros Hnd [i Hi]%list_elem_of_lookup [j Hj]%list_elem_of_lookup E.
  assert (i = j) as ->; [|congruence].
  eapply (NoDup_lookup (Block_Cid <$> l)); [done| |]; rewrite list_lookup_fmap.
  - by rewrite Hi.
  - rewrite Hj. simpl. by rewrite E.
Qed.

(** The sorted order of a set of blocks does not depend on the order they came in. *)
Lemma sort_canonical l1 l2 :
  l1 ≡ₚ l2 -> NoDup (Block_Cid <$> l1) -> collision_free l1 -> sortSlice tipsetLess l1 = sortSlice tipsetLess l2.
Proof.
  intros Hp Hnd Hcf.
  rewrite !sort_tipsetLess by eauto using collision_free_perm.
  eapply StronglySorted_unique_strong; [|apply sort_sorted|apply sort_sorted|].
  - intros b1 b2. rewrite !sortSlice_perm, <- Hp. intros H1 H2 H21 H12.
    apply (NoDup_cid_inj l1); [done..|]. by apply keyLess_tie.
  - by rewrite !sortSlice_perm.
Qed.

(** ** Tipsets that were built *)

Lemma sameParents_ok p0 p : sameParents p0 p = Ret tt <-> p = p0.
Proof.
  unfold sameParents. destruct (Nat.eqb_spec (length p0) (length p)) as [El|El]; simpl;
    [|split; [done|congruence]].
  transitivity (forallb (fun '(c, c0) => bool_decide (c = c0)) (zip p p0) = true); [by destruct (forallb _ _)|].
  revert p0 El. induction p as [|c p IH]; intros [|c0 p0] El; simpl in *; try lia; [done|].
  rewrite andb_true_iff, bool_decide_eq_true, IH by lia. naive_solver.
Qed.

(** The blocks pass the checks exactly when they agree with the first one. *)
Lemma checkBlocks_ok b0 l cs :
  checkBlocks b0 l = Ret cs <->
  cs = Block_Cid <$> l /\ Forall (fun b => BlockHeight b = BlockHeight b0 /\ BlockParents b = BlockParents b0) l.
Proof.
  revert cs. induction l as [|b l IH]; intros cs; simpl.
  - split; [intros [= <-]; done|]. by intros [-> _].
  - rewrite Forall_cons. destruct (Z.eqb_spec (BlockHeight b) (BlockHeight b0)); simpl; [|naive_solver].
    destruct (sameParents _ _) as [[]| |] eqn:Ep; simpl;
      [apply sameParents_ok in Ep|
       assert (BlockParents b <> BlockParents b0) by (intros E%sameParents_ok; congruence); naive_solver..].
    destruct (checkBlocks b0 l) as [cs'| |] eqn:Ec; simpl.
    + destruct (IH cs') as [[-> ?] _]; [done|]. naive_solver.
    + split; [done|]. intros (_ & _ & Hl). by pose proof (proj2 (IH _) (conj eq_refl Hl)).
    + split; [done|]. intros (_ & _ & Hl). by pose proof (proj2 (IH _) (conj eq_refl Hl)).
Qed.

Definition agree (b b' : BlockHeader) : Prop := BlockHeight b = BlockHeight b' /\ BlockParents b = BlockParents b'.

Lemma NewTipSet_inv l ts :
  NewTipSet l = Ret ts <->
  exists b0 rest, sortSlice tipsetLess l = b0 :: rest /\ Forall (fun b => agree b b0) rest /\
    ts = {| cids := Block_Cid <$> b0 :: rest; blks := b0 :: rest; height := BlockHeight b0 |}.
Proof.
  unfold NewTipSet. destruct (sortSlice tipsetLess l) as [|b0 rest]; [naive_solver|].
  destruct (checkBlocks b0 rest) as [cs| |] eqn:E; simpl.
  - apply checkBlocks_ok in E as [-> Hf]. naive_solver.
  - split; [done|]. intros (? & ? & [= <- <-] & Hf & _).
    by rewrite (proj2 (checkBlocks_ok b0 rest _) (conj eq_refl Hf)) in E.
  - split; [done|]. intros (? & ? & [= <- <-] & Hf & _).
    by rewrite (proj2 (checkBlocks_ok b0 rest _) (conj eq_refl Hf)) in E.
Qed.

(** ** Keys *)

Lemma decodeKey_loop_encode n cs :
  Forall valid_cid cs -> (length (encodeKey cs) <= n)%nat -> decodeKey_loop n (encodeKey cs) = Ret cs.
Proof.
  intros Hv. revert n. induction Hv as [|c cs Hc Hv IH]; intros n Hn; [by destruct n|].
  unfold encodeKey in *. simpl in *. pose proof (valid_cid_nonempty c Hc) as Hne.
  rewrite length_app in Hn. pose proof (CidFromBytes_app c (concat cs) Hc) as Hd.
  destruct c as [|x c]; [done|]. simpl in Hn. destruct n as [|n]; [lia|].
  simpl in Hd |- *. rewrite Hd. simpl. rewrite drop_app_length, IH by lia. done.
Qed.

Lemma decodeKey_encodeKey cs : Forall valid_cid cs -> decodeKey (encodeKey cs) = Ret cs.
Proof. intros. by apply decodeKey_loop_encode. Qed.

Lemma key_cids cs : Forall valid_cid cs -> TipSetKey_Cids (NewTipSetKey cs) = Ret cs.
Proof. intros Hv. unfold TipSetKey_Cids, NewTipSetKey. by rewrite decodeKey_encodeKey. Qed.

Lemma built_cids_valid l ts : NewTipSet l = Ret ts -> Forall valid_cid (cids ts).
Proof.
  intros (b0 & rest & _ & _ & ->)%NewTipSet_inv. cbn [cids].
  apply Forall_fmap, Forall_true. intros b. apply Block_Cid_valid.
Qed.

Lemma zip_equal (c1 c2 : list Cid) :
  length c1 = length c2 -> forallb (fun '(c, oc) => bool_decide (c = oc)) (zip c1 c2) = true <-> c1 = c2.
Proof.
  revert c2. induction c1 as [|c c1 IH]; intros [|c' c2]; simpl; intros El; try lia; [done|].
  rewrite andb_true_iff, bool_decide_eq_true, IH by lia. naive_solver.
Qed.

Lemma Equals_iff ts1 ts2 :
  Equals (Some ts1) (Some ts2) = true <-> height ts1 = height ts2 /\ cids ts1 = cids ts2.
Proof.
  unfold Equals. destruct (Z.eqb_spec (height ts1) (height ts2)); simpl; [|naive_solver].
  destruct (Nat.eqb_spec (length (cids ts1)) (length (cids ts2))); simpl; [|naive_solver congruence].
  rewrite zip_equal by done. naive_solver.
Qed.

(** ** Sets of CIDs *)

Lemma forallb_subset (a b : list Cid) :
  forallb (fun c => bool_decide (c ∈ (list_to_set a : gset Cid))) b = true <-> b ⊆ a.
Proof.
  rewrite forallb_forall. split.
  - intros Hf c Hc%list_elem_of_In. apply Hf in Hc. apply bool_decide_eq_true in Hc. set_solver.
  - intros Hs c Hc%list_elem_of_In. apply bool_decide_eq_true. set_solver.
Qed.

(** Against a list without duplicates, the comparison is equality up to order. *)
Lemma CidArrsEqual_perm a b : NoDup b -> CidArrsEqual a b = true <-> a ≡ₚ b.
Proof.
  intros Hb. unfold CidArrsEqual. destruct (Nat.eqb_spec (length a) (length b)) as [El|El]; simpl.
  - rewrite forallb_subset. split.
    + intros Hs. symmetry. apply submseteq_length_Permutation; [|lia]. by apply NoDup_submseteq.
    + intros Hp c. by rewrite Hp.
  - split; [done|]. intros Hp. by rewrite Hp in El.
Qed.

(** ** The tipset of a list *)

Lemma accepts_iff l :
  (exists ts, NewTipSet l = Ret ts) <-> l <> [] /\ forall b b', b ∈ l -> b' ∈ l -> agree b b'.
Proof using All.
  pose proof (sortSlice_perm tipsetLess l) as Hp. split.
  - intros (ts & (b0 & rest & Es & Hf & _)%NewTipSet_inv). rewrite Es in Hp. split.
    + intros ->. by apply Permutation_nil_r in Hp.
    + assert (forall b, b ∈ l -> agree b b0) as Ha.
      { intros b. rewrite <- Hp, elem_of_cons. rewrite Forall_forall in Hf. by intros [->|?%Hf]. }
      intros b b' [Eh Ep]%Ha [Eh' Ep']%Ha. split; congruence.
  - intros [Hne Ha]. destruct (sortSlice tipsetLess l) as [|b0 rest] eqn:Es.
    + by apply Permutation_nil_l in Hp.
    + eexists. apply NewTipSet_inv. exists b0, rest. split; [done|]. split; [|done].
      apply Forall_forall. intros b Hb. apply Ha; rewrite <- Hp; [by right|left].
Qed.

Lemma built_agrees l ts b :
  NewTipSet l = Ret ts -> b ∈ l ->
  BlockHeight b = height ts /\ Parents ts = Ret (NewTipSetKey (BlockParents b)).
Proof using All.
  intros (b0 & rest & Es & Hf & ->)%NewTipSet_inv. rewrite <- (sortSlice_perm tipsetLess l), Es.
  cbn. intros [->|Hb]%elem_of_cons; [done|]. rewrite Forall_forall in Hf.
  destruct (Hf b Hb) as [-> ->]. done.
Qed.

Lemma foldl_keep {A} (f : A -> A -> bool) x l :
  Forall (fun y => f y x = false) l -> foldl (fun min y => if f y min then y else min) x l = x.
Proof. induction 1 as [|y l Hy _ IH]; simpl; [done|]. by rewrite Hy. Qed.

Lemma keyLess_digest b1 b2 : keyLess b1 b2 = false -> Ticket_Less (LastTicket b1) (LastTicket b2) = false.
Proof. unfold keyLess, Ticket_Less, LastTicket, bytes_less, digest. by destruct (bytes_Compare _ _). Qed.

Lemma built_min l ts :
  collision_free l -> NewTipSet l = Ret ts ->
  exists b0, MinTicketBlock ts = Ret b0 /\ head (blks ts) = Some b0 /\
    forall b, b ∈ l -> Ticket_Less (LastTicket b) (LastTicket b0) = false.
Proof using All.
  intros Hcf (b0 & rest & Es & _ & ->)%NewTipSet_inv.
  pose proof (sort_sorted l) as Hs. rewrite <- sort_tipsetLess, Es in Hs by done.
  apply StronglySorted_inv in Hs as [_ Hs]. eapply Forall_impl in Hs; [|intros b; apply (keyLess_digest b b0)].
  exists b0. split; [|split; [done|]].
  - unfold MinTicketBlock. cbn. f_equal. by apply (foldl_keep (fun b min => Ticket_Less (LastTicket b) (LastTicket min))).
  - intros b. rewrite <- (sortSlice_perm tipsetLess l), Es, elem_of_cons.
    rewrite Forall_forall in Hs. intros [->|Hb]; [|by apply Hs].
    unfold Ticket_Less, bytes_less. by rewrite bytes_Compare_refl.
Qed.

(** [NewTipSet] accepts exactly the non-empty lists of blocks with one height and one
    list of parents.  Where the blocks have different CIDs and different tickets different
    digests, the tipset does not depend on the order of the list: it holds the given blocks
    with their CIDs in the same order and their height, its parents are those of every block,
    and the first block is the one with the least ticket. *)
Theorem newtipset_canonical l :
  NoDup (Block_Cid <$> l) -> collision_free l ->
  ((exists ts, NewTipSet l = Ret ts) <-> l <> [] /\ forall b b', b ∈ l -> b' ∈ l -> agree b b') /\
  (forall ts, NewTipSet l = Ret ts ->
    (forall l', l' ≡ₚ l -> NewTipSet l' = Ret ts) /\
    blks ts ≡ₚ l /\ cids ts = Block_Cid <$> blks ts /\
    (forall b, b ∈ l -> BlockHeight b = height ts /\ Parents ts = Ret (NewTipSetKey (BlockParents b))) /\
    (exists b0, MinTicketBlock ts = Ret b0 /\ head (blks ts) = Some b0 /\
      forall b, b ∈ l -> Ticket_Less (LastTicket b) (LastTicket b0) = false)).
Proof using All.
  intros Hnd Hcf. split; [by apply accepts_iff|]. intros ts Hts. split; [|split; [|split; [|split]]].
  - intros l' Hp. rewrite <- Hts. unfold NewTipSet. by rewrite (sort_canonical l l').
  - apply NewTipSet_inv in Hts as (b0 & rest & Es & _ & ->). simpl. by rewrite <- Es, sortSlice_perm.
  - by apply NewTipSet_inv in Hts as (b0 & rest & _ & _ & ->).
  - intros b Hb. by apply (built_agrees l).
  - by apply (built_min l).
Qed.

(** The CIDs of the key of a tipset are those of its blocks, a key built from bytes is
    one that decodes, and two tipsets are equal exactly when their heights and keys are. *)
Theorem tipset_key_roundtrip l1 l2 ts1 ts2 :
  NewTipSet l1 = Ret ts1 -> NewTipSet l2 = Ret ts2 ->
  TipSetKey_Cids (Key (Some ts1)) = Ret (cids ts1) /\
  TipSetKeyFromBytes (Key (Some ts1)) = Ret (Key (Some ts1)) /\
  TipSetKey_IsEmpty (Key (Some ts1)) = false /\
  (Equals (Some ts1) (Some ts2) = true <-> height ts1 = height ts2 /\ Key (Some ts1) = Key (Some ts2)).
Proof using All.
  intros H1 H2. pose proof (built_cids_valid _ _ H1) as V1. pose proof (built_cids_valid _ _ H2) as V2.
  cbn [Key]. split; [by apply key_cids|]. split; [|split].
  - unfold TipSetKeyFromBytes, NewTipSetKey. by rewrite decodeKey_encodeKey.
  - apply NewTipSet_inv in H1 as (b0 & rest & _ & _ & ->). cbn.
    pose proof (valid_cid_nonempty _ (Block_Cid_valid b0)). by destruct (Block_Cid b0).
  - rewrite Equals_iff. split; [by intros [-> ->]|]. intros [-> E]. split; [done|].
    pose proof (key_cids _ V1) as K1. rewrite E, key_cids in K1 by done. congruence.
Qed.

(** A tipset is the child of another exactly when the parents of its blocks are the
    blocks of the other, in any order, and it is higher; the check does not panic. *)
Theorem is_child_of_iff l ts parent b :
  NewTipSet l = Ret ts -> b ∈ l -> Forall valid_cid (BlockParents b) -> NoDup (cids parent) ->
  exists r, IsChildOf ts parent = Ret r /\
    (r = true <-> BlockParents b ≡ₚ cids parent /\ height parent < BlockHeight b).
Proof using All.
  intros Hts Hb Hv Hnd. destruct (built_agrees _ _ _ Hts Hb) as [Hh Hp].
  unfold IsChildOf. rewrite Hp. cbn [mbind outcome_bind]. rewrite key_cids by done. cbn [mbind outcome_bind].
  eexists. split; [done|]. rewrite andb_true_iff, CidArrsEqual_perm, Z.ltb_lt, Hh by done. done.
Qed.
End tipsets.

(** ** A concrete hashing, and witnesses *)

Definition demoHashing : Hashing := {|
  blake2b_Sum256 := fun b => b;
  Block_Cid := fun b => [1; Timestamp b];
  CidFromBytes := fun bs =>
    match bs with
    | x :: y :: _ => if x =? 1 then Ret (2%nat, [x; y]) else Err "invalid cid"
    | _ => Err "cid too short"
    end;
|}.

Definition demoHashingOk : @HashingOk demoHashing.
Proof.
  refine {| valid_cid := fun c => exists t, c = [1; t] |}.
  - intros c [t ->]. done.
  - intros c rest [t ->]. done.
  - intros b. by exists (Timestamp b).
Defined.

Definition demoBlock (t ts : Z) : BlockHeader := {|
  Miner := "t01000"; BlockTicket := {| VRFProof := [t] |}; ElectionProof := None;
  BeaconEntries := []; WinPoStProof := []; BlockParents := [[1; 7]; [1; 8]]; BlockParentWeight := 5;
  BlockHeight := 10; ParentStateRoot := []; ParentReceipts := []; Messages := [];
  BLSAggregate := None; Timestamp := ts; BlockSig := None; ForkSignaling := 0; ParentBaseFee := 100;
  validated := false;
|}.

Definition demoBlocks := [demoBlock 9 1; demoBlock 3 3; demoBlock 3 2].

Definition demoTipSet : TipSet := {|
  cids := [[1; 2]; [1; 3]; [1; 1]];
  blks := [demoBlock 3 2; demoBlock 3 3; demoBlock 9 1];
  height := 10;
|}.

Lemma newtipset_canonical_witness :
  @NewTipSet demoHashing [demoBlock 3 2; demoBlock 9 1; demoBlock 3 3] = Ret demoTipSet.
Proof.
  destruct (@newtipset_canonical demoHashing demoHashingOk demoBlocks) as [_ Hc].
  - apply (bool_decide_unpack _). vm_compute. done.
  - intros b1 b2 _ _ E. exact E.
  - destruct (Hc demoTipSet) as [Hp _]; [reflexivity|]. apply Hp.
    exact (Permutation_app_comm [demoBlock 3 2] [demoBlock 9 1; demoBlock 3 3]).
Defined.

Lemma tipset_key_roundtrip_witness :
  @TipSetKey_Cids demoHashing (Key (Some demoTipSet)) = Ret [[1; 2]; [1; 3]; [1; 1]].
Proof.
  destruct (@tipset_key_roundtrip demoHashing demoHashingOk demoBlocks demoBlocks demoTipSet demoTipSet) as [Hk _];
    [reflexivity..|exact Hk].
Defined.

Lemma is_child_of_iff_witness :
  @IsChildOf demoHashing demoTipSet {| cids := [[1; 8]; [1; 7]]; blks := []; height := 8 |} = Ret true.
Proof.
  destruct (@is_child_of_iff demoHashing demoHashingOk demoBlocks demoTipSet
    {| cids := [[1; 8]; [1; 7]]; blks := []; height := 8 |} (demoBlock 9 1)) as (r & Hr & Hi).
  - reflexivity.
  - left.
  - repeat constructor; eexists; reflexivity.
  - apply (bool_decide_unpack _). vm_compute. done.
  - rewrite Hr. f_equal. apply Hi. split; [apply Permutation_swap|reflexivity].
Defined.

(** With duplicates the comparison of CID lists, meant to ignore only the order, is not
    symmetric. *)
Lemma CidArrsEqual_asymmetric (c c' : Cid) :
  c <> c' -> CidArrsEqual [c; c'] [c; c] = true /\ CidArrsEqual [c; c] [c; c'] = false.
Proof.
  intros Hne. unfold CidArrsEqual. simpl. split.
  - rewrite !bool_decide_eq_true_2 by set_solver. done.
  - rewrite (bool_decide_eq_false_2 (c' ∈ _)) by set_solver. by rewrite andb_comm.
Qed.
