(* ===== verification/SyncManager.v ===== *)
(** * The chain sync manager: chain/sync_manager.go

    The manager receives the heads of peers and schedules them on workers.  Its scheduler
    handles one event at a time: a head, the end of a worker, or a tick of its ticker; the
    handlers are functions on the record [syncManager], and [sm_step] is the loop.  Buckets
    and the recent buffer are lists; the bucket objects of a set are pairwise different, so
    removing one by its address is removing it by its position. *)

From S2P Require Import Prelude TipSet.

Definition PeerID := string.
Definition RecentSyncBufferSize : nat := 10.
Definition MaxSyncWorkers : nat := 5.
Definition SyncWorkerHistory : nat := 3.
Definition InitialSyncTimeThreshold : Z := 15 * 60 * 1000000000.

Definition syncTargetBucket := list TipSet. (* tips *)
Definition syncBucketSet := list syncTargetBucket. (* buckets *)

Record syncBuffer := {
  buf : list (option TipSet);
  next : nat;
}.

(** The progress shown to users, [ss], is left out. *)
Record workerState := {
  ws_id : Z;
  ws_ts : TipSet;
  ws_dt : Z;
}.

Record peerHead := {
  ph_p : PeerID;
  ph_ts : TipSet;
}.

Record workerStatus := {
  st_id : Z;
  st_err : option string;
}.

(** [heads] is [None] once it is set to nil; [ticker] says that the ticker's channel is
    still read. *)
Record syncManager := {
  nextWorker : Z;
  pend : syncBucketSet;
  deferred : syncBucketSet;
  heads : option (gmap PeerID TipSet);
  recent : syncBuffer;
  initialSyncDone : bool;
  state : gmap Z workerState;
  history : list (option workerState);
  historyI : nat;
  ticker : bool;
}.

(** The configuration read from the environment at start. *)
Class SyncConfig := {
  BootstrapPeerThreshold : Z;
  coalesceTipsets : bool;
}.

(** The order in which Go ranges over a map is not specified: it is a parameter, and may be
    another one at each range statement of a handler ([site]). *)
Class MapOrder := {
  rangeHeads : gmap PeerID TipSet -> list TipSet;
  rangeState : nat -> gmap Z workerState -> list workerState;
}.

Definition updPend (f : syncBucketSet) (sm : syncManager) : syncManager :=
  {| nextWorker := nextWorker sm; pend := f; deferred := deferred sm; heads := heads sm; recent := recent sm;
     initialSyncDone := initialSyncDone sm; state := state sm; history := history sm;
     historyI := historyI sm; ticker := ticker sm |}.

Definition updDeferred (f : syncBucketSet) (sm : syncManager) : syncManager :=
  {| nextWorker := nextWorker sm; pend := pend sm; deferred := f; heads := heads sm; recent := recent sm;
     initialSyncDone := initialSyncDone sm; state := state sm; history := history sm;
     historyI := historyI sm; ticker := ticker sm |}.

Definition updHeads (f : option (gmap PeerID TipSet)) (sm : syncManager) : syncManager :=
  {| nextWorker := nextWorker sm; pend := pend sm; deferred := deferred sm; heads := f; recent := recent sm;
     initialSyncDone := initialSyncDone sm; state := state sm; history := history sm;
     historyI := historyI sm; ticker := ticker sm |}.

Definition updTicker (f : bool) (sm : syncManager) : syncManager :=
  {| nextWorker := nextWorker sm; pend := pend sm; deferred := deferred sm; heads := heads sm; recent := recent sm;
     initialSyncDone := initialSyncDone sm; state := state sm; history := history sm;
     historyI := historyI sm; ticker := f |}.

Definition updDone (r : syncBuffer) (d : bool) (sm : syncManager) : syncManager :=
  {| nextWorker := nextWorker sm; pend := pend sm; deferred := deferred sm; heads := heads sm; recent := r;
     initialSyncDone := d; state := state sm; history := history sm;
     historyI := historyI sm; ticker := ticker sm |}.

Section syncmanager.
Context `{Hashing} `{BigOps} `{SyncConfig} `{MapOrder}.

Definition isHeavier (a b : TipSet) : outcome bool :=
  wa ← ParentWeight a; wb ← ParentWeight b; Ret (big_GreaterThan wa wb).

(** ** The buffer of recently synced tipsets *)

Definition newSyncBuffer (size : nat) : syncBuffer := {| buf := replicate size None; next := 0 |}.

(** An index out of range and a remainder by zero panic. *)
Definition Push (ts : TipSet) (sb : syncBuffer) : outcome syncBuffer :=
  if decide (next sb < length (buf sb))%nat then
    Ret {| buf := <[next sb := Some ts]> (buf sb); next := (next sb + 1) mod length (buf sb) |}
  else Panic.

Fixpoint Synced_loop (l : list (option TipSet)) (ts : TipSet) : outcome bool :=
  match l with
  | [] => Ret false
  | None :: l => Synced_loop l ts
  | Some rts :: l =>
      if Equals (Some rts) (Some ts) then Ret true
      else h ← isHeavier rts ts; if (h : bool) then Ret true else Synced_loop l ts
  end.

Definition Synced (sb : syncBuffer) (ts : TipSet) : outcome bool := Synced_loop (buf sb) ts.

(** ** Buckets *)

Fixpoint sameChainAs (stb : syncTargetBucket) (ts : TipSet) : outcome bool :=
  match stb with
  | [] => Ret false
  | t :: stb =>
      if Equals (Some ts) (Some t) then Ret true
      else
        tp ← Parents t;
        if bool_decide (Key (Some ts) = tp) then Ret true
        else
          tsp ← Parents ts;
          if bool_decide (tsp = Key (Some t)) then Ret true else sameChainAs stb ts
  end.

(** The blocks of two tipsets, one per miner. *)
Definition mergeMiners (bs : list BlockHeader) : list BlockHeader :=
  (foldl (fun '(newTs, miners) b =>
    if bool_decide (Miner b ∈ miners) then (newTs, miners)
    else (newTs ++ [b], {[ Miner b ]} ∪ miners))
    ([], (∅ : gset Address)) bs).1.

(** Whether [add] merges two tipsets. *)
Definition mergeable (t ts : TipSet) : outcome bool :=
  if coalesceTipsets && (height t =? height ts) then
    b ← firstBlock t; b' ← firstBlock ts;
    Ret (CidArrsEqual (BlockParents b) (BlockParents b'))
  else Ret false.

Fixpoint bucket_add (ts : TipSet) (stb : syncTargetBucket) : outcome syncTargetBucket :=
  match stb with
  | [] => Ret [ts]
  | t :: stb =>
      if Equals (Some t) (Some ts) then Ret (t :: stb)
      else
        m ← mergeable t ts;
        if (m : bool) then
          match NewTipSet (mergeMiners (blks t ++ blks ts)) with
          | Ret ts2 => Ret (ts2 :: stb)
          | Err _ => stb' ← bucket_add ts stb; Ret (t :: stb')
          | Panic => Panic
          end
        else stb' ← bucket_add ts stb; Ret (t :: stb')
  end.

Definition newSyncTargetBucket (tipsets : list TipSet) : outcome syncTargetBucket :=
  foldl (fun stb ts => b ← stb; bucket_add ts b) (Ret []) tipsets.

Fixpoint heaviest_loop (best : option TipSet) (tips : list TipSet) : outcome (option TipSet) :=
  match tips with
  | [] => Ret best
  | ts :: tips =>
      match best with
      | None => heaviest_loop (Some ts) tips
      | Some b =>
          w ← ParentWeight ts; wb ← ParentWeight b;
          heaviest_loop (if big_GreaterThan w wb then Some ts else Some b) tips
      end
  end.

(** On a bucket that is not nil. *)
Definition heaviestTipSet (stb : syncTargetBucket) : outcome (option TipSet) := heaviest_loop None stb.

(** A nil tipset where one is dereferenced panics. *)
Definition deref (ts : option TipSet) : outcome TipSet :=
  match ts with Some ts => Ret ts | None => Panic end.

Fixpoint RelatedToAny (sbs : syncBucketSet) (ts : TipSet) : outcome bool :=
  match sbs with
  | [] => Ret false
  | b :: sbs => r ← sameChainAs b ts; if (r : bool) then Ret true else RelatedToAny sbs ts
  end.

Fixpoint Insert (ts : TipSet) (sbs : syncBucketSet) : outcome syncBucketSet :=
  match sbs with
  | [] => nb ← newSyncTargetBucket [ts]; Ret [nb]
  | b :: sbs =>
      r ← sameChainAs b ts;
      if (r : bool) then b' ← bucket_add ts b; Ret (b' :: sbs)
      else sbs' ← Insert ts sbs; Ret (b :: sbs')
  end.

(** The position of the best bucket, and its heaviest tipset. *)
Fixpoint Pop_loop (best : option (nat * option TipSet)) (i : nat) (sbs : syncBucketSet) :
    outcome (option (nat * option TipSet)) :=
  match sbs with
  | [] => Ret best
  | b :: sbs =>
      hts ← heaviestTipSet b;
      match best with
      | None => Pop_loop (Some (i, hts)) (S i) sbs
      | Some (j, bestTs) =>
          bt ← deref bestTs; w ← ParentWeight bt; ts ← deref hts; wt ← ParentWeight ts;
          Pop_loop (if big_LessThan w wt then Some (i, hts) else Some (j, bestTs)) (S i) sbs
      end
  end.

(** On an empty set the slice of the remaining buckets has capacity -1, which panics. *)
Definition Pop (sbs : syncBucketSet) : outcome (syncTargetBucket * syncBucketSet) :=
  best ← Pop_loop None 0 sbs;
  match best with
  | None => Panic
  | Some (i, _) =>
      match sbs !! i with
      | Some b => Ret (b, delete i sbs)
      | None => Panic
      end
  end.

(** The related buckets joined, [None] if there is none, and the others. *)
Fixpoint PopRelated_loop (ts : TipSet) (bOut : option syncTargetBucket) (sbs : syncBucketSet) :
    outcome (option syncTargetBucket * syncBucketSet) :=
  match sbs with
  | [] => Ret (bOut, [])
  | b :: sbs =>
      r ← sameChainAs b ts;
      if (r : bool) then PopRelated_loop ts (Some (default [] bOut ++ b)) sbs
      else '(o, rest) ← PopRelated_loop ts bOut sbs; Ret (o, b :: rest)
  end.

Definition PopRelated (ts : TipSet) (sbs : syncBucketSet) : outcome (option syncTargetBucket * syncBucketSet) :=
  PopRelated_loop ts None sbs.

Fixpoint Heaviest_loop (bestTs : option TipSet) (sbs : syncBucketSet) : outcome (option TipSet) :=
  match sbs with
  | [] => Ret bestTs
  | b :: sbs =>
      bhts ← heaviestTipSet b;
      match bestTs with
      | None => Heaviest_loop bhts sbs
      | Some bt =>
          t ← deref bhts; w ← ParentWeight t; wb ← ParentWeight bt;
          Heaviest_loop (if big_GreaterThan w wb then Some t else Some bt) sbs
      end
  end.

Definition Heaviest (sbs : syncBucketSet) : outcome (option TipSet) := Heaviest_loop None sbs.

Definition bucketsEmpty (sbs : syncBucketSet) : bool := Nat.eqb (length sbs) 0.

(** ** Selecting targets *)

(** The first phase of [addSyncTarget]: whether the tipset is related to an active sync,
    and if so whether it is to be queued. *)
Fixpoint relatedToActive (ts : TipSet) (workers : list workerState) : outcome (option bool) :=
  match workers with
  | [] => Ret None
  | ws :: workers =>
      if Equals (Some ts) (Some (ws_ts ws)) then Ret (Some false)
      else
        p ← Parents ts;
        if bool_decide (p = Key (Some (ws_ts ws))) then Ret (Some true) else relatedToActive ts workers
  end.

Fixpoint anyHeavier (workers : list workerState) (ts : TipSet) : outcome bool :=
  match workers with
  | [] => Ret false
  | ws :: workers => h ← isHeavier (ws_ts ws) ts; if (h : bool) then Ret true else anyHeavier workers ts
  end.

(** The selecting functions return the new manager and the target, if there is work. *)
Definition addSyncTarget (ts : TipSet) (sm : syncManager) : outcome (syncManager * option TipSet) :=
  synced ← Synced (recent sm) ts;
  if (synced : bool) then Ret (sm, None)
  else if Nat.eqb (size (state sm)) 0 then Ret (sm, Some ts)
  else
    active ← relatedToActive ts (rangeState 0 (state sm));
    match active with
    | Some false => Ret (sm, None)
    | Some true => p ← Insert ts (pend sm); Ret (updPend p sm, None)
    | None =>
        related ← RelatedToAny (pend sm) ts;
        if (related : bool) then p ← Insert ts (pend sm); Ret (updPend p sm, None)
        else
          heavier ← anyHeavier (rangeState 1 (state sm)) ts;
          if (heavier : bool) then Ret (sm, None)
          else
            pendHeaviest ← Heaviest (pend sm);
            pheavier ← match pendHeaviest with None => Ret false | Some ph => isHeavier ph ts end;
            if (pheavier : bool) then Ret (sm, None)
            else if negb (initialSyncDone sm) || (MaxSyncWorkers <=? size (state sm))%nat then
              d ← Insert ts (deferred sm); Ret (updDeferred d sm, None)
            else Ret (sm, Some ts)
    end.

(** The loop over the deferred buckets; each round pops one, so the number of buckets
    bounds the rounds ([n]).  Every path of the inner range ends in its first round. *)
Fixpoint deferredLoop (n : nat) (sm : syncManager) : outcome (syncManager * option TipSet) :=
  if bucketsEmpty (deferred sm) then Ret (sm, None)
  else
    match n with
    | O => Panic
    | S n =>
        '(bucket, d) ← Pop (deferred sm);
        let sm := updDeferred d sm in
        hts ← heaviestTipSet bucket;
        heaviest ← deref hts;
        synced ← Synced (recent sm) heaviest;
        if (synced : bool) then deferredLoop n sm
        else
          related ← RelatedToAny (pend sm) heaviest;
          if (related : bool) then p ← Insert heaviest (pend sm); deferredLoop n (updPend p sm)
          else
            match rangeState (2 + n) (state sm) with
            | [] => deferredLoop n sm
            | ws :: _ =>
                if Equals (Some (ws_ts ws)) (Some heaviest) then deferredLoop n sm
                else
                  heavier ← isHeavier (ws_ts ws) heaviest;
                  if (heavier : bool) then deferredLoop n sm
                  else
                    hp ← Parents heaviest;
                    if bool_decide (hp = Key (Some (ws_ts ws))) then
                      p ← Insert heaviest (pend sm); deferredLoop n (updPend p sm)
                    else Ret (sm, Some heaviest)
            end
    end.

Definition selectDeferredSyncTarget (sm : syncManager) : outcome (syncManager * option TipSet) :=
  deferredLoop (length (deferred sm)) sm.

Definition selectSyncTarget (done : TipSet) (sm : syncManager) : outcome (syncManager * option TipSet) :=
  '(related, p) ← PopRelated done (pend sm);
  let sm := updPend p sm in
  match related with
  | None => selectDeferredSyncTarget sm
  | Some related =>
      hts ← heaviestTipSet related;
      heaviest ← deref hts;
      lighter ← isHeavier done heaviest;
      if (lighter : bool) then selectDeferredSyncTarget sm
      else
        heavier ← anyHeavier (rangeState 0 (state sm)) heaviest;
        if (heavier : bool) then selectDeferredSyncTarget sm
        else
          synced ← Synced (recent sm) heaviest;
          if (synced : bool) then selectDeferredSyncTarget sm else Ret (sm, Some heaviest)
  end.

Fixpoint insertAll (s : syncBucketSet) (l : list TipSet) : outcome syncBucketSet :=
  match l with
  | [] => Ret s
  | ts :: l => s' ← Insert ts s; insertAll s' l
  end.

(** The heads by height, in buckets, and the heaviest tipset of all. *)
Definition selectInitialSyncTarget (sm : syncManager) : outcome (syncManager * option TipSet) :=
  let peerHeads := match heads sm with None => [] | Some hs => rangeHeads hs end in
  let peerHeads := sortSlice (fun t u => height t <? height u) peerHeads in
  buckets ← insertAll [] peerHeads;
  best ← Heaviest buckets;
  Ret (updHeads None sm, best).

(** ** Workers *)

Definition spawnWorker (target : TipSet) (sm : syncManager) : syncManager :=
  let id := nextWorker sm in
  {| nextWorker := u64 (id + 1); pend := pend sm; deferred := deferred sm; heads := heads sm; recent := recent sm;
     initialSyncDone := initialSyncDone sm;
     state := <[id := {| ws_id := id; ws_ts := target; ws_dt := 0 |}]> (state sm);
     history := history sm; historyI := historyI sm; ticker := ticker sm |}.

Definition maybeSpawn (r : syncManager * option TipSet) : syncManager :=
  match r with
  | (sm, None) => sm
  | (sm, Some target) => spawnWorker target sm
  end.

(** A worker that ran [doSync] for [dt] with result [err]. *)
Definition worker (ws : workerState) (err : option string) (dt : Z) : workerState * workerStatus :=
  ({| ws_id := ws_id ws; ws_ts := ws_ts ws; ws_dt := dt |}, {| st_id := ws_id ws; st_err := err |}).

(** ** Events *)

Definition handlePeerHead (head : peerHead) (sm : syncManager) : outcome syncManager :=
  if nextWorker sm =? 0 then
    match heads sm with
    | None => Panic (* a write to a nil map *)
    | Some hs =>
        let hs := <[ph_p head := ph_ts head]> hs in
        let sm := updHeads (Some hs) sm in
        if Z.of_nat (size hs) <? BootstrapPeerThreshold then Ret sm
        else
          '(sm, target) ← selectInitialSyncTarget sm;
          target ← deref target;
          Ret (spawnWorker target sm)
    end
  else r ← addSyncTarget (ph_ts head) sm; Ret (maybeSpawn r).

(** The state of the manager when a worker is removed and kept in the history. *)
Definition retire (id : Z) (sm : syncManager) : outcome syncManager :=
  if decide (historyI sm < length (history sm))%nat then
    Ret {| nextWorker := nextWorker sm; pend := pend sm; deferred := deferred sm; heads := heads sm;
       recent := recent sm; initialSyncDone := initialSyncDone sm; state := delete id (state sm);
       history := <[historyI sm := state sm !! id]> (history sm);
       historyI := (historyI sm + 1) mod length (history sm); ticker := ticker sm |}
  else Panic.

Definition handleWorkerStatus (status : workerStatus) (sm : syncManager) : outcome syncManager :=
  let ws := state sm !! st_id status in
  sm ← retire (st_id status) sm;
  match ws with
  | None => Panic (* [ws.ts] of a nil worker *)
  | Some ws =>
      sm ← match st_err status with
           | Some _ => Ret sm
           | None =>
               r ← Push (ws_ts ws) (recent sm);
               Ret (updDone r (initialSyncDone sm || (ws_dt ws <? InitialSyncTimeThreshold)) sm)
           end;
      r ← selectSyncTarget (ws_ts ws) sm;
      Ret (maybeSpawn r)
  end.

(** Every round but the last starts a worker, so the rounds are bounded by their number. *)
Fixpoint handleInitialSyncDone_loop (n : nat) (sm : syncManager) : outcome syncManager :=
  if (size (state sm) <? MaxSyncWorkers)%nat then
    match n with
    | O => Panic
    | S n =>
        '(sm, target) ← selectDeferredSyncTarget sm;
        match target with
        | None => Ret sm
        | Some target => handleInitialSyncDone_loop n (spawnWorker target sm)
        end
    end
  else Ret sm.

Definition handleInitialSyncDone (sm : syncManager) : outcome syncManager :=
  handleInitialSyncDone_loop MaxSyncWorkers sm.

(** The ticker, which stops when the initial sync is done. *)
Definition handleTick (sm : syncManager) : outcome syncManager :=
  if initialSyncDone sm then handleInitialSyncDone (updTicker false sm) else Ret sm.

Definition NewSyncManager : syncManager :=
  {| nextWorker := 0; pend := []; deferred := []; heads := Some ∅; recent := newSyncBuffer RecentSyncBufferSize;
     initialSyncDone := false; state := ∅; history := replicate SyncWorkerHistory None;
     historyI := 0; ticker := true |}.
End syncmanager.

(** ** The scheduler

    What it can receive: a head, the status of an active worker, whose time is recorded
    before the status is sent, or a tick while the ticker is read. *)
Inductive schedEvent :=
| EvHead (head : peerHead)
| EvWorker (id : Z) (err : option string) (dt : Z)
| EvTick.

(** The result of the round that handles an event; [None] when nothing can send it. *)
Definition scheduler `{Hashing} `{BigOps} `{SyncConfig} `{MapOrder} (ev : schedEvent) (sm : syncManager) :
    option (outcome syncManager) :=
  match ev with
  | EvHead head => Some (handlePeerHead head sm)
  | EvWorker id err dt =>
      ws ← state sm !! id;
      let '(ws, status) := worker ws err dt in
      let sm :=
        {| nextWorker := nextWorker sm; pend := pend sm; deferred := deferred sm; heads := heads sm;
           recent := recent sm; initialSyncDone := initialSyncDone sm; state := <[id := ws]> (state sm);
           history := history sm; historyI := historyI sm; ticker := ticker sm |} in
      Some (handleWorkerStatus status sm)
  | EvTick => if ticker sm then Some (handleTick sm) else None
  end.
