(* ===== verification/SyncManagerProps.v ===== *)
(** * Properties of the chain sync manager

    The invariant [sm_inv] of the manager, kept by every event: no handler panics, the
    workers are bounded, and a worker is never started for a tipset that was synced recently.
    The initial target is the heaviest head, and the buffer of synced tipsets is the window
    of the last ones. *)

From S2P Require Import Prelude TipSet SyncManager.

#[local] Arguments Equals : simpl never.
#[local] Arguments Key : simpl never.

(** ** What is relied on: ranging over a map visits every entry once *)
Class MapOrderOk `{MapOrder} : Prop := {
  rangeHeads_perm hs : rangeHeads hs ≡ₚ (map_to_list hs).*2;
  rangeState_perm n st : rangeState n st ≡ₚ (map_to_list st).*2;
}.

(** ** Pure counterparts *)

(** A tipset with a block, as [NewTipSet] builds them. *)
Definition wf_ts (ts : TipSet) : Prop := blks ts <> [].
Definition wf_bucket (b : syncTargetBucket) : Prop := b <> [] /\ Forall wf_ts b.
Definition wf_set (s : syncBucketSet) : Prop := Forall wf_bucket s.
Definition wf_slot (o : option TipSet) : Prop := forall t, o = Some t -> wf_ts t.

Definition weight (ts : TipSet) : Z :=
  match blks ts with [] => 0 | b :: _ => BlockParentWeight b end.

(** Synced recently, or lighter than a tipset that was. *)
Definition covers (rts ts : TipSet) : bool := Equals (Some rts) (Some ts) || (weight ts <? weight rts).
Definition synced (sb : syncBuffer) (ts : TipSet) : bool :=
  existsb (fun o => match o with None => false | Some rts => covers rts ts end) (buf sb).

Section bucket_facts.
Context `{Hashing} `{BigOpsOk} `{SyncConfig}.

Lemma firstBlock_wf ts : wf_ts ts -> exists b, firstBlock ts = Ret b.
Proof. unfold wf_ts, firstBlock. destruct (blks ts); [done|eauto]. Qed.

Lemma Parents_wf ts : wf_ts ts -> exists k, Parents ts = Ret k.
Proof. intros [b E]%firstBlock_wf. unfold Parents. rewrite E. simpl. eauto. Qed.

Lemma ParentWeight_wf ts : wf_ts ts -> ParentWeight ts = Ret (weight ts).
Proof. unfold wf_ts, ParentWeight, weight, firstBlock. by destruct (blks ts). Qed.

Lemma isHeavier_wf a b : wf_ts a -> wf_ts b -> isHeavier a b = Ret (weight b <? weight a).
Proof.
  intros Ha Hb. unfold isHeavier. rewrite !ParentWeight_wf by done. simpl. by rewrite big_GreaterThan_ok.
Qed.

Lemma Synced_wf sb ts : Forall wf_slot (buf sb) -> wf_ts ts -> Synced sb ts = Ret (synced sb ts).
Proof.
  unfold Synced, synced. generalize (buf sb). intros l Hf Hts.
  induction Hf as [|o l Ho Hf IH]; [done|]. destruct o as [rts|]; simpl; [|exact IH].
  unfold covers. destruct (Equals _ _); simpl; [done|].
  rewrite isHeavier_wf by auto. simpl. by destruct (_ <? _).
Qed.

Lemma sameChainAs_wf b ts : Forall wf_ts b -> wf_ts ts -> exists r, sameChainAs b ts = Ret r.
Proof.
  intros Hb Hts. destruct (Parents_wf ts Hts) as [k Hk].
  induction Hb as [|t b Ht Hb IH]; simpl; [eauto|].
  destruct (Equals _ _); [eauto|]. destruct (Parents_wf t Ht) as [k' ->]. simpl.
  case_bool_decide; [eauto|]. rewrite Hk. simpl. case_bool_decide; eauto.
Qed.

Lemma RelatedToAny_wf s ts : wf_set s -> wf_ts ts -> exists r, RelatedToAny s ts = Ret r.
Proof.
  intros Hs Hts. induction Hs as [|b s [_ Hb] Hs IH]; simpl; [eauto|].
  destruct (sameChainAs_wf b ts Hb Hts) as [[] ->]; simpl; eauto.
Qed.

Lemma mergeable_wf t ts : wf_ts t -> wf_ts ts -> exists r, mergeable t ts = Ret r.
Proof.
  intros [b Hb]%firstBlock_wf [b' Hb']%firstBlock_wf. unfold mergeable.
  destruct (_ && _); [|eauto]. rewrite Hb, Hb'. simpl. eauto.
Qed.

Lemma NewTipSet_wf l ts : NewTipSet l = Ret ts -> wf_ts ts.
Proof. intros (b0 & rest & _ & _ & ->)%NewTipSet_inv. done. Qed.

Lemma checkBlocks_no_panic b0 l : checkBlocks b0 l <> Panic.
Proof.
  induction l as [|b l IH]; simpl; [done|]. destruct (negb _); [done|].
  unfold sameParents. destruct (negb _); simpl; [done|]. destruct (forallb _ _); simpl; [|done].
  by destruct (checkBlocks b0 l).
Qed.

Lemma NewTipSet_no_panic l : NewTipSet l <> Panic.
Proof.
  unfold NewTipSet. destruct (sortSlice _ _) as [|b0 rest]; [done|].
  pose proof (checkBlocks_no_panic b0 rest). by destruct (checkBlocks b0 rest).
Qed.

Lemma bucket_add_wf ts b : Forall wf_ts b -> wf_ts ts -> exists b', bucket_add ts b = Ret b' /\ wf_bucket b'.
Proof.
  intros Hb Hts. induction Hb as [|t b Ht Hb IH]; simpl; [eexists; repeat constructor; done|].
  destruct IH as (b' & Eb & _ & Hb').
  destruct (Equals _ _); [eexists; split; [done|]; split; [done|]; by constructor|].
  assert (exists b'', (stb' ← bucket_add ts b; Ret (t :: stb')) = Ret b'' /\ wf_bucket b'') as Hgo.
  { rewrite Eb. simpl. eexists. split; [done|]. split; [done|]. by constructor. }
  destruct (mergeable_wf t ts Ht Hts) as [[] ->]; simpl; [|done].
  destruct (NewTipSet _) as [ts2| |] eqn:En; [|done|by apply NewTipSet_no_panic in En].
  eexists. split; [done|]. split; [done|]. constructor; [by eapply NewTipSet_wf|done].
Qed.

Lemma Insert_wf ts s : wf_set s -> wf_ts ts -> exists s', Insert ts s = Ret s' /\ wf_set s' /\ s' <> [].
Proof.
  intros Hs Hts. induction Hs as [|b s [Hne Hb] Hs IH]; simpl.
  - eexists. split; [done|]. split; [|done]. repeat constructor; done.
  - destruct (sameChainAs_wf b ts Hb Hts) as [[] ->]; simpl.
    + destruct (bucket_add_wf ts b Hb Hts) as (b' & -> & Hb'). eexists. split; [done|]. split; [|done]. by constructor.
    + destruct IH as (s' & -> & Hs' & _). eexists. split; [done|]. split; [|done]. constructor; [by split|done].
Qed.

(** The heaviest tipset of a bucket is one of maximal weight. *)
Lemma heaviest_loop_wf best tips :
  wf_ts best -> Forall wf_ts tips ->
  exists t, heaviest_loop (Some best) tips = Ret (Some t) /\ t ∈ best :: tips /\
    forall u, u ∈ best :: tips -> weight u <= weight t.
Proof.
  intros Hbest Htips. revert best Hbest. induction Htips as [|u tips Hu Htips IH]; intros best Hbest; simpl.
  - exists best. split; [done|]. split; [left|]. intros u ->%list_elem_of_singleton. lia.
  - rewrite !ParentWeight_wf by done. simpl. rewrite big_GreaterThan_ok.
    destruct (Z.ltb_spec (weight best) (weight u)).
    + destruct (IH u Hu) as (t & -> & Ht & Hmax). exists t. split; [done|]. split; [by right|].
      intros v [->|Hv]%elem_of_cons; [|by apply Hmax]. pose proof (Hmax u ltac:(left)). lia.
    + destruct (IH best Hbest) as (t & -> & Ht & Hmax). exists t. split; [done|]. split; [set_solver|].
      intros v. rewrite !elem_of_cons. intros [->|[->|Hv]]; [apply Hmax; left| |apply Hmax; by right].
      pose proof (Hmax best ltac:(left)). lia.
Qed.

Lemma heaviestTipSet_wf b :
  wf_bucket b -> exists t, heaviestTipSet b = Ret (Some t) /\ t ∈ b /\ wf_ts t /\ forall u, u ∈ b -> weight u <= weight t.
Proof.
  intros [Hne Hb]. destruct b as [|t b]; [done|]. apply Forall_cons in Hb as [Ht Hb].
  unfold heaviestTipSet. simpl. destruct (heaviest_loop_wf t b Ht Hb) as (u & -> & Hu & Hmax).
  exists u. split; [done|]. split; [done|]. split; [|done].
  assert (Forall wf_ts (t :: b)) as Hall by (by constructor). rewrite Forall_forall in Hall. by apply Hall.
Qed.

Lemma Pop_loop_wf j bt i s :
  wf_ts bt -> wf_set s ->
  exists k t, Pop_loop (Some (j, Some bt)) i s = Ret (Some (k, Some t)) /\ (k = j \/ (i <= k < i + length s)%nat).
Proof.
  intros Hbt Hs. revert j bt i Hbt. induction Hs as [|b s Hb Hs IH]; intros j bt i Hbt; simpl.
  - exists j, bt. split; [done|]. by left.
  - destruct (heaviestTipSet_wf b Hb) as (t & -> & _ & Ht & _). simpl. rewrite !ParentWeight_wf by done. simpl.
    destruct (big_LessThan _ _).
    + destruct (IH i t (S i) Ht) as (k & u & -> & Hk). exists k, u. split; [done|]. lia.
    + destruct (IH j bt (S i) Hbt) as (k & u & -> & Hk). exists k, u. split; [done|]. lia.
Qed.

Lemma Pop_wf s :
  wf_set s -> s <> [] ->
  exists i b, Pop s = Ret (b, delete i s) /\ s !! i = Some b /\ wf_bucket b /\ wf_set (delete i s).
Proof.
  intros Hs Hne. destruct s as [|b s]; [done|]. pose proof Hs as [Hb Hs']%Forall_cons.
  unfold Pop. cbn [Pop_loop]. destruct (heaviestTipSet_wf b Hb) as (t & -> & _ & Ht & _). cbn [mbind outcome_bind].
  destruct (Pop_loop_wf 0 t 1 s Ht Hs') as (k & u & -> & Hk). cbn [mbind outcome_bind].
  case_match eqn:Hb'.
  - eexists k, _. split; [done|]. split; [done|]. split.
    + by apply (Forall_lookup_1 _ _ _ _ Hs Hb').
    + by apply Forall_delete.
  - apply lookup_ge_None in Hb'. simpl in Hb'. lia.
Qed.

Lemma PopRelated_loop_wf ts o s :
  wf_ts ts -> wf_set s -> (forall b, o = Some b -> wf_bucket b) ->
  exists o' rest, PopRelated_loop ts o s = Ret (o', rest) /\ wf_set rest /\ (forall b, o' = Some b -> wf_bucket b).
Proof.
  intros Hts Hs. revert o. induction Hs as [|b s Hb Hs IH]; intros o Ho; simpl.
  - eexists _, _. split; [done|]. by split; [constructor|].
  - destruct (sameChainAs_wf b ts (proj2 Hb) Hts) as [[] ->]; simpl.
    + apply IH. intros b' [= <-]. destruct o as [b'|]; simpl; [|done].
      destruct (Ho b' eq_refl) as [Hne Hb']. destruct Hb as [_ Hb]. split; [by destruct b'|]. by apply Forall_app.
    + destruct (IH o Ho) as (o' & rest & -> & Hr & Ho'). simpl. eexists _, _. split; [done|]. split; [by constructor|done].
Qed.

Lemma Heaviest_loop_wf best s :
  (forall t, best = Some t -> wf_ts t) -> wf_set s ->
  exists o, Heaviest_loop best s = Ret o /\ (forall t, o = Some t -> wf_ts t /\ (best = Some t \/ t ∈ concat s)) /\
    (forall u, best = Some u \/ u ∈ concat s -> exists t, o = Some t /\ weight u <= weight t).
Proof.
  intros Hbest Hs. revert best Hbest. induction Hs as [|b s Hb Hs IH]; intros best Hbest; simpl.
  - exists best. split; [done|]. split; [auto|]. intros u [->|Hu]; [|by apply elem_of_nil in Hu]. exists u. split; [done|lia].
  - destruct (heaviestTipSet_wf b Hb) as (t & -> & Hin & Ht & Hmax). simpl.
    destruct best as [bt|]; simpl.
    + rewrite !ParentWeight_wf by auto. simpl. rewrite big_GreaterThan_ok.
      assert (wf_ts bt) by auto.
      destruct (IH (if weight bt <? weight t then Some t else Some bt)) as (o & -> & Ho & Hu).
      { intros v. destruct (_ <? _); naive_solver. }
      exists o. split; [done|]. split.
      * intros v Hv. destruct (Ho v Hv) as [? [E|?]]; split; [done| |done|set_solver].
        destruct (_ <? _); set_solver.
      * intros v Hv. destruct (Hu (if weight bt <? weight t then t else bt)) as (x & -> & Hx);
          [left; by destruct (_ <? _)|].
        assert (v ∈ concat s \/ weight v <= weight bt \/ weight v <= weight t) as [Hc|Hc].
        { rewrite elem_of_app in Hv. naive_solver lia. }
        { destruct (Hu v (or_intror Hc)) as (x' & [= <-] & ?). eauto. }
        exists x. split; [done|]. revert Hx. zcases; lia.
    + destruct (IH (Some t)) as (o & -> & Ho & Hu); [naive_solver|]. exists o. split; [done|]. split.
      * intros v Hv. destruct (Ho v Hv) as [? [[= ->]|?]]; set_solver.
      * intros v [?|[Hv|Hv]%elem_of_app]; [done| |by apply Hu; right].
        destruct (Hu t (or_introl eq_refl)) as (x & -> & ?). exists x. split; [done|]. apply Hmax in Hv. lia.
Qed.
End bucket_facts.

(** ** The invariant *)

(** [N] bounds the number of workers started so far. *)
Record sm_core (N : Z) (sm : syncManager) : Prop := {
  inv_next : 0 <= nextWorker sm <= N;
  inv_pend : wf_set (pend sm);
  inv_deferred : wf_set (deferred sm);
  inv_buf : Forall wf_slot (buf (recent sm));
  inv_buf_next : length (buf (recent sm)) = RecentSyncBufferSize /\ (next (recent sm) < RecentSyncBufferSize)%nat;
  inv_state : map_Forall (fun id ws => ws_id ws = id /\ 0 <= id < nextWorker sm /\ wf_ts (ws_ts ws)) (state sm);
  inv_workers : (size (state sm) <= MaxSyncWorkers)%nat;
  inv_initial : initialSyncDone sm = false -> (size (state sm) <= 1)%nat;
  inv_history : length (history sm) = SyncWorkerHistory /\ (historyI sm < SyncWorkerHistory)%nat;
}.

(** Before the first worker nothing is synced and the heads are collected. *)
Definition sm_start (sm : syncManager) : Prop :=
  nextWorker sm = 0 ->
  state sm = ∅ /\ initialSyncDone sm = false /\ Forall (fun o => o = None) (buf (recent sm)) /\
  exists hs, heads sm = Some hs /\ map_Forall (fun _ => wf_ts) hs.

Definition sm_inv (N : Z) (sm : syncManager) : Prop := sm_core N sm /\ sm_start sm.

(** No worker was started on a tipset that is covered by the recent buffer. *)
Definition fresh (sm sm' : syncManager) : Prop :=
  forall id ws, state sm' !! id = Some ws -> state sm !! id = None -> synced (recent sm') (ws_ts ws) = false.

Definition wf_event (ev : schedEvent) : Prop :=
  match ev with EvHead head => wf_ts (ph_ts head) | _ => True end.

(** A selecting function changes the two queues at most, and its target is not covered. *)
Definition selects (sm : syncManager) (r : outcome (syncManager * option TipSet)) : Prop :=
  exists p d o, r = Ret (updPend p (updDeferred d sm), o) /\ wf_set p /\ wf_set d /\
    forall t, o = Some t -> wf_ts t /\ synced (recent sm) t = false.

Section handlers.
Context `{Hashing} `{BigOpsOk} `{SyncConfig} `{MapOrderOk}.

Lemma selects_updPend p sm r : selects (updPend p sm) r -> selects sm r.
Proof. done. Qed.

Lemma selects_updDeferred d sm r : selects (updDeferred d sm) r -> selects sm r.
Proof. done. Qed.

Lemma selects_none sm : wf_set (pend sm) -> wf_set (deferred sm) -> selects sm (Ret (sm, None)).
Proof. intros. exists (pend sm), (deferred sm), None. destruct sm. done. Qed.

Lemma selects_some sm t :
  wf_set (pend sm) -> wf_set (deferred sm) -> wf_ts t -> synced (recent sm) t = false -> selects sm (Ret (sm, Some t)).
Proof. intros. exists (pend sm), (deferred sm), (Some t). destruct sm. split; [done|]. naive_solver. Qed.

Lemma rangeState_wf n st : map_Forall (fun _ ws => wf_ts (ws_ts ws)) st -> Forall (fun ws => wf_ts (ws_ts ws)) (rangeState n st).
Proof.
  intros Hst. rewrite rangeState_perm. apply Forall_fmap, Forall_forall. intros [id ws] Hin%elem_of_map_to_list.
  by apply (Hst id).
Qed.

Lemma anyHeavier_wf workers ts :
  Forall (fun ws => wf_ts (ws_ts ws)) workers -> wf_ts ts ->
  anyHeavier workers ts = Ret (existsb (fun ws => weight ts <? weight (ws_ts ws)) workers).
Proof.
  intros Hw Hts. induction Hw as [|ws l Hws Hl IH]; simpl; [done|].
  rewrite isHeavier_wf by done. simpl. by destruct (_ <? _).
Qed.

(** The queues and the workers a selecting function reads. *)
Definition readable (sm : syncManager) : Prop :=
  wf_set (pend sm) /\ wf_set (deferred sm) /\ Forall wf_slot (buf (recent sm)) /\
  map_Forall (fun _ ws => wf_ts (ws_ts ws)) (state sm).

Lemma deferredLoop_ok n sm : readable sm -> (length (deferred sm) <= n)%nat -> selects sm (deferredLoop n sm).
Proof using All.
  revert sm. induction n as [|n IH]; intros sm (Hp & Hd & Hb & Hst) Hn.
  { cbn [deferredLoop]. unfold bucketsEmpty. replace (length (deferred sm)) with 0%nat by lia. by apply selects_none. }
  cbn [deferredLoop]. unfold bucketsEmpty. destruct (Nat.eqb_spec (length (deferred sm)) 0) as [E|E]; [by apply selects_none|].
  destruct (Pop_wf (deferred sm)) as (i & b & -> & Hi & Hwb & Hd'); [done|intros Hnil; by rewrite Hnil in E|]. cbn [mbind outcome_bind].
  destruct (heaviestTipSet_wf b Hwb) as (t & -> & _ & Ht & _). cbn [mbind outcome_bind deref].
  assert (length (delete i (deferred sm)) <= n)%nat as Hlen.
  { pose proof (length_delete (deferred sm) i (mk_is_Some _ _ Hi)). unfold syncBucketSet in *. lia. }
  set (sm1 := updDeferred (delete i (deferred sm)) sm). apply (selects_updDeferred (delete i (deferred sm))). fold sm1.
  assert (readable sm1) as Hr by done.
  assert (forall p, wf_set p -> selects sm1 (deferredLoop n (updPend p sm1))) as Hpend.
  { intros p Hwp. apply (selects_updPend p). apply IH; [|done]. by split. }
  assert (selects sm1 (deferredLoop n sm1)) as Hgo by (by apply IH).
  rewrite Synced_wf by done. cbn [mbind outcome_bind]. destruct (synced (recent sm1) t) eqn:Es; [done|].
  destruct (RelatedToAny_wf (pend sm1) t Hp Ht) as [[] ->]; cbn [mbind outcome_bind].
  { destruct (Insert_wf t (pend sm1) Hp Ht) as (p & -> & Hwp & _). by apply Hpend. }
  pose proof (rangeState_wf (2 + n) (state sm1) Hst) as Hws. destruct (rangeState _ _) as [|ws ?]; [done|].
  apply Forall_cons in Hws as [Hws _]. destruct (Equals _ _); [done|].
  rewrite isHeavier_wf by done. cbn [mbind outcome_bind]. destruct (_ <? _); [done|].
  destruct (Parents_wf t Ht) as [k ->]. cbn [mbind outcome_bind]. case_bool_decide.
  - destruct (Insert_wf t (pend sm1) Hp Ht) as (p & -> & Hwp & _). by apply Hpend.
  - by apply selects_some.
Qed.

Lemma selectDeferred_ok sm : readable sm -> selects sm (selectDeferredSyncTarget sm).
Proof using All. intros. by apply deferredLoop_ok. Qed.

Lemma selectSyncTarget_ok done' sm : wf_ts done' -> readable sm -> selects sm (selectSyncTarget done' sm).
Proof using All.
  intros Hdone (Hp & Hd & Hb & Hst). unfold selectSyncTarget, PopRelated.
  destruct (PopRelated_loop_wf done' None (pend sm)) as (o & rest & -> & Hrest & Ho); [done..|]. cbn [mbind outcome_bind].
  apply (selects_updPend rest). assert (selects (updPend rest sm) (selectDeferredSyncTarget (updPend rest sm))) as Hgo
    by (by apply selectDeferred_ok).
  destruct o as [b|]; [|done]. destruct (heaviestTipSet_wf b (Ho b eq_refl)) as (t & -> & _ & Ht & _). cbn [mbind outcome_bind deref].
  rewrite isHeavier_wf by done. cbn [mbind outcome_bind]. destruct (_ <? _); [done|].
  rewrite anyHeavier_wf by (try apply rangeState_wf; done). cbn [mbind outcome_bind]. destruct (existsb _ _); [done|].
  rewrite Synced_wf by done. cbn [mbind outcome_bind]. destruct (synced _ t) eqn:Es; [done|]. by apply selects_some.
Qed.

Lemma relatedToActive_wf ts workers : wf_ts ts -> exists r, relatedToActive ts workers = Ret r.
Proof.
  intros [k Hk]%Parents_wf. induction workers as [|ws l IH]; simpl; [eauto|].
  destruct (Equals _ _); [eauto|]. rewrite Hk. simpl. case_bool_decide; eauto.
Qed.

(** A head becomes a target only if a worker may be started. *)
Lemma addSyncTarget_ok ts sm :
  wf_ts ts -> readable sm ->
  selects sm (addSyncTarget ts sm) /\
  (forall sm' t, addSyncTarget ts sm = Ret (sm', Some t) ->
    size (state sm) = 0%nat \/
    (initialSyncDone sm = true /\ (size (state sm) < MaxSyncWorkers)%nat /\
     Forall (fun ws => weight (ws_ts ws) <= weight ts) (rangeState 1 (state sm)) /\
     forall u, u ∈ concat (pend sm) -> weight u <= weight ts)).
Proof using All.
  intros Hts (Hp & Hd & Hb & Hst). unfold addSyncTarget.
  assert (selects sm (Ret (sm, None))) as Hnone by (by apply selects_none).
  rewrite Synced_wf by done. cbn [mbind outcome_bind]. destruct (synced _ ts) eqn:Es; [done|].
  destruct (Nat.eqb_spec (size (state sm)) 0) as [E0|E0]; [split; [by apply selects_some|auto]|].
  destruct (relatedToActive_wf ts (rangeState 0 (state sm)) Hts) as [r ->]. cbn [mbind outcome_bind].
  destruct (Insert_wf ts (pend sm) Hp Hts) as (p & Ei & Hwp & _).
  assert (selects sm (Ret (updPend p sm, None))) as Hpend by (apply (selects_updPend p); by apply selects_none).
  destruct r as [[]|]; [rewrite Ei; done|done|].
  destruct (RelatedToAny_wf (pend sm) ts Hp Hts) as [[] ->]; cbn [mbind outcome_bind]; [rewrite Ei; done|].
  rewrite anyHeavier_wf by (try apply rangeState_wf; done). cbn [mbind outcome_bind].
  destruct (existsb _ _) eqn:Eh; [done|]. apply Is_true_false in Eh.
  destruct (Heaviest_loop_wf None (pend sm)) as (ph & Eph & Hph & Hmax); [done..|].
  unfold Heaviest. rewrite Eph. cbn [mbind outcome_bind].
  assert (exists r, match ph with None => Ret false | Some ph => isHeavier ph ts end = Ret r /\
    (r = false -> forall u, u ∈ concat (pend sm) -> weight u <= weight ts)) as (r & -> & Hr).
  { destruct ph as [ph|].
    - rewrite isHeavier_wf by (try done; by apply Hph). eexists. split; [done|]. intros Hl u Hu.
      destruct (Hmax u (or_intror Hu)) as (x & [= <-] & ?). apply Z.ltb_ge in Hl. lia.
    - eexists. split; [done|]. intros _ u Hu. by destruct (Hmax u (or_intror Hu)) as (x & ? & _). }
  cbn [mbind outcome_bind]. destruct r; [done|].
  destruct (negb _ || _) eqn:Ec.
  - destruct (Insert_wf ts (deferred sm) Hd Hts) as (d & -> & Hwd & _). cbn [mbind outcome_bind].
    split; [|done]. apply (selects_updDeferred d). by apply selects_none.
  - split; [by apply selects_some|]. intros sm' t [= <- <-]. right.
    apply orb_false_iff in Ec as [Ed Em%Nat.leb_gt]. apply negb_false_iff in Ed.
    split; [done|]. split; [done|]. split; [|auto].
    apply Forall_forall. intros ws Hws. apply Z.ltb_ge. apply not_true_iff_false. intros Hlt. apply Eh.
    apply Is_true_eq_left, existsb_exists. exists ws. by rewrite <- list_elem_of_In.
Qed.

(** ** Events *)

Lemma core_readable N sm : sm_core N sm -> readable sm.
Proof. intros []. split; [done|]. split; [done|]. split; [done|]. eapply map_Forall_impl; [done|]. naive_solver. Qed.

Lemma core_queues N sm p d : sm_core N sm -> wf_set p -> wf_set d -> sm_core N (updPend p (updDeferred d sm)).
Proof. intros [] Hp Hd. by split. Qed.

Lemma core_weaken N M sm : sm_core N sm -> N <= M -> sm_core M sm.
Proof. intros [] HNM. split; try done. lia. Qed.

Lemma state_fresh N sm : sm_core N sm -> state sm !! nextWorker sm = None.
Proof.
  intros []. destruct (state sm !! nextWorker sm) as [ws|] eqn:E; [|done]. apply inv_state0 in E as (_ & ? & _). lia.
Qed.

Lemma spawn_ok N sm t :
  sm_core N sm -> wf_ts t -> N + 1 < 2 ^ 64 -> (size (state sm) < MaxSyncWorkers)%nat ->
  (initialSyncDone sm = false -> size (state sm) = 0%nat) ->
  sm_inv (N + 1) (spawnWorker t sm) /\ size (state (spawnWorker t sm)) = S (size (state sm)).
Proof.
  intros Hc Ht HN Hsize Hinit. pose proof (state_fresh N sm Hc) as Hfresh. destruct Hc as [Hnext Hp Hd Hb Hbn Hst Hw Hi Hh].
  assert (nextWorker (spawnWorker t sm) = nextWorker sm + 1) as En by (cbn; apply u64_id; unfold in_u64; lia).
  assert (size (state (spawnWorker t sm)) = S (size (state sm))) as Es by (cbn; by apply map_size_insert_None).
  split; [|done]. split; [|intros ?; lia].
  split; rewrite ?En, ?Es; cbn [pend deferred recent initialSyncDone history historyI spawnWorker]; try done; try lia.
  - cbn [state spawnWorker]. apply map_Forall_insert_2; [simpl; split; [done|]; split; [lia|done]|].
    eapply map_Forall_impl; [done|]. cbn beta. intros id ws (? & ? & ?). split; [done|]. split; [lia|done].
  - intros Hdone. by rewrite Hinit.
Qed.

(** What a handler that ends in [maybeSpawn] gives, when a worker may be started. *)
Lemma selects_spawn N sm r :
  sm_core N sm -> selects sm r -> N + 1 < 2 ^ 64 -> nextWorker sm <> 0 ->
  (forall sm' t, r = Ret (sm', Some t) ->
    (size (state sm) < MaxSyncWorkers)%nat /\ (initialSyncDone sm = false -> size (state sm) = 0%nat)) ->
  exists sm', (x ← r; Ret (maybeSpawn x)) = Ret sm' /\ sm_inv (N + 1) sm' /\ recent sm' = recent sm /\ fresh sm sm'.
Proof.
  intros Hc (p & d & o & -> & Hp & Hd & Ho) HN Hn Hok. cbn [mbind outcome_bind].
  pose proof (core_queues N sm p d Hc Hp Hd) as Hc'. eexists. split; [done|].
  destruct o as [t|]; cbn [maybeSpawn].
  - destruct (Ho t eq_refl) as [Ht Hs]. destruct (Hok _ _ eq_refl) as [Hs1 Hs2].
    destruct (spawn_ok N _ t Hc' Ht HN) as [Hinv _]; [done..|]. split; [done|]. split; [done|].
    intros id ws. cbn [spawnWorker state recent updPend updDeferred].
    destruct (decide (id = nextWorker sm)) as [->|Hne].
    + rewrite lookup_insert_eq. by intros [= <-] _.
    + rewrite lookup_insert_ne by done. congruence.
  - split; [|split; [done|]].
    + split; [eapply core_weaken; [done|lia]|]. by intros E.
    + intros id ws. cbn. congruence.
Qed.

Lemma peer_head_ok N sm head :
  sm_inv N sm -> wf_ts (ph_ts head) -> N + 1 < 2 ^ 64 -> nextWorker sm <> 0 ->
  exists sm', handlePeerHead head sm = Ret sm' /\ sm_inv (N + 1) sm' /\ fresh sm sm'.
Proof using All.
  intros [Hc _] Hts HN Hn. unfold handlePeerHead. rewrite (proj2 (Z.eqb_neq _ _) Hn).
  destruct (addSyncTarget_ok (ph_ts head) sm Hts (core_readable N sm Hc)) as [Hsel Hok].
  destruct (selects_spawn N sm _ Hc Hsel HN Hn) as (sm' & -> & ? & _ & ?); [|eauto].
  intros sm' t Hr. destruct (Hok sm' t Hr) as [->|(Hdone & Hlt & _)]; [unfold MaxSyncWorkers; split; [lia|done]|].
  split; [done|]. congruence.
Qed.

Lemma insertAll_wf l s :
  wf_set s -> Forall wf_ts l ->
  exists s', insertAll s l = Ret s' /\ wf_set s' /\ (l <> [] \/ s <> [] -> s' <> []).
Proof.
  intros Hs Hl. revert s Hs. induction Hl as [|t l Ht Hl IH]; intros s Hs; [naive_solver|].
  simpl. destruct (Insert_wf t s Hs Ht) as (s1 & -> & Hs1 & Hne).
  destruct (IH s1 Hs1) as (s2 & Es2 & ? & Hne'). simpl. rewrite Es2. eauto 10.
Qed.

Lemma Heaviest_wf s :
  wf_set s -> s <> [] ->
  exists t, Heaviest s = Ret (Some t) /\ wf_ts t /\ t ∈ concat s /\ forall u, u ∈ concat s -> weight u <= weight t.
Proof.
  intros Hs Hne. destruct (Heaviest_loop_wf None s) as (o & Eo & Ho & Hmax); [done..|].
  destruct s as [|[|u b] s]; [done|by apply Forall_cons in Hs as [[? _] _]|].
  destruct (Hmax u) as (t & -> & _); [right; simpl; left|].
  exists t. split; [done|]. destruct (Ho t eq_refl) as [? [?|?]]; [done|]. split; [done|]. split; [done|].
  intros v Hv. by destruct (Hmax v (or_intror Hv)) as (? & [= <-] & ?).
Qed.

(** The heads that are collected, and the target selected from them. *)
Lemma selectInitial_ok sm hs :
  heads sm = Some hs -> map_Forall (fun _ => wf_ts) hs -> hs <> ∅ ->
  exists s t, insertAll [] (sortSlice (fun t u => height t <? height u) (rangeHeads hs)) = Ret s /\
    selectInitialSyncTarget sm = Ret (updHeads None sm, Some t) /\
    wf_ts t /\ t ∈ concat s /\ forall u, u ∈ concat s -> weight u <= weight t.
Proof using All.
  intros Eh Hhs Hne. unfold selectInitialSyncTarget. rewrite Eh. cbv beta iota zeta.
  set (l := sortSlice _ _). assert (l ≡ₚ (map_to_list hs).*2) as Hl
    by (unfold l; by rewrite sortSlice_perm, rangeHeads_perm).
  assert (Forall wf_ts l) as Hf.
  { rewrite Hl. apply Forall_fmap, Forall_forall. intros [p t] Hin%elem_of_map_to_list. by apply (Hhs p). }
  destruct (insertAll_wf l [] ltac:(constructor) Hf) as (s & Es & Hs & Hsne).
  destruct (Heaviest_wf s Hs) as (t & Et & ?).
  { apply Hsne. left. intros E. rewrite E in Hl. apply Permutation_nil_l in Hl.
    symmetry in Hl. apply fmap_nil_inv, map_to_list_empty_iff in Hl. done. }
  exists s, t. rewrite Es. cbn [mbind outcome_bind]. by rewrite Et.
Qed.

Lemma synced_none sb ts : Forall (fun o => o = None) (buf sb) -> synced sb ts = false.
Proof. unfold synced. induction 1 as [|o l -> _ IH]; [done|]. exact IH. Qed.

Lemma initial_head_ok N sm head :
  sm_inv N sm -> wf_ts (ph_ts head) -> N + 1 < 2 ^ 64 -> nextWorker sm = 0 ->
  exists sm', handlePeerHead head sm = Ret sm' /\ sm_inv (N + 1) sm' /\ fresh sm sm'.
Proof using All.
  intros [Hc Hs] Hts HN Hn. destruct (Hs Hn) as (Est & Edone & Hrec & hs & Ehs & Hhs).
  unfold handlePeerHead. rewrite Hn, Ehs. cbn [Z.eqb].
  set (hs' := <[ph_p head := ph_ts head]> hs).
  assert (map_Forall (fun _ => wf_ts) hs') as Hhs' by (by apply map_Forall_insert_2).
  assert (sm_core N (updHeads (Some hs') sm)) as Hc1 by (destruct Hc; by split).
  destruct (_ <? _).
  { eexists. split; [done|]. split; [split; [eapply core_weaken; [done|lia]|]|].
    - intros _. cbn. eauto 6.
    - intros id ws. cbn. congruence. }
  destruct (selectInitial_ok (updHeads (Some hs') sm) hs') as (s & t & _ & -> & Ht & _); [done|done|apply insert_non_empty|].
  cbn [mbind outcome_bind deref]. eexists. split; [done|].
  assert (sm_core N (updHeads None (updHeads (Some hs') sm))) as Hc2 by (destruct Hc; by split).
  destruct (spawn_ok N _ t Hc2 Ht HN) as [Hinv _]; cbn [state updHeads]; rewrite ?Est, ?map_size_empty; [unfold MaxSyncWorkers; lia|done|].
  split; [done|]. intros id ws _ _. cbn. by apply synced_none.
Qed.

Lemma Push_wf ts sb :
  Forall wf_slot (buf sb) -> wf_ts ts -> length (buf sb) = RecentSyncBufferSize -> (next sb < RecentSyncBufferSize)%nat ->
  exists sb', Push ts sb = Ret sb' /\ Forall wf_slot (buf sb') /\ length (buf sb') = RecentSyncBufferSize /\
    (next sb' < RecentSyncBufferSize)%nat.
Proof.
  intros Hb Ht El Hn. unfold Push. rewrite El, decide_True by done. eexists. split; [done|].
  cbn [buf next]. rewrite length_insert. split; [|split; [done|]].
  - apply Forall_insert; [done|]. by intros ? [= <-].
  - apply Nat.mod_upper_bound. done.
Qed.

(** The manager after a finished worker is removed and its tipset recorded. *)
Lemma retire_ok N sm id ws :
  sm_core N sm -> state sm !! id = Some ws ->
  exists sm', retire id sm = Ret sm' /\ sm_core N sm' /\ state sm' = delete id (state sm) /\
    recent sm' = recent sm /\ initialSyncDone sm' = initialSyncDone sm /\ nextWorker sm' = nextWorker sm /\
    S (size (state sm')) = size (state sm).
Proof.
  intros [Hnext Hp Hd Hb Hbn Hst Hw Hi [Hh Hhi]] Hid. unfold retire. rewrite Hh, decide_True by done.
  assert (S (size (delete id (state sm))) = size (state sm)) as Es.
  { rewrite map_size_delete_Some by eauto. destruct (size (state sm)) eqn:E; [|done].
    apply map_size_empty_inv in E. by rewrite E in Hid. }
  eexists. split; [done|]. split; [|done].
  split; cbn [nextWorker pend deferred recent state initialSyncDone history historyI]; try done; try lia.
  - by apply map_Forall_delete.
  - intros Hdone%Hi. lia.
  - rewrite length_insert. split; [done|]. apply Nat.mod_upper_bound. done.
Qed.

Lemma worker_status_ok N sm id ws err :
  sm_core N sm -> state sm !! id = Some ws -> N + 1 < 2 ^ 64 -> nextWorker sm <> 0 ->
  exists sm', handleWorkerStatus {| st_id := id; st_err := err |} sm = Ret sm' /\ sm_inv (N + 1) sm' /\ fresh sm sm'.
Proof using All.
  intros Hc Hid HN Hn. unfold handleWorkerStatus. cbn [st_id st_err]. rewrite Hid.
  destruct (inv_state _ _ Hc _ _ Hid) as (_ & _ & Hts).
  destruct (retire_ok N sm id ws Hc Hid) as (sm1 & -> & Hc1 & Es1 & Er1 & Ed1 & En1 & Esz). cbn [mbind outcome_bind].
  assert (exists sm2, match err with
      | Some _ => Ret sm1
      | None => r ← Push (ws_ts ws) (recent sm1);
          Ret (updDone r (initialSyncDone sm1 || (ws_dt ws <? InitialSyncTimeThreshold)) sm1)
      end = Ret sm2 /\ sm_core N sm2 /\ state sm2 = state sm1 /\ nextWorker sm2 = nextWorker sm1 /\
      (initialSyncDone sm2 = false -> initialSyncDone sm1 = false)) as (sm2 & -> & Hc2 & Es2 & En2 & Ed2).
  { destruct err; [eauto 10|]. pose proof (inv_buf _ _ Hc1). destruct (inv_buf_next _ _ Hc1).
    destruct (Push_wf (ws_ts ws) (recent sm1)) as (sb & -> & ? & ? & ?); [done..|]. cbn [mbind outcome_bind].
    eexists. split; [done|]. split; [|split; [done|]; split; [done|]; cbn; by intros [? _]%orb_false_iff].
    destruct Hc1. split; cbn; try done. intros [? _]%orb_false_iff. auto. }
  cbn [mbind outcome_bind].
  assert (nextWorker sm2 <> 0) as Hn2 by congruence.
  pose proof (selectSyncTarget_ok (ws_ts ws) sm2 Hts (core_readable N sm2 Hc2)) as Hsel.
  destruct (selects_spawn N sm2 _ Hc2 Hsel HN Hn2) as (sm3 & -> & Hinv & Er & Hf).
  { intros _ _ _. pose proof (inv_workers _ _ Hc). rewrite Es2. split; [lia|].
    intros Hd. pose proof (inv_initial _ _ Hc). rewrite <- Ed1 in *. apply Ed2 in Hd. rewrite Hd in *. lia. }
  exists sm3. split; [done|]. split; [done|]. intros id' ws' Hid' Hnone. apply (Hf id' ws' Hid').
  rewrite Es2, Es1. rewrite lookup_delete_None. by right.
Qed.

Lemma initialSyncDone_loop_ok n N sm :
  sm_inv N sm -> nextWorker sm <> 0 -> initialSyncDone sm = true -> N + Z.of_nat n < 2 ^ 64 ->
  (MaxSyncWorkers <= size (state sm) + n)%nat ->
  exists sm', handleInitialSyncDone_loop n sm = Ret sm' /\ sm_inv (N + Z.of_nat n) sm' /\
    recent sm' = recent sm /\ state sm ⊆ state sm' /\ fresh sm sm'.
Proof using All.
  revert N sm. induction n as [|n IH]; intros N sm [Hc Hs] Hn Hdone HN Hsz; cbn [handleInitialSyncDone_loop].
  { destruct (Nat.ltb_spec (size (state sm)) MaxSyncWorkers); [lia|]. eexists. split; [done|].
    split; [split; [eapply core_weaken; [done|lia]|done]|]. split; [done|]. split; [done|]. intros id ws. congruence. }
  destruct (Nat.ltb_spec (size (state sm)) MaxSyncWorkers) as [Hlt|Hge].
  2:{ eexists. split; [done|]. split; [split; [eapply core_weaken; [done|lia]|done]|]. split; [done|]. split; [done|]. intros id ws. congruence. }
  destruct (selectDeferred_ok sm (core_readable N sm Hc)) as (p & d & o & -> & Hp & Hd & Ho). cbn [mbind outcome_bind].
  pose proof (core_queues N sm p d Hc Hp Hd) as Hc'. destruct o as [t|].
  - destruct (Ho t eq_refl) as [Ht Hsy]. destruct (spawn_ok N _ t Hc' Ht) as [Hinv Es]; [lia|done|cbn; congruence|].
    set (sm1 := spawnWorker _ _) in *. assert (recent sm1 = recent sm) as Er by done.
    destruct (IH (N + 1) sm1 Hinv) as (sm' & -> & Hinv' & Er' & Hsub & Hf); [|done|lia|change (size (state sm1) = S (size (state sm))) in Es; lia|].
    { destruct Hinv as [Hc1 _]. subst sm1. cbn. destruct (inv_next _ _ Hc). rewrite u64_id by (unfold in_u64; lia). lia. }
    exists sm'. split; [done|]. split; [by replace (N + Z.of_nat (S n)) with (N + 1 + Z.of_nat n) by lia|].
    split; [congruence|]. split; [etrans; [|done]; apply insert_subseteq; by apply (state_fresh N)|].
    intros id ws Hid Hnone. destruct (state sm1 !! id) as [ws1|] eqn:E1; [|by apply (Hf id)].
    assert (ws = ws1) as -> by (apply (lookup_weaken _ _ _ _ E1) in Hsub; congruence).
    rewrite Er', Er. revert E1. subst sm1. cbn. rewrite lookup_insert_Some. naive_solver.
  - eexists. split; [done|]. split; [split; [eapply core_weaken; [done|lia]|by intros E]|]. split; [done|].
    split; [done|]. intros id ws. cbn. congruence.
Qed.

(** ** One event *)

Lemma set_dt_core N sm id ws :
  sm_core N sm -> state sm !! id = Some ws -> forall dt,
  sm_core N {| nextWorker := nextWorker sm; pend := pend sm; deferred := deferred sm; heads := heads sm;
    recent := recent sm; initialSyncDone := initialSyncDone sm;
    state := <[id := {| ws_id := ws_id ws; ws_ts := ws_ts ws; ws_dt := dt |}]> (state sm);
    history := history sm; historyI := historyI sm; ticker := ticker sm |}.
Proof.
  intros [Hnext Hp Hd Hb Hbn Hst Hw Hi Hh] Hid dt.
  assert (size (<[id := {| ws_id := ws_id ws; ws_ts := ws_ts ws; ws_dt := dt |}]> (state sm)) = size (state sm)) as Es
    by (apply map_size_insert_Some; eauto).
  split; cbn [nextWorker pend deferred recent state initialSyncDone history historyI]; rewrite ?Es; try done.
  apply map_Forall_insert_2; [|done]. apply (Hst id ws Hid).
Qed.

Lemma step_ok N sm ev r :
  sm_inv N sm -> wf_event ev -> N + 5 < 2 ^ 64 -> scheduler ev sm = Some r ->
  exists sm', r = Ret sm' /\ sm_inv (N + 5) sm' /\ fresh sm sm'.
Proof using All.
  assert (forall M K sm', sm_inv M sm' -> M <= K -> sm_inv K sm') as Hweak
    by (intros M K sm' [Hc Hs] HMK; split; [by eapply core_weaken|done]).
  intros Hinv Hev HN. destruct ev as [head|id err dt|]; cbn [scheduler].
  - intros [= <-]. destruct (decide (nextWorker sm = 0)).
    + destruct (initial_head_ok N sm head) as (sm' & -> & ? & ?); [done|done|lia|done|]. eauto 6 with lia.
    + destruct (peer_head_ok N sm head) as (sm' & -> & ? & ?); [done|done|lia|done|]. eauto 6 with lia.
  - destruct (state sm !! id) as [ws|] eqn:Hid; [|done]. cbn [mbind option_bind worker]. intros [= <-].
    destruct Hinv as [Hc Hs]. assert (ws_id ws = id) as Eid by apply (inv_state _ _ Hc _ _ Hid).
    pose proof (set_dt_core N sm id ws Hc Hid dt) as Hc'. rewrite Eid in Hc' |- *.
    eapply worker_status_ok in Hc' as (sm' & -> & Hi & Hf); [..|lia|].
    + exists sm'. split; [done|]. split; [eapply Hweak; [done|lia]|].
      intros id' ws' Hid' Hnone. apply (Hf id' ws' Hid'). cbn. rewrite lookup_insert_ne; [done|]. congruence.
    + cbn. apply lookup_insert_eq.
    + cbn. intros En. destruct (Hs En) as [E _]. by rewrite E in Hid.
  - destruct (ticker sm); [|done]. intros [= <-]. unfold handleTick. destruct (initialSyncDone sm) eqn:Ed.
    + unfold handleInitialSyncDone. destruct Hinv as [Hc Hs].
      assert (nextWorker sm <> 0) as Hn by (intros E; destruct (Hs E) as (_ & ? & _); congruence).
      assert (sm_inv N (updTicker false sm)) as Hinv by (split; [destruct Hc; by split|done]).
      destruct (initialSyncDone_loop_ok MaxSyncWorkers N (updTicker false sm) Hinv) as (sm' & -> & ? & _ & _ & ?);
        [done|done|unfold MaxSyncWorkers; lia|lia|]. eauto.
    + exists sm. split; [done|]. split; [eapply Hweak; [done|lia]|]. intros id ws. congruence.
Qed.
End handlers.
