(* ===== verification/SyncRuns.v ===== *)
(** * Runs of the chain sync manager

    The theorems about the manager: its safety over every sequence of events, the choice of
    targets, and the buffer of recently synced tipsets as the window of the last ones. *)

From S2P Require Import Prelude TipSet SyncManager SyncManagerProps.

#[local] Arguments Equals : simpl never.
#[local] Arguments Key : simpl never.

(** ** Runs of the scheduler

    Each event may range over maps in its own order. *)
Inductive sm_reach `{Hashing} `{BigOps} `{SyncConfig} : nat -> syncManager -> Prop :=
| reach_start : sm_reach 0 NewSyncManager
| reach_event n sm (o : MapOrder) ev sm' :
    sm_reach n sm -> MapOrderOk -> wf_event ev -> scheduler ev sm = Some (Ret sm') -> sm_reach (S n) sm'.

(** Fewer events than would make the worker counter wrap. *)
Definition short_run (n : nat) : Prop := 5 * (Z.of_nat n + 1) < 2 ^ 64.

(** All the tipsets pushed, oldest first. *)
Fixpoint pushAll (l : list TipSet) (sb : syncBuffer) : outcome syncBuffer :=
  match l with
  | [] => Ret sb
  | ts :: l => sb' ← Push ts sb; pushAll l sb'
  end.

(** [sb] holds the last tipsets of [l]: that at position [k] in slot [k mod size]. *)
Definition ring (size : nat) (l : list TipSet) (sb : syncBuffer) : Prop :=
  length (buf sb) = size /\ next sb = (length l mod size)%nat /\
  (forall k, (k < length l <= k + size)%nat -> buf sb !! (k mod size)%nat = Some (l !! k)) /\
  (forall i, (length l <= i < size)%nat -> buf sb !! i = Some None).

Section runs.
Context `{Hashing} `{BigOpsOk} `{SyncConfig}.

Lemma init_inv : sm_inv 0 NewSyncManager.
Proof.
  split.
  - split; cbn [nextWorker pend deferred recent state initialSyncDone history historyI NewSyncManager];
      rewrite ?map_size_empty; try done; try lia; try (by constructor).
    + by apply Forall_replicate.
    + split; [done|]. apply Nat.lt_0_succ.
    + split; [done|]. apply Nat.lt_0_succ.
  - intros _. cbn. split; [done|]. split; [done|]. split; [repeat constructor|]. eexists. split; [done|]. done.
Qed.

Lemma reach_inv n sm : sm_reach n sm -> short_run n -> sm_inv (5 * Z.of_nat n) sm.
Proof using All.
  unfold short_run. induction 1 as [|n sm o ev sm' Hr IH Ho Hev Hs]; intros HN; [apply init_inv|].
  destruct (step_ok (5 * Z.of_nat n) sm ev (Ret sm')) as (sm'' & [= <-] & Hinv & _); [apply IH; lia|done|lia|done|].
  by replace (5 * Z.of_nat (S n)) with (5 * Z.of_nat n + 5) by lia.
Qed.

(** ** The ring of recent tipsets *)

Lemma mod_window k m size : (k < m < k + size)%nat -> (k mod size)%nat <> (m mod size)%nat.
Proof.
  intros Hk E. pose proof (Nat.div_mod k size ltac:(lia)). pose proof (Nat.div_mod m size ltac:(lia)).
  destruct (decide (m / size <= k / size)%nat); nia.
Qed.

Lemma ring_push size l sb ts :
  (0 < size)%nat -> ring size l sb -> exists sb', Push ts sb = Ret sb' /\ ring size (l ++ [ts]) sb'.
Proof.
  intros Hs (El & En & Hw & He). unfold Push. rewrite El, En.
  pose proof (Nat.mod_upper_bound (length l) size ltac:(lia)) as Hlt. rewrite decide_True by done.
  eexists. split; [done|]. unfold ring. cbn [buf next]. rewrite length_insert, length_app. cbn [length].
  split; [done|]. split; [by rewrite Nat.Div0.add_mod_idemp_l|]. split.
  - intros k Hk. destruct (decide (k = length l)) as [->|Hne].
    + rewrite list_lookup_insert_eq by lia. by rewrite list_lookup_middle.
    + rewrite list_lookup_insert_ne by (symmetry; apply mod_window; lia).
      rewrite Hw by lia. by rewrite lookup_app_l by lia.
  - intros i Hi. rewrite list_lookup_insert_ne by (rewrite Nat.mod_small; lia). apply He. lia.
Qed.

Lemma ring_pushAll size l l0 sb :
  (0 < size)%nat -> ring size l0 sb -> exists sb', pushAll l sb = Ret sb' /\ ring size (l0 ++ l) sb'.
Proof.
  intros Hs. revert l0 sb. induction l as [|ts l IH]; intros l0 sb Hr; simpl.
  - exists sb. by rewrite app_nil_r.
  - destruct (ring_push size l0 sb ts Hs Hr) as (sb' & -> & Hr'). simpl.
    destruct (IH _ _ Hr') as (sb'' & ? & Hr''). exists sb''. split; [done|]. by rewrite <- (assoc_L (++)) in Hr''.
Qed.

Lemma ring_elems size l sb rts :
  (0 < size)%nat -> ring size l sb -> Some rts ∈ buf sb <-> rts ∈ drop (length l - size) l.
Proof.
  intros Hs (El & _ & Hw & He). rewrite !list_elem_of_lookup. split.
  - intros [i Hi]. assert (i < size)%nat as Hlt by (rewrite <- El; by eapply lookup_lt_Some).
    destruct (decide (length l <= i)%nat) as [Hge|Hge]; [rewrite He in Hi by lia; congruence|].
    set (q := ((length l - 1 - i) / size)%nat).
    pose proof (Nat.div_mod (length l - 1 - i) size ltac:(lia)) as Hq.
    pose proof (Nat.mod_upper_bound (length l - 1 - i) size ltac:(lia)). fold q in Hq.
    assert ((i + q * size) mod size = i)%nat as Em by (rewrite Nat.Div0.mod_add; by apply Nat.mod_small).
    pose proof (Hw (i + q * size)%nat ltac:(lia)) as Hk. rewrite Em, Hi in Hk.
    exists (i + q * size - (length l - size))%nat. rewrite lookup_drop.
    replace (_ + _)%nat with (i + q * size)%nat by lia. congruence.
  - intros [j Hj]. rewrite lookup_drop in Hj. apply lookup_lt_Some in Hj as Hlt.
    exists ((length l - size + j) mod size)%nat. rewrite Hw by lia. by rewrite Hj.
Qed.

Lemma ring_synced size l sb ts :
  (0 < size)%nat -> ring size l sb -> synced sb ts = existsb (fun rts => covers rts ts) (drop (length l - size) l).
Proof.
  intros Hs Hr. apply eq_true_iff_eq. unfold synced. rewrite !existsb_exists. split.
  - intros ([rts|] & Hin & Hc); [|done]. exists rts. split; [|done].
    apply list_elem_of_In. by apply (ring_elems size l sb), list_elem_of_In.
  - intros (rts & Hin & Hc). exists (Some rts). split; [|done].
    apply list_elem_of_In. by apply (ring_elems size l sb), list_elem_of_In.
Qed.

Lemma ring_new size : ring size [] (newSyncBuffer size).
Proof.
  unfold ring, newSyncBuffer. cbn [buf next length]. rewrite length_replicate. split; [done|].
  split; [by rewrite Nat.Div0.mod_0_l|]. split; [intros; lia|]. intros i Hi. apply lookup_replicate. by split; [|lia].
Qed.

(** ** Buckets without coalescing *)

Context (Hplain : coalesceTipsets = false).

Lemma bucket_add_plain ts b :
  bucket_add ts b = Ret (if existsb (fun t => Equals (Some t) (Some ts)) b then b else b ++ [ts]).
Proof using Hplain.
  induction b as [|t b IH]; [done|]. cbn [bucket_add existsb]. destruct (Equals _ _); [done|].
  unfold mergeable. rewrite Hplain. cbn [andb mbind outcome_bind orb]. rewrite IH. by destruct (existsb _ _).
Qed.

(** The set holds [ts] or a tipset equal to it, and otherwise what it held. *)
Definition inserted (s s' : syncBucketSet) (ts : TipSet) : Prop :=
  (forall u, u ∈ concat s' -> u = ts \/ u ∈ concat s) /\ (forall u, u ∈ concat s -> u ∈ concat s') /\
  exists u, u ∈ concat s' /\ (u = ts \/ Equals (Some u) (Some ts) = true).

Lemma Insert_plain ts s s' : Insert ts s = Ret s' -> inserted s s' ts.
Proof using Hplain.
  unfold inserted. revert s'. induction s as [|b s IH]; intros s' Hi; cbn [Insert] in Hi.
  { injection Hi as <-. cbn. split; [intros u ->%list_elem_of_singleton; by left|].
    split; [by intros u ?%elem_of_nil|]. exists ts. split; [by apply list_elem_of_singleton|by left]. }
  destruct (sameChainAs b ts) as [[]| |]; cbn [mbind outcome_bind] in Hi; try done.
  - rewrite bucket_add_plain in Hi. injection Hi as <-. cbn [concat].
    destruct (existsb _ b) eqn:E.
    + split; [auto|]. split; [auto|]. apply existsb_exists in E as (t & Hin%list_elem_of_In & Ht).
      exists t. split; [apply elem_of_app; by left|by right].
    + split; [|split].
      * intros u. rewrite !elem_of_app, list_elem_of_singleton. tauto.
      * intros u. rewrite !elem_of_app. tauto.
      * exists ts. rewrite !elem_of_app, list_elem_of_singleton. tauto.
  - destruct (Insert ts s) as [s1| |]; cbn [mbind outcome_bind] in Hi; try done. injection Hi as <-. cbn [concat].
    destruct (IH s1 eq_refl) as (Hnew & Hold & u & Hu & Hu').
    setoid_rewrite elem_of_app. split; [|split].
    + intros v [?|?%Hnew]; tauto.
    + intros v [?|?%Hold]; tauto.
    + exists u. tauto.
Qed.

Lemma insertAll_plain l s s' :
  insertAll s l = Ret s' ->
  (forall u, u ∈ concat s' -> u ∈ l \/ u ∈ concat s) /\ (forall u, u ∈ concat s -> u ∈ concat s') /\
  forall t, t ∈ l -> exists u, u ∈ concat s' /\ (u = t \/ Equals (Some u) (Some t) = true).
Proof using Hplain.
  revert s. induction l as [|t l IH]; intros s Hi; cbn [insertAll] in Hi.
  { injection Hi as <-. split; [auto|]. split; [auto|]. by intros t ?%elem_of_nil. }
  destruct (Insert t s) as [s1| |] eqn:E; cbn [mbind outcome_bind] in Hi; try done.
  destruct (Insert_plain _ _ _ E) as (Hnew & Hold & u & Hu & Hu'). destruct (IH s1 Hi) as (Hnew' & Hold' & Hall).
  setoid_rewrite elem_of_cons. split; [|split].
  - intros v [?|[?|?]%Hnew]%Hnew'; tauto.
  - auto.
  - intros v [->|Hv]; [|by apply Hall]. exists u. split; [by apply Hold'|done].
Qed.
End runs.

Section more_facts.
Context `{Hashing} `{BigOpsOk} `{SyncConfig}.

Lemma ring_slots size l sb : (0 < size)%nat -> Forall wf_ts l -> ring size l sb -> Forall wf_slot (buf sb).
Proof.
  intros Hs Hl Hr. apply Forall_forall. intros o Ho t ->. apply (ring_elems size l sb t Hs Hr) in Ho.
  rewrite Forall_forall in Hl. apply Hl. rewrite <- (take_drop (length l - size) l). apply elem_of_app. by right.
Qed.

(** The only target [addSyncTarget] gives is the tipset itself. *)
Lemma addSyncTarget_target `{MapOrder} ts sm sm' t : addSyncTarget ts sm = Ret (sm', Some t) -> sm' = sm /\ t = ts.
Proof.
  unfold addSyncTarget, mbind, outcome_bind. intros Ha.
  repeat (case_match; simplify_eq; try done).
Qed.
End more_facts.

(** ** Theorems *)

Section theorems.
Context `{Hashing} `{BigOpsOk} `{SyncConfig}.

(** [C22] In every run of the manager on tipsets that have blocks, whatever the order of the
    events, the results of the workers and the order of map iterations: the next event is
    handled without a panic, at most [MaxSyncWorkers] workers are active, at most one before
    the initial sync is done, the worker ids are those of the map and below [nextWorker], and
    no bucket is empty. *)
Theorem sync_manager_safe n sm :
  sm_reach n sm -> short_run n ->
  (forall (o : MapOrder) ev r, MapOrderOk -> wf_event ev -> scheduler ev sm = Some r -> exists sm', r = Ret sm') /\
  (size (state sm) <= MaxSyncWorkers)%nat /\
  (initialSyncDone sm = false -> (size (state sm) <= 1)%nat) /\
  (forall id ws, state sm !! id = Some ws -> ws_id ws = id /\ 0 <= id < nextWorker sm) /\
  (forall b, b ∈ pend sm ++ deferred sm -> b <> []).
Proof using All.
  intros Hr HN. pose proof (reach_inv n sm Hr HN) as Hinv. pose proof (proj1 Hinv) as [_ Hp Hd _ _ Hst Hw Hi _].
  unfold short_run in HN. split; [|split; [done|split; [done|split]]].
  - intros o ev r Ho Hev Hs. destruct (step_ok _ sm ev r Hinv Hev ltac:(lia) Hs) as (sm' & -> & _). eauto.
  - intros id ws Hid. destruct (Hst id ws Hid) as (? & ? & _). done.
  - unfold wf_set in *. rewrite Forall_forall in Hp, Hd. intros b [Hb|Hb]%elem_of_app; [by apply Hp|by apply Hd].
Qed.

(** Whatever event starts a worker, its target is neither a recently synced tipset nor
    lighter than one. *)
Theorem spawned_targets_unsynced n sm (o : MapOrder) ev sm' id ws :
  sm_reach n sm -> short_run n -> MapOrderOk -> wf_event ev -> scheduler ev sm = Some (Ret sm') ->
  state sm' !! id = Some ws -> state sm !! id = None ->
  forall rts, Some rts ∈ buf (recent sm') -> Equals (Some rts) (Some (ws_ts ws)) = false /\ weight rts <= weight (ws_ts ws).
Proof using All.
  intros Hr HN Ho Hev Hs Hid Hnone rts Hin. pose proof (reach_inv n sm Hr HN) as Hinv. unfold short_run in HN.
  destruct (step_ok _ sm ev (Ret sm') Hinv Hev ltac:(lia) Hs) as (sm'' & [= <-] & _ & Hf).
  pose proof (Hf id ws Hid Hnone) as Hsy. unfold synced in Hsy.
  assert (covers rts (ws_ts ws) = false) as Hc.
  { apply not_true_iff_false. intros Hc. apply not_true_iff_false in Hsy. apply Hsy, existsb_exists.
    exists (Some rts). by rewrite <- list_elem_of_In. }
  apply orb_false_iff in Hc as [? ?%Z.ltb_ge]. done.
Qed.

(** When enough peers have reported a head, the manager starts its first worker on a
    heaviest one of the reported heads and forgets them; before that it only records them.
    (Tipsets are not merged, and those with the same height and CIDs have the same weight.) *)
Theorem initial_target_heaviest n sm hs (o : MapOrder) head :
  coalesceTipsets = false -> sm_reach n sm -> short_run n -> MapOrderOk -> wf_ts (ph_ts head) ->
  nextWorker sm = 0 -> heads sm = Some hs ->
  let hs' := <[ph_p head := ph_ts head]> hs in
  (forall p q t u, hs' !! p = Some t -> hs' !! q = Some u -> Equals (Some t) (Some u) = true -> weight t = weight u) ->
  exists sm', handlePeerHead head sm = Ret sm' /\
    (Z.of_nat (size hs') < BootstrapPeerThreshold -> heads sm' = Some hs' /\ nextWorker sm' = 0 /\ state sm' = ∅) /\
    (BootstrapPeerThreshold <= Z.of_nat (size hs') ->
      heads sm' = None /\ nextWorker sm' = 1 /\
      exists p t, hs' !! p = Some t /\ state sm' = {[ 0 := {| ws_id := 0; ws_ts := t; ws_dt := 0 |} ]} /\
        forall q u, hs' !! q = Some u -> weight u <= weight t).
Proof using All.
  intros Hplain Hr HN Ho Hts Hn Eh hs' Hcons. destruct (reach_inv n sm Hr HN) as [Hc Hs].
  destruct (Hs Hn) as (Est & _ & _ & hs1 & Eh1 & Hhs). assert (hs1 = hs) as -> by congruence.
  assert (map_Forall (fun _ => wf_ts) hs') as Hhs' by (by apply map_Forall_insert_2).
  unfold handlePeerHead. rewrite Hn, Eh. cbn [Z.eqb]. fold hs'.
  destruct (Z.ltb_spec (Z.of_nat (size hs')) BootstrapPeerThreshold) as [Hlt|Hge]; [eexists; split; [done|]; split; [done|lia]|].
  destruct (selectInitial_ok (updHeads (Some hs') sm) hs') as (s & t & Es & -> & Ht & Hin & Hmax);
    [done|done|apply insert_non_empty|]. cbn [mbind outcome_bind deref].
  eexists. split; [done|]. split; [lia|]. intros _. cbn [spawnWorker updHeads heads nextWorker state].
  split; [done|]. split; [by rewrite Hn|].
  destruct (insertAll_plain Hplain _ _ _ Es) as (Hnew & _ & Hall).
  assert (forall u, u ∈ sortSlice (fun t u => height t <? height u) (rangeHeads hs') <-> exists p, hs' !! p = Some u) as Hheads.
  { intros u. rewrite sortSlice_perm, rangeHeads_perm, list_elem_of_fmap. split.
    - intros ([p v] & -> & Hp%elem_of_map_to_list). eauto.
    - intros [p Hp]. exists (p, u). by rewrite elem_of_map_to_list. }
  destruct (Hnew t Hin) as [[p Hp]%Hheads|?%elem_of_nil]; [|done].
  exists p, t. split; [done|]. split; [by rewrite Hn, Est|]. intros q u Hq.
  destruct (Hall u) as (v & Hv & Hvu); [apply Hheads; eauto|].
  pose proof (Hmax v Hv). destruct Hvu as [->|Hvu]; [done|].
  destruct (Hnew v Hv) as [[p' Hp']%Hheads|?%elem_of_nil]; [|done].
  rewrite <- (Hcons p' q v u) by done. done.
Qed.

(** A head that becomes a new worker while others are active is not lighter than any
    active or pending sync, the initial sync is done, and there is room for the worker. *)
Theorem fork_target_heaviest n sm (o : MapOrder) ts sm' t :
  sm_reach n sm -> short_run n -> MapOrderOk -> wf_ts ts ->
  addSyncTarget ts sm = Ret (sm', Some t) -> state sm <> ∅ ->
  t = ts /\ sm' = sm /\ initialSyncDone sm = true /\ (size (state sm) < MaxSyncWorkers)%nat /\
  (forall id ws, state sm !! id = Some ws -> weight (ws_ts ws) <= weight ts) /\
  (forall u, u ∈ concat (pend sm) -> weight u <= weight ts).
Proof using All.
  intros Hr HN Ho Hts Ha Hne. destruct (reach_inv n sm Hr HN) as [Hc _].
  destruct (addSyncTarget_ok ts sm Hts (core_readable _ sm Hc)) as [_ Hok].
  destruct (addSyncTarget_target ts sm sm' t Ha) as [-> ->].
  destruct (Hok sm ts Ha) as [E|(? & ? & Hw & Hp)]; [by apply map_size_empty_inv in E|].
  split; [done|]. split; [done|]. split; [done|]. split; [done|]. split; [|done].
  intros id ws Hid. rewrite rangeState_perm, Forall_forall in Hw. apply Hw, list_elem_of_fmap.
  exists (id, ws). by rewrite elem_of_map_to_list.
Qed.

(** Pushing never panics, and [Synced] answers for the last [size] tipsets pushed. *)
Theorem recent_buffer_window size l ts :
  (0 < size)%nat -> Forall wf_ts l -> wf_ts ts ->
  exists sb, pushAll l (newSyncBuffer size) = Ret sb /\
    Synced sb ts = Ret (existsb (fun rts => Equals (Some rts) (Some ts) || (weight ts <? weight rts))
                          (drop (length l - size) l)).
Proof using All.
  intros Hs Hl Hts. destruct (ring_pushAll size l [] (newSyncBuffer size) Hs (ring_new size)) as (sb & Ep & Hr).
  exists sb. split; [done|]. rewrite Synced_wf; [|apply (ring_slots size l); done|done].
  f_equal. by apply ring_synced.
Qed.

(** With no active worker every deferred target is popped and dropped, though none of them is
    synced or related to a pending one: the comment of [addSyncTarget] promises that deferred
    targets are processed once a worker is freed. *)
Lemma deferred_dropped `{MapOrderOk} sm :
  readable sm -> state sm = ∅ -> pend sm = [] -> selectDeferredSyncTarget sm = Ret (updDeferred [] sm, None).
Proof using All.
  unfold selectDeferredSyncTarget. intros Hr. remember (length (deferred sm)) as n eqn:En. revert sm En Hr.
  induction n as [|n IH]; intros sm En (Hp & Hd & Hb & Hst) Es Epend; cbn [deferredLoop]; unfold bucketsEmpty; rewrite <- En; cbn [Nat.eqb].
  { f_equal. f_equal. symmetry in En. apply nil_length_inv in En. destruct sm; cbn in *. by subst. }
  destruct (Pop_wf (deferred sm)) as (i & b & -> & Hi & Hwb & Hd'); [done|by intros E; rewrite E in En|].
  cbn [mbind outcome_bind]. destruct (heaviestTipSet_wf b Hwb) as (t & -> & _ & Ht & _). cbn [mbind outcome_bind deref].
  pose proof (length_delete (deferred sm) i (mk_is_Some _ _ Hi)) as El.
  assert (deferredLoop n (updDeferred (delete i (deferred sm)) sm) = Ret (updDeferred [] sm, None)) as Hgo.
  { rewrite IH; [done| |done|done|done]. cbn [deferred updDeferred]. unfold syncBucketSet in *. lia. }
  cbn [recent pend state updDeferred]. rewrite Synced_wf by done. cbn [mbind outcome_bind].
  destruct (synced (recent sm) t); [done|]. rewrite Epend. cbn [RelatedToAny mbind outcome_bind].
  assert (rangeState (2 + n) (state sm) = []) as ->; [|done].
  apply Permutation_nil_r. rewrite rangeState_perm, Es. by rewrite map_to_list_empty.
Qed.
End theorems.

(** ** Witnesses *)

Definition demoConfig : SyncConfig := {| BootstrapPeerThreshold := 2; coalesceTipsets := false |}.

Definition demoOrder : MapOrder := {|
  rangeHeads := fun hs => (map_to_list hs).*2;
  rangeState := fun _ st => (map_to_list st).*2;
|}.

Lemma demoOrderOk : @MapOrderOk demoOrder.
Proof. done. Qed.

(** A tipset of one block. *)
Definition demoHead (t h w : Z) : TipSet :=
  let b := {| Miner := "t01000"; BlockTicket := {| VRFProof := [t] |}; ElectionProof := None;
    BeaconEntries := []; WinPoStProof := []; BlockParents := [[1; h - 1]]; BlockParentWeight := w;
    BlockHeight := h; ParentStateRoot := []; ParentReceipts := []; Messages := [];
    BLSAggregate := None; Timestamp := h; BlockSig := None; ForkSignaling := 0; ParentBaseFee := 100;
    validated := false |} in
  {| cids := [[1; t]]; blks := [b]; height := h |}.

Definition demoSched := @scheduler demoHashing ZBig demoConfig demoOrder.

(** The manager after the events [evs]. *)
Fixpoint demoRun (evs : list schedEvent) (sm : syncManager) : option syncManager :=
  match evs with
  | [] => Some sm
  | ev :: evs => match demoSched ev sm with Some (Ret sm') => demoRun evs sm' | _ => None end
  end.

Definition demoEvents : list schedEvent :=
  [EvHead {| ph_p := "a"; ph_ts := demoHead 10 10 5 |};
   EvHead {| ph_p := "b"; ph_ts := demoHead 30 20 9 |};
   EvWorker 0 None 1;
   EvHead {| ph_p := "a"; ph_ts := demoHead 40 30 11 |}].

Definition demoState (n : nat) : syncManager := default NewSyncManager (demoRun (take n demoEvents) NewSyncManager).

Lemma demo_reach_step n sm ev sm' :
  @sm_reach demoHashing ZBig demoConfig n sm -> wf_event ev -> demoSched ev sm = Some (Ret sm') ->
  @sm_reach demoHashing ZBig demoConfig (S n) sm'.
Proof. intros Hr Hev Hs. by eapply (@reach_event demoHashing ZBig demoConfig n sm demoOrder ev). Qed.

Lemma demo_step n ev :
  demoEvents !! n = Some ev -> demoSched ev (demoState n) = Some (Ret (demoState (S n))) /\ wf_event ev.
Proof.
  destruct n as [|[|[|[|n]]]]; intros [= <-]; (split; [vm_compute; reflexivity|by cbn]).
Qed.

Lemma demo_reach n : (n <= 4)%nat -> @sm_reach demoHashing ZBig demoConfig n (demoState n).
Proof.
  induction n as [|n IH]; intros Hn; [exact reach_start|].
  destruct (lookup_lt_is_Some_2 demoEvents n) as [ev Hev]; [cbn; lia|].
  destruct (demo_step n ev Hev). apply (demo_reach_step n (demoState n) ev); [apply IH; lia|done..].
Qed.

Lemma sync_manager_safe_witness : (size (state (demoState 4)) <= MaxSyncWorkers)%nat.
Proof.
  destruct (@sync_manager_safe demoHashing ZBig ZBigOk demoConfig 4 (demoState 4)) as (_ & Hw & _);
    [apply demo_reach; lia|by vm_compute|exact Hw].
Defined.

Lemma spawned_targets_unsynced_witness : weight (demoHead 30 20 9) <= weight (demoHead 40 30 11).
Proof.
  destruct (@spawned_targets_unsynced demoHashing ZBig ZBigOk demoConfig 3 (demoState 3) demoOrder
    (EvHead {| ph_p := "a"; ph_ts := demoHead 40 30 11 |}) (demoState 4) 1
    {| ws_id := 1; ws_ts := demoHead 40 30 11; ws_dt := 0 |}) with (rts := demoHead 30 20 9) as [_ Hw];
    [apply demo_reach; lia|by vm_compute|exact demoOrderOk|by cbn|vm_compute; reflexivity..| |exact Hw].
  apply (list_elem_of_lookup_2 _ 0). vm_compute. reflexivity.
Defined.

Lemma initial_target_heaviest_witness :
  exists sm', @handlePeerHead demoHashing ZBig demoConfig demoOrder {| ph_p := "b"; ph_ts := demoHead 30 20 9 |} (demoState 1) = Ret sm' /\
    nextWorker sm' = 1.
Proof.
  destruct (@initial_target_heaviest demoHashing ZBig ZBigOk demoConfig 1 (demoState 1) {[ "a"%string := demoHead 10 10 5 ]}
    demoOrder {| ph_p := "b"; ph_ts := demoHead 30 20 9 |}) as (sm' & E & _ & Hs);
    [reflexivity|apply demo_reach; lia|by vm_compute|exact demoOrderOk|by cbn|vm_compute; reflexivity..| |].
  - intros p q t u. cbn [ph_p ph_ts]. rewrite !lookup_insert_Some, !lookup_singleton_Some.
    intros [[_ <-]|[_ [_ <-]]] [[_ <-]|[_ [_ <-]]]; vm_compute; done.
  - exists sm'. split; [exact E|]. destruct Hs as (_ & En & _); [by vm_compute|exact En].
Defined.

Lemma fork_target_heaviest_witness : weight (demoHead 40 30 11) <= weight (demoHead 50 31 12).
Proof.
  destruct (@fork_target_heaviest demoHashing ZBig ZBigOk demoConfig 4 (demoState 4) demoOrder
    (demoHead 50 31 12) (demoState 4) (demoHead 50 31 12)) as (_ & _ & _ & _ & Hw & _);
    [apply demo_reach; lia|by vm_compute|exact demoOrderOk|by cbn|vm_compute; reflexivity| |].
  - intros E. assert (size (state (demoState 4)) = 1%nat) as E1 by (vm_compute; reflexivity). by rewrite E in E1.
  - apply (Hw 1 {| ws_id := 1; ws_ts := demoHead 40 30 11; ws_dt := 0 |}). vm_compute. reflexivity.
Defined.

Lemma recent_buffer_window_witness :
  exists sb, pushAll [demoHead 1 1 1; demoHead 2 2 2; demoHead 3 3 3] (newSyncBuffer 2) = Ret sb /\
    @Synced ZBig sb (demoHead 4 4 4) = Ret false.
Proof.
  destruct (@recent_buffer_window demoHashing ZBig ZBigOk demoConfig 2 [demoHead 1 1 1; demoHead 2 2 2; demoHead 3 3 3] (demoHead 4 4 4))
    as (sb & E & Hs); [lia|repeat constructor; by cbn|by cbn|]. exists sb. split; [exact E|exact Hs].
Defined.
