(* ===== verification/Rlp.v ===== *)
(** * RLP: chain/types/ethtypes/rlp.go

    The recursive length prefix code of Ethereum transactions.  A value is a byte string or
    a list of values; a value of another Go type is [RlpOther], which the encoder refuses.
    The decoder recurses on a shorter rest of the input, so its fuel is the length of the
    input. *)

From S2P Require Import Prelude.

Definition maxListElements : nat := 12.

Inductive RlpValue :=
| RlpBytes (data : bytes)
| RlpList (l : list RlpValue)
| RlpOther.

(** ** Encoder *)

Section encode_items.
Variable encode : RlpValue -> outcome bytes.

Fixpoint encodeRLPListItems (list : list RlpValue) : outcome bytes :=
  match list with
  | [] => Ret []
  | elem :: list =>
      encoded ← encode elem;
      res ← encodeRLPListItems list;
      Ret (encoded ++ res)
  end.
End encode_items.

(** The index of the first byte that is not zero, the last index if there is none. *)
Fixpoint firstNonZeroIndex (l : bytes) : nat :=
  match l with
  | [] => 0
  | [_] => 0
  | b :: l => if b =? 0 then S (firstNonZeroIndex l) else 0
  end.

Definition encodeLength (length : Z) : outcome bytes :=
  if length =? 0 then Err "cannot encode length: length should be larger than 0"
  else let buf := be_bytes 8 length in Ret (drop (firstNonZeroIndex buf) buf).

Fixpoint encodeRLP (val : RlpValue) : outcome bytes :=
  match val with
  | RlpBytes data =>
      if (len data =? 1) && (default 0 (head data) <=? 0x7f) then Ret data
      else if len data <=? 55 then Ret (u8 (0x80 + len data) :: data)
      else
        lenInBytes ← encodeLength (len data);
        Ret (u8 (0xb7 + len lenInBytes) :: lenInBytes ++ data)
  | RlpList data =>
      encodedList ← encodeRLPListItems encodeRLP data;
      if len encodedList <=? 55 then Ret (u8 (0xc0 + len encodedList) :: encodedList)
      else
        lenInBytes ← encodeLength (len encodedList);
        Ret (u8 (0xf7 + len lenInBytes) :: lenInBytes ++ encodedList)
  | RlpOther => Err "input data should either be a list or a byte array"
  end.

Definition EncodeRLP (val : RlpValue) : outcome bytes := encodeRLP val.

(** ** Decoder *)

Definition decodeLength (data : bytes) (lenInBytes : Z) : outcome Z :=
  if (len data <? lenInBytes) || (8 <? lenInBytes) then
    Err "invalid rlp data: out of bound while parsing list length"
  else
    prefix ← slice data 0 lenInBytes;
    let decodedLength := i64 (be_val (replicate (Z.to_nat (8 - lenInBytes)) 0 ++ prefix)) in
    if decodedLength <? 0 then Err "invalid rlp data: negative string length"
    else
      let totalLength := i64 (lenInBytes + decodedLength) in
      if (totalLength <? 0) || (len data <? totalLength) then
        Err "invalid rlp data: out of bound while parsing list"
      else Ret decodedLength.

Section decode_elems.
Variable decode : bytes -> outcome (RlpValue * Z).

(** The loop of [decodeListElems], with [n] rounds left. *)
Fixpoint decodeListElems_loop (n : nat) (data : bytes) (length totalConsumed : Z) (result : list RlpValue) :
    outcome (Z * list RlpValue) :=
  match n with
  | O => Ret (totalConsumed, result)
  | S n =>
      if totalConsumed <? length then
        rest ← slice data totalConsumed (len data);
        '(elem, consumed) ← decode rest;
        decodeListElems_loop n data length (i64 (totalConsumed + consumed)) (result ++ [elem])
      else Ret (totalConsumed, result)
  end.

Definition decodeListElems (data : bytes) (length : Z) : outcome (list RlpValue) :=
  '(totalConsumed, result) ← decodeListElems_loop maxListElements data length 0 [];
  if negb (totalConsumed =? length) then Err "invalid rlp data: incorrect list length" else Ret result.
End decode_elems.

Fixpoint decodeRLP (n : nat) (data : bytes) : outcome (RlpValue * Z) :=
  match data with
  | [] => Err "invalid rlp data: data cannot be empty"
  | b :: _ =>
      match n with
      | O => Panic
      | S n =>
          if 0xf8 <=? b then
            let listLenInBytes := b - 0xf7 in
            rest ← slice data 1 (len data);
            listLen ← decodeLength rest listLenInBytes;
            if len data <? i64 (1 + listLenInBytes + listLen) then
              Err "invalid rlp data: out of bound while parsing list"
            else
              rest ← slice data (1 + listLenInBytes) (len data);
              result ← decodeListElems (decodeRLP n) rest listLen;
              Ret (RlpList result, i64 (1 + listLenInBytes + listLen))
          else if 0xc0 <=? b then
            let length := b - 0xc0 in
            rest ← slice data 1 (len data);
            result ← decodeListElems (decodeRLP n) rest length;
            Ret (RlpList result, 1 + length)
          else if 0xb8 <=? b then
            let strLenInBytes := b - 0xb7 in
            rest ← slice data 1 (len data);
            strLen ← decodeLength rest strLenInBytes;
            let totalLen := i64 (1 + strLenInBytes + strLen) in
            if (len data <? totalLen) || (totalLen <? 0) then
              Err "invalid rlp data: out of bound while parsing string"
            else
              str ← slice data (1 + strLenInBytes) totalLen;
              Ret (RlpBytes str, totalLen)
          else if 0x80 <=? b then
            let length := b - 0x80 in
            if len data <? 1 + length then Err "invalid rlp data: out of bound while parsing string"
            else
              str ← slice data 1 (1 + length);
              Ret (RlpBytes str, 1 + length)
          else Ret (RlpBytes [b], 1)
      end
  end.

Definition DecodeRLP (data : bytes) : outcome RlpValue :=
  '(res, consumed) ← decodeRLP (length data) data;
  if negb (consumed =? len data) then Err "invalid rlp data: length, consumed" else Ret res.

(** ** Values that the decoder can produce *)

Fixpoint rlp_ok (v : RlpValue) : Prop :=
  match v with
  | RlpBytes data => Forall is_byte data
  | RlpList l => (length l <= maxListElements)%nat /\ foldr (fun v P => rlp_ok v /\ P) True l
  | RlpOther => False
  end.

Lemma rlp_ok_list l : rlp_ok (RlpList l) <-> (length l <= maxListElements)%nat /\ Forall rlp_ok l.
Proof.
  cbn [rlp_ok]. apply and_iff_compat_l. induction l as [|v l IH]; simpl; [done|]. by rewrite IH, Forall_cons.
Qed.

Lemma rlp_value_ind (P : RlpValue -> Prop) :
  (forall data, P (RlpBytes data)) -> (forall l, Forall P l -> P (RlpList l)) -> P RlpOther -> forall v, P v.
Proof.
  intros Hb Hl Ho. fix IH 1. intros [data|l|]; [apply Hb| |apply Ho].
  apply Hl. induction l as [|v l IHl]; constructor; [apply IH|apply IHl].
Qed.

(** ** Lengths *)

Lemma firstNonZeroIndex_ok l :
  l <> [] -> exists i h t, l = replicate i 0 ++ drop (firstNonZeroIndex l) l /\
    drop (firstNonZeroIndex l) l = h :: t /\ (h <> 0 \/ t = []).
Proof.
  induction l as [|b l IH]; [done|]. intros _. destruct l as [|b' l]; [exists 0%nat; simpl; eauto 6|].
  change (firstNonZeroIndex (b :: b' :: l)) with (if b =? 0 then S (firstNonZeroIndex (b' :: l)) else 0%nat).
  destruct (Z.eqb_spec b 0) as [->|Hb]; [|exists 0%nat; simpl; eauto 6].
  destruct IH as (i & h & t & E & Ed & Hh); [done|]. exists (S i), h, t. cbn [drop]. rewrite Ed in *. split; [|done].
  cbn [replicate app]. by rewrite <- E.
Qed.

(** The bytes of a length, without leading zeros. *)
Lemma encodeLength_ok L :
  0 < L < 9223372036854775808 ->
  exists lb, encodeLength L = Ret lb /\ 1 <= len lb <= 8 /\ Forall is_byte lb /\ be_val lb = L /\
    forall k, 0 <= k -> L < 256 ^ k -> len lb <= k.
Proof.
  intros HL. unfold encodeLength. rewrite (proj2 (Z.eqb_neq L 0)) by lia.
  pose proof (be_bytes_byte 8 L) as Hb. pose proof (be_val_bytes 8 L) as Hv.
  change (256 ^ Z.of_nat 8) with 18446744073709551616 in Hv. rewrite Z.mod_small in Hv by lia.
  pose proof (length_be_bytes 8 L) as Hl. set (buf := be_bytes 8 L) in *. clearbody buf.
  destruct (firstNonZeroIndex_ok buf) as (i & h & t & E & Ed & Hh); [by intros ->|].
  eexists. split; [done|]. rewrite Ed in *. rewrite E in Hb, Hl, Hv. rewrite be_val_zeros in Hv.
  apply Forall_app in Hb as [_ Hb]. rewrite length_app in Hl. simpl in Hl.
  rewrite len_cons. unfold len at 1 2. split; [lia|]. split; [done|]. split; [done|].
  intros k Hk Hlt. destruct Hh as [Hh| ->].
  - apply Forall_cons in Hb as [Hb Ht]. pose proof (be_val_bound t Ht). cbn [be_val] in Hv. unfold is_byte in Hb.
    assert (256 ^ len t < 256 ^ k) as Hpow by nia. apply Z.pow_lt_mono_r_iff in Hpow; lia.
  - change (len (@nil Z)) with 0. destruct (decide (k = 0)) as [->|]; [rewrite Z.pow_0_r in Hlt|]; lia.
Qed.

Lemma decodeLength_ok lb payload L :
  1 <= len lb <= 8 -> Forall is_byte lb -> be_val lb = L -> L <= len payload -> len (lb ++ payload) < 9223372036854775808 ->
  decodeLength (lb ++ payload) (len lb) = Ret L.
Proof.
  intros Hlb Hb Hv HL Hlen. unfold decodeLength. rewrite len_app in *.
  pose proof (len_nonneg payload). pose proof (be_val_bound lb Hb).
  rewrite !(proj2 (Z.ltb_ge _ _)) by lia. cbn [orb].
  rewrite slice_head by done. cbn [mbind outcome_bind].
  rewrite be_val_zeros, Hv. cbv zeta. rewrite !i64_id by (unfold in_i64; lia).
  rewrite !(proj2 (Z.ltb_ge _ _)) by lia. done.
Qed.

(** A length that is read fits in the bytes read and in the data. *)
Lemma decodeLength_inv data k L :
  1 <= k -> Forall is_byte data -> len data < 9223372036854775808 -> decodeLength data k = Ret L ->
  k <= 8 /\ 0 <= L < 256 ^ k /\ k + L <= len data.
Proof.
  intros Hk Hb Hlen. unfold decodeLength. destruct (_ || _) eqn:E; [done|]. apply orb_false_iff in E as [E1%Z.ltb_ge E2%Z.ltb_ge].
  destruct (slice data 0 k) as [pre| |] eqn:Es; cbn [mbind outcome_bind]; try done.
  apply slice_Ret in Es as (_ & _ & Hpre & l1 & l3 & -> & _).
  rewrite !Forall_app in Hb. destruct Hb as (_ & Hb & _). rewrite be_val_zeros. cbv zeta.
  pose proof (be_val_bound pre Hb) as Hv. rewrite Z.sub_0_r in Hpre. rewrite Hpre in Hv.
  pose proof (Z.pow_le_mono_r 256 k 8 ltac:(lia) E2) as Hpow. change (256 ^ 8) with 18446744073709551616 in Hpow.
  destruct (Z.ltb_spec (i64 (be_val pre)) 0) as [|Hnn]; [done|].
  assert (i64 (be_val pre) = be_val pre) as Ei by (unfold i64 in *; zcases; dlia).
  pose proof (i64_range (be_val pre)) as Hr. rewrite Ei in *. unfold in_i64 in Hr. destruct (_ || _) eqn:E; [done|]. apply orb_false_iff in E as [E3%Z.ltb_ge E4%Z.ltb_ge].
  intros [= <-]. split; [done|]. split; [lia|]. clear Ei Hpre. unfold i64 in E3, E4. dlia.
Qed.

(** ** Decoding an encoding *)

Lemma slice_tl {A} (x : A) l : slice (x :: l) 1 (len (x :: l)) = Ret l.
Proof. rewrite len_cons. by apply (slice_tail [x] l). Qed.

Lemma slice_tl_app {A} (x : A) l1 l2 a :
  a = 1 + len l1 -> slice (x :: l1 ++ l2) a (len (x :: l1 ++ l2)) = Ret l2.
Proof. intros ->. rewrite len_cons, len_app. apply (slice_tail (x :: l1) l2); rewrite len_cons; lia. Qed.

(** The three forms of an encoded string, and the two of a list with payload [p]. *)
Lemma encode_bytes_cases data bs :
  len data < 9223372036854775808 -> encodeRLP (RlpBytes data) = Ret bs ->
  (exists b, data = [b] /\ b <= 0x7f /\ bs = data) \/
  (len data <= 55 /\ bs = 0x80 + len data :: data) \/
  (55 < len data /\ exists lb, encodeLength (len data) = Ret lb /\ bs = 0xb7 + len lb :: lb ++ data).
Proof.
  intros Hlen. pose proof (len_nonneg data). cbn [encodeRLP].
  destruct (_ && _) eqn:E.
  { apply andb_true_iff in E as [E1%Z.eqb_eq E2%Z.leb_le]. intros [= <-]. left.
    destruct data as [|b [|? data]]; [done|by exists b|]. rewrite !len_cons in E1. pose proof (len_nonneg data). lia. }
  destruct (Z.leb_spec (len data) 55); [rewrite u8_id by lia; intros [= <-]; auto|].
  destruct (encodeLength_ok (len data)) as (lb & -> & Hlb & _); [lia|]. cbn [mbind outcome_bind].
  rewrite u8_id by lia. intros [= <-]. right. right. split; [done|]. by exists lb.
Qed.

Lemma encode_list_cases l bs :
  encodeRLP (RlpList l) = Ret bs -> exists p, encodeRLPListItems encodeRLP l = Ret p /\
  (len p < 9223372036854775808 ->
    (len p <= 55 /\ bs = 0xc0 + len p :: p) \/
    (55 < len p /\ exists lb, encodeLength (len p) = Ret lb /\ bs = 0xf7 + len lb :: lb ++ p)).
Proof.
  cbn [encodeRLP]. destruct (encodeRLPListItems encodeRLP l) as [p| |]; cbn [mbind outcome_bind]; try done.
  intros Henc. exists p. split; [done|]. intros Hlen. pose proof (len_nonneg p).
  destruct (Z.leb_spec (len p) 55); [rewrite u8_id in Henc by lia; injection Henc as <-; auto|].
  destruct (encodeLength_ok (len p)) as (lb & El & Hlb & _); [lia|]. rewrite El in Henc. cbn [mbind outcome_bind] in Henc.
  rewrite u8_id in Henc by lia. injection Henc as <-. right. split; [done|]. by exists lb.
Qed.

(** The first byte of a long form, and the length after it. *)
Lemma decode_long_length b lb p rest :
  encodeLength (len p) = Ret lb -> 55 < len p -> len (b :: lb ++ p ++ rest) < 9223372036854775808 ->
  1 <= len lb <= 8 /\ decodeLength (lb ++ p ++ rest) (len lb) = Ret (len p).
Proof.
  rewrite len_cons, !len_app. intros El Hp Hlen. pose proof (len_nonneg lb). pose proof (len_nonneg rest).
  destruct (encodeLength_ok (len p)) as (lb' & El' & Hlb & Hb & Hv & _); [lia|]. rewrite El in El'. injection El' as <-.
  split; [done|]. apply decodeLength_ok; rewrite ?len_app; try done; lia.
Qed.

Lemma decode_encode_bytes data bs n rest :
  encodeRLP (RlpBytes data) = Ret bs -> (length bs <= n)%nat -> len data < 9223372036854775808 -> Forall is_byte data ->
  len (bs ++ rest) < 9223372036854775808 -> decodeRLP n (bs ++ rest) = Ret (RlpBytes data, len bs).
Proof.
  intros Henc Hn Hdata Hb Hlen. pose proof (len_nonneg data). pose proof (len_nonneg rest).
  destruct (encode_bytes_cases data bs Hdata Henc) as [(b & -> & Hle & ->)|[[Hs ->]|(Hs & lb & El & ->)]];
    (destruct n as [|n]; [simpl in Hn; lia|]); cbn [app decodeRLP].
  - zdecide. done.
  - cbn [app] in Hlen. rewrite !len_cons, ?len_app in *. zdecide.
    rewrite (slice_mid [128 + len data] data rest) by (rewrite len_cons; change (len (@nil Z)) with 0; lia). cbn [mbind outcome_bind]. do 2 f_equal. lia.
  - cbn [app] in Hlen. rewrite <- (assoc_L (++)) in Hlen |- *.
    destruct (decode_long_length _ lb data rest El Hs Hlen) as [Hlb Hd]. rewrite len_cons, !len_app in Hlen.
    zdecide. rewrite slice_tl. cbn [mbind outcome_bind]. replace (183 + len lb - 183) with (len lb) by lia.
    rewrite Hd. cbn [mbind outcome_bind]. cbv zeta. rewrite i64_id by (unfold in_i64; lia).
    rewrite !len_cons, !len_app. zdecide.
    set (p := 183 + len lb). rewrite (app_comm_cons lb), (slice_mid (p :: lb) data rest) by (rewrite len_cons; lia).
    cbn [mbind outcome_bind]. do 2 f_equal. lia.
Qed.

(** The elements of a list, each of which decodes in front of any rest. *)
Lemma decode_elems_ok (dec : bytes -> outcome (RlpValue * Z)) k items pre p rest acc :
  encodeRLPListItems encodeRLP items = Ret p -> (length items <= k)%nat ->
  len (pre ++ p ++ rest) < 9223372036854775808 ->
  Forall (fun v => forall e rest', encodeRLP v = Ret e -> (length e <= length p)%nat ->
    len (e ++ rest') <= len (p ++ rest) -> dec (e ++ rest') = Ret (v, len e) /\ 0 < len e) items ->
  decodeListElems_loop dec k (pre ++ p ++ rest) (len pre + len p) (len pre) acc = Ret (len pre + len p, acc ++ items).
Proof.
  revert k pre p acc. induction items as [|v items IH]; intros k pre p acc Hp Hk Hlen Hdec; cbn [encodeRLPListItems] in Hp.
  { injection Hp as <-. change (len (@nil Z)) with 0. rewrite Z.add_0_r, app_nil_r.
    destruct k; cbn [decodeListElems_loop]; [done|]. by rewrite Z.ltb_irrefl. }
  destruct (encodeRLP v) as [e| |] eqn:Ee; cbn [mbind outcome_bind] in Hp; try done.
  destruct (encodeRLPListItems encodeRLP items) as [p'| |] eqn:Ep; cbn [mbind outcome_bind] in Hp; try done.
  injection Hp as <-. destruct k as [|k]; [simpl in Hk; lia|]. apply Forall_cons in Hdec as [Hv Hdec].
  rewrite <- (assoc_L (++)) in Hlen |- *. pose proof Hlen as Hlen'. rewrite !len_app in Hlen'.
  pose proof (len_nonneg pre). pose proof (len_nonneg p'). pose proof (len_nonneg rest).
  destruct (Hv e (p' ++ rest)) as [Hd Hpos]; [done|rewrite length_app; lia|rewrite !len_app; lia|].
  cbn [decodeListElems_loop]. rewrite len_app. rewrite (proj2 (Z.ltb_lt _ _)) by lia.
  rewrite slice_tail by (rewrite ?len_app; lia). cbn [mbind outcome_bind]. rewrite Hd. cbn [mbind outcome_bind].
  rewrite i64_id by (unfold in_i64; lia).
  specialize (IH k (pre ++ e) p' (acc ++ [v]) eq_refl). rewrite <- !(assoc_L (++)), !len_app in IH.
  rewrite Z.add_assoc. apply IH; [simpl in Hk; lia|rewrite ?len_app in *; lia|].
  eapply Forall_impl; [exact Hdec|]. cbn beta. intros w Hw e' rest' He' Hl Hr.
  apply Hw; [done|rewrite length_app; lia|rewrite !len_app in *; lia].
Qed.

Lemma encode_nonempty v e : encodeRLP v = Ret e -> 0 < len e.
Proof.
  assert (forall (x : Z) l, 0 < len (x :: l)) as Hpos by (intros x l; rewrite len_cons; pose proof (len_nonneg l); lia).
  destruct v as [d|l|]; cbn [encodeRLP]; [| |done].
  - destruct (_ && _) eqn:E; [apply andb_true_iff in E as [E%Z.eqb_eq _]; intros [= <-]; lia|].
    destruct (Z.leb_spec (len d) 55); [intros [= <-]; apply Hpos|].
    destruct (encodeLength _); cbn [mbind outcome_bind]; [|done|done]. intros [= <-]. apply Hpos.
  - destruct (encodeRLPListItems _ _) as [p| |]; [|done|done]. cbn [mbind outcome_bind].
    destruct (Z.leb_spec (len p) 55); [intros [= <-]; apply Hpos|].
    destruct (encodeLength _); cbn [mbind outcome_bind]; [|done|done]. intros [= <-]. apply Hpos.
Qed.

(** The payload is part of the encoding. *)
Lemma encode_payload_len v e :
  encodeRLP v = Ret e ->
  match v with
  | RlpBytes d => len d <= len e
  | RlpList l => forall p, encodeRLPListItems encodeRLP l = Ret p -> len p < len e
  | RlpOther => True
  end.
Proof.
  destruct v as [d|l|]; cbn [encodeRLP]; [| |done].
  - destruct (_ && _); [intros [= <-]; lia|]. destruct (Z.leb_spec (len d) 55); [intros [= <-]; rewrite len_cons; lia|].
    destruct (encodeLength _) as [lb| |]; cbn [mbind outcome_bind]; [|done|done]. intros [= <-]. rewrite len_cons, len_app. pose proof (len_nonneg lb). lia.
  - intros Henc p Hp. rewrite Hp in Henc. cbn [mbind outcome_bind] in Henc. revert Henc.
    destruct (Z.leb_spec (len p) 55); [intros [= <-]; rewrite len_cons; lia|].
    destruct (encodeLength _) as [lb| |]; cbn [mbind outcome_bind]; [|done|done]. intros [= <-]. rewrite len_cons, len_app. pose proof (len_nonneg lb). lia.
Qed.

Lemma decodeListElems_ok dec items p rest :
  encodeRLPListItems encodeRLP items = Ret p -> (length items <= maxListElements)%nat ->
  len (p ++ rest) < 9223372036854775808 ->
  Forall (fun v => forall e rest', encodeRLP v = Ret e -> (length e <= length p)%nat ->
    len (e ++ rest') <= len (p ++ rest) -> dec (e ++ rest') = Ret (v, len e) /\ 0 < len e) items ->
  decodeListElems dec (p ++ rest) (len p) = Ret items.
Proof.
  intros Hp Hk Hlen Hdec. unfold decodeListElems.
  pose proof (decode_elems_ok dec maxListElements items [] p rest [] Hp Hk Hlen Hdec) as Hl.
  change (len (@nil Z)) with 0 in Hl. rewrite Z.add_0_l in Hl. cbn [app] in Hl. rewrite Hl. cbn [mbind outcome_bind].
  by rewrite Z.eqb_refl.
Qed.

Lemma decode_encode_rest v : rlp_ok v -> forall bs n rest,
  encodeRLP v = Ret bs -> (length bs <= n)%nat -> len (bs ++ rest) < 9223372036854775808 ->
  decodeRLP n (bs ++ rest) = Ret (v, len bs).
Proof.
  induction v as [d|l IH|] using rlp_value_ind; [| |done]; intros Hok bs n rest Henc Hn Hlen.
  { apply decode_encode_bytes; try done. apply encode_payload_len in Henc. rewrite len_app in Hlen.
    pose proof (len_nonneg rest). lia. }
  apply rlp_ok_list in Hok as [Hk Hok]. pose proof (encode_payload_len _ _ Henc) as Hpl. cbn beta iota in Hpl.
  destruct (encode_list_cases l bs Henc) as (p & Hp & Hcases). specialize (Hpl p Hp).
  assert (forall n', (length p <= n')%nat -> len (p ++ rest) < 9223372036854775808 ->
    decodeListElems (decodeRLP n') (p ++ rest) (len p) = Ret l) as Helems.
  { intros n' Hn' Hl. apply decodeListElems_ok; [done..|].
    pose proof (proj2 (Forall_and _ l) (conj IH Hok)) as Hall. eapply Forall_impl; [exact Hall|]. cbn beta. intros w [IHw Hw] e rest' He Hle Hre.
    split; [apply IHw; [done..|lia|lia]|by eapply encode_nonempty]. }
  pose proof (len_nonneg p). pose proof (len_nonneg rest).
  destruct Hcases as [[Hs ->]|(Hs & lb & El & ->)]; [rewrite len_app in Hlen; lia| |];
    (destruct n as [|n]; [simpl in Hn; lia|]); cbn [app decodeRLP length] in *.
  - rewrite len_cons, len_app in Hlen. zdecide. rewrite slice_tl. cbn [mbind outcome_bind].
    replace (192 + len p - 192) with (len p) by lia. rewrite Helems by (rewrite ?len_app; lia). cbn [mbind outcome_bind].
    by rewrite len_cons.
  - rewrite <- (assoc_L (++)) in Hlen |- *. destruct (decode_long_length _ lb p rest El Hs Hlen) as [Hlb Hd].
    rewrite len_cons, !len_app in Hlen. rewrite length_app in Hn. zdecide. rewrite slice_tl. cbn [mbind outcome_bind].
    replace (247 + len lb - 247) with (len lb) by lia. rewrite Hd. cbn [mbind outcome_bind].
    rewrite i64_id by (unfold in_i64; lia). rewrite slice_tl_app by done. rewrite !len_cons, !len_app. zdecide.
    cbn [mbind outcome_bind]. rewrite Helems by (rewrite ?len_app; lia). cbn [mbind outcome_bind]. do 2 f_equal. lia.
Qed.

Lemma encode_items_total l : Forall (fun v => exists bs, encodeRLP v = Ret bs) l -> exists p, encodeRLPListItems encodeRLP l = Ret p.
Proof.
  induction 1 as [|v l [bs Hv] _ [p IH]]; cbn [encodeRLPListItems]; [eauto|]. rewrite Hv, IH. cbn. eauto.
Qed.

Lemma encode_total v : rlp_ok v -> exists bs, encodeRLP v = Ret bs.
Proof.
  assert (forall L, 55 < L -> exists lb, encodeLength L = Ret lb) as Hl.
  { intros L HL. unfold encodeLength. rewrite (proj2 (Z.eqb_neq L 0)) by lia. eauto. }
  induction v as [d|l IH|] using rlp_value_ind; cbn [encodeRLP]; [| |done].
  - intros _. destruct (_ && _); [eauto|]. destruct (Z.leb_spec (len d) 55); [eauto|].
    destruct (Hl (len d)) as [lb ->]; [done|]. cbn. eauto.
  - rewrite rlp_ok_list. intros [_ Hok]. destruct (encode_items_total l) as [p ->].
    { pose proof (proj2 (Forall_and _ l) (conj IH Hok)) as Hall. eapply Forall_impl; [exact Hall|]. naive_solver. }
    cbn [mbind outcome_bind]. destruct (Z.leb_spec (len p) 55); [eauto|].
    destruct (Hl (len p)) as [lb ->]; [done|]. cbn. eauto.
Qed.

(** ** Decoding any input *)

(** The encoder uses the shortest form of a header. *)
Lemma encode_bytes_short d bs k :
  len d < 9223372036854775808 -> encodeRLP (RlpBytes d) = Ret bs -> 0 <= k -> len d <= 55 \/ len d < 256 ^ k ->
  len bs <= 1 + k + len d.
Proof.
  intros Hd Henc Hk Hc. destruct (encode_bytes_cases d bs Hd Henc) as [(b & -> & _ & ->)|[[Hs ->]|(Hs & lb & El & ->)]].
  - lia.
  - rewrite len_cons. lia.
  - destruct (encodeLength_ok (len d)) as (lb' & El' & _ & _ & _ & Hmin); [lia|]. rewrite El in El'. injection El' as <-.
    rewrite len_cons, len_app. specialize (Hmin k Hk ltac:(lia)). lia.
Qed.

Lemma encode_list_short l p bs k L :
  encodeRLPListItems encodeRLP l = Ret p -> encodeRLP (RlpList l) = Ret bs -> 0 <= k -> len p <= L ->
  L < 9223372036854775808 -> L <= 55 \/ L < 256 ^ k -> len bs <= 1 + k + L.
Proof.
  intros Hp Henc Hk HpL HL Hc. destruct (encode_list_cases l bs Henc) as (p' & Hp' & Hcases).
  rewrite Hp in Hp'. injection Hp' as <-. destruct Hcases as [[Hs ->]|(Hs & lb & El & ->)]; [lia| |].
  - rewrite len_cons. lia.
  - destruct (encodeLength_ok (len p)) as (lb' & El' & _ & _ & _ & Hmin); [lia|]. rewrite El in El'. injection El' as <-.
    rewrite len_cons, len_app. specialize (Hmin k Hk ltac:(lia)). lia.
Qed.

(** A decoded value and its size: it is no shorter to encode than what was consumed. *)
Definition decoded (data : bytes) (r : outcome (RlpValue * Z)) : Prop :=
  r <> Panic /\ forall v c, r = Ret (v, c) ->
    1 <= c <= len data /\ rlp_ok v /\ exists bs, encodeRLP v = Ret bs /\ len bs <= c.

Lemma encode_items_snoc l v p bs :
  encodeRLPListItems encodeRLP l = Ret p -> encodeRLP v = Ret bs -> encodeRLPListItems encodeRLP (l ++ [v]) = Ret (p ++ bs).
Proof.
  revert p. induction l as [|w l IH]; intros p Hp Hv; cbn [encodeRLPListItems app] in *.
  - injection Hp as <-. rewrite Hv. cbn. by rewrite app_nil_r.
  - destruct (encodeRLP w) as [e| |]; cbn [mbind outcome_bind] in *; try done.
    destruct (encodeRLPListItems encodeRLP l) as [p'| |]; cbn [mbind outcome_bind] in *; try done.
    injection Hp as <-. rewrite (IH p' eq_refl Hv). cbn. by rewrite (assoc_L (++)).
Qed.

Lemma decode_elems_inv dec k data L tc acc p :
  (forall d, (length d <= length data)%nat -> Forall is_byte d -> decoded d (dec d)) ->
  Forall is_byte data -> len data < 9223372036854775808 -> 0 <= tc <= len data ->
  encodeRLPListItems encodeRLP acc = Ret p -> len p <= tc -> Forall rlp_ok acc -> (length acc + k <= maxListElements)%nat ->
  decodeListElems_loop dec k data L tc acc <> Panic /\
  forall tc' l, decodeListElems_loop dec k data L tc acc = Ret (tc', l) ->
    0 <= tc' <= len data /\ rlp_ok (RlpList l) /\ exists p', encodeRLPListItems encodeRLP l = Ret p' /\ len p' <= tc'.
Proof.
  intros Hdec Hb Hlen. revert tc acc p. induction k as [|k IH]; intros tc acc p Htc Hp Hpl Hok Hk; cbn [decodeListElems_loop].
  { split; [done|]. intros tc' l [= <- <-]. rewrite rlp_ok_list. split; [done|]. split; [split; [lia|done]|eauto]. }
  destruct (tc <? L); [|split; [done|]; intros tc' l [= <- <-]; rewrite rlp_ok_list; split; [done|]; split; [split; [lia|done]|eauto]].
  unfold slice. zdecide. cbn [mbind outcome_bind].
  assert (take (Z.to_nat (len data - tc)) (drop (Z.to_nat tc) data) = drop (Z.to_nat tc) data) as ->
    by (apply take_ge; rewrite length_drop; unfold len; lia).
  destruct (Hdec (drop (Z.to_nat tc) data)) as [Hnp Hd]; [rewrite length_drop; lia|by apply Forall_drop|].
  destruct (dec _) as [[v c]| |] eqn:Ed; cbn [mbind outcome_bind]; [|by split|done].
  destruct (Hd v c eq_refl) as (Hc & Hv & bs & Hbs & Hlb).
  assert (len (drop (Z.to_nat tc) data) = len data - tc) as El by (unfold len in *; rewrite length_drop; lia).
  rewrite i64_id by (unfold in_i64; lia).
  apply (IH (tc + c) (acc ++ [v]) (p ++ bs)); [lia|by apply encode_items_snoc|rewrite len_app; lia| |rewrite length_app; simpl; lia].
  apply Forall_app. split; [done|]. by constructor.
Qed.

Lemma decodeListElems_inv dec data L :
  (forall d, (length d <= length data)%nat -> Forall is_byte d -> decoded d (dec d)) ->
  Forall is_byte data -> len data < 9223372036854775808 ->
  decodeListElems dec data L <> Panic /\
  forall l, decodeListElems dec data L = Ret l ->
    L <= len data /\ rlp_ok (RlpList l) /\ exists p, encodeRLPListItems encodeRLP l = Ret p /\ len p <= L.
Proof.
  intros Hdec Hb Hlen. unfold decodeListElems. pose proof (len_nonneg data).
  destruct (decode_elems_inv dec maxListElements data L 0 [] [] Hdec Hb Hlen) as [Hnp Hr]; [lia|done|done|constructor|done|].
  destruct (decodeListElems_loop _ _ _ _ _ _) as [[tc l]| |]; cbn [mbind outcome_bind]; [|by split|done].
  destruct (Hr tc l eq_refl) as (? & ? & ?).
  destruct (Z.eqb_spec tc L) as [->|]; cbn [negb]; split; try done. intros l' [= <-]. split; [lia|done].
Qed.

Lemma decodeLength_no_panic data k : 0 <= k -> decodeLength data k <> Panic.
Proof.
  intros Hk. unfold decodeLength. destruct (Z.ltb_spec (len data) k); cbn [orb]; [done|]. destruct (8 <? k); [done|].
  unfold slice. zdecide. cbn [mbind outcome_bind]. destruct (_ <? 0); [done|]. by destruct (_ || _).
Qed.

(** Strings and lists that were read, by the size of their header. *)
Lemma decoded_bytes data d k c :
  Forall is_byte d -> len data < 9223372036854775808 -> 0 <= k -> c = 1 + k + len d -> c <= len data ->
  len d <= 55 \/ len d < 256 ^ k -> decoded data (Ret (RlpBytes d, c)).
Proof.
  intros Hb Hlen Hk -> Hc Hs. split; [done|]. intros v c [= <- <-]. pose proof (len_nonneg d).
  split; [lia|]. split; [done|]. destruct (encode_total (RlpBytes d) Hb) as [bs Hbs].
  exists bs. split; [done|]. apply encode_bytes_short; [lia|done..].
Qed.

Lemma decoded_list data rest dec k L c :
  (forall d, (length d <= length rest)%nat -> Forall is_byte d -> decoded d (dec d)) ->
  Forall is_byte rest -> len data < 9223372036854775808 -> len data = 1 + k + len rest -> 0 <= k -> 0 <= L ->
  c = 1 + k + L -> L <= 55 \/ L < 256 ^ k ->
  decoded data (result ← decodeListElems dec rest L; Ret (RlpList result, c)).
Proof.
  intros Hdec Hb Hlen Hdata Hk HL -> Hs. pose proof (len_nonneg rest).
  destruct (decodeListElems_inv dec rest L Hdec Hb) as [Hnp Hr]; [lia|].
  destruct (decodeListElems dec rest L) as [l| |]; cbn [mbind outcome_bind]; [|by split|done].
  destruct (Hr l eq_refl) as (HLr & Hok & p & Hp & Hpl). split; [done|]. intros v c [= <- <-].
  split; [lia|]. split; [done|]. destruct (encode_total _ Hok) as [bs Hbs].
  exists bs. split; [done|]. eapply encode_list_short; try done. lia.
Qed.

Lemma decoded_err data e : decoded data (Err e).
Proof. by split. Qed.

Lemma Forall_is_byte_slice (l : bytes) a b s : Forall is_byte l -> slice l a b = Ret s -> Forall is_byte s.
Proof. intros Hb (_ & _ & _ & l1 & l3 & -> & _)%slice_Ret. rewrite !Forall_app in Hb. tauto. Qed.

Lemma slice_in {A} (l : list A) a b : 0 <= a <= b -> b <= len l -> exists s, slice l a b = Ret s /\ len s = b - a.
Proof.
  intros Ha Hb. destruct (slice l a b) as [s| |] eqn:E; [exists s; by apply slice_Ret in E as (_ & _ & ? & _)| |];
    unfold slice in E; revert E; zdecide; done.
Qed.

Lemma decode_any n data :
  (length data <= n)%nat -> Forall is_byte data -> len data < 9223372036854775808 -> decoded data (decodeRLP n data).
Proof.
  revert data. induction n as [|n IH]; intros [|b data] Hn Hb Hlen; cbn [decodeRLP]; try apply decoded_err; [simpl in Hn; lia|].
  assert (forall rest : bytes, len rest <= len data -> forall d, (length d <= length rest)%nat -> Forall is_byte d -> decoded d (decodeRLP n d)) as Hdec.
  { intros rest Hr d Hd Hdb. rewrite len_cons in Hlen. unfold len in *. simpl in Hn. apply IH; [lia|done|lia]. }
  pose proof (len_nonneg data) as Hnn. pose proof Hb as [Hb0 Hbd]%Forall_cons. unfold is_byte in Hb0. pose proof (len_cons b data) as El.
  destruct (Z.leb_spec 0xf8 b); [|destruct (Z.leb_spec 0xc0 b); [|destruct (Z.leb_spec 0xb8 b); [|destruct (Z.leb_spec 0x80 b)]]].
  - rewrite slice_tl. cbn [mbind outcome_bind].
    pose proof (decodeLength_no_panic data (b - 247) ltac:(lia)).
    destruct (decodeLength data (b - 247)) as [L| |] eqn:Ed; cbn [mbind outcome_bind]; [|apply decoded_err|done].
    apply decodeLength_inv in Ed as (Hk & HL & Hfit); [|lia|done|lia]. rewrite !i64_id by (unfold in_i64; lia).
    destruct (_ <? _); [apply decoded_err|]. destruct (slice_in (b :: data) (1 + (b - 247)) (len (b :: data))) as (rest & Es & Hr); [lia|lia|].
    rewrite Es. cbn [mbind outcome_bind]. eapply (decoded_list _ _ _ (b - 247) L); [apply Hdec; lia|exact (Forall_is_byte_slice _ _ _ _ Hb Es)|lia..].
  - rewrite slice_tl. cbn [mbind outcome_bind]. eapply (decoded_list _ _ _ 0 (b - 192)); [apply Hdec; lia|done|lia..].
  - rewrite slice_tl. cbn [mbind outcome_bind].
    pose proof (decodeLength_no_panic data (b - 183) ltac:(lia)).
    destruct (decodeLength data (b - 183)) as [L| |] eqn:Ed; cbn [mbind outcome_bind]; [|apply decoded_err|done].
    apply decodeLength_inv in Ed as (Hk & HL & Hfit); [|lia|done|lia]. cbv zeta. rewrite !i64_id by (unfold in_i64; lia).
    destruct (_ || _); [apply decoded_err|]. destruct (slice_in (b :: data) (1 + (b - 183)) (1 + (b - 183) + L)) as (s & Es & Hs); [lia|lia|].
    rewrite Es. cbn [mbind outcome_bind]. apply (decoded_bytes _ _ (b - 183)); [exact (Forall_is_byte_slice _ _ _ _ Hb Es)|lia|lia|lia|lia|right; replace (len s) with L by lia; lia].
  - destruct (Z.ltb_spec (len (b :: data)) (1 + (b - 128))); [apply decoded_err|].
    destruct (slice_in (b :: data) 1 (1 + (b - 128))) as (s & Es & Hs); [lia|lia|]. rewrite Es. cbn [mbind outcome_bind].
    apply (decoded_bytes _ _ 0); [exact (Forall_is_byte_slice _ _ _ _ Hb Es)|lia..].
  - split; [done|]. intros v c [= <- <-]. split; [lia|]. split; [by apply Forall_singleton|].
    exists [b]. cbn [encodeRLP head from_option]. change (len [b]) with 1. unfold id. zdecide. split; [done|lia].
Qed.

(** ** Theorems *)

(** [C28] What the encoder produces decodes to the value that was encoded: every value of
    byte strings and lists of at most 12 elements is encoded, and the result decodes to it
    (as long as it fits into a Go slice). *)
Theorem rlp_roundtrip v :
  rlp_ok v -> exists bs, EncodeRLP v = Ret bs /\ (len bs < 9223372036854775808 -> DecodeRLP bs = Ret v).
Proof.
  intros Hok. destruct (encode_total v Hok) as [bs Hbs]. exists bs. split; [done|]. intros Hlen.
  unfold DecodeRLP. pose proof (decode_encode_rest v Hok bs (length bs) [] Hbs) as Hd. rewrite app_nil_r in Hd.
  rewrite Hd by done. cbn [mbind outcome_bind]. by rewrite Z.eqb_refl.
Qed.

(** [C36] On any bytes the decoder returns a value or an error: it never indexes or slices
    out of range, overflows a length or recurses without end.  The value is one that can be
    encoded, in no more bytes than were read, and the encoding decodes to the same value. *)
Theorem rlp_decode_total data :
  Forall is_byte data -> len data < 9223372036854775808 ->
  DecodeRLP data <> Panic /\
  forall v, DecodeRLP data = Ret v ->
    rlp_ok v /\ exists bs, EncodeRLP v = Ret bs /\ len bs <= len data /\ DecodeRLP bs = Ret v.
Proof.
  intros Hb Hlen. destruct (decode_any (length data) data ltac:(lia) Hb Hlen) as [Hnp Hd]. unfold DecodeRLP at 1 2.
  destruct (decodeRLP (length data) data) as [[v c]| |]; cbn [mbind outcome_bind]; [|by split|done].
  destruct (Hd v c eq_refl) as (Hc & Hok & bs & Hbs & Hle).
  destruct (Z.eqb_spec c (len data)) as [->|]; cbn [negb]; split; try done.
  intros v' [= <-]. split; [done|]. exists bs. split; [done|]. split; [done|].
  unfold DecodeRLP. pose proof (decode_encode_rest v Hok bs (length bs) [] Hbs) as He. rewrite app_nil_r in He.
  rewrite He by (try done; lia). cbn [mbind outcome_bind]. by rewrite Z.eqb_refl.
Qed.

Lemma rlp_roundtrip_witness :
  DecodeRLP [0xc8; 0x83; 99; 97; 116; 0x83; 100; 111; 103] = Ret (RlpList [RlpBytes [99; 97; 116]; RlpBytes [100; 111; 103]]).
Proof.
  destruct (rlp_roundtrip (RlpList [RlpBytes [99; 97; 116]; RlpBytes [100; 111; 103]])) as (bs & Hbs & Hd).
  - cbn. unfold is_byte, maxListElements. repeat (constructor || lia).
  - assert (bs = [0xc8; 0x83; 99; 97; 116; 0x83; 100; 111; 103]) as -> by (vm_compute in Hbs; congruence).
    apply Hd. reflexivity.
Defined.

(** A non-canonical encoding is accepted, and encoded again in the shorter form. *)
Lemma rlp_decode_total_witness :
  exists bs, EncodeRLP (RlpBytes [5]) = Ret bs /\ len bs <= 2 /\ DecodeRLP bs = Ret (RlpBytes [5]).
Proof.
  destruct (rlp_decode_total [0x81; 5]) as [_ Hd].
  - unfold is_byte. repeat (constructor || lia).
  - reflexivity.
  - destruct (Hd (RlpBytes [5]) eq_refl) as (_ & bs & Hbs & Hlen & Hdec). exists bs. split; [exact Hbs|]. split; [exact Hlen|exact Hdec].
Defined.
