(* ===== verification/Fr32.v ===== *)
(** * Fr32 padding: storage/sealer/fr32/fr32.go

    Padding inserts two zero bits after every 254 bits, so that 127 bytes become 128; large
    buffers are split among threads.  A buffer is a list of bytes, an operation on the two
    buffers returns both of them. *)

From S2P Require Import Prelude Pieces.

Definition UnpaddedFr32Chunk : Z := 127.
Definition PaddedFr32Chunk : Z := 128.
Definition MTTresh : Z := 524288. (* 512 << 10 *)

(** ** One chunk *)

(** Go's shift of a byte to the left. *)
Definition shl8 (v n : Z) : Z := u8 (Z.shiftl v n).

(** One of the loops of [pad]: [out[i] = (v << l) | t; t = v >> r]. *)
Fixpoint padLoop (l r : Z) (vs : bytes) (t : Z) : bytes :=
  match vs with
  | [] => []
  | v :: vs => Z.lor (shl8 v l) t :: padLoop l r vs (Z.shiftr v r)
  end.

(** [out[i] &= 0x3f] for the last byte of a group. *)
Definition maskByte (l : bytes) (i : nat) : bytes := alter (fun b => Z.land b 0x3f) i l.

(** The 128 bytes that the body of [pad] writes for the 127 bytes of a chunk. *)
Definition padChunk (c : bytes) : bytes :=
  let t := Z.shiftr (c !!! 31%nat) 6 in
  let o0 := take 31 c ++ [Z.land (c !!! 31%nat) 0x3f] in
  let o1 := padLoop 2 6 (take 32 (drop 32 c)) t in
  let t := Z.shiftr (c !!! 63%nat) 4 in
  let o1 := maskByte o1 31%nat in
  let o2 := padLoop 4 4 (take 32 (drop 64 c)) t in
  let t := Z.shiftr (c !!! 95%nat) 2 in
  let o2 := maskByte o2 31%nat in
  let o3 := padLoop 6 2 (take 31 (drop 96 c)) t in
  let t := Z.shiftr (c !!! 126%nat) 2 in
  o0 ++ o1 ++ o2 ++ o3 ++ [Z.land t 0x3f].

(** One of the loops of [unpad]: [out[i] = at >> r; out[i] |= next << l; at = next]. *)
Fixpoint unpadLoop (r l : Z) (at_ : Z) (nexts : bytes) : bytes :=
  match nexts with
  | [] => []
  | next :: nexts => Z.lor (Z.shiftr at_ r) (shl8 next l) :: unpadLoop r l next nexts
  end.

(** The 127 bytes that the body of [unpad] writes for a chunk of 128 bytes. *)
Definition unpadChunk (p : bytes) : bytes :=
  let o0 := take 32 p in
  let at_ := p !!! 32%nat in
  let o0 := alter (fun b => Z.lor b (shl8 at_ 6)) 31%nat o0 in
  let o1 := unpadLoop 2 6 at_ (take 32 (drop 33 p)) in
  let at_ := p !!! 64%nat in
  let o1 := alter (fun b => Z.lxor b (Z.lxor (shl8 at_ 6) (shl8 at_ 4))) 31%nat o1 in
  let o2 := unpadLoop 4 4 at_ (take 32 (drop 65 p)) in
  let at_ := p !!! 96%nat in
  let o2 := alter (fun b => Z.lxor b (Z.lxor (shl8 at_ 4) (shl8 at_ 2))) 31%nat o2 in
  let o3 := unpadLoop 6 2 at_ (take 31 (drop 97 p)) in
  o0 ++ o1 ++ o2 ++ o3.

(** ** Buffers *)

(** The buffer after [l] was written at offset [off]. *)
Definition write (buf : bytes) (off : Z) (l : bytes) : bytes :=
  take (Z.to_nat off) buf ++ l ++ drop (Z.to_nat off + length l) buf.

(** An operation on the unpadded and the padded buffer. *)
Definition bufOp := bytes -> bytes -> outcome (bytes * bytes).

Fixpoint pad_loop (chunks : list nat) (in_ out : bytes) : outcome (bytes * bytes) :=
  match chunks with
  | [] => Ret (in_, out)
  | chunk :: chunks =>
      let inOff := Z.of_nat chunk * 127 in
      let outOff := Z.of_nat chunk * 128 in
      c ← slice in_ inOff (inOff + 127);
      pad_loop chunks in_ (write out outOff (padChunk c))
  end.

Definition pad : bufOp := fun in_ out => pad_loop (seq 0 (length out / 128)) in_ out.

Fixpoint unpad_loop (chunks : list nat) (out in_ : bytes) : outcome (bytes * bytes) :=
  match chunks with
  | [] => Ret (out, in_)
  | chunk :: chunks =>
      let outOff := Z.of_nat chunk * 127 in
      p ← slice in_ (Z.of_nat chunk * 128) (Z.of_nat chunk * 128 + 128);
      _ ← slice out outOff (outOff + 127); (* the bounds of the bytes written *)
      unpad_loop chunks (write out outOff (unpadChunk p)) in_
  end.

Definition unpad : bufOp := fun out in_ => unpad_loop (seq 0 (length in_ / 128)) out in_.

(** ** Threads *)

(** [bits.Len32] *)
Definition Len32 (x : Z) : Z := if x =? 0 then 0 else Z.log2 x + 1.

Section threads.
Context `{PieceSizes}.
(** [runtime.NumCPU] *)
Variable NumCPU : Z.

Definition mtChunkCount (usz : Z) : Z :=
  let threads := usz / MTTresh in
  let threads := if NumCPU <? threads then u64 (Z.shiftl 1 (Len32 NumCPU)) else threads in
  if threads =? 0 then 1
  else if 32 <? threads then 32
  else threads.

(** The work of one thread, on its part of both buffers. *)
Definition mtThread (op : bufOp) (threadBytes : Z) (unpadded padded : bytes) (thread : nat) : outcome (bytes * bytes) :=
  let start := threadBytes * Z.of_nat thread in
  let end_ := start + threadBytes in
  u ← slice unpadded (Unpadded start) (Unpadded end_);
  p ← slice padded start end_;
  '(u', p') ← op u p;
  Ret (write unpadded (Unpadded start) u', write padded start p').

Fixpoint mtThreads (op : bufOp) (threadBytes : Z) (order : list nat) (unpadded padded : bytes) : outcome (bytes * bytes) :=
  match order with
  | [] => Ret (unpadded, padded)
  | thread :: order =>
      '(unpadded, padded) ← mtThread op threadBytes unpadded padded thread;
      mtThreads op threadBytes order unpadded padded
  end.

(** [order] is the order in which the threads run; their parts of the buffers are disjoint. *)
Definition mt (order : list nat) (unpadded padded : bytes) (padLen : Z) (op : bufOp) : outcome (bytes * bytes) :=
  let threads := mtChunkCount padLen in
  let threadBytes := padLen / threads in
  mtThreads op threadBytes order unpadded padded.

Definition Pad (order : list nat) (in_ out : bytes) : outcome (bytes * bytes) :=
  if MTTresh <? len out then mt order in_ out (len out) pad else pad in_ out.

Definition Unpad (order : list nat) (in_ out : bytes) : outcome (bytes * bytes) :=
  if MTTresh <? len in_ then mt order out in_ (len in_) unpad else unpad out in_.
End threads.

(** ** Reference: 254 bits at a time *)

Definition S254 : Z := 2 ^ 254.
Definition S256 : Z := 2 ^ 256.

(** [n] groups of 254 bits of [v], each in 256 bits, and back. *)
Fixpoint spread (n : nat) (v : Z) : Z :=
  match n with
  | O => 0
  | S n => v mod S254 + S256 * spread n (v / S254)
  end.

Fixpoint gather (n : nat) (p : Z) : Z :=
  match n with
  | O => 0
  | S n => p mod S256 + S254 * gather n (p / S256)
  end.

(** ** Bytes *)

Lemma land_63 b : 0 <= b -> Z.land b 0x3f = b mod 64.
Proof. intros _. apply (Z.land_ones b 6). done. Qed.

Lemma shl8_eq v l : 0 <= l <= 8 -> shl8 v l = v mod 2 ^ (8 - l) * 2 ^ l.
Proof.
  intros Hl. unfold shl8, u8. rewrite Z.shiftl_mul_pow2 by lia.
  replace 256 with (2 ^ (8 - l) * 2 ^ l) by (rewrite <- Z.pow_add_r by lia; by replace (8 - l + l) with 8 by lia).
  apply Z.mul_mod_distr_r; apply Z.pow_nonzero; lia.
Qed.

Lemma lor_shl8 l v t : 0 <= l <= 8 -> 0 <= t < 2 ^ l -> Z.lor (shl8 v l) t = v mod 2 ^ (8 - l) * 2 ^ l + t.
Proof. intros Hl Ht. rewrite shl8_eq by done. apply lxor_disjoint; lia. Qed.

Lemma shr_small a l : 0 <= l <= 8 -> is_byte a -> 0 <= Z.shiftr a (8 - l) < 2 ^ l.
Proof.
  intros Hl Ha. rewrite Z.shiftr_div_pow2 by lia. unfold is_byte in Ha.
  pose proof (Z.pow_pos_nonneg 2 (8 - l) ltac:(lia) ltac:(lia)). split; [apply Z.div_pos; lia|].
  apply Z.div_lt_upper_bound; [lia|]. rewrite <- Z.pow_add_r by lia. replace (8 - l + l) with 8 by lia. lia.
Qed.

(** The corrections of [unpad] at the ends of the groups: the bits of the next byte that were
    put at position [m] of a byte are moved to [n], above the bits in [u]. *)
Lemma move_bits u a m n :
  0 <= n <= m -> m <= 8 -> 0 <= u < 2 ^ n ->
  Z.lxor (Z.lor u (shl8 a m)) (Z.lxor (shl8 a m) (shl8 a n)) = u + a mod 2 ^ (8 - n) * 2 ^ n.
Proof.
  intros Hn Hm Hu. pose proof (Z.pow_le_mono_r 2 n m ltac:(lia) ltac:(lia)).
  rewrite Z.lor_comm, !shl8_eq by lia. destruct (lxor_disjoint (a mod 2 ^ (8 - m)) u m) as [E1 E2]; [lia|lia|].
  rewrite E2, <- E1. destruct (lxor_disjoint (a mod 2 ^ (8 - n)) u n) as [E3 _]; [lia|lia|].
  rewrite (Z.lxor_comm (_ * 2 ^ m) u), Z.lxor_assoc, <- (Z.lxor_assoc (_ * 2 ^ m) (_ * 2 ^ m)), Z.lxor_nilpotent, Z.lxor_0_l.
  rewrite Z.lxor_comm, E3. lia.
Qed.

(** ** The loops *)

(** The shifts of the three loops, and their arithmetic. *)
Ltac zloop :=
  match goal with H : _ ∈ [2; 4; 6] |- _ => set_unfold in H; destruct H as [->|[->|[->|[]]]]; cbn in *; dlia end.


Lemma length_padLoop l r vs t : length (padLoop l r vs t) = length vs.
Proof. revert t. induction vs; intros t; simpl; auto. Qed.

Lemma padLoop_val l vs t :
  l ∈ [2; 4; 6] -> Forall is_byte vs -> 0 <= t < 2 ^ l ->
  Forall is_byte (padLoop l (8 - l) vs t) /\
  le_val (padLoop l (8 - l) vs t) = (t + 2 ^ l * le_val vs) mod 256 ^ len vs.
Proof.
  intros Hl Hvs. revert t. induction Hvs as [|v vs Hv Hvs IH]; intros t Ht; cbn [padLoop le_val].
  { split; [constructor|]. change (len (@nil Z)) with 0. by rewrite Z.pow_0_r, Z.mod_1_r. }
  assert (0 <= l <= 8) as Hl8 by (set_unfold in Hl; lia).
  pose proof (shr_small v l Hl8 Hv) as Hc. rewrite lor_shl8 by done. rewrite Z.shiftr_div_pow2 in * by lia.
  destruct (IH _ Hc) as [Hb Hval]. rewrite Hval. split.
  - constructor; [|done]. unfold is_byte in *. zloop.
  - rewrite len_cons, Z.pow_add_r by (pose proof (len_nonneg vs); lia).
    pose proof (Z.pow_pos_nonneg 256 (len vs) ltac:(lia) (len_nonneg vs)) as Hpos.
    change (256 ^ 1) with 256. rewrite Z.rem_mul_r by lia. f_equal.
    + unfold is_byte in *. zloop.
    + f_equal. f_equal. unfold is_byte in *. zloop.
Qed.

Lemma length_unpadLoop r l a ns : length (unpadLoop r l a ns) = length ns.
Proof. revert a. induction ns as [|n ns IH]; intros a; simpl; auto. Qed.

Lemma unpadLoop_val l a ns :
  l ∈ [2; 4; 6] -> is_byte a -> Forall is_byte ns ->
  Forall is_byte (unpadLoop (8 - l) l a ns) /\
  le_val (unpadLoop (8 - l) l a ns) = (le_val (a :: ns) / 2 ^ (8 - l)) mod 256 ^ len ns.
Proof.
  intros Hl Ha Hns. revert a Ha. induction Hns as [|n ns Hn Hns IH]; intros a Ha; cbn [unpadLoop le_val].
  { split; [constructor|]. change (len (@nil Z)) with 0. by rewrite Z.pow_0_r, Z.mod_1_r. }
  assert (0 <= l <= 8) as Hl8 by (set_unfold in Hl; lia). pose proof (shr_small a l Hl8 Ha) as Hc.
  rewrite Z.lor_comm, lor_shl8 by done. rewrite Z.shiftr_div_pow2 in * by lia. destruct (IH n Hn) as [Hb Hval]. rewrite Hval. cbn [le_val]. split.
  - constructor; [|done]. unfold is_byte in *. zloop.
  - rewrite len_cons, Z.pow_add_r by (pose proof (len_nonneg ns); lia).
    pose proof (Z.pow_pos_nonneg 256 (len ns) ltac:(lia) (len_nonneg ns)) as Hpos.
    change (256 ^ 1) with 256. rewrite Z.rem_mul_r by lia. f_equal.
    + unfold is_byte in *. zloop.
    + f_equal. f_equal. unfold is_byte in *. zloop.
Qed.

(** ** A chunk as a number *)

Lemma alter_last {A} (f : A -> A) l x n : length l = n -> alter f n (l ++ [x]) = l ++ [f x].
Proof. intros <-. rewrite <- (Nat.add_0_r (length l)) at 1. by rewrite alter_app_r. Qed.

(** A group of [n] bytes and its last byte, as it is or masked. *)
Lemma group_val (l : bytes) v n :
  Forall is_byte (l ++ [v]) -> length l = n ->
  le_val (l ++ [v]) = le_val l + 256 ^ Z.of_nat n * v /\ 0 <= le_val l < 256 ^ Z.of_nat n /\ is_byte v.
Proof.
  intros [Hl Hv]%Forall_app Hn. rewrite Forall_singleton in Hv. pose proof (le_val_bound l Hl) as Hb. unfold len in Hb. rewrite Hn in Hb.
  rewrite le_val_app. cbn [le_val]. unfold len. rewrite Hn. split; [lia|done].
Qed.

Lemma mask_val (o : bytes) :
  Forall is_byte o -> length o = 32%nat ->
  Forall is_byte (maskByte o 31) /\ length (maskByte o 31) = 32%nat /\ le_val (maskByte o 31) = le_val o mod S254.
Proof.
  intros Ho Hl. destruct (list_snoc o 31 Hl) as (l & v & -> & Hn). unfold maskByte. rewrite alter_last by done.
  destruct (group_val l v 31 Ho Hn) as (Ev & Hb & Hv). unfold is_byte in Hv. rewrite land_63 by lia.
  assert (Forall is_byte (l ++ [v mod 64])) as Hm.
  { apply Forall_app in Ho as [Ho _]. apply Forall_app. split; [done|]. apply Forall_singleton. unfold is_byte. dlia. }
  split; [done|]. split; [by rewrite length_app, Hn|]. destruct (group_val l (v mod 64) 31 Hm Hn) as (-> & _ & _).
  rewrite Ev. change S254 with (256 ^ Z.of_nat 31 * 64). assert (0 < 256 ^ Z.of_nat 31) as Hpos by reflexivity.
  revert Hb Hpos. generalize (256 ^ Z.of_nat 31). intros B Hb Hpos. rewrite Z.rem_mul_r by lia.
  rewrite (Z.mul_comm B v), Z.mod_add, Z.div_add by lia.
  rewrite (Z.mod_small (le_val l) B), (Z.div_small (le_val l) B) by lia. by rewrite Z.add_0_l, (Z.mul_comm B).
Qed.

(** The four groups of a chunk, each with its last byte. *)
Lemma chunk_groups (c : bytes) :
  length c = 127%nat -> exists x0 v0 x1 v1 x2 v2 x3 v3,
    c = (x0 ++ [v0]) ++ (x1 ++ [v1]) ++ (x2 ++ [v2]) ++ (x3 ++ [v3]) /\
    length x0 = 31%nat /\ length x1 = 31%nat /\ length x2 = 31%nat /\ length x3 = 30%nat.
Proof.
  intros Hc. destruct (list_split c 32 95) as (g0 & r0 & -> & H0 & R0); [done|].
  destruct (list_split r0 32 63) as (g1 & r1 & -> & H1 & R1); [done|].
  destruct (list_split r1 32 31) as (g2 & g3 & -> & H2 & H3); [done|].
  destruct (list_snoc g0 31 H0) as (x0 & v0 & -> & ?). destruct (list_snoc g1 31 H1) as (x1 & v1 & -> & ?).
  destruct (list_snoc g2 31 H2) as (x2 & v2 & -> & ?). destruct (list_snoc g3 30 H3) as (x3 & v3 & -> & ?).
  by exists x0, v0, x1, v1, x2, v2, x3, v3.
Qed.

Lemma group_lookup {A} `{Inhabited A} (a x : list A) v b i : i = (length a + length x)%nat -> (a ++ (x ++ [v]) ++ b) !!! i = v.
Proof. intros ->. rewrite (assoc_L (++)), (assoc_L (++)), <- (assoc_L (++) (a ++ x)). rewrite <- length_app. by apply list_lookup_total_middle. Qed.

Lemma group_sub {A} (a g b : list A) i n : length a = i -> length g = n -> take n (drop i (a ++ g ++ b)) = g.
Proof. intros <- <-. by rewrite drop_app_length, take_app_length. Qed.

Lemma padChunk_groups x0 v0 x1 v1 x2 v2 x3 v3 :
  length x0 = 31%nat -> length x1 = 31%nat -> length x2 = 31%nat -> length x3 = 30%nat ->
  padChunk ((x0 ++ [v0]) ++ (x1 ++ [v1]) ++ (x2 ++ [v2]) ++ (x3 ++ [v3])) =
  (x0 ++ [Z.land v0 0x3f]) ++ maskByte (padLoop 2 6 (x1 ++ [v1]) (Z.shiftr v0 6)) 31 ++
  maskByte (padLoop 4 4 (x2 ++ [v2]) (Z.shiftr v1 4)) 31 ++
  padLoop 6 2 (x3 ++ [v3]) (Z.shiftr v2 2) ++ [Z.land (Z.shiftr v3 2) 0x3f].
Proof.
  intros H0 H1 H2 H3. unfold padChunk.
  set (c := (x0 ++ [v0]) ++ (x1 ++ [v1]) ++ (x2 ++ [v2]) ++ x3 ++ [v3]).
  assert (c !!! 31%nat = v0) as -> by (subst c; apply (group_lookup []); simpl; lia).
  assert (c !!! 63%nat = v1) as -> by (subst c; apply group_lookup; rewrite length_app; simpl; lia).
  assert (c !!! 95%nat = v2) as ->
    by (subst c; rewrite (assoc_L (++)); apply group_lookup; rewrite !length_app; simpl; lia).
  assert (c !!! 126%nat = v3) as ->.
  { subst c. rewrite !(assoc_L (++)). apply list_lookup_total_middle. rewrite !length_app. simpl. lia. }
  assert (take 31 c = x0) as -> by (subst c; rewrite <- !(assoc_L (++)); by apply take_app_length').
  assert (take 32 (drop 32 c) = x1 ++ [v1]) as -> by (subst c; apply group_sub; rewrite length_app; simpl; lia).
  assert (take 32 (drop 64 c) = x2 ++ [v2]) as ->
    by (subst c; rewrite (assoc_L (++)); apply group_sub; rewrite !length_app; simpl; lia).
  assert (take 31 (drop 96 c) = x3 ++ [v3]) as ->.
  { subst c. rewrite <- (app_nil_r (x3 ++ [v3])) at 1. rewrite (assoc_L (++)), (assoc_L (++)).
    apply group_sub; rewrite !length_app; simpl; lia. }
  done.
Qed.

(** ** Arithmetic of the groups, with [S] for [2 ^ 254] *)

Lemma S256_eq : S256 = 4 * S254.
Proof. reflexivity. Qed.

Lemma S254_pos : 0 < S254.
Proof. reflexivity. Qed.

Lemma spread_groups a0 a1 a2 a3 t1 t2 t3 :
  t1 = a0 / S254 -> t2 = (t1 + 4 * a1) / S254 -> t3 = (t2 + 16 * a2) / S254 -> 0 <= t3 + 64 * a3 < S254 ->
  spread 4 (a0 + S256 * (a1 + S256 * (a2 + S256 * a3))) =
  a0 mod S254 + S256 * ((t1 + 4 * a1) mod S254 + S256 * ((t2 + 16 * a2) mod S254 + S256 * (t3 + 64 * a3))).
Proof.
  intros E1 E2 E3 Hlt. pose proof S254_pos as HS. cbn [spread]. rewrite S256_eq.
  revert E1 E2 E3 Hlt HS. generalize S254. intros S E1 E2 E3 Hlt HS.
  replace (a0 + 4 * S * (a1 + 4 * S * (a2 + 4 * S * a3))) with (a0 + (4 * (a1 + 4 * S * (a2 + 4 * S * a3))) * S) by ring.
  rewrite Z.mod_add, Z.div_add, <- E1 by lia.
  replace (t1 + 4 * (a1 + 4 * S * (a2 + 4 * S * a3))) with (t1 + 4 * a1 + (16 * (a2 + 4 * S * a3)) * S) by ring.
  rewrite Z.mod_add, Z.div_add, <- E2 by lia.
  replace (t2 + 16 * (a2 + 4 * S * a3)) with (t2 + 16 * a2 + (64 * a3) * S) by ring.
  rewrite Z.mod_add, Z.div_add, <- E3 by lia. rewrite (Z.mod_small (t3 + _)) by lia. ring.
Qed.

Lemma gather_groups b0 b1 b2 b3 :
  0 <= b0 < S256 -> 0 <= b1 < S256 -> 0 <= b2 < S256 -> 0 <= b3 < S256 ->
  gather 4 (b0 + S256 * (b1 + S256 * (b2 + S256 * b3))) = b0 + S254 * (b1 + S254 * (b2 + S254 * b3)).
Proof.
  intros H0 H1 H2 H3. cbn [gather].
  assert (forall b x, 0 <= b < S256 -> (b + S256 * x) mod S256 = b /\ (b + S256 * x) / S256 = x) as Hs.
  { intros b x Hb. rewrite (Z.mul_comm S256), Z.mod_add, Z.div_add by (rewrite S256_eq; pose proof S254_pos; lia).
    rewrite Z.mod_small, Z.div_small by lia. done. }
  destruct (Hs b0 (b1 + S256 * (b2 + S256 * b3)) H0) as [-> ->]. destruct (Hs b1 (b2 + S256 * b3) H1) as [-> ->].
  destruct (Hs b2 b3 H2) as [-> ->]. rewrite (Z.mod_small b3) by lia. ring.
Qed.

Lemma gather_spread n v : 0 <= v -> gather n (spread n v) = v mod S254 ^ Z.of_nat n.
Proof.
  revert v. induction n as [|n IH]; intros v Hv; [cbn; by rewrite Z.mod_1_r|]. cbn [gather spread].
  pose proof S254_pos as HS. pose proof (Z.mod_pos_bound v S254 HS).
  rewrite (Z.mul_comm S256), Z.mod_add, Z.div_add by (rewrite S256_eq; lia).
  rewrite Z.mod_small, Z.div_small, Z.add_0_l, IH by (rewrite ?S256_eq; try apply Z.div_pos; lia).
  rewrite Nat2Z.inj_succ, Z.pow_succ_r by lia. rewrite Z.rem_mul_r by (try apply Z.pow_nonzero; lia). done.
Qed.

(** The carry out of a group of 32 bytes that was shifted by [l]. *)
Lemma carry_val x v t (l : Z) :
  l ∈ [2; 4] -> 0 <= x < 256 ^ Z.of_nat 31 -> 0 <= t < 2 ^ l -> is_byte v ->
  (t + 2 ^ l * (x + 256 ^ Z.of_nat 31 * v)) / S254 = v / 2 ^ (6 - l).
Proof.
  intros Hl Hx Ht Hv. change S254 with (64 * 256 ^ Z.of_nat 31). assert (0 < 256 ^ Z.of_nat 31) as Hp by reflexivity.
  revert Hx Hp. generalize (256 ^ Z.of_nat 31). intros B Hx Hp.
  rewrite (Z.mul_comm 64), <- Z.div_div by lia. set_unfold in Hl.
  replace (t + 2 ^ l * (x + B * v)) with (t + 2 ^ l * x + (2 ^ l * v) * B) by ring. rewrite Z.div_add by lia.
  assert (0 <= (t + 2 ^ l * x) / B < 2 ^ l) as Hc.
  { destruct Hl as [->|[->|[]]]; cbn in *; (split; [apply Z.div_pos; lia|apply Z.div_lt_upper_bound; lia]). }
  revert Hc. generalize ((t + 2 ^ l * x) / B). intros q Hc. destruct Hl as [->|[->|[]]]; cbn in *; dlia.
Qed.

(** ** A padded chunk *)

(** A group of 32 bytes shifted by [l] with the carry [t] of the previous one. *)
Lemma pad_group l x v t :
  l ∈ [2; 4] -> Forall is_byte (x ++ [v]) -> length x = 31%nat -> 0 <= t < 2 ^ l ->
  let o := maskByte (padLoop l (8 - l) (x ++ [v]) t) 31 in
  Forall is_byte o /\ length o = 32%nat /\ le_val o = (t + 2 ^ l * le_val (x ++ [v])) mod S254 /\
  (t + 2 ^ l * le_val (x ++ [v])) / S254 = v / 2 ^ (6 - l) /\ 0 <= v / 2 ^ (6 - l) < 2 ^ (l + 2).
Proof.
  intros Hl Hb Hx Ht. cbv zeta. assert (l ∈ [2; 4; 6]) as Hl' by set_solver.
  destruct (padLoop_val l (x ++ [v]) t Hl' Hb Ht) as [Hpb Hpv].
  destruct (mask_val _ Hpb) as (Hmb & Hml & Hmv); [by rewrite length_padLoop, length_app, Hx|].
  destruct (group_val x v 31 Hb Hx) as (Ev & Hxb & Hv). split; [done|]. split; [done|]. split; [|split].
  - rewrite Hmv, Hpv. unfold len. rewrite length_app, Hx. change (256 ^ Z.of_nat (31 + length [v])) with (S254 * 4).
    apply Z.mod_mod_divide. by exists 4.
  - rewrite Ev. by apply carry_val.
  - unfold is_byte in Hv. set_unfold in Hl. destruct Hl as [->|[->|[]]]; cbn; dlia.
Qed.

(** The last group of 31 bytes, which becomes 32. *)
Lemma pad_last x v t :
  Forall is_byte (x ++ [v]) -> length x = 30%nat -> 0 <= t < 64 ->
  let o := padLoop 6 2 (x ++ [v]) t ++ [Z.land (Z.shiftr v 2) 0x3f] in
  Forall is_byte o /\ length o = 32%nat /\ le_val o = t + 64 * le_val (x ++ [v]) /\ 0 <= le_val o < S254.
Proof.
  intros Hb Hx Ht. cbv zeta. destruct (padLoop_val 6 (x ++ [v]) t ltac:(set_solver) Hb Ht) as [Hpb Hpv].
  change (8 - 6) with 2 in *. destruct (group_val x v 30 Hb Hx) as (Ev & Hxb & Hv). unfold is_byte in Hv.
  rewrite Z.shiftr_div_pow2, land_63 by (try apply Z.div_pos; lia). change (2 ^ 2) with 4.
  rewrite (Z.mod_small (v / 4)) by dlia.
  split; [apply Forall_app; split; [done|]; apply Forall_singleton; unfold is_byte; dlia|].
  split; [by rewrite length_app, length_padLoop, length_app, Hx|].
  assert (le_val (padLoop 6 2 (x ++ [v]) t ++ [v / 4]) = t + 64 * le_val (x ++ [v])) as E.
  { rewrite le_val_app, Hpv. cbn [le_val]. unfold len. rewrite length_padLoop, length_app, Hx, Ev.
    change (256 ^ Z.of_nat (30 + length [v])) with (256 ^ Z.of_nat 30 * 256). change (2 ^ 6) with 64.
    assert (0 < 256 ^ Z.of_nat 30) as Hp by reflexivity. revert Hxb Hp. generalize (256 ^ Z.of_nat 30). intros B Hxb Hp.
    assert ((t + 64 * (le_val x + B * v)) / (B * 256) = v / 4) as Eq.
    { rewrite <- Z.div_div by lia. replace (t + 64 * (le_val x + B * v)) with (t + 64 * le_val x + (64 * v) * B) by ring.
      rewrite Z.div_add by lia. assert (0 <= (t + 64 * le_val x) / B < 64) by (split; [apply Z.div_pos; lia|apply Z.div_lt_upper_bound; lia]). dlia. }
    pose proof (Z.div_mod (t + 64 * (le_val x + B * v)) (B * 256) ltac:(lia)) as Hdm. rewrite Eq in Hdm. lia. }
  split; [done|]. rewrite E, Ev. change S254 with (256 ^ Z.of_nat 30 * (64 * 256)).
  assert (0 < 256 ^ Z.of_nat 30) as Hp by reflexivity. revert Hxb Hp. generalize (256 ^ Z.of_nat 30). intros B Hxb Hp. nia.
Qed.

Lemma le_val_groups (g0 g1 g2 g3 : bytes) :
  length g0 = 32%nat -> length g1 = 32%nat -> length g2 = 32%nat ->
  le_val (g0 ++ g1 ++ g2 ++ g3) = le_val g0 + S256 * (le_val g1 + S256 * (le_val g2 + S256 * le_val g3)).
Proof. intros H0 H1 H2. rewrite !le_val_app. unfold len. rewrite H0, H1, H2. reflexivity. Qed.

Lemma length_groups (g0 g1 g2 g3 : bytes) n :
  length g0 = 32%nat -> length g1 = 32%nat -> length g2 = 32%nat -> length g3 = n -> length (g0 ++ g1 ++ g2 ++ g3) = (96 + n)%nat.
Proof. rewrite !length_app. lia. Qed.

Lemma pad_chunk_val c :
  length c = 127%nat -> Forall is_byte c ->
  Forall is_byte (padChunk c) /\ length (padChunk c) = 128%nat /\ le_val (padChunk c) = spread 4 (le_val c).
Proof.
  intros Hl Hb. destruct (chunk_groups c Hl) as (x0 & v0 & x1 & v1 & x2 & v2 & x3 & v3 & -> & H0 & H1 & H2 & H3).
  rewrite padChunk_groups by done. apply Forall_app in Hb as [B0 Hb]. apply Forall_app in Hb as [B1 Hb]. apply Forall_app in Hb as [B2 B3].
  destruct (group_val x0 v0 31 B0 H0) as (E0 & X0 & V0). unfold is_byte in V0.
  destruct (mask_val (x0 ++ [v0]) B0) as (M0 & L0 & W0); [by rewrite length_app, H0|].
  unfold maskByte in M0, L0, W0. rewrite alter_last in M0, L0, W0 by done.
  rewrite !Z.shiftr_div_pow2 by lia. change (2 ^ 6) with 64. change (2 ^ 4) with 16. change (2 ^ 2) with 4.
  destruct (pad_group 2 x1 v1 (v0 / 64) ltac:(set_solver) B1 H1 ltac:(cbn; dlia)) as (M1 & L1 & W1 & C1 & T1).
  destruct (pad_group 4 x2 v2 (v1 / 16) ltac:(set_solver) B2 H2 T1) as (M2 & L2 & W2 & C2 & T2).
  destruct (pad_last x3 v3 (v2 / 4) B3 H3 T2) as (M3 & L3 & W3 & S3). rewrite Z.shiftr_div_pow2 in M3, L3, W3, S3 by lia.
  change (8 - 2) with 6 in *. change (8 - 4) with 4 in *. change (2 ^ (6 - 2)) with 16 in *. change (2 ^ (6 - 4)) with 4 in *. change (2 ^ 2) with 4 in *. change (2 ^ 4) with 16 in *.
  split; [repeat (apply Forall_app; split; [done|]); done|]. split; [rewrite !length_app in *; lia|].
  rewrite !le_val_groups by (try done; rewrite length_app; simpl; lia). rewrite W0, W1, W2, W3.
  symmetry. apply spread_groups; [|by rewrite C1|by rewrite C2|lia].
  rewrite E0. change S254 with (256 ^ Z.of_nat 31 * 64). assert (0 < 256 ^ Z.of_nat 31) as Hp by reflexivity.
  revert X0 Hp. generalize (256 ^ Z.of_nat 31). intros B X0 Hp. rewrite <- Z.div_div, (Z.mul_comm B), Z.div_add by lia.
  by rewrite (Z.div_small (le_val x0)), Z.add_0_l.
Qed.

(** ** An unpadded chunk *)

(** Equality of lists up to the nesting of [++]. *)
Ltac app_norm := repeat progress (cbn [app]; rewrite <- ?app_assoc); reflexivity.

Lemma unpadLoop_snoc r l a ns w x :
  unpadLoop r l a ((ns ++ [w]) ++ [x]) = unpadLoop r l a (ns ++ [w]) ++ [Z.lor (Z.shiftr w r) (shl8 x l)].
Proof. revert a. induction ns as [|n ns IH]; intros a; cbn [app unpadLoop]; [done|]. by rewrite IH. Qed.

(** A padded chunk: four groups of 32 bytes, the last of them with two zero bits. *)
Lemma padded_groups (p : bytes) :
  length p = 128%nat -> exists q0 w0 h1 q1 w1 h2 q2 w2 h3 q3 w3,
    p = (q0 ++ [w0]) ++ (h1 :: q1 ++ [w1]) ++ (h2 :: q2 ++ [w2]) ++ (h3 :: q3 ++ [w3]) /\
    length q0 = 31%nat /\ length q1 = 30%nat /\ length q2 = 30%nat /\ length q3 = 30%nat.
Proof.
  intros Hp. destruct (list_split p 32 96) as (g0 & r0 & -> & H0 & R0); [done|].
  destruct (list_split r0 32 64) as (g1 & r1 & -> & H1 & R1); [done|].
  destruct (list_split r1 32 32) as (g2 & g3 & -> & H2 & H3); [done|].
  destruct (list_snoc g0 31 H0) as (q0 & w0 & -> & ?).
  destruct g1 as [|h1 g1], g2 as [|h2 g2], g3 as [|h3 g3]; try done. simpl in H1, H2, H3.
  destruct (list_snoc g1 30 ltac:(lia)) as (q1 & w1 & -> & ?). destruct (list_snoc g2 30 ltac:(lia)) as (q2 & w2 & -> & ?).
  destruct (list_snoc g3 30 ltac:(lia)) as (q3 & w3 & -> & ?). by exists q0, w0, h1, q1, w1, h2, q2, w2, h3, q3, w3.
Qed.

Lemma unpadChunk_groups q0 w0 h1 q1 w1 h2 q2 w2 h3 q3 w3 :
  length q0 = 31%nat -> length q1 = 30%nat -> length q2 = 30%nat -> length q3 = 30%nat ->
  unpadChunk ((q0 ++ [w0]) ++ (h1 :: q1 ++ [w1]) ++ (h2 :: q2 ++ [w2]) ++ (h3 :: q3 ++ [w3])) =
  (q0 ++ [Z.lor w0 (shl8 h1 6)]) ++
  (unpadLoop 2 6 h1 (q1 ++ [w1]) ++ [Z.lxor (Z.lor (Z.shiftr w1 2) (shl8 h2 6)) (Z.lxor (shl8 h2 6) (shl8 h2 4))]) ++
  (unpadLoop 4 4 h2 (q2 ++ [w2]) ++ [Z.lxor (Z.lor (Z.shiftr w2 4) (shl8 h3 4)) (Z.lxor (shl8 h3 4) (shl8 h3 2))]) ++
  unpadLoop 6 2 h3 (q3 ++ [w3]).
Proof.
  intros H0 H1 H2 H3. unfold unpadChunk.
  set (p := (q0 ++ [w0]) ++ (h1 :: q1 ++ [w1]) ++ (h2 :: q2 ++ [w2]) ++ h3 :: q3 ++ [w3]).
  assert (p !!! 32%nat = h1) as -> by (subst p; apply list_lookup_total_middle; rewrite length_app; simpl; lia).
  assert (p !!! 64%nat = h2) as ->
    by (subst p; rewrite (assoc_L (++)); apply list_lookup_total_middle; rewrite !length_app; simpl; rewrite length_app; simpl; lia).
  assert (p !!! 96%nat = h3) as ->
    by (subst p; rewrite !(assoc_L (++)); apply list_lookup_total_middle; rewrite !length_app; simpl; rewrite !length_app; simpl; lia).
  assert (take 32 p = q0 ++ [w0]) as -> by (subst p; apply take_app_length'; rewrite length_app; simpl; lia).
  assert (take 32 (drop 33 p) = (q1 ++ [w1]) ++ [h2]) as ->.
  { subst p. transitivity (take 32 (drop 33 (((q0 ++ [w0]) ++ [h1]) ++ ((q1 ++ [w1]) ++ [h2]) ++ (q2 ++ [w2]) ++ h3 :: q3 ++ [w3])));
      [do 2 f_equal; app_norm|]. apply group_sub; rewrite !length_app; simpl; lia. }
  assert (take 32 (drop 65 p) = (q2 ++ [w2]) ++ [h3]) as ->.
  { subst p. transitivity (take 32 (drop 65 (((q0 ++ [w0]) ++ [h1] ++ (q1 ++ [w1]) ++ [h2]) ++ ((q2 ++ [w2]) ++ [h3]) ++ q3 ++ [w3])));
      [do 2 f_equal; app_norm|]. apply group_sub; rewrite !length_app; simpl; rewrite ?length_app; simpl; lia. }
  assert (take 31 (drop 97 p) = q3 ++ [w3]) as ->.
  { subst p. transitivity (take 31 (drop 97 (((q0 ++ [w0]) ++ [h1] ++ (q1 ++ [w1]) ++ [h2] ++ (q2 ++ [w2]) ++ [h3]) ++ (q3 ++ [w3]) ++ [])));
      [do 2 f_equal; rewrite app_nil_r; app_norm|]. apply group_sub; rewrite !length_app; simpl; rewrite ?length_app; simpl; lia. }
  rewrite !unpadLoop_snoc, !alter_last by (rewrite ?length_unpadLoop, ?length_app; simpl; lia). done.
Qed.

(** A group without its carry, and the low bits of the next group. *)
Lemma unpad_group l h q w x :
  l ∈ [4; 6] -> Forall is_byte (h :: q ++ [w]) -> length q = 30%nat -> is_byte x -> w < 64 ->
  let o := unpadLoop (8 - l) l h (q ++ [w]) ++ [Z.lxor (Z.lor (Z.shiftr w (8 - l)) (shl8 x l)) (Z.lxor (shl8 x l) (shl8 x (l - 2)))] in
  Forall is_byte o /\ length o = 32%nat /\
  le_val o = le_val (h :: q ++ [w]) / 2 ^ (8 - l) + 256 ^ Z.of_nat 31 * (x mod 2 ^ (10 - l) * 2 ^ (l - 2)).
Proof.
  intros Hl Hb Hq Hx Hw. cbv zeta. assert (l ∈ [2; 4; 6]) as Hl' by set_solver.
  pose proof Hb as [Hh Hqw]%Forall_cons. destruct (unpadLoop_val l h (q ++ [w]) Hl' Hh Hqw) as [Ub Uv].
  assert (is_byte w) as Hwb by (apply Forall_app in Hqw as [_ Hw']; by rewrite Forall_singleton in Hw').
  assert (0 <= Z.shiftr w (8 - l) < 2 ^ (l - 2)) as Hu.
  { unfold is_byte in Hwb. set_unfold in Hl. destruct Hl as [->|[->|[]]]; rewrite Z.shiftr_div_pow2 by lia; cbn; dlia. }
  rewrite move_bits by (done || (set_unfold in Hl; lia)). replace (8 - (l - 2)) with (10 - l) by lia.
  rewrite Z.shiftr_div_pow2 in * by (set_unfold in Hl; lia).
  split; [|split].
  - apply Forall_app. split; [done|]. apply Forall_singleton. unfold is_byte in *. set_unfold in Hl. destruct Hl as [->|[->|[]]]; cbn in *; dlia.
  - by rewrite length_app, length_unpadLoop, length_app, Hq.
  - rewrite le_val_app, Uv. cbn [le_val]. unfold len. rewrite length_unpadLoop, length_app, Hq.
    change (Z.of_nat (30 + length [w])) with (Z.of_nat 31).
    change (h + 256 * le_val (q ++ [w])) with (le_val ((h :: q) ++ [w])).
    destruct (group_val (h :: q) w 31 Hb) as (Ev & Hxb & _); [simpl; lia|]. rewrite Ev.
    assert (0 < 256 ^ Z.of_nat 31) as Hp by reflexivity. revert Hxb Hp. generalize (256 ^ Z.of_nat 31). intros B Hxb Hp.
    assert (((le_val (h :: q) + B * w) / 2 ^ (8 - l)) / B = w / 2 ^ (8 - l)) as Eq.
    { assert (0 < 2 ^ (8 - l)) by (set_unfold in Hl; destruct Hl as [->|[->|[]]]; reflexivity).
      rewrite Z.div_div, (Z.mul_comm _ B), <- Z.div_div, (Z.mul_comm B w), Z.div_add by lia.
      by rewrite (Z.div_small (le_val _)), Z.add_0_l. }
    pose proof (Z.div_mod ((le_val (h :: q) + B * w) / 2 ^ (8 - l)) B ltac:(lia)) as Hdm. rewrite Eq in Hdm. lia.
Qed.

(** The digits of a padded number have two zero bits. *)
Lemma spread_digit n v b x :
  0 <= b < S256 -> b + S256 * x = spread (S n) v -> b = v mod S254 /\ x = spread n (v / S254).
Proof.
  intros Hb E. cbn [spread] in E. pose proof S254_pos. pose proof (Z.mod_pos_bound v S254 ltac:(lia)).
  rewrite S256_eq in *. revert E. generalize (spread n (v / S254)). intros y E.
  assert (x = y) as -> by nia. lia.
Qed.

Lemma top_byte (l : bytes) w : Forall is_byte (l ++ [w]) -> length l = 31%nat -> le_val (l ++ [w]) < S254 -> w < 64.
Proof.
  intros Hb Hl Hlt. destruct (group_val l w 31 Hb Hl) as (E & Hx & _). rewrite E in Hlt.
  change S254 with (256 ^ Z.of_nat 31 * 64) in Hlt. revert Hx Hlt. generalize (256 ^ Z.of_nat 31). nia.
Qed.

Lemma group32_bound (l : bytes) : Forall is_byte l -> length l = 32%nat -> 0 <= le_val l < S256.
Proof. intros Hb Hl. pose proof (le_val_bound l Hb) as H. unfold len in H. by rewrite Hl in H. Qed.

(** The groups of the unpadded chunk, with [B] for [256 ^ 31]. *)
Lemma unpad_sum B b0 b1 b2 b3 :
  (b0 + B * (b1 mod 4 * 64)) +
  256 * B * ((b1 / 4 + B * (b2 mod 16 * 16)) + 256 * B * ((b2 / 16 + B * (b3 mod 64 * 4)) + 256 * B * (b3 / 64))) =
  b0 + 64 * B * (b1 + 64 * B * (b2 + 64 * B * b3)).
Proof.
  rewrite (Z.div_mod b1 4) at 3 by lia. rewrite (Z.div_mod b2 16) at 3 by lia. rewrite (Z.div_mod b3 64) at 3 by lia. ring.
Qed.

Lemma head_mod h (l : bytes) k : k ∈ [4; 16; 64] -> h mod k = le_val (h :: l) mod k.
Proof. cbn [le_val]. set_unfold. intros [->|[->|[->|[]]]]; dlia. Qed.

(** The first group gets the two low bits of the second. *)
Lemma unpad_first q w h :
  Forall is_byte (q ++ [w]) -> length q = 31%nat -> is_byte h -> w < 64 ->
  let o := q ++ [Z.lor w (shl8 h 6)] in
  Forall is_byte o /\ length o = 32%nat /\ le_val o = le_val (q ++ [w]) + 256 ^ Z.of_nat 31 * (h mod 4 * 64).
Proof.
  intros Hb Hq Hh Hw. cbv zeta. pose proof (group_val q w 31 Hb Hq) as (Ev & _ & Hwb). unfold is_byte in *.
  rewrite Z.lor_comm, lor_shl8 by (cbn; lia). change (2 ^ (8 - 6)) with 4. change (2 ^ 6) with 64.
  assert (Forall is_byte (q ++ [h mod 4 * 64 + w])) as Hb'.
  { apply Forall_app in Hb as [Hb _]. apply Forall_app. split; [done|]. apply Forall_singleton. unfold is_byte. dlia. }
  split; [done|]. split; [by rewrite length_app, Hq|]. rewrite (proj1 (group_val q _ 31 Hb' Hq)), Ev. ring.
Qed.

(** The last group. *)
Lemma unpad_last h q w :
  Forall is_byte (h :: q ++ [w]) -> length q = 30%nat -> le_val (h :: q ++ [w]) < S254 ->
  let o := unpadLoop 6 2 h (q ++ [w]) in
  Forall is_byte o /\ length o = 31%nat /\ le_val o = le_val (h :: q ++ [w]) / 64.
Proof.
  intros Hb Hq Hlt. cbv zeta. pose proof (le_val_bound _ Hb) as [Hnn _]. pose proof Hb as [Hh Hqw]%Forall_cons.
  destruct (unpadLoop_val 2 h (q ++ [w]) ltac:(set_solver) Hh Hqw) as [U V]. change (8 - 2) with 6 in *.
  split; [done|]. split; [by rewrite length_unpadLoop, length_app, Hq|]. rewrite V. unfold len. rewrite length_app, Hq.
  apply Z.mod_small. change (2 ^ 6) with 64. change S254 with (64 * 256 ^ Z.of_nat (30 + length [w])) in Hlt.
  split; [apply Z.div_pos; lia|apply Z.div_lt_upper_bound; lia].
Qed.

Lemma unpad_chunk_val p v :
  length p = 128%nat -> Forall is_byte p -> le_val p = spread 4 v ->
  Forall is_byte (unpadChunk p) /\ length (unpadChunk p) = 127%nat /\ le_val (unpadChunk p) = gather 4 (le_val p).
Proof.
  intros Hl Hb Hv.
  destruct (padded_groups p Hl) as (q0 & w0 & h1 & q1 & w1 & h2 & q2 & w2 & h3 & q3 & w3 & -> & H0 & H1 & H2 & H3).
  apply Forall_app in Hb as [B0 Hb]. apply Forall_app in Hb as [B1 Hb]. apply Forall_app in Hb as [B2 B3].
  rewrite le_val_groups in * by (simpl; rewrite ?length_app; simpl; lia).
  pose proof (group32_bound _ B0 ltac:(rewrite length_app; simpl; lia)) as G0.
  pose proof (group32_bound _ B1 ltac:(simpl; rewrite length_app; simpl; lia)) as G1.
  pose proof (group32_bound _ B2 ltac:(simpl; rewrite length_app; simpl; lia)) as G2.
  pose proof (group32_bound _ B3 ltac:(simpl; rewrite length_app; simpl; lia)) as G3.
  destruct (spread_digit _ _ _ _ G0 Hv) as [D0 Hv1]. destruct (spread_digit _ _ _ _ G1 Hv1) as [D1 Hv2].
  destruct (spread_digit _ _ _ _ G2 Hv2) as [D2 Hv3].
  assert (le_val (h3 :: q3 ++ [w3]) < S254) as D3.
  { cbn [spread] in Hv3. pose proof (Z.mod_pos_bound (v / S254 / S254 / S254) S254 S254_pos). lia. }
  pose proof (Z.mod_pos_bound v S254 S254_pos) as M0. pose proof (Z.mod_pos_bound (v / S254) S254 S254_pos) as M1.
  pose proof (Z.mod_pos_bound (v / S254 / S254) S254 S254_pos) as M2.
  rewrite gather_groups by done. clear Hv Hv1 Hv2 Hv3.
  assert (w0 < 64) as W0 by (eapply (top_byte q0); [done..|lia]).
  assert (w1 < 64) as W1 by (eapply (top_byte (h1 :: q1)); [done|simpl; lia|cbn [app]; lia]).
  assert (w2 < 64) as W2 by (eapply (top_byte (h2 :: q2)); [done|simpl; lia|cbn [app]; lia]).
  pose proof B1 as [Hh1 _]%Forall_cons. pose proof B2 as [Hh2 _]%Forall_cons. pose proof B3 as [Hh3 _]%Forall_cons.
  rewrite unpadChunk_groups by done.
  destruct (unpad_group 6 h1 q1 w1 h2 ltac:(set_solver) B1 H1 Hh2 W1) as (U1 & L1 & V1).
  destruct (unpad_group 4 h2 q2 w2 h3 ltac:(set_solver) B2 H2 Hh3 W2) as (U2 & L2 & V2).
  destruct (unpad_first q0 w0 h1 B0 H0 Hh1 W0) as (U0 & L0 & V0). destruct (unpad_last h3 q3 w3 B3 H3 D3) as (U3 & L3 & V3).
  change (8 - 6) with 2 in *. change (6 - 2) with 4 in *. change (8 - 4) with 4 in *. change (4 - 2) with 2 in *.
  split; [repeat (apply Forall_app; split; [done|]); done|]. split; [by apply (length_groups _ _ _ _ 31)|].
  rewrite le_val_groups by done. rewrite V0, V1, V2, V3.
  change (2 ^ (10 - 6)) with 16. change (2 ^ (10 - 4)) with 64. change (2 ^ 2) with 4. change (2 ^ 4) with 16.
  rewrite (head_mod h1 (q1 ++ [w1]) 4), (head_mod h2 (q2 ++ [w2]) 16), (head_mod h3 (q3 ++ [w3]) 64) by set_solver.
  rewrite <- (unpad_sum (256 ^ Z.of_nat 31)). reflexivity.
Qed.

Lemma chunk_roundtrip c : length c = 127%nat -> Forall is_byte c -> unpadChunk (padChunk c) = c.
Proof.
  intros Hl Hb. destruct (pad_chunk_val c Hl Hb) as (Pb & Pl & Pv).
  destruct (unpad_chunk_val (padChunk c) (le_val c) Pl Pb Pv) as (Ub & Ul & Uv).
  apply le_val_inj; [done|done|congruence|]. pose proof (le_val_bound c Hb) as Hv. unfold len in Hv. rewrite Hl in Hv.
  rewrite Uv, Pv, gather_spread by lia. apply Z.mod_small. exact Hv.
Qed.

(** ** Buffers as lists of blocks of equal length *)

Definition blocks (b : nat) (ls : list bytes) : Prop := Forall (fun l => length l = b) ls.

Lemma length_blocks b ls : blocks b ls -> length (concat ls) = (b * length ls)%nat.
Proof. induction 1 as [|l ls Hl _ IH]; cbn [concat length]; [lia|]. rewrite length_app, Hl, IH. lia. Qed.

Lemma blocks_exist b n (l : bytes) : length l = (b * n)%nat -> exists ls, l = concat ls /\ blocks b ls /\ length ls = n.
Proof.
  revert l. induction n as [|n IH]; intros l Hl.
  - exists []. destruct l; [|simpl in Hl; lia]. repeat split. constructor.
  - destruct (list_split l b (b * n)) as (l1 & l2 & -> & H1 & H2); [lia|]. destruct (IH l2 H2) as (ls & -> & Hb & Hn).
    exists (l1 :: ls). split; [done|]. split; [by constructor|simpl; lia].
Qed.

(** A block and what is around it. *)
Lemma blocks_at b ls i l :
  blocks b ls -> ls !! i = Some l ->
  exists pre post, ls = pre ++ l :: post /\ length pre = i /\ length (concat pre) = (b * i)%nat /\ length l = b.
Proof.
  intros Hb Hi. exists (take i ls), (drop (S i) ls). pose proof (lookup_lt_Some _ _ _ Hi).
  assert (ls = take i ls ++ l :: drop (S i) ls) as E by (by rewrite take_drop_middle).
  split; [done|]. split; [rewrite length_take; lia|]. split.
  - rewrite (length_blocks b) by (by apply Forall_take). rewrite length_take. f_equal. lia.
  - by apply (Forall_lookup_1 _ _ _ _ Hb Hi).
Qed.

Lemma slice_block b ls i l off :
  blocks b ls -> ls !! i = Some l -> off = Z.of_nat b * Z.of_nat i -> slice (concat ls) off (off + Z.of_nat b) = Ret l.
Proof.
  intros Hb Hi ->. destruct (blocks_at b ls i l Hb Hi) as (pre & post & -> & _ & Hp & Hl).
  rewrite concat_app. cbn [concat]. apply slice_mid; unfold len; lia.
Qed.

Lemma write_block b ls i l l' off :
  blocks b ls -> ls !! i = Some l -> off = Z.of_nat b * Z.of_nat i -> length l' = b ->
  write (concat ls) off l' = concat (<[i := l']> ls).
Proof.
  intros Hb Hi -> Hl'. destruct (blocks_at b ls i l Hb Hi) as (pre & post & -> & Hlen & Hp & Hl).
  unfold write. rewrite <- Hlen at 3. replace (length pre) with (length pre + 0)%nat by lia. rewrite insert_app_r. cbn [insert list_insert].
  rewrite !concat_app. cbn [concat]. replace (Z.to_nat _) with (length (concat pre)) by lia.
  rewrite take_app_length. f_equal. f_equal.
  rewrite (assoc_L (++)). apply drop_app_length'. rewrite length_app. lia.
Qed.

Lemma blocks_insert b ls i l : blocks b ls -> length l = b -> blocks b (<[i := l]> ls).
Proof. intros. by apply Forall_insert. Qed.

(** The blocks at the indices of [order] replaced. *)
Definition updAll (f : nat -> bytes) (order : list nat) (ls : list bytes) : list bytes :=
  foldl (fun ls i => <[i := f i]> ls) ls order.

Lemma length_updAll f order ls : length (updAll f order ls) = length ls.
Proof. revert ls. induction order as [|i order IH]; intros ls; [done|]. cbn. unfold updAll in IH. by rewrite IH, length_insert. Qed.

Lemma updAll_lookup f order ls i :
  (i < length ls)%nat -> i ∈ order -> updAll f order ls !! i = Some (f i).
Proof.
  revert ls. induction order as [|j order IH] using rev_ind; intros ls Hi; [by intros ?%elem_of_nil|].
  unfold updAll in *. rewrite foldl_app. cbn [foldl]. rewrite elem_of_app, list_elem_of_singleton. intros Hin.
  pose proof (length_updAll f order ls) as Hl. unfold updAll in Hl.
  destruct (decide (i = j)) as [->|Hne]; [apply list_lookup_insert_eq; lia|].
  rewrite list_lookup_insert_ne by done. apply IH; [done|]. destruct Hin; [done|congruence].
Qed.

(** When all indices are there, the order does not matter. *)
Lemma updAll_all {A} f (g : A -> bytes) order xs ls :
  order ≡ₚ seq 0 (length xs) -> length ls = length xs -> (forall i x, xs !! i = Some x -> f i = g x) ->
  updAll f order ls = g <$> xs.
Proof.
  intros Ho Hl Hf. apply list_eq_same_length with (length xs); [by rewrite length_fmap|by rewrite length_updAll|].
  intros i y y' Hi Hy Hy'. rewrite updAll_lookup in Hy by (try lia; rewrite Ho, elem_of_seq; lia). injection Hy as <-.
  rewrite list_lookup_fmap in Hy'. destruct (xs !! i) as [x|] eqn:Ex; [|done]. injection Hy' as <-. by apply Hf.
Qed.
