(* ===== verification/Fr32Props.v ===== *)
(** * Properties of Fr32 padding

    [Pad] and [Unpad] on buffers of the size of a piece: whatever the number of threads and
    the order they run in, the result is that of chunk after chunk, and the two are inverse. *)

From S2P Require Import Prelude Pieces Fr32.

(** ** Chunk after chunk *)

Lemma pad_loop_ok order cs ps :
  blocks 127 cs -> Forall (Forall is_byte) cs -> blocks 128 ps -> length ps = length cs -> Forall (fun i => (i < length cs)%nat) order ->
  pad_loop order (concat cs) (concat ps) = Ret (concat cs, concat (updAll (fun i => padChunk (cs !!! i)) order ps)).
Proof.
  intros Hcs Hb Hps Hl Ho. revert ps Hps Hl. induction Ho as [|i order Hi Ho IH]; intros ps Hps Hl; cbn [pad_loop updAll foldl]; [done|].
  destruct (lookup_lt_is_Some_2 cs i Hi) as [c Hc]. destruct (lookup_lt_is_Some_2 ps i) as [p Hp]; [lia|].
  rewrite (slice_block 127 cs i c) by (done || lia). cbn [mbind outcome_bind].
  rewrite (list_lookup_total_correct _ _ _ Hc).
  destruct (pad_chunk_val c) as (_ & Hlen & _); [by apply (Forall_lookup_1 _ _ _ _ Hcs Hc)|by apply (Forall_lookup_1 _ _ _ _ Hb Hc)|].
  rewrite (write_block 128 ps i p) by (done || lia). apply IH; [by apply blocks_insert|by rewrite length_insert].
Qed.

(** What padding a buffer gives, chunk by chunk. *)
Definition padAll (cs : list bytes) : bytes := concat (padChunk <$> cs).

Lemma updAll_seq (g : bytes -> bytes) xs ls :
  length ls = length xs -> updAll (fun i => g (xs !!! i)) (seq 0 (length xs)) ls = g <$> xs.
Proof. intros Hl. apply updAll_all; [done|done|]. intros i x Hx. by rewrite (list_lookup_total_correct _ _ _ Hx). Qed.

Lemma pad_ok cs out :
  blocks 127 cs -> Forall (Forall is_byte) cs -> length out = (128 * length cs)%nat -> pad (concat cs) out = Ret (concat cs, padAll cs).
Proof.
  intros Hcs Hb Hl. unfold pad. destruct (blocks_exist 128 (length cs) out Hl) as (ps & -> & Hps & Hn).
  rewrite Hl, Nat.mul_comm, Nat.div_mul by lia.
  rewrite pad_loop_ok by (try done; apply Forall_forall; intros i; rewrite elem_of_seq; lia).
  by rewrite (updAll_seq padChunk cs ps).
Qed.

Lemma unpad_loop_ok order ps us :
  blocks 128 ps -> Forall (fun p => length (unpadChunk p) = 127%nat) ps -> blocks 127 us -> length us = length ps ->
  Forall (fun i => (i < length ps)%nat) order ->
  unpad_loop order (concat us) (concat ps) = Ret (concat (updAll (fun i => unpadChunk (ps !!! i)) order us), concat ps).
Proof.
  intros Hps Hu Hus Hl Ho. revert us Hus Hl. induction Ho as [|i order Hi Ho IH]; intros us Hus Hl; cbn [unpad_loop updAll foldl]; [done|].
  destruct (lookup_lt_is_Some_2 ps i Hi) as [p Hp]. destruct (lookup_lt_is_Some_2 us i) as [u Hu']; [lia|].
  rewrite (slice_block 128 ps i p) by (done || lia). cbn [mbind outcome_bind].
  rewrite (slice_block 127 us i u) by (done || lia). cbn [mbind outcome_bind].
  rewrite (list_lookup_total_correct _ _ _ Hp). pose proof (Forall_lookup_1 _ _ _ _ Hu Hp) as Hlen.
  rewrite (write_block 127 us i u) by (done || lia). apply IH; [by apply blocks_insert|by rewrite length_insert].
Qed.

Lemma padChunks_ok cs :
  blocks 127 cs -> Forall (Forall is_byte) cs ->
  blocks 128 (padChunk <$> cs) /\ Forall (fun p => length (unpadChunk p) = 127%nat) (padChunk <$> cs) /\
  unpadChunk <$> (padChunk <$> cs) = cs.
Proof.
  intros Hcs. induction Hcs as [|c cs Hc Hcs IH]; intros Hb; [repeat constructor|]. apply Forall_cons in Hb as [Hb Hbs].
  destruct (IH Hbs) as (H1 & H2 & H3). cbn. pose proof (chunk_roundtrip c Hc Hb) as E. rewrite H3, E.
  destruct (pad_chunk_val c Hc Hb) as (_ & Hl & _). split; [by constructor|]. split; [|done]. constructor; [by rewrite E|done].
Qed.

Lemma unpad_ok cs out :
  blocks 127 cs -> Forall (Forall is_byte) cs -> length out = (127 * length cs)%nat -> unpad out (padAll cs) = Ret (concat cs, padAll cs).
Proof.
  intros Hcs Hb Hl. unfold unpad, padAll. destruct (padChunks_ok cs Hcs Hb) as (Hps & Hu & E).
  destruct (blocks_exist 127 (length cs) out Hl) as (us & -> & Hus & Hn). set (ps := padChunk <$> cs) in *.
  assert (length ps = length cs) as Hlp by apply length_fmap.
  rewrite (length_blocks 128) by done. rewrite Nat.mul_comm, Nat.div_mul by lia.
  rewrite unpad_loop_ok; [|done|done|done|congruence|apply Forall_forall; intros i; rewrite elem_of_seq; lia].
  rewrite (updAll_seq unpadChunk ps us) by congruence. by rewrite E.
Qed.

(** ** Threads *)

(** Groups of [m] chunks. *)
Lemma regroup m cs T :
  blocks 127 cs -> length cs = (m * T)%nat ->
  exists gs, cs = concat gs /\ Forall (fun g => length g = m /\ blocks 127 g) gs /\ length gs = T.
Proof.
  revert cs. induction T as [|T IH]; intros cs Hcs Hl.
  - exists []. destruct cs; [|simpl in Hl; lia]. done.
  - destruct (list_split cs m (m * T)) as (g & r & -> & Hg & Hr); [lia|]. apply Forall_app in Hcs as [Hcg Hcr].
    destruct (IH r Hcr Hr) as (gs & -> & Hgs & Hn). exists (g :: gs). split; [done|]. split; [by constructor|simpl; lia].
Qed.

Section mt.
Context `{PieceSizesOk}.

Lemma Unpadded_block m i :
  in_u64 (128 * m * Z.of_nat i) -> Unpadded (128 * m * Z.of_nat i) = 127 * m * Z.of_nat i.
Proof.
  intros Hr. rewrite Unpadded_ok by done. replace (128 * m * Z.of_nat i) with (m * Z.of_nat i * 128) by ring.
  rewrite Z.div_mul by lia. ring.
Qed.

(** [op] turns every pair of blocks [u], [p] at [i] into [fu i] and [fp i]. *)
Lemma mtThreads_ok op m order us ps fu fp :
  blocks (127 * m) us -> blocks (128 * m) ps -> length us = length ps ->
  in_u64 (128 * Z.of_nat m * Z.of_nat (length ps)) -> Forall (fun i => (i < length ps)%nat) order ->
  (forall i, (i < length ps)%nat -> length (fu i) = (127 * m)%nat /\ length (fp i) = (128 * m)%nat /\
    forall u p, (u = us !!! i \/ u = fu i) -> (p = ps !!! i \/ p = fp i) -> op u p = Ret (fu i, fp i)) ->
  mtThreads op (128 * Z.of_nat m) order (concat us) (concat ps) =
    Ret (concat (updAll fu order us), concat (updAll fp order ps)).
Proof.
  intros Hus Hps Hl Hr Ho Hop.
  cut (forall us' ps', blocks (127 * m) us' -> blocks (128 * m) ps' -> length us' = length us -> length ps' = length ps ->
    (forall i, (i < length ps)%nat -> (us' !!! i = us !!! i \/ us' !!! i = fu i) /\ (ps' !!! i = ps !!! i \/ ps' !!! i = fp i)) ->
    mtThreads op (128 * Z.of_nat m) order (concat us') (concat ps') = Ret (concat (updAll fu order us'), concat (updAll fp order ps'))).
  { intros Hcut. apply Hcut; auto. }
  induction Ho as [|i order Hi Ho IH]; intros us' ps' Hus' Hps' Hlu Hlp Hst; cbn [mtThreads updAll foldl]; [done|].
  destruct (lookup_lt_is_Some_2 us' i) as [u Hu]; [lia|]. destruct (lookup_lt_is_Some_2 ps' i) as [p Hp]; [lia|].
  destruct (Hop i Hi) as (Lu & Lp & Hrun). destruct (Hst i Hi) as [Su Sp].
  rewrite (list_lookup_total_correct _ _ _ Hu) in Su. rewrite (list_lookup_total_correct _ _ _ Hp) in Sp.
  unfold mtThread. replace (128 * Z.of_nat m * Z.of_nat i + 128 * Z.of_nat m) with (128 * Z.of_nat m * Z.of_nat (S i)) by lia.
  unfold in_u64 in Hr. rewrite !Unpadded_block by (unfold in_u64; nia).
  replace (127 * Z.of_nat m * Z.of_nat (S i)) with (127 * Z.of_nat m * Z.of_nat i + Z.of_nat (127 * m)) by lia.
  rewrite (slice_block (127 * m) us' i u) by (done || lia). cbn [mbind outcome_bind].
  replace (128 * Z.of_nat m * Z.of_nat (S i)) with (128 * Z.of_nat m * Z.of_nat i + Z.of_nat (128 * m)) by lia.
  rewrite (slice_block (128 * m) ps' i p) by (done || lia). cbn [mbind outcome_bind].
  rewrite Hrun by done. cbn [mbind outcome_bind].
  rewrite (write_block (127 * m) us' i u), (write_block (128 * m) ps' i p) by (done || lia).
  apply IH; rewrite ?length_insert; [by apply blocks_insert|by apply blocks_insert|done|done|].
  intros j Hj. destruct (decide (i = j)) as [<-|Hne].
  - rewrite !list_lookup_total_insert_eq by lia. auto.
  - rewrite !list_lookup_total_insert_ne by done. by apply Hst.
Qed.

Lemma mtChunkCount_pow2 NumCPU k :
  19 <= k < 64 -> 1 <= NumCPU < 2 ^ 32 -> exists j, 0 <= j <= k - 19 /\ mtChunkCount NumCPU (2 ^ k) = 2 ^ j.
Proof.
  intros Hk HN. unfold mtChunkCount, MTTresh, Len32. change 524288 with (2 ^ 19).
  rewrite <- Z.pow_sub_r by lia. rewrite (proj2 (Z.eqb_neq NumCPU 0)) by lia. pose proof (Z.log2_nonneg NumCPU).
  set (threads := if NumCPU <? 2 ^ (k - 19) then _ else _).
  assert (exists j, 0 <= j <= k - 19 /\ threads = 2 ^ j) as (j & Hj & ->).
  { subst threads. destruct (Z.ltb_spec NumCPU (2 ^ (k - 19))) as [Hlt|Hge]; [|exists (k - 19); split; [lia|done]].
    apply Z.log2_lt_pow2 in Hlt; [|lia]. exists (Z.log2 NumCPU + 1). split; [lia|].
    rewrite Z.shiftl_1_l. apply u64_id. unfold in_u64. split; [apply Z.pow_nonneg; lia|].
    apply (Z.pow_lt_mono_r 2 _ 64); lia. }
  pose proof (Z.pow_pos_nonneg 2 j ltac:(lia) ltac:(lia)). rewrite (proj2 (Z.eqb_neq (2 ^ j) 0)) by lia.
  destruct (Z.ltb_spec 32 (2 ^ j)) as [Hlt|Hge]; [|by exists j].
  exists 5. split; [|done]. change 32 with (2 ^ 5) in Hlt. apply Z.pow_lt_mono_r_iff in Hlt; lia.
Qed.

(** ** Pieces *)

(** The groups of chunks that the threads work on, for a piece of [2 ^ k] bytes. *)
Lemma piece_groups NumCPU k cs :
  20 <= k < 63 -> 1 <= NumCPU < 2 ^ 32 -> blocks 127 cs -> Forall (Forall is_byte) cs -> Z.of_nat (length cs) = 2 ^ (k - 7) ->
  exists m T gs, mtChunkCount NumCPU (2 ^ k) = Z.of_nat T /\ 2 ^ k / Z.of_nat T = 128 * Z.of_nat m /\
    cs = concat gs /\ length gs = T /\ in_u64 (128 * Z.of_nat m * Z.of_nat T) /\
    Forall (fun g => length g = m /\ blocks 127 g /\ Forall (Forall is_byte) g) gs.
Proof.
  intros Hk HN Hcs Hb Hl. destruct (mtChunkCount_pow2 NumCPU k) as (j & Hj & Ej); [lia|done|].
  exists (Z.to_nat (2 ^ (k - 7 - j))), (Z.to_nat (2 ^ j)).
  pose proof (Z.pow_pos_nonneg 2 j ltac:(lia) ltac:(lia)). pose proof (Z.pow_pos_nonneg 2 (k - 7 - j) ltac:(lia) ltac:(lia)).
  assert (2 ^ (k - 7) = 2 ^ (k - 7 - j) * 2 ^ j) as Ek by (rewrite <- Z.pow_add_r by lia; f_equal; lia).
  assert (2 ^ k = 128 * 2 ^ (k - 7 - j) * 2 ^ j) as Ek2.
  { change 128 with (2 ^ 7). rewrite <- !Z.pow_add_r by lia. f_equal. lia. }
  destruct (regroup (Z.to_nat (2 ^ (k - 7 - j))) cs (Z.to_nat (2 ^ j)) Hcs) as (gs & -> & Hgs & Hn); [lia|].
  exists gs. rewrite !Z2Nat.id by lia. split; [done|]. split; [by rewrite Ek2, Z.div_mul by lia|].
  split; [done|]. split; [done|]. split.
  - rewrite <- Ek2. unfold in_u64. split; [lia|]. apply (Z.pow_lt_mono_r 2 k 64); lia.
  - clear Hl Hcs Hn. induction Hgs as [|g gs [? ?] _ IH]; constructor; cbn [concat] in Hb; apply Forall_app in Hb as [? ?]; auto.
Qed.

Lemma groups_at gs i m :
  Forall (fun g => length g = m /\ blocks 127 g /\ Forall (Forall is_byte) g) gs -> (i < length gs)%nat ->
  length (gs !!! i) = m /\ blocks 127 (gs !!! i) /\ Forall (Forall is_byte) (gs !!! i) /\
  length (concat (gs !!! i)) = (127 * m)%nat /\ length (padAll (gs !!! i)) = (128 * m)%nat.
Proof.
  intros Hgs Hi. destruct (lookup_lt_is_Some_2 gs i Hi) as [g Hg]. rewrite (list_lookup_total_correct _ _ _ Hg).
  destruct (Forall_lookup_1 _ _ _ _ Hgs Hg) as (<- & Hc & Hb). split; [done|]. split; [done|]. split; [done|].
  split; [by apply length_blocks|]. destruct (padChunks_ok g Hc Hb) as (Hp & _ & _). unfold padAll.
  by rewrite (length_blocks 128), length_fmap by done.
Qed.

Lemma groups_blocks (f : list bytes -> bytes) gs n : Forall (fun g => length (f g) = n) gs -> blocks n (f <$> gs).
Proof. intros Hgs. by apply Forall_fmap. Qed.

Lemma concat_padAll gs : concat (padAll <$> gs) = padAll (concat gs).
Proof.
  unfold padAll. induction gs as [|g gs IH]; [done|]. cbn [fmap list_fmap concat]. by rewrite IH, fmap_app, concat_app.
Qed.

Lemma concat_concat gs : concat (@concat Z <$> gs) = concat (concat gs).
Proof. induction gs as [|g gs IH]; [done|]. cbn [fmap list_fmap concat]. by rewrite IH, concat_app. Qed.

(** All blocks of the two buffers are processed, in whatever order. *)
Lemma mt_groups op m gs order us ps :
  Forall (fun g => length g = m /\ blocks 127 g /\ Forall (Forall is_byte) g) gs ->
  blocks (127 * m) us -> blocks (128 * m) ps -> length us = length gs -> length ps = length gs ->
  in_u64 (128 * Z.of_nat m * Z.of_nat (length gs)) -> order ≡ₚ seq 0 (length gs) ->
  (forall i u p, (i < length gs)%nat -> (u = us !!! i \/ u = concat (gs !!! i)) -> (p = ps !!! i \/ p = padAll (gs !!! i)) ->
    op u p = Ret (concat (gs !!! i), padAll (gs !!! i))) ->
  mtThreads op (128 * Z.of_nat m) order (concat us) (concat ps) = Ret (concat (concat gs), padAll (concat gs)).
Proof using All.
  intros Hgs Hus Hps Hlu Hlp Hr Ho Hop.
  rewrite (mtThreads_ok op m order us ps (fun i => concat (gs !!! i)) (fun i => padAll (gs !!! i))); [|done|done|congruence|congruence| |].
  - rewrite <- concat_concat, <- concat_padAll. f_equal. f_equal; f_equal.
    + apply (updAll_all _ (@concat Z)); [done|done|]. intros i g Hg. by rewrite (list_lookup_total_correct _ _ _ Hg).
    + apply (updAll_all _ padAll); [done|done|]. intros i g Hg. by rewrite (list_lookup_total_correct _ _ _ Hg).
  - rewrite Ho. apply Forall_forall. intros i. rewrite elem_of_seq. lia.
  - intros i Hi. rewrite Hlp in Hi. destruct (groups_at gs i m Hgs Hi) as (_ & _ & _ & ? & ?). eauto 6.
Qed.
End mt.

Section pieces.
Context `{PieceSizesOk} (NumCPU : Z) (HN : 1 <= NumCPU < 2 ^ 32).

(** The size of a piece is a power of two from 128 on; every thread runs once. *)
Definition all_threads (k : Z) (order : list nat) : Prop := order ≡ₚ seq 0 (Z.to_nat (mtChunkCount NumCPU (2 ^ k))).

Lemma Pad_ok k cs out order :
  7 <= k < 63 -> blocks 127 cs -> Forall (Forall is_byte) cs -> Z.of_nat (length cs) = 2 ^ (k - 7) ->
  length out = (128 * length cs)%nat -> all_threads k order ->
  Pad NumCPU order (concat cs) out = Ret (concat cs, padAll cs).
Proof using All.
  intros Hk Hcs Hb Hl Hlo Ho. unfold Pad.
  assert (len out = 2 ^ k) as Elen by (unfold len; rewrite Hlo, Nat2Z.inj_mul, Hl; change (Z.of_nat 128) with (2 ^ 7); rewrite <- Z.pow_add_r by lia; f_equal; lia).
  destruct (Z.ltb_spec MTTresh (len out)) as [Hlt|_]; [|by apply pad_ok]. rewrite Elen in *. change MTTresh with (2 ^ 19) in Hlt.
  apply Z.pow_lt_mono_r_iff in Hlt; [|lia..].
  destruct (piece_groups NumCPU k cs) as (m & T & gs & ET & Em & -> & Hn & Hr & Hgs); [lia|done..|].
  unfold mt, all_threads in *. rewrite ET in *. rewrite Em, Nat2Z.id in *.
  assert (length (concat gs) = (m * T)%nat) as Hcg.
  { rewrite <- Hn. clear -Hgs. induction Hgs as [|g gs [Hg _] _ IH]; cbn [concat length]; [lia|]. rewrite length_app, Hg, IH. lia. }
  destruct (blocks_exist (128 * m) T out) as (ps & -> & Hps & Hnp); [lia|].
  rewrite <- (concat_concat gs).
  rewrite (mt_groups pad m gs order (@concat Z <$> gs) ps); rewrite ?concat_concat, ?length_fmap, ?Hn; try done.
  - apply groups_blocks. eapply Forall_impl; [exact Hgs|]. cbn beta. intros g (<- & Hg & _). by apply length_blocks.
  - intros i u p Hi Hu Hp. assert (i < length gs)%nat as Hi' by lia.
    destruct (groups_at gs i m Hgs Hi') as (Hm & Hg & Hgb & _ & Hpl). destruct (lookup_lt_is_Some_2 gs i Hi') as [g Eg].
    assert (u = concat (gs !!! i)) as ->.
    { destruct Hu as [->|Hu]; [|done]. rewrite (list_lookup_total_correct _ _ _ Eg). apply list_lookup_total_correct. by rewrite list_lookup_fmap, Eg. }
    apply pad_ok; [done..|]. rewrite Hm. destruct Hp as [->| ->]; [|done].
    destruct (lookup_lt_is_Some_2 ps i) as [p' Ep]; [lia|]. rewrite (list_lookup_total_correct _ _ _ Ep).
    by apply (Forall_lookup_1 _ _ _ _ Hps Ep).
Qed.

Lemma Unpad_ok k cs out order :
  7 <= k < 63 -> blocks 127 cs -> Forall (Forall is_byte) cs -> Z.of_nat (length cs) = 2 ^ (k - 7) ->
  length out = (127 * length cs)%nat -> all_threads k order ->
  Unpad NumCPU order (padAll cs) out = Ret (concat cs, padAll cs).
Proof using All.
  intros Hk Hcs Hb Hl Hlo Ho. unfold Unpad. destruct (padChunks_ok cs Hcs Hb) as (Hp & _ & _).
  assert (len (padAll cs) = 2 ^ k) as Elen.
  { unfold len, padAll. rewrite (length_blocks 128), length_fmap, Nat2Z.inj_mul, Hl by done.
    change (Z.of_nat 128) with (2 ^ 7). rewrite <- Z.pow_add_r by lia. f_equal. lia. }
  destruct (Z.ltb_spec MTTresh (len (padAll cs))) as [Hlt|_]; [|by apply unpad_ok]. rewrite Elen in *. change MTTresh with (2 ^ 19) in Hlt.
  apply Z.pow_lt_mono_r_iff in Hlt; [|lia..]. clear Elen Hp.
  destruct (piece_groups NumCPU k cs) as (m & T & gs & ET & Em & -> & Hn & Hr & Hgs); [lia|done..|].
  unfold mt, all_threads in *. rewrite ET in *. rewrite Em, Nat2Z.id in *.
  assert (length (concat gs) = (m * T)%nat) as Hcg.
  { rewrite <- Hn. clear -Hgs. induction Hgs as [|g gs [Hg _] _ IH]; cbn [concat length]; [lia|]. rewrite length_app, Hg, IH. lia. }
  destruct (blocks_exist (127 * m) T out) as (us & -> & Hus & Hnu); [lia|].
  rewrite <- (concat_padAll gs).
  rewrite (mt_groups unpad m gs order us (padAll <$> gs)); rewrite ?concat_padAll, ?length_fmap, ?Hn; try done.
  - apply groups_blocks. apply Forall_lookup_2. intros i g Eg. pose proof (lookup_lt_Some _ _ _ Eg) as Hi.
    destruct (groups_at gs i m Hgs Hi) as (_ & _ & _ & _ & E). by rewrite (list_lookup_total_correct _ _ _ Eg) in E.
  - intros i u p Hi Hu Hp. assert (i < length gs)%nat as Hi' by lia.
    destruct (groups_at gs i m Hgs Hi') as (Hm & Hg & Hgb & Hul & _). destruct (lookup_lt_is_Some_2 gs i Hi') as [g Eg].
    assert (p = padAll (gs !!! i)) as ->.
    { destruct Hp as [->|Hp]; [|done]. rewrite (list_lookup_total_correct _ _ _ Eg). apply list_lookup_total_correct. by rewrite list_lookup_fmap, Eg. }
    apply unpad_ok; [done..|]. rewrite Hm. destruct Hu as [->| ->]; [|done].
    destruct (lookup_lt_is_Some_2 us i) as [u' Eu]; [lia|]. rewrite (list_lookup_total_correct _ _ _ Eu).
    by apply (Forall_lookup_1 _ _ _ _ Hus Eu).
Qed.
End pieces.

(** ** Bits *)

Lemma testbit_digit a x i : 0 <= a < S256 -> 0 <= i ->
  Z.testbit (a + S256 * x) i = if i <? 256 then Z.testbit a i else Z.testbit x (i - 256).
Proof.
  intros Ha Hi. change S256 with (2 ^ 256) in *. destruct (Z.ltb_spec i 256).
  - rewrite <- (Z.mod_pow2_bits_low _ 256) by lia. rewrite (Z.mul_comm (2 ^ 256)), Z.mod_add by lia.
    by rewrite Z.mod_small.
  - replace i with (i - 256 + 256) at 1 by lia. rewrite <- Z.div_pow2_bits by lia.
    rewrite (Z.mul_comm (2 ^ 256)), Z.div_add, (Z.div_small a) by lia. by rewrite Z.add_0_l.
Qed.

(** A padded number has the bits of the original, with two zero bits after every 254. *)
Lemma spread_bits n v g j :
  0 <= v < S254 ^ Z.of_nat n -> 0 <= g -> 0 <= j < 256 ->
  Z.testbit (spread n v) (256 * g + j) = (j <? 254) && Z.testbit v (254 * g + j).
Proof.
  revert v g. induction n as [|n IH]; intros v g Hv Hg Hj.
  { assert (v = 0) as -> by (cbn in Hv; lia). cbn [spread]. rewrite !Z.testbit_0_l. by rewrite andb_false_r. }
  pose proof S254_pos as HS. cbn [spread]. pose proof (Z.mod_pos_bound v S254 HS).
  rewrite testbit_digit by (rewrite ?S256_eq; lia). destruct (Z.ltb_spec (256 * g + j) 256).
  - assert (g = 0) as -> by lia. rewrite !Z.mul_0_r, !Z.add_0_l. change S254 with (2 ^ 254).
    destruct (Z.ltb_spec j 254); cbn [andb]; [by rewrite Z.mod_pow2_bits_low by lia|]. by rewrite Z.mod_pow2_bits_high by lia.
  - replace (256 * g + j - 256) with (256 * (g - 1) + j) by lia. rewrite IH; [|split|lia|lia].
    + change S254 with (2 ^ 254). rewrite Z.div_pow2_bits by lia. do 2 f_equal. lia.
    + apply Z.div_pos; lia.
    + apply Z.div_lt_upper_bound; [done|]. rewrite <- Z.pow_succ_r, <- Nat2Z.inj_succ by lia. apply Hv.
Qed.

Lemma spread_app n m v w :
  0 <= v < S254 ^ Z.of_nat n -> spread (n + m) (v + S254 ^ Z.of_nat n * w) = spread n v + S256 ^ Z.of_nat n * spread m w.
Proof.
  pose proof S254_pos as HS. revert v. induction n as [|n IH]; intros v Hv.
  { assert (v = 0) as -> by (cbn in Hv; lia). cbn [Nat.add spread]. by rewrite !Z.pow_0_r, !Z.mul_1_l, !Z.add_0_l. }
  cbn [Nat.add spread]. rewrite Nat2Z.inj_succ, !Z.pow_succ_r in * by lia.
  replace (v + S254 * S254 ^ Z.of_nat n * w) with (v + (S254 ^ Z.of_nat n * w) * S254) by ring.
  rewrite Z.mod_add, Z.div_add by lia. rewrite IH; [ring|]. split; [apply Z.div_pos; lia|apply Z.div_lt_upper_bound; [done|apply Hv]].
Qed.

Lemma padAll_val cs :
  blocks 127 cs -> Forall (Forall is_byte) cs ->
  le_val (padAll cs) = spread (4 * length cs) (le_val (concat cs)) /\ 0 <= le_val (concat cs) < S254 ^ Z.of_nat (4 * length cs).
Proof.
  intros Hcs. unfold padAll. induction Hcs as [|c cs Hc Hcs IH]; intros Hb; [done|]. apply Forall_cons in Hb as [Hb Hbs].
  destruct (IH Hbs) as [E Hv]. destruct (pad_chunk_val c Hc Hb) as (_ & Hl & Ec).
  cbn [fmap list_fmap concat length]. rewrite !le_val_app. unfold len. rewrite Hl, Hc, E, Ec.
  change (256 ^ Z.of_nat 128) with (S256 ^ Z.of_nat 4). change (256 ^ Z.of_nat 127) with (S254 ^ Z.of_nat 4).
  replace (4 * S (length cs))%nat with (4 + 4 * length cs)%nat by lia.
  pose proof (le_val_bound c Hb) as Hcv. unfold len in Hcv. rewrite Hc in Hcv. change (256 ^ Z.of_nat 127) with (S254 ^ Z.of_nat 4) in Hcv.
  split; [by rewrite spread_app|]. rewrite Nat2Z.inj_add, Z.pow_add_r by lia.
  revert Hcv Hv. generalize (S254 ^ Z.of_nat 4), (S254 ^ Z.of_nat (4 * length cs)). intros A C ? ?. nia.
Qed.

(** ** Theorems *)

Section theorems.
Context `{PieceSizesOk}.

(** The chunks of the data of a piece of [2 ^ k] bytes. *)
Lemma piece_chunks k (l : bytes) :
  7 <= k -> Forall is_byte l -> len l = 127 * 2 ^ (k - 7) ->
  exists cs, l = concat cs /\ blocks 127 cs /\ Forall (Forall is_byte) cs /\ Z.of_nat (length cs) = 2 ^ (k - 7).
Proof.
  intros Hk Hb Hl. pose proof (Z.pow_pos_nonneg 2 (k - 7) ltac:(lia) ltac:(lia)).
  destruct (blocks_exist 127 (Z.to_nat (2 ^ (k - 7))) l) as (cs & -> & Hcs & Hn); [unfold len in Hl; lia|].
  exists cs. split; [done|]. split; [done|]. split; [|lia]. by apply Forall_concat.
Qed.

(** [C27] For every valid piece size [2 ^ k] and every number of CPUs, whatever the order of
    the threads and the contents of the target buffers: padding does not panic and fills a
    buffer of the padded size, and unpadding that buffer gives back the data. *)
Theorem fr32_roundtrip NumCPU k order order' data out out' :
  1 <= NumCPU < 2 ^ 32 -> 7 <= k < 63 -> all_threads NumCPU k order -> all_threads NumCPU k order' ->
  Forall is_byte data -> len data = 127 * 2 ^ (k - 7) -> len out = 2 ^ k -> len out' = len data ->
  exists p, Pad NumCPU order data out = Ret (data, p) /\ len p = 2 ^ k /\ Forall is_byte p /\
    Unpad NumCPU order' p out' = Ret (data, p).
Proof using All.
  intros HN Hk Ho Ho' Hb Hl Hlo Hlo'. destruct (piece_chunks k data) as (cs & -> & Hcs & Hbs & Hn); [lia|done..|].
  assert (2 ^ k = 128 * 2 ^ (k - 7)) as Ek by (change 128 with (2 ^ 7); rewrite <- Z.pow_add_r by lia; f_equal; lia).
  exists (padAll cs). split; [apply (Pad_ok NumCPU HN k); try done; unfold len in *; lia|]. split; [|split].
  - destruct (padChunks_ok cs Hcs Hbs) as (Hp & _ & _). unfold len, padAll. rewrite (length_blocks 128), length_fmap by done. lia.
  - unfold padAll. apply Forall_concat, Forall_fmap, Forall_lookup_2. intros i c Hc.
    apply pad_chunk_val; [by apply (Forall_lookup_1 _ _ _ _ Hcs Hc)|by apply (Forall_lookup_1 _ _ _ _ Hbs Hc)].
  - apply (Unpad_ok NumCPU HN k); try done. unfold len in *. lia.
Qed.

(** [C35] The padded data is the data with two zero bits inserted after every 254 bits: bit
    [256 g + j] of it is bit [254 g + j] of the data for [j < 254] and zero for the other
    two, bytes read in little-endian order. *)
Theorem fr32_bits NumCPU k order data out p :
  1 <= NumCPU < 2 ^ 32 -> 7 <= k < 63 -> all_threads NumCPU k order ->
  Forall is_byte data -> len data = 127 * 2 ^ (k - 7) -> len out = 2 ^ k -> Pad NumCPU order data out = Ret (data, p) ->
  forall g j, 0 <= g -> 0 <= j < 256 ->
    Z.testbit (le_val p) (256 * g + j) = (j <? 254) && Z.testbit (le_val data) (254 * g + j).
Proof using All.
  intros HN Hk Ho Hb Hl Hlo Hp g j Hg Hj. destruct (piece_chunks k data) as (cs & -> & Hcs & Hbs & Hn); [lia|done..|].
  assert (2 ^ k = 128 * 2 ^ (k - 7)) as Ek by (change 128 with (2 ^ 7); rewrite <- Z.pow_add_r by lia; f_equal; lia).
  rewrite (Pad_ok NumCPU HN k cs out order) in Hp by (try done; unfold len in *; lia). injection Hp as <-.
  destruct (padAll_val cs Hcs Hbs) as [-> Hv]. by apply spread_bits.
Qed.
End theorems.

(** ** Witnesses *)

Lemma fr32_roundtrip_witness :
  exists p, Pad 4 [0%nat] (replicate 127 255) (replicate 128 0) = Ret (replicate 127 255, p) /\
    Unpad 4 [0%nat] p (replicate 127 7) = Ret (replicate 127 255, p).
Proof.
  destruct (fr32_roundtrip 4 7 [0%nat] [0%nat] (replicate 127 255) (replicate 128 0) (replicate 127 7)) as (p & Hp & _ & _ & Hu).
  - split; [lia|reflexivity].
  - lia.
  - unfold all_threads. reflexivity.
  - unfold all_threads. reflexivity.
  - apply Forall_replicate. unfold is_byte. lia.
  - reflexivity.
  - reflexivity.
  - reflexivity.
  - exists p. split; [exact Hp|exact Hu].
Defined.

Definition demoPadded : bytes := padChunk (replicate 127 255).

Lemma fr32_bits_witness : Z.testbit (le_val demoPadded) (256 * 1 + 3) = (3 <? 254) && Z.testbit (le_val (replicate 127 255)) (254 * 1 + 3).
Proof.
  apply (fr32_bits 4 7 [0%nat] (replicate 127 255) (replicate 128 0) demoPadded).
  - split; [lia|reflexivity].
  - lia.
  - unfold all_threads. reflexivity.
  - apply Forall_replicate. unfold is_byte. lia.
  - reflexivity.
  - reflexivity.
  - vm_compute. reflexivity.
  - lia.
  - lia.
Defined.

(** The comments of [Pad] and [Unpad] ask only for buffers of whole chunks; with 8193 chunks
    and two threads each thread gets 4096 chunks and a half, and pads 4096 of them. *)
Lemma mt_half_chunk :
  let padLen := 128 * 8193 in
  mtChunkCount 4 padLen = 2 /\ padLen / mtChunkCount 4 padLen = 128 * 4096 + 64 /\
  2 * (padLen / mtChunkCount 4 padLen / 128) < 8193.
Proof. vm_compute. done. Qed.
