(* ===== verification/TsCache.v ===== *)
(** * The cache of recent tipsets: chain/events/tscache.go

    A ring buffer of the tipsets of the last epochs, nil for a null round, with an index by
    key.  The chain store behind it is [TsCacheAPI].  The locks are left out: the operations
    run one at a time. *)

From S2P Require Import Prelude TipSet.

(** The store; [None] is a nil tipset. *)
Class TsCacheAPI := {
  api_ChainGetTipSetAfterHeight : Z -> TipSetKey -> outcome (option TipSet);
  api_ChainGetTipSetByHeight : Z -> TipSetKey -> outcome (option TipSet);
  api_ChainGetTipSet : TipSetKey -> outcome (option TipSet);
  api_ChainHead : outcome (option TipSet);
}.

Record tipSetCache := {
  byKey : gmap TipSetKey TipSet;
  byHeight : list (option TipSet);
  start : Z;
  tlen : Z; (* [len] *)
}.

Definition normalModulo (n m : Z) : Z := Z.rem (Z.rem n m + m) m.

Definition newTSCache (cap : Z) : outcome tipSetCache :=
  if cap <? 0 then Panic
  else Ret {| byKey := ∅; byHeight := replicate (Z.to_nat cap) None; start := 0; tlen := 0 |}.

(** [tsc.byHeight[i] = o], for an index in range. *)
Definition setHeight (i : Z) (o : option TipSet) (tsc : tipSetCache) : tipSetCache :=
  {| byKey := byKey tsc; byHeight := <[Z.to_nat i := o]> (byHeight tsc); start := start tsc; tlen := tlen tsc |}.

Definition setStart (i : Z) (tsc : tipSetCache) : tipSetCache :=
  {| byKey := byKey tsc; byHeight := byHeight tsc; start := i; tlen := tlen tsc |}.

Definition setLen (n : Z) (tsc : tipSetCache) : tipSetCache :=
  {| byKey := byKey tsc; byHeight := byHeight tsc; start := start tsc; tlen := n |}.

Definition setKeys (k : gmap TipSetKey TipSet) (tsc : tipSetCache) : tipSetCache :=
  {| byKey := k; byHeight := byHeight tsc; start := start tsc; tlen := tlen tsc |}.

Definition nonNil (o : option TipSet) : outcome TipSet := match o with Some ts => Ret ts | None => Panic end.

(** ** Reading *)

Section reading.
Context `{TsCacheAPI}.

Definition ChainGetTipSet (tsc : tipSetCache) (tsk : TipSetKey) : outcome (option TipSet) :=
  match byKey tsc !! tsk with
  | Some ts => Ret (Some ts)
  | None => api_ChainGetTipSet tsk
  end.

(** The search of [get] from slot [base] on.  A round looks at one slot, so after as many
    rounds as there are slots without a tipset the search would go on for ever: [n] is the
    number of slots. *)
Fixpoint get_loop (n : nat) (tsc : tipSetCache) (direction base i : Z) : outcome (option TipSet) :=
  if i <? tlen tsc then
    match n with
    | O => Panic
    | S n =>
        ts ← index (byHeight tsc) (normalModulo (base + i) (len (byHeight tsc)));
        match ts with
        | Some ts => Ret (Some ts)
        | None => get_loop n tsc direction base (i + direction)
        end
    end
  else Ret None.

Definition tsc_get (tsc : tipSetCache) (height : Z) (tsk : TipSetKey) (prev : bool) : outcome (option TipSet) :=
  let fallback := if prev then api_ChainGetTipSetByHeight else api_ChainGetTipSetAfterHeight in
  if tlen tsc =? 0 then fallback height tsk
  else
    first ← index (byHeight tsc) (start tsc);
    let head := if TipSetKey_IsEmpty tsk then Some first else Some <$> byKey tsc !! tsk in
    match head with
    | None => fallback height tsk
    | Some head =>
        head ← nonNil head;
        let headH := TipSet.height head in
        let tailH := headH - tlen tsc in
        if headH =? height then Ret (Some head)
        else if headH <? height then Err "requested epoch is in the future"
        else if height <? tailH then fallback height (Key (Some head))
        else get_loop (length (byHeight tsc)) tsc (if prev then -1 else 1) (start tsc - (headH - height)) 0
    end.

Definition ChainGetTipSetByHeight (tsc : tipSetCache) (height : Z) (tsk : TipSetKey) : outcome (option TipSet) :=
  tsc_get tsc height tsk true.

Definition ChainGetTipSetAfterHeight (tsc : tipSetCache) (height : Z) (tsk : TipSetKey) : outcome (option TipSet) :=
  tsc_get tsc height tsk false.

Definition ChainHead (tsc : tipSetCache) : outcome (option TipSet) :=
  best ← index (byHeight tsc) (start tsc);
  match best with
  | None => api_ChainHead
  | Some best => Ret (Some best)
  end.
End reading.

(** ** Writing *)

Definition bumpLen (tsc : tipSetCache) : tipSetCache :=
  if tlen tsc <? len (byHeight tsc) then setLen (tlen tsc + 1) tsc else tsc.

(** The null rounds between the head and the new tipset. *)
Fixpoint fillNull (n : nat) (tsc : tipSetCache) : outcome tipSetCache :=
  match n with
  | O => Ret tsc
  | S n =>
      let tsc := setStart (normalModulo (start tsc + 1) (len (byHeight tsc))) tsc in
      was ← index (byHeight tsc) (start tsc);
      let tsc :=
        match was with
        | None => tsc
        | Some was => setKeys (delete (Key (Some was)) (byKey tsc)) (setHeight (start tsc) None tsc)
        end in
      fillNull n (bumpLen tsc)
  end.

(** The new head. *)
Definition placeHead (to : TipSet) (tsc : tipSetCache) : outcome tipSetCache :=
  let tsc := setStart (normalModulo (start tsc + 1) (len (byHeight tsc))) tsc in
  was ← index (byHeight tsc) (start tsc);
  let tsc :=
    match was with
    | None => tsc
    | Some was => setKeys (delete (Key (Some was)) (byKey tsc)) tsc
    end in
  let tsc := bumpLen (setHeight (start tsc) (Some to) tsc) in
  Ret (setKeys (<[Key (Some to) := to]> (byKey tsc)) tsc).

Definition tsc_add (to : TipSet) (tsc : tipSetCache) : outcome tipSetCache :=
  if 0 <? tlen tsc then
    best ← index (byHeight tsc) (start tsc);
    best ← nonNil best;
    if height to <=? height best then Err "tipSetCache.add: expected new tipset height to be at least"
    else
      parents ← Parents to;
      if negb (bool_decide (Key (Some best) = parents)) then Err "tipSetCache.add: expected new tipset to follow"
      else
        tsc ← fillNull (Z.to_nat (height to - (height best + 1))) tsc;
        placeHead to tsc
  else placeHead to tsc.

(** The recursion removes an entry each time, so [n] is the number of entries. *)
Fixpoint revertUnlocked (n : nat) (ts : option TipSet) (tsc : tipSetCache) : outcome tipSetCache :=
  if tlen tsc =? 0 then Ret tsc
  else
    match n with
    | O => Panic
    | S n =>
        was ← index (byHeight tsc) (start tsc);
        if negb (Equals was ts) then Err "tipSetCache.revert: revert tipset didn't match cache head"
        else
          let tsc := setKeys (delete (Key was) (byKey tsc)) tsc in
          let tsc := setHeight (start tsc) None tsc in
          let tsc := setStart (normalModulo (start tsc - 1) (len (byHeight tsc))) tsc in
          let tsc := setLen (tlen tsc - 1) tsc in
          match revertUnlocked n None tsc with
          | Ret tsc' => Ret tsc'
          | Err _ => Ret tsc (* the error is ignored, nothing was changed *)
          | Panic => Panic
          end
    end.

Definition revert (from : TipSet) (tsc : tipSetCache) : outcome tipSetCache :=
  revertUnlocked (Z.to_nat (tlen tsc)) (Some from) tsc.
