(* ===== verification/TsCacheProps.v ===== *)
(** * Properties of the cache of recent tipsets

    The ring buffer represents a window of the chain: the tipsets of the last epochs, newest
    first, null rounds included.  [tsc_add] and [revert] refine the operations on windows, and
    the lookups by height give the tipsets of the window. *)

From S2P Require Import Prelude TipSet TsCache.

(** The last epochs, newest first. *)
Notation Window := (list (option TipSet)).

#[local] Arguments Equals : simpl never.
#[local] Arguments Key : simpl never.

(** ** Windows *)

Definition keys_ok (m : gmap TipSetKey TipSet) (W : Window) : Prop :=
  forall k t, m !! k = Some t <-> Some t ∈ W /\ Key (Some t) = k.

Definition distinct (W : Window) : Prop :=
  forall i j t u, W !! i = Some (Some t) -> W !! j = Some (Some u) -> Key (Some t) = Key (Some u) -> i = j.

(** The slot of the [k]-th newest epoch. *)
Definition slot (tsc : tipSetCache) (k : Z) : Z := (start tsc - k) mod len (byHeight tsc).

Record ring_ok (C : Z) (tsc : tipSetCache) (W : Window) : Prop := {
  ring_cap : 0 < C /\ len (byHeight tsc) = C;
  ring_start : 0 <= start tsc < C;
  ring_len : tlen tsc = len W /\ len W <= C;
  ring_slots : forall k, 0 <= k < C -> byHeight tsc !! Z.to_nat (slot tsc k) = Some (default None (W !! Z.to_nat k));
  ring_keys : keys_ok (byKey tsc) W;
  ring_distinct : distinct W;
}.

(** The window after a tipset was added, and after the head was removed with the null rounds
    before it. *)
Definition addSpec (C : Z) (to : TipSet) (W : Window) : Window :=
  take (Z.to_nat C) (Some to ::
    match W with
    | Some best :: _ => replicate (Z.to_nat (height to - (height best + 1))) None ++ W
    | _ => W
    end).

Fixpoint dropNulls (W : Window) : Window :=
  match W with
  | None :: W => dropNulls W
  | _ => W
  end.

(** A tipset [valid] has a block, and is determined by its key. *)
Section window.
Context (valid : TipSet -> Prop).
Context (valid_key : forall t u, valid t -> valid u -> Key (Some t) = Key (Some u) -> t = u).
Context (valid_nonempty : forall t, valid t -> Key (Some t) <> EmptyTSK /\ blks t <> []).

(** Every tipset has the height of its place, below the head at height [H]. *)
Definition placed (H : Z) (W : Window) : Prop :=
  forall i t, W !! i = Some (Some t) -> valid t /\ height t = H - Z.of_nat i.

(** The parents of every tipset are the next tipset of the window. *)
Fixpoint linked (W : Window) : Prop :=
  match W with
  | [] => True
  | None :: W => linked W
  | Some t :: W => match dropNulls W with Some u :: _ => Parents t = Ret (Key (Some u)) | _ => True end /\ linked W
  end.

(** A window of a chain. *)
Definition window (W : Window) : Prop :=
  match W with
  | [] => True
  | None :: _ => False
  | Some h :: _ => placed (height h) W /\ linked W
  end.

Lemma placed_distinct H W : placed H W -> distinct W.
Proof using valid_key.
  intros HW i j t u Hi Hj Hk.
  destruct (HW i t Hi) as [Vt Ht]. destruct (HW j u Hj) as [Vu Hu].
  assert (t = u) as -> by (by apply valid_key). lia.
Qed.

(** ** Slots *)

Lemma mod_sub C a k : 0 <= a < C -> 0 <= k <= C -> (a - k) mod C = if k <=? a then a - k else a - k + C.
Proof.
  intros Ha Hk. destruct (Z.leb_spec k a); symmetry.
  - apply Z.mod_unique with 0; lia.
  - apply Z.mod_unique with (-1); lia.
Qed.

Lemma normalModulo_mod n C : 0 < C -> normalModulo n C = n mod C.
Proof.
  intros HC. unfold normalModulo. pose proof (Z.rem_bound_abs n C ltac:(lia)) as Hb. rewrite !Z.abs_lt in Hb.
  rewrite (Z.abs_eq C) in Hb by lia.
  rewrite Z.rem_mod_nonneg by lia. rewrite <- Z.add_mod_idemp_r, Z.mod_same, Z.add_0_r by lia.
  pose proof (Z.quot_rem n C ltac:(lia)) as E. rewrite E at 2.
  by rewrite Z.add_comm, Z.mul_comm, Z.mod_add by lia.
Qed.

Lemma index_ok {A} (l : list A) i x : 0 <= i -> l !! Z.to_nat i = Some x -> index l i = Ret x.
Proof. intros Hi E. unfold index. by rewrite (proj2 (Z.ltb_ge _ _)), E by lia. Qed.

Lemma index_lookup {A} (l : list A) i x : index l i = Ret x -> l !! Z.to_nat i = Some x.
Proof. unfold index. destruct (i <? 0); [done|]. destruct (l !! Z.to_nat i); [congruence|done]. Qed.

Lemma ring_head C tsc W : ring_ok C tsc W -> index (byHeight tsc) (start tsc) = Ret (default None (head W)).
Proof.
  intros [[HC EC] Hs _ Hsl _ _]. apply index_ok; [lia|]. specialize (Hsl 0 ltac:(lia)).
  unfold slot in Hsl. rewrite EC, Z.sub_0_r, Z.mod_small in Hsl by lia. rewrite Hsl. by destruct W.
Qed.

(** The slot after the head holds the oldest entry of a full window. *)
Lemma ring_next C tsc W :
  ring_ok C tsc W ->
  normalModulo (start tsc + 1) (len (byHeight tsc)) = (start tsc + 1) mod C /\
  index (byHeight tsc) ((start tsc + 1) mod C) = Ret (default None (W !! Z.to_nat (C - 1))).
Proof.
  intros [[HC EC] Hs _ Hsl _ _]. rewrite EC, normalModulo_mod by lia. split; [done|].
  apply index_ok; [apply Z.mod_pos_bound; lia|]. specialize (Hsl (C - 1) ltac:(lia)). unfold slot in Hsl. rewrite EC in Hsl.
  replace (start tsc + 1) with (start tsc - (C - 1) + 1 * C) by lia. by rewrite Z.mod_add by lia.
Qed.

(** A new entry [o] at the front of the window. *)
Lemma slots_push C tsc W o s :
  ring_ok C tsc W -> s = (start tsc + 1) mod C -> forall k, 0 <= k < C ->
  <[Z.to_nat s := o]> (byHeight tsc) !! Z.to_nat ((s - k) mod C) = Some (default None (take (Z.to_nat C) (o :: W) !! Z.to_nat k)).
Proof.
  intros [[HC EC] Hs _ Hsl _ _] -> k Hk. pose proof (Z.mod_pos_bound (start tsc + 1) C HC) as Hb.
  rewrite lookup_take_lt by lia. destruct (decide (k = 0)) as [->|Hk0].
  - rewrite Z.sub_0_r, Z.mod_mod, list_lookup_insert_eq by (unfold len in EC; lia). done.
  - rewrite list_lookup_insert_ne.
    + rewrite Zminus_mod_idemp_l. replace (start tsc + 1 - k) with (start tsc - (k - 1)) by lia.
      specialize (Hsl (k - 1) ltac:(lia)). unfold slot in Hsl. rewrite EC in Hsl. rewrite Hsl.
      replace (Z.to_nat k) with (S (Z.to_nat (k - 1))) by lia. done.
    + rewrite (mod_sub C) by lia. destruct (Z.leb_spec k ((start tsc + 1) mod C)); lia.
Qed.

(** The head removed from the window. *)
Lemma slots_pop C tsc o W s :
  ring_ok C tsc (o :: W) -> s = (start tsc - 1) mod C -> forall k, 0 <= k < C ->
  <[Z.to_nat (start tsc) := None]> (byHeight tsc) !! Z.to_nat ((s - k) mod C) = Some (default None (W !! Z.to_nat k)).
Proof.
  intros [[HC EC] Hs [_ HL] Hsl _ _] -> k Hk. rewrite len_cons in HL.
  rewrite Zminus_mod_idemp_l. replace (start tsc - 1 - k) with (start tsc - (k + 1)) by lia.
  destruct (decide (k + 1 = C)) as [Ek|Ek].
  - rewrite Ek, mod_sub by lia. zdecide. replace (Z.to_nat (start tsc - C + C)) with (Z.to_nat (start tsc)) by lia.
    rewrite list_lookup_insert_eq by (unfold len in EC; lia). by rewrite lookup_ge_None_2 by (unfold len in HL; lia).
  - specialize (Hsl (k + 1) ltac:(lia)). unfold slot in Hsl. rewrite EC in Hsl. rewrite list_lookup_insert_ne.
    + rewrite Hsl. by replace (Z.to_nat (k + 1)) with (S (Z.to_nat k)) by lia.
    + rewrite mod_sub by lia. destruct (Z.leb_spec (k + 1) (start tsc)); lia.
Qed.

(** ** Keys *)

Lemma keys_null m W : keys_ok m W -> keys_ok m (None :: W).
Proof. unfold keys_ok. intros Hk k t. rewrite Hk, elem_of_cons. naive_solver. Qed.

Lemma keys_null_inv m W : keys_ok m (None :: W) -> keys_ok m W.
Proof. unfold keys_ok. intros Hk k t. rewrite Hk, elem_of_cons. naive_solver. Qed.

(** The entries that fit, after the oldest one was removed from the index. *)
Lemma keys_evict C m W :
  0 < C -> len W <= C -> keys_ok m W -> distinct W ->
  keys_ok (match default None (W !! Z.to_nat (C - 1)) with None => m | Some was => delete (Key (Some was)) m end)
    (take (Z.to_nat (C - 1)) W).
Proof.
  unfold keys_ok. intros HC HL Hk Hd. unfold len in HL. destruct (W !! Z.to_nat (C - 1)) as [was|] eqn:Ew; cbn [default from_option id].
  - assert (W = take (Z.to_nat (C - 1)) W ++ [was]) as E.
    { rewrite <- (take_drop (Z.to_nat (C - 1)) W) at 1. f_equal. rewrite (drop_S _ _ _ Ew). f_equal. apply drop_ge. lia. }
    set (W0 := take (Z.to_nat (C - 1)) W) in *. assert (length W0 = Z.to_nat (C - 1)) as Hl.
    { unfold W0. rewrite length_take. apply lookup_lt_Some in Ew. lia. }
    intros k t. destruct was as [w|].
    + rewrite lookup_delete_Some, Hk. rewrite E at 1. rewrite elem_of_app, list_elem_of_singleton. split; [naive_solver|].
      intros [Hin <-]. split; [|auto]. intros Ek. apply list_elem_of_lookup in Hin as [i Hi].
      assert (i = Z.to_nat (C - 1)) as ->.
      { apply (Hd i (Z.to_nat (C - 1)) t w); [|done|congruence]. rewrite E, lookup_app_l; [done|]. by eapply lookup_lt_Some. }
      apply lookup_lt_Some in Hi. lia.
    + rewrite Hk. rewrite E at 1. rewrite elem_of_app, list_elem_of_singleton. naive_solver.
  - intros k t. rewrite Hk, take_ge; [done|]. apply lookup_ge_None_1 in Ew. lia.
Qed.

Lemma keys_insert m W to :
  keys_ok m W -> (forall u, Some u ∈ W -> Key (Some u) <> Key (Some to)) -> keys_ok (<[Key (Some to) := to]> m) (Some to :: W).
Proof.
  unfold keys_ok. intros Hk Hn k t. rewrite lookup_insert_Some, Hk, elem_of_cons. split.
  - intros [[<- <-]|[? [? ?]]]; auto.
  - intros [[[= ->]|Hin] <-]; [auto|]. right. split; [|auto]. intros E. by apply (Hn t).
Qed.

Lemma keys_remove m o W :
  keys_ok m (o :: W) -> distinct (o :: W) -> (o = None -> m !! EmptyTSK = None) ->
  keys_ok (delete (Key o) m) W.
Proof.
  unfold keys_ok. intros Hk Hd He k t. rewrite lookup_delete_Some, Hk, elem_of_cons. split.
  - intros (Hne & [<-|Hin] & <-); [done|auto].
  - intros [Hin <-]. split; [|auto]. destruct o as [h|].
    + intros Eh. apply list_elem_of_lookup in Hin as [i Hi]. assert (0%nat = S i) by (by apply (Hd 0%nat (S i) h t)). done.
    + intros Ek. assert (m !! EmptyTSK = Some t) as E by (apply Hk; rewrite elem_of_cons; auto). by rewrite He in E.
Qed.

(** ** Distinct entries *)

Lemma distinct_take n W : distinct W -> distinct (take n W).
Proof. intros Hd i j t u Hi Hj. apply lookup_take_Some in Hi as [Hi _], Hj as [Hj _]. by apply (Hd i j t u). Qed.

Lemma distinct_null W : distinct W -> distinct (None :: W).
Proof. intros Hd [|i] [|j] t u Hi Hj Hk; try done. f_equal. by apply (Hd i j t u). Qed.

Lemma distinct_cons to W :
  distinct W -> (forall u, Some u ∈ W -> Key (Some u) <> Key (Some to)) -> distinct (Some to :: W).
Proof.
  intros Hd Hn [|i] [|j] t u Hi Hj Hk; [done| | |].
  - injection Hi as <-. exfalso. apply (Hn u); [by apply (list_elem_of_lookup_2 W j)|done].
  - injection Hj as <-. exfalso. apply (Hn t); [by apply (list_elem_of_lookup_2 W i)|done].
  - f_equal. by apply (Hd i j t u).
Qed.

Lemma distinct_tail o W : distinct (o :: W) -> distinct W.
Proof. intros Hd i j t u Hi Hj Hk. cut (S i = S j); [lia|]. by apply (Hd (S i) (S j) t u). Qed.

(** ** The operations on the ring *)

Lemma take_push {A} C (o : A) W : 0 < C -> take (Z.to_nat C) (o :: W) = o :: take (Z.to_nat (C - 1)) W.
Proof. intros HC. by replace (Z.to_nat C) with (S (Z.to_nat (C - 1))) by lia. Qed.

Lemma cache_push C tsc W o tsc' :
  ring_ok C tsc W ->
  byHeight tsc' = <[Z.to_nat ((start tsc + 1) mod C) := o]> (byHeight tsc) ->
  start tsc' = (start tsc + 1) mod C ->
  tlen tsc' = (if tlen tsc <? C then tlen tsc + 1 else tlen tsc) ->
  keys_ok (byKey tsc') (take (Z.to_nat C) (o :: W)) ->
  distinct (take (Z.to_nat C) (o :: W)) ->
  ring_ok C tsc' (take (Z.to_nat C) (o :: W)).
Proof.
  intros HR Eh Es El Hk Hd. pose proof (slots_push C tsc W o _ HR eq_refl) as Hsl.
  destruct HR as [[HC EC] Hs [HL HL'] _ _ _]. unfold len in *. constructor; try done.
  - rewrite Eh. unfold len. by rewrite length_insert.
  - rewrite Es. by apply Z.mod_pos_bound.
  - unfold len. rewrite length_take, length_cons. rewrite El. destruct (Z.ltb_spec (tlen tsc) C); lia.
  - intros k Hk'. unfold slot, len. rewrite Eh, length_insert, EC, Es. by apply Hsl.
Qed.

Lemma take_app_take {A} n (l k : list A) : take n (l ++ take n k) = take n (l ++ k).
Proof. rewrite !take_app, take_take. do 2 f_equal. lia. Qed.

Lemma fillNull_ok C n tsc W :
  ring_ok C tsc W ->
  exists tsc', fillNull n tsc = Ret tsc' /\ ring_ok C tsc' (take (Z.to_nat C) (replicate n None ++ W)).
Proof.
  revert tsc W. induction n as [|n IH]; intros tsc W HR; cbn [fillNull].
  { exists tsc. split; [done|]. cbn. rewrite take_ge; [done|]. destruct HR as [_ _ [_ ?] _ _ _]. unfold len in *. lia. }
  destruct (ring_next C tsc W HR) as [En Ei]. cbn [setStart byHeight start]. rewrite En, Ei. cbn [mbind outcome_bind].
  pose proof HR as [[HC EC] Hs [HL HL'] _ Hk Hd].
  pose proof (keys_evict C _ W HC HL' Hk Hd) as Hk'. pose proof (distinct_take (Z.to_nat (C - 1)) _ Hd) as Hd'.
  rewrite replicate_S_end, <- app_assoc, <- take_app_take. apply IH. unfold bumpLen.
  apply (cache_push C tsc W None); try done; rewrite ?take_push by done; try (by apply distinct_null).
  all: destruct (default None (W !! Z.to_nat (C - 1))) as [was|] eqn:Ew.
  all: cbn [setHeight setKeys setLen setStart byHeight byKey start tlen].
  all: unfold len; rewrite ?length_insert; fold (len (byHeight tsc)); rewrite EC.
  all: destruct (tlen tsc <? C); cbn [setLen byHeight byKey start tlen]; try done; try (by apply keys_null).
  all: symmetry; by apply list_insert_id, index_lookup.
Qed.

Lemma placeHead_ok C to tsc W :
  ring_ok C tsc W -> (forall u, Some u ∈ W -> Key (Some u) <> Key (Some to)) ->
  exists tsc', placeHead to tsc = Ret tsc' /\ ring_ok C tsc' (take (Z.to_nat C) (Some to :: W)).
Proof.
  intros HR Hn. unfold placeHead.
  destruct (ring_next C tsc W HR) as [En Ei]. cbn [setStart byHeight start]. rewrite En, Ei. cbn [mbind outcome_bind].
  pose proof HR as [[HC EC] Hs [HL HL'] _ Hk Hd].
  pose proof (keys_evict C _ W HC HL' Hk Hd) as Hk'. pose proof (distinct_take (Z.to_nat (C - 1)) _ Hd) as Hd'.
  assert (forall u, Some u ∈ take (Z.to_nat (C - 1)) W -> Key (Some u) <> Key (Some to)) as Hn'.
  { intros u Hu. apply Hn. by apply (subseteq_take (Z.to_nat (C - 1)) W). }
  eexists. split; [done|]. unfold bumpLen.
  apply (cache_push C tsc W (Some to)); try done; rewrite ?take_push by done; try (by apply distinct_cons).
  all: destruct (default None (W !! Z.to_nat (C - 1))) as [was|] eqn:Ew.
  all: cbn [setHeight setKeys setLen setStart byHeight byKey start tlen].
  all: unfold len; rewrite ?length_insert; fold (len (byHeight tsc)); rewrite EC.
  all: destruct (tlen tsc <? C); cbn [setLen byHeight byKey start tlen]; try done; try (by apply keys_insert).
Qed.

Lemma ring_pop C tsc o W :
  ring_ok C tsc (o :: W) -> (o = None -> byKey tsc !! EmptyTSK = None) ->
  ring_ok C (setLen (tlen tsc - 1) (setStart (normalModulo (start tsc - 1) (len (byHeight tsc)))
    (setHeight (start tsc) None (setKeys (delete (Key o) (byKey tsc)) tsc)))) W.
Proof.
  intros HR He. pose proof (slots_pop C tsc o W _ HR eq_refl) as Hsl.
  destruct HR as [[HC EC] Hs [HL HL'] _ Hk Hd]. rewrite len_cons in HL, HL'. rewrite EC, normalModulo_mod by lia.
  constructor; cbn [setHeight setKeys setLen setStart byHeight byKey start tlen].
  - unfold len. by rewrite length_insert.
  - by apply Z.mod_pos_bound.
  - lia.
  - intros k Hk'. unfold slot, len. cbn. rewrite length_insert. fold (len (byHeight tsc)). rewrite EC. by apply Hsl.
  - by apply keys_remove.
  - by eapply distinct_tail.
Qed.

(** ** The operations on windows *)

Lemma placed_tail H o W : placed H (o :: W) -> placed (H - 1) W.
Proof. intros HP i t Hi. destruct (HP (S i) t Hi) as [? ->]. split; [done|lia]. Qed.

Lemma placed_null H W : placed (H - 1) W -> placed H (None :: W).
Proof. intros HP [|i] t Hi; [done|]. destruct (HP i t Hi) as [? ->]. split; [done|lia]. Qed.

Lemma placed_nulls n H W : placed (H - Z.of_nat n) W -> placed H (replicate n None ++ W).
Proof.
  revert H. induction n as [|n IH]; intros H HP; [by rewrite Z.sub_0_r in HP|].
  apply placed_null, IH. by replace (H - 1 - Z.of_nat n) with (H - Z.of_nat (S n)) by lia.
Qed.

Lemma placed_cons t W : valid t -> placed (height t - 1) W -> placed (height t) (Some t :: W).
Proof.
  intros Hv HP [|i] u Hi; [injection Hi as <-; split; [done|lia]|].
  destruct (HP i u Hi) as [? ->]. split; [done|lia].
Qed.

Lemma placed_take n H W : placed H W -> placed H (take n W).
Proof. intros HP i t Hi. apply lookup_take_Some in Hi as [Hi _]. by apply HP. Qed.

Lemma dropNulls_replicate n W : dropNulls (replicate n None ++ W) = dropNulls W.
Proof. by induction n. Qed.

Lemma linked_nulls n W : linked W -> linked (replicate n None ++ W).
Proof. by induction n. Qed.

Lemma dropNulls_take n W : match dropNulls (take n W) with Some u :: _ => head (dropNulls W) = Some (Some u) | _ => True end.
Proof. revert n. induction W as [|[t|] W IH]; intros [|n]; try done. apply IH. Qed.

Lemma linked_take n W : linked W -> linked (take n W).
Proof.
  revert n. induction W as [|[t|] W IH]; intros [|n] HL; try done; [|by apply IH].
  destruct HL as [Hp HL]. split; [|by apply IH]. pose proof (dropNulls_take n W) as E.
  destruct (dropNulls (take n W)) as [|[u|] ?]; [done| |done]. destruct (dropNulls W) as [|[v|] ?]; try done.
  by injection E as ->.
Qed.

Lemma window_add C to W :
  0 < C -> window W -> valid to ->
  match W with Some best :: _ => height best < height to /\ Parents to = Ret (Key (Some best)) | _ => True end ->
  window (addSpec C to W).
Proof.
  intros HC HW Hv Hb. unfold addSpec. rewrite take_push by done. cbn [window]. rewrite <- take_push by done.
  destruct W as [|[best|] W]; [| |done].
  - split; [apply placed_take, placed_cons; [done|by intros ? ?]|by apply linked_take].
  - destruct HW as [HP HL], Hb as [Hlt Hpar]. split.
    + apply placed_take, placed_cons; [done|]. apply placed_nulls.
      by replace (height to - 1 - Z.of_nat _) with (height best) by lia.
    + apply linked_take. cbn [linked]. rewrite dropNulls_replicate. split; [done|by apply linked_nulls].
Qed.

Lemma window_dropNulls H W : placed H W -> linked W -> window (dropNulls W).
Proof.
  revert H. induction W as [|[t|] W IH]; intros H HP HL; [done| |].
  - cbn [dropNulls window]. destruct (HP 0%nat t eq_refl) as [_ E]. split; [|done].
    by replace (height t) with H by lia.
  - apply (IH (H - 1)); [by eapply placed_tail|done].
Qed.

(** A tipset above the head is not in the window. *)
Lemma window_fresh H to W :
  placed H W -> valid to -> H < height to -> forall u, Some u ∈ W -> Key (Some u) <> Key (Some to).
Proof using valid_key.
  intros HP Hv Hlt u Hu Hk. apply list_elem_of_lookup in Hu as [i Hi]. destruct (HP i u Hi) as [Vu E].
  assert (u = to) as -> by (by apply valid_key). lia.
Qed.

(** ** Refinement *)

Definition cache_ok (C : Z) (tsc : tipSetCache) (W : Window) : Prop := ring_ok C tsc W /\ window W.

Definition addModel (C : Z) (to : TipSet) (W : Window) : outcome Window :=
  match W with
  | Some best :: _ =>
      if height to <=? height best then Err "tipSetCache.add: expected new tipset height to be at least"
      else
        parents ← Parents to;
        if decide (parents = Key (Some best)) then Ret (addSpec C to W)
        else Err "tipSetCache.add: expected new tipset to follow"
  | _ => Ret (addSpec C to W)
  end.

Definition revertModel (from : TipSet) (W : Window) : outcome Window :=
  match W with
  | [] => Ret []
  | o :: W =>
      if Equals o (Some from) then Ret (dropNulls W)
      else Err "tipSetCache.revert: revert tipset didn't match cache head"
  end.

(** The outcomes agree, and so do the states after a success. *)
Definition agree (C : Z) (r : outcome tipSetCache) (s : outcome Window) : Prop :=
  match r, s with
  | Ret tsc, Ret W => cache_ok C tsc W
  | Err e, Err e' => e = e'
  | _, _ => False
  end.

Lemma placeHead_add C to n tsc W :
  ring_ok C tsc W -> (forall u, Some u ∈ W -> Key (Some u) <> Key (Some to)) ->
  exists tsc', (tsc ← fillNull n tsc; placeHead to tsc) = Ret tsc' /\
    ring_ok C tsc' (take (Z.to_nat C) (Some to :: replicate n None ++ W)).
Proof.
  intros HR Hn. destruct (fillNull_ok C n tsc W HR) as (tsc1 & -> & HR1). cbn [mbind outcome_bind].
  destruct (placeHead_ok C to tsc1 _ HR1) as (tsc2 & -> & HR2).
  - intros u Hu. apply subseteq_take in Hu. apply elem_of_app in Hu as [Hu|Hu]; [|by apply Hn].
    by apply elem_of_replicate in Hu as [? _].
  - exists tsc2. split; [done|]. change (Some to :: ?l) with ([Some to] ++ l) in HR2 |- *. by rewrite take_app_take in HR2.
Qed.

Lemma tsc_add_refines C to tsc W : cache_ok C tsc W -> valid to -> agree C (tsc_add to tsc) (addModel C to W).
Proof using valid_key valid_nonempty.
  intros [HR HW] Hv. pose proof (ring_head C tsc W HR) as Eh. pose proof HR as [[HC _] _ [HL _] _ _ _].
  unfold tsc_add. rewrite HL. destruct W as [|[best|] W]; [| |done].
  - cbn [len length Z.of_nat Z.ltb Z.compare addModel]. destruct (placeHead_add C to 0 tsc [] HR) as (tsc' & E & HR').
    { intros u Hu. by apply not_elem_of_nil in Hu. }
    cbn in E. rewrite E. split; [done|]. by apply window_add.
  - rewrite len_cons. pose proof (len_nonneg W). zdecide. rewrite Eh. cbn [head default from_option id nonNil mbind outcome_bind addModel].
    destruct (Z.leb_spec (height to) (height best)) as [|Hlt]; [done|].
    destruct (Parents to) as [parents| |] eqn:Ep; cbn [mbind outcome_bind]; [|done|].
    2: { destruct (valid_nonempty to Hv) as [_ Hb]. unfold Parents, firstBlock in Ep. by destruct (blks to). }
    destruct (decide (parents = Key (Some best))) as [->|Hne].
    + rewrite bool_decide_eq_true_2 by done. cbn [negb].
      destruct (placeHead_add C to (Z.to_nat (height to - (height best + 1))) tsc _ HR) as (tsc' & E & HR').
      { eapply window_fresh; [apply HW|done..]. }
      rewrite E. split; [done|]. by apply window_add.
    + rewrite bool_decide_eq_false_2 by congruence. done.
Qed.

Lemma keys_nonempty H m W : keys_ok m W -> placed H W -> m !! EmptyTSK = None.
Proof using valid_nonempty.
  intros Hk HP. apply eq_None_not_Some. intros [t Ht]. apply Hk in Ht as [Hin E].
  apply list_elem_of_lookup in Hin as [i Hi]. destruct (HP i t Hi) as [Hv _]. by destruct (valid_nonempty t Hv).
Qed.

(** The null rounds before a removed head. *)
Lemma revert_nulls C H n tsc W :
  ring_ok C tsc W -> placed H W -> (length W <= n)%nat ->
  exists tsc', match revertUnlocked n None tsc with Ret t => Ret t | Err _ => Ret tsc | Panic => Panic end = Ret tsc' /\
    ring_ok C tsc' (dropNulls W).
Proof using valid_nonempty.
  revert H n tsc. induction W as [|o W IH]; intros H n tsc HR HP Hn; pose proof HR as [_ _ [HL _] _ Hk _].
  { exists tsc. split; [|done]. destruct n; cbn [revertUnlocked]; by rewrite HL. }
  destruct n as [|n]; [cbn in Hn; lia|]. cbn [revertUnlocked]. rewrite HL, len_cons. pose proof (len_nonneg W). zdecide.
  rewrite (ring_head C tsc _ HR). cbn [head default from_option id mbind outcome_bind].
  destruct o as [t|]; cbn [Equals negb dropNulls]; [by exists tsc|].
  destruct (IH (H - 1) n _ (ring_pop C tsc None W HR (fun _ => keys_nonempty _ _ _ Hk HP))) as (tsc' & E & HR');
    [by eapply placed_tail|cbn in Hn; lia|].
  exists tsc'. split; [|done]. revert E.
  cbn [setHeight setKeys setLen setStart byHeight byKey start tlen]. unfold len. rewrite length_insert.
  rewrite HL, len_cons. intros E. by rewrite E.
Qed.

Lemma revert_refines C from tsc W : cache_ok C tsc W -> agree C (revert from tsc) (revertModel from W).
Proof using valid_key valid_nonempty.
  intros [HR HW]. pose proof HR as [_ _ [HL _] _ Hk _]. unfold revert. rewrite HL.
  destruct W as [|[h|] W]; [| |done].
  { change (Z.to_nat (len [])) with 0%nat. cbn [revertUnlocked]. rewrite HL. by split. }
  unfold len at 1. rewrite Nat2Z.id. cbn [length revertUnlocked revertModel]. rewrite HL, len_cons. pose proof (len_nonneg W). zdecide.
  rewrite (ring_head C tsc _ HR). cbn [head default from_option id mbind outcome_bind].
  destruct (Equals (Some h) (Some from)); [|done]. cbn [negb]. destruct HW as [HP [_ HW]].
  destruct (revert_nulls C (height h - 1) (length W) _ W (ring_pop C tsc (Some h) W HR ltac:(done)))
    as (tsc' & E & HR'); [by eapply placed_tail|done|].
  revert E. cbn [setHeight setKeys setLen setStart byHeight byKey start tlen]. unfold len. rewrite length_insert.
  rewrite HL, len_cons. intros E. unfold agree.
  match goal with |- match ?r with Ret _ => _ | Err _ => _ | Panic => _ end => replace r with (Ret tsc') end.
  split; [done|]. eapply window_dropNulls; [by eapply placed_tail|done].
Qed.

(** The calls of the observer. *)
Inductive Op :=
  | OpApply (to : TipSet)
  | OpRevert (from : TipSet).

Definition cacheStep (op : Op) (tsc : tipSetCache) : outcome tipSetCache :=
  match op with
  | OpApply to => tsc_add to tsc
  | OpRevert from => revert from tsc
  end.

Definition windowStep (C : Z) (op : Op) (W : Window) : outcome Window :=
  match op with
  | OpApply to => addModel C to W
  | OpRevert from => revertModel from W
  end.

(** A sequence of calls; an error is reported and the state is kept. *)
Fixpoint runOps {S} (step : Op -> S -> outcome S) (ops : list Op) (s : S) : outcome (list (option string) * S) :=
  match ops with
  | [] => Ret ([], s)
  | op :: ops =>
      match step op s with
      | Ret s => '(errs, s) ← runOps step ops s; Ret (None :: errs, s)
      | Err e => '(errs, s) ← runOps step ops s; Ret (Some e :: errs, s)
      | Panic => Panic
      end
  end.

Lemma step_refines C op tsc W :
  cache_ok C tsc W -> (forall to, op = OpApply to -> valid to) -> agree C (cacheStep op tsc) (windowStep C op W).
Proof using valid_key valid_nonempty.
  intros HO Hv. destruct op as [to|from]; [apply tsc_add_refines; auto|by apply revert_refines].
Qed.

Lemma runs_refine C ops tsc W :
  cache_ok C tsc W -> (forall to, OpApply to ∈ ops -> valid to) ->
  exists errs tsc' W', runOps cacheStep ops tsc = Ret (errs, tsc') /\ runOps (windowStep C) ops W = Ret (errs, W') /\
    cache_ok C tsc' W'.
Proof using valid_key valid_nonempty.
  revert tsc W. induction ops as [|op ops IH]; intros tsc W HO Hv; [by exists [], tsc, W|].
  pose proof (step_refines C op tsc W HO) as HS. cbn [runOps].
  assert (forall to, op = OpApply to -> valid to) as Hop by (intros to ->; apply Hv, list_elem_of_here).
  assert (forall to, OpApply to ∈ ops -> valid to) as Hops by (intros to Hin; by apply Hv, list_elem_of_further).
  specialize (HS Hop). destruct (cacheStep op tsc), (windowStep C op W); try done.
  - destruct (IH _ _ HS Hops) as (errs & tsc' & W' & -> & -> & HO'). by eexists _, _, _.
  - destruct (IH _ _ HO Hops) as (errs & tsc' & W' & -> & -> & HO'). cbn in HS. subst. by eexists _, _, _.
Qed.

Lemma cache_ok_new C : 0 < C -> exists tsc, newTSCache C = Ret tsc /\ cache_ok C tsc [].
Proof.
  intros HC. unfold newTSCache. zdecide. eexists. split; [done|]. split; [|done].
  constructor; cbn [byHeight byKey start tlen]; unfold slot, len; cbn [byHeight start]; rewrite ?length_replicate; try done; try lia.
  - split; [done|apply Z.lt_le_incl, HC].
  - intros k Hk. rewrite lookup_replicate_2; [done|]. rewrite Z2Nat.id by lia. pose proof (Z.mod_pos_bound (0 - k) C HC). lia.
  - intros k t. rewrite lookup_empty. split; [done|]. intros [Hin _]. by apply not_elem_of_nil in Hin.
Qed.

(** [C24] The cache refines a window of the chain.  Over any sequence of applied and reverted
    tipsets a new cache of capacity [cap] never panics, reports the errors of the window
    operations and represents their window: applied tipsets come first with the null rounds
    before them, a revert removes the head and the null rounds under it, at most [cap] epochs
    are kept, every tipset has the height of its place and has the next one as parents, and the
    index by key holds the tipsets of the window and no others. *)
Theorem tscache_refines cap ops :
  0 < cap -> (forall to, OpApply to ∈ ops -> valid to) ->
  exists tsc0 errs tsc W, newTSCache cap = Ret tsc0 /\
    runOps cacheStep ops tsc0 = Ret (errs, tsc) /\ runOps (windowStep cap) ops [] = Ret (errs, W) /\
    ring_ok cap tsc W /\ window W.
Proof using valid_key valid_nonempty.
  intros HC Hv. destruct (cache_ok_new cap HC) as (tsc0 & E0 & H0).
  destruct (runs_refine cap ops tsc0 [] H0 Hv) as (errs & tsc & W & E & E' & HO).
  by exists tsc0, errs, tsc, W.
Qed.

(** ** Lookups by height *)

Lemma ring_at C tsc W base p :
  ring_ok C tsc W -> 0 <= p < C -> base = start tsc - p ->
  index (byHeight tsc) (normalModulo base (len (byHeight tsc))) = Ret (default None (W !! Z.to_nat p)).
Proof.
  intros [[HC EC] Hs _ Hsl _ _] Hp ->. rewrite EC, normalModulo_mod by lia. apply index_ok; [apply Z.mod_pos_bound; lia|].
  specialize (Hsl p Hp). unfold slot in Hsl. by rewrite EC in Hsl.
Qed.

(** The search passes [m] null rounds and stops at a tipset. *)
Lemma get_loop_finds C tsc W d k t m n i :
  ring_ok C tsc W ->
  (forall j, 0 <= j <= Z.of_nat m -> i + d * j < tlen tsc /\ 0 <= k - (i + d * j) < C) ->
  (forall j, 0 <= j < Z.of_nat m -> W !! Z.to_nat (k - (i + d * j)) = Some None) ->
  W !! Z.to_nat (k - (i + d * Z.of_nat m)) = Some (Some t) ->
  (m < n)%nat -> get_loop n tsc d (start tsc - k) i = Ret (Some t).
Proof.
  intros HR. revert n i. induction m as [|m IH]; intros n i Hb Hnull Ht Hn; (destruct n as [|n]; [lia|]); cbn [get_loop].
  all: destruct (Hb 0 ltac:(lia)) as [Hi Hp]; rewrite Z.mul_0_r, Z.add_0_r in Hi, Hp; zdecide.
  all: rewrite (ring_at C tsc W _ (k - i) HR Hp) by lia; cbn [mbind outcome_bind].
  - rewrite Z.mul_0_r, Z.add_0_r in Ht. by rewrite Ht.
  - pose proof (Hnull 0 ltac:(lia)) as H0. rewrite Z.mul_0_r, Z.add_0_r in H0. rewrite H0. cbn [default from_option id].
    apply IH; [| | |lia].
    + intros j Hj. specialize (Hb (j + 1) ltac:(lia)). by replace (i + d + d * j) with (i + d * (j + 1)) by lia.
    + intros j Hj. specialize (Hnull (j + 1) ltac:(lia)). by replace (i + d + d * j) with (i + d * (j + 1)) by lia.
    + by replace (i + d + d * Z.of_nat m) with (i + d * Z.of_nat (S m)) by lia.
Qed.

Lemma first_tipset (L : Window) t :
  Some t ∈ L -> exists m u, L !! m = Some (Some u) /\ forall j, (j < m)%nat -> L !! j = Some None.
Proof.
  induction L as [|[u|] L IH]; intros Hin; [by apply not_elem_of_nil in Hin| |].
  - exists 0%nat, u. split; [done|lia].
  - apply elem_of_cons in Hin as [?|Hin]; [done|]. destruct (IH Hin) as (m & u & Hm & Hj).
    exists (S m), u. split; [done|]. intros [|j] Hlt; [done|]. apply Hj. lia.
Qed.

Section get.
Context `{TsCacheAPI}.

(** A lookup under the head, by its key or with no key, is the search from the slot of its height. *)
Lemma get_search C tsc h W ht tsk prev :
  ring_ok C tsc (Some h :: W) -> tsk = EmptyTSK \/ tsk = Key (Some h) -> height h - tlen tsc <= ht < height h ->
  tsc_get tsc ht tsk prev =
  get_loop (length (byHeight tsc)) tsc (if prev then -1 else 1) (start tsc - (height h - ht)) 0.
Proof.
  intros HR Hk Hh. pose proof HR as [_ _ [HL _] _ HK _]. unfold tsc_get. rewrite HL, len_cons in *. pose proof (len_nonneg W). zdecide.
  rewrite (ring_head C tsc _ HR). cbn [mbind outcome_bind head default from_option id].
  assert ((if TipSetKey_IsEmpty tsk then Some (Some h) else Some <$> byKey tsc !! tsk) = Some (Some h)) as ->.
  { unfold TipSetKey_IsEmpty. destruct (Nat.eqb_spec (length tsk) 0) as [|Hne]; [done|].
    destruct Hk as [->| ->]; [by destruct Hne|].
    assert (byKey tsc !! Key (Some h) = Some h) as -> by (apply HK; split; [apply list_elem_of_here|done]). done. }
  cbn [nonNil mbind outcome_bind]. by zdecide.
Qed.

Lemma get_prev_ok C tsc h W ht tsk u :
  cache_ok C tsc (Some h :: W) -> tsk = EmptyTSK \/ tsk = Key (Some h) -> height h - tlen tsc < ht < height h ->
  Some u ∈ Some h :: W -> height u <= ht ->
  exists t, tsc_get tsc ht tsk true = Ret (Some t) /\ Some t ∈ Some h :: W /\ height t <= ht /\
    forall v, Some v ∈ Some h :: W -> height v <= ht -> height v <= height t.
Proof.
  intros [HR [HP _]] Hk Hh Hu Hle. rewrite (get_search C tsc h W) by (done || lia).
  pose proof HR as [[HC EC] _ [HL HL'] _ _ _]. set (W0 := Some h :: W) in *. set (k := Z.to_nat (height h - ht)).
  assert (Some u ∈ drop k W0) as Hd.
  { apply list_elem_of_lookup in Hu as [i Hi]. destruct (HP i u Hi) as [_ E].
    apply list_elem_of_lookup. exists (i - k)%nat. rewrite lookup_drop. by replace (k + (i - k))%nat with i by (unfold k; lia). }
  destruct (first_tipset _ _ Hd) as (m & t & Hm & Hn). rewrite lookup_drop in Hm. destruct (HP _ t Hm) as [_ Et].
  pose proof (lookup_lt_Some _ _ _ Hm) as Hlt. unfold len in *.
  exists t. split; [|split; [by eapply list_elem_of_lookup_2|split; [unfold k in *; lia|]]].
  - apply (get_loop_finds C tsc W0 (-1) (height h - ht) t m); [done|..].
    + intros j Hj. unfold k in *. lia.
    + intros j Hj. specialize (Hn (Z.to_nat j) ltac:(lia)). rewrite lookup_drop in Hn.
      by replace (Z.to_nat (height h - ht - (0 + -1 * j))) with (k + Z.to_nat j)%nat by (unfold k; lia).
    + by replace (Z.to_nat (height h - ht - (0 + -1 * Z.of_nat m))) with (k + m)%nat by (unfold k; lia).
    + unfold k in *. lia.
  - intros v Hv Hvle. apply list_elem_of_lookup in Hv as [i Hi]. destruct (HP i v Hi) as [_ Ev].
    destruct (decide (k + m <= i)%nat); [lia|]. specialize (Hn (i - k)%nat ltac:(unfold k in *; lia)).
    rewrite lookup_drop in Hn. replace (k + (i - k))%nat with i in Hn by (unfold k; lia). congruence.
Qed.

Lemma get_next_ok C tsc h W ht tsk :
  cache_ok C tsc (Some h :: W) -> tsk = EmptyTSK \/ tsk = Key (Some h) -> height h - tlen tsc < ht < height h ->
  exists t, tsc_get tsc ht tsk false = Ret (Some t) /\ Some t ∈ Some h :: W /\ ht <= height t /\
    forall v, Some v ∈ Some h :: W -> ht <= height v -> height t <= height v.
Proof.
  intros [HR [HP _]] Hk Hh. rewrite (get_search C tsc h W) by (done || lia).
  pose proof HR as [[HC EC] _ [HL HL'] _ _ _]. set (W0 := Some h :: W) in *. set (k := Z.to_nat (height h - ht)).
  unfold len in *. assert (length (take (S k) W0) = S k) as Hlen by (rewrite length_take; unfold k; lia).
  assert (Some h ∈ reverse (take (S k) W0)) as Hd by (apply elem_of_reverse, list_elem_of_here).
  assert (forall j, (j <= k)%nat -> reverse (take (S k) W0) !! j = W0 !! (k - j)%nat) as Hrev.
  { intros j Hj. rewrite reverse_lookup by lia. rewrite Hlen, lookup_take_lt by lia. by rewrite Nat.sub_succ. }
  destruct (first_tipset _ _ Hd) as (m & t & Hm & Hn).
  pose proof (lookup_lt_Some _ _ _ Hm) as Hlt. rewrite length_reverse, Hlen in Hlt.
  rewrite Hrev in Hm by lia. destruct (HP _ t Hm) as [_ Et].
  exists t. split; [|split; [by eapply list_elem_of_lookup_2|split; [unfold k in *; lia|]]].
  - apply (get_loop_finds C tsc W0 1 (height h - ht) t m); [done|..].
    + intros j Hj. unfold k in *. lia.
    + intros j Hj. specialize (Hn (Z.to_nat j) ltac:(lia)). rewrite Hrev in Hn by lia.
      by replace (Z.to_nat (height h - ht - (0 + 1 * j))) with (k - Z.to_nat j)%nat by (unfold k; lia).
    + by replace (Z.to_nat (height h - ht - (0 + 1 * Z.of_nat m))) with (k - m)%nat by (unfold k; lia).
    + unfold k in *. lia.
  - intros v Hv Hvle. apply list_elem_of_lookup in Hv as [i Hi]. destruct (HP i v Hi) as [_ Ev].
    destruct (decide (i <= k - m)%nat); [lia|]. specialize (Hn (k - i)%nat ltac:(unfold k in *; lia)).
    rewrite Hrev in Hn by lia. replace (k - (k - i))%nat with i in Hn by (unfold k in *; lia). congruence.
Qed.

(** A lookup in the window, from the head or with no key, gives the nearest tipset: by
    height the highest one at or under the height asked for, when the window has one, and after
    a height the lowest one at or over it. *)
Theorem get_nearest C tsc h W ht tsk :
  cache_ok C tsc (Some h :: W) -> tsk = EmptyTSK \/ tsk = Key (Some h) -> height h - tlen tsc < ht < height h ->
  (forall u, Some u ∈ Some h :: W -> height u <= ht ->
    exists t, ChainGetTipSetByHeight tsc ht tsk = Ret (Some t) /\ Some t ∈ Some h :: W /\ height t <= ht /\
      forall v, Some v ∈ Some h :: W -> height v <= ht -> height v <= height t) /\
  exists t, ChainGetTipSetAfterHeight tsc ht tsk = Ret (Some t) /\ Some t ∈ Some h :: W /\ ht <= height t /\
    forall v, Some v ∈ Some h :: W -> ht <= height v -> height t <= height v.
Proof.
  intros HO Hk Hh. split.
  - intros u Hu Hle. by apply (get_prev_ok C tsc h W ht tsk u).
  - by apply (get_next_ok C tsc h W ht tsk).
Qed.
End get.
End window.

(** ** A concrete chain, and witnesses *)

(** A tipset of one block, named [n]. *)
Definition chainTs (n h : Z) (parents : list Cid) : TipSet := {|
  cids := [[1; n]];
  blks := [{| Miner := "t01000"; BlockTicket := {| VRFProof := [n] |}; ElectionProof := None; BeaconEntries := []; WinPoStProof := [];
    BlockParents := parents; BlockParentWeight := 0; BlockHeight := h; ParentStateRoot := []; ParentReceipts := [];
    Messages := []; BLSAggregate := None; Timestamp := n; BlockSig := None; ForkSignaling := 0; ParentBaseFee := 0;
    validated := true |}];
  height := h;
|}.

Definition ts10 := chainTs 10 10 [[1; 9]].
Definition ts11 := chainTs 11 11 [[1; 10]].
Definition ts13 := chainTs 13 13 [[1; 11]].

Definition demoOps := [OpApply ts10; OpApply ts11; OpApply ts13; OpRevert ts11].

Definition demoValid (t : TipSet) : Prop := t = ts10 \/ t = ts11 \/ t = ts13.

Lemma demoValid_key t u : demoValid t -> demoValid u -> Key (Some t) = Key (Some u) -> t = u.
Proof. intros [->|[->| ->]] [->|[->| ->]] E; first [done|by vm_compute in E]. Qed.

Lemma demoValid_nonempty t : demoValid t -> Key (Some t) <> EmptyTSK /\ blks t <> [].
Proof. by intros [->|[->| ->]]. Qed.

Lemma demoValid_ops to : OpApply to ∈ demoOps -> demoValid to.
Proof. unfold demoOps, demoValid. rewrite !elem_of_cons. intros [[= ->]|[[= ->]|[[= ->]|[[=]|E]]]]; auto. by apply not_elem_of_nil in E. Qed.

Definition demoWindow : Window := [Some ts13; None; Some ts11; Some ts10].

Definition demoCache (cap : Z) (ops : list Op) : tipSetCache :=
  match (tsc ← newTSCache cap; runOps cacheStep ops tsc) with
  | Ret (_, tsc) => tsc
  | _ => {| byKey := ∅; byHeight := []; start := 0; tlen := 0 |}
  end.

Lemma demoCache_ok : cache_ok demoValid 4 (demoCache 4 demoOps) demoWindow.
Proof.
  destruct (cache_ok_new demoValid 4 ltac:(lia)) as (tsc0 & E0 & H0).
  destruct (runs_refine demoValid demoValid_key demoValid_nonempty 4 demoOps tsc0 [] H0 demoValid_ops)
    as (errs & tsc & W & E & E' & HO).
  vm_compute in E'. injection E' as _ <-. unfold demoCache. rewrite E0. cbn [mbind outcome_bind]. rewrite E. exact HO.
Qed.

Lemma tscache_refines_witness :
  exists tsc0 errs tsc, newTSCache 4 = Ret tsc0 /\ runOps cacheStep demoOps tsc0 = Ret (errs, tsc) /\
    ring_ok 4 tsc demoWindow.
Proof.
  destruct (tscache_refines demoValid demoValid_key demoValid_nonempty 4 demoOps ltac:(lia) demoValid_ops)
    as (tsc0 & errs & tsc & W & E0 & E & E' & HR & _).
  exists tsc0, errs, tsc. vm_compute in E'. injection E' as _ <-. auto.
Defined.

Definition noStore : TsCacheAPI := {|
  api_ChainGetTipSetAfterHeight := fun _ _ => Err "not found";
  api_ChainGetTipSetByHeight := fun _ _ => Err "not found";
  api_ChainGetTipSet := fun _ => Err "not found";
  api_ChainHead := Err "not found";
|}.

Lemma get_nearest_witness :
  exists t, @ChainGetTipSetByHeight noStore (demoCache 4 demoOps) 12 EmptyTSK = Ret (Some t) /\ height t <= 12 /\ 11 <= height t.
Proof.
  destruct (@get_nearest demoValid noStore 4 (demoCache 4 demoOps) ts13 [None; Some ts11; Some ts10] 12 EmptyTSK) as [Hp _].
  - exact demoCache_ok.
  - by left.
  - vm_compute. split; reflexivity.
  - destruct (Hp ts11) as (t & Hg & _ & Hle & Hmax); [right; right; left|vm_compute; discriminate|].
    exists t. split; [exact Hg|]. split; [exact Hle|]. apply (Hmax ts11); [right; right; left|vm_compute; discriminate].
Defined.

(** A lookup from an ancestor in the cache counts its offset from the slot of the head: under
    [ts11] it gives [ts11] for height 10, which is the height of its parent [ts10]. *)
Lemma get_ancestor_shifted :
  @ChainGetTipSetByHeight noStore (demoCache 4 demoOps) 10 (Key (Some ts11)) = Ret (Some ts11) /\
  @ChainGetTipSet noStore (demoCache 4 demoOps) (Key (Some ts10)) = Ret (Some ts10).
Proof. split; vm_compute; reflexivity. Qed.

(** One epoch under the oldest entry the lookup does not ask the store: the search goes round
    the ring, to the head. *)
Lemma get_below_tail :
  @ChainGetTipSetByHeight noStore (demoCache 4 [OpApply ts10; OpApply ts11]) 9 EmptyTSK = Ret (Some ts11) /\
  @ChainGetTipSetByHeight noStore (demoCache 4 [OpApply ts10; OpApply ts11]) 8 EmptyTSK = Err "not found".
Proof. split; vm_compute; reflexivity. Qed.

(** There a lookup after the height ends at nil with no error. *)
Lemma get_after_nil :
  @ChainGetTipSetAfterHeight noStore (demoCache 4 [OpApply ts10]) 9 EmptyTSK = Ret None.
Proof. vm_compute. reflexivity. Qed.
