(* ===== verification/ChainMsg.v ===== *)
(** * Messages: chain/types/message.go, signedmessage.go, bigint.go and percent.go

    A message of the chain, its validity for block inclusion, the funds it needs, and its
    identity.  The CBOR encoder, the CID builder and the address package are the operations
    of [MsgOps]. *)

From stdpp Require Import pretty.
From S2P Require Import Prelude TipSet Gas.

(** ** Amounts

    [types.BigInt] holds a pointer that is nil until the amount is set. *)

Definition BigInt := option Z.

(** Using a nil amount dereferences the pointer. *)
Definition deref (a : BigInt) : outcome Z := match a with Some z => Ret z | None => Panic end.

(** [chain/types/bigint.go], on amounts that are set. *)
Definition NewInt (i : Z) : Z := u64 i.
Definition BigMul (a b : Z) : Z := a * b.
Definition BigAdd (a b : Z) : Z := a + b.
Definition BigDiv (a b : Z) : outcome Z := if b =? 0 then Panic else Ret (Z.sgn b * (a / Z.abs b)).
Definition BigCmp (a b : Z) : Z := match a ?= b with Lt => -1 | Eq => 0 | Gt => 1 end.

Definition FilBase : Z := 2000000000.
Definition FilecoinPrecision : Z := 1000000000000000000.
Definition FromFil (i : Z) : Z := BigMul (NewInt i) (NewInt FilecoinPrecision).
Definition TotalFilecoinInt : Z := FromFil FilBase.

(** ** Messages *)

Record Message := {
  Version : Z;
  To : Address;
  From : Address;
  Nonce : Z;
  Value : BigInt;
  GasLimit : Z;
  GasFeeCap : BigInt;
  GasPremium : BigInt;
  Method : Z;
  Params : bytes;
}.

(** [crypto.SigTypeBLS] and the other signature types. *)
Inductive SigType := SigTypeBLS | SigTypeSecp256k1 | SigTypeDelegated | SigTypeOther (n : Z).

Record Signature := {
  SType : SigType; (* [Type] *)
  SData : bytes; (* [Data] *)
}.

Record SignedMessage := {
  SMessage : Message; (* [Message] *)
  SSignature : Signature; (* [Signature] *)
}.

#[export] Instance SigType_eq_dec : EqDecision SigType.
Proof. solve_decision. Defined.
#[export] Instance Signature_eq_dec : EqDecision Signature.
Proof. solve_decision. Defined.
#[export] Instance Message_eq_dec : EqDecision Message.
Proof. solve_decision. Defined.
#[export] Instance SignedMessage_eq_dec : EqDecision SignedMessage.
Proof. solve_decision. Defined.

Class MsgOps := {
  (** the generated encoders *)
  Message_MarshalCBOR : Message -> outcome bytes;
  SignedMessage_MarshalCBOR : SignedMessage -> outcome bytes;
  (** [abi.CidBuilder.Sum] *)
  CidBuilder_Sum : bytes -> outcome Cid;
  (** [go-address] and [go-state-types/abi] *)
  address_Undef : Address;
  address_isID : Address -> bool;
  AddressValidForNetworkVersion : Address -> Z -> bool;
  (** [build.ZeroAddress], which is parsed by [go-address] *)
  ZeroAddress : Address;
}.

Section messages.
Context `{BigOps} `{MsgOps}.

Definition RequiredFunds (m : Message) : outcome Z :=
  feeCap ← deref (GasFeeCap m); Ret (BigMul feeCap (NewInt (GasLimit m))).

Definition ValidForBlockInclusion (m : Message) (minGas version : Z) : outcome unit :=
  if negb (Version m =? 0) then Err "'Version' unsupported"
  else if bool_decide (To m = address_Undef) then Err "'To' address cannot be empty"
  else if bool_decide (To m = ZeroAddress) && (7 <=? version) then Err "invalid 'To' address"
  else if negb (AddressValidForNetworkVersion (To m) version) then Err "'To' address protocol unsupported for network version"
  else if bool_decide (From m = address_Undef) then Err "'From' address cannot be empty"
  else if negb (AddressValidForNetworkVersion (From m) version) then Err "'From' address protocol unsupported for network version"
  else
    match Value m with
    | None => Err "'Value' cannot be nil"
    | Some value =>
        if big_LessThan value 0 then Err "'Value' field cannot be negative"
        else if big_GreaterThan value TotalFilecoinInt then Err "'Value' field cannot be greater than total filecoin supply"
        else
          match GasFeeCap m with
          | None => Err "'GasFeeCap' cannot be nil"
          | Some feeCap =>
              if big_LessThan feeCap 0 then Err "'GasFeeCap' field cannot be negative"
              else
                match GasPremium m with
                | None => Err "'GasPremium' cannot be nil"
                | Some premium =>
                    if big_LessThan premium 0 then Err "'GasPremium' field cannot be negative"
                    else if big_GreaterThan premium feeCap then Err "'GasFeeCap' less than 'GasPremium'"
                    else if BlockGasLimit <? GasLimit m then Err "'GasLimit' field cannot be greater than a block's gas limit"
                    else if GasLimit m <=? 0 then Err "'GasLimit' field must be positive"
                    else if GasLimit m <? minGas then Err "'GasLimit' field cannot be less than the cost of storing a message on chain"
                    else Ret tt
                end
          end
    end.

Definition EffectiveGasPremium (m : Message) (baseFee : Z) : outcome Z :=
  feeCap ← deref (GasFeeCap m);
  premium ← deref (GasPremium m);
  let available := big_Sub feeCap baseFee in
  let available := if big_LessThan available 0 then 0 else available in
  if big_Cmp premium available <=? 0 then Ret premium else Ret available.

(** ** Identity *)

Definition Message_Serialize (m : Message) : outcome bytes := Message_MarshalCBOR m.

(** A block is its data and its CID. *)
Definition Message_ToStorageBlock (m : Message) : outcome (bytes * Cid) :=
  data ← Message_Serialize m; c ← CidBuilder_Sum data; Ret (data, c).

Definition noErr {A} (r : outcome A) : outcome A := match r with Err _ => Panic | r => r end.

Definition Message_Cid (m : Message) : outcome Cid := b ← noErr (Message_ToStorageBlock m); Ret (snd b).

Definition Message_Equals (m o : Message) : outcome bool :=
  c ← Message_Cid m; d ← Message_Cid o; Ret (bool_decide (c = d)).

Definition withoutGas (m : Message) : Message := {|
  Version := Version m; To := To m; From := From m; Nonce := Nonce m; Value := Value m; GasLimit := 0;
  GasFeeCap := Some 0; GasPremium := Some 0; Method := Method m; Params := Params m;
|}.

Definition EqualCall (m o : Message) : outcome bool := Message_Equals (withoutGas m) (withoutGas o).

Definition Message_ChainLength (m : Message) : outcome Z := ser ← noErr (Message_Serialize m); Ret (len ser).

Definition isBLS (sm : SignedMessage) : bool := bool_decide (SType (SSignature sm) = SigTypeBLS).

Definition SignedMessage_Serialize (sm : SignedMessage) : outcome bytes := SignedMessage_MarshalCBOR sm.

Definition SignedMessage_ToStorageBlock (sm : SignedMessage) : outcome (bytes * Cid) :=
  if isBLS sm then Message_ToStorageBlock (SMessage sm)
  else data ← SignedMessage_Serialize sm; c ← CidBuilder_Sum data; Ret (data, c).

Definition SignedMessage_Cid (sm : SignedMessage) : outcome Cid :=
  if isBLS sm then Message_Cid (SMessage sm)
  else sb ← noErr (SignedMessage_ToStorageBlock sm); Ret (snd sb).

Definition SignedMessage_ChainLength (sm : SignedMessage) : outcome Z :=
  ser ← noErr (if isBLS sm then Message_Serialize (SMessage sm) else SignedMessage_Serialize sm);
  Ret (len ser).

Definition Size (sm : SignedMessage) : outcome Z :=
  match SignedMessage_Serialize sm with
  | Ret serdata => Ret (len serdata)
  | Err _ => Ret 0
  | Panic => Panic
  end.
End messages.

(** ** chain/types/percent.go *)

Definition Percent_String (p : Z) : string :=
  let '(abs, sign) := if p <? 0 then (i64 (- p), "-"%string) else (p, EmptyString) in
  (sign +:+ pretty (Z.quot abs 100) +:+ "." +:+ pretty (Z.rem abs 100))%string.

(** ** Properties *)

(** What a message with set amounts has. *)
Definition amounts_set (m : Message) : Prop := exists v f p, Value m = Some v /\ GasFeeCap m = Some f /\ GasPremium m = Some p.

Section props.
Context `{BigOpsOk} `{MsgOps}.

Lemma valid_amounts m minGas version :
  ValidForBlockInclusion m minGas version = Ret tt ->
  exists v f p, Value m = Some v /\ GasFeeCap m = Some f /\ GasPremium m = Some p /\
    0 <= v <= TotalFilecoinInt /\ 0 <= p <= f /\ 0 < GasLimit m <= BlockGasLimit /\ minGas <= GasLimit m.
Proof.
  unfold ValidForBlockInclusion. destruct (Value m) as [v|], (GasFeeCap m) as [f|], (GasPremium m) as [p|].
  all: repeat case_match; try done. all: autorewrite with bigs in *.
  intros _. exists v, f, p. repeat match goal with H : (_ <? _) = false |- _ => apply Z.ltb_ge in H | H : (_ <=? _) = false |- _ => apply Z.leb_gt in H end.
  repeat split; lia.
Qed.

Lemma RequiredFunds_set m : amounts_set m -> exists z, RequiredFunds m = Ret z.
Proof. intros (v & f & p & Hv & Hf & Hp). unfold RequiredFunds. rewrite Hf. by eexists. Qed.

Lemma RequiredFunds_nonneg m f z : GasFeeCap m = Some f -> 0 <= f -> RequiredFunds m = Ret z -> 0 <= z.
Proof.
  intros Hf Hn. unfold RequiredFunds. rewrite Hf. intros [= <-]. unfold BigMul, NewInt.
  pose proof (u64_range (GasLimit m)) as Hr. unfold in_u64 in Hr. lia.
Qed.

(** The premium the Ethereum interface reports is what the miner is tipped per unit of gas. *)
Lemma effective_premium_is_tip m baseFee gasUsed f p :
  GasFeeCap m = Some f -> GasPremium m = Some p ->
  exists e, EffectiveGasPremium m baseFee = Ret e /\
    MinerTip (ComputeGasOutputs gasUsed (GasLimit m) baseFee f p true) = e * GasLimit m.
Proof.
  intros Hf Hp. unfold EffectiveGasPremium, ComputeGasOutputs. rewrite Hf, Hp. cbn [deref mbind outcome_bind].
  destruct (ComputeGasOverestimationBurn _ _) as [gasRefund gasBurned]. autorewrite with bigs.
  exists (if p <=? (if f - baseFee <? 0 then 0 else f - baseFee) then p else if f - baseFee <? 0 then 0 else f - baseFee).
  split; [by zcases|]. destruct (Z.ltb_spec f baseFee), (negb (gasBurned =? 0)); cbn [MinerTip]; autorewrite with bigs; zcases.
Qed.
End props.

(** The fraction is not padded to two places: 105%, which is 1.05, is written as 1.5. *)
Lemma percent_unpadded : Percent_String 105 = "1.5"%string /\ Percent_String 150 = "1.50"%string.
Proof. split; vm_compute; reflexivity. Qed.
