(* ===== verification/MsgSet.v ===== *)
(** * The pending messages of an actor: the msgSet of chain/messagepool/messagepool.go

    The messages of one sender by nonce, the first nonce that is free, and the gas funds all of
    them need.  The errors that callers tell apart are the sentinels of the source; an error
    that wraps one is that sentinel. *)

From stdpp Require Import sorting.
From S2P Require Import Prelude TipSet Gas ChainMsg.

Definition ErrMessageTooBig : string := "message too big".
Definition ErrMessageValueTooHigh : string := "cannot send more filecoin than will ever exist".
Definition ErrNonceTooLow : string := "message nonce too low".
Definition ErrGasFeeCapTooLow : string := "gas fee cap too low".
Definition ErrNotEnoughFunds : string := "not enough funds to execute transaction".
Definition ErrInvalidToAddr : string := "message had invalid to address".
Definition ErrSoftValidationFailure : string := "validation failure".
Definition ErrRBFTooLowPremium : string := "replace by fee has too low GasPremium".
Definition ErrTooManyPendingMessages : string := "too many pending messages for actor".
Definition ErrNonceGap : string := "unfulfilled nonce gap".
Definition ErrExistingNonce : string := "message with nonce already exists".

Definition MaxActorPendingMessages : Z := 1000.
Definition MaxUntrustedActorPendingMessages : Z := 10.
Definition MaxNonceGap : Z := 4.

(** [messagepool/config.go] *)
Definition ReplaceByFeePercentageMinimum : Z := 110.

Definition rbfNumBig : Z := NewInt (u64 ReplaceByFeePercentageMinimum).
Definition rbfDenomBig : Z := NewInt 100.

Record msgSet := {
  msgs : gmap Z SignedMessage;
  nextNonce : Z;
  requiredFunds : Z;
}.

Definition newMsgSet (nonce : Z) : msgSet := {| msgs := ∅; nextNonce := nonce; requiredFunds := 0 |}.

Definition ComputeRBF (curPrem replaceByFeeRatio : Z) : outcome Z :=
  let rbfNumBig := NewInt (u64 replaceByFeeRatio) in
  minPrice ← BigDiv (BigMul curPrem rbfNumBig) rbfDenomBig;
  Ret (BigAdd minPrice (NewInt 1)).

Definition ComputeMinRBF (curPrem : Z) : outcome Z :=
  minPrice ← BigDiv (BigMul curPrem rbfNumBig) rbfDenomBig;
  Ret (BigAdd minPrice (NewInt 1)).

(** The loops that advance over messages that are there; a set of [n] messages stops them
    after at most [n] rounds. *)
Fixpoint fillGap (n : nat) (ms : gmap Z SignedMessage) (nonce : Z) : outcome Z :=
  match ms !! nonce with
  | None => Ret nonce
  | Some _ =>
      match n with
      | O => Panic
      | S n => fillGap n ms (u64 (nonce + 1))
      end
  end.

(** [api.MessageSendSpec] *)
Record MessageSendSpec := {
  MaxFee : BigInt;
  MaximizeFeeCap : bool;
}.

Section fees.
Context `{BigOps}.

(** [mff] gives the default maximum, or an error. *)
Definition CapGasFee (mff : outcome Z) (msg : Message) (sendSpec : option MessageSendSpec) : outcome Message :=
  let '(maxFee, maximizeFeeCap) :=
    match sendSpec with
    | Some spec => (MaxFee spec, MaximizeFeeCap spec)
    | None => (None, false)
    end in
  maxFee ←
    match maxFee with
    | Some z => if big_Equals z 0 then (match mff with Ret mf => Ret mf | Err _ => Ret 0 | Panic => Panic end) else Ret z
    | None => match mff with Ret mf => Ret mf | Err _ => Ret 0 | Panic => Panic end
    end;
  let gaslimit := NewInt (u64 (GasLimit msg)) in
  feeCap ← deref (GasFeeCap msg);
  let totalFee := BigMul feeCap gaslimit in
  feeCap ←
    (if maximizeFeeCap || big_GreaterThan totalFee maxFee
     then if gaslimit =? 0 then Panic else Ret (big_Div maxFee gaslimit)
     else Ret feeCap);
  premium ← deref (GasPremium msg);
  Ret {| Version := Version msg; To := To msg; From := From msg; Nonce := Nonce msg; Value := Value msg;
         GasLimit := GasLimit msg; GasFeeCap := Some feeCap; GasPremium := Some (big_Min feeCap premium);
         Method := Method msg; Params := Params msg |}.
End fees.

Section msgset.
Context `{BigOps} `{MsgOps}.

(** The next nonce after the message, and whether the message leaves a gap. *)
Definition checkNonce (ms : msgSet) (nonce : Z) (strict : bool) (maxNonceGap : Z) : outcome (Z * bool) :=
  if nonce =? nextNonce ms then
    n ← fillGap (size (msgs ms)) (msgs ms) (u64 (nextNonce ms + 1));
    Ret (n, false)
  else if strict && (u64 (nextNonce ms + maxNonceGap) <? nonce) then Err ErrNonceGap
  else Ret (nextNonce ms, nextNonce ms <? nonce).

(** A message that replaces [exms]. *)
Definition checkRBF (m exms : SignedMessage) : outcome unit :=
  c ← SignedMessage_Cid m;
  d ← SignedMessage_Cid exms;
  if negb (bool_decide (c = d)) then
    oldPremium ← deref (GasPremium (SMessage exms));
    minPrice ← ComputeMinRBF oldPremium;
    premium ← deref (GasPremium (SMessage m));
    if 0 <=? BigCmp premium minPrice then Ret tt else Err ErrRBFTooLowPremium
  else Err ErrExistingNonce.

(** The result tells whether there is one message more. *)
Definition mset_add (m : SignedMessage) (strict untrusted : bool) (ms : msgSet) : outcome (bool * msgSet) :=
  let maxNonceGap := if untrusted then 0 else MaxNonceGap in
  let maxActorPendingMessages := if untrusted then MaxUntrustedActorPendingMessages else MaxActorPendingMessages in
  let nonce := Nonce (SMessage m) in
  '(nextNonce, nonceGap) ← checkNonce ms nonce strict maxNonceGap;
  funds ←
    match msgs ms !! nonce with
    | Some exms =>
        if strict && nonceGap then Err ErrNonceGap
        else
          _ ← checkRBF m exms;
          f ← RequiredFunds (SMessage exms);
          Ret (requiredFunds ms - f)
    | None =>
        if strict && (maxActorPendingMessages <=? Z.of_nat (size (msgs ms))) then Err ErrTooManyPendingMessages
        else Ret (requiredFunds ms)
    end;
  f ← RequiredFunds (SMessage m);
  Ret (bool_decide (msgs ms !! nonce = None),
       {| msgs := <[nonce := m]> (msgs ms); nextNonce := nextNonce; requiredFunds := funds + f |}).

Definition rm (nonce : Z) (applied : bool) (ms : msgSet) : outcome msgSet :=
  match msgs ms !! nonce with
  | None =>
      if applied && (nextNonce ms <=? nonce) then
        n ← fillGap (size (msgs ms)) (msgs ms) (u64 (nonce + 1));
        Ret {| msgs := msgs ms; nextNonce := n; requiredFunds := requiredFunds ms |}
      else Ret ms
  | Some m =>
      f ← RequiredFunds (SMessage m);
      Ret {| msgs := delete nonce (msgs ms);
             nextNonce :=
               if applied then (if nextNonce ms <=? nonce then u64 (nonce + 1) else nextNonce ms)
               else (if nonce <? nextNonce ms then nonce else nextNonce ms);
             requiredFunds := requiredFunds ms - f |}
  end.

Definition getRequiredFunds (nonce : Z) (ms : msgSet) : outcome Z :=
  match msgs ms !! nonce with
  | Some m => f ← RequiredFunds (SMessage m); Ret (requiredFunds ms - f)
  | None => Ret (requiredFunds ms)
  end.

Definition byNonce (m1 m2 : SignedMessage) : Prop := Nonce (SMessage m1) <= Nonce (SMessage m2).
#[export] Instance byNonce_dec : RelDecision byNonce.
Proof. intros m1 m2. unfold byNonce. apply _. Defined.

Definition toSlice (ms : msgSet) : list SignedMessage := merge_sort byNonce (snd <$> map_to_list (msgs ms)).
End msgset.
