(* ===== verification/MsgSetProps.v ===== *)
(** * Properties of the pending messages of an actor

    The loops that look for a free nonce end at the first one; the funds are the sum over the
    messages; adding follows the rules for gaps, limits and replacement. *)

From S2P Require Import Prelude TipSet Gas ChainMsg MsgSet.

(** ** The loops over nonces *)

Lemma fillGap_cases n ms x :
  (exists k, (k <= n)%nat /\ fillGap n ms (u64 x) = Ret (u64 (x + Z.of_nat k)) /\ ms !! u64 (x + Z.of_nat k) = None /\
     forall i, (i < k)%nat -> is_Some (ms !! u64 (x + Z.of_nat i))) \/
  (fillGap n ms (u64 x) = Panic /\ forall i, (i <= n)%nat -> is_Some (ms !! u64 (x + Z.of_nat i))).
Proof.
  revert x. induction n as [|n IH]; intros x; cbn [fillGap]; destruct (ms !! u64 x) eqn:E.
  - right. split; [done|]. intros i Hi. replace i with 0%nat by lia. rewrite Z.add_0_r. by eexists.
  - left. exists 0%nat. rewrite Z.add_0_r. repeat split; [lia|done|lia].
  - rewrite u64_add_l. destruct (IH (x + 1)) as [(k & Hk & Ef & En & Hi)|[Ef Hi]].
    + left. exists (S k). replace (x + Z.of_nat (S k)) with (x + 1 + Z.of_nat k) by lia. repeat split; [lia|done..|].
      intros [|i] Hlt; [rewrite Z.add_0_r; by eexists|]. replace (x + Z.of_nat (S i)) with (x + 1 + Z.of_nat i) by lia. apply Hi. lia.
    + right. split; [done|]. intros [|i] Hle; [rewrite Z.add_0_r; by eexists|].
      replace (x + Z.of_nat (S i)) with (x + 1 + Z.of_nat i) by lia. apply Hi. lia.
  - left. exists 0%nat. rewrite Z.add_0_r. repeat split; [lia|done|lia].
Qed.

(** Distinct keys are at most as many as the entries. *)
Lemma keys_le_size {A} (ms : gmap Z A) (l : list Z) : NoDup l -> (forall k, k ∈ l -> is_Some (ms !! k)) -> (length l <= size ms)%nat.
Proof.
  intros Hnd Hl. rewrite <- size_dom. rewrite <- (size_list_to_set (C := gset Z) l) by done.
  apply subseteq_size. intros k Hk. apply elem_of_dom, Hl. by apply elem_of_list_to_set in Hk.
Qed.

Lemma u64_inj_offset x i j : 0 <= i < 18446744073709551616 -> 0 <= j < 18446744073709551616 -> u64 (x + i) = u64 (x + j) -> i = j.
Proof. unfold u64. intros Hi Hj E. dlia. Qed.

(** [r] is the first free nonce from [x] on. *)
Definition first_free {A} (ms : gmap Z A) (x r : Z) : Prop :=
  exists k, r = u64 (x + Z.of_nat k) /\ ms !! r = None /\ forall i, (i < k)%nat -> is_Some (ms !! u64 (x + Z.of_nat i)).

Lemma fillGap_ok ms x :
  Z.of_nat (size ms) < 18446744073709551616 -> exists r, fillGap (size ms) ms (u64 x) = Ret r /\ first_free ms x r.
Proof.
  intros Hs. destruct (fillGap_cases (size ms) ms x) as [(k & Hk & Ef & En & Hi)|[_ Hi]].
  - eexists. split; [done|]. exists k. done.
  - exfalso. pose proof (keys_le_size ms ((fun i => u64 (x + Z.of_nat i)) <$> seq 0 (S (size ms)))) as Hle.
    rewrite length_fmap, length_seq in Hle. cut (S (size ms) <= size ms)%nat; [lia|]. apply Hle.
    + apply NoDup_fmap_2_strong; [|apply NoDup_seq]. intros i j Hi' Hj' E. apply elem_of_seq in Hi', Hj'.
      apply u64_inj_offset in E; lia.
    + intros y Hy. apply list_elem_of_fmap in Hy as (i & -> & Hin). apply elem_of_seq in Hin. apply Hi. lia.
Qed.

Lemma first_free_range {A} (ms : gmap Z A) x r : first_free ms x r -> in_u64 r.
Proof. intros (k & -> & _). apply u64_range. Qed.

(** ** Funds *)

Definition fundsOf (m : SignedMessage) : Z := match RequiredFunds (SMessage m) with Ret z => z | _ => 0 end.

Definition totalFunds (ms : gmap Z SignedMessage) : Z := map_sum fundsOf ms.

(** ** The invariant *)

Section props.
Context `{BigOpsOk} `{MsgOps}.

(** A message with its amounts, a 64-bit nonce and a CID. *)
Definition msg_ok (m : SignedMessage) : Prop :=
  amounts_set (SMessage m) /\ in_u64 (Nonce (SMessage m)) /\ exists c, SignedMessage_Cid m = Ret c.

Record msgset_ok (ms : msgSet) : Prop := {
  ms_keyed : forall n m, msgs ms !! n = Some m -> Nonce (SMessage m) = n /\ msg_ok m;
  ms_funds : requiredFunds ms = totalFunds (msgs ms);
  ms_next : in_u64 (nextNonce ms);
}.

Lemma RequiredFunds_of m : msg_ok m -> RequiredFunds (SMessage m) = Ret (fundsOf m).
Proof. intros [Ha _]. destruct (RequiredFunds_set _ Ha) as [z E]. unfold fundsOf. by rewrite E. Qed.

Lemma newMsgSet_ok n : in_u64 n -> msgset_ok (newMsgSet n).
Proof. intros Hn. by constructor. Qed.

(** When a message is taken, and the error it gets when it is not. *)
Definition replaces (m ex : SignedMessage) : Prop :=
  SignedMessage_Cid m <> SignedMessage_Cid ex /\
  exists old new, GasPremium (SMessage ex) = Some old /\ GasPremium (SMessage m) = Some new /\ old * 110 / 100 + 1 <= new.

Definition accepts (ms : msgSet) (m : SignedMessage) (strict untrusted : bool) : Prop :=
  let n := Nonce (SMessage m) in
  (strict = true -> n <= nextNonce ms + (if untrusted then 0 else MaxNonceGap)) /\
  match msgs ms !! n with
  | Some ex => replaces m ex /\ (strict = true -> n <= nextNonce ms)
  | None => strict = true -> Z.of_nat (size (msgs ms)) < if untrusted then MaxUntrustedActorPendingMessages else MaxActorPendingMessages
  end.

Definition refusal (ms : msgSet) (m : SignedMessage) (strict untrusted : bool) (e : string) : Prop :=
  let n := Nonce (SMessage m) in
  match msgs ms !! n with
  | None => strict = true /\
      (e = ErrNonceGap /\ nextNonce ms + (if untrusted then 0 else MaxNonceGap) < n \/
       e = ErrTooManyPendingMessages /\ (if untrusted then MaxUntrustedActorPendingMessages else MaxActorPendingMessages) <= Z.of_nat (size (msgs ms)))
  | Some ex =>
      e = ErrNonceGap /\ strict = true /\ nextNonce ms < n \/
      e = ErrExistingNonce /\ SignedMessage_Cid m = SignedMessage_Cid ex \/
      e = ErrRBFTooLowPremium /\ exists old new, GasPremium (SMessage ex) = Some old /\ GasPremium (SMessage m) = Some new /\
        new < old * 110 / 100 + 1
  end.

Lemma checkRBF_cases m ex :
  msg_ok m -> msg_ok ex ->
  match checkRBF m ex with
  | Ret _ => replaces m ex
  | Err e =>
      e = ErrExistingNonce /\ SignedMessage_Cid m = SignedMessage_Cid ex \/
      e = ErrRBFTooLowPremium /\ exists old new, GasPremium (SMessage ex) = Some old /\ GasPremium (SMessage m) = Some new /\
        new < old * 110 / 100 + 1
  | Panic => False
  end.
Proof.
  intros ((v & f & p & _ & _ & Ep) & _ & c & Ec) ((v' & f' & p' & _ & _ & Ep') & _ & d & Ed).
  unfold checkRBF, replaces. rewrite Ec, Ed, Ep, Ep'. cbn [mbind outcome_bind deref].
  case_bool_decide as Hcd; cbn [negb]; [left; split; congruence|].
  change (ComputeMinRBF p') with (Ret (1 * (p' * 110 / 100) + 1)). cbn [mbind outcome_bind].
  unfold BigCmp. destruct (Z.compare_spec p (1 * (p' * 110 / 100) + 1)); cbn.
  - split; [congruence|]. exists p', p. repeat split; lia.
  - right. split; [done|]. exists p', p. repeat split; lia.
  - split; [congruence|]. exists p', p. repeat split; lia.
Qed.

Lemma checkNonce_cases ms n strict gap :
  Z.of_nat (size (msgs ms)) < 18446744073709551616 -> 0 <= gap -> 0 <= nextNonce ms -> nextNonce ms + gap < 18446744073709551616 ->
  match checkNonce ms n strict gap with
  | Ret (next, nonceGap) =>
      (strict = true -> n <= nextNonce ms + gap) /\ nonceGap = (nextNonce ms <? n) /\
      (if decide (n = nextNonce ms) then first_free (msgs ms) (nextNonce ms + 1) next else next = nextNonce ms)
  | Err e => e = ErrNonceGap /\ strict = true /\ nextNonce ms + gap < n
  | Panic => False
  end.
Proof.
  intros Hs Hg Hn Hb. unfold checkNonce. rewrite (u64_id (nextNonce ms + gap)) by (unfold in_u64; lia).
  destruct (Z.eqb_spec n (nextNonce ms)) as [->|Hne].
  - destruct (fillGap_ok (msgs ms) (nextNonce ms + 1) Hs) as (r & -> & Hr). cbn [mbind outcome_bind].
    rewrite decide_True by done. repeat split; [lia|zcases|done].
  - destruct strict; cbn [andb]; [destruct (Z.ltb_spec (nextNonce ms + gap) n); [done|]|].
    all: rewrite decide_False by done; repeat split; done || lia.
Qed.

(** Every branch of adding a message. *)
Lemma mset_add_cases ms m strict untrusted :
  msgset_ok ms -> msg_ok m -> Z.of_nat (size (msgs ms)) < 18446744073709551616 ->
  nextNonce ms + MaxNonceGap < 18446744073709551616 ->
  match mset_add m strict untrusted ms with
  | Ret (incr, ms') =>
      accepts ms m strict untrusted /\ incr = bool_decide (msgs ms !! Nonce (SMessage m) = None) /\
      msgs ms' = <[Nonce (SMessage m) := m]> (msgs ms) /\ requiredFunds ms' = totalFunds (msgs ms') /\
      (if decide (Nonce (SMessage m) = nextNonce ms) then first_free (msgs ms) (nextNonce ms + 1) (nextNonce ms')
       else nextNonce ms' = nextNonce ms)
  | Err e => refusal ms m strict untrusted e
  | Panic => False
  end.
Proof.
  intros [Hk Hf [Hn _]] Hm Hs Hg. unfold mset_add, accepts, refusal, totalFunds in *.
  set (n := Nonce (SMessage m)). set (gap := if untrusted then 0 else MaxNonceGap).
  assert (0 <= gap <= MaxNonceGap) as Hgap by (unfold gap, MaxNonceGap; destruct untrusted; lia).
  pose proof (checkNonce_cases ms n strict gap Hs ltac:(lia) Hn ltac:(lia)) as HC.
  destruct (checkNonce ms n strict gap) as [[next nonceGap]|e|]; cbn [mbind outcome_bind]; [|destruct (msgs ms !! n); naive_solver lia|done].
  destruct HC as (Hle & -> & Hnext). destruct (msgs ms !! n) as [ex|] eqn:Ex.
  - destruct (Hk n ex Ex) as [_ Hex]. pose proof (checkRBF_cases m ex Hm Hex) as HR.
    destruct (strict && (nextNonce ms <? n)) eqn:Esg; cbn [mbind outcome_bind].
    { apply andb_true_iff in Esg as [-> Hlt%Z.ltb_lt]. by left. }
    destruct (checkRBF m ex); cbn [mbind outcome_bind]; [|by right|done].
    rewrite (RequiredFunds_of ex Hex), (RequiredFunds_of m Hm). cbn [mbind outcome_bind msgs nextNonce requiredFunds].
    split; [|rewrite (map_sum_replace fundsOf _ n ex) by done; split_and!; [done|done|lia|done]].
    split; [done|]. split; [done|]. intros ->. cbn in Esg. by apply Z.ltb_ge in Esg.
  - destruct (strict && _) eqn:Es; cbn [mbind outcome_bind].
    { apply andb_true_iff in Es as [-> Hm'%Z.leb_le]. split; [done|]. by right. }
    rewrite (RequiredFunds_of m Hm). cbn [mbind outcome_bind msgs nextNonce requiredFunds].
    split; [|rewrite map_sum_insert by done; split_and!; [done|done|lia|done]].
    split; [done|]. intros ->. cbn in Es. by apply Z.leb_gt in Es.
Qed.

Lemma refusal_not_accepted ms m strict untrusted e : refusal ms m strict untrusted e -> ~ accepts ms m strict untrusted.
Proof.
  unfold refusal, accepts, replaces. intros Hr [Hg Ha]. destruct (msgs ms !! Nonce (SMessage m)) as [ex|].
  - destruct Ha as [[Hc (old & new & Eo & En & Hle)] Ha], Hr as [(_ & Hs & Hlt)|[[_ Hr]|(_ & old' & new' & Eo' & En' & Hlt)]].
    + specialize (Ha Hs). lia.
    + done.
    + simplify_eq. lia.
  - destruct Hr as [Hs [[_ Hlt]|[_ Hlt]]]; [specialize (Hg Hs)|specialize (Ha Hs)]; lia.
Qed.

(** Adding a message to the pending ones decides by the rules of the pool: a strict
    addition keeps the limit on the gap to the next nonce and on the number of messages, a
    message with the nonce of another one replaces it only if it is a different one and its
    premium is at least 10 percent higher, and then the funds are the sum over the new
    messages and the next nonce is the first free one.  Otherwise the error tells why, and
    there is no panic. *)
Theorem msgset_add_decides ms m strict untrusted :
  msgset_ok ms -> msg_ok m -> Z.of_nat (size (msgs ms)) < 18446744073709551616 ->
  nextNonce ms + MaxNonceGap < 18446744073709551616 ->
  (accepts ms m strict untrusted ->
    exists ms', mset_add m strict untrusted ms = Ret (bool_decide (msgs ms !! Nonce (SMessage m) = None), ms') /\
      msgs ms' = <[Nonce (SMessage m) := m]> (msgs ms) /\ requiredFunds ms' = totalFunds (msgs ms') /\
      (if decide (Nonce (SMessage m) = nextNonce ms) then first_free (msgs ms) (nextNonce ms + 1) (nextNonce ms')
       else nextNonce ms' = nextNonce ms)) /\
  (~ accepts ms m strict untrusted -> exists e, mset_add m strict untrusted ms = Err e /\ refusal ms m strict untrusted e).
Proof.
  intros HO Hm Hs Hg. pose proof (mset_add_cases ms m strict untrusted HO Hm Hs Hg) as HC.
  destruct (mset_add m strict untrusted ms) as [[incr ms']|e|]; [|apply refusal_not_accepted in HC as Hna|done].
  - destruct HC as (Ha & -> & HC). split; [eauto|done].
  - split; [done|eauto].
Qed.

(** ** Runs *)

Inductive msetOp :=
  | MAdd (m : SignedMessage) (strict untrusted : bool)
  | MRm (nonce : Z) (applied : bool).

Definition msetStep (op : msetOp) (ms : msgSet) : outcome msgSet :=
  match op with
  | MAdd m strict untrusted => '(_, ms') ← mset_add m strict untrusted ms; Ret ms'
  | MRm nonce applied => rm nonce applied ms
  end.

(** Nonces stay under the bound [B]. *)
Definition op_ok (B : Z) (op : msetOp) : Prop :=
  match op with
  | MAdd m _ _ => msg_ok m /\ Nonce (SMessage m) < B
  | MRm nonce _ => 0 <= nonce < B
  end.

(** The messages of a sender are applied in the order of their nonces, so one that is pending
    behind a gap is not applied before the gap is filled. *)
Definition in_order (ms : msgSet) (op : msetOp) : Prop :=
  match op with
  | MRm nonce true => nonce <= nextNonce ms \/ msgs ms !! nonce = None
  | _ => True
  end.

Record run_ok (B : Z) (ms : msgSet) : Prop := {
  run_set : msgset_ok ms;
  run_keys : forall n m, msgs ms !! n = Some m -> n < B;
  run_next : nextNonce ms <= B;
}.

Definition next_free (ms : msgSet) : Prop := msgs ms !! nextNonce ms = None.

Lemma first_free_bound {A} (ms : gmap Z A) B x r :
  0 <= x <= B -> B < 18446744073709551616 -> (forall n, is_Some (ms !! n) -> n < B) -> first_free ms x r -> x <= r <= B.
Proof.
  intros Hx HB Hk (k & -> & _ & Hi). cut (x + Z.of_nat k <= B); [intros; rewrite u64_id by (unfold in_u64; lia); lia|].
  induction k as [|k IH]; [lia|]. specialize (Hi k ltac:(lia)) as Hs. apply Hk in Hs.
  rewrite u64_id in Hs; [lia|]. cut (x + Z.of_nat k <= B); [unfold in_u64; lia|]. apply IH. intros i Hlt. apply Hi. lia.
Qed.

Lemma first_free_free {A} (ms : gmap Z A) x r : first_free ms x r -> ms !! r = None.
Proof. by intros (k & -> & ? & _). Qed.

(** The nonces bound the number of messages. *)
Lemma run_size B ms : B < 18446744073709551616 -> run_ok B ms -> Z.of_nat (size (msgs ms)) < 18446744073709551616.
Proof.
  intros HB [[Hk _ _] Hlt Hn]. rewrite <- size_dom.
  cut (size (dom (msgs ms)) <= size (list_to_set (seqZ 0 (Z.max 0 B)) : gset Z))%nat.
  { rewrite size_list_to_set by apply NoDup_seqZ. rewrite length_seqZ. lia. }
  apply subseteq_size. intros n [m Hm]%elem_of_dom. apply elem_of_list_to_set, elem_of_seqZ.
  destruct (Hk n m Hm) as [<- (_ & [? _] & _)]. specialize (Hlt _ _ Hm). lia.
Qed.

Lemma add_run_ok B ms m strict untrusted incr ms' :
  B < 18446744073709551611 -> run_ok B ms -> Z.of_nat (size (msgs ms)) < 18446744073709551616 ->
  msg_ok m -> Nonce (SMessage m) < B -> mset_add m strict untrusted ms = Ret (incr, ms') ->
  run_ok B ms' /\ (next_free ms -> next_free ms').
Proof.
  intros HB [HO Hk Hn] Hs Hm Hlt E. pose proof (mset_add_cases ms m strict untrusted HO Hm Hs ltac:(unfold MaxNonceGap; lia)) as HC.
  rewrite E in HC. destruct HC as (_ & _ & Em & Er & Hnext). destruct HO as [Hko _ [Hn0 _]].
  assert (forall n x, msgs ms' !! n = Some x -> n = Nonce (SMessage m) /\ x = m \/ msgs ms !! n = Some x) as Hl.
  { intros n x. rewrite Em, lookup_insert_Some. naive_solver. }
  assert (nextNonce ms <= nextNonce ms' <= B /\ (next_free ms -> next_free ms')) as [Hb Hfree].
  { destruct (decide _) as [Ed|Ed].
    - pose proof (first_free_bound (msgs ms) B (nextNonce ms + 1) (nextNonce ms') ltac:(lia) ltac:(lia) (fun n '(ex_intro _ x E) => Hk n x E) Hnext) as Hb. split; [lia|].
      intros _. unfold next_free. rewrite Em, lookup_insert_ne by lia. by eapply first_free_free.
    - unfold next_free. rewrite Hnext. split; [lia|]. by rewrite Em, lookup_insert_ne. }
  split; [|done]. split; [split; [|done|unfold in_u64; lia]| |lia].
  - intros n x [[-> ->]|Hx]%Hl; [done|by apply Hko].
  - intros n x [[-> _]|Hx]%Hl; [done|by eapply Hk].
Qed.

Lemma rm_run_ok B ms nonce applied :
  B < 18446744073709551611 -> run_ok B ms -> Z.of_nat (size (msgs ms)) < 18446744073709551616 ->
  0 <= nonce < B ->
  exists ms', rm nonce applied ms = Ret ms' /\ run_ok B ms' /\ msgs ms' = delete nonce (msgs ms) /\
    (next_free ms -> in_order ms (MRm nonce applied) -> next_free ms').
Proof.
  intros HB [[Hko Hfu [Hn0 Hn1]] Hk Hn] Hs Hb. unfold rm. destruct (msgs ms !! nonce) as [m|] eqn:Em.
  - rewrite (RequiredFunds_of m) by (by apply (Hko nonce)). eexists. split; [done|].
    assert (forall n x, delete nonce (msgs ms) !! n = Some x -> msgs ms !! n = Some x) as Hl by (intros n x; rewrite lookup_delete_Some; naive_solver).
    split; [split; [split| |]|split; [done|]]; cbn [msgs nextNonce requiredFunds].
    + intros n x Hx%Hl. by apply Hko.
    + unfold totalFunds in *; rewrite (map_sum_delete fundsOf _ nonce m Em). lia.
    + unfold in_u64, u64. destruct applied; zcases; rewrite ?Z.mod_small by lia; lia.
    + intros n x Hx%Hl. by eapply Hk.
    + destruct applied; zcases. rewrite u64_id by (unfold in_u64; lia). lia.
    + unfold next_free, in_order. cbn [msgs nextNonce]. intros Hf Ho.
      assert (delete nonce (msgs ms) !! nextNonce ms = None) as Hd by (apply lookup_delete_None; auto).
      destruct applied; zcases; try done; [|apply lookup_delete_eq]. destruct Ho; [|congruence]. assert (nonce = nextNonce ms) by lia. congruence.
  - assert (delete nonce (msgs ms) = msgs ms) as Ed by (by apply delete_id).
    destruct (applied && (nextNonce ms <=? nonce)) eqn:Ea; [|by exists ms].
    destruct (fillGap_ok (msgs ms) (nonce + 1) Hs) as (r & -> & Hr). cbn [mbind outcome_bind]. eexists. split; [done|].
    pose proof (first_free_bound (msgs ms) B (nonce + 1) r ltac:(lia) ltac:(lia) (fun n '(ex_intro _ x E) => Hk n x E) Hr).
    split; [split; [split|..]|]; cbn [msgs nextNonce requiredFunds]; try done; [unfold in_u64; lia|lia|].
    split; [done|]. intros _ _. by eapply first_free_free.
Qed.

(** A run; a refused message leaves the set as it is. *)
Fixpoint runMset (ops : list msetOp) (ms : msgSet) : outcome msgSet :=
  match ops with
  | [] => Ret ms
  | op :: ops =>
      match msetStep op ms with
      | Ret ms => runMset ops ms
      | Err _ => runMset ops ms
      | Panic => Panic
      end
  end.

Fixpoint ordered (ops : list msetOp) (ms : msgSet) : Prop :=
  match ops with
  | [] => True
  | op :: ops =>
      in_order ms op /\
      match msetStep op ms with
      | Ret ms => ordered ops ms
      | _ => ordered ops ms
      end
  end.

Lemma step_run_ok B op ms :
  B < 18446744073709551611 -> run_ok B ms -> Z.of_nat (size (msgs ms)) < 18446744073709551616 -> op_ok B op ->
  match msetStep op ms with
  | Ret ms' => run_ok B ms' /\ (size (msgs ms') <= S (size (msgs ms)))%nat /\ (next_free ms -> in_order ms op -> next_free ms')
  | Err _ => True
  | Panic => False
  end.
Proof.
  intros HB HR Hs Hop. destruct op as [m strict untrusted|nonce applied]; cbn [msetStep].
  - destruct Hop as [Hm Hlt]. pose proof HR as [HO _ Hn].
    pose proof (mset_add_cases ms m strict untrusted HO Hm Hs ltac:(unfold MaxNonceGap; lia)) as HC.
    destruct (mset_add m strict untrusted ms) as [[incr ms']|e|] eqn:E; cbn [mbind outcome_bind]; [|done|done].
    destruct (add_run_ok B ms m strict untrusted incr ms' HB HR Hs Hm Hlt E) as [HR' Hf]. split; [done|]. split; [|auto].
    destruct HC as (_ & _ & -> & _). rewrite map_size_insert. destruct (msgs ms !! _); cbn; lia.
  - destruct (rm_run_ok B ms nonce applied HB HR Hs Hop) as (ms' & -> & HR' & -> & Hf). split; [done|]. split; [|done].
    rewrite map_size_delete. destruct (msgs ms !! nonce); cbn; lia.
Qed.

Lemma runs_ok B ops ms :
  B < 18446744073709551611 -> run_ok B ms -> Forall (op_ok B) ops ->
  Z.of_nat (size (msgs ms) + length ops) < 18446744073709551616 ->
  exists ms', runMset ops ms = Ret ms' /\ run_ok B ms' /\ (next_free ms -> ordered ops ms -> next_free ms').
Proof.
  intros HB HR Hops. revert ms HR. induction Hops as [|op ops Hop Hops IH]; intros ms HR Hs; cbn [runMset ordered length] in *; [eauto|].
  pose proof (step_run_ok B op ms HB HR ltac:(lia) Hop) as HS. destruct (msetStep op ms) as [ms'|e|]; [|destruct (IH ms HR ltac:(lia)) as (ms' & ? & ? & ?); exists ms'; naive_solver|done].
  destruct HS as (HR' & Hsz & Hf). destruct (IH ms' HR' ltac:(lia)) as (ms'' & -> & HR'' & Hf'). exists ms''.
  split; [done|]. split; [done|]. intros Hfree [Ho Hos]. auto.
Qed.

(** [C25] Over any sequence of additions and removals the pending messages of an actor are
    stored under their nonces, the recorded funds are the sum of what they need, and no
    operation panics; when messages are applied in the order of their nonces, the next nonce
    is never that of a pending message. *)
Theorem msgset_runs B n0 ops :
  B < 18446744073709551611 -> 0 <= n0 <= B -> Forall (op_ok B) ops -> Z.of_nat (length ops) < 18446744073709551616 ->
  exists ms, runMset ops (newMsgSet n0) = Ret ms /\
    (forall n m, msgs ms !! n = Some m -> Nonce (SMessage m) = n) /\
    requiredFunds ms = totalFunds (msgs ms) /\
    (ordered ops (newMsgSet n0) -> msgs ms !! nextNonce ms = None).
Proof.
  intros HB Hn Hops Hl.
  assert (run_ok B (newMsgSet n0)) as Hnew by (split; [apply newMsgSet_ok; unfold in_u64; lia|done|cbn; lia]).
  destruct (runs_ok B ops (newMsgSet n0) HB Hnew Hops ltac:(done)) as (ms & E & [[Hk Hf _] _ _] & Hfree).
  exists ms. split; [done|]. split; [intros n m Hm; by apply Hk|]. split; [done|]. intros Ho. by apply Hfree.
Qed.
End props.

(** ** Concrete messages, and witnesses *)

Definition demoMsgOps : MsgOps := {|
  Message_MarshalCBOR := fun m => Ret [Nonce m; GasLimit m; default 0 (GasPremium m)];
  SignedMessage_MarshalCBOR := fun sm => Ret (Nonce (SMessage sm) :: default 0 (GasPremium (SMessage sm)) :: SData (SSignature sm));
  CidBuilder_Sum := fun b => Ret b;
  address_Undef := EmptyString;
  address_isID := fun a => bool_decide (a = "f01"%string);
  AddressValidForNetworkVersion := fun _ _ => true;
  ZeroAddress := "f3zero"%string;
|}.

Definition demoMsg (nonce premium : Z) : SignedMessage := {|
  SMessage := {| Version := 0; To := "f02"; From := "f1a"; Nonce := nonce; Value := Some 5; GasLimit := 1000;
    GasFeeCap := Some 200; GasPremium := Some premium; Method := 0; Params := [] |};
  SSignature := {| SType := SigTypeSecp256k1; SData := [7] |};
|}.

Lemma demoMsg_ok nonce premium : in_u64 nonce -> @msg_ok demoMsgOps (demoMsg nonce premium).
Proof. intros Hn. split; [by exists 5, 200, premium|]. split; [done|]. by eexists. Qed.

(** A set with the messages 3 and 4. *)
Definition demoSet : msgSet := {|
  msgs := {[ 3 := demoMsg 3 100; 4 := demoMsg 4 100 ]};
  nextNonce := 5;
  requiredFunds := 400000;
|}.

Lemma demoSet_ok : @msgset_ok demoMsgOps demoSet.
Proof.
  split; [|vm_compute; reflexivity|split; vm_compute; [discriminate|reflexivity]].
  intros n m. unfold demoSet. cbn [msgs]. rewrite lookup_insert_Some, lookup_singleton_Some.
  intros [[<- <-]|[_ [<- <-]]]; split; try reflexivity; apply demoMsg_ok; split; vm_compute; first [discriminate|reflexivity].
Qed.

(** The replacement of message 4 needs a premium of 111. *)
Lemma msgset_add_decides_witness :
  (exists ms', @mset_add demoMsgOps (demoMsg 4 111) true false demoSet = Ret (false, ms')) /\
  exists e, @mset_add demoMsgOps (demoMsg 4 110) true false demoSet = Err e.
Proof.
  assert (forall p, @msg_ok demoMsgOps (demoMsg 4 p)) as Hm by (intros p; apply demoMsg_ok; split; vm_compute; first [discriminate|reflexivity]).
  split.
  - destruct (@msgset_add_decides demoMsgOps demoSet (demoMsg 4 111) true false demoSet_ok (Hm 111)) as [Ha _].
    1, 2: vm_compute; reflexivity.
    destruct Ha as (ms' & E & _); [|by exists ms'].
    split; [intros _; vm_compute; discriminate|]. change (msgs demoSet !! Nonce (SMessage (demoMsg 4 111))) with (Some (demoMsg 4 100)).
    split; [split; [vm_compute; discriminate|exists 100, 111; repeat split; vm_compute; discriminate]|intros _; vm_compute; discriminate].
  - destruct (@msgset_add_decides demoMsgOps demoSet (demoMsg 4 110) true false demoSet_ok (Hm 110)) as [_ Hr].
    1, 2: vm_compute; reflexivity.
    destruct Hr as (e & E & _); [|by exists e].
    intros [_ Ha]. change (msgs demoSet !! Nonce (SMessage (demoMsg 4 110))) with (Some (demoMsg 4 100)) in Ha.
    destruct Ha as [[_ (old & new & Eo & En & Hle)] _]. injection Eo as <-. injection En as <-. vm_compute in Hle. by apply Hle.
Defined.

Definition demoMsetOps : list msetOp :=
  [MAdd (demoMsg 4 100) true false; MAdd (demoMsg 3 100) true false; MRm 3 true; MAdd (demoMsg 5 100) false true; MRm 5 false].

Lemma msgset_runs_witness : exists ms, @runMset demoMsgOps demoMsetOps (newMsgSet 3) = Ret ms /\ msgs ms !! nextNonce ms = None.
Proof.
  destruct (@msgset_runs demoMsgOps 100 3 demoMsetOps) as (ms & E & _ & _ & Hf).
  - lia.
  - lia.
  - repeat constructor; try (by apply demoMsg_ok); cbn; lia.
  - vm_compute. reflexivity.
  - exists ms. split; [exact E|]. apply Hf. vm_compute. repeat split; left; discriminate.
Defined.

(** A pending message that is applied while there is a gap before it sets the next nonce to the
    nonce of the message after it, although that one is pending. *)
Lemma applied_over_gap :
  exists ms, @runMset demoMsgOps [MAdd (demoMsg 5 100) false false; MAdd (demoMsg 6 100) false false; MRm 5 true] (newMsgSet 4) = Ret ms /\
    nextNonce ms = 6 /\ is_Some (msgs ms !! nextNonce ms).
Proof. eexists. split; [reflexivity|]. split; [reflexivity|]. by eexists. Qed.
