(* ===== verification/MPool.v ===== *)
(** * The message pool: chain/messagepool/messagepool.go

    The pending messages of every sender, and how they are checked, added, removed when the
    chain applies them and added again when it reverts them.  The chain, the signature
    verification and the price list are the operations of [Provider].  The operations run in a
    state monad that keeps the writes made before an error, as the source does.

    A cache is a map: the LRU caches of the source also drop entries, which the model leaves
    to steps between the operations ([evict]).  Locks, metrics, logs, the journal and the
    notification of subscribers are left out. *)

From S2P Require Import Prelude Gas StateTree TipSet ChainMsg MsgSet.

Definition MaxMessageSize : Z := Z.shiftl 64 10.
Definition minimumBaseFee : Z := NewInt (u64 MinimumBaseFee).
Definition baseFeeLowerBoundFactorConservative : Z := NewInt 100.

(** [chain/types/mpool.go]; the overestimation factor, a float, is not used here. *)
Record MpoolConfig := {
  PriorityAddrs : list Address;
  SizeLimitHigh : Z;
  SizeLimitLow : Z;
  ReplaceByFeeRatio : Z;
  PruneCooldown : Z;
}.

(** What the pool calls; a nil tipset is [None]. *)
Class Provider := {
  PutSigned : SignedMessage -> outcome unit; (* [PutMessage] *)
  PutUnsigned : Message -> outcome unit;
  PubSubPublish : bytes -> outcome unit;
  GetActorBefore : Address -> option TipSet -> outcome Actor;
  GetActorAfter : Address -> option TipSet -> outcome Actor;
  StateDeterministicAddressAtFinality : Address -> option TipSet -> outcome Address;
  StateNetworkVersion : Z -> Z;
  MessagesForBlock : BlockHeader -> outcome (list Message * list SignedMessage);
  MessagesForTipset : option TipSet -> outcome (list Message);
  LoadTipSet : TipSetKey -> outcome TipSet;
  ChainComputeBaseFee : TipSet -> outcome Z;
  (** [consensus.AuthenticateMessage] *)
  AuthenticateMessage : SignedMessage -> Address -> outcome unit;
  (** [vm.PricelistByEpoch(epoch).OnChainMessage(length).Total()] *)
  OnChainMessageGas : Z -> Z -> Z;
  (** the actor codes, [addr.Protocol() == address.Delegated] and the number
      [varint.FromUvarint] reads from the payload *)
  IsAccountActor : StateTree.Cid -> bool;
  IsEthAccountActor : StateTree.Cid -> bool;
  IsPlaceholderActor : StateTree.Cid -> bool;
  isDelegated : Address -> bool;
  payloadNamespace : Address -> outcome Z;
  EthereumAddressManagerActorID : Z;
  (** [ffi.SignatureBytes] *)
  SignatureBytes : Z;
}.

Record MessagePool := {
  republished : gset Cid;
  repubTrigger : bool; (* a message is in the channel *)
  localAddrs : gset Address;
  pending : gmap Address msgSet;
  keyCache : gmap Address Address;
  curTs : option TipSet;
  cfg : MpoolConfig;
  currentSize : Z; (* a number of messages in memory, far from the width of an int *)
  pruneTrigger : bool;
  blsSigCache : gmap Cid Signature;
  sigValCache : gset bytes;
  stateNonceCache : gmap (TipSetKey * Address) Z;
  localMsgs : gmap Cid SignedMessage;
}.

(** ** The monad *)

Definition M (A : Type) : Type := MessagePool -> outcome A * MessagePool.

#[export] Instance M_ret : MRet M := fun A a mp => (Ret a, mp).
#[export] Instance M_bind : MBind M := fun A B f m mp =>
  match m mp with
  | (Ret a, mp) => f a mp
  | (Err e, mp) => (Err e, mp)
  | (Panic, mp) => (Panic, mp)
  end.

Definition lift {A} (r : outcome A) : M A := fun mp => (r, mp).
Definition gets {A} (f : MessagePool -> A) : M A := fun mp => (Ret (f mp), mp).
Definition modify (f : MessagePool -> MessagePool) : M unit := fun mp => (Ret tt, f mp).

(** The error as a value. *)
Definition attempt {A} (m : M A) : M (outcome A) := fun mp =>
  match m mp with
  | (Panic, mp) => (Panic, mp)
  | (r, mp) => (Ret r, mp)
  end.

(** An error of [m] is wrapped into the sentinel [e]. *)
Definition wrap {A} (e : string) (m : M A) : M A := fun mp =>
  match m mp with
  | (Err _, mp) => (Err e, mp)
  | r => r
  end.

Definition when (b : bool) (m : M unit) : M unit := if b then m else mret tt.

Fixpoint mfor {A} (f : A -> M unit) (l : list A) : M unit :=
  match l with
  | [] => mret tt
  | x :: l => _ ← f x; mfor f l
  end.

Definition derefTs (ts : option TipSet) : outcome TipSet := match ts with Some ts => Ret ts | None => Panic end.

(** ** The fields that are written *)

Definition setPending (p : gmap Address msgSet) (mp : MessagePool) : MessagePool :=
  {| republished := republished mp; repubTrigger := repubTrigger mp; localAddrs := localAddrs mp; pending := p;
     keyCache := keyCache mp; curTs := curTs mp; cfg := cfg mp; currentSize := currentSize mp;
     pruneTrigger := pruneTrigger mp; blsSigCache := blsSigCache mp; sigValCache := sigValCache mp;
     stateNonceCache := stateNonceCache mp; localMsgs := localMsgs mp |}.

Definition setSize (n : Z) (mp : MessagePool) : MessagePool :=
  {| republished := republished mp; repubTrigger := repubTrigger mp; localAddrs := localAddrs mp; pending := pending mp;
     keyCache := keyCache mp; curTs := curTs mp; cfg := cfg mp; currentSize := n;
     pruneTrigger := pruneTrigger mp; blsSigCache := blsSigCache mp; sigValCache := sigValCache mp;
     stateNonceCache := stateNonceCache mp; localMsgs := localMsgs mp |}.

Definition setCurTs (ts : option TipSet) (mp : MessagePool) : MessagePool :=
  {| republished := republished mp; repubTrigger := repubTrigger mp; localAddrs := localAddrs mp; pending := pending mp;
     keyCache := keyCache mp; curTs := ts; cfg := cfg mp; currentSize := currentSize mp;
     pruneTrigger := pruneTrigger mp; blsSigCache := blsSigCache mp; sigValCache := sigValCache mp;
     stateNonceCache := stateNonceCache mp; localMsgs := localMsgs mp |}.

(** The two channels of one slot: a send to a full one is dropped. *)
Definition setTriggers (repub prune : bool) (mp : MessagePool) : MessagePool :=
  {| republished := republished mp; repubTrigger := repub || repubTrigger mp; localAddrs := localAddrs mp; pending := pending mp;
     keyCache := keyCache mp; curTs := curTs mp; cfg := cfg mp; currentSize := currentSize mp;
     pruneTrigger := prune || pruneTrigger mp; blsSigCache := blsSigCache mp; sigValCache := sigValCache mp;
     stateNonceCache := stateNonceCache mp; localMsgs := localMsgs mp |}.

Definition setCaches (keys : gmap Address Address) (bls : gmap Cid Signature) (sigs : gset bytes)
    (nonces : gmap (TipSetKey * Address) Z) (mp : MessagePool) : MessagePool :=
  {| republished := republished mp; repubTrigger := repubTrigger mp; localAddrs := localAddrs mp; pending := pending mp;
     keyCache := keys; curTs := curTs mp; cfg := cfg mp; currentSize := currentSize mp;
     pruneTrigger := pruneTrigger mp; blsSigCache := bls; sigValCache := sigs;
     stateNonceCache := nonces; localMsgs := localMsgs mp |}.

Definition setLocals (addrs : gset Address) (ms : gmap Cid SignedMessage) (mp : MessagePool) : MessagePool :=
  {| republished := republished mp; repubTrigger := repubTrigger mp; localAddrs := addrs; pending := pending mp;
     keyCache := keyCache mp; curTs := curTs mp; cfg := cfg mp; currentSize := currentSize mp;
     pruneTrigger := pruneTrigger mp; blsSigCache := blsSigCache mp; sigValCache := sigValCache mp;
     stateNonceCache := stateNonceCache mp; localMsgs := ms |}.

Definition setRepublished (r : gset Cid) (mp : MessagePool) : MessagePool :=
  {| republished := r; repubTrigger := repubTrigger mp; localAddrs := localAddrs mp; pending := pending mp;
     keyCache := keyCache mp; curTs := curTs mp; cfg := cfg mp; currentSize := currentSize mp;
     pruneTrigger := pruneTrigger mp; blsSigCache := blsSigCache mp; sigValCache := sigValCache mp;
     stateNonceCache := stateNonceCache mp; localMsgs := localMsgs mp |}.

Definition addKey (a k : Address) (mp : MessagePool) : MessagePool :=
  setCaches (<[a := k]> (keyCache mp)) (blsSigCache mp) (sigValCache mp) (stateNonceCache mp) mp.
Definition addBlsSig (c : Cid) (s : Signature) (mp : MessagePool) : MessagePool :=
  setCaches (keyCache mp) (<[c := s]> (blsSigCache mp)) (sigValCache mp) (stateNonceCache mp) mp.
Definition addSigVal (k : bytes) (mp : MessagePool) : MessagePool :=
  setCaches (keyCache mp) (blsSigCache mp) ({[k]} ∪ sigValCache mp) (stateNonceCache mp) mp.
Definition addStateNonce (k : TipSetKey * Address) (n : Z) (mp : MessagePool) : MessagePool :=
  setCaches (keyCache mp) (blsSigCache mp) (sigValCache mp) (<[k := n]> (stateNonceCache mp)) mp.
Definition putMset (a : Address) (ms : msgSet) (mp : MessagePool) : MessagePool :=
  setPending (<[a := ms]> (pending mp)) mp.

(** The reverted messages by sender, as given in the message, and nonce. *)
Notation Reverted := (gmap Address (gmap Z SignedMessage)).

Section pool.
Context `{BigOps} `{MsgOps} `{Hashing} `{Provider}.

(** ** Senders *)

Definition resolveToKeyFromID (addr : Address) : M Address :=
  c ← gets keyCache;
  match c !! addr with
  | Some a => mret a
  | None =>
      ts ← gets curTs;
      ka ← lift (StateDeterministicAddressAtFinality addr ts);
      _ ← modify (addKey addr ka);
      mret ka
  end.

Definition resolveToKey (addr : Address) : M Address :=
  if negb (address_isID addr) then mret addr else resolveToKeyFromID addr.

(** The set of a sender, with the key it is stored under: the source has a pointer to it. *)
Definition getPendingMset (addr : Address) : M (Address * option msgSet) :=
  ra ← resolveToKey addr;
  p ← gets pending;
  mret (ra, p !! ra).

Definition setPendingMset (addr : Address) (ms : msgSet) : M Address :=
  ra ← resolveToKey addr;
  _ ← modify (putMset ra ms);
  mret ra.

Definition deletePendingMset (addr : Address) : M unit :=
  ra ← resolveToKey addr;
  modify (fun mp => setPending (delete ra (pending mp)) mp).

Definition clearPending : M unit := modify (setPending ∅).

Definition isLocal (addr : Address) : M bool :=
  ra ← resolveToKey addr;
  l ← gets localAddrs;
  mret (bool_decide (ra ∈ l)).

Definition setLocal (addr : Address) : M unit :=
  ra ← resolveToKey addr;
  modify (fun mp => setLocals ({[ra]} ∪ localAddrs mp) (localMsgs mp) mp).

(** ** The state of the chain *)

(** The nonces of the messages [addr] has in the tipset. *)
Fixpoint nonceLoop (raddr : Address) (l : list Message) (next : Z) : M Z :=
  match l with
  | [] => mret next
  | msg :: l =>
      r ← attempt (resolveToKey (From msg));
      match r with
      | Ret maddr =>
          let n := u64 (Nonce msg + 1) in
          nonceLoop raddr l (if bool_decide (maddr = raddr) && (next <? n) then n else next)
      | _ => nonceLoop raddr l next
      end
  end.

Definition getStateNonce (addr : Address) (ts : option TipSet) : M Z :=
  let nk := (Key ts, addr) in
  c ← gets stateNonceCache;
  match c !! nk with
  | Some n => mret n
  | None =>
      actor ← lift (GetActorBefore addr ts);
      raddr ← resolveToKey addr;
      messages ← lift (MessagesForTipset ts);
      n ← nonceLoop raddr messages (StateTree.Nonce actor);
      _ ← modify (addStateNonce nk n);
      mret n
  end.

Definition getStateBalance (addr : Address) (ts : option TipSet) : M Z :=
  act ← lift (GetActorAfter addr ts);
  mret (Balance act).

Definition getNonceLocked (addr : Address) (ts : option TipSet) : M Z :=
  stateNonce ← getStateNonce addr ts;
  '(_, mset) ← getPendingMset addr;
  match mset with
  | Some mset => mret (if nextNonce mset <? stateNonce then stateNonce else nextNonce mset)
  | None => mret stateNonce
  end.

Definition GetNonce (addr : Address) : M Z := ts ← gets curTs; getNonceLocked addr ts.

(** [chain/consensus/common.go] *)
Definition IsValidForSending (nv : Z) (act : Actor) : bool :=
  if nv <? 18 then IsAccountActor (Code act)
  else if IsAccountActor (Code act) || IsEthAccountActor (Code act) then true
  else
    match DelegatedAddress act with
    | Some a =>
        if negb (IsPlaceholderActor (Code act)) || negb (StateTree.Nonce act =? 0) || negb (isDelegated a) then false
        else match payloadNamespace a with Ret id => id =? EthereumAddressManagerActorID | _ => false end
    | None => false
    end.

(** ** Checks *)

Definition sigCacheKey (m : SignedMessage) : outcome bytes :=
  match SType (SSignature m) with
  | SigTypeBLS =>
      if negb (len (SData (SSignature m)) =? SignatureBytes) then Err "bls signature incorrectly sized"
      else c ← SignedMessage_Cid m; Ret (blake2b_Sum256 (c ++ SData (SSignature m)))
  | SigTypeSecp256k1 | SigTypeDelegated => SignedMessage_Cid m
  | SigTypeOther _ => Err "unrecognized signature type"
  end.

Definition VerifyMsgSig (m : SignedMessage) : M unit :=
  sck ← lift (sigCacheKey m);
  c ← gets sigValCache;
  if bool_decide (sck ∈ c) then mret tt
  else
    _ ← lift (AuthenticateMessage m (From (SMessage m)));
    modify (addSigVal sck).

Definition checkMessage (m : SignedMessage) : M unit :=
  size ← lift (Size m);
  if MaxMessageSize <? size then lift (Err ErrMessageTooBig)
  else
    ts ← gets curTs;
    ts ← lift (derefTs ts);
    _ ← lift (ValidForBlockInclusion (SMessage m) 0 (StateNetworkVersion (height ts)));
    if bool_decide (To (SMessage m) = address_Undef) then lift (Err ErrInvalidToAddr)
    else
      value ← lift (deref (Value (SMessage m)));
      if negb (big_LessThan value TotalFilecoinInt) then lift (Err ErrMessageValueTooHigh)
      else
        feeCap ← lift (deref (GasFeeCap (SMessage m)));
        if big_LessThan feeCap minimumBaseFee then lift (Err ErrGasFeeCapTooLow)
        else VerifyMsgSig m.

Definition getBaseFeeLowerBound (baseFee factor : Z) : outcome Z :=
  baseFeeLowerBound ← BigDiv baseFee factor;
  Ret (if big_LessThan baseFeeLowerBound minimumBaseFee then minimumBaseFee else baseFeeLowerBound).

Definition verifyMsgBeforeAdd (m : SignedMessage) (ts : option TipSet) (local : bool) : M bool :=
  ts ← lift (derefTs ts);
  let epoch := height ts + 1 in
  l ← lift (SignedMessage_ChainLength m);
  _ ← lift (ValidForBlockInclusion (SMessage m) (OnChainMessageGas epoch l) (StateNetworkVersion epoch));
  baseFee ← lift (match blks ts with b :: _ => Ret (ParentBaseFee b) | [] => ChainComputeBaseFee ts end);
  bound ← lift (getBaseFeeLowerBound baseFee baseFeeLowerBoundFactorConservative);
  feeCap ← lift (deref (GasFeeCap (SMessage m)));
  if big_LessThan feeCap bound then
    if local then mret false else lift (Err ErrSoftValidationFailure)
  else mret local.

Definition checkBalance (m : SignedMessage) (ts : option TipSet) : M unit :=
  balance ← wrap ErrSoftValidationFailure (getStateBalance (From (SMessage m)) ts);
  requiredFunds ← lift (RequiredFunds (SMessage m));
  if big_LessThan balance requiredFunds then lift (Err ErrNotEnoughFunds)
  else
    '(_, mset) ← getPendingMset (From (SMessage m));
    requiredFunds ←
      match mset with
      | Some mset => f ← lift (getRequiredFunds (Nonce (SMessage m)) mset); mret (BigAdd requiredFunds f)
      | None => mret requiredFunds
      end;
    if big_LessThan balance requiredFunds then lift (Err ErrSoftValidationFailure) else mret tt.

(** ** Adding *)

Definition addLocal (m : SignedMessage) : M unit :=
  _ ← setLocal (From (SMessage m));
  _ ← lift (SignedMessage_Serialize m);
  c ← lift (SignedMessage_Cid m);
  modify (fun mp => setLocals (localAddrs mp) (<[c := m]> (localMsgs mp)) mp).

(** The set of the sender, made if there is none. *)
Definition senderMset (from : Address) : M (Address * msgSet) :=
  '(ra, mset) ← getPendingMset from;
  match mset with
  | Some mset => mret (ra, mset)
  | None =>
      ts ← gets curTs;
      nonce ← getStateNonce from ts;
      ra ← setPendingMset from (newMsgSet nonce);
      mret (ra, newMsgSet nonce)
  end.

Definition addLocked (m : SignedMessage) (strict untrusted : bool) : M unit :=
  _ ← (if isBLS m then c ← lift (SignedMessage_Cid m); modify (addBlsSig c (SSignature m)) else mret tt);
  _ ← lift (PutSigned m);
  _ ← lift (PutUnsigned (SMessage m));
  '(ra, mset) ← senderMset (From (SMessage m));
  '(incr, mset) ← lift (mset_add m strict untrusted mset);
  _ ← modify (putMset ra mset);
  when incr (modify (fun mp =>
    let size := currentSize mp + 1 in
    setTriggers false (SizeLimitHigh (cfg mp) <? size) (setSize size mp))).

Definition addTs (m : SignedMessage) (ts : option TipSet) (local untrusted : bool) : M bool :=
  snonce ← wrap ErrSoftValidationFailure (getStateNonce (From (SMessage m)) ts);
  if Nonce (SMessage m) <? snonce then lift (Err ErrNonceTooLow)
  else
    senderAct ← lift (GetActorAfter (From (SMessage m)) ts);
    t ← lift (derefTs ts);
    if negb (IsValidForSending (StateNetworkVersion (height t + 1)) senderAct)
    then lift (Err "sender actor is not a valid top-level sender")
    else
      publish ← verifyMsgBeforeAdd m ts local;
      _ ← checkBalance m ts;
      _ ← addLocked m (negb local) untrusted;
      _ ← when local (addLocal m);
      mret publish.

Definition addLoaded (m : SignedMessage) : M unit :=
  _ ← checkMessage m;
  ts ← gets curTs;
  match ts with
  | None => lift (Err "current tipset not loaded")
  | Some _ =>
      snonce ← wrap ErrSoftValidationFailure (getStateNonce (From (SMessage m)) ts);
      if Nonce (SMessage m) <? snonce then lift (Err ErrNonceTooLow)
      else
        _ ← verifyMsgBeforeAdd m ts true;
        _ ← checkBalance m ts;
        addLocked m false false
  end.

Definition addSkipChecks (m : SignedMessage) : M unit := addLocked m false false.

Definition publishMsg (m : SignedMessage) : M unit :=
  msgb ← lift (SignedMessage_Serialize m);
  lift (PubSubPublish msgb).

Definition Push (m : SignedMessage) (publish : bool) : M Cid :=
  _ ← checkMessage m;
  ts ← gets curTs;
  ok ← addTs m ts true false;
  _ ← when (ok && publish) (publishMsg m);
  lift (SignedMessage_Cid m).

Definition PushUntrusted (m : SignedMessage) : M Cid :=
  _ ← checkMessage m;
  ts ← gets curTs;
  publish ← addTs m ts true true;
  _ ← when publish (publishMsg m);
  lift (SignedMessage_Cid m).

(** The state is looked up first, to have it cached; the head does not change meanwhile. *)
Definition Add (m : SignedMessage) : M unit :=
  _ ← checkMessage m;
  ts ← gets curTs;
  _ ← attempt (lift (GetActorAfter (From (SMessage m)) ts));
  _ ← attempt (getStateNonce (From (SMessage m)) ts);
  _ ← addTs m ts false false;
  mret tt.

(** The messages of the datastore, in the order of the query. *)
Definition loadLocal (stored : list SignedMessage) : M unit :=
  mfor (fun sm =>
    r ← attempt (addLoaded sm);
    match r with
    | Err e => if bool_decide (e = ErrNonceTooLow) then mret tt else setLocal (From (SMessage sm))
    | _ => setLocal (From (SMessage sm))
    end) stored.

(** ** Removing *)

Definition remove (from : Address) (nonce : Z) (applied : bool) : M unit :=
  r ← attempt (getPendingMset from);
  match r with
  | Ret (ra, Some mset) =>
      _ ← when (bool_decide (is_Some (msgs mset !! nonce))) (modify (fun mp => setSize (currentSize mp - 1) mp));
      mset ← lift (rm nonce applied mset);
      _ ← modify (putMset ra mset);
      when (Nat.eqb (size (msgs mset)) 0) (_ ← attempt (deletePendingMset from); mret tt)
  | _ => mret tt
  end.

Definition Remove := remove.

(** The iteration over the local addresses and over the pending sets in any order. *)
Definition Clear (order : list Address) (local : bool) : M unit :=
  if local then
    _ ← mfor (fun la =>
      r ← attempt (getPendingMset la);
      match r with
      | Ret (_, Some mset) =>
          mfor (fun p => c ← lift (SignedMessage_Cid (snd p)); modify (fun mp => setLocals (localAddrs mp) (delete c (localMsgs mp)) mp))
            (map_to_list (msgs mset))
      | _ => mret tt
      end) order;
    _ ← clearPending;
    modify (setRepublished ∅)
  else
    mfor (fun a =>
      r ← attempt (isLocal a);
      match r with
      | Ret true => mret tt
      | Ret false => _ ← attempt (deletePendingMset a); mret tt
      | _ => mret tt
      end) order.

(** ** Following the chain *)

Definition RecoverSig (msg : Message) : M (option SignedMessage) :=
  c ← lift (Message_Cid msg);
  cache ← gets blsSigCache;
  mret ((fun sig => {| SMessage := msg; SSignature := sig |}) <$> cache !! c).

Fixpoint recoverSigs (l : list Message) : M (list SignedMessage) :=
  match l with
  | [] => mret []
  | msg :: l =>
      smsg ← RecoverSig msg;
      rest ← recoverSigs l;
      mret (option_list smsg ++ rest)
  end.

Fixpoint MessagesForBlocks (blks : list BlockHeader) : M (list SignedMessage) :=
  match blks with
  | [] => mret []
  | b :: blks =>
      '(bmsgs, smsgs) ← lift (MessagesForBlock b);
      recovered ← recoverSigs bmsgs;
      rest ← MessagesForBlocks blks;
      mret (smsgs ++ recovered ++ rest)
  end.

Definition addReverted (rmsgs : Reverted) (m : SignedMessage) : Reverted :=
  <[From (SMessage m) := <[Nonce (SMessage m) := m]> (default ∅ (rmsgs !! From (SMessage m)))]> rmsgs.

(** The errors are collected. *)
Fixpoint revertLoop (l : list TipSet) (rmsgs : Reverted) : M (Reverted * list string) :=
  match l with
  | [] => mret (rmsgs, [])
  | ts :: l =>
      parents ← lift (Parents ts);
      match LoadTipSet parents with
      | Err e => '(rmsgs, errs) ← revertLoop l rmsgs; mret (rmsgs, e :: errs)
      | Panic => lift Panic
      | Ret pts =>
          _ ← modify (setCurTs (Some pts));
          r ← attempt (MessagesForBlocks (blks ts));
          match r with
          | Ret ms => revertLoop l (foldl addReverted rmsgs ms)
          | Err e => '(rmsgs, errs) ← revertLoop l rmsgs; mret (rmsgs, e :: errs)
          | Panic => lift Panic
          end
      end
  end.

(** A message of an applied block. *)
Definition applyMsg (from : Address) (nonce : Z) (rmsgs : Reverted) : M Reverted :=
  match rmsgs !! from with
  | None => _ ← Remove from nonce true; mret rmsgs
  | Some s =>
      match s !! nonce with
      | Some _ => mret (<[from := delete nonce s]> rmsgs)
      | None => _ ← Remove from nonce true; mret rmsgs
      end
  end.

Definition maybeRepub (c : Cid) (trigger : bool) : M bool :=
  if negb trigger then r ← gets republished; mret (bool_decide (c ∈ r)) else mret trigger.

Fixpoint applySigned (l : list SignedMessage) (rmsgs : Reverted) (trigger : bool) : M (Reverted * bool) :=
  match l with
  | [] => mret (rmsgs, trigger)
  | msg :: l =>
      rmsgs ← applyMsg (From (SMessage msg)) (Nonce (SMessage msg)) rmsgs;
      c ← lift (SignedMessage_Cid msg);
      trigger ← maybeRepub c trigger;
      applySigned l rmsgs trigger
  end.

Fixpoint applyUnsigned (l : list Message) (rmsgs : Reverted) (trigger : bool) : M (Reverted * bool) :=
  match l with
  | [] => mret (rmsgs, trigger)
  | msg :: l =>
      rmsgs ← applyMsg (From msg) (Nonce msg) rmsgs;
      c ← lift (Message_Cid msg);
      trigger ← maybeRepub c trigger;
      applyUnsigned l rmsgs trigger
  end.

Fixpoint applyBlocks (l : list BlockHeader) (rmsgs : Reverted) (trigger : bool) : M (Reverted * bool * list string) :=
  match l with
  | [] => mret (rmsgs, trigger, [])
  | b :: l =>
      match MessagesForBlock b with
      | Err e => '(rmsgs, trigger, errs) ← applyBlocks l rmsgs trigger; mret (rmsgs, trigger, e :: errs)
      | Panic => lift Panic
      | Ret (bmsgs, smsgs) =>
          '(rmsgs, trigger) ← applySigned smsgs rmsgs trigger;
          '(rmsgs, trigger) ← applyUnsigned bmsgs rmsgs trigger;
          applyBlocks l rmsgs trigger
      end
  end.

Fixpoint applyLoop (l : list TipSet) (rmsgs : Reverted) (trigger : bool) : M (Reverted * bool * list string) :=
  match l with
  | [] => mret (rmsgs, trigger, [])
  | ts :: l =>
      _ ← modify (setCurTs (Some ts));
      '(rmsgs, trigger, errs) ← applyBlocks (blks ts) rmsgs trigger;
      '(rmsgs, trigger, errs') ← applyLoop l rmsgs trigger;
      mret (rmsgs, trigger, errs ++ errs')
  end.

Definition revertedMsgs (rmsgs : Reverted) : list SignedMessage :=
  concat ((fun p => snd <$> map_to_list (snd p)) <$> map_to_list rmsgs).

(** The messages are added again in the order of the iteration over two maps, given by
    [order]. *)
Definition HeadChange (order : list SignedMessage -> list SignedMessage) (revert apply : list TipSet) : M (list string) :=
  '(rmsgs, errs) ← revertLoop revert ∅;
  '(rmsgs, trigger, errs') ← applyLoop apply rmsgs false;
  _ ← when trigger (modify (setTriggers true false));
  _ ← mfor (fun m => _ ← attempt (addSkipChecks m); mret tt) (order (revertedMsgs rmsgs));
  mret (errs ++ errs').

(** ** Reading *)

Definition pendingFor (a : Address) : M (list SignedMessage) :=
  r ← attempt (getPendingMset a);
  match r with
  | Ret (_, Some mset) => mret (if Nat.eqb (size (msgs mset)) 0 then [] else toSlice mset)
  | _ => mret []
  end.

(** The caches lose entries. *)
Definition evict (keys : gmap Address Address) (bls : gmap Cid Signature) (sigs : gset bytes)
    (nonces : gmap (TipSetKey * Address) Z) (mp : MessagePool) : MessagePool :=
  setCaches (keyCache mp ∩ keys) (blsSigCache mp ∩ bls) (sigValCache mp ∩ sigs) (stateNonceCache mp ∩ nonces) mp.
End pool.
