(* ===== verification/MPoolProps.v ===== *)
(** * Properties of the message pool

    Whatever is pushed, received, removed, applied or reverted, the counter of the pool is the
    number of pending messages, every sender's set is well formed and nothing panics; a message
    that was accepted is pending, and its sender can pay for all the pending ones. *)

From S2P Require Import Prelude Gas StateTree TipSet ChainMsg MsgSet MsgSetProps MPool.

(** ** Triples

    From a state of [P] the operation gives a result of [Q], or an error in a state of the
    invariant [I], and does not panic. *)

Definition triple (I P : MessagePool -> Prop) {A} (m : M A) (Q : A -> MessagePool -> Prop) : Prop :=
  forall mp, P mp ->
  match m mp with
  | (Ret a, mp') => Q a mp'
  | (Err _, mp') => I mp'
  | (Panic, _) => False
  end.

Section triples.
Context (I : MessagePool -> Prop).

Lemma triple_ret P {A} (a : A) (Q : A -> MessagePool -> Prop) : (forall mp, P mp -> Q a mp) -> triple I P (mret a) Q.
Proof. intros HQ mp HP. by apply HQ. Qed.

Lemma triple_bind P {A B} (m : M A) (f : A -> M B) R Q :
  triple I P m R -> (forall a, triple I (R a) (f a) Q) -> triple I P (mbind f m) Q.
Proof.
  intros Hm Hf mp HP. specialize (Hm mp HP). unfold mbind, M_bind. destruct (m mp) as [[a|e|] mp']; [|done|done]. by apply Hf.
Qed.

Lemma triple_lift P {A} (r : outcome A) (Q : A -> MessagePool -> Prop) :
  (forall mp, P mp -> I mp) -> r <> Panic -> (forall a mp, r = Ret a -> P mp -> Q a mp) -> triple I P (lift r) Q.
Proof. intros HI Hr HQ mp HP. unfold lift. destruct r; [by apply HQ|by apply HI|done]. Qed.

Lemma triple_gets P {A} (f : MessagePool -> A) (Q : A -> MessagePool -> Prop) : (forall mp, P mp -> Q (f mp) mp) -> triple I P (gets f) Q.
Proof. intros HQ mp HP. by apply HQ. Qed.

Lemma triple_modify P f (Q : unit -> MessagePool -> Prop) : (forall mp, P mp -> Q tt (f mp)) -> triple I P (modify f) Q.
Proof. intros HQ mp HP. by apply HQ. Qed.

Lemma triple_err P {A} e (Q : A -> MessagePool -> Prop) : (forall mp, P mp -> I mp) -> triple I P (lift (Err e)) Q.
Proof. intros HI. by apply triple_lift. Qed.

Lemma triple_conseq P P' {A} (m : M A) Q Q' :
  triple I P m Q -> (forall mp, P' mp -> P mp) -> (forall a mp, Q a mp -> Q' a mp) -> triple I P' m Q'.
Proof. intros Hm HP HQ mp Hp. specialize (Hm mp (HP mp Hp)). destruct (m mp) as [[a|e|] mp']; auto. Qed.

Lemma triple_attempt P {A} (m : M A) Q :
  triple I P m Q -> triple I P (attempt m) (fun r mp => match r with Ret a => Q a mp | Err _ => I mp | Panic => False end).
Proof. intros Hm mp HP. specialize (Hm mp HP). unfold attempt. by destruct (m mp) as [[a|e|] mp']. Qed.

Lemma triple_wrap P {A} e (m : M A) Q : triple I P m Q -> triple I P (wrap e m) Q.
Proof. intros Hm mp HP. specialize (Hm mp HP). unfold wrap. by destruct (m mp) as [[a|e'|] mp']. Qed.

Lemma triple_when P b m (Q : unit -> MessagePool -> Prop) :
  triple I P m Q -> (forall mp, P mp -> Q tt mp) -> triple I P (when b m) Q.
Proof. intros Hm HQ. destruct b; [done|]. by apply triple_ret. Qed.

Lemma triple_mfor P {A} (f : A -> M unit) (l : list A) :
  (forall x, x ∈ l -> triple I P (f x) (fun _ => P)) -> triple I P (mfor f l) (fun _ => P).
Proof.
  induction l as [|x l IH]; intros Hf; cbn [mfor]; [by apply triple_ret|].
  eapply triple_bind; [apply Hf, list_elem_of_here|]. intros []. apply IH. intros y Hy. by apply Hf, list_elem_of_further.
Qed.

Lemma triple_pure P {A} (m : M A) Q (p : Prop) : (p -> triple I P m Q) -> triple I (fun mp => p /\ P mp) m Q.
Proof. intros Hm mp [Hp HP]. by apply Hm. Qed.

Lemma triple_exists {X} (P : X -> MessagePool -> Prop) {A} (m : M A) Q :
  (forall x, triple I (P x) m Q) -> triple I (fun mp => exists x, P x mp) m Q.
Proof. intros Hm mp [x HP]. by apply (Hm x). Qed.
End triples.

Lemma triple_errs (I I' : MessagePool -> Prop) P {A} (m : M A) Q : (forall mp, I mp -> I' mp) -> triple I P m Q -> triple I' P m Q.
Proof. intros HI Hm mp HP. specialize (Hm mp HP). destruct (m mp) as [[a|e|] mp']; auto. Qed.

(** ** The invariant *)

Section pool.
Context `{BigOpsOk} `{MsgOps} `{Hashing} `{Provider}.

(** Nonces stay under [B]. *)
Context (B : Z) (B_bound : 0 <= B < 18446744073709551611).

(** A message with an encoding. *)
Definition encodable (m : SignedMessage) : Prop :=
  (exists c, SignedMessage_Cid m = Ret c) /\ (exists l, SignedMessage_ChainLength m = Ret l) /\ SignedMessage_Serialize m <> Panic.

(** What the pool relies on: the provider does not panic, and the messages it returns were
    decoded from the chain, so their amounts are set and they have an encoding. *)
Record provider_ok : Prop := {
  put_signed_ok : forall m, PutSigned m <> Panic;
  put_unsigned_ok : forall m, PutUnsigned m <> Panic;
  publish_ok : forall b, PubSubPublish b <> Panic;
  actor_before_ok : forall a ts, GetActorBefore a ts <> Panic;
  actor_before_nonce : forall a ts act, GetActorBefore a ts = Ret act -> 0 <= StateTree.Nonce act <= B;
  actor_after_ok : forall a ts, GetActorAfter a ts <> Panic;
  resolve_ok : forall a ts, StateDeterministicAddressAtFinality a ts <> Panic;
  tipset_msgs_ok : forall ts, MessagesForTipset ts <> Panic;
  tipset_msgs_nonce : forall ts l m, MessagesForTipset ts = Ret l -> m ∈ l -> 0 <= Nonce m < B;
  block_msgs_ok : forall b, MessagesForBlock b <> Panic;
  block_signed : forall b l l' m, MessagesForBlock b = Ret (l, l') -> m ∈ l' -> msg_ok m /\ Nonce (SMessage m) < B;
  block_unsigned : forall b l l' m, MessagesForBlock b = Ret (l, l') -> m ∈ l ->
    amounts_set m /\ 0 <= Nonce m < B /\ exists c, Message_Cid m = Ret c;
  load_ok : forall k, LoadTipSet k <> Panic;
  base_fee_ok : forall ts, ChainComputeBaseFee ts <> Panic;
  authenticate_ok : forall m a, AuthenticateMessage m a <> Panic;
}.

Definition pendingCount (p : gmap Address msgSet) : Z := map_sum (fun ms => Z.of_nat (size (msgs ms))) p.

Record pool_ok (mp : MessagePool) : Prop := {
  pool_sets : forall a ms, pending mp !! a = Some ms -> run_ok B ms;
  pool_size : currentSize mp = pendingCount (pending mp);
  pool_head : is_Some (curTs mp);
  pool_nonces : forall k n, stateNonceCache mp !! k = Some n -> 0 <= n <= B;
  pool_sigs : forall c s, blsSigCache mp !! c = Some s -> SType s = SigTypeBLS;
}.

Context (Hprov : provider_ok).

Notation inv := (fun mp => pool_ok mp).
Notation tri := (triple pool_ok).

(** An operation that keeps the invariant. *)
Definition keeps {A} (m : M A) : Prop := tri pool_ok m (fun _ => pool_ok).

(** Changes outside the fields of the invariant keep it. *)
Lemma pool_ok_frame mp mp' :
  pool_ok mp -> pending mp' = pending mp -> currentSize mp' = currentSize mp -> curTs mp' = curTs mp ->
  stateNonceCache mp' = stateNonceCache mp -> blsSigCache mp' = blsSigCache mp -> pool_ok mp'.
Proof. intros [? ? ? ? ?] Ep Es Et En Eb. by split; rewrite ?Ep, ?Es, ?Et, ?En, ?Eb. Qed.

(** The key of an address is known. *)
Definition resolved (a ra : Address) (mp : MessagePool) : Prop :=
  if address_isID a then keyCache mp !! a = Some ra else ra = a.

Lemma resolveToKey_resolved a ra mp : resolved a ra mp -> resolveToKey a mp = (Ret ra, mp).
Proof.
  unfold resolved, resolveToKey, resolveToKeyFromID. destruct (address_isID a); cbn [negb]; [|by intros ->].
  intros E. unfold mbind, M_bind, gets. by rewrite E.
Qed.

(** Conditions that lookups of the chain keep, as they only fill the caches. *)
Record stable (P : MessagePool -> Prop) : Prop := {
  stable_inv : forall mp, P mp -> pool_ok mp;
  stable_key : forall mp a k, address_isID a = true -> keyCache mp !! a = None -> P mp -> P (addKey a k mp);
  stable_nonce : forall mp k n, 0 <= n <= B -> P mp -> P (addStateNonce k n mp);
}.

Lemma stable_pool_ok : stable pool_ok.
Proof.
  split; [done|intros; eapply pool_ok_frame; [eassumption|reflexivity..]|].
  intros mp k n Hn [? ? ? Hc ?]. split; try done. intros k' x. cbn. rewrite lookup_insert_Some.
  intros [[_ <-]|[_ Hx]]; [done|by apply (Hc k')].
Qed.

(** The set of a sender, under its key. *)
Definition found (a ra : Address) (o : option msgSet) (mp : MessagePool) : Prop :=
  pool_ok mp /\ resolved a ra mp /\ pending mp !! ra = o.

Lemma stable_found a ra o : stable (found a ra o).
Proof.
  split; [by intros mp [? _]| |].
  - intros mp a' k Ha Hk (HO & HR & Hp). split; [by apply (stable_key _ stable_pool_ok)|]. split; [|done].
    unfold resolved in *. destruct (address_isID a); [|done]. cbn. rewrite lookup_insert_ne; [done|]. intros ->. congruence.
  - intros mp k n Hn (HO & HR & Hp). split; [by apply (stable_nonce _ stable_pool_ok)|]. done.
Qed.

Lemma resolveToKey_spec P a : stable P -> triple P P (resolveToKey a) (fun ra mp => P mp /\ resolved a ra mp).
Proof using Hprov.
  intros HS mp HP. pose proof (stable_inv P HS mp HP) as HO. unfold resolveToKey, resolveToKeyFromID, resolved.
  destruct (address_isID a) eqn:Ea; cbn [negb]; [|done].
  unfold mbind, M_bind, gets, lift, modify, mret, M_ret. destruct (keyCache mp !! a) as [k|] eqn:Ek; [done|].
  destruct (StateDeterministicAddressAtFinality a (curTs mp)) as [ka|e|] eqn:Es; [|done|by destruct (resolve_ok Hprov _ _ Es)].
  split; [by apply (stable_key P HS)|]. apply lookup_insert_eq.
Qed.

Lemma resolveToKey_keeps P a : stable P -> triple P P (resolveToKey a) (fun _ => P).
Proof using Hprov. intros HS. eapply triple_conseq; [by apply resolveToKey_spec|done|by intros ? ? [? _]]. Qed.

Lemma getPendingMset_spec a : tri pool_ok (getPendingMset a) (fun '(ra, o) => found a ra o).
Proof using Hprov.
  eapply triple_bind; [apply resolveToKey_spec, stable_pool_ok|]. intros ra.
  eapply triple_bind; [apply triple_gets with (Q := fun p mp => (pool_ok mp /\ resolved a ra mp) /\ p = pending mp); auto|].
  intros p. apply triple_ret. by intros mp [[? ?] ->].
Qed.

Lemma getPendingMset_found a ra o : tri (found a ra o) (getPendingMset a) (fun r mp => r = (ra, o) /\ found a ra o mp).
Proof.
  intros mp HF. pose proof HF as (_ & HR & Hp). unfold getPendingMset, mbind, M_bind, gets.
  rewrite (resolveToKey_resolved _ _ _ HR), Hp. done.
Qed.

Lemma nonceLoop_spec P ra l next :
  stable P -> (forall m, m ∈ l -> 0 <= Nonce m < B) -> 0 <= next <= B ->
  triple P P (nonceLoop ra l next) (fun n mp => 0 <= n <= B /\ P mp).
Proof using All.
  intros HS. revert next. induction l as [|m l IH]; intros next Hl Hn; cbn [nonceLoop]; [by apply triple_ret|].
  assert (forall m, m ∈ l -> 0 <= Nonce m < B) as Hl' by (intros m' Hm'; by apply Hl, list_elem_of_further).
  pose proof (Hl m (list_elem_of_here _ _)) as Hm.
  eapply triple_bind; [by apply triple_attempt, resolveToKey_keeps|]. intros [maddr|e|]; [|by apply IH|by intros ? []].
  apply IH; [done|]. rewrite u64_id by (unfold in_u64; lia). destruct (bool_decide _ && _); lia.
Qed.

Lemma getStateNonce_spec P a ts : stable P -> triple P P (getStateNonce a ts) (fun n mp => 0 <= n <= B /\ P mp).
Proof using All.
  intros HS. eapply triple_bind; [apply triple_gets with (Q := fun c mp => c = stateNonceCache mp /\ P mp); auto|].
  intros c. destruct (c !! (Key ts, a)) as [n|] eqn:Ec.
  { apply triple_ret. intros mp [-> HP]. split; [|done]. by apply (pool_nonces mp (stable_inv P HS mp HP) (Key ts, a)). }
  eapply triple_bind; [apply triple_lift with (Q := fun act mp => 0 <= StateTree.Nonce act <= B /\ P mp)|].
  { by intros mp [_ ?]. } { apply Hprov. } { intros act mp Ea [_ ?]. split; [|done]. by eapply actor_before_nonce. }
  intros act. apply triple_pure. intros Hact. eapply triple_bind; [by apply resolveToKey_keeps|]. intros raddr.
  eapply triple_bind; [apply triple_lift with (Q := fun l mp => (forall m, m ∈ l -> 0 <= Nonce m < B) /\ P mp)|].
  { done. } { apply Hprov. } { intros l mp El ?. split; [|done]. intros m Hm. by eapply tipset_msgs_nonce. }
  intros l. apply triple_pure. intros Hl. eapply triple_bind; [by apply nonceLoop_spec|]. intros n.
  eapply triple_bind; [apply triple_modify with (Q := fun _ mp => 0 <= n <= B /\ P mp)|intros []; by apply triple_ret].
  intros mp [Hn HP]. split; [done|]. by apply (stable_nonce P HS).
Qed.

(** ** Writing a set *)

Lemma pool_ok_put mp ra ms ms' d :
  pool_ok mp -> pending mp !! ra = Some ms -> run_ok B ms' -> Z.of_nat (size (msgs ms')) = Z.of_nat (size (msgs ms)) + d ->
  forall mp', pending mp' = <[ra := ms']> (pending mp) -> currentSize mp' = currentSize mp + d -> curTs mp' = curTs mp ->
  stateNonceCache mp' = stateNonceCache mp -> blsSigCache mp' = blsSigCache mp -> pool_ok mp'.
Proof.
  intros [Hs Hc ? ? ?] Hp HR Hd mp' Ep Ec Et En Eb. split; rewrite ?Ep, ?Ec, ?Et, ?En, ?Eb; try done.
  - intros a x. rewrite lookup_insert_Some. intros [[_ <-]|[_ Hx]]; [done|by eapply Hs].
  - unfold pendingCount in *. rewrite (map_sum_replace _ _ _ ms) by done. cbv beta. lia.
Qed.

Lemma pool_ok_new mp ra n :
  pool_ok mp -> pending mp !! ra = None -> 0 <= n <= B -> pool_ok (putMset ra (newMsgSet n) mp).
Proof using All.
  intros [Hs Hc ? ? ?] Hp Hn. split; try done; cbn.
  - intros a x. rewrite lookup_insert_Some. intros [[_ <-]|[_ Hx]]; [|by eapply Hs].
    split; [apply newMsgSet_ok; unfold in_u64; lia|done|cbn; lia].
  - unfold pendingCount in *. rewrite map_sum_insert by done. unfold newMsgSet. cbn [msgs]. rewrite map_size_empty. lia.
Qed.

Lemma pool_ok_drop mp ra ms : pool_ok mp -> pending mp !! ra = Some ms -> size (msgs ms) = 0%nat -> pool_ok (setPending (delete ra (pending mp)) mp).
Proof.
  intros [Hs Hc ? ? ?] Hp Hz. split; try done; cbn.
  - intros a x. rewrite lookup_delete_Some. intros [_ Hx]. by eapply Hs.
  - unfold pendingCount in *. rewrite (map_sum_delete _ _ _ ms) by done. cbv beta. rewrite Hz. lia.
Qed.

(** ** Removing *)

Lemma remove_keeps from nonce applied : 0 <= nonce < B -> keeps (remove from nonce applied).
Proof using All.
  intros Hn. eapply triple_bind; [apply triple_attempt, getPendingMset_spec|].
  intros [[ra [ms|]]|e|]; [|apply triple_ret; by intros mp [? _]|by apply triple_ret|by intros ? []].
  intros mp (HO & HR & Hp). pose proof (pool_sets mp HO _ _ Hp) as Hms.
  destruct (rm_run_ok B ms nonce applied ltac:(lia) Hms ltac:(eapply run_size; [|done]; lia) Hn) as (ms' & Erm & Hms' & Edel & _).
  set (known := bool_decide (is_Some (msgs ms !! nonce))).
  assert (Z.of_nat (size (msgs ms')) = Z.of_nat (size (msgs ms)) + (if known then -1 else 0)) as Hsz.
  { rewrite Edel, map_size_delete. unfold known. destruct (msgs ms !! nonce) as [m|] eqn:Em.
    - rewrite bool_decide_eq_true_2 by done. assert (size (msgs ms) <> 0%nat); [|cbn; lia].
      apply map_size_ne_0_lookup. by exists nonce, m.
    - rewrite bool_decide_eq_false_2 by (by intros [? ?]). cbn. lia. }
  set (mp1 := putMset ra ms' (if known then setSize (currentSize mp - 1) mp else mp)).
  assert (pool_ok mp1) as HO1.
  { apply (pool_ok_put mp ra ms ms' _ HO Hp Hms' Hsz); unfold mp1; destruct known; cbn; done || lia. }
  assert (pending mp1 !! ra = Some ms') as Hp1 by (unfold mp1; destruct known; apply lookup_insert_eq).
  assert (resolved from ra mp1) as HR1 by (unfold mp1; by destruct known).
  match goal with |- match ?X with _ => _ end =>
    replace X with ((when (Nat.eqb (size (msgs ms')) 0) (_ ← attempt (deletePendingMset from); mret tt)) mp1) end.
  2: { fold known. unfold mp1. destruct known; unfold when at 2, mbind, M_bind, modify, lift, mret, M_ret; by rewrite Erm. }
  destruct (Nat.eqb_spec (size (msgs ms')) 0) as [Ez|]; [|done]. cbn [when].
  unfold attempt, deletePendingMset, mbind, M_bind, modify, mret, M_ret. rewrite (resolveToKey_resolved _ _ _ HR1).
  by eapply pool_ok_drop.
Qed.

(** ** Adding *)

Lemma setPendingMset_found a ra n :
  0 <= n <= B -> tri (found a ra None) (setPendingMset a (newMsgSet n)) (fun r mp => r = ra /\ found a ra (Some (newMsgSet n)) mp).
Proof using All.
  intros Hn mp (HO & HR & Hp). unfold setPendingMset, mbind, M_bind, modify, mret, M_ret.
  rewrite (resolveToKey_resolved _ _ _ HR). split; [done|]. split; [by apply pool_ok_new|]. split; [done|]. apply lookup_insert_eq.
Qed.

(** The set a message is added to: the sender's, or a new one. *)
Definition setOf (o : option msgSet) (ms : msgSet) : Prop :=
  match o with Some ms0 => ms = ms0 | None => exists n, ms = newMsgSet n end.

Lemma senderMset_spec P a (R : Address -> option msgSet -> Prop) :
  tri P (getPendingMset a) (fun '(ra, o) mp => R ra o /\ found a ra o mp) ->
  tri P (senderMset a) (fun '(ra, ms) mp => found a ra (Some ms) mp /\ exists o, R ra o /\ setOf o ms).
Proof using All.
  intros HP. eapply triple_bind; [done|]. intros [ra o]. apply triple_pure. intros HR. destruct o as [ms|].
  { apply triple_ret. intros mp Hf. split; [done|]. by exists (Some ms). }
  eapply triple_bind; [apply triple_gets with (Q := fun _ => found a ra None); auto|]. intros ts.
  eapply triple_bind; [eapply triple_errs; [|apply getStateNonce_spec, stable_found]; apply stable_found|]. intros n.
  apply triple_pure. intros Hn. eapply triple_bind; [by apply setPendingMset_found|]. intros r.
  apply triple_ret. intros mp [-> Hf]. split; [done|]. exists None. split; [done|]. by exists n.
Qed.

(** The message is in the set of its sender, after it was added to a set with [R]. *)
Definition added (m : SignedMessage) (strict untrusted : bool) (R : Address -> option msgSet -> Prop) (mp : MessagePool) : Prop :=
  exists ra o ms incr ms', R ra o /\ setOf o ms /\ run_ok B ms /\ mset_add m strict untrusted ms = Ret (incr, ms') /\
    found (From (SMessage m)) ra (Some ms') mp.

Lemma addLocked_tail m strict untrusted (R : Address -> option msgSet -> Prop) ra ms :
  msg_ok m -> Nonce (SMessage m) < B ->
  tri (fun mp => found (From (SMessage m)) ra (Some ms) mp /\ exists o, R ra o /\ setOf o ms)
    ('(incr, mset) ← lift (mset_add m strict untrusted ms);
     _ ← modify (putMset ra mset);
     when incr (modify (fun mp =>
       let size := currentSize mp + 1 in setTriggers false (SizeLimitHigh (cfg mp) <? size) (setSize size mp))))
    (fun _ => added m strict untrusted R).
Proof using All.
  intros Hm Hn mp [(HO & HR & Hp) (o & Ho & Hset)]. pose proof (pool_sets mp HO _ _ Hp) as Hms.
  pose proof (run_size B ms ltac:(lia) Hms) as Hs. pose proof Hms as [HS _ Hnext].
  pose proof (mset_add_cases ms m strict untrusted HS Hm Hs ltac:(unfold MaxNonceGap; lia)) as HC.
  unfold mbind, M_bind, lift, modify. destruct (mset_add m strict untrusted ms) as [[incr ms']|e|] eqn:Ea; [|done|done].
  destruct HC as (_ & Ei & Em & _). destruct (add_run_ok B ms m strict untrusted incr ms' ltac:(lia) Hms Hs Hm Hn Ea) as [Hms' _].
  assert (Z.of_nat (size (msgs ms')) = Z.of_nat (size (msgs ms)) + if incr then 1 else 0) as Hsz.
  { rewrite Em, map_size_insert, Ei. destruct (msgs ms !! _); [rewrite bool_decide_eq_false_2 by done|rewrite bool_decide_eq_true_2 by done]; cbn; lia. }
  destruct incr; cbn [when modify]; exists ra, o, ms; eexists _, ms'; split_and!; try done.
  all: split; [eapply (pool_ok_put mp ra ms ms' _ HO Hp Hms' Hsz); cbn; done || lia|]; split; [done|apply lookup_insert_eq].
Qed.

Lemma addLocked_spec P m strict untrusted (R : Address -> option msgSet -> Prop) :
  msg_ok m -> Nonce (SMessage m) < B -> (forall mp, P mp -> pool_ok mp) ->
  (forall c mp, isBLS m = true -> P mp -> P (addBlsSig c (SSignature m) mp)) ->
  tri P (getPendingMset (From (SMessage m))) (fun '(ra, o) mp => R ra o /\ found (From (SMessage m)) ra o mp) ->
  tri P (addLocked m strict untrusted) (fun _ => added m strict untrusted R).
Proof using All.
  intros Hm Hn HP Hb Hget. pose proof Hm as (_ & _ & c & Ec). unfold addLocked.
  eapply triple_bind with (R := fun _ => P).
  { destruct (isBLS m); [|by apply triple_ret]. rewrite Ec. by apply triple_modify; auto. }
  intros []. eapply triple_bind; [apply triple_lift with (Q := fun _ => P); [done|apply Hprov|done]|]. intros [].
  eapply triple_bind; [apply triple_lift with (Q := fun _ => P); [done|apply Hprov|done]|]. intros [].
  eapply triple_bind; [by apply senderMset_spec|]. intros [ra ms]. by apply addLocked_tail.
Qed.

Lemma added_pool_ok m strict untrusted R mp : added m strict untrusted R mp -> pool_ok mp.
Proof. intros (ra & o & ms & incr & ms' & HR & Hs & Hr & Ha & Hf). by destruct Hf as [? _]. Qed.

Lemma pool_ok_bls c s mp : SType s = SigTypeBLS -> pool_ok mp -> pool_ok (addBlsSig c s mp).
Proof.
  intros Hs [? ? ? ? Hb]. split; try done. intros c' s'. cbn. rewrite lookup_insert_Some.
  intros [[_ <-]|[_ Hx]]; [done|by eapply Hb].
Qed.

Lemma isBLS_type m : isBLS m = true -> SType (SSignature m) = SigTypeBLS.
Proof. by intros ?%bool_decide_eq_true. Qed.

Lemma addLocked_keeps m strict untrusted : msg_ok m -> Nonce (SMessage m) < B -> keeps (addLocked m strict untrusted).
Proof using All.
  intros Hm Hn. eapply triple_conseq; [apply (addLocked_spec pool_ok m strict untrusted (fun _ _ => True)); try done| |]; [| |done|].
  - intros c mp Hb. by apply pool_ok_bls, isBLS_type.
  - eapply triple_conseq; [apply getPendingMset_spec|done|]. by intros [ra o] mp ?.
  - intros [] mp. apply added_pool_ok.
Qed.

Lemma addLocked_found m strict untrusted ra o :
  msg_ok m -> Nonce (SMessage m) < B ->
  tri (found (From (SMessage m)) ra o) (addLocked m strict untrusted) (fun _ => added m strict untrusted (fun ra' o' => ra' = ra /\ o' = o)).
Proof using All.
  intros Hm Hn. apply (addLocked_spec (found (From (SMessage m)) ra o)); try done.
  - apply stable_found.
  - intros c mp Hb (HO & HR & Hp). split; [by apply pool_ok_bls; [apply isBLS_type|]|done].
  - eapply triple_conseq; [apply getPendingMset_found|done|]. by intros [ra' o'] mp [[= -> ->] ?].
Qed.

(** ** Checks *)

Lemma valid_no_panic m g v : ValidForBlockInclusion m g v <> Panic.
Proof. unfold ValidForBlockInclusion. by repeat case_match. Qed.

(** A step that only computes keeps any condition that has the invariant. *)
Lemma triple_step P {A} (r : outcome A) (Q : A -> Prop) :
  (forall mp, P mp -> pool_ok mp) -> r <> Panic -> (forall a, r = Ret a -> Q a) -> tri P (lift r) (fun a mp => Q a /\ P mp).
Proof. intros HP Hr HQ. apply triple_lift; [done|done|]. intros a mp E Hmp. auto. Qed.

Lemma sigCacheKey_no_panic m : encodable m -> sigCacheKey m <> Panic.
Proof. intros [[c Ec] _]. unfold sigCacheKey. rewrite Ec. destruct (SType _); [destruct (negb _)|..]; done. Qed.

Lemma VerifyMsgSig_keeps P m :
  (forall mp, P mp -> pool_ok mp) -> (forall k mp, P mp -> P (addSigVal k mp)) -> encodable m -> tri P (VerifyMsgSig m) (fun _ => P).
Proof using All.
  intros HP Hsig He. eapply triple_bind; [apply (triple_step P _ (fun _ => True)); [done|by apply sigCacheKey_no_panic|done]|].
  intros sck. apply triple_pure. intros _. eapply triple_bind; [by apply triple_gets with (Q := fun _ => P)|]. intros c.
  case_bool_decide; [by apply triple_ret|].
  eapply triple_bind; [apply (triple_step P _ (fun _ => True)); [done|apply Hprov|done]|]. intros [].
  apply triple_pure. intros _. apply triple_modify. auto.
Qed.

(** The amounts of a message that passes the checks are set. *)
Lemma checkMessage_spec P m :
  (forall mp, P mp -> pool_ok mp) -> (forall k mp, P mp -> P (addSigVal k mp)) -> encodable m ->
  tri P (checkMessage m) (fun _ mp => amounts_set (SMessage m) /\ P mp).
Proof using All.
  intros HP Hsig He. unfold checkMessage.
  eapply triple_bind; [apply (triple_step P _ (fun _ => True)); [done| |done]|].
  { unfold Size. destruct He as (_ & _ & Hs). by destruct (SignedMessage_Serialize m). }
  intros sz. apply triple_pure. intros _. destruct (_ <? sz); [by apply triple_err|].
  eapply triple_bind; [apply triple_gets with (Q := fun ts mp => is_Some ts /\ P mp)|].
  { intros mp Hmp. split; [|done]. apply pool_head. auto. }
  intros ts. apply triple_pure. intros [t ->]. eapply triple_bind; [apply (triple_step P _ (fun _ => True)); done|].
  intros t'. apply triple_pure. intros _.
  eapply triple_bind; [apply (triple_step P _ (fun _ => amounts_set (SMessage m))); [done|apply valid_no_panic|]|].
  { intros [] Ev. apply valid_amounts in Ev as (v & f & p & ? & ? & ? & _). by exists v, f, p. }
  intros []. apply triple_pure. intros (v & f & p & Ev & Ef & Ep). rewrite Ev, Ef.
  case_bool_decide; [by apply triple_err|].
  eapply triple_bind; [apply (triple_step P _ (fun _ => True)); done|]. intros v'. apply triple_pure. intros _.
  destruct (negb _); [by apply triple_err|].
  eapply triple_bind; [apply (triple_step P _ (fun _ => True)); done|]. intros f'. apply triple_pure. intros _.
  destruct (big_LessThan _ _); [by apply triple_err|].
  eapply triple_conseq; [by apply (VerifyMsgSig_keeps P)|done|]. intros [] mp HO. split; [by exists v, f, p|done].
Qed.

Lemma BigDiv_no_panic a b : b <> 0 -> BigDiv a b <> Panic.
Proof. intros Hb. unfold BigDiv. by destruct (Z.eqb_spec b 0). Qed.

Lemma verifyMsgBeforeAdd_keeps P m ts local :
  (forall mp, P mp -> pool_ok mp) -> encodable m -> amounts_set (SMessage m) -> is_Some ts ->
  tri P (verifyMsgBeforeAdd m ts local) (fun _ => P).
Proof using All.
  intros HP (_ & [l El] & _) (v & f & p & _ & Ef & _) [t ->]. unfold verifyMsgBeforeAdd. rewrite El, Ef.
  eapply triple_bind; [apply (triple_step P _ (fun _ => True)); done|]. intros t'. apply triple_pure. intros _.
  eapply triple_bind; [apply (triple_step P _ (fun _ => True)); done|]. intros l'. apply triple_pure. intros _.
  eapply triple_bind; [apply (triple_step P _ (fun _ => True)); [done|apply valid_no_panic|done]|]. intros []. apply triple_pure. intros _.
  eapply triple_bind; [apply (triple_step P _ (fun _ => True)); [done|destruct (blks t'); [apply Hprov|done]|done]|].
  intros baseFee. apply triple_pure. intros _.
  eapply triple_bind; [apply (triple_step P _ (fun _ => True)); [done| |done]|].
  { unfold getBaseFeeLowerBound. pose proof (BigDiv_no_panic baseFee baseFeeLowerBoundFactorConservative ltac:(done)) as Hd.
    by destruct (BigDiv baseFee baseFeeLowerBoundFactorConservative). }
  intros bound. apply triple_pure. intros _.
  eapply triple_bind; [apply (triple_step P _ (fun _ => True)); done|]. intros f'. apply triple_pure. intros _.
  destruct (big_LessThan f' bound); [|by apply triple_ret]. destruct local; [by apply triple_ret|by apply triple_err].
Qed.

(** The funds for the message and the other pending ones of its sender. *)
Definition fundsWith (m : SignedMessage) (o : option msgSet) : Z :=
  fundsOf m +
  match o with
  | Some ms => requiredFunds ms - match msgs ms !! Nonce (SMessage m) with Some ex => fundsOf ex | None => 0 end
  | None => 0
  end.

Definition affordable (m : SignedMessage) (ts : option TipSet) (o : option msgSet) : Prop :=
  exists act, GetActorAfter (From (SMessage m)) ts = Ret act /\ fundsWith m o <= Balance act.

Lemma checkBalance_spec m ts :
  msg_ok m -> tri pool_ok (checkBalance m ts) (fun _ mp => exists ra o, found (From (SMessage m)) ra o mp /\ affordable m ts o).
Proof using All.
  intros Hm. unfold checkBalance.
  eapply triple_bind with (R := fun bal mp => (exists act, GetActorAfter (From (SMessage m)) ts = Ret act /\ bal = Balance act) /\ pool_ok mp).
  { apply triple_wrap. eapply triple_bind; [apply (triple_step pool_ok _ (fun act => GetActorAfter (From (SMessage m)) ts = Ret act)); [done|apply Hprov|done]|].
    intros act. apply triple_pure. intros Ea. apply triple_ret. eauto. }
  intros bal. apply triple_pure. intros (act & Ea & ->). rewrite (RequiredFunds_of m Hm).
  eapply triple_bind; [apply (triple_step pool_ok _ (fun f => f = fundsOf m)); [done|done|congruence]|].
  intros f. apply triple_pure. intros ->. destruct (big_LessThan _ _); [by apply triple_err|].
  eapply triple_bind; [apply getPendingMset_spec|]. intros [ra o].
  eapply triple_bind with (R := fun z mp => z = fundsWith m o /\ found (From (SMessage m)) ra o mp).
  { destruct o as [ms|]; [|apply triple_ret; intros mp Hf; split; [unfold fundsWith; lia|done]].
    eapply triple_bind with (R := fun z mp => z = fundsWith m (Some ms) - fundsOf m /\ found (From (SMessage m)) ra (Some ms) mp).
    - intros mp Hf. pose proof Hf as (HO & _ & Hp). destruct (pool_sets mp HO _ _ Hp) as [[Hk _ _] _ _].
      unfold lift, getRequiredFunds, fundsWith. destruct (msgs ms !! Nonce (SMessage m)) as [ex|] eqn:Ex.
      + rewrite (RequiredFunds_of ex) by (by eapply Hk). cbn. split; [lia|done].
      + split; [lia|done].
    - intros z. apply triple_pure. intros ->. apply triple_ret. intros mp Hf. split; [unfold BigAdd; lia|done]. }
  intros z. apply triple_pure. intros ->. rewrite big_LessThan_ok. destruct (Z.ltb_spec (Balance act) (fundsWith m o)).
  - apply triple_err. by intros mp [? _].
  - apply triple_ret. intros mp Hf. exists ra, o. split; [done|]. by exists act.
Qed.

(** The message is pending, and the sender can pay for all its pending messages after [ts]. *)
Definition funded (m : SignedMessage) (ts : option TipSet) (mp : MessagePool) : Prop :=
  exists ra ms act, found (From (SMessage m)) ra (Some ms) mp /\ msgs ms !! Nonce (SMessage m) = Some m /\
    GetActorAfter (From (SMessage m)) ts = Ret act /\ totalFunds (msgs ms) <= Balance act.

Lemma added_funded m strict untrusted ts ra o mp :
  msg_ok m -> affordable m ts o -> added m strict untrusted (fun ra' o' => ra' = ra /\ o' = o) mp -> funded m ts mp.
Proof using All.
  intros Hm (act & Ea & Hle) (ra' & o' & ms & incr & ms' & [-> ->] & Hset & Hms & Eadd & Hf).
  pose proof (run_size B ms ltac:(lia) Hms) as Hs. pose proof Hms as [HS _ Hnext]. pose proof HS as [_ Hfunds _].
  pose proof (mset_add_cases ms m strict untrusted HS Hm Hs ltac:(unfold MaxNonceGap; lia)) as HC.
  rewrite Eadd in HC. destruct HC as (_ & _ & Em & _). exists ra, ms', act. split; [done|].
  split; [rewrite Em; apply lookup_insert_eq|]. split; [done|]. transitivity (fundsWith m o); [|done]. rewrite Em.
  unfold totalFunds, fundsWith in *. destruct o as [ms0|]; cbn in Hset; [subst ms0|destruct Hset as [n ->]].
  - destruct (msgs ms !! Nonce (SMessage m)) as [ex|] eqn:Ex;
      [rewrite (map_sum_replace fundsOf _ _ ex) by done|rewrite map_sum_insert by done]; lia.
  - cbn [newMsgSet msgs]. rewrite map_sum_insert, map_sum_empty by done. lia.
Qed.

Lemma stable_funded m ts : stable (funded m ts).
Proof.
  split.
  - by intros mp (ra & ms & act & [? _] & _).
  - intros mp a k Ha Hk (ra & ms & act & Hf & Hrest). exists ra, ms, act. split; [by apply (stable_key _ (stable_found _ _ _))|done].
  - intros mp k n Hn (ra & ms & act & Hf & Hrest). exists ra, ms, act. split; [by apply (stable_nonce _ (stable_found _ _ _))|done].
Qed.

Lemma funded_locals m ts addrs lms mp : funded m ts mp -> funded m ts (setLocals addrs lms mp).
Proof.
  intros (ra & ms & act & (HO & HR & Hp) & Hrest). exists ra, ms, act. split; [|done].
  split; [by eapply pool_ok_frame|]. split; done.
Qed.

Lemma addLocal_funded m ts : encodable m -> tri (funded m ts) (addLocal m) (fun _ => funded m ts).
Proof using All.
  intros ([c Ec] & _ & Hs). pose proof (stable_funded m ts) as HS. pose proof (stable_inv _ HS) as HI. unfold addLocal. rewrite Ec.
  eapply triple_bind with (R := fun _ => funded m ts).
  { eapply triple_bind; [eapply triple_errs; [|by apply resolveToKey_keeps]; done|]. intros ra. apply triple_modify.
    intros mp. apply funded_locals. }
  intros []. eapply triple_bind; [by apply triple_lift with (Q := fun _ => funded m ts)|]. intros sz.
  eapply triple_bind; [by apply triple_lift with (Q := fun _ => funded m ts)|]. intros c'.
  apply triple_modify. intros mp. apply funded_locals.
Qed.

Lemma addTs_spec m ts local untrusted :
  encodable m -> amounts_set (SMessage m) -> 0 <= Nonce (SMessage m) < B -> is_Some ts ->
  tri pool_ok (addTs m ts local untrusted) (fun _ => funded m ts).
Proof using All.
  intros He Ha Hn Hts. assert (msg_ok m) as Hm by (split; [done|]; split; [unfold in_u64; lia|apply He]). unfold addTs.
  eapply triple_bind; [apply triple_wrap, getStateNonce_spec, stable_pool_ok|]. intros snonce. apply triple_pure. intros _.
  destruct (_ <? snonce); [by apply triple_err|].
  eapply triple_bind; [apply (triple_step pool_ok _ (fun _ => True)); [done|apply Hprov|done]|]. intros act. apply triple_pure. intros _.
  eapply triple_bind; [apply (triple_step pool_ok _ (fun _ => True)); [done|by destruct Hts as [t ->]|done]|]. intros t. apply triple_pure. intros _.
  destruct (negb _); [by apply triple_err|].
  eapply triple_bind; [by apply (verifyMsgBeforeAdd_keeps pool_ok)|]. intros publish.
  eapply triple_bind; [by apply checkBalance_spec|]. intros [].
  eapply triple_bind with (R := fun _ => funded m ts).
  { apply triple_exists. intros ra. apply triple_exists. intros o. intros mp [Hf Haff].
    pose proof (addLocked_found m (negb local) untrusted ra o Hm ltac:(lia) mp Hf) as HA.
    destruct (addLocked m (negb local) untrusted mp) as [[[]|e|] mp']; [|done|done]. by eapply added_funded. }
  intros []. eapply triple_bind; [apply triple_when with (Q := fun _ => funded m ts); [by apply addLocal_funded|done]|].
  intros []. by apply triple_ret.
Qed.

(** ** The interface *)

(** A message a user or a peer sends. *)
Definition sendable (m : SignedMessage) : Prop := encodable m /\ 0 <= Nonce (SMessage m) < B.

Definition atHead (ts : option TipSet) (mp : MessagePool) : Prop := curTs mp = ts /\ pool_ok mp.

Lemma atHead_sigVal ts k mp : atHead ts mp -> atHead ts (addSigVal k mp).
Proof. intros [Et HO]. split; [done|]. by eapply pool_ok_frame. Qed.

Lemma atHead_ok ts mp : atHead ts mp -> pool_ok mp.
Proof. by intros [_ ?]. Qed.

(** What the three ways to send a message have in common. *)
Lemma checked_addTs head m local untrusted {A} (pre : option TipSet -> M unit) (k : bool -> M A) :
  sendable m -> (forall ts, keeps (pre ts)) -> (forall ts b, tri (funded m ts) (k b) (fun _ => funded m ts)) ->
  tri (atHead head) (_ ← checkMessage m; ts ← gets curTs; _ ← pre ts; ok ← addTs m ts local untrusted; k ok)
    (fun _ => funded m head).
Proof using All.
  intros [He Hn] Hpre Hk.
  eapply triple_bind; [apply (checkMessage_spec (atHead head)); [apply atHead_ok|intros; by apply atHead_sigVal|done]|].
  intros []. apply triple_pure. intros Ha.
  eapply triple_bind; [apply triple_gets with (Q := fun ts mp => (ts = head /\ is_Some ts) /\ pool_ok mp)|].
  { intros mp [Et HO]. split; [|done]. split; [done|]. by apply pool_head. }
  intros ts. apply triple_pure. intros [-> Hts]. eapply triple_bind; [apply Hpre|]. intros [].
  eapply triple_bind; [by apply addTs_spec|]. intros ok. apply Hk.
Qed.

Lemma publishMsg_funded m ts : encodable m -> tri (funded m ts) (publishMsg m) (fun _ => funded m ts).
Proof using All.
  intros (_ & _ & Hs). pose proof (stable_inv _ (stable_funded m ts)) as HI.
  eapply triple_bind; [by apply triple_lift with (Q := fun _ => funded m ts)|]. intros b.
  apply triple_lift; [done|apply Hprov|done].
Qed.

Lemma Push_spec head m publish : sendable m -> tri (atHead head) (Push m publish) (fun _ => funded m head).
Proof using All.
  intros Hm. pose proof Hm as [He _]. pose proof He as [[c Ec] _].
  change (Push m publish) with (_ ← checkMessage m; ts ← gets curTs; _ ← (mret tt : M unit); ok ← addTs m ts true false;
    (_ ← when (ok && publish) (publishMsg m); lift (SignedMessage_Cid m))).
  apply (checked_addTs head m true false (fun _ => mret tt)); [done|intros ts; by apply triple_ret|]. intros ts b.
  eapply triple_bind; [apply triple_when with (Q := fun _ => funded m ts); [by apply publishMsg_funded|done]|]. intros [].
  rewrite Ec. apply triple_lift; [apply (stable_inv _ (stable_funded m ts))|done|done].
Qed.

Lemma PushUntrusted_spec head m : sendable m -> tri (atHead head) (PushUntrusted m) (fun _ => funded m head).
Proof using All.
  intros Hm. pose proof Hm as [He _]. pose proof He as [[c Ec] _].
  change (PushUntrusted m) with (_ ← checkMessage m; ts ← gets curTs; _ ← (mret tt : M unit); publish ← addTs m ts true true;
    (_ ← when publish (publishMsg m); lift (SignedMessage_Cid m))).
  apply (checked_addTs head m true true (fun _ => mret tt)); [done|intros ts; by apply triple_ret|]. intros ts b.
  eapply triple_bind; [apply triple_when with (Q := fun _ => funded m ts); [by apply publishMsg_funded|done]|]. intros [].
  rewrite Ec. apply triple_lift; [apply (stable_inv _ (stable_funded m ts))|done|done].
Qed.

Lemma Add_spec head m : sendable m -> tri (atHead head) (Add m) (fun _ => funded m head).
Proof using All.
  intros Hm mp Hmp.
  set (pre := fun ts => _ ← attempt (lift (GetActorAfter (From (SMessage m)) ts)); _ ← attempt (getStateNonce (From (SMessage m)) ts); (mret tt : M unit)).
  assert (Add m mp = (_ ← checkMessage m; ts ← gets curTs; _ ← pre ts; ok ← addTs m ts false false; (mret tt : M unit)) mp) as ->.
  { unfold Add, pre, mbind, M_bind, gets. destruct (checkMessage m mp) as [[[]|e|] mp1]; [|done|done].
    destruct (attempt (lift _) mp1) as [[r|e|] mp2]; [|done|done]. by destruct (attempt (getStateNonce _ _) mp2) as [[r'|e|] mp3]. }
  apply (checked_addTs head m false false pre (fun _ => mret tt)); [done| |intros ts b; by apply triple_ret|done].
  intros ts. eapply triple_bind; [apply triple_attempt, triple_lift with (Q := fun _ => pool_ok); [done|apply Hprov|done]|].
  intros [act|e|]; [| |by intros ? []].
  all: eapply triple_bind; [apply triple_attempt, getStateNonce_spec, stable_pool_ok|].
  all: intros [n|e'|]; [apply triple_ret; by intros mp' [_ ?]|by apply triple_ret|by intros ? []].
Qed.

(** ** Following the chain *)

Definition fine (m : SignedMessage) : Prop := msg_ok m /\ Nonce (SMessage m) < B.

Definition reverted_fine (r : Reverted) : Prop := forall a s n m, r !! a = Some s -> s !! n = Some m -> fine m.

Lemma recoverSigs_spec l :
  (forall m, m ∈ l -> amounts_set m /\ 0 <= Nonce m < B /\ exists c, Message_Cid m = Ret c) ->
  tri pool_ok (recoverSigs l) (fun ms mp => Forall fine ms /\ pool_ok mp).
Proof using All.
  induction l as [|m l IH]; intros Hl; cbn [recoverSigs]; [by apply triple_ret|].
  destruct (Hl m (list_elem_of_here _ _)) as (Ha & Hn & c & Ec).
  eapply triple_bind with (R := fun o mp => Forall fine (option_list o) /\ pool_ok mp).
  - unfold RecoverSig. rewrite Ec. eapply triple_bind; [by apply triple_lift with (Q := fun _ => pool_ok)|]. intros c'.
    eapply triple_bind; [apply triple_gets with (Q := fun x mp => x = blsSigCache mp /\ pool_ok mp); auto|]. intros x.
    apply triple_ret. intros mp [-> HO]. split; [|done]. destruct (blsSigCache mp !! c') as [sg|] eqn:Es; cbn; [|done].
    apply (pool_sigs mp HO) in Es. repeat constructor; cbn; [done|lia|lia| |lia].
    exists c. unfold SignedMessage_Cid, isBLS. cbn. by rewrite bool_decide_eq_true_2.
  - intros o. apply triple_pure. intros Ho. eapply triple_bind; [apply IH; intros m' Hm'; by apply Hl, list_elem_of_further|].
    intros rest. apply triple_pure. intros Hr. apply triple_ret. intros mp HO. split; [by apply Forall_app|done].
Qed.

Lemma MessagesForBlocks_spec bs : tri pool_ok (MessagesForBlocks bs) (fun ms mp => Forall fine ms /\ pool_ok mp).
Proof using All.
  induction bs as [|b bs IH]; cbn [MessagesForBlocks]; [by apply triple_ret|].
  eapply triple_bind; [apply (triple_step pool_ok _ (fun r => MessagesForBlock b = Ret r)); [done|apply Hprov|done]|].
  intros [bm sm]. apply triple_pure. intros Eb.
  eapply triple_bind; [apply recoverSigs_spec; intros m Hm; by eapply block_unsigned|]. intros rec. apply triple_pure. intros Hrec.
  eapply triple_bind; [apply IH|]. intros rest. apply triple_pure. intros Hrest. apply triple_ret. intros mp HO. split; [|done].
  apply Forall_app. split; [|by apply Forall_app]. apply Forall_forall. intros m Hm. by eapply block_signed.
Qed.

Lemma addReverted_fine r ms : reverted_fine r -> Forall fine ms -> reverted_fine (foldl addReverted r ms).
Proof.
  intros Hr Hms. revert r Hr. induction Hms as [|m ms Hm Hms IH]; intros r Hr; [done|]. apply IH. unfold addReverted.
  intros a s n x. rewrite lookup_insert_Some. intros [[<- <-]|[_ Hs]]; [|by eapply Hr].
  rewrite lookup_insert_Some. intros [[_ <-]|[_ Hx]]; [done|].
  destruct (r !! From (SMessage m)) eqn:Er; cbn in Hx; [by eapply Hr|done].
Qed.

Lemma revertLoop_spec l r :
  reverted_fine r -> (forall ts, ts ∈ l -> blks ts <> []) ->
  tri pool_ok (revertLoop l r) (fun '(r', _) mp => reverted_fine r' /\ pool_ok mp).
Proof using All.
  intros Hr Hl. revert r Hr. induction l as [|ts l IH]; intros r Hr; cbn [revertLoop]; [by apply triple_ret|].
  assert (forall ts, ts ∈ l -> blks ts <> []) as Hl' by (intros t Ht; by apply Hl, list_elem_of_further).
  specialize (IH Hl'). pose proof (Hl ts (list_elem_of_here _ _)) as Hb.
  eapply triple_bind; [apply (triple_step pool_ok _ (fun _ => True)); [done| |done]|].
  { unfold Parents, firstBlock. by destruct (blks ts). }
  intros parents. apply triple_pure. intros _.
  assert (forall e, tri pool_ok ('(rmsgs, errs) ← revertLoop l r; mret (rmsgs, e :: errs)) (fun '(r', _) mp => reverted_fine r' /\ pool_ok mp)) as Herr.
  { intros e. eapply triple_bind; [by apply IH|]. intros [r' errs]. by apply triple_ret. }
  destruct (LoadTipSet parents) as [pts|e|] eqn:El; [|done|by destruct (load_ok Hprov _ El)].
  eapply triple_bind; [apply triple_modify with (Q := fun _ => pool_ok)|].
  { intros mp [? ? ? ? ?]. by split. }
  intros []. eapply triple_bind; [apply triple_attempt, MessagesForBlocks_spec|].
  intros [ms|e|]; [|apply Herr|by intros ? []]. apply triple_pure. intros Hms. apply IH. by apply addReverted_fine.
Qed.

Lemma applyMsg_spec from nonce r :
  0 <= nonce < B -> reverted_fine r -> tri pool_ok (applyMsg from nonce r) (fun r' mp => reverted_fine r' /\ pool_ok mp).
Proof using All.
  intros Hn Hr. unfold applyMsg, Remove.
  assert (tri pool_ok (_ ← remove from nonce true; mret r) (fun r' mp => reverted_fine r' /\ pool_ok mp)) as Hrm.
  { eapply triple_bind; [by apply remove_keeps|]. intros []. by apply triple_ret. }
  destruct (r !! from) as [s|] eqn:Er; [|done]. destruct (s !! nonce) eqn:Es; [|done]. apply triple_ret. intros mp HO. split; [|done].
  intros a s' n x. rewrite lookup_insert_Some. intros [[<- <-]|[_ Hs]]; [|by eapply Hr].
  rewrite lookup_delete_Some. intros [_ Hx]. by eapply Hr.
Qed.

Lemma maybeRepub_keeps c b : keeps (maybeRepub c b).
Proof.
  unfold maybeRepub. destruct b; [by apply triple_ret|]. eapply triple_bind; [by apply triple_gets with (Q := fun _ => pool_ok)|].
  intros r. by apply triple_ret.
Qed.

Lemma applySigned_spec l r b :
  (forall m, m ∈ l -> fine m) -> reverted_fine r -> tri pool_ok (applySigned l r b) (fun '(r', _) mp => reverted_fine r' /\ pool_ok mp).
Proof using All.
  revert r b. induction l as [|m l IH]; intros r b Hl Hr; cbn [applySigned]; [by apply triple_ret|].
  destruct (Hl m (list_elem_of_here _ _)) as [(_ & [Hn _] & c & Ec) Hlt].
  eapply triple_bind; [by apply applyMsg_spec|]. intros r'. apply triple_pure. intros Hr'. rewrite Ec.
  eapply triple_bind; [by apply triple_lift with (Q := fun _ => pool_ok)|]. intros c'.
  eapply triple_bind; [apply maybeRepub_keeps|]. intros b'. apply IH; [|done]. intros m' Hm'. by apply Hl, list_elem_of_further.
Qed.

Lemma applyUnsigned_spec l r b :
  (forall m, m ∈ l -> 0 <= Nonce m < B /\ exists c, Message_Cid m = Ret c) -> reverted_fine r ->
  tri pool_ok (applyUnsigned l r b) (fun '(r', _) mp => reverted_fine r' /\ pool_ok mp).
Proof using All.
  revert r b. induction l as [|m l IH]; intros r b Hl Hr; cbn [applyUnsigned]; [by apply triple_ret|].
  destruct (Hl m (list_elem_of_here _ _)) as [Hn [c Ec]].
  eapply triple_bind; [by apply applyMsg_spec|]. intros r'. apply triple_pure. intros Hr'. rewrite Ec.
  eapply triple_bind; [by apply triple_lift with (Q := fun _ => pool_ok)|]. intros c'.
  eapply triple_bind; [apply maybeRepub_keeps|]. intros b'. apply IH; [|done]. intros m' Hm'. by apply Hl, list_elem_of_further.
Qed.

Lemma applyBlocks_spec l r b : reverted_fine r -> tri pool_ok (applyBlocks l r b) (fun '(r', _, _) mp => reverted_fine r' /\ pool_ok mp).
Proof using All.
  revert r b. induction l as [|h l IH]; intros r b Hr; cbn [applyBlocks]; [by apply triple_ret|].
  destruct (MessagesForBlock h) as [[bm sm]|e|] eqn:Eh; [| |by destruct (block_msgs_ok Hprov _ Eh)].
  - eapply triple_bind; [apply applySigned_spec; [intros m Hm; by eapply block_signed|done]|]. intros [r1 b1]. apply triple_pure. intros Hr1.
    eapply triple_bind; [apply applyUnsigned_spec; [|done]|].
    { intros m Hm. by destruct (block_unsigned Hprov _ _ _ _ Eh Hm) as (_ & ? & ?). }
    intros [r2 b2]. apply triple_pure. intros Hr2. by apply IH.
  - eapply triple_bind; [by apply IH|]. intros [[r' b'] errs]. by apply triple_ret.
Qed.

Lemma applyLoop_spec l r b : reverted_fine r -> tri pool_ok (applyLoop l r b) (fun '(r', _, _) mp => reverted_fine r' /\ pool_ok mp).
Proof using All.
  revert r b. induction l as [|ts l IH]; intros r b Hr; cbn [applyLoop]; [by apply triple_ret|].
  eapply triple_bind; [apply triple_modify with (Q := fun _ => pool_ok)|].
  { intros mp [? ? ? ? ?]. by split. }
  intros []. eapply triple_bind; [by apply applyBlocks_spec|]. intros [[r1 b1] errs]. apply triple_pure. intros Hr1.
  eapply triple_bind; [by apply IH|]. intros [[r2 b2] errs']. by apply triple_ret.
Qed.

Lemma revertedMsgs_fine r m : reverted_fine r -> m ∈ revertedMsgs r -> fine m.
Proof.
  intros Hr Hm. unfold revertedMsgs in Hm. apply list_elem_of_In, in_concat in Hm as (l & Hl%list_elem_of_In & Hm%list_elem_of_In).
  apply list_elem_of_fmap in Hl as ([a s] & -> & Hs). apply list_elem_of_fmap in Hm as ([n x] & -> & Hx).
  apply elem_of_map_to_list in Hs, Hx. by eapply Hr.
Qed.

Lemma HeadChange_keeps order revert apply :
  (forall l m, m ∈ order l -> m ∈ l) -> (forall ts, ts ∈ revert -> blks ts <> []) -> keeps (HeadChange order revert apply).
Proof using All.
  intros Ho Hrev. eapply triple_bind; [apply revertLoop_spec; [by intros ? ? ? ? ?|done]|]. intros [r errs]. apply triple_pure. intros Hr.
  eapply triple_bind; [by apply applyLoop_spec|]. intros [[r' b] errs']. apply triple_pure. intros Hr'.
  eapply triple_bind; [apply triple_when with (Q := fun _ => pool_ok); [|done]|].
  { apply triple_modify. intros mp HO. by eapply pool_ok_frame. }
  intros []. eapply triple_bind; [apply triple_mfor|intros []; by apply triple_ret].
  intros m Hm. apply Ho in Hm. destruct (revertedMsgs_fine r' m Hr' Hm) as [Hok Hn].
  eapply triple_bind; [apply triple_attempt; by apply addLocked_keeps|]. intros [[]|e|]; [by apply triple_ret|by apply triple_ret|by intros ? []].
Qed.

Lemma addLoaded_keeps m : sendable m -> keeps (addLoaded m).
Proof using All.
  intros [He Hn]. eapply triple_bind; [apply (checkMessage_spec pool_ok); [done|intros; by eapply pool_ok_frame|done]|].
  intros []. apply triple_pure. intros Ha. assert (msg_ok m) as Hm by (split; [done|]; split; [unfold in_u64; lia|apply He]).
  eapply triple_bind; [by apply triple_gets with (Q := fun _ => pool_ok)|]. intros [t|]; [|by apply triple_err].
  eapply triple_bind; [apply triple_wrap, getStateNonce_spec, stable_pool_ok|]. intros snonce. apply triple_pure. intros _.
  destruct (_ <? snonce); [by apply triple_err|].
  eapply triple_bind; [by apply (verifyMsgBeforeAdd_keeps pool_ok)|]. intros _b.
  eapply triple_bind; [by apply checkBalance_spec|]. intros [].
  eapply triple_conseq; [apply addLocked_keeps; [done|lia]| |done]. by intros mp (ra & o & [? _] & _).
Qed.

Lemma setLocal_keeps a : keeps (setLocal a).
Proof using All.
  eapply triple_bind; [apply resolveToKey_keeps, stable_pool_ok|]. intros ra. apply triple_modify. intros mp HO. by eapply pool_ok_frame.
Qed.

Lemma loadLocal_keeps l : (forall m, m ∈ l -> sendable m) -> keeps (loadLocal l).
Proof using All.
  intros Hl. apply triple_mfor. intros m Hm. eapply triple_bind; [apply triple_attempt; by apply addLoaded_keeps, Hl|].
  intros [[]|e|]; [apply setLocal_keeps| |by intros ? []]. case_bool_decide; [by apply triple_ret|apply setLocal_keeps].
Qed.

Lemma evict_ok keys bls sigs nonces mp : pool_ok mp -> pool_ok (evict keys bls sigs nonces mp).
Proof.
  intros [? ? ? Hn Hb]. split; try done; cbn.
  - intros k n. rewrite lookup_intersection_Some. intros [Hx _]. by eapply Hn.
  - intros c s. rewrite lookup_intersection_Some. intros [Hx _]. by eapply Hb.
Qed.

(** ** Runs *)

Inductive poolOp :=
  | PPush (m : SignedMessage) (publish : bool)
  | PPushUntrusted (m : SignedMessage)
  | PAdd (m : SignedMessage)
  | PLoad (stored : list SignedMessage)
  | PRemove (from : Address) (nonce : Z) (applied : bool)
  | PHeadChange (order : list SignedMessage -> list SignedMessage) (revert apply : list TipSet)
  | PEvict (keys : gmap Address Address) (bls : gmap Cid Signature) (sigs : gset bytes) (nonces : gmap (TipSetKey * Address) Z).

Definition poolStep (op : poolOp) : M unit :=
  match op with
  | PPush m publish => _ ← Push m publish; mret tt
  | PPushUntrusted m => _ ← PushUntrusted m; mret tt
  | PAdd m => Add m
  | PLoad stored => loadLocal stored
  | PRemove from nonce applied => Remove from nonce applied
  | PHeadChange order revert apply => _ ← HeadChange order revert apply; mret tt
  | PEvict keys bls sigs nonces => modify (evict keys bls sigs nonces)
  end.

Definition op_fine (op : poolOp) : Prop :=
  match op with
  | PPush m _ | PPushUntrusted m | PAdd m => sendable m
  | PLoad stored => forall m, m ∈ stored -> sendable m
  | PRemove _ nonce _ => 0 <= nonce < B
  | PHeadChange order revert _ => (forall l m, m ∈ order l -> m ∈ l) /\ forall ts, ts ∈ revert -> blks ts <> []
  | PEvict _ _ _ _ => True
  end.

Lemma funded_step {A} (m : M A) sm :
  (forall head, tri (atHead head) m (fun _ => funded sm head)) -> keeps (_ ← m; mret tt).
Proof.
  intros Hm mp HO. specialize (Hm (curTs mp) mp (conj eq_refl HO)). unfold mbind, M_bind.
  destruct (m mp) as [[a|e|] mp']; [|done|done]. by apply (stable_inv _ (stable_funded _ _)) in Hm.
Qed.

Lemma poolStep_keeps op : op_fine op -> keeps (poolStep op).
Proof using All.
  destruct op as [m publish|m|m|stored|from nonce applied|order revert apply|keys bls sigs nonces]; cbn [op_fine poolStep]; intros Hop.
  - apply (funded_step _ m). intros head. by apply Push_spec.
  - apply (funded_step _ m). intros head. by apply PushUntrusted_spec.
  - intros mp HO. pose proof (Add_spec (curTs mp) m Hop mp (conj eq_refl HO)) as HA.
    destruct (Add m mp) as [[[]|e|] mp']; [|done|done]. by apply (stable_inv _ (stable_funded _ _)) in HA.
  - by apply loadLocal_keeps.
  - by apply remove_keeps.
  - destruct Hop. eapply triple_bind; [by apply HeadChange_keeps|]. intros errs. by apply triple_ret.
  - apply triple_modify. intros mp. apply evict_ok.
Qed.

(** A run; the errors of the operations are reported to their callers.  [None] is a panic. *)
Fixpoint runPool (ops : list poolOp) (mp : MessagePool) : option MessagePool :=
  match ops with
  | [] => Some mp
  | op :: ops =>
      match poolStep op mp with
      | (Panic, _) => None
      | (_, mp') => runPool ops mp'
      end
  end.

Lemma runPool_ok ops mp : pool_ok mp -> Forall op_fine ops -> exists mp', runPool ops mp = Some mp' /\ pool_ok mp'.
Proof using All.
  intros HO Hops. revert mp HO. induction Hops as [|op ops Hop Hops IH]; intros mp HO; cbn [runPool]; [eauto|].
  pose proof (poolStep_keeps op Hop mp HO) as HS. destruct (poolStep op mp) as [[[]|e|] mp']; [by apply IH|by apply IH|done].
Qed.

(** The pool as it is made, at the head [ts]. *)
Definition newPool (c : MpoolConfig) (ts : TipSet) : MessagePool := {|
  republished := ∅; repubTrigger := false; localAddrs := ∅; pending := ∅; keyCache := ∅; curTs := Some ts; cfg := c;
  currentSize := 0; pruneTrigger := false; blsSigCache := ∅; sigValCache := ∅; stateNonceCache := ∅; localMsgs := ∅;
|}.

Lemma newPool_ok c ts : pool_ok (newPool c ts).
Proof. by split. Qed.


End pool.

(** ** A concrete chain, and witnesses *)

Definition demoProvider : Provider := {|
  PutSigned := fun _ => Ret tt;
  PutUnsigned := fun _ => Ret tt;
  PubSubPublish := fun _ => Ret tt;
  GetActorBefore := fun _ _ => Ret {| Code := "account"; Head := "head"; StateTree.Nonce := 3; Balance := 500000; DelegatedAddress := None |};
  GetActorAfter := fun _ _ => Ret {| Code := "account"; Head := "head"; StateTree.Nonce := 3; Balance := 500000; DelegatedAddress := None |};
  StateDeterministicAddressAtFinality := fun _ _ => Ret "f1a"%string;
  StateNetworkVersion := fun _ => 18;
  MessagesForBlock := fun _ => Ret ([], [demoMsg 3 100]);
  MessagesForTipset := fun _ => Ret [];
  LoadTipSet := fun _ => Ret demoTipSet;
  ChainComputeBaseFee := fun _ => Ret 100;
  AuthenticateMessage := fun _ _ => Ret tt;
  OnChainMessageGas := fun _ l => l;
  IsAccountActor := fun _ => true;
  IsEthAccountActor := fun _ => false;
  IsPlaceholderActor := fun _ => false;
  isDelegated := fun _ => false;
  payloadNamespace := fun _ => Err "no payload";
  EthereumAddressManagerActorID := 10;
  SignatureBytes := 96;
|}.

Definition demoConfig : MpoolConfig := {|
  PriorityAddrs := []; SizeLimitHigh := 30000; SizeLimitLow := 20000; ReplaceByFeeRatio := 125; PruneCooldown := 60;
|}.

Definition demoPool : MessagePool := newPool demoConfig demoTipSet.

#[local] Existing Instances demoMsgOps demoHashing demoProvider.

Lemma demoProvider_ok : provider_ok 1000.
Proof.
  split; try done.
  - intros a ts act [= <-]. cbn. lia.
  - intros ts l m [= <-] Hm. by apply not_elem_of_nil in Hm.
  - intros b l l' m [= <- <-] Hm. apply list_elem_of_singleton in Hm as ->. split; [apply demoMsg_ok; done|done].
  - intros b l l' m [= <- <-] Hm. by apply not_elem_of_nil in Hm.
Qed.

Lemma demoMsg_sendable n p : 0 <= n < 1000 -> sendable 1000 (demoMsg n p).
Proof. intros Hn. split; [|done]. split; [by eexists|]. split; [by eexists|done]. Qed.

Definition demoPoolOps : list poolOp :=
  [PPush (demoMsg 3 100) true; PAdd (demoMsg 4 100); PAdd (demoMsg 5 100); PHeadChange id [] [demoTipSet];
   PHeadChange id [demoTipSet] []; PRemove "f1a" 4 false].

Lemma demoPoolOps_fine : Forall (op_fine 1000) demoPoolOps.
Proof.
  unfold demoPoolOps. repeat constructor; try (apply demoMsg_sendable; lia); try done.
  - intros ts Hts. by apply not_elem_of_nil in Hts.
  - intros ts Hts. by apply list_elem_of_singleton in Hts as ->.
Qed.



(** ** Behaviours that differ from what the source says *)

(** [PushUntrusted] takes a message with a gap of 17 nonces; a peer's message is refused for it. *)
Lemma push_untrusted_gap :
  (exists c mp, PushUntrusted (demoMsg 20 100) demoPool = (Ret c, mp)) /\
  exists mp, Add (demoMsg 20 100) demoPool = (Err ErrNonceGap, mp).
Proof. split; [do 2 eexists|eexists]; vm_compute; reflexivity. Qed.

(** Clearing the pool leaves its size. *)
Lemma clear_keeps_size :
  exists mp, (_ ← Push (demoMsg 3 100) true; Clear ["f1a"%string] true) demoPool = (Ret tt, mp) /\ pending mp = ∅ /\ currentSize mp = 1.
Proof. eexists. split; [vm_compute; reflexivity|]. split; reflexivity. Qed.

(** An encoder that refuses a message with too many parameters, as the generated one does. *)
Definition refusingOps : MsgOps := {|
  Message_MarshalCBOR := fun m => if 2 <? len (Params m) then Err "Byte array in field t.Params was too long" else Ret (Params m);
  SignedMessage_MarshalCBOR := fun sm => if 2 <? len (Params (SMessage sm)) then Err "Byte array in field t.Params was too long" else Ret (Params (SMessage sm));
  CidBuilder_Sum := fun b => Ret b;
  address_Undef := EmptyString;
  address_isID := fun _ => false;
  AddressValidForNetworkVersion := fun _ _ => true;
  ZeroAddress := "f3zero"%string;
|}.

(** Its size counts as 0, so the limit does not refuse it and its CID panics. *)
Lemma oversized_params_panic :
  let m := {| SMessage := {| Version := 0; To := "f02"; From := "f1a"; Nonce := 3; Value := Some 5; GasLimit := 1000;
      GasFeeCap := Some 200; GasPremium := Some 100; Method := 0; Params := [1; 2; 3] |};
    SSignature := {| SType := SigTypeSecp256k1; SData := [7] |} |} in
  @Size refusingOps m = Ret 0 /\ fst (@Push ZBig refusingOps demoHashing demoProvider m true demoPool) = Panic.
Proof. split; vm_compute; reflexivity. Qed.
