(* ===== verification/IndexLocks.v ===== *)
(** * Locks on sector files: storage/paths/index_locks.go

    A lock of a sector counts the readers of each file type and has the set of types that are
    written.  The locks are shared objects that the calls reach through a table; the mutexes
    make the steps of the calls atomic, and a run is any interleaving of the steps. *)

From S2P Require Import Prelude.

(** ** storage/sealer/storiface/filetype.go *)

Definition FileTypes : nat := 5.

(** A set of file types, as bits. *)
Definition SectorFileType := Z.

Definition All (t : SectorFileType) : list bool := (fun i => 0 <? Z.land t (Z.shiftl 1 (Z.of_nat i))) <$> seq 0 FileTypes.

(** ** Locks of a sector *)

Record sectorLock := {
  lr : list Z; (* [r] *)
  lw : SectorFileType; (* [w] *)
  refs : Z; (* calls in memory, far from the width of a uint *)
}.

Definition newLock : sectorLock := {| lr := replicate FileTypes 0; lw := 0; refs := 0 |}.

Definition canLock (l : sectorLock) (read write : SectorFileType) : bool :=
  if existsb (fun '(b, n) => b && (0 <? n)) (zip (All write) (lr l)) then false
  else (Z.land (lw l) read =? 0) && (Z.land (lw l) write =? 0).

(** [Some] is the lock after success. *)
Definition tryLock (l : sectorLock) (read write : SectorFileType) : option sectorLock :=
  if negb (canLock l read write) then None
  else Some {| lr := zip_with (fun (set : bool) n => if set then n + 1 else n) (All read) (lr l);
               lw := Z.lor (lw l) write; refs := refs l |}.

Definition unlock (l : sectorLock) (read write : SectorFileType) : sectorLock :=
  {| lr := zip_with (fun (set : bool) n => if set then n - 1 else n) (All read) (lr l);
     lw := Z.land (lw l) (Z.lnot write); refs := refs l |}.

Definition setRefs (n : Z) (l : sectorLock) : sectorLock := {| lr := lr l; lw := lw l; refs := n |}.

(** ** The table *)

(** [abi.SectorID]: the miner and the number. *)
Definition SectorID : Type := Z * Z.

(** A call between its atomic steps: it has a reference to the lock and will try it, again
    after each wait if it is [StorageLock] and once if it is [StorageTryLock]; it holds the
    lock until its context is done; or it is over. *)
Inductive call :=
  | Trying (blocking : bool) (slk : nat) (sector : SectorID) (read write : SectorFileType)
  | Holding (slk : nat) (sector : SectorID) (read write : SectorFileType)
  | Refused
  | Released.

(** The objects in memory, the table and the calls. *)
Record state := {
  heap : gmap nat sectorLock;
  locks : gmap SectorID nat;
  calls : gmap nat call;
}.

Definition init : state := {| heap := ∅; locks := ∅; calls := ∅ |}.

Definition setCall (c : nat) (x : call) (st : state) : state :=
  {| heap := heap st; locks := locks st; calls := <[c := x]> (calls st) |}.

Definition setLock (slk : nat) (l : sectorLock) (st : state) : state :=
  {| heap := <[slk := l]> (heap st); locks := locks st; calls := calls st |}.

(** The first part of [lockWith]: the checks, and the reference, to a new lock at a fresh
    place if the sector has none. *)
Definition enter (c : nat) (blocking : bool) (sector : SectorID) (read write : SectorFileType) (st : state) : outcome state :=
  if Z.lor read write =? 0 then Ret (setCall c Refused st)
  else if Z.shiftl 1 (Z.of_nat FileTypes) - 1 <? Z.lor read write then Err "unknown file types specified"
  else
    match locks st !! sector with
    | Some slk =>
        match heap st !! slk with
        | Some l => Ret (setCall c (Trying blocking slk sector read write) (setLock slk (setRefs (refs l + 1) l) st))
        | None => Panic
        end
    | None =>
        let slk := fresh (dom (heap st)) in
        Ret {| heap := <[slk := setRefs 1 newLock]> (heap st); locks := <[sector := slk]> (locks st);
               calls := <[c := Trying blocking slk sector read write]> (calls st) |}
    end.

(** A round of [lock], or [tryLockSafe]. *)
Definition attemptLock (c : nat) (st : state) : option state :=
  match calls st !! c with
  | Some (Trying blocking slk sector read write) =>
      match heap st !! slk with
      | Some l =>
          match tryLock l read write with
          | Some l => Some (setCall c (Holding slk sector read write) (setLock slk l st))
          | None => if blocking then Some st else Some (setCall c Refused st)
          end
      | None => None
      end
  | _ => None
  end.

(** [cond.Wait] returns the error of the context. *)
Definition cancelWait (c : nat) (st : state) : option state :=
  match calls st !! c with
  | Some (Trying true _ _ _ _) => Some (setCall c Refused st)
  | _ => None
  end.

(** The goroutine of [lockWith] after the context is done. *)
Definition release (c : nat) (st : state) : option state :=
  match calls st !! c with
  | Some (Holding slk sector read write) =>
      match heap st !! slk with
      | Some l =>
          let l := unlock l read write in
          let l := setRefs (refs l - 1) l in
          Some {| heap := <[slk := l]> (heap st);
                  locks := if refs l =? 0 then delete sector (locks st) else locks st;
                  calls := <[c := Released]> (calls st) |}
      | None => None
      end
  | _ => None
  end.

Inductive action :=
  | Enter (c : nat) (blocking : bool) (sector : SectorID) (read write : SectorFileType)
  | AttemptLock (c : nat)
  | CancelWait (c : nat)
  | Release (c : nat).

(** [None]: the step is not possible. *)
Definition step (a : action) (st : state) : option state :=
  match a with
  | Enter c blocking sector read write =>
      match calls st !! c with
      | None => match enter c blocking sector read write st with Ret st' => Some st' | Err _ => Some st | Panic => None end
      | Some _ => None
      end
  | AttemptLock c => attemptLock c st
  | CancelWait c => cancelWait c st
  | Release c => release c st
  end.

Fixpoint run (acts : list action) (st : state) : option state :=
  match acts with
  | [] => Some st
  | a :: acts => match step a st with Some st' => run acts st' | None => None end
  end.

(** ** Bits *)

Definition bit (t : SectorFileType) (i : nat) : bool := Z.testbit t (Z.of_nat i).

Lemma land_bit t i : 0 <= i -> (0 <? Z.land t (Z.shiftl 1 i)) = Z.testbit t i.
Proof.
  intros Hi. rewrite Z.shiftl_1_l. replace (Z.land t (2 ^ i)) with (Z.b2z (Z.testbit t i) * 2 ^ i).
  - destruct (Z.testbit t i); cbn [Z.b2z]; [apply Z.ltb_lt; lia|apply Z.ltb_ge; lia].
  - apply Z.bits_inj'. intros n Hn. rewrite Z.land_spec, Z.pow2_bits_eqb by done.
    destruct (Z.eqb_spec i n) as [->|Hne].
    + rewrite Z.mul_pow2_bits by done. rewrite Z.sub_diag, andb_true_r. by destruct (Z.testbit t n).
    + rewrite andb_false_r. destruct (Z.testbit t i); cbn [Z.b2z]; [|by rewrite Z.bits_0].
      rewrite Z.mul_1_l, Z.pow2_bits_eqb by done. by apply Z.eqb_neq.
Qed.

Lemma All_lookup t i : (i < FileTypes)%nat -> All t !! i = Some (bit t i).
Proof.
  intros Hi. unfold All. rewrite list_lookup_fmap, lookup_seq_lt by done. cbn [fmap option_fmap option_map].
  by rewrite land_bit by lia.
Qed.

Lemma length_All t : length (All t) = FileTypes.
Proof. unfold All. by rewrite length_fmap, length_seq. Qed.

Lemma land_zero_bit a b i : Z.land a b = 0 -> bit a i = true -> bit b i = false.
Proof.
  intros E Ha. assert (Z.testbit (Z.land a b) (Z.of_nat i) = false) as Hb by (by rewrite E, Z.bits_0).
  rewrite Z.land_spec in Hb. unfold bit in *. rewrite Ha in Hb. done.
Qed.

(** ** Who uses a lock *)

Definition count (b : bool) : Z := if b then 1 else 0.

Definition active (id : nat) (x : call) : Z :=
  match x with
  | Trying _ slk _ _ _ | Holding slk _ _ _ => count (Nat.eqb slk id)
  | _ => 0
  end.

Definition holding (id : nat) (test : SectorFileType -> SectorFileType -> bool) (x : call) : Z :=
  match x with
  | Holding slk _ read write => count (Nat.eqb slk id && test read write)
  | _ => 0
  end.

Definition reads (i : nat) (read write : SectorFileType) : bool := bit read i.
Definition writes (i : nat) (read write : SectorFileType) : bool := bit write i.
Definition onlyReads (i : nat) (read write : SectorFileType) : bool := bit read i && negb (bit write i).

Record lock_ok (id : nat) (l : sectorLock) (cs : gmap nat call) : Prop := {
  lock_len : length (lr l) = FileTypes;
  lock_refs : map_sum (active id) cs <= refs l;
  lock_reads : forall i, (i < FileTypes)%nat -> lr l !! i = Some (map_sum (holding id (reads i)) cs);
  lock_writes : forall i, (i < FileTypes)%nat -> map_sum (holding id (writes i)) cs = count (bit (lw l) i);
  lock_excl : forall i, (i < FileTypes)%nat -> bit (lw l) i = true -> map_sum (holding id (onlyReads i)) cs = 0;
  lock_known : forall i, (FileTypes <= i)%nat -> bit (lw l) i = false;
}.

(** The lock of a call, and its sector. *)
Definition uses (x : call) : option (nat * SectorID) :=
  match x with
  | Trying _ slk sector _ _ | Holding slk sector _ _ => Some (slk, sector)
  | _ => None
  end.

Record inv (st : state) : Prop := {
  inv_locks : forall sector id, locks st !! sector = Some id -> exists l, heap st !! id = Some l /\ lock_ok id l (calls st);
  inv_inj : forall s1 s2 id, locks st !! s1 = Some id -> locks st !! s2 = Some id -> s1 = s2;
  inv_uses : forall c x id sector, calls st !! c = Some x -> uses x = Some (id, sector) -> locks st !! sector = Some id;
  inv_known : forall c b id sector read write i, calls st !! c = Some (Trying b id sector read write) -> (FileTypes <= i)%nat -> bit write i = false;
}.

Lemma active_nonneg id x : 0 <= active id x.
Proof. destruct x as [? slk ? ? ?|slk ? ? ?| |]; cbn; try lia; destruct (Nat.eqb slk id); cbn; lia. Qed.

Lemma holding_nonneg id test x : 0 <= holding id test x.
Proof. destruct x as [? slk ? ? ?|slk ? read write| |]; cbn; try lia. destruct (Nat.eqb slk id && test read write); cbn; lia. Qed.

Lemma holding_other id test x : (forall sector, uses x <> Some (id, sector)) -> holding id test x = 0.
Proof.
  intros Hu. destruct x as [? slk s ? ?|slk s read write| |]; cbn; try done.
  destruct (Nat.eqb_spec slk id) as [->|]; [|done]. by destruct (Hu s).
Qed.

Lemma active_other id x : (forall sector, uses x <> Some (id, sector)) -> active id x = 0.
Proof.
  intros Hu. destruct x as [? slk s ? ?|slk s read write| |]; cbn; try done.
  all: destruct (Nat.eqb_spec slk id) as [->|]; [|done]; by destruct (Hu s).
Qed.

(** A call that does not use the lock, before and after, does not change it. *)
Lemma lock_ok_other id l cs c x :
  lock_ok id l cs -> from_option (active id) 0 (cs !! c) = 0 -> (forall test, from_option (holding id test) 0 (cs !! c) = 0) ->
  (forall sector, uses x <> Some (id, sector)) -> lock_ok id l (<[c := x]> cs).
Proof.
  intros [Hl Hr Hrd Hw He Hkn] Ha Hh Hx. split; try done.
  - rewrite map_sum_update, Ha, active_other by done. lia.
  - intros i Hi. rewrite map_sum_update, Hh, holding_other by done. rewrite Hrd by done. f_equal. lia.
  - intros i Hi. rewrite map_sum_update, Hh, holding_other by done. rewrite <- Hw by done. lia.
  - intros i Hi Hb. rewrite map_sum_update, Hh, holding_other by done. rewrite He by done. lia.
Qed.

Lemma lock_ok_more_refs id l cs c x :
  lock_ok id l cs -> cs !! c = None -> (forall test, holding id test x = 0) -> active id x <= 1 ->
  lock_ok id (setRefs (refs l + 1) l) (<[c := x]> cs).
Proof.
  intros [Hl Hr Hrd Hw He Hkn] Hc Hh Ha. split; cbn; try done.
  - rewrite map_sum_insert by done. lia.
  - intros i Hi. rewrite map_sum_insert, Hh by done. by apply Hrd.
  - intros i Hi. rewrite map_sum_insert, Hh by done. by apply Hw.
  - intros i Hi Hb. rewrite map_sum_insert, Hh by done. by apply He.
Qed.

(** ** Taking and releasing *)

Lemma canLock_spec l read write i :
  canLock l read write = true -> (i < FileTypes)%nat ->
  (bit write i = true -> forall n, lr l !! i = Some n -> n <= 0) /\
  (bit (lw l) i = true -> bit read i = false /\ bit write i = false).
Proof.
  unfold canLock. destruct (existsb _ _) eqn:Ee; [done|]. intros [Hr%Z.eqb_eq Hw%Z.eqb_eq]%andb_true_iff Hi. split.
  - intros Hb n Hn. apply Z.nlt_ge. intros Hlt. apply not_true_iff_false in Ee. apply Ee, existsb_exists. exists (true, n).
    split; [|by apply Z.ltb_lt]. apply list_elem_of_In, list_elem_of_lookup. exists i.
    apply lookup_zip_Some. split; [by rewrite All_lookup, Hb|done].
  - intros Hb. split; by eapply land_zero_bit.
Qed.

Lemma lookup_update (g : Z -> Z) t ns i n :
  (i < FileTypes)%nat -> ns !! i = Some n ->
  zip_with (fun (set : bool) n => if set then g n else n) (All t) ns !! i = Some (if bit t i then g n else n).
Proof. intros Hi Hn. rewrite lookup_zip_with, All_lookup, Hn by done. done. Qed.

Lemma bit_lor a b i : bit (Z.lor a b) i = bit a i || bit b i.
Proof. apply Z.lor_spec. Qed.

Lemma bit_clear a b i : bit (Z.land a (Z.lnot b)) i = bit a i && negb (bit b i).
Proof. unfold bit. by rewrite Z.land_spec, Z.lnot_spec by lia. Qed.

Lemma onlyReads_le id i (cs : gmap nat call) : map_sum (holding id (onlyReads i)) cs <= map_sum (holding id (reads i)) cs.
Proof.
  induction cs as [|k x m Hk IH] using map_ind; [by rewrite !map_sum_empty|]. rewrite !map_sum_insert by done.
  assert (holding id (onlyReads i) x <= holding id (reads i) x); [|lia].
  destruct x as [? ? ? ? ?|slk ? read write| |]; cbn; try lia. unfold onlyReads, reads.
  destruct (Nat.eqb slk id), (bit read i), (bit write i); cbn; lia.
Qed.

Lemma tryLock_Some l read write l' :
  tryLock l read write = Some l' ->
  canLock l read write = true /\
  l' = {| lr := zip_with (fun (set : bool) n => if set then n + 1 else n) (All read) (lr l); lw := Z.lor (lw l) write; refs := refs l |}.
Proof. unfold tryLock. destruct (canLock l read write); cbn [negb]; [|done]. intros Ht. split; [done|]. congruence. Qed.

Lemma tryLock_ok id l l' cs c blocking sector read write :
  lock_ok id l cs -> tryLock l read write = Some l' -> cs !! c = Some (Trying blocking id sector read write) ->
  (forall i, (FileTypes <= i)%nat -> bit write i = false) -> lock_ok id l' (<[c := Holding id sector read write]> cs).
Proof.
  intros [Hl Hr Hrd Hw He Hkn] Ht Hc Hwr. apply tryLock_Some in Ht as [Ec ->].
  assert (forall test, map_sum (holding id test) (<[c := Holding id sector read write]> cs) = map_sum (holding id test) cs + count (test read write)) as Es.
  { intros test. rewrite map_sum_update, Hc. cbn. rewrite Nat.eqb_refl. cbn. lia. }
  split; cbn [lr lw refs].
  - rewrite length_zip_with, length_All, Hl. apply Nat.min_id.
  - rewrite map_sum_update, Hc. cbn. lia.
  - intros i Hi. rewrite (lookup_update (fun n => n + 1) _ _ _ _ Hi (Hrd i Hi)), Es. unfold reads. destruct (bit read i); cbn; f_equal; lia.
  - intros i Hi. destruct (canLock_spec l read write i Ec Hi) as [_ Hx]. rewrite Es, Hw, bit_lor by done. unfold writes.
    destruct (bit (lw l) i); [|by destruct (bit write i)]. by destruct (Hx eq_refl) as [_ ->].
  - intros i Hi. rewrite bit_lor. destruct (canLock_spec l read write i Ec Hi) as [Hz Hx]. rewrite Es. unfold onlyReads at 2.
    destruct (bit (lw l) i) eqn:Eb; cbn [orb]; intros Hb.
    + destruct (Hx eq_refl) as [-> _]. rewrite He by done. done.
    + rewrite Hb. cbn [negb]. rewrite andb_false_r. cbn. specialize (Hz Hb _ (Hrd i Hi)). pose proof (onlyReads_le id i cs).
      pose proof (map_sum_nonneg (holding id (onlyReads i)) cs (fun _ x _ => holding_nonneg id _ x)). lia.
  - intros i Hi. by rewrite bit_lor, Hkn, Hwr.
Qed.

Lemma unlock_ok id l cs c sector read write :
  lock_ok id l cs -> cs !! c = Some (Holding id sector read write) ->
  lock_ok id (setRefs (refs l - 1) (unlock l read write)) (<[c := Released]> cs).
Proof.
  intros [Hl Hr Hrd Hw He Hkn] Hc.
  assert (forall test, map_sum (holding id test) (<[c := Released]> cs) = map_sum (holding id test) cs - count (test read write)) as Es.
  { intros test. rewrite map_sum_update, Hc. cbn. rewrite Nat.eqb_refl. cbn. lia. }
  split; cbn [setRefs unlock lr lw refs].
  - rewrite length_zip_with, length_All, Hl. apply Nat.min_id.
  - rewrite map_sum_update, Hc. cbn. rewrite Nat.eqb_refl. cbn. lia.
  - intros i Hi. rewrite (lookup_update (fun n => n - 1) _ _ _ _ Hi (Hrd i Hi)), Es. unfold reads. destruct (bit read i); cbn; f_equal; lia.
  - intros i Hi. rewrite Es, bit_clear, Hw by done. unfold writes. destruct (bit (lw l) i) eqn:Eb, (bit write i) eqn:Ew; cbn; try lia.
    pose proof (map_sum_ge (holding id (writes i)) cs c _ (fun _ x _ => holding_nonneg id _ x) Hc) as Hge.
    rewrite Hw, Eb in Hge by done. cbn in Hge. rewrite Nat.eqb_refl in Hge. unfold writes in Hge. rewrite Ew in Hge. cbn in Hge. lia.
  - intros i Hi. rewrite bit_clear. intros [Hb _]%andb_true_iff. rewrite Es, He by done.
    pose proof (map_sum_ge (holding id (onlyReads i)) cs c _ (fun _ x _ => holding_nonneg id _ x) Hc) as Hge.
    rewrite He in Hge by done. cbn in Hge. rewrite Nat.eqb_refl in Hge. cbn [andb] in Hge. destruct (onlyReads i read write); cbn in *; lia.
  - intros i Hi. by rewrite bit_clear, Hkn.
Qed.

(** ** The invariant *)

Lemma no_calls_inv : inv init.
Proof. by split. Qed.

Lemma lock_ok_unused id : forall cs : gmap nat call, (forall c x sector, cs !! c = Some x -> uses x <> Some (id, sector)) -> lock_ok id newLock cs.
Proof.
  intros cs Hu. assert (forall test, map_sum (holding id test) cs = 0) as Hh.
  { intros test. apply map_sum_zero. intros c x Hx. apply holding_other. intros sector. by eapply Hu. }
  split; cbn [newLock lr lw refs]; rewrite ?length_replicate; try done.
  - rewrite map_sum_zero; [done|]. intros c x Hx. apply active_other. intros sector. by eapply Hu.
  - intros i Hi. rewrite Hh. by apply lookup_replicate_2.
  - intros i Hi. rewrite Hh. unfold bit. by rewrite Z.bits_0.
  - intros i Hi. unfold bit. by rewrite Z.bits_0.
Qed.

(** A step of call [c] on the lock [id] of [sector]. *)
Lemma inv_step_on st c x id sector l' :
  inv st -> locks st !! sector = Some id -> lock_ok id l' (<[c := x]> (calls st)) ->
  (forall x0 id' s', calls st !! c = Some x0 -> uses x0 = Some (id', s') -> id' = id) ->
  (forall id' s', uses x = Some (id', s') -> id' = id /\ s' = sector) ->
  (forall b id sector read write i, x = Trying b id sector read write -> (FileTypes <= i)%nat -> bit write i = false) ->
  inv (setCall c x (setLock id l' st)).
Proof.
  intros [Hl Hi Hu Hk] Hs Hl' Hold Hnew Hkn. split; cbn [setCall setLock heap locks calls].
  - intros s2 id2 H2. destruct (decide (id2 = id)) as [->|Hne]; [exists l'; split; [apply lookup_insert_eq|done]|].
    destruct (Hl s2 id2 H2) as (l2 & Hh & Ho). exists l2. split; [by rewrite lookup_insert_ne|].
    assert (forall x0 s', calls st !! c = Some x0 -> uses x0 <> Some (id2, s')) as Hx0.
    { intros x0 s' Hx0 E. by destruct (Hold x0 id2 s' Hx0 E). }
    apply lock_ok_other; [done| | |].
    + destruct (calls st !! c) as [x0|] eqn:E; [|done]. cbn. apply active_other. intros s'. by apply Hx0.
    + intros test. destruct (calls st !! c) as [x0|] eqn:E; [|done]. cbn. apply holding_other. intros s'. by apply Hx0.
    + intros s' E. by destruct (Hnew id2 s' E).
  - done.
  - intros c' x' id' s'. rewrite lookup_insert_Some. intros [[_ <-]|[_ Hx]] E; [|by eapply Hu]. by destruct (Hnew id' s' E) as [-> ->].
  - intros c' b id' s' read write i. rewrite lookup_insert_Some. intros [[_ E]|[_ Hx]] Hge; [by eapply Hkn|by eapply Hk].
Qed.

(** A call that ends without a lock. *)
Lemma inv_refuse st c : inv st -> (forall id test, from_option (holding id test) 0 (calls st !! c) = 0) -> inv (setCall c Refused st).
Proof.
  intros [Hl Hi Hu Hk] Hh. split; cbn [setCall heap locks calls]; try done.
  - intros s id Hs. destruct (Hl s id Hs) as (l & Hhp & [Hlen Hr Hrd Hw He Hkn]). exists l. split; [done|]. split; try done.
    + rewrite map_sum_update. cbn. destruct (calls st !! c) as [x|]; cbn; [pose proof (active_nonneg id x)|]; lia.
    + intros j Hj. rewrite map_sum_update, Hh. cbn. rewrite Z.sub_0_r, Z.add_0_r. by apply Hrd.
    + intros j Hj. rewrite map_sum_update, Hh. cbn. rewrite Z.sub_0_r, Z.add_0_r. by apply Hw.
    + intros j Hj Hb. rewrite map_sum_update, Hh. cbn. rewrite Z.sub_0_r, Z.add_0_r. by apply He.
  - intros c' x' id' s'. rewrite lookup_insert_Some. intros [[_ <-]|[_ Hx]] E; [done|by eapply Hu].
  - intros c' b id' s' read write j. rewrite lookup_insert_Some. intros [[_ E]|[_ Hx]] Hge; [done|by eapply Hk].
Qed.

Lemma known_bits read write i :
  0 <= read -> 0 <= write -> Z.lor read write <= 31 -> (FileTypes <= i)%nat -> bit write i = false.
Proof.
  intros Hr Hw Hle Hi. assert (0 <= Z.lor read write) as H0 by (by apply Z.lor_nonneg).
  assert (bit (Z.lor read write) i = false) as E.
  { unfold bit. rewrite <- (Z.mod_small (Z.lor read write) (2 ^ 5)) by (cbn; lia).
    apply Z.mod_pow2_bits_high. unfold FileTypes in Hi. lia. }
  rewrite bit_lor in E. by apply orb_false_iff in E as [_ ?].
Qed.

Lemma enter_inv c blocking sector read write st :
  inv st -> calls st !! c = None -> 0 <= read -> 0 <= write ->
  match enter c blocking sector read write st with Ret st' => inv st' | Err _ => True | Panic => False end.
Proof.
  intros HI Hc Hr Hw. unfold enter. destruct (_ =? 0).
  { apply inv_refuse; [done|]. intros id test. by rewrite Hc. }
  change (Z.shiftl 1 (Z.of_nat FileTypes) - 1) with 31. destruct (Z.ltb_spec 31 (Z.lor read write)) as [|Hle]; [done|].
  destruct (locks st !! sector) as [slk|] eqn:Es.
  - destruct (inv_locks st HI sector slk Es) as (l & -> & Ho). apply (inv_step_on st c _ slk sector); try done.
    + apply lock_ok_more_refs; try done. cbn. rewrite Nat.eqb_refl. done.
    + intros x0 id' s' Hx. congruence.
    + by intros id' s' [= <- <-].
    + intros b id s' rd wr i [= _ _ _ <- <-]. by apply (known_bits read write).
  - set (slk := fresh (dom (heap st))). assert (heap st !! slk = None) as Hf by (apply not_elem_of_dom, is_fresh).
    destruct HI as [Hl Hi Hu Hk].
    assert (forall s id, locks st !! s = Some id -> id <> slk) as Hne.
    { intros s id Hs ->. destruct (Hl s slk Hs) as (l & Hh & _). congruence. }
    split; cbn [heap locks calls].
    + intros s id. rewrite lookup_insert_Some. intros [[<- <-]|[_ Hs]].
      * exists (setRefs 1 newLock). split; [apply lookup_insert_eq|]. change 1 with (refs newLock + 1). apply lock_ok_more_refs; try done.
        -- apply lock_ok_unused. intros c' x s Hx E. by eapply Hne; [eapply Hu|].
        -- cbn. by rewrite Nat.eqb_refl.
      * destruct (Hl s id Hs) as (l & Hh & Ho). exists l. split; [rewrite lookup_insert_ne; [done|]; intros E; by eapply Hne|].
        apply lock_ok_other; [done|by rewrite Hc|intros test; by rewrite Hc|]. intros s' [= E _]. by eapply Hne.
    + intros s1 s2 id. rewrite !lookup_insert_Some. intros [[<- <-]|[? H1]] [[<- E]|[? H2]]; try done; [by destruct (Hne _ _ H2)|subst; by destruct (Hne _ _ H1)|by eapply Hi].
    + intros c' x id s. rewrite lookup_insert_Some. intros [[_ <-]|[_ Hx]] E; [injection E as <- <-; apply lookup_insert_eq|].
      rewrite lookup_insert_ne; [by eapply Hu|]. intros <-. pose proof (Hu _ _ _ _ Hx E). congruence.
    + intros c' b id s rd wr i. rewrite lookup_insert_Some. intros [[_ E]|[_ Hx]] Hge; [|by eapply Hk].
      injection E as _ _ _ <- <-. by apply (known_bits read write).
Qed.

Lemma attemptLock_inv c st st' : inv st -> attemptLock c st = Some st' -> inv st'.
Proof.
  intros HI. unfold attemptLock. destruct (calls st !! c) as [[blocking slk sector read write|? ? ? ?| |]|] eqn:Hc; try done.
  pose proof (inv_uses st HI c _ slk sector Hc eq_refl) as Hs. destruct (inv_locks st HI sector slk Hs) as (l & -> & Ho).
  destruct (tryLock l read write) as [l'|] eqn:Et.
  - intros [= <-]. apply (inv_step_on st c _ slk sector); try done.
    + eapply tryLock_ok; try done. intros i Hi. by eapply inv_known.
    + intros x0 id' s' Hx E. rewrite Hc in Hx. injection Hx as <-. by injection E as <- _.
    + by intros id' s' [= <- <-].
  - destruct blocking; intros [= <-]; [done|]. apply inv_refuse; [done|]. intros id test. by rewrite Hc.
Qed.

Lemma release_inv c st st' : inv st -> release c st = Some st' -> inv st'.
Proof.
  intros HI. unfold release. destruct (calls st !! c) as [[? ? ? ? ?|slk sector read write| |]|] eqn:Hc; try done.
  pose proof (inv_uses st HI c _ slk sector Hc eq_refl) as Hs. destruct (inv_locks st HI sector slk Hs) as (l & -> & Ho).
  set (l' := setRefs _ _). pose proof (unlock_ok slk l (calls st) c sector read write Ho Hc) as Ho'. fold l' in Ho'.
  assert (inv (setCall c Released (setLock slk l' st))) as HI'.
  { apply (inv_step_on st c _ slk sector); try done.
    intros x0 id' s' Hx E. rewrite Hc in Hx. injection Hx as <-. by injection E as <- _. }
  cbn [refs l' setRefs unlock] in *. intros [= <-]. destruct (Z.eqb_spec (refs l - 1) 0) as [Ez|]; [|done].
  destruct HI' as [Hl Hi Hu Hk]. cbn [setCall setLock heap locks calls] in *. split; cbn [heap locks calls].
  - intros s id. rewrite lookup_delete_Some. intros [_ H2]. by eapply Hl.
  - intros s1 s2 id. rewrite !lookup_delete_Some. intros [_ H1] [_ H2]. by eapply Hi.
  - intros c' x id s Hx E. rewrite lookup_delete_Some. split; [|by eapply Hu]. intros <-.
    pose proof (Hu _ _ _ _ Hx E) as Hs'. assert (id = slk) as -> by congruence.
    pose proof (map_sum_ge (active slk) _ c' x (fun _ y _ => active_nonneg slk y) Hx) as Hge.
    pose proof (lock_refs _ _ _ Ho') as Hr. cbn in Hr.
    destruct x as [? ? ? ? ?|? ? ? ?| |]; cbn in E, Hge; try done; injection E as -> ->; rewrite Nat.eqb_refl in Hge; cbn in Hge; lia.
  - done.
Qed.

(** ** Exclusion *)

(** Two requests that must not hold the lock of a sector together. *)
Definition conflicts (r1 w1 r2 w2 : SectorFileType) : Prop :=
  exists i, (i < FileTypes)%nat /\
    (bit w1 i = true /\ (bit r2 i = true \/ bit w2 i = true) \/ bit r1 i = true /\ bit w2 i = true).

Lemma holder_counts st c id sector read write (test : SectorFileType -> SectorFileType -> bool) :
  calls st !! c = Some (Holding id sector read write) -> test read write = true -> 1 <= map_sum (holding id test) (calls st).
Proof.
  intros Hc Ht. pose proof (map_sum_ge (holding id test) _ c _ (fun _ x _ => holding_nonneg id _ x) Hc) as Hge.
  cbn in Hge. by rewrite Nat.eqb_refl, Ht in Hge.
Qed.

(** The lock has the bits of a holder. *)
Lemma holder_writes st c id sector read write l i :
  lock_ok id l (calls st) -> calls st !! c = Some (Holding id sector read write) -> (i < FileTypes)%nat -> bit write i = true -> bit (lw l) i = true.
Proof.
  intros Ho Hc Hi Hb. pose proof (holder_counts st c id sector read write (writes i) Hc Hb) as Hge.
  rewrite (lock_writes _ _ _ Ho i Hi) in Hge. by destruct (bit (lw l) i).
Qed.

Lemma writer_alone st c1 c2 id sector r1 w1 r2 w2 i :
  inv st -> c1 <> c2 -> calls st !! c1 = Some (Holding id sector r1 w1) -> calls st !! c2 = Some (Holding id sector r2 w2) ->
  (i < FileTypes)%nat -> bit w1 i = true -> bit r2 i = false /\ bit w2 i = false.
Proof.
  intros HI Hne H1 H2 Hi Hw1. pose proof (inv_uses st HI c1 _ id sector H1 eq_refl) as Hs.
  destruct (inv_locks st HI sector id Hs) as (l & _ & Ho). pose proof (holder_writes st c1 id sector r1 w1 l i Ho H1 Hi Hw1) as Hl.
  assert (bit w2 i = false) as Hw2.
  { apply not_true_is_false. intros Hw2.
    pose proof (map_sum_ge2 (holding id (writes i)) _ c1 c2 _ _ (fun _ x _ => holding_nonneg id _ x) Hne H1 H2) as Hge.
    rewrite (lock_writes _ _ _ Ho i Hi), Hl in Hge. cbn in Hge. unfold writes in Hge. rewrite Nat.eqb_refl, Hw1, Hw2 in Hge. cbn in Hge. lia. }
  split; [|done]. apply not_true_is_false. intros Hr2.
  pose proof (holder_counts st c2 id sector r2 w2 (onlyReads i) H2) as Hge. rewrite (lock_excl _ _ _ Ho i Hi Hl) in Hge.
  unfold onlyReads in Hge. rewrite Hr2, Hw2 in Hge. specialize (Hge eq_refl). lia.
Qed.

Lemma holders_compatible st c1 c2 id1 id2 sector r1 w1 r2 w2 :
  inv st -> c1 <> c2 -> calls st !! c1 = Some (Holding id1 sector r1 w1) -> calls st !! c2 = Some (Holding id2 sector r2 w2) ->
  ~ conflicts r1 w1 r2 w2.
Proof.
  intros HI Hne H1 H2. pose proof (inv_uses st HI c1 _ id1 sector H1 eq_refl) as E1. pose proof (inv_uses st HI c2 _ id2 sector H2 eq_refl) as E2.
  assert (id2 = id1) as -> by congruence. intros (i & Hi & [[Hw1 Hc]|[Hr1 Hw2]]).
  - destruct (writer_alone st c1 c2 id1 sector r1 w1 r2 w2 i) as [? ?]; try done. destruct Hc; congruence.
  - destruct (writer_alone st c2 c1 id1 sector r2 w2 r1 w1 i) as [? ?]; try done. congruence.
Qed.

Lemma counted_holder st id test :
  0 < map_sum (holding id test) (calls st) ->
  exists c sector read write, calls st !! c = Some (Holding id sector read write) /\ test read write = true.
Proof.
  intros (c & x & Hx & Hp)%map_sum_pos. destruct x as [? ? ? ? ?|slk sector read write| |]; cbn in Hp; try lia.
  destruct (Nat.eqb_spec slk id) as [->|]; [|cbn in Hp; lia]. exists c, sector, read, write. split; [done|]. by destruct (test read write).
Qed.

(** A request can be granted exactly when no holder conflicts with it. *)
Lemma canLock_iff st sector id l read write :
  inv st -> locks st !! sector = Some id -> heap st !! id = Some l -> lock_ok id l (calls st) ->
  canLock l read write = true <->
  forall c id2 r2 w2, calls st !! c = Some (Holding id2 sector r2 w2) -> ~ conflicts read write r2 w2.
Proof.
  intros HI Hs Hh Ho. split.
  - intros Hc c id2 r2 w2 Hx (i & Hi & Hcf). assert (id2 = id) as -> by (pose proof (inv_uses st HI c _ id2 sector Hx eq_refl); congruence).
    destruct (canLock_spec l read write i Hc Hi) as [Hz Hb]. destruct Hcf as [[Hw [Hr2|Hw2]]|[Hr Hw2]].
    + pose proof (Hz Hw _ (lock_reads _ _ _ Ho i Hi)) as Hle. pose proof (holder_counts st c id sector r2 w2 (reads i) Hx Hr2). lia.
    + destruct (Hb (holder_writes st c id sector r2 w2 l i Ho Hx Hi Hw2)). congruence.
    + destruct (Hb (holder_writes st c id sector r2 w2 l i Ho Hx Hi Hw2)). congruence.
  - intros Hn.
    assert (forall i test, (i < FileTypes)%nat -> 0 < map_sum (holding id test) (calls st) ->
      exists r2 w2, test r2 w2 = true /\ ~ conflicts read write r2 w2) as Hex.
    { intros i test Hi (c & s2 & r2 & w2 & Hx & Ht)%counted_holder. exists r2, w2. split; [done|].
      pose proof (inv_uses st HI c _ id s2 Hx eq_refl) as Hs2. assert (s2 = sector) as -> by (by eapply inv_inj). by eapply Hn. }
    assert (forall t, (forall i, (i < FileTypes)%nat -> bit (lw l) i = true -> bit t i = false) -> (Z.land (lw l) t =? 0) = true) as Hland.
    { intros t Ht. apply Z.eqb_eq, Z.bits_inj'. intros n Hn0. rewrite Z.land_spec, Z.bits_0. replace n with (Z.of_nat (Z.to_nat n)) by lia.
      destruct (decide (Z.to_nat n < FileTypes)%nat) as [Hlt|Hge]; [|pose proof (lock_known _ _ _ Ho (Z.to_nat n) ltac:(lia)) as E; unfold bit in E; by rewrite E].
      destruct (Z.testbit (lw l) _) eqn:E; [|done]. by apply (Ht (Z.to_nat n)). }
    assert (forall i, (i < FileTypes)%nat -> bit (lw l) i = true -> bit read i = false /\ bit write i = false) as Hw.
    { intros i Hi Hb. destruct (Hex i (writes i) Hi) as (r2 & w2 & Ht & Hcf); [rewrite (lock_writes _ _ _ Ho i Hi), Hb; done|].
      unfold writes in Ht. split; apply not_true_is_false; intros E; apply Hcf; exists i; auto. }
    unfold canLock. destruct (existsb _ _) eqn:Ee.
    + exfalso. apply existsb_exists in Ee as ([b n] & Hin & [Hb Hlt%Z.ltb_lt]%andb_true_iff). subst b.
      apply list_elem_of_In, list_elem_of_lookup in Hin as [i Hin]. apply lookup_zip_Some in Hin as [Ha Hr].
      assert (i < FileTypes)%nat as Hi by (rewrite <- (length_All write); by eapply lookup_lt_Some).
      rewrite All_lookup in Ha by done. injection Ha as Ha. rewrite (lock_reads _ _ _ Ho i Hi) in Hr. injection Hr as <-.
      destruct (Hex i (reads i) Hi Hlt) as (r2 & w2 & Ht & Hcf). apply Hcf. exists i. auto.
    + apply andb_true_iff. split; apply Hland; intros i Hi Hb; by apply Hw.
Qed.

(** ** Runs *)

Definition action_ok (a : action) : Prop :=
  match a with Enter _ _ _ read write => 0 <= read /\ 0 <= write | _ => True end.

Lemma step_inv a st st' : action_ok a -> inv st -> step a st = Some st' -> inv st'.
Proof.
  intros Ha HI. destruct a as [c blocking sector read write|c|c|c]; cbn [step].
  - destruct (calls st !! c) eqn:Hc; [done|]. destruct Ha as [Hr Hw].
    pose proof (enter_inv c blocking sector read write st HI Hc Hr Hw) as HE. destruct (enter _ _ _ _ _ _); [by intros [= <-]|by intros [= <-]|done].
  - by apply attemptLock_inv.
  - unfold cancelWait. destruct (calls st !! c) as [[[] ? ? ? ?|? ? ? ?| |]|] eqn:Hc; try done. intros [= <-]. apply inv_refuse; [done|].
    intros id test. by rewrite Hc.
  - by apply release_inv.
Qed.

Lemma run_inv acts st st' : Forall action_ok acts -> inv st -> run acts st = Some st' -> inv st'.
Proof.
  intros Ha. revert st. induction Ha as [|a acts Ha Has IH]; intros st HI; cbn [run]; [by intros [= <-]|].
  destruct (step a st) as [st1|] eqn:E; [|done]. apply IH. by eapply step_inv.
Qed.


(** ** Concrete runs *)

(** A reader, and a writer that waits for it. *)
Definition demoActs : list action :=
  [Enter 1 true (1, 7) 3 0; AttemptLock 1; Enter 2 true (1, 7) 0 1; AttemptLock 2].


(** A refused attempt keeps its reference: after the holder is gone, the table keeps the lock. *)
Lemma refused_call_leaks :
  exists st, run [Enter 1 false (1, 7) 0 1; AttemptLock 1; Enter 2 false (1, 7) 0 1; AttemptLock 2; Release 1] init = Some st /\
    calls st !! 1%nat = Some Released /\ calls st !! 2%nat = Some Refused /\ is_Some (locks st !! (1, 7)).
Proof. eexists. split; [vm_compute; reflexivity|]. split; [reflexivity|]. split; [reflexivity|]. by eexists. Qed.
