(* ===== verification/ChangeHandler.v ===== *)
(** * Window PoSt scheduling: storage/wdpost/wdpost_changehandler.go

    On every new head the prover starts to generate the proofs of the next deadline that has
    none, and the submitter submits the proofs of open deadlines.  The two run as goroutines;
    a step of the model is one turn of either loop, and the results of the commands they start
    arrive at any later time.  Objects that the source shares by pointer (a running proof, the
    window of a deadline, a running submission) have numbers.

    The channel of new proofs holds 16 elements in the source, and the prover waits when it is
    full; here it is not bounded.  The notifications [recordPoStFailure] and [onAbort] and the
    shutdown are left out.

    The deadlines come from [go-state-types/dline] and the builtin actors, and are the
    operations of [Deadlines]. *)

From S2P Require Import Prelude TipSet.

Definition SubmitConfidence : Z := 4.
Definition ChallengeConfidence : Z := 1.

(** [dline.Info], the fields that are used. *)
Record Info := {
  CurrentEpoch : Z;
  PeriodStart : Z;
  Index : Z;
  Open : Z;
  Close : Z;
  Challenge : Z;
}.

Class Deadlines := {
  WPoStPeriodDeadlines : Z;
  WPoStProvingPeriod : Z;
  (** [dline.NewInfo] with the parameters of the builtin actors *)
  dline_NewInfo : Z -> Z -> Z -> Info;
  PeriodStarted : Info -> bool;
}.

Inductive SubmitState := SubmitStateStart | SubmitStateSubmitting | SubmitStateComplete.

#[export] Instance SubmitState_eq_dec : EqDecision SubmitState.
Proof. solve_decision. Defined.

Section handler.
Context `{Deadlines} {Params : Type}.

(** ** Data *)

(** A call of [startGeneratePoST], and what became of it. *)
Record gen := {
  g_ts : TipSet;
  g_di : Info;
  g_aborted : bool;
  g_over : bool;
  g_posts : option (list Params); (* after success *)
}.

(** A call of [startSubmitPoST]. *)
Record sub := {
  s_pw : nat;
  s_ts : TipSet;
  s_di : Info;
  s_posts : list Params;
  s_aborted : bool;
  s_over : bool;
}.

Record postWindow := {
  pw_ts : TipSet;
  pw_di : Info;
  submitState : SubmitState;
  abort : option nat; (* the submission that is cancelled *)
}.

(** The caches and channels, the prover, the submitter, and the commands started so far. *)
Record handler := {
  cache : gmap Z (list Params);
  added : list (Info * list Params);
  current : option (nat * Info);
  gens : gmap nat gen;
  postWindows : gmap Z nat;
  pws : gmap nat postWindow;
  currentTS : option TipSet;
  currentDI : option Info;
  subs : gmap nat sub;
}.

Definition newHandler : handler := {|
  cache := ∅; added := []; current := None; gens := ∅; postWindows := ∅; pws := ∅; currentTS := None; currentDI := None; subs := ∅;
|}.

(** ** Writing fields *)

Definition setProver (cur : option (nat * Info)) (gs : gmap nat gen) (h : handler) : handler :=
  {| cache := cache h; added := added h; current := cur; gens := gs; postWindows := postWindows h; pws := pws h;
     currentTS := currentTS h; currentDI := currentDI h; subs := subs h |}.

Definition setPosts (c : gmap Z (list Params)) (a : list (Info * list Params)) (h : handler) : handler :=
  {| cache := c; added := a; current := current h; gens := gens h; postWindows := postWindows h; pws := pws h;
     currentTS := currentTS h; currentDI := currentDI h; subs := subs h |}.

Definition setHead (ts : TipSet) (di : Info) (h : handler) : handler :=
  {| cache := cache h; added := added h; current := current h; gens := gens h; postWindows := postWindows h; pws := pws h;
     currentTS := Some ts; currentDI := Some di; subs := subs h |}.

Definition setWindow (open : Z) (id : nat) (pw : postWindow) (h : handler) : handler :=
  {| cache := cache h; added := added h; current := current h; gens := gens h; postWindows := <[open := id]> (postWindows h);
     pws := <[id := pw]> (pws h); currentTS := currentTS h; currentDI := currentDI h; subs := subs h |}.

Definition setPW (id : nat) (pw : postWindow) (h : handler) : handler :=
  {| cache := cache h; added := added h; current := current h; gens := gens h; postWindows := postWindows h;
     pws := <[id := pw]> (pws h); currentTS := currentTS h; currentDI := currentDI h; subs := subs h |}.

Definition setSub (id : nat) (s : sub) (h : handler) : handler :=
  {| cache := cache h; added := added h; current := current h; gens := gens h; postWindows := postWindows h; pws := pws h;
     currentTS := currentTS h; currentDI := currentDI h; subs := <[id := s]> (subs h) |}.

Definition withState (st : SubmitState) (ab : option nat) (pw : postWindow) : postWindow :=
  {| pw_ts := pw_ts pw; pw_di := pw_di pw; submitState := st; abort := ab |}.

Definition abortGen (id : nat) (gs : gmap nat gen) : gmap nat gen :=
  alter (fun g => {| g_ts := g_ts g; g_di := g_di g; g_aborted := true; g_over := g_over g; g_posts := g_posts g |}) id gs.

Definition abortSub (id : nat) (h : handler) : handler :=
  match subs h !! id with
  | Some s => setSub id {| s_pw := s_pw s; s_ts := s_ts s; s_di := s_di s; s_posts := s_posts s; s_aborted := true; s_over := s_over s |} h
  | None => h
  end.

(** ** Deadlines *)

Definition NewDeadlineInfo (periodStart deadlineIdx currEpoch : Z) : Info := dline_NewInfo periodStart deadlineIdx currEpoch.

Definition nextDeadline (currentDeadline : Info) : Info :=
  let newDeadline := Index currentDeadline + 1 in
  if newDeadline =? WPoStPeriodDeadlines
  then NewDeadlineInfo (PeriodStart currentDeadline + WPoStProvingPeriod) 0 (CurrentEpoch currentDeadline)
  else NewDeadlineInfo (PeriodStart currentDeadline) newDeadline (CurrentEpoch currentDeadline).

(** The first deadline from [di] on without proofs; [n] is the number of deadlines with
    proofs, after which there is one. *)
Fixpoint firstIncomplete (n : nat) (c : gmap Z (list Params)) (di : Info) : option Info :=
  match c !! Open di with
  | None => Some di
  | Some _ => match n with O => None | S n => firstIncomplete n c (nextDeadline di) end
  end.

(** ** The prover *)

Definition prove_expire (newTS : TipSet) (h : handler) : handler :=
  match current h with
  | Some (id, di) => if Close di <=? height newTS then setProver None (abortGen id (gens h)) h else h
  | None => h
  end.

Definition prove_processHeadChange (newTS : TipSet) (di : Info) (h : handler) : outcome handler :=
  let h := prove_expire newTS h in
  match current h with
  | Some _ => Ret h
  | None =>
      match firstIncomplete (size (cache h)) (cache h) di with
      | None => Panic (* the loop does not end *)
      | Some di =>
          if height newTS <? Challenge di + ChallengeConfidence then Ret h
          else
            let id := fresh (dom (gens h)) in
            let g := {| g_ts := newTS; g_di := di; g_aborted := false; g_over := false; g_posts := None |} in
            Ret (setProver (Some (id, di)) (<[id := g]> (gens h)) h)
      end
  end.

(** [c.cache[di.Open] = posts] and the message to the submitter. *)
Definition posts_add (di : Info) (posts : list Params) (h : handler) : handler :=
  setPosts (<[Open di := posts]> (cache h)) (added h ++ [(di, posts)]) h.

(** The result of proof [id]: proofs, or [None] for an error. *)
Definition processPostResult (id : nat) (res : option (list Params)) (h : handler) : outcome handler :=
  match gens h !! id with
  | None => Panic
  | Some g =>
      let g' := {| g_ts := g_ts g; g_di := g_di g; g_aborted := g_aborted g; g_over := true; g_posts := res |} in
      let gs := <[id := g']> (gens h) in
      match res with
      | None => Ret (setProver (match current h with Some (c, di) => if Nat.eqb c id then None else Some (c, di) | None => None end) gs h)
      | Some posts => Ret (posts_add (g_di g) posts (setProver None gs h))
      end
  end.

(** ** The submitter *)

Definition submitIfReady (advance : TipSet) (id : nat) (pw : postWindow) (h : handler) : handler :=
  if Close (pw_di pw) <=? height advance then h
  else if negb (bool_decide (submitState pw = SubmitStateStart)) then h
  else if height advance <? Open (pw_di pw) + SubmitConfidence then h
  else
    match cache h !! Open (pw_di pw) with
    | None => h
    | Some [] => setPW id (withState SubmitStateComplete (abort pw) pw) h
    | Some posts =>
        let s := fresh (dom (subs h)) in
        setSub s {| s_pw := id; s_ts := advance; s_di := pw_di pw; s_posts := posts; s_aborted := false; s_over := false |}
          (setPW id (withState SubmitStateSubmitting (Some s) pw) h)
    end.

Definition processHeadChangeForPW (revert : option TipSet) (advance : TipSet) (id : nat) (h : handler) : outcome handler :=
  match pws h !! id with
  | None => Panic
  | Some pw =>
      let revertedToPrevDL := match revert with Some r => height r <? Open (pw_di pw) | None => false end in
      let expired := Close (pw_di pw) <=? height advance in
      if bool_decide (submitState pw = SubmitStateSubmitting) && (revertedToPrevDL || expired) then
        match abort pw with
        | Some s =>
            let pw' := {| pw_ts := advance; pw_di := pw_di pw; submitState := SubmitStateStart; abort := None |} in
            let id' := fresh (dom (pws h)) in
            Ret (submitIfReady advance id' pw' (abortSub s (setWindow (Open (pw_di pw)) id' pw' h)))
        | None => Ret (submitIfReady advance id pw h)
        end
      else if bool_decide (submitState pw = SubmitStateComplete) && revertedToPrevDL then
        let pw' := withState SubmitStateStart (abort pw) pw in
        Ret (submitIfReady advance id pw' (setPW id pw' h))
      else Ret (submitIfReady advance id pw h)
  end.

(** Start tracking the window of the deadline. *)
Definition trackWindow (advance : TipSet) (di : Info) (h : handler) : handler :=
  match postWindows h !! Open di with
  | Some _ => h
  | None =>
      setWindow (Open di) (fresh (dom (pws h)))
        {| pw_ts := advance; pw_di := di; submitState := SubmitStateStart; abort := None |} h
  end.

Fixpoint processHeadChangeForPWs (revert : option TipSet) (advance : TipSet) (windows : list (Z * nat)) (h : handler) : outcome handler :=
  match windows with
  | [] => Ret h
  | (_, id) :: windows => h ← processHeadChangeForPW revert advance id h; processHeadChangeForPWs revert advance windows h
  end.

(** The windows are visited in the order of the iteration over the map, given by [order]. *)
Definition submit_processHeadChange (order : list (Z * nat) -> list (Z * nat)) (revert : option TipSet) (advance : TipSet)
    (di : Info) (h : handler) : outcome handler :=
  let h := trackWindow advance di (setHead advance di h) in
  processHeadChangeForPWs revert advance (order (map_to_list (postWindows h))) h.

(** The message about new proofs that is first in the channel. *)
Definition processPostReady (h : handler) : outcome handler :=
  match added h with
  | [] => Panic (* nothing to receive *)
  | (di, _) :: rest =>
      let h := setPosts (cache h) rest h in
      match postWindows h !! Open di with
      | None => Ret h
      | Some id =>
          match pws h !! id, currentTS h with
          | Some pw, Some ts => Ret (submitIfReady ts id pw h)
          | _, _ => Panic
          end
      end
  end.

(** The result of submission [id]. *)
Definition processSubmitResult (id : nat) (ok : bool) (h : handler) : outcome handler :=
  match subs h !! id with
  | None => Panic
  | Some s =>
      let s' := {| s_pw := s_pw s; s_ts := s_ts s; s_di := s_di s; s_posts := s_posts s; s_aborted := s_aborted s; s_over := true |} in
      match pws h !! s_pw s with
      | None => Panic
      | Some pw =>
          Ret (setSub id s' (setPW (s_pw s) (withState (if ok then SubmitStateComplete else SubmitStateStart) (abort pw) pw) h))
      end
  end.

(** ** The change handler *)

(** [update]: the head change that is sent to both, if any.  The lookup of the deadline is
    [proving]. *)
Definition update (proving : TipSetKey -> outcome Info) (revert : option TipSet) (advance : TipSet) :
    outcome (option (option TipSet * TipSet * Info)) :=
  di ← proving (Key (Some advance));
  if negb (PeriodStarted di) then Ret None else Ret (Some (revert, advance, di)).

Inductive event :=
  | ProveHead (newTS : TipSet) (di : Info)
  | PostResult (id : nat) (res : option (list Params))
  | SubmitHead (order : list (Z * nat) -> list (Z * nat)) (revert : option TipSet) (advance : TipSet) (di : Info)
  | PostReady
  | SubmitResult (id : nat) (ok : bool).

(** What can happen: every command reports once, and the channel has something to receive. *)
Definition enabled (e : event) (h : handler) : bool :=
  match e with
  | PostResult id _ => match gens h !! id with Some g => negb (g_over g) | None => false end
  | SubmitResult id _ => match subs h !! id with Some s => negb (s_over s) | None => false end
  | PostReady => match added h with [] => false | _ => true end
  | _ => true
  end.

Definition handle (e : event) (h : handler) : outcome handler :=
  match e with
  | ProveHead newTS di => prove_processHeadChange newTS di h
  | PostResult id res => processPostResult id res h
  | SubmitHead order revert advance di => submit_processHeadChange order revert advance di h
  | PostReady => processPostReady h
  | SubmitResult id ok => processSubmitResult id ok h
  end.

(** A run; an event that cannot happen is skipped. *)
Fixpoint runEvents (es : list event) (h : handler) : outcome handler :=
  match es with
  | [] => Ret h
  | e :: es => if enabled e h then h ← handle e h; runEvents es h else runEvents es h
  end.
End handler.
Arguments event Params : clear implicits.
Arguments handler Params : clear implicits.
