(* ===== verification/ChangeHandlerProps.v ===== *)
(** * Properties of the window PoSt scheduling

    In every interleaving of head changes, finished proofs and finished submissions a deadline
    has at most one running submission, and what is submitted are proofs that were generated
    for that deadline, while it is open and after the confidence delay. *)

From S2P Require Import Prelude TipSet ChangeHandler.

(** What the package of deadlines documents: they follow each other. *)
Class DeadlinesOk `{Deadlines} := {
  challengeWindow : Z;
  window_pos : 0 < challengeWindow;
  deadlines_pos : 0 < WPoStPeriodDeadlines;
  period_len : WPoStProvingPeriod = WPoStPeriodDeadlines * challengeWindow;
  NewInfo_start ps i e : PeriodStart (dline_NewInfo ps i e) = ps;
  NewInfo_index ps i e : Index (dline_NewInfo ps i e) = i;
  NewInfo_open ps i e : Open (dline_NewInfo ps i e) = ps + i * challengeWindow;
}.

Section props.
Context `{DeadlinesOk} {Params : Type}.
Implicit Types (h : handler Params).

(** ** Deadlines *)

Definition info_ok (di : Info) : Prop :=
  0 <= Index di < WPoStPeriodDeadlines /\ Open di = PeriodStart di + Index di * challengeWindow.

Lemma nextDeadline_ok di : info_ok di -> info_ok (nextDeadline di) /\ Open (nextDeadline di) = Open di + challengeWindow.
Proof.
  intros [Hi Ho]. unfold nextDeadline, NewDeadlineInfo, info_ok. pose proof deadlines_pos. pose proof period_len as Hp.
  destruct (Z.eqb_spec (Index di + 1) WPoStPeriodDeadlines) as [E|Hne]; rewrite NewInfo_index, NewInfo_open, NewInfo_start.
  - rewrite Hp, Ho, <- E. split; [split; lia|lia].
  - rewrite Ho. split; [split; lia|lia].
Qed.

Lemma firstIncomplete_cases n (c : gmap Z (list Params)) di :
  info_ok di ->
  (exists di', firstIncomplete n c di = Some di') \/
  (forall i, (i <= n)%nat -> is_Some (c !! (Open di + Z.of_nat i * challengeWindow))).
Proof.
  revert di. induction n as [|n IH]; intros di Hdi; cbn [firstIncomplete]; destruct (c !! Open di) eqn:E; eauto.
  - right. intros i Hi. replace i with 0%nat by lia. rewrite Z.mul_0_l, Z.add_0_r. by eexists.
  - destruct (nextDeadline_ok di Hdi) as [Hn Ho]. destruct (IH _ Hn) as [?|Hs]; [by left|right].
    intros [|i] Hi; [rewrite Z.mul_0_l, Z.add_0_r; by eexists|]. specialize (Hs i ltac:(lia)). rewrite Ho in Hs.
    by replace (Open di + Z.of_nat (S i) * challengeWindow) with (Open di + challengeWindow + Z.of_nat i * challengeWindow) by lia.
Qed.

(** The loop over the deadlines with proofs ends. *)
Lemma firstIncomplete_ends (c : gmap Z (list Params)) di : info_ok di -> exists di', firstIncomplete (size c) c di = Some di'.
Proof.
  intros Hdi. destruct (firstIncomplete_cases (size c) c di Hdi) as [?|Hs]; [done|]. exfalso. pose proof window_pos.
  cut (S (size c) <= size c)%nat; [lia|]. rewrite <- (size_dom c) at 2.
  set (l := (fun i => Open di + Z.of_nat i * challengeWindow) <$> seq 0 (S (size c))).
  assert (NoDup l) as Hnd by (apply NoDup_fmap_2_strong; [intros i j _ _ E; nia|apply NoDup_seq]).
  assert (length l = S (size c)) as <- by (unfold l; by rewrite length_fmap, length_seq).
  rewrite <- (size_list_to_set (C := gset Z) l) by done. apply subseteq_size. intros o Ho. apply elem_of_list_to_set in Ho.
  apply list_elem_of_fmap in Ho as (i & -> & Hi). apply elem_of_seq in Hi. apply elem_of_dom, Hs. lia.
Qed.

(** ** The invariant *)

(** Proofs for a deadline that were generated. *)
Definition generated (gs : gmap nat (gen (Params := Params))) (open : Z) (posts : list Params) : Prop :=
  exists g x, gs !! g = Some x /\ Open (g_di x) = open /\ g_posts x = Some posts.

Definition live (s : sub (Params := Params)) : Prop := s_aborted s = false /\ s_over s = false.

Record hinv h : Prop := {
  h_cache : forall o posts, cache h !! o = Some posts -> generated (gens h) o posts;
  h_gens : forall g x, gens h !! g = Some x -> Challenge (g_di x) + ChallengeConfidence <= height (g_ts x);
  h_over : forall g x, gens h !! g = Some x -> g_over x = false -> g_posts x = None;
  h_win : forall o id, postWindows h !! o = Some id -> exists pw, pws h !! id = Some pw /\ Open (pw_di pw) = o;
  h_head : forall o id, postWindows h !! o = Some id -> is_Some (currentTS h);
  h_busy : forall o id pw, postWindows h !! o = Some id -> pws h !! id = Some pw -> submitState pw = SubmitStateSubmitting ->
    exists s x, abort pw = Some s /\ subs h !! s = Some x /\ s_pw x = id /\ live x;
  h_live : forall s x, subs h !! s = Some x -> live x ->
    exists pw, pws h !! s_pw x = Some pw /\ postWindows h !! Open (s_di x) = Some (s_pw x) /\
      submitState pw = SubmitStateSubmitting /\ abort pw = Some s /\ pw_di pw = s_di x;
  h_dead : forall s x o, subs h !! s = Some x -> s_aborted x = true -> postWindows h !! o <> Some (s_pw x);
  h_subpw : forall s x, subs h !! s = Some x -> is_Some (pws h !! s_pw x);
  h_subs : forall s x, subs h !! s = Some x ->
    s_posts x <> [] /\ generated (gens h) (Open (s_di x)) (s_posts x) /\
    Open (s_di x) + SubmitConfidence <= height (s_ts x) < Close (s_di x);
}.

Lemma newHandler_inv : hinv newHandler.
Proof. by split. Qed.

(** ** The prover *)

(** The prover writes its own fields and adds proofs. *)
Lemma hinv_prover h cur gs :
  hinv h -> (forall o posts, generated (gens h) o posts -> generated gs o posts) ->
  (forall g x, gs !! g = Some x -> Challenge (g_di x) + ChallengeConfidence <= height (g_ts x)) ->
  (forall g x, gs !! g = Some x -> g_over x = false -> g_posts x = None) -> hinv (setProver cur gs h).
Proof.
  intros [Hc ? ? ? ? ? ? ? ? Hs] Hg Hch Ho. split; try done; cbn [setProver cache gens subs].
  - intros o posts E. by apply Hg, Hc.
  - intros s x E. destruct (Hs s x E) as (? & ? & ?). eauto.
Qed.

Lemma abortGen_inv h id : hinv h -> hinv (setProver None (abortGen id (gens h)) h).
Proof.
  intros HI. apply hinv_prover; [done|..]; unfold abortGen.
  - intros o posts (g & x & E & Ho & Hp). destruct (decide (g = id)) as [->|Hne].
    + eexists id, _. split; [by rewrite lookup_alter_eq, E|done].
    + exists g, x. by rewrite lookup_alter_ne.
  - intros g x. rewrite lookup_alter_Some. intros [(-> & y & E & ->)|[_ E]]; cbn [g_di g_ts]; by eapply (h_gens h HI).
  - intros g x. rewrite lookup_alter_Some. intros [(-> & y & E & ->)|[_ E]]; cbn; by eapply (h_over h HI).
Qed.

Lemma prove_head_inv newTS di h :
  hinv h -> info_ok di -> exists h', prove_processHeadChange newTS di h = Ret h' /\ hinv h'.
Proof.
  intros HI Hdi. unfold prove_processHeadChange. assert (hinv (prove_expire newTS h)) as HI'.
  { unfold prove_expire. destruct (current h) as [[id d]|]; [|done]. destruct (_ <=? _); [by apply abortGen_inv|done]. }
  set (h1 := prove_expire newTS h) in *. destruct (current h1); [by exists h1|].
  destruct (firstIncomplete_ends (cache h1) di Hdi) as [di' ->]. destruct (Z.ltb_spec (height newTS) (Challenge di' + ChallengeConfidence)); [by exists h1|].
  eexists. split; [done|]. set (id := fresh (dom (gens h1))). assert (gens h1 !! id = None) as Hf by (apply not_elem_of_dom, is_fresh).
  apply hinv_prover; [done|..].
  - intros o posts (g & x & E & Ho & Hp). exists g, x. rewrite lookup_insert_ne; [done|]. intros <-. congruence.
  - intros g x. rewrite lookup_insert_Some. intros [[_ <-]|[_ E]]; [done|by eapply (h_gens h1 HI')].
  - intros g x. rewrite lookup_insert_Some. intros [[_ <-]|[_ E]]; [done|by eapply (h_over h1 HI')].
Qed.

Lemma post_result_inv id res h :
  hinv h -> enabled (PostResult id res) h = true -> exists h', processPostResult id res h = Ret h' /\ hinv h'.
Proof.
  intros HI He. cbn in He. unfold processPostResult. destruct (gens h !! id) as [g|] eqn:Eg; [|done].
  assert (g_posts g = None) as Hnone by (apply (h_over h HI id); [done|by destruct (g_over g)]).
  set (g' := {| g_ts := _ |}). set (gs := <[id := g']> (gens h)).
  assert (forall cur, hinv (setProver cur gs h)) as HI'.
  { intros cur. apply hinv_prover; [done|..].
    - intros o posts (k & x & E & Ho & Hp). exists k, x. unfold gs. rewrite lookup_insert_ne; [done|]. intros <-. congruence.
    - intros k x. unfold gs. rewrite lookup_insert_Some. intros [[_ <-]|[_ E]]; [by apply (h_gens h HI id g)|by apply (h_gens h HI k)].
    - intros k x. unfold gs. rewrite lookup_insert_Some. intros [[_ <-]|[_ E]]; [done|by eapply (h_over h HI)]. }
  destruct res as [posts|]; eexists; (split; [done|]); [|apply HI'].
  destruct (HI' None) as [Hc ? ? ? ? ? ? ? ? ?]. split; try done. cbn. intros o ps. rewrite lookup_insert_Some.
  intros [[<- <-]|[_ E]]; [|by apply Hc]. exists id, g'. split; [apply lookup_insert_eq|done].
Qed.

(** ** The submitter *)

(** A window changes between states without a running submission. *)
Lemma hinv_idle h id pw st ab :
  hinv h -> pws h !! id = Some pw -> submitState pw <> SubmitStateSubmitting -> st <> SubmitStateSubmitting ->
  hinv (setPW id (withState st ab pw) h).
Proof.
  intros [? ? ? Hw Hh Hb Hl Hd Hp Hs] Epw Hst Hst'. split; try done; cbn [setPW pws postWindows subs].
  - intros o id2 E. destruct (Hw o id2 E) as (pw2 & E2 & Ho). destruct (decide (id2 = id)) as [->|Hne].
    + eexists. split; [apply lookup_insert_eq|]. cbn. congruence.
    + exists pw2. by rewrite lookup_insert_ne.
  - intros o id2 pw2 E. rewrite lookup_insert_Some. intros [[_ <-]|[_ E2]]; [done|by eapply Hb].
  - intros s x E Hx. destruct (Hl s x E Hx) as (pw2 & E2 & Ho & Hst2 & Hab). exists pw2. rewrite lookup_insert_ne; [done|]. intros E3. rewrite <- E3 in E2. congruence.
  - intros s x E. rewrite lookup_insert_is_Some. destruct (decide (id = s_pw x)); [by left|right]. split; [done|by eapply Hp].
Qed.

(** A submission starts. *)
Lemma hinv_start h id pw s x :
  hinv h -> pws h !! id = Some pw -> postWindows h !! Open (pw_di pw) = Some id -> submitState pw <> SubmitStateSubmitting ->
  subs h !! s = None -> s_pw x = id -> s_di x = pw_di pw -> live x -> s_posts x <> [] ->
  cache h !! Open (pw_di pw) = Some (s_posts x) -> Open (s_di x) + SubmitConfidence <= height (s_ts x) < Close (s_di x) ->
  hinv (setSub s x (setPW id (withState SubmitStateSubmitting (Some s) pw) h)).
Proof.
  intros [Hc ? ? Hw Hh Hb Hl Hd Hp Hs] Epw Ewin Hst Hf Hxp Hxd Hxl Hxn Hxc Hxh. split; try done; cbn [setPW setSub pws postWindows subs].
  - intros o id2 E. destruct (Hw o id2 E) as (pw2 & E2 & Ho). destruct (decide (id2 = id)) as [->|Hne].
    + eexists. split; [apply lookup_insert_eq|]. cbn. congruence.
    + exists pw2. by rewrite lookup_insert_ne.
  - intros o id2 pw2 E. rewrite lookup_insert_Some. intros [[<- <-]|[_ E2]] Hsub.
    + exists s, x. rewrite lookup_insert_eq. done.
    + destruct (Hb o id2 pw2 E E2 Hsub) as (s2 & x2 & ? & E3 & ?). exists s2, x2. rewrite lookup_insert_ne; [done|]. intros <-. congruence.
  - intros s2 x2. rewrite lookup_insert_Some. intros [[<- <-]|[_ E2]] Hx2.
    + eexists. rewrite Hxp, Hxd, lookup_insert_eq. split; [done|]. done.
    + destruct (Hl s2 x2 E2 Hx2) as (pw2 & E3 & Ho & Hst2 & Hab). exists pw2. rewrite lookup_insert_ne; [done|]. intros E. rewrite <- E in E3. congruence.
  - intros s2 x2 o. rewrite lookup_insert_Some. intros [[<- <-]|[_ E2]] Hx2; [by destruct Hxl; congruence|by eapply Hd].
  - intros s2 x2. rewrite lookup_insert_Some. intros [[<- <-]|[_ E2]]; rewrite lookup_insert_is_Some.
    + by left.
    + destruct (decide (id = s_pw x2)); [by left|right]. split; [done|by eapply Hp].
  - intros s2 x2. rewrite lookup_insert_Some. intros [[<- <-]|[_ E2]]; [|by apply (Hs s2)].
    split; [done|]. split; [|done]. rewrite Hxd. by apply Hc.
Qed.

Lemma submitIfReady_inv advance id pw h :
  hinv h -> pws h !! id = Some pw -> postWindows h !! Open (pw_di pw) = Some id ->
  hinv (submitIfReady advance id pw h) /\ postWindows (submitIfReady advance id pw h) = postWindows h.
Proof.
  intros HI Epw Ewin. unfold submitIfReady. destruct (Z.leb_spec (Close (pw_di pw)) (height advance)); [done|].
  case_bool_decide as Hst; cbn [negb]; [|done]. destruct (Z.ltb_spec (height advance) (Open (pw_di pw) + SubmitConfidence)); [done|].
  destruct (cache h !! Open (pw_di pw)) as [[|p posts]|] eqn:Ec; [| |done].
  - split; [|done]. apply hinv_idle; [done|done|congruence|done].
  - split; [|done]. set (s := fresh (dom (subs h))). assert (subs h !! s = None) as Hf by (apply not_elem_of_dom, is_fresh).
    apply hinv_start; try done. congruence.
Qed.

(** The submission of a window is aborted, and a new window takes its place. *)
Lemma hinv_abort h id pw s advance :
  hinv h -> pws h !! id = Some pw -> postWindows h !! Open (pw_di pw) = Some id -> submitState pw = SubmitStateSubmitting -> abort pw = Some s ->
  let pw' := {| pw_ts := advance; pw_di := pw_di pw; submitState := SubmitStateStart; abort := None |} in
  let id' := fresh (dom (pws h)) in
  hinv (abortSub s (setWindow (Open (pw_di pw)) id' pw' h)) /\ pws (abortSub s (setWindow (Open (pw_di pw)) id' pw' h)) !! id' = Some pw' /\
  postWindows (abortSub s (setWindow (Open (pw_di pw)) id' pw' h)) = <[Open (pw_di pw) := id']> (postWindows h).
Proof.
  intros [? ? ? Hw Hh Hb Hl Hd Hp Hs] Epw Ewin Hst Hab pw' id'.
  assert (pws h !! id' = None) as Hf by (apply not_elem_of_dom, is_fresh).
  destruct (Hb _ _ _ Ewin Epw Hst) as (s0 & x & E0 & Ex & Hx & Hlx). assert (s0 = s) as -> by congruence.
  unfold abortSub. cbn [setWindow subs]. rewrite Ex. split; [|split; [apply lookup_insert_eq|done]].
  assert (forall s2 x2, subs h !! s2 = Some x2 -> s_pw x2 <> id') as Hold.
  { intros s2 x2 E2 E. destruct (Hp s2 x2 E2) as [? Hq]. congruence. }
  assert (forall o id2, postWindows h !! o = Some id2 -> o <> Open (pw_di pw) -> id2 <> id /\ id2 <> id') as Hoth.
  { intros o id2 E Hne. destruct (Hw o id2 E) as (pw2 & E2 & Ho). split; intros ->; congruence. }
  split; try done; cbn [setSub setWindow pws postWindows subs].
  - intros o id2. rewrite lookup_insert_Some. intros [[<- <-]|[Hne E]]; [exists pw'; split; [apply lookup_insert_eq|done]|].
    destruct (Hw o id2 E) as (pw2 & E2 & Ho). exists pw2. rewrite lookup_insert_ne; [done|]. intros <-. congruence.
  - intros o id2. rewrite lookup_insert_Some. intros [[<- <-]|[Hne E]]; [by eapply Hh|by eapply Hh].
  - intros o id2 pw2. rewrite (lookup_insert_Some (postWindows h)). intros [[<- <-]|[Hne E]]; [rewrite lookup_insert_eq; by intros [= <-]|].
    destruct (Hoth o id2 E ltac:(done)) as [H1 H2]. rewrite lookup_insert_ne by done. intros E2 Hsub.
    destruct (Hb o id2 pw2 E E2 Hsub) as (s2 & x2 & ? & E3 & Hx2 & ?). exists s2, x2. rewrite lookup_insert_ne; [done|]. intros <-. congruence.
  - intros s2 x2. rewrite lookup_insert_Some. intros [[<- <-]|[Hne E2]] Hx2; [by destruct Hx2|].
    destruct (Hl s2 x2 E2 Hx2) as (pw2 & E3 & Ho & Hst2 & Hab2 & Hdi). exists pw2. rewrite lookup_insert_ne by (intros E; by apply (Hold s2 x2 E2)).
    rewrite lookup_insert_ne; [done|]. intros E. rewrite <- E in Ho. rewrite Ewin in Ho. injection Ho as Ho. rewrite <- Ho in E3. congruence.
  - intros s2 x2 o. rewrite lookup_insert_Some. rewrite lookup_insert_Some.
    intros [[<- <-]|[Hne E2]] Hx2 [[<- E]|[Hno E]]; cbn in E.
    + rewrite Hx in E. congruence.
    + destruct (Hoth o _ E ltac:(done)) as [? _]. congruence.
    + by apply (Hold s2 x2 E2).
    + by eapply Hd.
  - intros s2 x2. rewrite lookup_insert_Some, lookup_insert_is_Some. intros [[<- <-]|[Hne E2]].
    + right. split; [cbn; intros E; by apply (Hold s x Ex)|by apply (Hp s x)].
    + right. split; [intros E; by apply (Hold s2 x2 E2)|by eapply Hp].
  - intros s2 x2. rewrite lookup_insert_Some. intros [[<- <-]|[Hne E2]]; [by apply (Hs s x)|by apply (Hs s2)].
Qed.

(** One window handles a head change; the other windows stay. *)
Lemma head_pw_inv revert advance o id h :
  hinv h -> postWindows h !! o = Some id ->
  exists h', processHeadChangeForPW revert advance id h = Ret h' /\ hinv h' /\
    (forall o', o' <> o -> postWindows h' !! o' = postWindows h !! o').
Proof.
  intros HI E. destruct (h_win h HI o id E) as (pw & Epw & <-). unfold processHeadChangeForPW. rewrite Epw.
  set (rev := match revert with Some _ => _ | None => _ end).
  assert (exists h', Ret (submitIfReady advance id pw h) = Ret h' /\ hinv h' /\
    (forall o', o' <> Open (pw_di pw) -> postWindows h' !! o' = postWindows h !! o')) as Hsame.
  { destruct (submitIfReady_inv advance id pw h HI Epw E) as [HI' Ew]. eexists. split; [done|]. by rewrite Ew. }
  destruct (_ && _) eqn:Eabort.
  - apply andb_prop in Eabort as [Hst%bool_decide_eq_true _]. destruct (abort pw) as [s|] eqn:Es; [|done].
    destruct (hinv_abort h id pw s advance HI Epw E Hst Es) as (HI1 & Epw1 & Ew1).
    edestruct (submitIfReady_inv advance) as [HI2 Ew2]; [exact HI1|exact Epw1|rewrite Ew1; apply lookup_insert_eq|].
    eexists. split; [done|]. split; [done|]. intros o' Ho. rewrite Ew2, Ew1. by apply lookup_insert_ne.
  - destruct (bool_decide _ && rev) eqn:Ereset; [|done]. apply andb_prop in Ereset as [Hst%bool_decide_eq_true _].
    set (pw' := withState _ _ pw). assert (hinv (setPW id pw' h)) as HI1 by (apply hinv_idle; [done|done|congruence|done]).
    destruct (submitIfReady_inv advance id pw' (setPW id pw' h) HI1 (lookup_insert_eq _ _ _) E) as [HI2 Ew].
    eexists. split; [done|]. split; [done|]. by rewrite Ew.
Qed.

Lemma head_pws_inv revert advance l h :
  hinv h -> NoDup l.*1 -> (forall o id, (o, id) ∈ l -> postWindows h !! o = Some id) ->
  exists h', processHeadChangeForPWs revert advance l h = Ret h' /\ hinv h'.
Proof.
  revert h. induction l as [|[o id] l IH]; intros h HI Hnd Hl; cbn; [by exists h|].
  apply NoDup_cons in Hnd as [Ho Hnd]. destruct (head_pw_inv revert advance o id h HI) as (h1 & -> & HI1 & Hw); [apply Hl; set_solver|].
  apply (IH h1 HI1 Hnd). intros o' id' Hin. rewrite Hw; [apply Hl; set_solver|].
  intros ->. apply Ho, list_elem_of_fmap. by exists (o, id').
Qed.

Lemma trackWindow_inv advance di h : hinv h -> is_Some (currentTS h) -> hinv (trackWindow advance di h).
Proof.
  intros HI Hts. unfold trackWindow. destruct (postWindows h !! Open di) eqn:E; [done|].
  set (id := fresh (dom (pws h))). assert (pws h !! id = None) as Hf by (apply not_elem_of_dom, is_fresh).
  assert (forall s x, subs h !! s = Some x -> s_pw x <> id) as Hold.
  { intros s x Ex Eid. destruct (h_subpw h HI s x Ex) as [? Hq]. congruence. }
  destruct HI as [? ? ? Hw Hh Hb Hl Hd Hp Hs]. split; try done; cbn [setWindow pws postWindows subs].
  - intros o id2. rewrite lookup_insert_Some. intros [[<- <-]|[Hne Eo]]; [eexists; split; [apply lookup_insert_eq|done]|].
    destruct (Hw o id2 Eo) as (pw & Epw & Ho). exists pw. rewrite lookup_insert_ne; [done|]. intros <-. congruence.
  - intros o id2 pw2. rewrite (lookup_insert_Some (postWindows h)). intros [[<- <-]|[Hne Eo]]; [rewrite lookup_insert_eq; by intros [= <-]|].
    destruct (Hw o id2 Eo) as (pw & Epw & Ho). rewrite lookup_insert_ne by congruence. by eapply Hb.
  - intros s x Ex Hx. destruct (Hl s x Ex Hx) as (pw & Epw & Ho & ?). exists pw.
    rewrite !lookup_insert_ne; [done|congruence|intros Eid; by apply (Hold s x Ex)].
  - intros s x o Ex Hx. rewrite lookup_insert_Some. intros [[_ Eid]|[_ Eo]]; [by apply (Hold s x Ex)|by eapply Hd].
  - intros s x Ex. rewrite lookup_insert_is_Some'. right. by eapply Hp.
Qed.

Lemma submit_head_inv order revert advance di h :
  hinv h -> (forall l, order l ≡ₚ l) -> exists h', submit_processHeadChange order revert advance di h = Ret h' /\ hinv h'.
Proof.
  intros HI Hord. unfold submit_processHeadChange. set (h1 := trackWindow _ _ _). assert (hinv h1) as HI1.
  { apply trackWindow_inv; [|by eexists]. destruct HI. by split. }
  apply head_pws_inv; [done|rewrite Hord; apply NoDup_fst_map_to_list|]. intros o id. rewrite Hord. apply elem_of_map_to_list.
Qed.

Lemma post_ready_inv h : hinv h -> enabled PostReady h = true -> exists h', processPostReady h = Ret h' /\ hinv h'.
Proof.
  intros HI He. cbn in He. unfold processPostReady. destruct (added h) as [|[di posts] rest]; [done|].
  set (h1 := setPosts (cache h) rest h). assert (hinv h1) as HI1 by (destruct HI; by split).
  destruct (postWindows h1 !! Open di) as [id|] eqn:E; [|by exists h1]. destruct (h_win h1 HI1 _ _ E) as (pw & Epw & Ho).
  destruct (h_head h1 HI1 _ _ E) as [ts Ets]. rewrite Epw, Ets. eexists. split; [done|]. apply submitIfReady_inv; [done|done|congruence].
Qed.

Lemma submit_result_inv id ok h :
  hinv h -> enabled (SubmitResult id ok) h = true -> exists h', processSubmitResult id ok h = Ret h' /\ hinv h'.
Proof.
  intros [? ? ? Hw Hh Hb Hl Hd Hp Hs] He. cbn in He. unfold processSubmitResult. destruct (subs h !! id) as [x|] eqn:Ex; [|done].
  assert (s_over x = false) as Hov by (by destruct (s_over x)). destruct (Hp id x Ex) as [pw Epw]. rewrite Epw. eexists. split; [done|].
  set (st := if ok then _ else _). assert (st <> SubmitStateSubmitting) as Hst by (by destruct ok).
  split; try done; cbn [setPW setSub pws postWindows subs].
  - intros o id2 E. destruct (Hw o id2 E) as (pw2 & E2 & Ho). destruct (decide (id2 = s_pw x)) as [->|Hne].
    + eexists. split; [apply lookup_insert_eq|]. cbn. congruence.
    + exists pw2. by rewrite lookup_insert_ne.
  - intros o id2 pw2 E. rewrite lookup_insert_Some. intros [[<- <-]|[Hne E2]] Hsub; [done|].
    destruct (Hb o id2 pw2 E E2 Hsub) as (s2 & x2 & ? & E3 & Hx2 & ?). exists s2, x2. rewrite lookup_insert_ne; [done|]. intros <-. congruence.
  - intros s2 x2. rewrite lookup_insert_Some. intros [[<- <-]|[Hne E2]] Hx2; [by destruct Hx2|].
    destruct (Hl s2 x2 E2 Hx2) as (pw2 & E3 & Ho & Hst2 & Hab2 & Hdi). exists pw2. rewrite lookup_insert_ne; [done|]. intros E.
    destruct (s_aborted x) eqn:Eab; [by apply (Hd id x (Open (s_di x2)) Ex Eab); congruence|].
    destruct (Hl id x Ex ltac:(done)) as (pw3 & E4 & _ & _ & Hab3 & _). congruence.
  - intros s2 x2 o. rewrite lookup_insert_Some. intros [[<- <-]|[Hne E2]]; [by apply (Hd id x)|by apply (Hd s2)].
  - intros s2 x2. rewrite lookup_insert_Some, lookup_insert_is_Some'. intros [[<- <-]|[Hne E2]]; [by left|right; by eapply Hp].
  - intros s2 x2. rewrite lookup_insert_Some. intros [[<- <-]|[Hne E2]]; [by apply (Hs id x)|by apply (Hs s2)].
Qed.

(** ** Runs *)

(** The heads come with deadlines of the package, and the iteration over a map visits every
    entry once. *)
Definition event_ok (e : event Params) : Prop :=
  match e with
  | ProveHead _ di => info_ok di
  | SubmitHead order _ _ _ => forall l, order l ≡ₚ l
  | _ => True
  end.

Lemma runs_inv es h : Forall event_ok es -> hinv h -> exists h', runEvents es h = Ret h' /\ hinv h'.
Proof.
  intros Hes. revert h. induction Hes as [|e es He _ IH]; intros h HI; cbn [runEvents]; [by exists h|].
  destruct (enabled e h) eqn:Een; [|by apply IH].
  assert (exists h', handle e h = Ret h' /\ hinv h') as (h1 & -> & HI1); [|by apply IH].
  destruct e; cbn [handle]; [by apply prove_head_inv|by apply post_result_inv|by apply submit_head_inv|by apply post_ready_inv|by apply submit_result_inv].
Qed.

(** [C18] In every interleaving of head changes, finished proofs and finished submissions the
    handlers run to the end: the search for a deadline without proofs ends and no result
    refers to a window that is gone.  Proofs are generated only above the challenge height;
    what is submitted is not empty, was generated for that deadline, and is sent while the
    deadline is open, after the confidence delay; and a deadline never has two running
    submissions, also after reorganisations that abort and restart them. *)
Theorem window_post_safe es :
  Forall event_ok es ->
  exists h, runEvents es newHandler = Ret h /\
    (forall g x, gens h !! g = Some x -> Challenge (g_di x) + ChallengeConfidence <= height (g_ts x)) /\
    (forall s x, subs h !! s = Some x ->
       s_posts x <> [] /\ generated (gens h) (Open (s_di x)) (s_posts x) /\
       Open (s_di x) + SubmitConfidence <= height (s_ts x) < Close (s_di x)) /\
    (forall s1 s2 x1 x2, subs h !! s1 = Some x1 -> subs h !! s2 = Some x2 -> live x1 -> live x2 ->
       Open (s_di x1) = Open (s_di x2) -> s1 = s2).
Proof.
  intros Hes. destruct (runs_inv es newHandler Hes newHandler_inv) as (h & Eh & HI). exists h. split; [done|].
  split; [apply (h_gens h HI)|]. split; [apply (h_subs h HI)|]. intros s1 s2 x1 x2 E1 E2 L1 L2 Eo.
  destruct (h_live h HI s1 x1 E1 L1) as (pw1 & P1 & W1 & _ & A1 & _). destruct (h_live h HI s2 x2 E2 L2) as (pw2 & P2 & W2 & _ & A2 & _). congruence.
Qed.
End props.

(** ** Concrete runs *)

(** Deadlines of 60 epochs, 48 in a period, with the challenge 20 epochs before. *)
#[export] Instance demoDeadlines : Deadlines := {
  WPoStPeriodDeadlines := 48;
  WPoStProvingPeriod := 2880;
  dline_NewInfo ps i e := {| CurrentEpoch := e; PeriodStart := ps; Index := i; Open := ps + i * 60; Close := ps + i * 60 + 60; Challenge := ps + i * 60 - 20 |};
  PeriodStarted di := PeriodStart di <=? CurrentEpoch di;
}.

#[export] Instance demoDeadlinesOk : DeadlinesOk.
Proof. by refine {| challengeWindow := 60 |}. Defined.

Definition demoHead (h : Z) : TipSet := {| cids := []; blks := []; height := h |}.

Definition demoInfo (i e : Z) : Info := dline_NewInfo 0 i e.

(** A submission that is aborted by a reorganisation and repeated. *)
Definition demoReorg : list (event Z) :=
  [ProveHead (demoHead 101) (demoInfo 1 101); PostResult 0 (Some []); ProveHead (demoHead 102) (demoInfo 1 102);
   SubmitHead id None (demoHead 125) (demoInfo 2 125); PostReady; PostResult 1 (Some [7]); PostReady;
   SubmitHead reverse (Some (demoHead 110)) (demoHead 126) (demoInfo 2 126); SubmitResult 0 false; SubmitResult 1 true].

Lemma window_post_safe_witness :
  Forall event_ok demoReorg /\
  (exists h, runEvents demoReorg newHandler = Ret h /\ forall s x, subs h !! s = Some x -> s_posts x <> []) /\
  (exists h, runEvents demoReorg newHandler = Ret h /\ (s_posts <$> subs h !! 1%nat) = Some [7] /\ postWindows h !! 120 = Some 1%nat).
Proof.
  assert (Forall event_ok demoReorg) as Hok.
  { unfold demoReorg. rewrite !Forall_cons. split_and!; try done; intros l; [done|apply reverse_Permutation]. }
  split; [done|]. split.
  - destruct (window_post_safe demoReorg Hok) as (h & E & _ & Hs & _). exists h. split; [done|]. intros s x Ex. by apply (Hs s x Ex).
  - eexists. split; [vm_compute; reflexivity|]. by vm_compute.
Defined.

(** The proof of a deadline that has passed is aborted and the next one starts, but the
    success of the aborted one makes the prover forget the proof that runs: the next head
    starts a second proof of the same deadline beside it. *)
Definition demoTwice : list (event Z) :=
  [ProveHead (demoHead 101) (demoInfo 2 101); ProveHead (demoHead 180) (demoInfo 3 180); PostResult 0 (Some [7]); ProveHead (demoHead 181) (demoInfo 3 181)].

Lemma two_proofs_at_a_time :
  exists h g1 g2, runEvents demoTwice newHandler = Ret h /\ gens h !! 1%nat = Some g1 /\ gens h !! 2%nat = Some g2 /\
    g_di g1 = demoInfo 3 180 /\ Open (g_di g2) = Open (g_di g1) /\
    (g_over g1, g_aborted g1) = (false, false) /\ (g_over g2, g_aborted g2) = (false, false).
Proof.
  do 3 eexists. split; [vm_compute; reflexivity|]. split; [vm_compute; reflexivity|]. split; [vm_compute; reflexivity|]. done.
Qed.
