(* ===== verification/ChainStore.v ===== *)
(** * The chain: chain/store/store.go, index.go and coalescer.go

    Walking the chain from parent to parent (forks, ancestors, lookups by height with the skip
    index), merging head changes, and choosing the head.  Tipsets are loaded through a
    function, as in the source, where it is [LoadTipSet] over the block store.  Contexts are
    never cancelled here, and the locks are left out: the operations run one at a time. *)

From S2P Require Import Prelude TipSet.

(** A pointer that is dereferenced. *)
Definition deref {A} (o : option A) : outcome A := match o with Some a => Ret a | None => Panic end.

(** ** Loading *)

Section loading.
Context `{Hashing} (GetBlock : Cid -> outcome BlockHeader).

(** The blocks are read in parallel; here in order. *)
Fixpoint loadBlocks (cids : list Cid) : outcome (list BlockHeader) :=
  match cids with
  | [] => Ret []
  | c :: cids => b ← GetBlock c; blks ← loadBlocks cids; Ret (b :: blks)
  end.

(** A tipset that is not cached. *)
Definition readTipSet (tsk : TipSetKey) : outcome TipSet :=
  cids ← TipSetKey_Cids tsk; blks ← loadBlocks cids; NewTipSet blks.

(** The cache, of which the eviction is left out. *)
Definition LoadTipSet (tsk : TipSetKey) (tsCache : gmap TipSetKey TipSet) : outcome TipSet * gmap TipSetKey TipSet :=
  match tsCache !! tsk with
  | Some ts => (Ret ts, tsCache)
  | None =>
      match readTipSet tsk with
      | Ret ts => (Ret ts, <[tsk := ts]> tsCache)
      | r => (r, tsCache)
      end
  end.
End loading.

(** ** Forks *)

Inductive HeadChangeType := HCRevert | HCApply.

Section walking.
Context `{Hashing} (lts : TipSetKey -> outcome TipSet).

Definition loadParent (ts : TipSet) : outcome TipSet := k ← Parents ts; lts k.

(** Each round goes down from one of the two, so the rounds are bounded by the heights;
    running out of them stands for a chain that does not go down. *)
Fixpoint reorgLoop (n : nat) (left right : TipSet) (leftChain rightChain : list TipSet) : outcome (list TipSet * list TipSet) :=
  if Equals (Some left) (Some right) then Ret (leftChain, rightChain)
  else
    match n with
    | O => Panic
    | S n =>
        if height right <? height left then par ← loadParent left; reorgLoop n par right (leftChain ++ [left]) rightChain
        else par ← loadParent right; reorgLoop n left par leftChain (rightChain ++ [right])
    end.

Definition ReorgOps (a b : TipSet) : outcome (list TipSet * list TipSet) :=
  reorgLoop (Z.to_nat (height a + height b)) a b [] [].

Fixpoint ancestorLoop (n : nat) (a cur : TipSet) : outcome TipSet :=
  if negb (Equals (Some a) (Some cur)) && (height a <? height cur) then
    match n with
    | O => Panic
    | S n => next ← loadParent cur; ancestorLoop n a next
    end
  else Ret cur.

Definition IsAncestorOf (a b : TipSet) : outcome bool :=
  if height b <=? height a then Ret false
  else cur ← ancestorLoop (Z.to_nat (height b - height a)) a b; Ret (Equals (Some cur) (Some a)).

Definition NearestCommonAncestor (a b : TipSet) : outcome TipSet :=
  '(l, _) ← ReorgOps a b;
  match last l with
  | Some ts => loadParent ts
  | None => Panic (* [l[len(l)-1]] *)
  end.

Definition GetPath (from to : TipSetKey) : outcome (list (HeadChangeType * TipSet)) :=
  fts ← lts from;
  tts ← lts to;
  '(revert, apply) ← ReorgOps fts tts;
  Ret ((pair HCRevert <$> revert) ++ (pair HCApply <$> reverse apply)).

(** What the reorg worker passes to the subscribers. *)
Definition reorgNotify (old new : TipSet) : outcome (list TipSet * list TipSet) :=
  '(revert, apply) ← ReorgOps old new; Ret (revert, reverse apply).

(** ** The index *)

Record lbEntry := {
  targetHeight : Z;
  target : TipSetKey;
}.

Definition skipLength : Z := 20.

(** Each round goes down, so the rounds are bounded by the difference of the heights. *)
Fixpoint walkLoop (n : nat) (ts : TipSet) (to : Z) : outcome TipSet :=
  match n with
  | O => Panic
  | S n =>
      pts ← loadParent ts;
      if height pts <? to then Ret ts
      else if to =? height pts then Ret pts
      else walkLoop n pts to
  end.

Definition walkBack (from : TipSet) (to : Z) : outcome TipSet :=
  if height from <? to then Err "looking for tipset with height greater than start point"
  else if to =? height from then Ret from
  else walkLoop (Z.to_nat (height from - to)) from to.

Definition roundHeight (h : Z) : Z := Z.quot h skipLength * skipLength.

Definition roundDown (ts : TipSet) : outcome TipSet := walkBack ts (roundHeight (height ts)).

Definition fillCache (tsk : TipSetKey) : outcome lbEntry :=
  ts ← lts tsk;
  if height ts =? 0 then Ret {| targetHeight := 0; target := tsk |}
  else
    let rheight := roundHeight (height ts) in
    parent ← loadParent ts;
    let rheight := rheight - skipLength in
    let rheight := if rheight <? 0 then 0 else rheight in
    skipTarget ← (if height parent <? rheight then Ret parent else walkBack parent rheight);
    Ret {| targetHeight := height skipTarget; target := Key (Some skipTarget) |}.

(** The entry of a tipset, from the cache or put there. *)
Definition loadEntry (cur : TipSetKey) (indexCache : gmap TipSetKey lbEntry) : outcome lbEntry * gmap TipSetKey lbEntry :=
  match indexCache !! cur with
  | Some lbe => (Ret lbe, indexCache)
  | None =>
      match fillCache cur with
      | Ret lbe => (Ret lbe, <[cur := lbe]> indexCache)
      | r => (r, indexCache)
      end
  end.

(** Each round skips to a lower tipset. *)
Fixpoint indexLoop (n : nat) (cur : TipSetKey) (to : Z) (indexCache : gmap TipSetKey lbEntry) :
    outcome TipSet * gmap TipSetKey lbEntry :=
  match n with
  | O => (Panic, indexCache)
  | S n =>
      match loadEntry cur indexCache with
      | (Ret lbe, indexCache) =>
          if to =? targetHeight lbe then (lts (target lbe), indexCache)
          else if targetHeight lbe <? to then ((ts ← lts cur; walkBack ts to), indexCache)
          else indexLoop n (target lbe) to indexCache
      | (Err e, indexCache) => (Err e, indexCache)
      | (Panic, indexCache) => (Panic, indexCache)
      end
  end.

Definition GetTipsetByHeight (from : TipSet) (to : Z) (indexCache : gmap TipSetKey lbEntry) :
    outcome TipSet * gmap TipSetKey lbEntry :=
  if height from - to <=? skipLength then (walkBack from to, indexCache)
  else
    match roundDown from with
    | Ret rounded => indexLoop (S (Z.to_nat (height rounded))) (Key (Some rounded)) to indexCache
    | Err e => (Err e, indexCache)
    | Panic => (Panic, indexCache)
    end.

Definition GetTipsetByHeightWithoutCache (from : TipSet) (to : Z) : outcome TipSet := walkBack from to.

(** [ChainStore.GetTipsetByHeight]; [heaviest] is the head, which stands for a nil [ts]. *)
Definition cs_GetTipsetByHeight (heaviest : option TipSet) (h : Z) (ts : option TipSet) (prev : bool)
    (indexCache : gmap TipSetKey lbEntry) : outcome TipSet * gmap TipSetKey lbEntry :=
  if h <? 0 then (Err "height is negative", indexCache)
  else
    match (match ts with Some ts => Some ts | None => heaviest end) with
    | None => (Panic, indexCache)
    | Some ts =>
        if height ts <? h then (Err "looking for tipset with height greater than start point", indexCache)
        else if h =? height ts then (Ret ts, indexCache)
        else
          let '(lbts, indexCache) := GetTipsetByHeight ts h indexCache in
          let r :=
            lbts ← lbts;
            lbts ← (if height lbts <? h then GetTipsetByHeightWithoutCache ts h else Ret lbts);
            if (height lbts =? h) || negb prev then Ret lbts else loadParent lbts in
          (r, indexCache)
    end.
End walking.

(** ** Merging head changes: coalescer.go *)

(** The pending head changes, and the timer with the times of the first and the last one.  A
    zero time is [None]. *)
Record HeadChangeCoalescer := {
  c_revert : list TipSet;
  c_apply : list TipSet;
  timerC : option Z;
  first : option Z;
  last_ : option Z; (* [last] *)
}.

Definition NewHeadChangeCoalescer : HeadChangeCoalescer :=
  {| c_revert := []; c_apply := []; timerC := None; first := None; last_ := None |}.

Definition keySet (l : list TipSet) : gset TipSetKey := list_to_set ((fun ts => Key (Some ts)) <$> l).

Definition merge (pend incoming : list TipSet) (cancel1 cancel2 : gset TipSetKey) : list TipSet :=
  filter (fun ts => Key (Some ts) ∉ cancel1 /\ Key (Some ts) ∉ cancel2) pend ++
  filter (fun ts => Key (Some ts) ∉ cancel1 /\ Key (Some ts) ∉ cancel2) incoming.

Definition coalesce (revert apply : list TipSet) (c : HeadChangeCoalescer) : HeadChangeCoalescer :=
  let pendRevert := keySet (c_revert c) in
  let pendApply := keySet (c_apply c) in
  let reverting := keySet revert in
  let applying := keySet apply in
  {| c_revert := merge (c_revert c) revert pendApply applying;
     c_apply := merge (c_apply c) apply pendRevert reverting;
     timerC := timerC c; first := first c; last_ := last_ c |}.

Section coalescer.
Context (minDelay maxDelay mergeInterval : Z).

(** A head change arrives at time [now]. *)
Definition onEvent (now : Z) (revert apply : list TipSet) (c : HeadChangeCoalescer) : HeadChangeCoalescer :=
  let c := coalesce revert apply c in
  {| c_revert := c_revert c; c_apply := c_apply c;
     timerC := match timerC c with None => Some (now + minDelay) | t => t end;
     first := match first c with None => Some now | f => f end;
     last_ := Some now |}.

(** The timer fires at time [now]: more waiting, or the notification. *)
Definition onTimer (now : Z) (c : HeadChangeCoalescer) : HeadChangeCoalescer * option (list TipSet * list TipSet) :=
  let sinceFirst := now - default 0 (first c) in
  let sinceLast := now - default 0 (last_ c) in
  if (sinceLast <? mergeInterval) && (sinceFirst <? maxDelay) then
    let maxWait := maxDelay - sinceFirst in
    let wait := if maxWait <? minDelay then maxWait else minDelay in
    ({| c_revert := c_revert c; c_apply := c_apply c; timerC := Some (now + wait); first := first c; last_ := last_ c |}, None)
  else (NewHeadChangeCoalescer, Some (c_revert c, c_apply c)).
End coalescer.
