(* ===== verification/ChainStoreProps.v ===== *)
(** * Properties of walking the chain

    The chain of a tipset is the list of its ancestors down to the genesis.  Forks are found at
    the nearest common ancestor, merged head changes are the fork between the first and the last
    head, and the skip index finds what walking back finds. *)

From S2P Require Import Prelude TipSet ChainStore.

(** ** Chains *)

Notation K ts := (Key (Some ts)).

(** Sets of keys. *)
Lemma elem_keySet l x : x ∈ l -> K x ∈ keySet l.
Proof. intros Hx. unfold keySet. apply elem_of_list_to_set, list_elem_of_fmap. eauto. Qed.

Lemma keySet_cons x l k : k ∈ keySet (x :: l) <-> k = K x \/ k ∈ keySet l.
Proof. unfold keySet. cbn [fmap list_fmap list_to_set]. set_solver. Qed.

Lemma keySet_filter (S : gset TipSetKey) l k : k ∈ keySet (filter (fun x => K x ∉ S) l) <-> k ∈ keySet l /\ k ∉ S.
Proof.
  unfold keySet. rewrite !elem_of_list_to_set, !list_elem_of_fmap. setoid_rewrite list_elem_of_filter. naive_solver.
Qed.

Lemma keySet_reverse l : keySet (reverse l) = keySet l.
Proof. apply set_eq. intros k. unfold keySet. rewrite !elem_of_list_to_set, !list_elem_of_fmap. by setoid_rewrite elem_of_reverse. Qed.

Section chains.
Context `{Hashing} (lts : TipSetKey -> outcome TipSet) (g : TipSet).

(** The store has the tipset under its key. *)
Definition stored (ts : TipSet) : Prop := lts (K ts) = Ret ts.

Inductive chain : TipSet -> list TipSet -> Prop :=
| chain_genesis : stored g -> height g = 0 -> chain g [g]
| chain_child ts p l : stored ts -> loadParent lts ts = Ret p -> height p < height ts -> chain p l -> chain ts (ts :: l).

Lemma stored_inj a b : stored a -> stored b -> K a = K b -> a = b.
Proof. unfold stored. congruence. Qed.

Lemma Equals_stored a b : stored a -> stored b -> Equals (Some a) (Some b) = true <-> a = b.
Proof.
  intros Ha Hb. rewrite Equals_iff. split; [|intros ->; done]. intros [_ Ec]. apply stored_inj; [done|done|]. cbn. by rewrite Ec.
Qed.

Lemma chain_head ts l : chain ts l -> exists l', l = ts :: l'.
Proof. destruct 1; eauto. Qed.

Lemma chain_self ts l : chain ts l -> stored ts.
Proof. by destruct 1. Qed.

Lemma chain_nonneg ts l : chain ts l -> 0 <= height ts.
Proof. induction 1; lia. Qed.

Lemma chain_height ts l x : chain ts l -> x ∈ l -> 0 <= height x <= height ts.
Proof.
  induction 1 as [Hs H0|ts p l Hs Hp Hh Hc IH]; rewrite ?list_elem_of_singleton; [intros ->; lia|].
  pose proof (chain_nonneg p l Hc). intros [->|Hx]%elem_of_cons; [lia|specialize (IH Hx); lia].
Qed.

Lemma chain_below ts l x : chain ts (ts :: l) -> x ∈ l -> height x < height ts.
Proof.
  inversion 1 as [|? p ? ? ? Hh Hc]; subst; [by intros ?%elem_of_nil|]. intros Hx. pose proof (chain_height p l x Hc Hx). lia.
Qed.

Lemma chain_det ts l1 l2 : chain ts l1 -> chain ts l2 -> l1 = l2.
Proof.
  intros H1. revert l2. induction H1 as [Hs H0|ts p l Hs Hp Hh Hc IH]; inversion 1 as [|? q ? ? Hq ? Hc']; subst; [done|..].
  - pose proof (chain_nonneg q _ Hc'). lia.
  - pose proof (chain_nonneg p _ Hc). lia.
  - f_equal. apply IH. congruence.
Qed.

Lemma chain_suffix ts l1 x l2 : chain ts (l1 ++ x :: l2) -> chain x (x :: l2).
Proof.
  revert ts. induction l1 as [|y l1 IH]; cbn; intros ts Hc.
  - destruct (chain_head _ _ Hc) as [? [= -> ->]]. done.
  - inversion Hc as [|? p ? ? ? ? Hp]; subst; [by destruct l1|by eapply IH].
Qed.

Lemma chain_elem ts l x : chain ts l -> x ∈ l -> exists l1 l2, l = l1 ++ x :: l2 /\ chain x (x :: l2).
Proof. intros Hc (l1 & l2 & ->)%list_elem_of_split. exists l1, l2. split; [done|by eapply chain_suffix]. Qed.

Lemma chain_stored ts l x : chain ts l -> x ∈ l -> stored x.
Proof. intros Hc Hx. destruct (chain_elem ts l x Hc Hx) as (? & ? & _ & Hx'). by eapply chain_self. Qed.

(** Keys tell the tipsets of chains apart. *)
Lemma chain_keys a la b lb x : chain a la -> chain b lb -> x ∈ la -> K x ∈ keySet lb -> x ∈ lb.
Proof.
  intros Ha Hb Hx. unfold keySet. rewrite elem_of_list_to_set, list_elem_of_fmap. intros (y & E & Hy).
  by rewrite (stored_inj x y (chain_stored a la x Ha Hx) (chain_stored b lb y Hb Hy) E).
Qed.

(** ** Forks *)

(** [l] and [r] are what is not common to two chains. *)
Definition fork (la lb l r : list TipSet) : Prop :=
  exists s, s <> [] /\ la = l ++ s /\ lb = r ++ s /\ (forall x, x ∈ l -> K x ∉ keySet lb) /\ (forall x, x ∈ r -> K x ∉ keySet la).

Lemma key_not_in a la b lb : chain a la -> chain b lb -> a ∉ lb -> K a ∉ keySet lb.
Proof.
  intros Ha Hb Hn Hk. apply Hn. eapply (chain_keys a la b lb); [done|done| |done]. destruct (chain_head a la Ha) as [? ->]. set_solver.
Qed.

Lemma fork_sym la lb l r : fork la lb l r -> fork lb la r l.
Proof. intros (s & ? & ? & ? & ? & ?). exists s. naive_solver. Qed.

Lemma fork_same a la : chain a la -> fork la la [] [].
Proof. intros Ha. exists la. destruct (chain_head a la Ha) as [? ->]. split_and!; [done|done|done|..]; by intros ? ?%elem_of_nil. Qed.

Lemma fork_left a la b lb l r : chain a (a :: la) -> chain b lb -> a ∉ lb -> fork la lb l r -> fork (a :: la) lb (a :: l) r.
Proof.
  intros Ha Hb Hn (s & Hs & -> & -> & Hl & Hr). pose proof (key_not_in a _ b _ Ha Hb Hn) as Hk. exists s. split_and!; [done|done|done|..].
  - intros x [->|Hx]%elem_of_cons; auto.
  - intros x Hx [E|?]%keySet_cons; [|by eapply Hr]. apply Hk. rewrite <- E. apply elem_keySet. set_solver.
Qed.

Lemma chain_parent a la : chain a la -> height a <> 0 -> exists p l, la = a :: l /\ loadParent lts a = Ret p /\ height p < height a /\ chain p l.
Proof. destruct 1; [done|eauto 10]. Qed.

Lemma chain_zero a la : chain a la -> height a = 0 -> a = g.
Proof. destruct 1 as [|? p ? ? ? ? Hc]; [done|]. pose proof (chain_nonneg p _ Hc). lia. Qed.

Lemma chain_zero_eq a la b lb : chain a la -> chain b lb -> height a = 0 -> height b = 0 -> a = b.
Proof. intros Ha Hb Ea Eb. by rewrite (chain_zero a la Ha Ea), (chain_zero b lb Hb Eb). Qed.

Lemma reorgLoop_fork n a b la lb L R :
  chain a la -> chain b lb -> height a + height b <= Z.of_nat n ->
  exists l r, reorgLoop lts n a b L R = Ret (L ++ l, R ++ r) /\ fork la lb l r.
Proof.
  revert a b la lb L R. induction n as [|n IH]; intros a b la lb L R Ha Hb Hn; cbn [reorgLoop];
    pose proof (chain_nonneg a la Ha); pose proof (chain_nonneg b lb Hb);
    pose proof (Equals_stored a b (chain_self a la Ha) (chain_self b lb Hb)) as Heq.
  all: destruct (Equals (Some a) (Some b)); [destruct (proj1 Heq eq_refl); rewrite (chain_det a lb la Hb Ha); exists [], [];
    rewrite !app_nil_r; split; [done|by eapply fork_same]|].
  { exfalso. assert (a = b); [|naive_solver]. apply (chain_zero_eq a la b lb Ha Hb); lia. }
  assert (a <> b) as Hne by naive_solver. destruct (Z.ltb_spec (height b) (height a)).
  - destruct (chain_parent a la Ha) as (p & l & -> & -> & Hh & Hp); [lia|]. cbn [mbind outcome_bind].
    destruct (IH p b l lb (L ++ [a]) R Hp Hb) as (l' & r' & -> & Hf); [lia|]. exists (a :: l'), r'. rewrite <- app_assoc. split; [done|].
    eapply fork_left; [done|done| |done]. intros Hin. pose proof (chain_height b lb a Hb Hin). lia.
  - destruct (chain_parent b lb Hb) as (p & l & -> & -> & Hh & Hp); [intros Hz; apply Hne, (chain_zero_eq a la b lb Ha Hb); lia|].
    cbn [mbind outcome_bind]. destruct (IH a p la l L (R ++ [b]) Ha Hp) as (l' & r' & -> & Hf); [lia|]. exists l', (b :: r').
    rewrite <- app_assoc. split; [done|]. apply fork_sym. eapply fork_left; [done|done| |by apply fork_sym]. intros Hin.
    destruct (chain_head a la Ha) as [la' ->]. apply elem_of_cons in Hin as [?|Hin]; [done|]. pose proof (chain_below a la' b Ha Hin). lia.
Qed.

Lemma ReorgOps_fork a b la lb : chain a la -> chain b lb -> exists l r, ReorgOps lts a b = Ret (l, r) /\ fork la lb l r.
Proof. intros Ha Hb. pose proof (chain_nonneg a la Ha). pose proof (chain_nonneg b lb Hb). apply (reorgLoop_fork _ a b la lb [] []); [done|done|lia]. Qed.

(** ** Merging *)

(** What a chain has that the other has not. *)
Lemma fork_filter a la b lb l r :
  chain a la -> chain b lb -> fork la lb l r -> l = filter (fun x => K x ∉ keySet lb) la /\ r = filter (fun x => K x ∉ keySet la) lb.
Proof.
  intros Ha Hb (s & Hs & -> & -> & Hl & Hr). rewrite !filter_app. split.
  - rewrite (filter_all _ l) by (by apply Forall_forall). rewrite (filter_none _ s), app_nil_r; [done|].
    apply Forall_forall. intros x Hx Hn. apply Hn, elem_keySet. set_solver.
  - rewrite (filter_all _ r) by (by apply Forall_forall). rewrite (filter_none _ s), app_nil_r; [done|].
    apply Forall_forall. intros x Hx Hn. apply Hn, elem_keySet. set_solver.
Qed.

(** The tipsets to revert after two changes: those of the first that the second does not
    bring back, and those of the second that the first did not bring. *)
Lemma merge_side a la b lb c lc l1 r1 l2 r2 :
  chain a la -> chain b lb -> chain c lc -> fork la lb l1 r1 -> fork lb lc l2 r2 ->
  filter (fun x => K x ∉ keySet r1 /\ K x ∉ keySet r2) l1 ++ filter (fun x => K x ∉ keySet r1 /\ K x ∉ keySet r2) l2 =
  filter (fun x => K x ∉ keySet lc) la.
Proof.
  intros Ha Hb Hc F1 F2. destruct (fork_filter a la b lb l1 r1 Ha Hb F1) as [E1 E2]. destruct (fork_filter b lb c lc l2 r2 Hb Hc F2) as [E3 E4].
  assert (forall k, k ∈ keySet r1 <-> k ∈ keySet lb /\ k ∉ keySet la) as Hr1 by (intros k; rewrite E2; apply keySet_filter).
  assert (forall k, k ∈ keySet r2 <-> k ∈ keySet lc /\ k ∉ keySet lb) as Hr2 by (intros k; rewrite E4; apply keySet_filter).
  assert (forall x, x ∈ l1 -> K x ∉ keySet lb) as Hl1 by (intros x; rewrite E1, list_elem_of_filter; tauto).
  clear E1 E2 E4. destruct F1 as (s & _ & Ea & Eb & _ & _). rewrite Ea at 1. rewrite filter_app. f_equal.
  - apply filter_ext_in. intros x Hx. specialize (Hl1 x Hx). rewrite Hr1, Hr2. tauto.
  - rewrite E3, list_filter_filter, Eb, filter_app, filter_none; cbn [app].
    + apply filter_ext_in. intros x Hx. rewrite Hr1, Hr2.
      assert (K x ∈ keySet la) by (rewrite Ea; apply elem_keySet; set_solver). assert (K x ∈ keySet lb) by (rewrite Eb; apply elem_keySet; set_solver). tauto.
    + apply Forall_forall. intros x Hx [[Hn _] _]. by apply Hn, elem_keySet.
Qed.

(** The pending changes are the fork between the base and the head. *)
Lemma coalesce_fork a la b lb c lc l1 r1 l2 r2 cc :
  chain a la -> chain b lb -> chain c lc -> fork la lb l1 r1 -> fork lb lc l2 r2 -> c_revert cc = l1 -> c_apply cc = reverse r1 ->
  exists l3 r3, fork la lc l3 r3 /\ c_revert (coalesce l2 (reverse r2) cc) = l3 /\ c_apply (coalesce l2 (reverse r2) cc) = reverse r3.
Proof.
  intros Ha Hb Hc F1 F2 E1 E2. destruct (ReorgOps_fork a c la lc Ha Hc) as (l3 & r3 & _ & F3). exists l3, r3. split; [done|].
  destruct (fork_filter a la c lc l3 r3 Ha Hc F3) as [E3 E4]. unfold coalesce, merge. cbn [c_revert c_apply]. rewrite E1, E2, !keySet_reverse. split.
  - rewrite E3. by apply (merge_side a la b lb c lc).
  - rewrite !filter_reverse, <- reverse_app, E4. f_equal.
    rewrite <- (merge_side c lc b lb a la r2 l2 r1 l1 Hc Hb Ha) by (by apply fork_sym). f_equal; apply list_filter_iff; tauto.
Qed.

(** ** Ancestors *)

Lemma ancestorLoop_ok n a la cur lc :
  chain a la -> chain cur lc -> height cur - height a <= Z.of_nat n -> exists r, ancestorLoop lts n a cur = Ret r /\ stored r /\ (r = a <-> a ∈ lc).
Proof.
  intros Ha. revert cur lc. induction n as [|n IH]; intros cur lc Hc Hn; cbn [ancestorLoop];
    pose proof (Equals_stored a cur (chain_self a la Ha) (chain_self cur lc Hc)) as Heq; pose proof (chain_nonneg a la Ha);
    destruct (chain_head cur lc Hc) as [l' ->].
  all: assert (height cur <= height a -> cur = a <-> a ∈ cur :: l') as Hlow by
    (intros Hle; split; [intros ->; set_solver|]; intros [?|Hin]%elem_of_cons; [done|]; pose proof (chain_below cur l' a Hc Hin); lia).
  all: destruct (Equals (Some a) (Some cur)); cbn [negb andb]; [destruct (proj1 Heq eq_refl); exists a; split; [done|]; split; [by eapply chain_self|set_solver]|].
  all: destruct (Z.ltb_spec (height a) (height cur)); [|exists cur; split; [done|]; split; [by eapply chain_self|by apply Hlow]].
  - lia.
  - destruct (chain_parent cur _ Hc) as (p & l & [= ->] & -> & Hh & Hp); [lia|]. cbn [mbind outcome_bind].
    destruct (IH p l Hp) as (r & -> & Hs & Hr); [lia|]. exists r. split; [done|]. split; [done|]. rewrite Hr, elem_of_cons.
    assert (a <> cur) by (intros ->; lia). tauto.
Qed.

Lemma IsAncestorOf_ok a la b lb : chain a la -> chain b lb -> exists r, IsAncestorOf lts a b = Ret r /\ (r = true <-> a ∈ lb /\ a <> b).
Proof.
  intros Ha Hb. unfold IsAncestorOf. destruct (Z.leb_spec (height b) (height a)).
  - exists false. split; [done|]. split; [done|]. intros [Hin Hne]. destruct (chain_head b lb Hb) as [l ->].
    apply elem_of_cons in Hin as [?|Hin]; [done|]. pose proof (chain_below b l a Hb Hin). lia.
  - destruct (ancestorLoop_ok (Z.to_nat (height b - height a)) a la b lb Ha Hb) as (r & -> & Hs & Hr); [lia|]. cbn [mbind outcome_bind].
    eexists. split; [done|]. rewrite (Equals_stored r a Hs (chain_self a la Ha)), Hr. assert (a <> b) by (intros ->; lia). tauto.
Qed.

(** The common ancestor, if the first tipset is not an ancestor of the other. *)
Lemma NearestCommonAncestor_ok a la b lb :
  chain a la -> chain b lb -> a ∉ lb ->
  exists c, NearestCommonAncestor lts a b = Ret c /\ c ∈ la /\ c ∈ lb /\ (forall x, x ∈ la -> x ∈ lb -> height x <= height c).
Proof.
  intros Ha Hb Hn. unfold NearestCommonAncestor. destruct (ReorgOps_fork a b la lb Ha Hb) as (l & r & -> & s & Hs & -> & -> & Hl & Hr).
  cbn [mbind outcome_bind]. destruct l as [|t l _] using rev_ind.
  { destruct (chain_head a _ Ha) as [l' E]. cbn in E. rewrite E in Hn. set_solver. }
  rewrite last_snoc. rewrite <- app_assoc in Ha. pose proof (chain_suffix _ _ _ _ Ha) as Ht.
  inversion Ht as [|? p ? ? Hp Hh Hc]; subst; [done|]. exists p. destruct (chain_head p s Hc) as [s' ->]. split; [done|].
  split; [set_solver|]. split; [set_solver|]. intros x Hx Hy. apply (chain_height p (p :: s')); [done|].
  rewrite !elem_of_app in Hx. destruct Hx as [[Hx|Hx]|Hx]; [..|done]; (exfalso; eapply (Hl x); [set_solver|by apply elem_keySet]).
Qed.

Lemma NearestCommonAncestor_panics a la b lb : chain a la -> chain b lb -> a ∈ lb -> NearestCommonAncestor lts a b = Panic.
Proof.
  intros Ha Hb Hin. unfold NearestCommonAncestor. destruct (ReorgOps_fork a b la lb Ha Hb) as (l & r & -> & s & Hs & -> & -> & Hl & Hr).
  cbn [mbind outcome_bind]. destruct l as [|t l]; [done|]. destruct (chain_head a _ Ha) as [? [= -> _]].
  exfalso. apply (Hl a); [set_solver|by apply elem_keySet].
Qed.

(** ** Lookups by height *)

(** The lowest tipset at or above a height. *)
Definition nearest (l : list TipSet) (to : Z) (r : TipSet) : Prop :=
  exists l1 l2, l = l1 ++ r :: l2 /\ to <= height r /\ (forall x, x ∈ l2 -> height x < to).

Lemma nearest_app l1 l2 to r : nearest l2 to r -> nearest (l1 ++ l2) to r.
Proof. intros (k1 & k2 & -> & ?). exists (l1 ++ k1), k2. by rewrite <- app_assoc. Qed.

Lemma nearest_exact ts l : chain ts (ts :: l) -> nearest (ts :: l) (height ts) ts.
Proof. intros Hc. exists [], l. split; [done|]. split; [lia|]. intros x Hx. by apply (chain_below ts l). Qed.

Lemma walkLoop_ok n ts l to :
  chain ts l -> 0 <= to < height ts -> height ts - to <= Z.of_nat n -> exists r, walkLoop lts n ts to = Ret r /\ nearest l to r.
Proof.
  revert ts l. induction n as [|n IH]; intros ts l Hc Hto Hn; [lia|]. cbn [walkLoop].
  destruct (chain_parent ts l Hc) as (p & l' & -> & -> & Hh & Hp); [lia|]. cbn [mbind outcome_bind].
  destruct (chain_head p l' Hp) as [l'' ->]. destruct (Z.ltb_spec (height p) to).
  - exists ts. split; [done|]. exists [], (p :: l''). split; [done|]. split; [lia|]. intros x Hx. pose proof (chain_height p _ x Hp Hx). lia.
  - destruct (Z.eqb_spec to (height p)) as [->|Hne]; [exists p; split; [done|]; by apply (nearest_app [ts]), nearest_exact|].
    destruct (IH p _ Hp) as (r & -> & Hr); [lia|lia|]. exists r. split; [done|by apply (nearest_app [ts])].
Qed.

Lemma walkBack_ok ts l to : chain ts l -> 0 <= to <= height ts -> exists r, walkBack lts ts to = Ret r /\ nearest l to r.
Proof.
  intros Hc Hto. unfold walkBack. destruct (Z.ltb_spec (height ts) to); [lia|]. destruct (Z.eqb_spec to (height ts)) as [->|Hne].
  - exists ts. split; [done|]. destruct (chain_head ts l Hc) as [l' ->]. by apply nearest_exact.
  - apply walkLoop_ok; [done|lia|lia].
Qed.

(** An entry of the index leads to a lower ancestor, or stays at the genesis. *)
Definition entry_ok (k : TipSetKey) (e : lbEntry) : Prop :=
  exists ts l t, k = K ts /\ chain ts l /\ t ∈ l /\ e = {| targetHeight := height t; target := K t |} /\
    (height t < height ts \/ height ts = 0).

Definition cache_ok (c : gmap TipSetKey lbEntry) : Prop := forall k e, c !! k = Some e -> entry_ok k e.

Lemma fillCache_ok ts l : chain ts l -> exists e, fillCache lts (K ts) = Ret e /\ entry_ok (K ts) e.
Proof.
  intros Hc. unfold fillCache. rewrite (chain_self ts l Hc). cbn [mbind outcome_bind]. destruct (Z.eqb_spec (height ts) 0) as [E|Hne].
  - eexists. split; [done|]. exists ts, l, ts. destruct (chain_head ts l Hc) as [? ->]. rewrite E. split_and!; [done|done|set_solver|done|by right].
  - destruct (chain_parent ts l Hc Hne) as (p & l' & -> & -> & Hh & Hp). cbn [mbind outcome_bind].
    set (rh := if _ <? 0 then _ else _). assert (0 <= rh) by (unfold rh; zcases).
    assert (exists t, (if height p <? rh then Ret p else walkBack lts p rh) = Ret t /\ t ∈ l') as (t & -> & Ht).
    { destruct (chain_head p l' Hp) as [l'' ->]. destruct (Z.ltb_spec (height p) rh); [exists p; split; [done|set_solver]|].
      destruct (walkBack_ok p _ rh Hp) as (t & Et & l1 & l2 & E & _); [lia|]. exists t. split; [done|]. rewrite E. set_solver. }
    eexists. split; [done|]. exists ts, (ts :: l'), t. pose proof (chain_height p l' t Hp Ht). split_and!; [done|done|set_solver|done|left; lia].
Qed.

Lemma loadEntry_ok ts l c :
  chain ts l -> cache_ok c -> exists e c', loadEntry lts (K ts) c = (Ret e, c') /\ entry_ok (K ts) e /\ cache_ok c'.
Proof.
  intros Hc Hok. unfold loadEntry. destruct (c !! K ts) as [e|] eqn:E; [exists e, c; split; [done|]; split; [by apply Hok|done]|].
  destruct (fillCache_ok ts l Hc) as (e & -> & He). exists e, (<[K ts := e]> c). split; [done|]. split; [done|].
  intros k e'. rewrite lookup_insert_Some. intros [[<- <-]|[_ ?]]; [done|by apply Hok].
Qed.

Lemma indexLoop_ok n ts l to c :
  chain ts l -> cache_ok c -> 0 <= to <= height ts -> height ts < Z.of_nat n ->
  exists r c', indexLoop lts n (K ts) to c = (Ret r, c') /\ cache_ok c' /\ nearest l to r.
Proof.
  revert ts l c. induction n as [|n IH]; intros ts l c Hc Hok Hto Hn; [lia|]. cbn [indexLoop].
  destruct (loadEntry_ok ts l c Hc Hok) as (e & c' & -> & (ts' & l' & t & Ek & Hc' & Ht & -> & Hlow) & Hok'). cbn [targetHeight target].
  destruct (stored_inj ts ts' (chain_self _ _ Hc) (chain_self _ _ Hc') Ek). rewrite (chain_det ts l' l Hc' Hc) in Ht. clear Hc' Ek.
  pose proof (chain_height ts l t Hc Ht). destruct (chain_elem ts l t Hc Ht) as (l1 & l2 & -> & Hct). destruct (Z.eqb_spec to (height t)) as [->|Hne].
  - exists t, c'. split; [by rewrite (chain_self t _ Hct)|]. split; [done|]. by apply nearest_app, nearest_exact.
  - destruct (Z.ltb_spec (height t) to).
    + destruct (walkBack_ok ts _ to Hc Hto) as (r & Er & Hr). exists r, c'. rewrite (chain_self ts _ Hc). cbn [mbind outcome_bind]. by rewrite Er.
    + destruct (IH t (t :: l2) c' Hct Hok') as (r & c2 & -> & ? & Hr); [lia|lia|]. exists r, c2. split; [done|]. split; [done|by apply nearest_app].
Qed.

Lemma GetTipsetByHeight_ok ts l to c :
  chain ts l -> cache_ok c -> 0 <= to <= height ts ->
  exists r c', GetTipsetByHeight lts ts to c = (Ret r, c') /\ cache_ok c' /\ nearest l to r.
Proof.
  intros Hc Hok Hto. unfold GetTipsetByHeight. destruct (Z.leb_spec (height ts - to) skipLength).
  - destruct (walkBack_ok ts l to Hc Hto) as (r & -> & Hr). eauto.
  - unfold roundDown, roundHeight, skipLength in *. pose proof (Z.quot_rem' (height ts) 20) as Eq. pose proof (Z.rem_bound_pos (height ts) 20 ltac:(lia) ltac:(lia)).
    destruct (walkBack_ok ts l (Z.quot (height ts) 20 * 20) Hc) as (r & -> & l1 & l2 & -> & Hr & _); [lia|].
    pose proof (chain_suffix _ _ _ _ Hc) as Hcr. pose proof (chain_nonneg r _ Hcr).
    destruct (indexLoop_ok (S (Z.to_nat (height r))) r _ to c Hcr Hok) as (x & c' & -> & ? & Hx); [lia|lia|].
    exists x, c'. split; [done|]. split; [done|by apply nearest_app].
Qed.

(** ** Paths *)

(** A path of head changes on the chain of the head. *)
Fixpoint replay (path : list (HeadChangeType * TipSet)) (l : list TipSet) : option (list TipSet) :=
  match path with
  | [] => Some l
  | (HCRevert, ts) :: path =>
      match l with
      | t :: l => if bool_decide (K t = K ts) then replay path l else None
      | [] => None
      end
  | (HCApply, ts) :: path => replay path (ts :: l)
  end.

Lemma replay_reverts l s path : replay ((pair HCRevert <$> l) ++ path) (l ++ s) = replay path s.
Proof. induction l as [|x l IH]; cbn; [done|]. by rewrite bool_decide_eq_true_2. Qed.

Lemma replay_applies r s : replay (pair HCApply <$> reverse r) s = Some (r ++ s).
Proof.
  revert s. induction r as [|x r IH] using rev_ind; intros s; [done|].
  rewrite reverse_snoc. cbn. rewrite IH. by rewrite <- app_assoc.
Qed.

Lemma elem_pair (c c' : HeadChangeType) ts (l : list TipSet) : (c, ts) ∈ (pair c' <$> l) -> c = c' /\ ts ∈ l.
Proof. intros (x & [= -> ->] & Hx)%list_elem_of_fmap. done. Qed.


(** ** Lookups of the chain store *)

(** What a lookup at height [h] from [ts] must give. *)
Definition lookup_answer (q : Z * TipSet * bool) (r : outcome TipSet) : Prop :=
  let '(h, ts, prev) := q in
  if (h <? 0) || (height ts <? h) then exists e, r = Err e
  else
    exists l t, chain ts l /\ t ∈ l /\ r = Ret t /\
      (height t = h \/
       (forall x, x ∈ l -> height x <> h) /\
       if prev then height t < h /\ (forall x, x ∈ l -> height x < h -> height x <= height t)
       else h < height t /\ (forall x, x ∈ l -> h < height x -> height t <= height x)).

Fixpoint lookups (qs : list (Z * TipSet * bool)) (c : gmap TipSetKey lbEntry) : list (outcome TipSet) :=
  match qs with
  | [] => []
  | (h, ts, prev) :: qs => let '(r, c) := cs_GetTipsetByHeight lts None h (Some ts) prev c in r :: lookups qs c
  end.

(** Above and below a tipset of a chain. *)
Lemma chain_split_heights ts l1 r l2 x : chain ts (l1 ++ r :: l2) -> x ∈ l1 ++ r :: l2 -> height r < height x \/ x = r \/ x ∈ l2.
Proof.
  revert ts. induction l1 as [|y l1 IH]; cbn; intros ts Hc [->|Hx]%elem_of_cons; [tauto|tauto|..].
  - left. destruct (chain_head ts _ Hc) as [? [= -> _]]. apply (chain_below ts _ r Hc). set_solver.
  - destruct (chain_head ts _ Hc) as [? [= -> _]]. inversion Hc as [|? p ? ? ? ? Hp]; subst; [by destruct l1|by eapply IH].
Qed.

Lemma nearest_answer ts l h r prev :
  chain ts l -> 0 <= h -> nearest l h r ->
  exists t, (if (height r =? h) || negb prev then Ret r else loadParent lts r) = Ret t /\
    exists l t', chain ts l /\ t' ∈ l /\ Ret t = Ret t' /\
      (height t' = h \/ (forall x, x ∈ l -> height x <> h) /\
       if prev then height t' < h /\ (forall x, x ∈ l -> height x < h -> height x <= height t')
       else h < height t' /\ (forall x, x ∈ l -> h < height x -> height t' <= height x)).
Proof.
  intros Hc Hh (l1 & l2 & -> & Hr & Hlow). pose proof (chain_suffix _ _ _ _ Hc) as Hcr.
  pose proof (fun x => chain_split_heights ts l1 r l2 x Hc) as Hsp. destruct (Z.eqb_spec (height r) h) as [E|Hne]; cbn [orb].
  { exists r. split; [done|]. exists (l1 ++ r :: l2), r. split_and!; [done|set_solver|done|by left]. }
  assert (forall x, x ∈ l1 ++ r :: l2 -> height x <> h) as Hno.
  { intros x Hx. destruct (Hsp x Hx) as [?|[->|Hx2]]; [lia|done|specialize (Hlow x Hx2); lia]. }
  destruct prev; cbn [negb].
  - destruct (chain_parent r _ Hcr) as (p & l' & [= <-] & -> & Hp & Hcp); [lia|]. destruct (chain_head p l2 Hcp) as [l'' ->].
    exists p. split; [done|]. exists (l1 ++ r :: p :: l''), p. split_and!; [done|set_solver|done|right].
    split; [done|]. split; [apply Hlow; set_solver|]. intros x Hx Hlt. destruct (Hsp x Hx) as [?|[->|Hx2]]; [lia|lia|].
    by apply (chain_height p (p :: l'')).
  - exists r. split; [done|]. exists (l1 ++ r :: l2), r. split_and!; [done|set_solver|done|right].
    split; [done|]. split; [lia|]. intros x Hx Hlt. destruct (Hsp x Hx) as [?|[->|Hx2]]; [lia|lia|specialize (Hlow x Hx2); lia].
Qed.

Lemma cs_lookup_ok h ts l prev c :
  chain ts l -> cache_ok c ->
  exists r c', cs_GetTipsetByHeight lts None h (Some ts) prev c = (r, c') /\ cache_ok c' /\ lookup_answer (h, ts, prev) r.
Proof.
  intros Hc Hok. unfold cs_GetTipsetByHeight, lookup_answer.
  destruct (Z.ltb_spec h 0); [do 2 eexists; split; [done|]; split; [done|]; by eexists|]. cbn [orb].
  destruct (Z.ltb_spec (height ts) h); [do 2 eexists; split; [done|]; split; [done|]; by eexists|]. destruct (Z.eqb_spec h (height ts)) as [->|Hne].
  - exists (Ret ts), c. split; [done|]. split; [done|]. exists l, ts. destruct (chain_head ts l Hc) as [? ->]. split_and!; [done|set_solver|done|by left].
  - destruct (GetTipsetByHeight_ok ts l h c Hc Hok) as (r & c' & -> & Hok' & Hr); [lia|].
    assert ((height r <? h) = false) as E by (destruct Hr as (? & ? & _ & ? & _); by apply Z.ltb_ge).
    destruct (nearest_answer ts l h r prev Hc ltac:(lia) Hr) as (t & Et & Ha). exists (Ret t), c'. cbn [mbind outcome_bind]. rewrite E.
    cbn [mbind outcome_bind]. by rewrite Et.
Qed.

(** [C23] Whatever lookups filled the skip index, a lookup by height gives the tipset of the
    chain at that height, or, in a null round, the nearest one below or above as asked for; a
    height that is negative or above the start is an error. *)
Theorem index_lookups qs : Forall (fun q => exists l, chain q.1.2 l) qs -> Forall2 lookup_answer qs (lookups qs ∅).
Proof.
  assert (cache_ok ∅) as Hok by (intros ? ? E; by rewrite lookup_empty in E). revert Hok. generalize (∅ : gmap TipSetKey lbEntry).
  induction qs as [|[[h ts] prev] qs IH]; intros c Hok Hqs; [constructor|]. apply Forall_cons in Hqs as [[l Hc] Hqs].
  destruct (cs_lookup_ok h ts l prev c Hc Hok) as (r & c' & E & Hok' & Ha). cbn [lookups]. rewrite E. constructor; [done|by apply IH].
Qed.

(** ** Runs of the coalescer *)

Section coalescing.
Context (minDelay maxDelay mergeInterval : Z).

Inductive headEvent :=
  | NewHead (now : Z) (new : TipSet)
  | TimerFires.

(** The heads as the reorg worker reports them, and the timer.  A notification comes with the
    time of the first change in it, its own time, and the head. *)
Fixpoint runHeads (es : list headEvent) (cur : TipSet) (c : HeadChangeCoalescer) :
    outcome (list (Z * Z * TipSet * (list TipSet * list TipSet)) * (TipSet * HeadChangeCoalescer)) :=
  match es with
  | [] => Ret ([], (cur, c))
  | NewHead now new :: es =>
      '(revert, apply) ← reorgNotify lts cur new;
      runHeads es new (onEvent minDelay now revert apply c)
  | TimerFires :: es =>
      match timerC c with
      | None => runHeads es cur c
      | Some t =>
          let '(c', out) := onTimer minDelay maxDelay mergeInterval t c in
          '(rest, fin) ← runHeads es cur c';
          Ret (match out with Some change => (default 0 (first c), t, cur, change) :: rest | None => rest end, fin)
      end
  end.

(** Each notification is the change from the head of the one before, and not too late. *)
Fixpoint linked (base : TipSet) (out : list (Z * Z * TipSet * (list TipSet * list TipSet))) (cur : TipSet) (c : HeadChangeCoalescer) : Prop :=
  match out with
  | [] =>
      reorgNotify lts base cur = Ret (c_revert c, c_apply c) /\
      match timerC c with
      | Some t => exists f, first c = Some f /\ t <= f + Z.max minDelay maxDelay
      | None => base = cur
      end
  | (f, t, head, change) :: out =>
      reorgNotify lts base head = Ret change /\ t <= f + Z.max minDelay maxDelay /\ linked head out cur c
  end.

Record pending_ok (base cur : TipSet) (c : HeadChangeCoalescer) : Prop := {
  po_fork : exists lb lc r, chain base lb /\ chain cur lc /\ fork lb lc (c_revert c) r /\ c_apply c = reverse r;
  po_time : match timerC c with
            | Some t => exists f, first c = Some f /\ t <= f + Z.max minDelay maxDelay
            | None => base = cur /\ first c = None
            end;
}.

Lemma pending_start h l : chain h l -> pending_ok h h NewHeadChangeCoalescer.
Proof. intros Hc. split; [|done]. exists l, l, []. split_and!; [done|done|by eapply fork_same|done]. Qed.

Lemma pending_notify base cur c : pending_ok base cur c -> reorgNotify lts base cur = Ret (c_revert c, c_apply c).
Proof.
  intros [(lb & lc & r & Hb & Hc & Hf & ->) _]. unfold reorgNotify. destruct (ReorgOps_fork base cur lb lc Hb Hc) as (l' & r' & -> & Hf').
  destruct (fork_filter base lb cur lc _ _ Hb Hc Hf) as [-> ->]. destruct (fork_filter base lb cur lc _ _ Hb Hc Hf') as [-> ->]. done.
Qed.

Lemma pending_event base cur c now new ln :
  pending_ok base cur c -> chain new ln ->
  exists revert apply, reorgNotify lts cur new = Ret (revert, apply) /\ pending_ok base new (onEvent minDelay now revert apply c).
Proof.
  intros [(lb & lc & r & Hb & Hc & Hf & Er) Ht] Hn. unfold reorgNotify. destruct (ReorgOps_fork cur new lc ln Hc Hn) as (l2 & r2 & -> & Hf2).
  do 2 eexists. split; [done|]. split.
  - destruct (coalesce_fork base lb cur lc new ln _ r l2 r2 c Hb Hc Hn Hf Hf2 eq_refl Er) as (l3 & r3 & Hf3 & E3 & E4).
    exists lb, ln, r3. unfold onEvent. cbn [c_revert c_apply]. rewrite E3. done.
  - unfold onEvent, coalesce. cbn [timerC first]. destruct (timerC c) as [t|]; [destruct Ht as (f & -> & ?); eauto|].
    destruct Ht as [_ ->]. exists now. split; [done|lia].
Qed.

Lemma pending_timer base cur c t :
  pending_ok base cur c -> timerC c = Some t ->
  t <= default 0 (first c) + Z.max minDelay maxDelay /\
  (let '(c', out) := onTimer minDelay maxDelay mergeInterval t c in
   match out with
   | None => pending_ok base cur c'
   | Some change => reorgNotify lts base cur = Ret change /\ pending_ok cur cur c'
   end).
Proof.
  intros HI Et. pose proof (pending_notify base cur c HI) as Hn. destruct HI as [Hf Ht]. rewrite Et in Ht. destruct Ht as (f & Ef & Hle).
  unfold onTimer. rewrite Ef. cbn [default from_option id]. split; [done|]. destruct (_ && _) eqn:Ewait.
  - split; [done|]. cbn [timerC first]. exists f. split; [done|]. zcases.
  - split; [done|]. destruct Hf as (_ & lc & _ & _ & Hc & _). by eapply pending_start.
Qed.

(** [C20] Over any sequence of head changes and timers every notification of the coalescer is
    exactly the change from the head at the last notification to the current one: reverts from
    the old head down and applies up to the new, with everything that cancels out removed.
    What is pending is the change to the current head, and no change waits longer than the
    maximal delay (or one minimal delay, if that is longer). *)
Theorem coalesced_is_reorg h0 es :
  (exists l, chain h0 l) -> (forall now new, NewHead now new ∈ es -> exists l, chain new l) ->
  exists out cur c, runHeads es h0 NewHeadChangeCoalescer = Ret (out, (cur, c)) /\ linked h0 out cur c.
Proof.
  intros [l0 H0] Hes. pose proof (pending_start h0 l0 H0) as HI. revert HI. generalize h0 at 2 3 as cur, NewHeadChangeCoalescer as c.
  clear H0. revert h0 Hes. induction es as [|[now new|] es IH]; intros base Hes cur c HI; cbn [runHeads].
  - exists [], cur, c. split; [done|]. cbn. split; [by apply pending_notify|]. pose proof (po_time _ _ _ HI). destruct (timerC c); naive_solver.
  - destruct (Hes now new) as [ln Hn]; [set_solver|]. destruct (pending_event base cur c now new ln HI Hn) as (rv & ap & -> & HI').
    cbn [mbind outcome_bind]. apply IH; [set_solver|done].
  - destruct (timerC c) as [t|] eqn:Et; [|apply IH; [set_solver|done]]. destruct (pending_timer base cur c t HI Et) as [Hle Hout].
    destruct (onTimer _ _ _ t c) as [c' [change|]].
    + destruct Hout as [Hch HI']. destruct (IH cur ltac:(set_solver) cur c' HI') as (out & cur' & c2 & -> & Hl). cbn [mbind outcome_bind].
      do 3 eexists. split; [done|]. by split_and!.
    + destruct (IH base ltac:(set_solver) cur c' Hout) as (out & cur' & c2 & -> & Hl). cbn [mbind outcome_bind]. eauto 10.
Qed.
End coalescing.
End chains.

(** ** Loading *)

(** The cache of tipsets does not change what is loaded. *)
Lemma LoadTipSet_cached `{Hashing} GetBlock tsk cache :
  (forall k ts, cache !! k = Some ts -> readTipSet GetBlock k = Ret ts) ->
  (LoadTipSet GetBlock tsk cache).1 = readTipSet GetBlock tsk /\
  (forall k ts, (LoadTipSet GetBlock tsk cache).2 !! k = Some ts -> readTipSet GetBlock k = Ret ts).
Proof.
  intros Hc. unfold LoadTipSet. destruct (cache !! tsk) as [ts|] eqn:E; [by rewrite (Hc tsk ts E)|].
  destruct (readTipSet GetBlock tsk) as [ts| |] eqn:Er; [|done|done]. split; [done|]. cbn. intros k t. rewrite lookup_insert_Some.
  intros [[<- <-]|[_ ?]]; [done|by apply Hc].
Qed.

(** A store that has the blocks of a tipset under their CIDs has the tipset. *)
Lemma built_stored `{HashingOk} GetBlock l ts :
  NewTipSet l = Ret ts -> NoDup (Block_Cid <$> l) -> collision_free l -> (forall b, b ∈ l -> GetBlock (Block_Cid b) = Ret b) ->
  stored (readTipSet GetBlock) ts.
Proof.
  intros Ets Hnd Hcf Hget. unfold stored, readTipSet. cbn [Key]. rewrite key_cids by (by eapply built_cids_valid). cbn [mbind outcome_bind].
  pose proof (sortSlice_perm tipsetLess l) as Hp. pose proof Ets as (b0 & rest & Es & _ & Ets')%NewTipSet_inv. rewrite Ets'. cbn [cids].
  assert (loadBlocks GetBlock (Block_Cid <$> b0 :: rest) = Ret (b0 :: rest)) as ->.
  { assert (forall b, b ∈ b0 :: rest -> GetBlock (Block_Cid b) = Ret b) as Hg by (intros b Hb; apply Hget; by rewrite <- Hp, Es).
    clear -Hg. induction (b0 :: rest) as [|b k IH]; [done|]. cbn [fmap list_fmap loadBlocks]. rewrite Hg by set_solver. cbn [mbind outcome_bind].
    by rewrite IH by set_solver. }
  cbn [mbind outcome_bind]. rewrite <- Ets', <- Ets, <- Es. unfold NewTipSet. by rewrite <- (sort_canonical l (sortSlice tipsetLess l)).
Qed.

(** ** A concrete chain with a fork *)

Definition demoTs (n h : Z) (parent : list Cid) : TipSet := {|
  cids := [[1; n]];
  blks := [{| Miner := "t01000"; BlockTicket := {| VRFProof := [n] |}; ElectionProof := None; BeaconEntries := []; WinPoStProof := [];
    BlockParents := parent; BlockParentWeight := 0; BlockHeight := h; ParentStateRoot := []; ParentReceipts := [];
    Messages := []; BLSAggregate := None; Timestamp := n; BlockSig := None; ForkSignaling := 0; ParentBaseFee := 0;
    validated := true |}];
  height := h;
|}.

Definition c0 := demoTs 0 0 [].
Definition c3 := demoTs 3 3 [[1; 0]].
Definition c21 := demoTs 21 21 [[1; 3]].
Definition c45 := demoTs 45 45 [[1; 21]].
Definition d30 := demoTs 30 30 [[1; 21]].
Definition d46 := demoTs 46 46 [[1; 30]].

Definition demoLts (k : TipSetKey) : outcome TipSet :=
  match list_find (fun t => K t = k) [c0; c3; c21; c45; d30; d46] with
  | Some (_, t) => Ret t
  | None => Err "not found"
  end.

Lemma demo_chain21 : chain demoLts c0 c21 [c21; c3; c0].
Proof. repeat first [by apply chain_genesis|eapply chain_child; [done|done|done|]]. Qed.

Lemma demo_chain45 : chain demoLts c0 c45 [c45; c21; c3; c0].
Proof. eapply chain_child; [done|done|done|apply demo_chain21]. Qed.

Lemma demo_chain46 : chain demoLts c0 d46 [d46; d30; c21; c3; c0].
Proof. do 2 (eapply chain_child; [done|done|done|]). apply demo_chain21. Qed.


Definition demoQueries : list (Z * TipSet * bool) := [(10, d46, true); (10, d46, false); (3, c45, true); (60, c45, true); (2, d46, false)].

Lemma index_lookups_witness :
  Forall2 (lookup_answer demoLts c0) demoQueries (lookups demoLts demoQueries ∅) /\
  (fun r => match r with Ret ts => Some (height ts) | _ => None end) <$> lookups demoLts demoQueries ∅ = [Some 3; Some 21; Some 3; None; Some 3].
Proof.
  split; [|by vm_compute]. apply index_lookups. unfold demoQueries. pose proof demo_chain45. pose proof demo_chain46. repeat constructor; eauto.
Defined.

(** A head change to the fork and back again, and one that stays. *)
Definition demoHeads : list headEvent := [NewHead 100 d46; NewHead 101 c45; TimerFires; NewHead 200 d46; TimerFires; TimerFires].

Lemma coalesced_is_reorg_witness :
  (exists out cur c, runHeads demoLts 5 20 3 demoHeads c45 NewHeadChangeCoalescer = Ret (out, (cur, c)) /\ linked demoLts 5 20 c45 out cur c) /\
  (exists c, runHeads demoLts 5 20 3 demoHeads c45 NewHeadChangeCoalescer = Ret ([(100, 105, c45, ([], [])); (200, 205, d46, ([c45], [d30; d46]))], (d46, c))).
Proof.
  split; [|eexists; by vm_compute]. apply (coalesced_is_reorg demoLts c0).
  - exists [c45; c21; c3; c0]. apply demo_chain45.
  - intros now new Hin. unfold demoHeads in Hin. rewrite !elem_of_cons, elem_of_nil in Hin. pose proof demo_chain45. pose proof demo_chain46. naive_solver.
Defined.

(** The nearest common ancestor of a tipset and one of its descendants panics. *)
Lemma nca_of_descendant : NearestCommonAncestor demoLts c21 d46 = Panic.
Proof. exact (NearestCommonAncestor_panics demoLts c0 c21 _ d46 _ demo_chain21 demo_chain46 ltac:(set_solver)). Qed.
