(* ===== verification/ChainHead.v ===== *)
(** * The head of the chain: chain/store/store.go

    The blocks that were received are tracked by height; the head is the heaviest tipset that
    can be formed of them, without the blocks of miners that made two at a height, unless it is
    on a fork that is too long or that leaves the checkpoint.  The blocks, the weight function
    and the writes to the stores are the operations of [ChainStoreOps]; the order in which Go
    goes over a map is an argument. *)

From S2P Require Import Prelude TipSet ChainStore.

Class ChainStoreOps := {
  GetBlock : Cid -> outcome BlockHeader;
  Weight : option TipSet -> outcome Z; (* [None] is nil *)
  writeHead : TipSet -> outcome unit;
  putKeyBlock : TipSet -> outcome unit; (* [ToStorageBlock], [Put] *)
  putCheckpoint : TipSet -> outcome unit; (* [json.Marshal], [Put] *)
  deleteCheckpoint : outcome unit;
  ForkLengthThreshold : Z;
  Finality : Z;
}.

Record ChainStore := {
  heaviest : option TipSet;
  checkpoint : option TipSet;
  tipsets : gmap Z (list Cid);
  reorgCh : list (TipSet * TipSet); (* what was sent *)
}.

Section head.
Context `{Hashing} `{BigOps} `{ChainStoreOps}.

(** [LoadTipSet], of which the cache changes nothing. *)
Definition lts : TipSetKey -> outcome TipSet := readTipSet GetBlock.

(** ** Tracking blocks *)

(** [pick] is the height that the loop over the map starts, and ends, with. *)
Definition AddToTipSetTracker (pick : option Z) (b : BlockHeader) (cs : ChainStore) : ChainStore :=
  let tss := default [] (tipsets cs !! BlockHeight b) in
  if bool_decide (Block_Cid b ∈ tss) then cs
  else
    let kept :=
      match pick with
      | Some h => if h <? BlockHeight b - Finality then delete h (tipsets cs) else tipsets cs
      | None => tipsets cs
      end in
    {| heaviest := heaviest cs; checkpoint := checkpoint cs; tipsets := <[BlockHeight b := tss ++ [Block_Cid b]]> kept; reorgCh := reorgCh cs |}.

(** ** The heaviest tipset of a height *)

Definition breakWeightTie (ts1 ts2 : option TipSet) : outcome bool :=
  t1 ← deref ts1;
  t2 ← deref ts2;
  Ret (existsb (fun '(b1, b2) => Ticket_Less (BlockTicket b1) (BlockTicket b2)) (zip (blks t1) (blks t2))).

(** The first loop: the miners with two blocks, and the first block of every miner. *)
Fixpoint scanBlocks (blockCids : list Cid) (seenMiners badMiners : gset Address) (blocks : list BlockHeader) :
    outcome (gset Address * list BlockHeader) :=
  match blockCids with
  | [] => Ret (badMiners, blocks)
  | bhc :: blockCids =>
      h ← GetBlock bhc;
      if decide (Miner h ∈ seenMiners) then scanBlocks blockCids seenMiners ({[Miner h]} ∪ badMiners) blocks
      else scanBlocks blockCids ({[Miner h]} ∪ seenMiners) badMiners (blocks ++ [h])
  end.

(** The second loop: the blocks of the other miners by their parents. *)
Definition groupBlocks (badMiners : gset Address) (blocks : list BlockHeader) : gmap TipSetKey (list BlockHeader) :=
  foldl (fun formable h =>
    if decide (Miner h ∈ badMiners) then formable
    else
      let ptsk := NewTipSetKey (BlockParents h) in
      <[ptsk := default [] (formable !! ptsk) ++ [h]]> formable) ∅ blocks.

(** The third loop: the heaviest of the tipsets. *)
Fixpoint pickHeaviest (groups : list (TipSetKey * list BlockHeader)) (maxTs : option TipSet) (maxWeight : Z) : outcome (option TipSet * Z) :=
  match groups with
  | [] => Ret (maxTs, maxWeight)
  | (_, headers) :: groups =>
      ts ← NewTipSet headers;
      weight ← Weight (Some ts);
      heavier ← (if big_Equals weight maxWeight then breakWeightTie (Some ts) maxTs else Ret (big_GreaterThan weight maxWeight));
      if (heavier : bool) then pickHeaviest groups (Some ts) weight else pickHeaviest groups maxTs maxWeight
  end.

Notation orderT := (list (TipSetKey * list BlockHeader) -> list (TipSetKey * list BlockHeader)).

Definition FormHeaviestTipSetForHeight (order : orderT) (h : Z) (tss : gmap Z (list Cid)) : outcome (option TipSet * Z) :=
  match tss !! h with
  | None => Ret (None, big_NewInt 0)
  | Some blockCids =>
      '(badMiners, blocks) ← scanBlocks blockCids ∅ ∅ [];
      pickHeaviest (order (map_to_list (groupBlocks badMiners blocks))) None (big_NewInt 0)
  end.

(** ** Forks *)

(** The inner loop; [None] if the start of the other chain is reached. *)
Fixpoint externalLoop (n : nat) (external : TipSet) (h : Z) : outcome (option TipSet) :=
  if h <? height external then
    if height external =? 0 then Ret None
    else
      match n with
      | O => Panic
      | S n => external ← loadParent lts external; externalLoop n external h
      end
  else Ret (Some external).

Fixpoint forkLoop (n : nat) (cp : option TipSet) (synced external : TipSet) : outcome bool :=
  match n with
  | O => Ret true
  | S n =>
      ext ← externalLoop (Z.to_nat (height external - height synced)) external (height synced);
      match ext with
      | None => Ret true
      | Some external =>
          if Equals (Some synced) (Some external) then Ret false
          else if Equals (Some synced) cp then Ret true
          else if height synced =? 0 then Ret true
          else synced ← loadParent lts synced; forkLoop n cp synced external
      end
  end.

Definition exceedsForkLength (cp : option TipSet) (synced external : option TipSet) : outcome bool :=
  match synced, external with
  | Some synced, Some external => forkLoop (Z.to_nat ForkLengthThreshold) cp synced external
  | _, _ => Ret false
  end.

(** ** The head *)

Definition setHeaviest (ts : TipSet) (cs : ChainStore) : ChainStore :=
  {| heaviest := Some ts; checkpoint := checkpoint cs; tipsets := tipsets cs; reorgCh := reorgCh cs |}.

Definition sendReorg (old new : TipSet) (cs : ChainStore) : ChainStore :=
  {| heaviest := heaviest cs; checkpoint := checkpoint cs; tipsets := tipsets cs; reorgCh := reorgCh cs ++ [(old, new)] |}.

Definition setCheckpoint (cp : option TipSet) (cs : ChainStore) : ChainStore :=
  {| heaviest := heaviest cs; checkpoint := cp; tipsets := tipsets cs; reorgCh := reorgCh cs |}.

(** The head is set also when writing it fails. *)
Definition takeHeaviestTipSet (ts : TipSet) (cs : ChainStore) : outcome unit * ChainStore :=
  let prevHeaviest := heaviest cs in
  let cs := setHeaviest ts cs in
  match (_ ← writeHead ts; putKeyBlock ts) with
  | Ret _ => (Ret tt, match prevHeaviest with Some prev => sendReorg prev ts cs | None => cs end)
  | r => (r, cs)
  end.

(** The heights around the head, after an equivocation. *)
Fixpoint searchHeights (orders : nat -> orderT) (k : nat) (hs : list Z) (tss : gmap Z (list Cid)) (newHeaviest : option TipSet) (newWeight : Z) :
    outcome (option TipSet * Z) :=
  match hs with
  | [] => Ret (newHeaviest, newWeight)
  | i :: hs =>
      '(possible, weight) ← FormHeaviestTipSetForHeight (orders k) i tss;
      if big_GreaterThan weight newWeight then searchHeights orders (S k) hs tss possible weight
      else searchHeights orders (S k) hs tss newHeaviest newWeight
  end.

(** The best tipset at the height of the head; if the head got lighter, the best one around is
    taken at once. *)
Definition refreshHeight (orders : nat -> orderT) (cs : ChainStore) : outcome (option TipSet * Z) * ChainStore :=
  let heaviestHeight := match heaviest cs with Some ts => height ts | None => 0 end in
  match (heaviestWeight ← Weight (heaviest cs);
         '(newHeaviest, newWeight) ← FormHeaviestTipSetForHeight (orders 0%nat) heaviestHeight (tipsets cs);
         Ret (heaviestWeight, newHeaviest, newWeight)) with
  | Err e => (Err e, cs)
  | Panic => (Panic, cs)
  | Ret (heaviestWeight, newHeaviest, newWeight) =>
      if bool_decide (newHeaviest = None) || big_LessThan newWeight heaviestWeight then
        match searchHeights orders 1 ((fun j => heaviestHeight + 5 - Z.of_nat j) <$> seq 0 10) (tipsets cs) newHeaviest newWeight with
        | Ret (Some ts, w) =>
            match takeHeaviestTipSet ts cs with
            | (Ret _, cs) => (Ret (Some ts, w), cs)
            | (Err _, cs) => (Err "failed to take newHeaviest tipset as head", cs)
            | (Panic, cs) => (Panic, cs)
            end
        | Ret (None, w) => (Ret (heaviest cs, w), cs)
        | r => (r, cs)
        end
      else (Ret (newHeaviest, newWeight), cs)
  end.

(** The best tipset with the one at the height that was notified. *)
Definition considerHeight (order : orderT) (newTsHeight : Z) (tss : gmap Z (list Cid)) (newHeaviest : option TipSet) (newWeight : Z) :
    outcome (option TipSet) :=
  ts ← deref newHeaviest;
  if negb (newTsHeight =? height ts) then
    '(bestTs, bestWeight) ← FormHeaviestTipSetForHeight order newTsHeight tss;
    heavier ← (if big_Equals bestWeight newWeight then breakWeightTie bestTs newHeaviest else Ret (big_GreaterThan bestWeight newWeight));
    Ret (if (heavier : bool) then bestTs else newHeaviest)
  else Ret newHeaviest.

Definition RefreshHeaviestTipSet (orders : nat -> orderT) (newTsHeight : Z) (cs : ChainStore) : outcome unit * ChainStore :=
  match refreshHeight orders cs with
  | (Ret (newHeaviest, newWeight), cs) =>
      match (newHeaviest ← considerHeight (orders 11%nat) newTsHeight (tipsets cs) newHeaviest newWeight;
             if Equals newHeaviest (heaviest cs) then Ret None
             else
               exceeds ← exceedsForkLength (checkpoint cs) (heaviest cs) newHeaviest;
               Ret (if (exceeds : bool) then None else Some newHeaviest)) with
      | Ret None => (Ret tt, cs)
      | Ret (Some newHeaviest) =>
          match newHeaviest with
          | Some ts => takeHeaviestTipSet ts cs
          | None => (Panic, cs)
          end
      | Err e => (Err e, cs)
      | Panic => (Panic, cs)
      end
  | (Err e, cs) => (Err e, cs)
  | (Panic, cs) => (Panic, cs)
  end.

Definition removeCheckpoint (cs : ChainStore) : outcome unit * ChainStore :=
  match deleteCheckpoint with
  | Ret _ => (Ret tt, setCheckpoint None cs)
  | r => (r, cs)
  end.

Definition RemoveCheckpoint := removeCheckpoint.

Definition SetHead (ts : TipSet) (cs : ChainStore) : outcome unit * ChainStore :=
  match removeCheckpoint cs with
  | (Ret _, cs) => takeHeaviestTipSet ts cs
  | r => r
  end.

(** The checks of [SetCheckpoint]. *)
Definition checkCheckpoint (ts : TipSet) (cs : ChainStore) : outcome unit :=
  head ← deref (heaviest cs);
  if height head <? height ts then Err "cannot set a checkpoint in the future"
  else if ForkLengthThreshold <? height head - height ts then Err "cannot set a checkpoint before the fork threshold"
  else if negb (Equals (Some ts) (heaviest cs)) then
    anc ← IsAncestorOf lts ts head;
    if (anc : bool) then Ret tt else Err "cannot mark tipset as checkpoint, since it isn't in the main-chain"
  else Ret tt.

Definition SetCheckpoint (ts : TipSet) (cs : ChainStore) : outcome unit * ChainStore :=
  match (_ ← checkCheckpoint ts cs; putCheckpoint ts) with
  | Ret _ => (Ret tt, setCheckpoint (Some ts) cs)
  | r => (r, cs)
  end.
End head.
