(* ===== verification/ChainHeadProps.v ===== *)
(** * Properties of the choice of the head

    The tipset formed at a height is a heaviest one of the blocks whose miners made only one;
    a fork is taken exactly when it is short enough and does not leave the checkpoint; and as
    long as no block of the head is disowned, the head gets no lighter and stays above the
    checkpoint. *)

From S2P Require Import Prelude TipSet ChainStore ChainStoreProps ChainHead.

Section props.
Context `{Hashing} `{BigOpsOk} `{ChainStoreOps}.

(** ** The heaviest tipset of a height *)

Definition minersBlocks (m : Address) (hs : list BlockHeader) : nat := length (filter (fun b => Miner b = m) hs).

(** The blocks of miners with one block, with parents [k]. *)
Definition candidates (hs : list BlockHeader) (k : TipSetKey) : list BlockHeader :=
  filter (fun b => NewTipSetKey (BlockParents b) = k /\ minersBlocks (Miner b) hs = 1%nat) hs.

Lemma minersBlocks_snoc m hs b : minersBlocks m (hs ++ [b]) = (minersBlocks m hs + if decide (Miner b = m) then 1 else 0)%nat.
Proof. unfold minersBlocks. rewrite filter_app, length_app, filter_cons. by destruct (decide _). Qed.

(** What the first loop has found after the blocks [hs]. *)
Record scanned (hs : list BlockHeader) (seen bad : gset Address) (blocks : list BlockHeader) : Prop := {
  sc_seen : forall m, m ∈ seen <-> (1 <= minersBlocks m hs)%nat;
  sc_bad : forall m, m ∈ bad <-> (2 <= minersBlocks m hs)%nat;
  sc_blocks : forall B : gset Address, bad ⊆ B -> filter (fun b => Miner b ∉ B) blocks = filter (fun b => Miner b ∉ B) hs;
}.

Lemma scanned_step hs seen bad blocks b :
  scanned hs seen bad blocks ->
  if decide (Miner b ∈ seen) then scanned (hs ++ [b]) seen ({[Miner b]} ∪ bad) blocks
  else scanned (hs ++ [b]) ({[Miner b]} ∪ seen) bad (blocks ++ [b]).
Proof.
  intros [Hs Hb Hf]. destruct (decide (Miner b ∈ seen)) as [Hin|Hin]; rewrite Hs in Hin; split.
  - intros m. rewrite minersBlocks_snoc, Hs. destruct (decide (Miner b = m)) as [<-|]; lia.
  - intros m. rewrite minersBlocks_snoc, elem_of_union, elem_of_singleton, Hb. destruct (decide (Miner b = m)) as [<-|Hne]; [intuition lia|].
    assert (m <> Miner b) by done. intuition lia.
  - intros B HB. rewrite filter_app, filter_cons_False, filter_nil, app_nil_r by set_solver. apply Hf. set_solver.
  - intros m. rewrite minersBlocks_snoc, elem_of_union, elem_of_singleton, Hs. destruct (decide (Miner b = m)) as [<-|Hne]; [intuition lia|].
    assert (m <> Miner b) by done. intuition lia.
  - intros m. rewrite minersBlocks_snoc, Hb. destruct (decide (Miner b = m)) as [<-|]; lia.
  - intros B HB. by rewrite !filter_app, Hf.
Qed.

Lemma scanBlocks_ok cids hs0 seen bad blocks bad' blocks' :
  scanned hs0 seen bad blocks -> scanBlocks cids seen bad blocks = Ret (bad', blocks') ->
  exists hs seen', loadBlocks GetBlock cids = Ret hs /\ scanned (hs0 ++ hs) seen' bad' blocks'.
Proof.
  revert hs0 seen bad blocks. induction cids as [|c cids IH]; intros hs0 seen bad blocks HI; cbn [scanBlocks loadBlocks].
  - intros [= <- <-]. exists [], seen. by rewrite app_nil_r.
  - destruct (GetBlock c) as [b| |]; [|done|done]. cbn [mbind outcome_bind]. pose proof (scanned_step _ _ _ _ b HI) as HI'.
    destruct (decide (Miner b ∈ seen)); intros E; destruct (IH _ _ _ _ HI' E) as (hs & seen' & -> & Hs); exists (b :: hs), seen';
      by rewrite <- app_assoc in Hs.
Qed.

Lemma groupBlocks_lookup bad blocks k :
  groupBlocks bad blocks !! k =
  match filter (fun b => NewTipSetKey (BlockParents b) = k /\ Miner b ∉ bad) blocks with [] => None | l => Some l end.
Proof.
  unfold groupBlocks. induction blocks as [|b blocks IH] using rev_ind; [apply lookup_empty|].
  rewrite foldl_app, filter_app. cbn [foldl]. set (m := foldl _ ∅ blocks) in *. rewrite filter_cons, filter_nil.
  destruct (decide (Miner b ∈ bad)) as [Hb|Hb].
  - rewrite decide_False by tauto. by rewrite app_nil_r.
  - destruct (decide (NewTipSetKey (BlockParents b) = k)) as [<-|Hne].
    + rewrite lookup_insert_eq, IH, decide_True by done. by destruct (filter _ blocks).
    + rewrite lookup_insert_ne by done. rewrite decide_False by tauto. by rewrite app_nil_r.
Qed.

Lemma scanned_groups hs seen bad blocks k :
  scanned hs seen bad blocks -> groupBlocks bad blocks !! k = match candidates hs k with [] => None | l => Some l end.
Proof.
  intros [Hs Hb Hf]. rewrite groupBlocks_lookup. replace (filter _ blocks) with (candidates hs k); [done|]. unfold candidates.
  transitivity (filter (fun b => NewTipSetKey (BlockParents b) = k) (filter (fun b => Miner b ∉ bad) hs)).
  - rewrite list_filter_filter. apply filter_ext_in. intros b Hin. rewrite Hb.
    assert (1 <= minersBlocks (Miner b) hs)%nat; [|intuition lia].
    unfold minersBlocks. assert (b ∈ filter (fun x => Miner x = Miner b) hs) as Hx by (by apply list_elem_of_filter).
    destruct (filter _ hs); [by apply elem_of_nil in Hx|cbn; lia].
  - rewrite <- Hf by done. apply list_filter_filter.
Qed.

Lemma pickHeaviest_best groups mt mw mt' w :
  pickHeaviest groups mt mw = Ret (mt', w) ->
  mw <= w /\
  (mt' = mt /\ w = mw \/ exists k hd ts, (k, hd) ∈ groups /\ NewTipSet hd = Ret ts /\ Weight (Some ts) = Ret w /\ mt' = Some ts) /\
  (forall k hd, (k, hd) ∈ groups -> exists ts w', NewTipSet hd = Ret ts /\ Weight (Some ts) = Ret w' /\ w' <= w).
Proof.
  revert mt mw. induction groups as [|[k hd] groups IH]; intros mt mw; cbn [pickHeaviest].
  - intros [= <- <-]. split; [lia|]. split; [by left|]. by intros ? ? ?%elem_of_nil.
  - destruct (NewTipSet hd) as [ts| |] eqn:Ets; [|done|done]. cbn [mbind outcome_bind]. destruct (Weight (Some ts)) as [w1| |] eqn:Ew; [|done|done].
    cbn [mbind outcome_bind]. rewrite big_Equals_ok, big_GreaterThan_ok.
    destruct (if w1 =? mw then _ else _) as [heavier| |] eqn:Eh; [|done|done]. cbn [mbind outcome_bind].
    assert ((heavier = true -> mw <= w1) /\ (heavier = false -> w1 <= mw)) as [Hup Hdown].
    { destruct (Z.eqb_spec w1 mw); [lia|]. injection Eh as <-. destruct (Z.ltb_spec mw w1); split; intros ?; done || lia. }
    destruct heavier; intros Ep; apply IH in Ep as (Hle & Hres & Hall).
    all: split; [first [pose proof (Hup eq_refl)|pose proof (Hdown eq_refl)]; lia|]; split; [|intros k' hd' [[= -> ->]|Hin]%elem_of_cons; [|by eapply Hall]].
    + destruct Hres as [[-> ->]|(k' & hd' & ts' & ? & ?)]; right; [exists k, hd, ts; set_solver|exists k', hd', ts'; set_solver].
    + exists ts, w1. split_and!; [done|done|lia].
    + destruct Hres as [[-> ->]|(k' & hd' & ts' & ? & ?)]; [by left|right; exists k', hd', ts'; set_solver].
    + exists ts, w1. pose proof (Hdown eq_refl). split_and!; [done|done|lia].
Qed.

(** Tipsets of positive weight are compared without trouble. *)
Lemma pickHeaviest_total groups mt mw :
  (forall k hd, (k, hd) ∈ groups -> exists ts w, NewTipSet hd = Ret ts /\ Weight (Some ts) = Ret w /\ 0 < w) ->
  0 <= mw -> (mt = None -> mw = 0) ->
  exists mt' w, pickHeaviest groups mt mw = Ret (mt', w) /\ (mt' = None -> w = 0 /\ groups = [] /\ mt = None).
Proof.
  revert mt mw. induction groups as [|[k hd] groups IH]; intros mt mw Hg Hmw Hnone; cbn [pickHeaviest].
  - exists mt, mw. split; [done|]. intros ->. split_and!; [by apply Hnone|done|done].
  - destruct (Hg k hd) as (ts & w & -> & Ew & Hw); [set_solver|]. cbn [mbind outcome_bind]. rewrite Ew. cbn [mbind outcome_bind].
    rewrite big_Equals_ok, big_GreaterThan_ok. assert (exists b, (if w =? mw then breakWeightTie (Some ts) mt else Ret (mw <? w)) = Ret b /\
      (mt = None -> b = true)) as (b & -> & Hb).
    { destruct (Z.eqb_spec w mw) as [->|]; [|eexists; split; [done|]; intros E; specialize (Hnone E); zcases].
      destruct mt as [t|]; [by eexists|]. specialize (Hnone eq_refl). lia. }
    assert (forall k hd, (k, hd) ∈ groups -> exists ts w, NewTipSet hd = Ret ts /\ Weight (Some ts) = Ret w /\ 0 < w) as Hg'.
    { intros k' hd' Hin. apply (Hg k' hd'). set_solver. }
    cbn [mbind outcome_bind]. destruct b.
    + destruct (IH (Some ts) w Hg') as (mt' & w' & E & Hn); [lia|done|]. exists mt', w'. split; [done|]. intros E'. by destruct (Hn E') as (_ & _ & ?).
    + destruct (IH mt mw Hg' Hmw Hnone) as (mt' & w' & E & Hn). exists mt', w'. split; [done|]. intros E'. destruct (Hn E') as (_ & _ & E2). by apply Hb in E2.
Qed.

Lemma groups_elem hs seen bad blocks order k hd :
  scanned hs seen bad blocks -> (forall l, order l ≡ₚ l) ->
  (k, hd) ∈ order (map_to_list (groupBlocks bad blocks)) <-> hd = candidates hs k /\ hd <> [].
Proof.
  intros Hs Hord. rewrite Hord, elem_of_map_to_list, (scanned_groups hs seen bad blocks k Hs).
  destruct (candidates hs k) as [|b l]; [naive_solver|]. split; [by intros [= <-]|by intros [-> _]].
Qed.

Lemma scanned_nil : scanned [] ∅ ∅ [].
Proof. split; [intros m; cbn; split; [by intros ?%elem_of_empty|lia] .. |done]. Qed.

(** The formed tipset. *)
Definition formed (tss : gmap Z (list Cid)) (h : Z) (maxTs : option TipSet) (w : Z) : Prop :=
  match tss !! h with
  | None => maxTs = None /\ w = 0
  | Some cs =>
      exists hs, loadBlocks GetBlock cs = Ret hs /\
        match maxTs with
        | Some ts => exists k, candidates hs k <> [] /\ NewTipSet (candidates hs k) = Ret ts /\ Weight (Some ts) = Ret w
        | None => w = 0
        end /\
        (forall k, candidates hs k <> [] ->
           exists ts' w', NewTipSet (candidates hs k) = Ret ts' /\ Weight (Some ts') = Ret w' /\ w' <= w)
  end.

Lemma form_formed order h tss maxTs w :
  (forall l, order l ≡ₚ l) -> FormHeaviestTipSetForHeight order h tss = Ret (maxTs, w) -> formed tss h maxTs w.
Proof.
  intros Hord. unfold FormHeaviestTipSetForHeight, formed. destruct (tss !! h) as [cs|]; [|intros [= <- <-]; by rewrite big_NewInt_ok].
  destruct (scanBlocks cs ∅ ∅ []) as [[bad blocks]| |] eqn:Es; [|done|done]. cbn [mbind outcome_bind]. intros Ep.
  destruct (scanBlocks_ok _ _ _ _ _ _ _ scanned_nil Es) as (hs & seen & El & Hs). exists hs. split; [done|].
  apply pickHeaviest_best in Ep as (_ & Hres & Hall). split.
  - destruct Hres as [[-> ->]|(k & hd & ts & Hin & Ets & Ew & ->)]; [by rewrite big_NewInt_ok|].
    apply (groups_elem _ _ _ _ order k hd Hs Hord) in Hin as [-> Hne]. by exists k.
  - intros k Hne. apply (Hall k). by apply (groups_elem _ _ _ _ order k _ Hs Hord).
Qed.

(** The blocks that are tracked can be read, and their tipsets have weights. *)
Definition tracked_ok (tss : gmap Z (list Cid)) : Prop :=
  forall h cs, tss !! h = Some cs ->
    exists hs, loadBlocks GetBlock cs = Ret hs /\
      forall k, candidates hs k <> [] -> exists ts w, NewTipSet (candidates hs k) = Ret ts /\ Weight (Some ts) = Ret w /\ 0 < w.

Lemma scanBlocks_total cs hs seen bad blocks : loadBlocks GetBlock cs = Ret hs -> exists r, scanBlocks cs seen bad blocks = Ret r.
Proof.
  revert hs seen bad blocks. induction cs as [|c cs IH]; intros hs seen bad blocks; cbn [loadBlocks scanBlocks]; [by eexists|].
  destruct (GetBlock c) as [b| |]; [|done|done]. cbn [mbind outcome_bind]. destruct (loadBlocks GetBlock cs) as [l| |]; [|done|done].
  intros _. destruct (decide _); by eapply IH.
Qed.

Lemma form_total order h tss :
  (forall l, order l ≡ₚ l) -> tracked_ok tss -> exists maxTs w, FormHeaviestTipSetForHeight order h tss = Ret (maxTs, w) /\ (maxTs = None -> w = 0).
Proof.
  intros Hord Hok. unfold FormHeaviestTipSetForHeight. destruct (tss !! h) as [cs|] eqn:E; [|do 2 eexists; split; [done|]; by rewrite big_NewInt_ok].
  destruct (Hok h cs E) as (hs & El & Hw). destruct (scanBlocks_total cs hs ∅ ∅ [] El) as [[bad blocks] Es]. rewrite Es. cbn [mbind outcome_bind].
  destruct (scanBlocks_ok _ _ _ _ _ _ _ scanned_nil Es) as (hs' & seen & El' & Hs). cbn in Hs. assert (hs' = hs) as -> by congruence.
  rewrite big_NewInt_ok. edestruct (pickHeaviest_total (order (map_to_list (groupBlocks bad blocks))) None 0) as (mt & w & -> & Hn); [|done|done|].
  - intros k hd Hin. apply (groups_elem _ _ _ _ order k hd Hs Hord) in Hin as [-> Hne]. by apply Hw.
  - do 2 eexists. split; [done|]. intros E'. by destruct (Hn E').
Qed.

(** [C31] The tipset formed at a height consists of all the blocks with the same parents of
    those miners that made exactly one block there, and it is a heaviest such tipset; with
    blocks that can be read and positive weights, it is always formed. *)
Theorem form_heaviest order h tss :
  (forall l, order l ≡ₚ l) ->
  (forall maxTs w, FormHeaviestTipSetForHeight order h tss = Ret (maxTs, w) -> formed tss h maxTs w) /\
  (tracked_ok tss -> exists maxTs w, FormHeaviestTipSetForHeight order h tss = Ret (maxTs, w)).
Proof.
  intros Hord. split; [intros maxTs w; by apply form_formed|]. intros Hok. destruct (form_total order h tss Hord Hok) as (mt & w & E & _). eauto.
Qed.

(** ** Forks *)

Section forks.
Context (g : TipSet).
Notation chain := (chain lts g).

(** What the chain of the head has that the other has not, and whether it may be given up. *)
Definition given_up (ls le : list TipSet) : list TipSet := filter (fun x => K x ∉ keySet le) ls.

Definition allowed (n : nat) (cp : option TipSet) (l : list TipSet) : bool :=
  (length l <? n)%nat && match cp with Some c => negb (bool_decide (K c ∈ keySet l)) | None => true end.

Lemma externalLoop_ok n external le h :
  chain external le -> 0 <= h -> height external - h <= Z.of_nat n ->
  exists e le1 le2, externalLoop n external h = Ret (Some e) /\ le = le1 ++ e :: le2 /\ height e <= h /\ (forall x, x ∈ le1 -> h < height x).
Proof.
  revert external le. induction n as [|n IH]; intros external le Hc Hh Hn; cbn [externalLoop]; destruct (Z.ltb_spec h (height external)).
  - lia.
  - destruct (chain_head _ _ _ _ Hc) as [l ->]. exists external, [], l. split_and!; [done|done|lia|by intros ? ?%elem_of_nil].
  - destruct (Z.eqb_spec (height external) 0); [lia|]. destruct (chain_parent _ _ _ _ Hc) as (p & l & -> & -> & Hp & Hcp); [done|].
    cbn [mbind outcome_bind]. destruct (IH p l Hcp Hh) as (e & le1 & le2 & -> & -> & He & Hlow); [lia|]. exists e, (external :: le1), le2.
    split_and!; [done|done|done|]. intros x [->|Hx]%elem_of_cons; [lia|by apply Hlow].
  - destruct (chain_head _ _ _ _ Hc) as [l ->]. exists external, [], l. split_and!; [done|done|lia|by intros ? ?%elem_of_nil].
Qed.

Lemma allowed_cons n cp x l : Equals (Some x) cp = false -> (forall c, cp = Some c -> stored lts c) -> stored lts x -> allowed (S n) cp (x :: l) = allowed n cp l.
Proof.
  intros Hne Hcp Hx. unfold allowed. cbn [length]. f_equal. destruct cp as [c|]; [|done]. f_equal. apply bool_decide_ext. rewrite keySet_cons.
  split; [|by right]. intros [E|?]; [|done]. exfalso. apply (stored_inj lts c x (Hcp c eq_refl) Hx) in E as ->.
  by rewrite (proj2 (Equals_stored lts x x Hx Hx) eq_refl) in Hne.
Qed.

Lemma forkLoop_ok n cp synced ls external le :
  chain synced ls -> chain external le -> (forall c, cp = Some c -> stored lts c) ->
  forkLoop n cp synced external = Ret (negb (allowed n cp (given_up ls le))).
Proof.
  intros Hs He Hcp. revert synced ls external le Hs He. induction n as [|n IH]; intros synced ls external le Hs He; cbn [forkLoop]; [done|].
  pose proof (chain_nonneg _ _ _ _ Hs). pose proof (chain_self _ _ _ _ Hs) as Ss.
  destruct (externalLoop_ok (Z.to_nat (height external - height synced)) external le (height synced) He) as (e & le1 & le2 & -> & -> & Hle & Hhigh); [lia|lia|].
  cbn [mbind outcome_bind]. pose proof (chain_suffix _ _ _ _ _ _ He) as Hce. pose proof (Equals_stored lts synced e Ss (chain_self _ _ _ _ Hce)) as Heq.
  destruct (Equals (Some synced) (Some e)).
  { destruct (proj1 Heq eq_refl). rewrite (chain_det _ _ _ _ _ Hs Hce). unfold given_up. rewrite filter_none; [by destruct cp|].
    apply Forall_forall. intros x Hx Hn. apply Hn, elem_keySet. set_solver. }
  assert (synced <> e) as Hne by naive_solver. assert (K synced ∉ keySet (le1 ++ e :: le2)) as Hk.
  { eapply (key_not_in lts g); [done|done|]. rewrite elem_of_app, elem_of_cons. intros [Hx|[?|Hx]]; [specialize (Hhigh _ Hx); lia|done|].
    pose proof (chain_below _ _ _ _ _ Hce Hx). lia. }
  destruct (chain_head _ _ _ _ Hs) as [ls' ->]. assert (given_up (synced :: ls') (le1 ++ e :: le2) = synced :: given_up ls' (e :: le2)) as ->.
  { unfold given_up. rewrite filter_cons_True by done. f_equal. apply filter_ext_in. intros x Hx. split; intros Hn Hin; apply Hn.
    - apply elem_of_list_to_set, list_elem_of_fmap in Hin as (y & E & Hy). apply elem_of_list_to_set, list_elem_of_fmap. exists y. set_solver.
    - apply (elem_keySet _ x). assert (x ∈ le1 ++ e :: le2) as Hx2.
      { eapply (chain_keys lts g); [exact Hs|exact He| |done]. set_solver. }
      apply elem_of_app in Hx2 as [Hx2|]; [|done]. specialize (Hhigh _ Hx2). pose proof (chain_below _ _ _ _ _ Hs Hx). lia. }
  destruct (Equals (Some synced) cp) eqn:Ecp.
  { destruct cp as [c|]; [|done]. apply (Equals_stored lts synced c Ss (Hcp c eq_refl)) in Ecp as <-. unfold allowed.
    rewrite bool_decide_eq_true_2 by (apply keySet_cons; by left). by rewrite andb_false_r. }
  destruct (Z.eqb_spec (height synced) 0) as [E|E].
  { exfalso. apply Hne. pose proof (chain_nonneg _ _ _ _ Hce). eapply (chain_zero_eq lts g); [exact Hs|exact Hce|lia|lia]. }
  destruct (chain_parent _ _ _ _ Hs E) as (p & l & [= ->] & -> & Hp & Hcp'). cbn [mbind outcome_bind].
  rewrite (IH p l e (e :: le2) Hcp' Hce). by rewrite allowed_cons.
Qed.

(** ** The head *)

Lemma formed_pos tss h ts w : tracked_ok tss -> formed tss h (Some ts) w -> 0 < w /\ Weight (Some ts) = Ret w.
Proof.
  intros Hok. unfold formed. destruct (tss !! h) as [cs|] eqn:E; [|by intros [? _]]. intros (hs & El & (k & Hne & Ets & Ew) & _).
  destruct (Hok h cs E) as (hs' & El' & Hw). assert (hs' = hs) as -> by congruence. destruct (Hw k Hne) as (ts' & w' & ? & ? & ?).
  split; [|done]. assert (ts' = ts) as -> by congruence. assert (w' = w) as -> by congruence. done.
Qed.

Lemma consider_ok order n tss h t w :
  (forall l, order l ≡ₚ l) -> tracked_ok tss -> formed tss h (Some t) w ->
  exists t' h' w', considerHeight order n tss (Some t) w = Ret (Some t') /\ formed tss h' (Some t') w' /\ w <= w'.
Proof.
  intros Hord Hok Hf. destruct (formed_pos tss h t w Hok Hf) as [Hpos _]. unfold considerHeight. cbn [deref mbind outcome_bind].
  destruct (Z.eqb_spec n (height t)); cbn [negb]; [exists t, h, w; split_and!; [done|done|lia]|].
  destruct (form_total order n tss Hord Hok) as (best & bw & Eb & Hn). rewrite Eb. cbn [mbind outcome_bind]. rewrite big_Equals_ok, big_GreaterThan_ok.
  pose proof (form_formed order n tss best bw Hord Eb) as Hfb. destruct best as [b|].
  - assert (exists x, (if bw =? w then breakWeightTie (Some b) (Some t) else Ret (w <? bw)) = Ret x /\ (x = true -> w <= bw)) as (x & -> & Hx).
    { destruct (Z.eqb_spec bw w) as [->|]; eexists; (split; [done|]); [lia|]. intros ?%Z.ltb_lt. lia. }
    cbn [mbind outcome_bind]. destruct x; [exists b, n, bw; split_and!; [done|done|by apply Hx]|exists t, h, w; split_and!; [done|done|lia]].
  - rewrite (Hn eq_refl). destruct (Z.eqb_spec 0 w); [lia|]. cbn [mbind outcome_bind]. destruct (Z.ltb_spec w 0); [lia|].
    exists t, h, w. split_and!; [done|done|lia].
Qed.

(** The head has a chain, with the checkpoint in it. *)
Definition head_on (cs : ChainStore) (hd : TipSet) (lh : list TipSet) : Prop :=
  heaviest cs = Some hd /\ chain hd lh /\ forall c, checkpoint cs = Some c -> c ∈ lh.

Lemma checkpoint_kept lh ln c a b n :
  chain a lh -> chain b ln -> c ∈ lh -> allowed n (Some c) (given_up lh ln) = true -> c ∈ ln.
Proof.
  intros Ha Hb Hc Hall. apply andb_true_iff in Hall as [_ Hall%negb_true_iff%bool_decide_eq_false]. eapply (chain_keys lts g); [exact Ha|exact Hb|done|].
  destruct (decide (K c ∈ keySet ln)); [done|]. exfalso. apply Hall, elem_keySet, list_elem_of_filter. done.
Qed.

End forks.
End props.

(** ** A concrete chain store *)

#[local] Existing Instance demoHashing.

Definition demoBlk (n : Z) (miner : Address) (h : Z) (parents : list Cid) : BlockHeader := {|
  Miner := miner; BlockTicket := {| VRFProof := [n] |}; ElectionProof := None; BeaconEntries := []; WinPoStProof := [];
  BlockParents := parents; BlockParentWeight := 0; BlockHeight := h; ParentStateRoot := []; ParentReceipts := [];
  Messages := []; BLSAggregate := None; Timestamp := n; BlockSig := None; ForkSignaling := 0; ParentBaseFee := 0; validated := true |}.

Definition bg := demoBlk 0 "t01" 0 [].
Definition ba := demoBlk 1 "t02" 1 [[1; 0]].
Definition bb := demoBlk 2 "t03" 1 [[1; 0]].
Definition ba' := demoBlk 3 "t02" 1 [[1; 0]]. (* a second block of the same miner *)

Definition single (b : BlockHeader) : TipSet := {| cids := [Block_Cid b]; blks := [b]; height := BlockHeight b |}.
Definition pairAB : TipSet := {| cids := [Block_Cid ba; Block_Cid bb]; blks := [ba; bb]; height := 1 |}.

#[local] Instance demoStore : ChainStoreOps := {
  GetBlock c := match list_find (fun b => Block_Cid b = c) [bg; ba; bb; ba'] with Some (_, b) => Ret b | None => Err "not found" end;
  Weight ts := match ts with Some ts => Ret (1 + 10 * height ts + len (blks ts)) | None => Ret 0 end;
  writeHead _ := Ret tt;
  putKeyBlock _ := Ret tt;
  putCheckpoint _ := Ret tt;
  deleteCheckpoint := Ret tt;
  ForkLengthThreshold := 900;
  Finality := 900;
}.

Definition demoTracked : gmap Z (list Cid) := {[0 := [[1; 0]]; 1 := [[1; 1]; [1; 2]]]}.

Lemma demo_candidates h cs hs k :
  demoTracked !! h = Some cs -> loadBlocks GetBlock cs = Ret hs -> candidates hs k <> [] ->
  NewTipSet (candidates hs k) = Ret (single bg) \/ NewTipSet (candidates hs k) = Ret pairAB.
Proof.
  unfold demoTracked. rewrite lookup_insert_Some, lookup_singleton_Some. intros [[<- <-]|[_ [<- <-]]] [= <-] Hne.
  - left. destruct (decide (k = NewTipSetKey [])) as [->|Hk]; [by vm_compute|]. exfalso. apply Hne, filter_none, Forall_forall.
    intros b Hb [E _]. set_solver.
  - right. destruct (decide (k = NewTipSetKey [[1; 0]])) as [->|Hk]; [by vm_compute|]. exfalso. apply Hne, filter_none, Forall_forall.
    intros b Hb [E _]. set_solver.
Qed.

Lemma demo_tracked_ok : tracked_ok demoTracked.
Proof.
  intros h cs E. assert (exists hs, loadBlocks GetBlock cs = Ret hs) as [hs El].
  { unfold demoTracked in E. rewrite lookup_insert_Some, lookup_singleton_Some in E. destruct E as [[_ <-]|[_ [_ <-]]]; by eexists. }
  exists hs. split; [done|]. intros k Hne. destruct (demo_candidates h cs hs k E El Hne) as [->| ->]; by do 2 eexists.
Qed.

Lemma demo_genesis_chain : chain lts (single bg) (single bg) [single bg].
Proof. by apply chain_genesis. Qed.

Lemma demo_child_chain ts : ts = single ba \/ ts = pairAB -> chain lts (single bg) ts [ts; single bg].
Proof. intros [->| ->]; (eapply chain_child; [done|done|done|apply demo_genesis_chain]). Qed.

Lemma form_heaviest_witness :
  (exists maxTs w, FormHeaviestTipSetForHeight reverse 1 demoTracked = Ret (maxTs, w)) /\
  FormHeaviestTipSetForHeight reverse 1 demoTracked = Ret (Some pairAB, 13).
Proof. split; [|by vm_compute]. apply (form_heaviest reverse 1 demoTracked); [intros l; apply reverse_Permutation|apply demo_tracked_ok]. Defined.

Definition demoCs : ChainStore := {| heaviest := Some (single ba); checkpoint := Some (single bg); tipsets := demoTracked; reorgCh := [] |}.


(** A tie is broken in favour of both: the loop does not stop at a greater ticket. *)
Lemma tie_broken_both_ways :
  exists ts1 ts2, breakWeightTie (Some ts1) (Some ts2) = Ret true /\ breakWeightTie (Some ts2) (Some ts1) = Ret true.
Proof.
  exists {| cids := []; blks := [demoBlk 1 "t02" 1 []; demoBlk 9 "t03" 1 []]; height := 1 |}, {| cids := []; blks := [demoBlk 2 "t02" 1 []; demoBlk 3 "t03" 1 []]; height := 1 |}.
  by vm_compute.
Qed.

(** After a second block of one of its miners the head is replaced without a look at the
    checkpoint, which is then not on the chain. *)
Lemma equivocation_drops_checkpoint :
  exists cs', RefreshHeaviestTipSet (fun _ => id) 1
      {| heaviest := Some pairAB; checkpoint := Some pairAB; tipsets := {[1 := [[1; 1]; [1; 2]; [1; 3]]]}; reorgCh := [] |} = (Ret tt, cs') /\
    heaviest cs' = Some (single bb) /\ checkpoint cs' = Some pairAB.
Proof. eexists. split; [by vm_compute|done]. Qed.
