(* ===== verification/SlashFilter.v ===== *)
(** * The slash filter: chain/gen/slashfilter/slashfilter.go

    Before a miner's block is published the filter looks for a block it made at the same
    height, on the same parents, or at the height of the parents without being one of them,
    each of which the chain would punish.  The two datastores come from go-datastore: [Datastore] has
    their operations, which may fail. *)

From stdpp Require Import pretty sorting.
From Stdlib Require Import Ascii.
From S2P Require Import Prelude TipSet.

Class Datastore := {
  ds : Type;
  dsKey : Type;
  NewKey : string -> dsKey;
  ds_Has : ds -> dsKey -> outcome bool;
  ds_Get : ds -> dsKey -> outcome bytes;
  ds_Put : ds -> dsKey -> bytes -> outcome ds;
}.

(** ** Formatting *)

Definition hexDigit (n : Z) : ascii :=
  match n with
  | 0 => "0" | 1 => "1" | 2 => "2" | 3 => "3" | 4 => "4" | 5 => "5" | 6 => "6" | 7 => "7"
  | 8 => "8" | 9 => "9" | 10 => "a" | 11 => "b" | 12 => "c" | 13 => "d" | 14 => "e" | _ => "f"
  end%char.

(** [%x] of a byte slice. *)
Fixpoint hex (bs : bytes) : string :=
  match bs with
  | [] => EmptyString
  | b :: bs => String (hexDigit (b / 16)) (String (hexDigit (b mod 16)) (hex bs))
  end.

Section filter.
Context `{Hashing} `{Datastore}.

Record SlashFilter := {
  byEpoch : ds;
  byParents : ds;
}.

Definition epochKey (miner : Address) (epoch : Z) : dsKey := NewKey ("/" +:+ miner +:+ "/" +:+ pretty epoch).

Definition parentsKey (bh : BlockHeader) : dsKey :=
  NewKey ("/" +:+ Miner bh +:+ "/" +:+ hex (NewTipSetKey (BlockParents bh))).

(** The other block if there is one; [None] is no fault. *)
Definition checkFault (t : ds) (key : dsKey) (bh : BlockHeader) : outcome (option Cid) :=
  fault ← ds_Has t key;
  if (fault : bool) then
    cidb ← ds_Get t key;
    '(_, other) ← CidFromBytes cidb;
    if bool_decide (other = Block_Cid bh) then Ret None else Ret (Some other)
  else Ret None.

(** The block of the parent epoch, if it is not a parent. *)
Definition checkGrinding (t : ds) (bh : BlockHeader) (parentEpoch : Z) : outcome (option Cid) :=
  let parentEpochKey := epochKey (Miner bh) parentEpoch in
  have ← ds_Has t parentEpochKey;
  if (have : bool) then
    cidb ← ds_Get t parentEpochKey;
    '(_, parent) ← CidFromBytes cidb;
    if existsb (fun c => bool_decide (c = parent)) (BlockParents bh) then Ret None else Ret (Some parent)
  else Ret None.

(** The checks, in order. *)
Definition checkBlock (bh : BlockHeader) (parentEpoch : Z) (f : SlashFilter) : outcome (option Cid) :=
  doubleFork ← checkFault (byEpoch f) (epochKey (Miner bh) (BlockHeight bh)) bh;
  match doubleFork with
  | Some other => Ret (Some other)
  | None =>
      timeOffset ← checkFault (byParents f) (parentsKey bh) bh;
      match timeOffset with
      | Some other => Ret (Some other)
      | None => checkGrinding (byEpoch f) bh parentEpoch
      end
  end.

(** The block that the new one conflicts with; [None] is no fault, and the block is kept. *)
Definition MinedBlock (bh : BlockHeader) (parentEpoch : Z) (f : SlashFilter) : outcome (option Cid) * SlashFilter :=
  match checkBlock bh parentEpoch f with
  | Ret None =>
      match ds_Put (byParents f) (parentsKey bh) (Block_Cid bh) with
      | Ret d =>
          let f := {| byEpoch := byEpoch f; byParents := d |} in
          match ds_Put (byEpoch f) (epochKey (Miner bh) (BlockHeight bh)) (Block_Cid bh) with
          | Ret d => (Ret None, {| byEpoch := d; byParents := byParents f |})
          | Err e => (Err e, f)
          | Panic => (Panic, f)
          end
      | Err e => (Err e, f)
      | Panic => (Panic, f)
      end
  | r => (r, f)
  end.

(** A sequence of blocks with the epochs of their parents, and those that passed. *)
Fixpoint mine (l : list (BlockHeader * Z)) (f : SlashFilter) : list (BlockHeader * Z) * SlashFilter :=
  match l with
  | [] => ([], f)
  | (bh, e) :: l =>
      let '(r, f) := MinedBlock bh e f in
      let '(acc, f) := mine l f in
      (match r with Ret None => (bh, e) :: acc | _ => acc end, f)
  end.
End filter.

(** ** What is relied on

    A datastore is a map from keys to values when it does not fail; keys are cleaned paths, and
    paths of two plain names are different when the names are. *)

Definition plainChar (c : ascii) : bool :=
  let n := nat_of_ascii c in ((48 <=? n) && (n <=? 57) || (97 <=? n) && (n <=? 122) || (n =? 45))%nat.

Fixpoint plainChars (s : string) : bool :=
  match s with
  | EmptyString => true
  | String c s => plainChar c && plainChars s
  end.

Definition plain (s : string) : Prop := s <> "" /\ plainChars s = true.

Class DatastoreOk `{Datastore} := {
  ds_view : ds -> dsKey -> option bytes;
  ds_key_eq :: EqDecision dsKey;
  ds_Has_ok d k b : ds_Has d k = Ret b -> b = bool_decide (is_Some (ds_view d k));
  ds_Get_ok d k v : ds_Get d k = Ret v -> ds_view d k = Some v;
  ds_Put_ok d k v d' : ds_Put d k v = Ret d' -> forall k', ds_view d' k' = if decide (k' = k) then Some v else ds_view d k';
  NewKey_inj a b a' b' : plain a -> plain b -> plain a' -> plain b' ->
    NewKey ("/" +:+ a +:+ "/" +:+ b) = NewKey ("/" +:+ a' +:+ "/" +:+ b') -> a = a' /\ b = b';
}.

(** ** Formats are plain and injective *)

Lemma plainChars_app s t : plainChars (s +:+ t) = plainChars s && plainChars t.
Proof. induction s as [|c s IH]; [done|]. change (plainChar c && plainChars (s +:+ t) = plainChar c && plainChars s && plainChars t). by rewrite IH, andb_assoc. Qed.

Lemma pretty_go_plain x s : plainChars s = true -> plainChars (pretty_N_go x s) = true.
Proof.
  revert s. induction (N.lt_wf_0 x) as [x _ IH]. intros s Hs. destruct (decide (0 < x)%N) as [Hx|Hx].
  - rewrite pretty_N_go_step by done. apply IH; [by apply N.div_lt|]. cbn [plainChars]. rewrite Hs, andb_true_r.
    pose proof (N.mod_lt x 10 ltac:(done)). destruct (x mod 10)%N as [|p]; [done|]. do 4 (destruct p as [p|p|]; try done).
  - replace x with 0%N by lia. by rewrite pretty_N_go_0.
Qed.

Lemma pretty_go_nonempty x s : s <> "" -> pretty_N_go x s <> "".
Proof.
  revert s. induction (N.lt_wf_0 x) as [x _ IH]. intros s Hs. destruct (decide (0 < x)%N) as [Hx|Hx].
  - rewrite pretty_N_go_step by done. apply IH; [by apply N.div_lt|done].
  - replace x with 0%N by lia. by rewrite pretty_N_go_0.
Qed.

Lemma pretty_N_plain (x : N) : plain (pretty x).
Proof.
  unfold pretty, pretty_N. destruct (decide (x = 0%N)) as [->|Hx]; [done|]. split; [|by apply pretty_go_plain].
  rewrite pretty_N_go_step by lia. by apply pretty_go_nonempty.
Qed.

Lemma pretty_Z_plain (z : Z) : plain (pretty z).
Proof. destruct z as [|p|p]; [done|apply (pretty_N_plain (N.pos p))|]. destruct (pretty_N_plain (N.pos p)) as [_ Hp]. split; done. Qed.

Lemma hexDigit_plain n : plainChar (hexDigit n) = true.
Proof. unfold hexDigit. by repeat case_match. Qed.

Lemma hex_plain bs : bs <> [] -> plain (hex bs).
Proof.
  intros Hne. split; [by destruct bs|]. clear Hne. induction bs as [|b bs IH]; [done|]. cbn [hex plainChars]. by rewrite !hexDigit_plain, IH.
Qed.

Lemma hexDigit_inj n m : 0 <= n < 16 -> 0 <= m < 16 -> hexDigit n = hexDigit m -> n = m.
Proof.
  intros Hn Hm E. assert (forall k, 0 <= k < 16 -> Z.of_N (N_of_ascii (hexDigit k)) = if k <? 10 then 48 + k else 87 + k) as Hk.
  { intros k Hk. assert (k ∈ seqZ 0 16) as Hin by (apply elem_of_seqZ; lia). clear Hk. revert k Hin. apply Forall_forall. by repeat constructor. }
  pose proof (Hk n Hn) as En. pose proof (Hk m Hm) as Em. rewrite E in En. revert En Em. zcases.
Qed.

Lemma hex_inj bs bs' : Forall is_byte bs -> Forall is_byte bs' -> hex bs = hex bs' -> bs = bs'.
Proof.
  intros Hb. revert bs'. induction Hb as [|b bs Hb _ IH]; intros [|b' bs'] Hb'; cbn [hex]; try done.
  apply Forall_cons in Hb' as [Hb1 Hb']. intros [= E1 E2 E3]. unfold is_byte in *.
  apply hexDigit_inj in E1; [|dlia..]. apply hexDigit_inj in E2; [|dlia..]. f_equal; [dlia|by apply IH].
Qed.

(** ** The filter *)

Section props.
Context `{HashingOk} `{DatastoreOk}.

(** Blocks as miners make them: an address in plain characters, and parents. *)
Definition block_ok (b : BlockHeader) : Prop :=
  plain (Miner b) /\ NewTipSetKey (BlockParents b) <> [] /\ Forall is_byte (NewTipSetKey (BlockParents b)).

Definition bEpochKey (b : BlockHeader) : dsKey := epochKey (Miner b) (BlockHeight b).

Lemma epochKey_inj m e m' e' : plain m -> plain m' -> epochKey m e = epochKey m' e' -> m = m' /\ e = e'.
Proof.
  intros Hm Hm' E. apply NewKey_inj in E as [-> E]; [|done|apply pretty_Z_plain|done|apply pretty_Z_plain]. split; [done|by apply (inj pretty)].
Qed.

Lemma parentsKey_inj b b' :
  block_ok b -> block_ok b' -> parentsKey b = parentsKey b' -> Miner b = Miner b' /\ NewTipSetKey (BlockParents b) = NewTipSetKey (BlockParents b').
Proof.
  intros (Hm & Hn & Hb) (Hm' & Hn' & Hb') E. apply NewKey_inj in E as [-> E]; [|done|by apply hex_plain|done|by apply hex_plain].
  split; [done|by apply hex_inj].
Qed.

Lemma cid_decodes b : CidFromBytes (Block_Cid b) = Ret (length (Block_Cid b), Block_Cid b).
Proof. rewrite <- (app_nil_r (Block_Cid b)) at 1. apply CidFromBytes_app, Block_Cid_valid. Qed.

(** What the stores have: the blocks that passed, and only blocks that were offered. *)
Record filter_ok (f : SlashFilter) (passed offered : list (BlockHeader * Z)) : Prop := {
  fo_epoch : forall b e, (b, e) ∈ passed -> ds_view (byEpoch f) (bEpochKey b) = Some (Block_Cid b);
  fo_parents : forall b e, (b, e) ∈ passed -> ds_view (byParents f) (parentsKey b) = Some (Block_Cid b);
  fo_epochs : forall k v, ds_view (byEpoch f) k = Some v -> exists b e, (b, e) ∈ offered /\ k = bEpochKey b /\ v = Block_Cid b;
  fo_parentss : forall k v, ds_view (byParents f) k = Some v -> exists b e, (b, e) ∈ offered /\ k = parentsKey b /\ v = Block_Cid b;
}.

(** A check of one store finds the block that is there. *)
Lemma lookup_result (t : ds) (k : dsKey) (offered : list (BlockHeader * Z)) (key : BlockHeader -> dsKey) (cont : Cid -> outcome (option Cid)) r :
  (forall v, ds_view t k = Some v -> exists b e, (b, e) ∈ offered /\ k = key b /\ v = Block_Cid b) ->
  (fault ← ds_Has t k; if (fault : bool) then cidb ← ds_Get t k; '(_, other) ← CidFromBytes cidb; cont other else Ret None) = Ret r ->
  (ds_view t k = None /\ r = None) \/
  (exists b e, (b, e) ∈ offered /\ k = key b /\ ds_view t k = Some (Block_Cid b) /\ cont (Block_Cid b) = Ret r).
Proof.
  intros Hoff. destruct (ds_Has t k) as [h| |] eqn:Eh; [|done|done]. cbn [mbind outcome_bind]. apply ds_Has_ok in Eh as ->.
  case_bool_decide as Hs; [|intros [= <-]; left; split; [|done]; by destruct (ds_view t k) eqn:E; [destruct Hs|]].
  destruct (ds_Get t k) as [v| |] eqn:Eg; [|done|done]. cbn [mbind outcome_bind]. apply ds_Get_ok in Eg.
  destruct (Hoff v Eg) as (b & e & Hin & Ek & ->). rewrite cid_decodes. cbn [mbind outcome_bind]. intros Er. right. by exists b, e.
Qed.

Lemma checkFault_ok t k bh (offered : list (BlockHeader * Z)) (key : BlockHeader -> dsKey) r :
  (forall v, ds_view t k = Some v -> exists b e, (b, e) ∈ offered /\ k = key b /\ v = Block_Cid b) ->
  checkFault t k bh = Ret r ->
  match r with
  | None => forall c, ds_view t k = Some c -> c = Block_Cid bh
  | Some c => exists b e, (b, e) ∈ offered /\ k = key b /\ c = Block_Cid b /\ c <> Block_Cid bh
  end.
Proof.
  intros Hoff E. destruct (lookup_result t k offered key _ r Hoff E) as [[En ->]|(b & e & Hin & Ek & Ev & Ec)]; [by rewrite En|].
  case_bool_decide; injection Ec as <-; [intros c; congruence|]. by exists b, e.
Qed.

Lemma checkGrinding_ok t bh pe (offered : list (BlockHeader * Z)) r :
  (forall k v, ds_view t k = Some v -> exists b e, (b, e) ∈ offered /\ k = bEpochKey b /\ v = Block_Cid b) ->
  checkGrinding t bh pe = Ret r ->
  match r with
  | None => forall c, ds_view t (epochKey (Miner bh) pe) = Some c -> c ∈ BlockParents bh
  | Some c => exists b e, (b, e) ∈ offered /\ epochKey (Miner bh) pe = bEpochKey b /\ c = Block_Cid b /\ c ∉ BlockParents bh
  end.
Proof.
  intros Hoff E. destruct (lookup_result t _ offered bEpochKey _ r (Hoff _) E) as [[En ->]|(b & e & Hin & Ek & Ev & Ec)]; [by rewrite En|].
  assert (existsb (fun c => bool_decide (c = Block_Cid b)) (BlockParents bh) = true <-> Block_Cid b ∈ BlockParents bh) as Hex.
  { rewrite existsb_exists. setoid_rewrite bool_decide_eq_true. setoid_rewrite <- list_elem_of_In. naive_solver. }
  destruct (existsb _ _); injection Ec as <-; [intros c; rewrite Ev; intros [= <-]; by apply Hex|]. exists b, e. split_and!; [done|done|done|].
  intros Hc%Hex. done.
Qed.

(** Two different blocks of a miner that are no fault: the earlier one, and the later one with
    its parent epoch. *)
Definition no_fault (b1 b2 : BlockHeader) (e2 : Z) : Prop :=
  Miner b1 = Miner b2 ->
  (Block_Cid b1 <> Block_Cid b2 -> BlockHeight b1 <> BlockHeight b2 /\ NewTipSetKey (BlockParents b1) <> NewTipSetKey (BlockParents b2)) /\
  (BlockHeight b1 = e2 -> Block_Cid b1 ∈ BlockParents b2).

(** The fault that an offered block [b1] makes the other one. *)
Definition is_fault (b1 b2 : BlockHeader) (e2 : Z) : Prop :=
  Miner b1 = Miner b2 /\
  (Block_Cid b1 <> Block_Cid b2 /\ (BlockHeight b1 = BlockHeight b2 \/ NewTipSetKey (BlockParents b1) = NewTipSetKey (BlockParents b2)) \/
   BlockHeight b1 = e2 /\ Block_Cid b1 ∉ BlockParents b2).

Lemma checkBlock_ok bh pe f passed offered r :
  filter_ok f passed offered -> block_ok bh -> (forall b e, (b, e) ∈ offered -> block_ok b) -> checkBlock bh pe f = Ret r ->
  match r with
  | None => (forall b e, (b, e) ∈ passed -> no_fault b bh pe) /\
            (forall c, ds_view (byEpoch f) (bEpochKey bh) = Some c -> c = Block_Cid bh) /\
            (forall c, ds_view (byParents f) (parentsKey bh) = Some c -> c = Block_Cid bh)
  | Some c => exists b e, (b, e) ∈ offered /\ c = Block_Cid b /\ is_fault b bh pe
  end.
Proof.
  intros [Fe Fp Oe Op] Hbh Hoff. unfold checkBlock. destruct (checkFault (byEpoch f) _ bh) as [r1| |] eqn:E1; [|done|done]. cbn [mbind outcome_bind].
  apply (checkFault_ok _ _ _ offered bEpochKey) in E1; [|intros v; apply Oe]. destruct r1 as [c1|].
  { intros [= <-]. destruct E1 as (b & e & Hin & Ek & -> & Hne). apply epochKey_inj in Ek as [Em Eh]; [|by apply Hbh|by apply (Hoff b e)].
    exists b, e. split; [done|]. split; [done|]. split; [done|]. left. auto. }
  destruct (checkFault (byParents f) _ bh) as [r2| |] eqn:E2; [|done|done]. cbn [mbind outcome_bind].
  apply (checkFault_ok _ _ _ offered parentsKey) in E2; [|intros v; apply Op]. destruct r2 as [c2|].
  { intros [= <-]. destruct E2 as (b & e & Hin & Ek & -> & Hne). apply parentsKey_inj in Ek as [Em Eh]; [|done|by apply (Hoff b e)].
    exists b, e. split; [done|]. split; [done|]. split; [done|]. left. auto. }
  intros E3. apply (checkGrinding_ok _ _ _ offered) in E3; [|done]. destruct r as [c3|].
  { destruct E3 as (b & e & Hin & Ek & -> & Hne). apply epochKey_inj in Ek as [Em Eh]; [|by apply Hbh|by apply (Hoff b e)].
    exists b, e. split; [done|]. split; [done|]. split; [done|]. by right. }
  split; [|done]. intros b e Hin Em. pose proof (Fe b e Hin) as Ve. pose proof (Fp b e Hin) as Vp. unfold bEpochKey in Ve. unfold parentsKey in Vp, E2.
  rewrite Em in Ve, Vp. split; [intros Hne; split; intros Eq|intros Eq].
  - rewrite Eq in Ve. by apply Hne, E1.
  - rewrite Eq in Vp. by apply Hne, E2.
  - rewrite Eq in Ve. by apply E3.
Qed.

Lemma MinedBlock_ok bh pe f passed offered :
  filter_ok f passed offered -> block_ok bh -> (forall b e, (b, e) ∈ offered -> block_ok b) ->
  let '(r, f') := MinedBlock bh pe f in
  match r with
  | Ret None => (forall b e, (b, e) ∈ passed -> no_fault b bh pe) /\ filter_ok f' (passed ++ [(bh, pe)]) (offered ++ [(bh, pe)])
  | Ret (Some c) => (exists b e, (b, e) ∈ offered /\ c = Block_Cid b /\ is_fault b bh pe) /\ filter_ok f' passed (offered ++ [(bh, pe)])
  | _ => filter_ok f' passed (offered ++ [(bh, pe)])
  end.
Proof.
  intros HI Hbh Hoff. assert (filter_ok f passed (offered ++ [(bh, pe)])) as HI'.
  { destruct HI as [? ? Oe Op]. split; [done|done|..]; intros k v E; [destruct (Oe k v E) as (b & e & ? & ?)|destruct (Op k v E) as (b & e & ? & ?)]; exists b, e; set_solver. }
  unfold MinedBlock. destruct (checkBlock bh pe f) as [[c|]| |] eqn:E; [..|done|done].
  { split; [|done]. by apply (checkBlock_ok bh pe f passed offered (Some c)). }
  destruct (checkBlock_ok bh pe f passed offered None HI Hbh Hoff E) as (Hnf & He & Hp). clear HI.
  destruct (ds_Put (byParents f) _ _) as [d| |] eqn:Ed; [|done|done]. cbn [byEpoch byParents]. pose proof (ds_Put_ok _ _ _ _ Ed) as Hd.
  assert (filter_ok {| byEpoch := byEpoch f; byParents := d |} passed (offered ++ [(bh, pe)])) as HI1.
  { destruct HI' as [Fe Fp Oe Op]. split; cbn [byEpoch byParents]; [done|..|done|]; intros *; rewrite Hd.
    - intros Hin. destruct (decide (_ = _)) as [Ek|]; [|by eapply Fp]. f_equal. symmetry. apply Hp. rewrite <- Ek. by eapply Fp.
    - destruct (decide (k = _)) as [->|]; [|apply Op]. intros [= <-]. exists bh, pe. set_solver. }
  destruct (ds_Put (byEpoch f) _ _) as [d2| |] eqn:Ed2; [|done|done]. pose proof (ds_Put_ok _ _ _ _ Ed2) as Hd2. split; [done|].
  destruct HI1 as [Fe Fp Oe Op]. split; cbn [byEpoch byParents] in *; [..|done]; intros *; rewrite ?Hd2.
  - rewrite elem_of_app, list_elem_of_singleton. destruct (decide (bEpochKey b = _)) as [Ek|Hk].
    + intros [Hin|[= -> ->]]; [|done]. f_equal. symmetry. apply He. unfold bEpochKey. rewrite <- Ek. by eapply Fe.
    + intros [Hin|[= -> ->]]; [by eapply Fe|done].
  - rewrite elem_of_app, list_elem_of_singleton. intros [Hin|[= -> ->]]; [by eapply Fp|]. rewrite Hd. by rewrite decide_True.
  - destruct (decide (k = _)) as [->|]; [|apply Oe]. intros [= <-]. exists bh, pe. set_solver.
Qed.

(** Stores that do not fail. *)
Definition never_fails : Prop :=
  (forall d k, exists b, ds_Has d k = Ret b) /\ (forall d k, is_Some (ds_view d k) -> exists v, ds_Get d k = Ret v) /\
  (forall d k v, exists d', ds_Put d k v = Ret d').

Lemma lookup_total (t : ds) (k : dsKey) (offered : list (BlockHeader * Z)) (key : BlockHeader -> dsKey) (cont : Cid -> outcome (option Cid)) :
  never_fails -> (forall v, ds_view t k = Some v -> exists b e, (b, e) ∈ offered /\ k = key b /\ v = Block_Cid b) ->
  (forall c, exists r, cont c = Ret r) ->
  exists r, (fault ← ds_Has t k; if (fault : bool) then cidb ← ds_Get t k; '(_, other) ← CidFromBytes cidb; cont other else Ret None) = Ret r.
Proof.
  intros (Hh & Hg & _) Hoff Hc. destruct (Hh t k) as [h Eh]. rewrite Eh. cbn [mbind outcome_bind]. apply ds_Has_ok in Eh as ->.
  case_bool_decide as Hs; [|by eexists]. destruct (Hg t k Hs) as [v Eg]. rewrite Eg. cbn [mbind outcome_bind]. apply ds_Get_ok in Eg.
  destruct (Hoff v Eg) as (b & e & _ & _ & ->). rewrite cid_decodes. apply Hc.
Qed.

Lemma MinedBlock_total bh pe f passed offered :
  never_fails -> filter_ok f passed offered -> exists r f', MinedBlock bh pe f = (Ret r, f').
Proof.
  intros Ht [_ _ Oe Op]. unfold MinedBlock, checkBlock, checkFault, checkGrinding.
  destruct (lookup_total (byEpoch f) (epochKey (Miner bh) (BlockHeight bh)) offered bEpochKey (fun other => if bool_decide (other = Block_Cid bh) then Ret None else Ret (Some other)) Ht) as [r1 ->];
    [intros v; apply Oe|intros c; case_bool_decide; by eexists|]. cbn [mbind outcome_bind]. destruct r1; [by do 2 eexists|].
  destruct (lookup_total (byParents f) (parentsKey bh) offered parentsKey (fun other => if bool_decide (other = Block_Cid bh) then Ret None else Ret (Some other)) Ht) as [r2 ->];
    [intros v; apply Op|intros c; case_bool_decide; by eexists|]. cbn [mbind outcome_bind]. destruct r2; [by do 2 eexists|].
  destruct (lookup_total (byEpoch f) (epochKey (Miner bh) pe) offered bEpochKey (fun parent => if existsb (fun c => bool_decide (c = parent)) (BlockParents bh) then Ret None else Ret (Some parent)) Ht) as [r3 ->];
    [intros v; apply Oe|intros c; case_match; by eexists|]. destruct r3; [by do 2 eexists|]. destruct Ht as (_ & _ & Hp).
  destruct (Hp (byParents f) (parentsKey bh) (Block_Cid bh)) as [d ->]. cbn [byEpoch byParents].
  destruct (Hp (byEpoch f) (epochKey (Miner bh) (BlockHeight bh)) (Block_Cid bh)) as [d2 ->]. by do 2 eexists.
Qed.

Lemma mine_ok l f passed offered :
  filter_ok f passed offered -> (forall b e, (b, e) ∈ offered ++ l -> block_ok b) ->
  let '(acc, f') := mine l f in
  filter_ok f' (passed ++ acc) (offered ++ l) /\ StronglySorted (fun x y => no_fault x.1 y.1 y.2) acc /\
  (forall b e b' e', (b, e) ∈ passed -> (b', e') ∈ acc -> no_fault b b' e').
Proof.
  revert f passed offered. induction l as [|[bh pe] l IH]; intros f passed offered HI Hok; cbn [mine].
  - rewrite !app_nil_r. split; [done|]. split; [constructor|]. by intros ? ? ? ? _ ?%elem_of_nil.
  - pose proof (MinedBlock_ok bh pe f passed offered HI (Hok bh pe ltac:(set_solver)) ltac:(set_solver)) as Hm.
    rewrite cons_middle, app_assoc in Hok |- *. destruct (MinedBlock bh pe f) as [r f1]. destruct r as [[c|]| |]; [destruct Hm as [_ HI1]| |..].
    2: { destruct Hm as [Hnf HI1]. specialize (IH f1 _ _ HI1 Hok). destruct (mine l f1) as [acc f2]. destruct IH as (HI2 & Hs & Hx).
      rewrite cons_middle, app_assoc. split; [done|]. split.
      - constructor; [done|]. apply Forall_forall. intros [b' e'] Hin. apply (Hx bh pe b' e'); [set_solver|done].
      - intros b e b' e' Hin [[= -> ->]|Hin']%elem_of_cons; [by eapply Hnf|]. apply (Hx b e b' e'); [set_solver|done]. }
    all: specialize (IH f1 passed _ ltac:(eassumption) Hok); by destruct (mine l f1) as [acc f2].
Qed.

End props.

(** ** A concrete datastore *)

#[export] Instance mapStore : Datastore := {
  ds := gmap string bytes;
  dsKey := string;
  NewKey s := s;
  ds_Has d k := Ret (bool_decide (is_Some (d !! k)));
  ds_Get d k := match d !! k with Some v => Ret v | None => Err "not found" end;
  ds_Put d k v := Ret (<[k := v]> d);
}.

Lemma split_slash a b a' b' :
  plainChars a = true -> plainChars a' = true -> a +:+ String "/" b = a' +:+ String "/" b' -> a = a' /\ b = b'.
Proof.
  revert a'. induction a as [|c a IH]; intros [|c' a']; cbn [plainChars]; intros Ha Ha' E.
  - by injection E.
  - injection E as <- _. done.
  - injection E as -> _. done.
  - apply andb_prop in Ha as [_ Ha]. apply andb_prop in Ha' as [_ Ha']. injection E as -> E. destruct (IH a' Ha Ha' E) as [-> ->]. done.
Qed.

#[export] Instance mapStoreOk : @DatastoreOk mapStore.
Proof.
  refine (@Build_DatastoreOk mapStore (fun d k => lookup (M := gmap string bytes) k d) _ _ _ _ _); cbn.
  - by intros d k b [= <-].
  - intros d k v. by case_match; intros [= ->].
  - intros d k v d' [= <-] k'. destruct (decide (k' = k)) as [->|Hne]; [apply lookup_insert_eq|by apply lookup_insert_ne].
  - intros a b a' b' [_ Ha] _ [_ Ha'] _ [= E]. by apply split_slash.
Defined.

(** A block, its copy, one at the same height, one on the same parents, one that forgets its
    own parent, and one that does not. *)
Definition minedBlk (n h : Z) (parents : list Cid) : BlockHeader := {|
  Miner := "f0100"; BlockTicket := {| VRFProof := [n] |}; ElectionProof := None; BeaconEntries := []; WinPoStProof := [];
  BlockParents := parents; BlockParentWeight := 0; BlockHeight := h; ParentStateRoot := []; ParentReceipts := [];
  Messages := []; BLSAggregate := None; Timestamp := n; BlockSig := None; ForkSignaling := 0; ParentBaseFee := 0; validated := true |}.

Definition demoMined : list (BlockHeader * Z) :=
  [(minedBlk 5 5 [[1; 4]], 4); (minedBlk 5 5 [[1; 4]], 4); (minedBlk 6 5 [[1; 3]], 3); (minedBlk 7 6 [[1; 4]], 4);
   (minedBlk 8 7 [[1; 9]], 5); (minedBlk 9 7 [[1; 5]], 5)].

Definition demoFilter : SlashFilter := {| byEpoch := (∅ : gmap string bytes); byParents := (∅ : gmap string bytes) |}.

