(* ===== verification/RateLimit.v ===== *)
(** * Rate limits: chain/sub/ratelimit/queue.go and window.go

    A queue of timestamps in a ring of fixed size, and the window that accepts an event unless
    it has accepted as many as the ring holds within the last span of time. *)

From stdpp Require Import sorting.
From S2P Require Import Prelude.

(** ** queue.go *)

Record queue := {
  buf : list Z;
  count : Z;
  head_ : Z; (* [head] *)
  tail_ : Z; (* [tail] *)
}.

Definition cap (q : queue) : Z := len (buf q).

Definition qlen (q : queue) : Z := count q.

(** [%] by zero panics. *)
Definition next (q : queue) (i : Z) : outcome Z := if cap q =? 0 then Panic else Ret (Z.rem (i + 1) (cap q)).

Definition prev (q : queue) (i : Z) : outcome Z :=
  if i =? 0 then Ret (cap q - 1) else if cap q =? 0 then Panic else Ret (Z.rem (i - 1) (cap q)).

Definition push (elem : Z) (q : queue) : outcome queue :=
  if count q =? cap q then Err "rate limit exceeded"
  else
    _ ← index (buf q) (tail_ q);
    t ← next q (tail_ q);
    Ret {| buf := <[Z.to_nat (tail_ q) := elem]> (buf q); count := count q + 1; head_ := head_ q; tail_ := t |}.

Definition dropHead (q : queue) : outcome queue :=
  h ← next q (head_ q);
  Ret {| buf := buf q; count := count q - 1; head_ := h; tail_ := tail_ q |}.

Definition pop (q : queue) : outcome (Z * queue) :=
  if count q <=? 0 then Panic
  else
    ret ← index (buf q) (head_ q);
    q ← dropHead q;
    Ret (ret, q).

Definition front (q : queue) : outcome Z := if count q <=? 0 then Panic else index (buf q) (head_ q).

Definition back (q : queue) : outcome Z := if count q <=? 0 then Panic else i ← prev q (tail_ q); index (buf q) i.

(** Each round takes an element out, so [n] is their number. *)
Fixpoint truncateLoop (n : nat) (threshold : Z) (q : queue) : outcome queue :=
  if count q =? 0 then Ret q
  else
    h ← index (buf q) (head_ q);
    if h <=? threshold then
      match n with
      | O => Panic
      | S n => q ← dropHead q; truncateLoop n threshold q
      end
    else Ret q.

Definition truncate (threshold : Z) (q : queue) : outcome queue := truncateLoop (Z.to_nat (count q)) threshold q.

(** ** window.go *)

Record Window := {
  q : queue;
  size_ : Z; (* [size] *)
}.

(** [make] panics on a negative capacity. *)
Definition NewWindow (capacity size : Z) : outcome Window :=
  if capacity <? 0 then Panic
  else Ret {| q := {| buf := replicate (Z.to_nat capacity) 0; count := 0; head_ := 0; tail_ := 0 |}; size_ := size |}.

Definition setQ (q' : queue) (w : Window) : Window := {| q := q'; size_ := size_ w |}.

Definition Len (w : Window) : Z := qlen (q w).

Definition Cap (w : Window) : Z := cap (q w).

(** [Add] at time [now]; the old timestamps are gone also when it fails. *)
Definition Add (now : Z) (w : Window) : outcome unit * Window :=
  match (if negb (Len w =? 0) then truncate (now - size_ w) (q w) else Ret (q w)) with
  | Ret q1 =>
      let w := setQ q1 w in
      match push now q1 with
      | Ret q2 => (Ret tt, setQ q2 w)
      | Err e => (Err e, w)
      | Panic => (Panic, w)
      end
  | Err e => (Err e, w)
  | Panic => (Panic, w)
  end.

Definition Span (w : Window) : outcome Z :=
  if qlen (q w) <? 2 then Ret 0 else b ← back (q w); f ← front (q w); Ret (b - f).

(** A zero time is [None]. *)
Definition Oldest (w : Window) : outcome (option Z) := if qlen (q w) =? 0 then Ret None else f ← front (q w); Ret (Some f).

Definition Newest (w : Window) : outcome (option Z) := if qlen (q w) =? 0 then Ret None else b ← back (q w); Ret (Some b).

(** ** The queue is a list *)

(** The elements from the head on. *)
Definition contents (q : queue) : list Z := (fun i => buf q !!! Z.to_nat ((head_ q + Z.of_nat i) mod cap q)) <$> seq 0 (Z.to_nat (count q)).

Record queue_ok (q : queue) : Prop := {
  qo_count : 0 <= count q <= cap q;
  qo_head : cap q = 0 /\ head_ q = 0 \/ 0 <= head_ q < cap q;
  qo_tail : cap q = 0 /\ tail_ q = 0 \/ 0 <= tail_ q < cap q /\ tail_ q = (head_ q + count q) mod cap q;
}.

Lemma contents_length q : 0 <= count q -> len (contents q) = count q.
Proof. intros. unfold contents, len. rewrite length_fmap, length_seq. lia. Qed.

Lemma contents_lookup q i : (i < Z.to_nat (count q))%nat -> contents q !! i = Some (buf q !!! Z.to_nat ((head_ q + Z.of_nat i) mod cap q)).
Proof. intros Hi. unfold contents. by rewrite list_lookup_fmap, lookup_seq_lt. Qed.

Lemma ring_index_ok (l : list Z) i : 0 <= i < len l -> index l i = Ret (l !!! Z.to_nat i).
Proof.
  unfold len. intros Hi. unfold index. destruct (Z.ltb_spec i 0); [lia|].
  destruct (lookup_lt_is_Some_2 l (Z.to_nat i)) as [x E]; [lia|]. by rewrite E, (list_lookup_total_correct _ _ _ E).
Qed.

Lemma next_ok q i : 0 < cap q -> 0 <= i -> next q i = Ret ((i + 1) mod cap q).
Proof. intros Hc Hi. unfold next. destruct (Z.eqb_spec (cap q) 0); [lia|]. by rewrite Z.rem_mod_nonneg by lia. Qed.

Lemma mod_inj c a i j : 0 < c -> 0 <= i < c -> 0 <= j < c -> (a + i) mod c = (a + j) mod c -> i = j.
Proof.
  intros Hc Hi Hj E. pose proof (Z.div_mod (a + i) c ltac:(lia)). pose proof (Z.div_mod (a + j) c ltac:(lia)).
  assert ((a + i) / c = (a + j) / c) by nia. nia.
Qed.

Lemma push_ok elem q :
  queue_ok q -> count q < cap q -> exists q', push elem q = Ret q' /\ queue_ok q' /\ cap q' = cap q /\ contents q' = contents q ++ [elem].
Proof.
  intros [Hc Hh Ht] Hlt. assert (0 <= head_ q < cap q) as Hh' by lia. assert (0 <= tail_ q < cap q) as Ht' by lia.
  assert (tail_ q = (head_ q + count q) mod cap q) as Et by lia. clear Hh Ht. unfold push. destruct (Z.eqb_spec (count q) (cap q)); [lia|].
  rewrite ring_index_ok by done. cbn [mbind outcome_bind]. rewrite next_ok by lia. cbn [mbind outcome_bind].
  set (q' := {| buf := _ |}). assert (cap q' = cap q) as Ec by (unfold cap, len; cbn; by rewrite length_insert). exists q'. split; [done|]. split; [split|split]; rewrite ?Ec.
  - cbn. lia.
  - by right.
  - right. split; [apply Z.mod_pos_bound; lia|]. cbn. rewrite Et, Z.add_mod_idemp_l by lia. f_equal. lia.
  - done.
  - unfold contents. rewrite Ec. cbn [q' buf count head_]. replace (Z.to_nat (count q + 1)) with (S (Z.to_nat (count q))) by lia.
    rewrite seq_S, fmap_app. f_equal.
    + apply list_fmap_ext. intros i x [-> Hi]%lookup_seq. rewrite list_lookup_total_insert_ne; [done|]. rewrite Et. intros E.
      pose proof (Z.mod_pos_bound (head_ q + count q) (cap q)). pose proof (Z.mod_pos_bound (head_ q + Z.of_nat (0 + i)) (cap q)).
      enough (count q = Z.of_nat (0 + i)) by lia. eapply (mod_inj (cap q) (head_ q)); lia.
    + cbn [fmap list_fmap]. f_equal. replace (head_ q + Z.of_nat (0 + Z.to_nat (count q))) with (head_ q + count q) by lia. rewrite <- Et.
      apply list_lookup_total_insert_eq. unfold cap, len in *. lia.
Qed.

Lemma dropHead_ok q :
  queue_ok q -> 0 < count q -> exists q', dropHead q = Ret q' /\ queue_ok q' /\ cap q' = cap q /\ count q' = count q - 1 /\ contents q = (buf q !!! Z.to_nat (head_ q)) :: contents q'.
Proof.
  intros [Hc Hh Ht] Hlt. assert (0 <= head_ q < cap q) as Hh' by lia. unfold dropHead. rewrite next_ok by lia. cbn [mbind outcome_bind].
  set (q' := {| buf := _ |}). assert (cap q' = cap q) as Ec by done. exists q'. split; [done|]. split; [split|split; [done|split; [done|]]]; rewrite ?Ec.
  - cbn. lia.
  - right. apply Z.mod_pos_bound. lia.
  - right. split; [cbn; lia|]. cbn. rewrite Z.add_mod_idemp_l by lia. destruct Ht as [|[_ ->]]; [lia|]. f_equal. lia.
  - unfold contents. rewrite Ec. cbn [q' buf count head_].
    replace (Z.to_nat (count q)) with (S (Z.to_nat (count q - 1))) by lia. cbn [seq fmap list_fmap]. f_equal.
    + rewrite Z.add_0_r, Z.mod_small by done. done.
    + rewrite <- fmap_S_seq, <- list_fmap_compose. apply list_fmap_ext. intros i x _. cbn [compose]. rewrite Z.add_mod_idemp_l by lia. do 3 f_equal. lia.
Qed.

(** The elements after the leading ones that are at most [t]. *)
Fixpoint dropLe (t : Z) (l : list Z) : list Z :=
  match l with
  | [] => []
  | x :: l' => if x <=? t then dropLe t l' else l
  end.

Lemma truncateLoop_ok n t q :
  queue_ok q -> count q <= Z.of_nat n -> exists q', truncateLoop n t q = Ret q' /\ queue_ok q' /\ cap q' = cap q /\ contents q' = dropLe t (contents q).
Proof.
  revert q. induction n as [|n IH]; intros q Hq Hn; cbn [truncateLoop]; pose proof (qo_count q Hq); (destruct (Z.eqb_spec (count q) 0) as [E|Hne];
    [exists q; split; [done|]; split; [done|]; split; [done|]; unfold contents; by rewrite E|]); [lia|].
  destruct (dropHead_ok q Hq) as (q1 & E1 & Hq1 & Ec & En & Ect); [lia|]. rewrite ring_index_ok; [|pose proof (qo_head q Hq); change (len (buf q)) with (cap q); lia].
  cbn [mbind outcome_bind]. rewrite E1, Ect. cbn [mbind outcome_bind dropLe]. destruct (_ <=? t); [|by exists q].
  destruct (IH q1 Hq1) as (q2 & -> & Hq2 & Ec2 & Ect2); [lia|]. exists q2. split; [done|]. split; [done|]. split; [congruence|done].
Qed.

Lemma truncate_ok t q : queue_ok q -> exists q', truncate t q = Ret q' /\ queue_ok q' /\ cap q' = cap q /\ contents q' = dropLe t (contents q).
Proof. intros Hq. pose proof (qo_count q Hq). apply truncateLoop_ok; [done|lia]. Qed.

(** ** The window *)

(** The reference: an event at time [t] is accepted if fewer than [n] were accepted after
    [t - size]. *)
Definition within (size t : Z) (acc : list Z) : list Z := filter (fun x => t - size < x) acc.

Fixpoint slidingLimit (n size : Z) (acc times : list Z) : list bool :=
  match times with
  | [] => []
  | t :: times =>
      let ok := len (within size t acc) <? n in
      ok :: slidingLimit n size (if ok then acc ++ [t] else acc) times
  end.

Fixpoint addAll (times : list Z) (w : Window) : list (outcome unit) :=
  match times with
  | [] => []
  | t :: times => let '(r, w) := Add t w in r :: addAll times w
  end.

(** The window at time [now] has the accepted events, but for old ones. *)
Record window_ok (n size now : Z) (acc : list Z) (w : Window) : Prop := {
  wo_queue : queue_ok (q w);
  wo_cap : cap (q w) = n;
  wo_size : size_ w = size;
  wo_sorted : StronglySorted Z.le acc;
  wo_past : forall x, x ∈ acc -> x <= now;
  wo_acc : exists old, acc = old ++ contents (q w) /\ (forall x, x ∈ old -> x <= now - size);
}.

Lemma dropLe_filter t l : StronglySorted Z.le l -> exists old, l = old ++ dropLe t l /\ (forall x, x ∈ old -> x <= t) /\ dropLe t l = filter (fun x => t < x) l.
Proof.
  induction 1 as [|x l Hl IH Hx]; cbn [dropLe]; [exists []; split; [done|]; split; [by intros ? ?%elem_of_nil|done]|]. rewrite Forall_forall in Hx. destruct (Z.leb_spec x t).
  - destruct IH as (old & E & Ho & Ef). exists (x :: old). rewrite filter_cons_False by lia. split; [cbn; by rewrite <- E|]. split; [|done].
    intros y [->|Hy]%elem_of_cons; [done|by apply Ho].
  - exists []. split; [done|]. split; [by intros ? ?%elem_of_nil|]. symmetry. apply filter_all. constructor; [lia|]. apply Forall_forall. intros y Hy. specialize (Hx y Hy). lia.
Qed.

(** The check leaves exactly the events of the window. *)
Lemma truncate_within n size now t acc w :
  window_ok n size now acc w -> now <= t ->
  exists q1, (if negb (Len w =? 0) then truncate (t - size_ w) (q w) else Ret (q w)) = Ret q1 /\
    window_ok n size t acc (setQ q1 w) /\ contents q1 = within size t acc.
Proof.
  intros [Hq Hcap Hsz Hs Hp (old & E & Hold)] Ht. assert (StronglySorted Z.le (contents (q w))) as Hsc by (rewrite E in Hs; by apply StronglySorted_app_1_r in Hs).
  assert (within size t acc = filter (fun x => t - size < x) (contents (q w))) as Ew.
  { unfold within. rewrite E, filter_app, filter_none; [done|]. apply Forall_forall. intros x Hx. specialize (Hold x Hx). lia. }
  assert (exists q1, (if negb (Len w =? 0) then truncate (t - size_ w) (q w) else Ret (q w)) = Ret q1 /\ queue_ok q1 /\ cap q1 = n /\ contents q1 = dropLe (t - size) (contents (q w))) as (q1 & E1 & Hq1 & Hc1 & Ec1).
  { unfold Len, qlen. destruct (Z.eqb_spec (count (q w)) 0) as [E0|]; cbn [negb].
    - exists (q w). split; [done|]. split; [done|]. split; [done|]. unfold contents. by rewrite E0.
    - rewrite Hsz. destruct (truncate_ok (t - size) (q w) Hq) as (q1 & ? & ? & ? & ?). exists q1. by rewrite <- Hcap. }
  destruct (dropLe_filter (t - size) (contents (q w)) Hsc) as (old2 & E2 & Hold2 & Ef). exists q1. split; [done|]. split; [split; try done|].
  - intros x Hx. specialize (Hp x Hx). lia.
  - exists (old ++ old2). cbn [setQ q]. rewrite Ec1, <- app_assoc, <- E2. split; [done|]. intros x [Hx|Hx]%elem_of_app; [specialize (Hold x Hx); lia|by apply Hold2].
  - by rewrite Ec1, Ew.
Qed.

Lemma Add_ok n size now t acc w :
  window_ok n size now acc w -> now <= t ->
  let ok := len (within size t acc) <? n in
  exists w', Add t w = (if ok then Ret tt else Err "rate limit exceeded", w') /\ window_ok n size t (if ok then acc ++ [t] else acc) w'.
Proof.
  intros HI Ht ok. destruct (truncate_within n size now t acc w HI Ht) as (q1 & E1 & HI1 & Ec). unfold Add. rewrite E1. destruct HI1 as [Hq Hcap Hsz Hs Hp Hacc].
  cbn [setQ q] in *. assert (len (within size t acc) = count q1) as El by (rewrite <- Ec; apply contents_length; apply (qo_count q1 Hq)).
  unfold ok. rewrite El. pose proof (qo_count q1 Hq). destruct (Z.ltb_spec (count q1) n) as [Hlt|Hge].
  - destruct (push_ok t q1 Hq) as (q2 & -> & Hq2 & Hc2 & Ect); [lia|]. eexists. split; [done|]. split; cbn [setQ q size_]; try done.
    + congruence.
    + apply StronglySorted_app_2; [|done|by repeat constructor]. intros x1 x2 Hx1 ->%list_elem_of_singleton. by apply Hp.
    + intros x [Hx| ->%list_elem_of_singleton]%elem_of_app; [by apply Hp|done].
    + destruct Hacc as (old & -> & Hold). exists old. by rewrite Ect, app_assoc.
  - unfold push. destruct (Z.eqb_spec (count q1) (cap q1)); [|lia]. eexists. split; [done|]. by split.
Qed.

Lemma addAll_ok n size times w acc now :
  StronglySorted Z.le times -> (forall t, t ∈ times -> now <= t) -> window_ok n size now acc w ->
  addAll times w = (fun ok : bool => if ok then Ret tt else Err "rate limit exceeded") <$> slidingLimit n size acc times.
Proof.
  intros Hs. revert w acc now. induction Hs as [|t times Hs IH Hf]; intros w acc now Hnow HI; [done|]. rewrite Forall_forall in Hf.
  cbn [addAll slidingLimit fmap list_fmap]. destruct (Add_ok n size now t acc w HI) as (w' & -> & HI'); [apply Hnow; set_solver|].
  f_equal. by apply (IH w' _ t Hf).
Qed.

Lemma window_start n size t0 :
  0 <= n -> window_ok n size t0 [] {| q := {| buf := replicate (Z.to_nat n) 0; count := 0; head_ := 0; tail_ := 0 |}; size_ := size |}.
Proof.
  intros Hn. assert (len (replicate (Z.to_nat n) 0) = n) as El by (unfold len; rewrite length_replicate; lia).
  split; cbn [q size_]; [split; unfold cap; cbn [buf count head_ tail_]; rewrite El; try lia|..|]; [|done|done|constructor|by intros ? ?%elem_of_nil|].
  - destruct (Z.eqb_spec n 0); [lia|right]. rewrite Z.mod_0_l; lia.
  - exists []. split; [done|by intros ? ?%elem_of_nil].
Qed.

(** The rate limiter over a ring of [n] timestamps is the sliding window limit: at times
    that do not go back, an event is accepted exactly if fewer than [n] events were accepted
    within the last [size] of time; it never panics, whatever the capacity. *)
Theorem window_sliding n size times :
  0 <= n -> StronglySorted Z.le times ->
  exists w, NewWindow n size = Ret w /\
    addAll times w = (fun ok : bool => if ok then Ret tt else Err "rate limit exceeded") <$> slidingLimit n size [] times.
Proof.
  intros Hn Hs. unfold NewWindow. destruct (Z.ltb_spec n 0); [lia|]. eexists. split; [done|].
  destruct times as [|t times]; [done|]. apply (addAll_ok n size (t :: times) _ [] t Hs); [|by apply window_start].
  apply StronglySorted_inv in Hs as [_ Hf]. rewrite Forall_forall in Hf. intros x [->|Hx]%elem_of_cons; [done|by apply Hf].
Qed.

(** Two events in 10 units of time. *)
Lemma window_sliding_witness :
  StronglySorted Z.le [1; 5; 6; 11; 12; 30] /\
  (exists w, NewWindow 2 10 = Ret w /\ addAll [1; 5; 6; 11; 12; 30] w = [Ret tt; Ret tt; Err "rate limit exceeded"; Ret tt; Err "rate limit exceeded"; Ret tt]).
Proof.
  assert (StronglySorted Z.le [1; 5; 6; 11; 12; 30]) as Hs by (repeat constructor; lia). split; [done|].
  destruct (window_sliding 2 10 [1; 5; 6; 11; 12; 30] ltac:(lia) Hs) as (w & E & Ha). exists w. split; [done|]. by rewrite Ha.
Defined.
