(* ===== verification/Election.v ===== *)
(** * Leader election: chain/types/electionproof.go

    How often a miner wins an epoch: the hash of its proof is compared with the tails of a
    Poisson distribution, computed with integers of 256 fractional bits (Q.256).  [big.Int] of
    the standard library is [Z]; its division rounds as Euclid's and panics on zero. *)

From S2P Require Import Prelude TipSet.

Definition big_Div_ (a b : Z) : outcome Z := if b =? 0 then Panic else Ret (if 0 <? b then a / b else - (a / - b)).

Definition precision : Z := 256.

(** [parse] of the coefficients. *)
Definition parseCoefs (coefs : list Z) : list Z := (fun c => Z.shiftl c (precision - 128)) <$> coefs.

Definition expNumCoef : list Z := parseCoefs
  [-648770010757830093818553637600; 67469480939593786226847644286976; -3197587544499098424029388939001856;
   89244641121992890118377641805348864; -1579656163641440567800982336819953664; 17685496037279256458459817590917169152;
   -115682590513835356866803355398940131328; 340282366920938463463374607431768211456].

Definition expDenoCoef : list Z := parseCoefs
  [1225524182432722209606361; 114095592300906098243859450; 5665570424063336070530214243; 194450132448609991765137938448;
   5068267641632683791026134915072; 104716890604972796896895427629056; 1748338658439454459487681798864896;
   23704654329841312470660182937960448; 259380097567996910282699886670381056; 2250336698853390384720606936038375424;
   14978272436876548034486263159246028800; 72144088983913131323343765784380833792; 224599776407103106596571252037123047424;
   340282366920938463463374607431768211456].

(** Horner's method. *)
Definition polyval (p : list Z) (x : Z) : outcome Z :=
  match p with
  | [] => Panic
  | c0 :: cs => Ret (foldl (fun res c => Z.shiftr (res * x) precision + c) c0 cs)
  end.

Definition expneg (x : Z) : outcome Z :=
  num ← polyval expNumCoef x;
  deno ← polyval expDenoCoef x;
  big_Div_ (Z.shiftl num precision) deno.

Record poiss := {
  lam : Z;
  pmf : Z;
  icdf : Z;
  k : Z;
}.

(** Returns the tail at 0, which is [icdf]. *)
Definition newPoiss (lambda : Z) : outcome poiss :=
  elam ← expneg lambda;
  Ret {| lam := lambda; pmf := elam; icdf := Z.shiftl 1 precision - elam; k := 0 |}.

(** The tail at the next number. *)
Definition poiss_next (p : poiss) : outcome poiss :=
  let k' := u64 (k p + 1) in
  pmf' ← big_Div_ (pmf p) k';
  let pmf' := Z.shiftr (pmf' * lam p) precision in
  Ret {| lam := lam p; pmf := pmf'; icdf := icdf p - pmf'; k := k' |}.

Section election.
Context `{Hashing} (BlocksPerEpoch : Z).

Definition MaxWinCount : Z := i64 (3 * i64 BlocksPerEpoch).

Definition lambda (power totalPower : Z) : outcome Z := big_Div_ (Z.shiftl (power * BlocksPerEpoch) precision) totalPower.

(** A round counts one win, so the rounds are bounded by [MaxWinCount]. *)
Fixpoint winLoop (n : nat) (lhs : Z) (p : poiss) (j : Z) : outcome Z :=
  if (lhs <? icdf p) && (j <? MaxWinCount) then
    match n with
    | O => Panic
    | S n => p ← poiss_next p; winLoop n lhs p (j + 1)
    end
  else Ret j.

(** [BigFromBytes]: big-endian. *)
Definition BigFromBytes (b : bytes) : Z := be_val b.

Definition ComputeWinCount (proof : bytes) (power totalPower : Z) : outcome Z :=
  let lhs := BigFromBytes (blake2b_Sum256 proof) in
  lam ← lambda power totalPower;
  p ← newPoiss lam;
  winLoop (Z.to_nat MaxWinCount) lhs p 0.

(** ** The count *)

(** The distribution after [i] steps. *)
Fixpoint steps (i : nat) (p : poiss) : outcome poiss :=
  match i with
  | O => Ret p
  | S i => p ← poiss_next p; steps i p
  end.

Lemma poiss_next_ok p : 0 <= k p < 2 ^ 62 -> exists p', poiss_next p = Ret p' /\ k p' = k p + 1 /\ lam p' = lam p.
Proof.
  intros Hk. unfold poiss_next, big_Div_. rewrite u64_id by (unfold in_u64; lia). destruct (Z.eqb_spec (k p + 1) 0); [lia|]. cbn [mbind outcome_bind]. eauto.
Qed.

(** The loop stops at the first tail that the hash reaches. *)
Lemma winLoop_ok n lhs p j :
  0 <= k p -> k p + Z.of_nat n < 2 ^ 62 -> MaxWinCount - j <= Z.of_nat n -> j <= MaxWinCount ->
  exists i, winLoop n lhs p j = Ret (j + Z.of_nat i) /\ j + Z.of_nat i <= MaxWinCount /\
    (forall i', (i' < i)%nat -> exists p', steps i' p = Ret p' /\ lhs < icdf p') /\
    (j + Z.of_nat i < MaxWinCount -> exists p', steps i p = Ret p' /\ icdf p' <= lhs).
Proof.
  revert p j. induction n as [|n IH]; intros p j Hk Hkn Hn Hj; cbn [winLoop]; destruct (Z.ltb_spec lhs (icdf p)), (Z.ltb_spec j MaxWinCount); cbn [andb].
  - lia.
  - exists 0%nat. rewrite Z.add_0_r. split_and!; [done|lia|intros; lia|lia].
  - exists 0%nat. rewrite Z.add_0_r. split_and!; [done|lia|intros; lia|by exists p].
  - exists 0%nat. rewrite Z.add_0_r. split_and!; [done|lia|intros; lia|lia].
  - destruct (poiss_next_ok p) as (p1 & E & Ek & _); [lia|]. rewrite E. cbn [mbind outcome_bind].
    destruct (IH p1 (j + 1)) as (i & Ei & Hle & Hbelow & Hat); [lia..|]. exists (S i). replace (j + Z.of_nat (S i)) with (j + 1 + Z.of_nat i) by lia.
    split_and!; [done|lia|..].
    + intros [|i'] Hi'; [by exists p|]. cbn [steps]. rewrite E. cbn [mbind outcome_bind]. apply Hbelow. lia.
    + intros Hlt. cbn [steps]. rewrite E. cbn [mbind outcome_bind]. by apply Hat.
  - exists 0%nat. rewrite Z.add_0_r. split_and!; [done|lia|intros; lia|lia].
  - exists 0%nat. rewrite Z.add_0_r. split_and!; [done|lia|intros; lia|by exists p].
  - exists 0%nat. rewrite Z.add_0_r. split_and!; [done|lia|intros; lia|lia].
Qed.

(** The denominator has only positive coefficients, so the division of [expneg] is defined. *)
Lemma horner_pos x cs c0 : 0 <= x -> 0 < c0 -> Forall (fun c => 0 < c) cs -> 0 < foldl (fun res c => Z.shiftr (res * x) precision + c) c0 cs.
Proof.
  intros Hx. revert c0. induction cs as [|c cs IH]; intros c0 Hc0 Hcs; [done|]. apply Forall_cons in Hcs as [Hc Hcs]. cbn [foldl]. apply IH; [|done].
  pose proof (proj2 (Z.shiftr_nonneg (c0 * x) precision) ltac:(nia)). lia.
Qed.

Lemma expneg_ok x : 0 <= x -> exists e, expneg x = Ret e.
Proof.
  intros Hx. unfold expneg.
  assert (exists d, polyval expDenoCoef x = Ret d /\ 0 < d) as (d & Ed & Hd).
  { eexists. split; [reflexivity|]. apply horner_pos; [done|done|]. repeat constructor. }
  rewrite Ed. cbn [polyval expNumCoef parseCoefs fmap list_fmap mbind outcome_bind]. unfold big_Div_.
  destruct (Z.eqb_spec d 0); [lia|]. eauto.
Qed.

Lemma lambda_ok power total : 0 <= BlocksPerEpoch -> 0 <= power -> 0 < total -> exists l, lambda power total = Ret l /\ 0 <= l.
Proof.
  intros Hb Hp Ht. unfold lambda, big_Div_. destruct (Z.eqb_spec total 0), (Z.ltb_spec 0 total); try lia.
  eexists. split; [done|]. apply Z.div_pos; [|lia]. apply Z.shiftl_nonneg. nia.
Qed.

Lemma MaxWinCount_eq : 0 <= BlocksPerEpoch < 2 ^ 60 -> MaxWinCount = 3 * BlocksPerEpoch.
Proof. intros Hb. unfold MaxWinCount. rewrite (i64_id BlocksPerEpoch), i64_id by (unfold in_i64; lia). done. Qed.

(** ** The distribution, term by term

    [e] is the approximation of the exponential at [l]; term [i] is term [i - 1] times [l / i]. *)
Fixpoint pmfAt (e l : Z) (i : nat) : Z :=
  match i with
  | O => e
  | S i' => Z.shiftr (pmfAt e l i' / Z.of_nat i * l) precision
  end.

Fixpoint cdfAt (e l : Z) (i : nat) : Z :=
  match i with
  | O => e
  | S i' => cdfAt e l i' + pmfAt e l i
  end.

Definition tailAt (e l : Z) (i : nat) : Z := 2 ^ precision - cdfAt e l i.

(** [p] stands at term [i]. *)
Definition at_term (e l : Z) (i : nat) (p : poiss) : Prop := lam p = l /\ pmf p = pmfAt e l i /\ icdf p = tailAt e l i /\ k p = Z.of_nat i.

Lemma poiss_next_term e l i p : at_term e l i p -> Z.of_nat i < 2 ^ 62 -> exists p', poiss_next p = Ret p' /\ at_term e l (S i) p'.
Proof.
  intros (Hl & Hp & Hc & Hk) Hi. unfold poiss_next, big_Div_. rewrite Hk, u64_id by (unfold in_u64; lia).
  destruct (Z.eqb_spec (Z.of_nat i + 1) 0), (Z.ltb_spec 0 (Z.of_nat i + 1)); try lia. cbn [mbind outcome_bind]. eexists. split; [done|].
  unfold at_term, tailAt in *. cbn [lam pmf icdf k cdfAt pmfAt]. rewrite Hl, Hp, Hc. replace (Z.of_nat (S i)) with (Z.of_nat i + 1) by lia. split_and!; try done. lia.
Qed.

Lemma steps_term e l n i p : at_term e l i p -> Z.of_nat (i + n) < 2 ^ 62 -> exists p', steps n p = Ret p' /\ at_term e l (i + n) p'.
Proof.
  revert i p. induction n as [|n IH]; intros i p Hp Hi; cbn [steps]; [rewrite Nat.add_0_r; eauto|].
  destruct (poiss_next_term e l i p) as (p' & E & Hp'); [done|lia|]. rewrite E. cbn [mbind outcome_bind].
  replace (i + S n)%nat with (S i + n)%nat by lia. apply IH; [done|lia].
Qed.

Lemma newPoiss_term l e : expneg l = Ret e -> exists p, newPoiss l = Ret p /\ at_term e l 0 p.
Proof. intros E. unfold newPoiss. rewrite E. cbn. eexists. split; [done|]. done. Qed.

(** A rewriting rule where unfolding the bind would make conversion evaluate the polynomials. *)
Lemma bind_Ret {A B} (x : A) (f : A -> outcome B) : (y ← Ret x; f y) = f x.
Proof. done. Qed.

(** What a draw with the number [lhs] wins: the terms whose tail lies above it, at most the maximum. *)
Definition wins (e l lhs j : Z) : Prop :=
  0 <= j <= MaxWinCount /\ (forall i, Z.of_nat i < j -> lhs < tailAt e l i) /\ (j < MaxWinCount -> tailAt e l (Z.to_nat j) <= lhs).

Lemma wins_antitone e l lhs lhs' j j' : wins e l lhs j -> wins e l lhs' j' -> lhs <= lhs' -> j' <= j.
Proof.
  intros (Hj & _ & Hat) (Hj' & Hbelow & _) Hle. destruct (Z.le_gt_cases j' j); [done|exfalso].
  specialize (Hat ltac:(lia)). specialize (Hbelow (Z.to_nat j) ltac:(lia)). lia.
Qed.

Lemma ComputeWinCount_wins proof power total :
  0 <= BlocksPerEpoch < 2 ^ 60 -> 0 <= power -> 0 < total ->
  exists l e j, lambda power total = Ret l /\ expneg l = Ret e /\ ComputeWinCount proof power total = Ret j /\ wins e l (BigFromBytes (blake2b_Sum256 proof)) j.
Proof.
  intros Hb Hp Ht. pose proof (MaxWinCount_eq Hb) as Hmax. destruct (lambda_ok power total) as (l & El & Hl); [lia..|].
  destruct (expneg_ok l Hl) as [e Ee]. destruct (newPoiss_term l e Ee) as (p & Ep & Hterm).
  unfold ComputeWinCount. rewrite El, bind_Ret, Ep, bind_Ret. pose proof Hterm as (_ & _ & _ & Hk).
  destruct (winLoop_ok (Z.to_nat MaxWinCount) (BigFromBytes (blake2b_Sum256 proof)) p 0) as (i & Ei & Hle & Hbelow & Hat); [lia..|].
  exists l, e, (0 + Z.of_nat i). split_and!; [done..|]. unfold wins. split_and!; [lia|lia|..].
  - intros i' Hi'. destruct (Hbelow i') as (p1 & E1 & H1); [lia|]. destruct (steps_term e l i' 0 p) as (p2 & E2 & (_ & _ & Hc & _)); [done|lia|].
    rewrite E1 in E2. injection E2 as <-. rewrite Hc in H1. done.
  - intros Hlt. destruct (Hat Hlt) as (p1 & E1 & H1). destruct (steps_term e l i 0 p) as (p2 & E2 & (_ & _ & Hc & _)); [done|lia|].
    rewrite E1 in E2. injection E2 as <-. rewrite Hc in H1. rewrite Z.add_0_l, Nat2Z.id. done.
Qed.

Lemma lambda_no_power total : 0 < total -> lambda 0 total = Ret 0.
Proof. intros Ht. unfold lambda, big_Div_. destruct (Z.eqb_spec total 0), (Z.ltb_spec 0 total); try lia. by rewrite Z.mul_0_l, Z.shiftl_0_l. Qed.

(** The approximation is exact at 0. *)
Lemma expneg_0 : expneg 0 = Ret (2 ^ precision).
Proof. vm_compute. reflexivity. Qed.

(** [C30] The election always ends with a count between 0 and three times the expected number
    of leaders, and the count is the one the distribution gives: the hash lies below the tail of
    every term counted and, short of the maximum, not below the next one.  A larger hash never
    wins more, and without power nothing is won. *)
Theorem election_wins proof power total :
  0 <= BlocksPerEpoch < 2 ^ 60 -> 0 <= power -> 0 < total -> Forall is_byte (blake2b_Sum256 proof) ->
  exists l e j, lambda power total = Ret l /\ expneg l = Ret e /\ ComputeWinCount proof power total = Ret j /\
    wins e l (BigFromBytes (blake2b_Sum256 proof)) j /\ j <= 3 * BlocksPerEpoch /\
    (power = 0 -> j = 0) /\
    (forall proof', BigFromBytes (blake2b_Sum256 proof) <= BigFromBytes (blake2b_Sum256 proof') ->
      exists j', ComputeWinCount proof' power total = Ret j' /\ j' <= j).
Proof.
  intros Hb Hp Ht Hbytes. destruct (ComputeWinCount_wins proof power total Hb Hp Ht) as (l & e & j & El & Ee & Ej & Hw).
  exists l, e, j. do 4 (split; [done|]). split_and!; [rewrite <- (MaxWinCount_eq Hb); apply Hw|..].
  - intros ->. rewrite (lambda_no_power total Ht) in El. injection El as <-. rewrite expneg_0 in Ee. injection Ee as <-.
    destruct Hw as (Hj & Hbelow & _). destruct (Z.le_gt_cases j 0) as [|Hpos]; [lia|]. specialize (Hbelow 0%nat Hpos).
    unfold tailAt, BigFromBytes in Hbelow. cbn [cdfAt] in Hbelow. pose proof (be_val_bound _ Hbytes). lia.
  - intros proof' Hle. destruct (ComputeWinCount_wins proof' power total Hb Hp Ht) as (l' & e' & j' & El' & Ee' & Ej' & Hw').
    rewrite El in El'. injection El' as <-. rewrite Ee in Ee'. injection Ee' as <-. exists j'. split; [done|]. by eapply wins_antitone.
Qed.
End election.

(** A draw whose hash is the proof itself: with a fifth of the power (one expected block) a
    hash of one half lies between the first two tails. *)
Definition idHashing : Hashing := {| blake2b_Sum256 := fun b => b; Block_Cid := fun _ => []; CidFromBytes := fun _ => Err "no CID" |}.

Lemma election_wins_witness : exists j, @ComputeWinCount idHashing 5 (128 :: replicate 31 0) 1 5 = Ret j /\ j = 1.
Proof.
  destruct (@election_wins idHashing 5 (128 :: replicate 31 0) 1 5) as (l & e & j & _ & _ & Ej & _); [lia|lia|lia|repeat constructor; unfold is_byte; lia|].
  exists j. split; [exact Ej|]. vm_compute in Ej. by injection Ej as <-.
Defined.
