(* ===== verification/SealingApi.v ===== *)
(** * What the handlers of the sealing pipeline call: storage/pipeline/checks.go and the interfaces

    A handler of the sealing state machine asks the chain, the sealer and the batchers, and
    answers with an event.  [SealingWorld] holds what is asked: the node API and the sealer of
    other components and modules, each with a state that every call may change, so that two
    calls need not agree.  [M] is a handler's computation over that world and the maps of
    [Sealing].  The checks of checks.go and currentdealinfo.go are the first users. *)

From S2P Require Import Prelude SealingTypes Pieces SealingEvents SealingStats SealingInput.

(** ** Answers *)

(** A call gives a value or an error that is only logged or wrapped. *)
Inductive answer (A : Type) :=
| Ok (a : A)
| NotOk.
Arguments Ok {A} a.
Arguments NotOk {A}.

(** The error types of checks.go, which the handlers tell apart. *)
Inductive error :=
| ErrApi | ErrNoDeals | ErrInvalidDeals | ErrInvalidPiece | ErrExpiredDeals
| ErrBadCommD | ErrExpiredTicket | ErrBadTicket | ErrPrecommitOnChain | ErrSectorNumberAllocated
| ErrBadSeed | ErrInvalidProof | ErrNoPrecommit | ErrCommitWaitFailed
| ErrBadRU | ErrBadPR
| ErrOther. (* an error of no such type *)

(** A tipset, of which the handlers use the key and the height. *)
Record Head := {
  hkey : TipSetKey;
  hheight : Z;
}.

Record SectorPreCommitInfo := {
  pc_SealProof : Z;
  pc_SectorNumber : Z;
  pc_SealedCID : Cid;
  pc_SealRandEpoch : Z;
  pc_DealIDs : list Z;
  pc_Expiration : Z;
  pc_UnsealedCid : option Cid;
}.

Record SectorPreCommitOnChainInfo := {
  Info : SectorPreCommitInfo;
  oc_PreCommitDeposit : Z;
  PreCommitEpoch : Z;
}.

Record SectorOnChainInfo := {
  si_SealedCID : Cid;
  si_Expiration : Z;
  si_InitialPledge : Z;
}.

Record MsgLookup := {
  ExitCode : Z;
  ReturnValue : bytes;
  ml_TipSet : TipSetKey;
  ml_Height : Z;
}.

(** [market.DealProposal] *)
Record MarketProposal := {
  mp_PieceCID : Cid;
  mp_PieceSize : Z;
  mp_VerifiedDeal : bool;
  mp_Client : string;
  mp_Provider : string;
  mp_Label : string;
  mp_StartEpoch : Z;
  mp_EndEpoch : Z;
  mp_StoragePricePerEpoch : Z;
  mp_ProviderCollateral : Z;
  mp_ClientCollateral : Z;
}.

Record PublishReturn := {
  DealIDs : answer (list Z);
  IsDealValid : Z -> answer (bool * Z);
}.

Record DeadlineInfo := {
  Index : Z;
  WPoStPeriodDeadlines : Z;
  WPoStChallengeWindow : Z;
  NextOpen : Z;
}.

Record PreCommitBatchRes := {
  pb_Msg : option Cid;
  pb_Error : string;
}.

Record CommitBatchRes := {
  FailedSectors : gmap Z string;
  cb_Msg : option Cid;
  cb_Error : string;
}.

(** The fields of [sealiface.Config] that the handlers use. *)
Record SealingConfig := {
  cfg_FinalizeEarly : bool;
  MakeCCSectorsAvailable : bool;
  AlwaysKeepUnsealedCopy : bool;
  AggregateCommits : bool;
  CollateralFromMinerBalance : bool;
  AvailableBalanceBuffer : Z;
  DisableCollateralFallback : bool;
  CommittedCapacitySectorLifetime : Z; (* nanoseconds *)
  UseSyntheticPoRep : bool;
  cfg_WaitDealsDelay : Z;
  cfg_StartEpochSealingBuffer : Z;
}.

(** What the sealer answers to a task that may be retried: [SealErr] with the code of a
    [storiface.WorkError], if it is one. *)
Inductive sealAnswer (A : Type) :=
| SealOk (a : A)
| SealErr (code : option Z).
Arguments SealOk {A} a.
Arguments SealErr {A} code.

Definition api (W A : Type) : Type := W -> answer A * W.

Class SealingWorld := {
  world : Type;
  (* the node, for the miner [maddr] *)
  maddr : string;
  minerSectorID : Z -> SectorID;
  marshalAddress : answer bytes; (* [maddr.MarshalCBOR] *)
  EmptyTSK : TipSetKey;
  ChainHead : api world Head;
  StateSectorPreCommitInfo : Z -> TipSetKey -> api world (option SectorPreCommitOnChainInfo);
  StateSectorGetInfo : Z -> TipSetKey -> api world (option SectorOnChainInfo);
  StateMinerSectorAllocated : Z -> TipSetKey -> api world bool;
  StateSearchMsg : TipSetKey -> Cid -> api world (option MsgLookup);
  StateWaitMsg : Cid -> api world MsgLookup;
  StateMarketStorageDeal : Z -> TipSetKey -> api world MarketProposal;
  StateComputeDataCID : Z -> list Z -> TipSetKey -> api world Cid;
  StateGetRandomnessFromBeacon : Z -> bytes -> TipSetKey -> api world bytes;
  StateGetRandomnessFromTickets : Z -> bytes -> TipSetKey -> api world bytes;
  StateNetworkVersion : TipSetKey -> api world Z;
  StateSectorPartition : Z -> TipSetKey -> api world (Z * Z); (* deadline, partition *)
  StateMinerProvingDeadline : TipSetKey -> api world DeadlineInfo;
  StateMinerDeadlines : TipSetKey -> api world nat; (* how many *)
  StateMinerPartitions : Z -> TipSetKey -> api world (list (Z -> answer bool)); (* [ActiveSectors.IsSet] *)
  StateMinerPreCommitDepositForPower : SectorPreCommitInfo -> TipSetKey -> api world Z;
  StateMinerInitialPledgeCollateral : SectorPreCommitInfo -> TipSetKey -> api world Z;
  StateMinerInfo : TipSetKey -> api world opaque;
  StateMinerAvailableBalance : TipSetKey -> api world Z;
  StateLookupID : string -> TipSetKey -> api world string;
  StateGetAllocationForPendingDeal : Z -> world -> option Z * world; (* the expiration *)
  ChainGetMessage : Cid -> api world bytes; (* the parameters *)
  MpoolPushMessage : string -> Z -> Z -> Z -> bytes -> api world Cid; (* from, method, value, max fee, params *)
  AddressFor : opaque -> Z -> Z -> api world string;
  ChainAt : Z -> Z -> api world unit; (* confidence, height; [Ok] is that the callback runs *)
  getConfig : api world SealingConfig;
  (* encodings and policies of other modules *)
  proposalFields : opaque -> MarketProposal;
  decodePublishReturn : bytes -> Z -> answer PublishReturn;
  unmarshalPublishParams : bytes -> answer (list MarketProposal);
  marshalReplicaUpdates : Z -> Z -> Z -> Cid -> list Z -> Z -> bytes -> answer bytes;
  marshalProveCommit : Z -> bytes -> answer bytes;
  PreferredSealProof : Z -> opaque -> bool -> answer Z;
  RegisteredUpdateProof : Z -> answer Z;
  VersionForNetwork : Z -> answer Z;
  GetMaxProveCommitDuration : Z -> Z -> answer Z;
  GetMaxSectorExpirationExtension : Z -> answer Z;
  GetWinningPoStSectorSetLookback : Z -> Z;
  GetPreCommitChallengeDelay : Z;
  GetMinSectorExpiration : Z;
  MinSectorExpiration : Z;
  WPoStProvingPeriod : Z;
  EpochDurationSeconds : Z;
  SealRandomnessLookback : Z;
  MaxPreCommitRandomnessLookback : Z;
  ZeroPieceCommitment : Z -> Cid;
  SectorSize : Z -> outcome Z;
  SysErrInsufficientFunds : Z;
  SysErrOutOfGas : Z;
  MethodProveReplicaUpdates : Z;
  MethodProveCommitSector : Z;
  MaxCommitGasFee : Z;
  BlockDelaySecs : Z;
  (* proofs, the sealer and the batchers *)
  VerifySeal : SectorID -> Cid -> Z -> bytes -> bytes -> bytes -> Cid -> api world bool;
  sealerAddPiece : world -> (list Z -> Z -> option Cid -> outcome PieceInfo) * world;
  SealPreCommit1 : SectorInfo -> world -> sealAnswer bytes * world;
  SealPreCommit2 : SectorInfo -> world -> sealAnswer (option Cid * Cid) * world; (* unsealed, or [cid.Undef]; sealed *)
  SealCommit1 : SectorInfo -> Cid -> Cid -> api world bytes;
  SealCommit2 : SectorInfo -> bytes -> api world bytes;
  httpNewRequest : string -> answer unit;
  httpPost : string -> bytes -> api world (Z * answer bytes); (* status and body *)
  jsonCommit1 : SectorInfo -> Cid -> Cid -> answer bytes;
  jsonCommit2 : SectorInfo -> bytes -> answer bytes;
  ReplicaUpdate : SectorInfo -> api world (Cid * Cid);
  ProveReplicaUpdate1 : SectorInfo -> Cid -> Cid -> Cid -> api world bytes;
  ProveReplicaUpdate2 : SectorInfo -> Cid -> Cid -> Cid -> bytes -> api world bytes;
  ReleaseUnsealed : SectorInfo -> list Range -> api world unit;
  sealerFinalizeSector : SectorInfo -> api world unit;
  sealerFinalizeReplicaUpdate : SectorInfo -> api world unit;
  ReleaseReplicaUpgrade : SectorInfo -> api world unit;
  ReleaseSectorKeyFiles : SectorInfo -> api world unit; (* [sealer.ReleaseSectorKey] *)
  sealerRemove : SectorInfo -> api world unit;
  DownloadSectorData : SectorInfo -> list (Z * SectorLocation) -> api world unit; (* by file type *)
  AddPreCommit : SectorInfo -> Z -> SectorPreCommitInfo -> api world PreCommitBatchRes;
  AddCommit : SectorInfo -> Cid -> Cid -> api world CommitBatchRes;
  AddTermination : SectorID -> api world (Cid * bool);
  (* time *)
  clock : world -> Z * world; (* nanoseconds *)
  sleepUntil : Z -> api world unit; (* [NotOk] if the context is cancelled *)
  contextErr : world -> bool * world;
  stopTimer : SectorID -> world -> option bool * world; (* [Timer.Stop] *)
  startTimer : SectorID -> Z -> world -> world;
}.

(** ** The computation of a handler *)

Record openSector := {
  used : Z;
  lastDealEnd : Z;
  number : Z;
  ccUpdate : bool;
}.

(** The world and the maps of [Sealing]; [replies] are the calls of [pendingPiece.accepted]. *)
Record Sealing `{SealingWorld} := {
  wld : world;
  assigned : gmap SectorID (list Cid);
  pending : gmap Cid pendingPiece;
  openSecs : gmap SectorID openSector;
  nextDealSector : option Z;
  available : gset SectorID;
  replies : list Accepted;
}.

Section monad.
Context `{SealingWorld}.

Definition M (A : Type) : Type := Sealing -> outcome A * Sealing.

#[export] Instance M_ret : MRet M := fun A a s => (Ret a, s).

#[export] Instance M_bind : MBind M := fun A B f m s =>
  match m s with
  | (Ret a, s) => f a s
  | (Err e, s) => (Err e, s)
  | (Panic, s) => (Panic, s)
  end.

Definition setWorld (w : world) (s : Sealing) : Sealing :=
  {| wld := w; assigned := assigned s; pending := pending s; openSecs := openSecs s; nextDealSector := nextDealSector s;
     available := available s; replies := replies s |}.

Definition ask {A} (f : world -> A * world) : M A := fun s => let '(a, w) := f (wld s) in (Ret a, setWorld w s).

(** A handler sends an event, or stops without one, or returns an error. *)
Definition send (e : Event) : M (option Event) := mret (Some e).
Definition halt : M (option Event) := mret None.
Definition fail {A} (msg : string) : M A := fun s => (Err msg, s).
Definition panic {A} : M A := fun s => (Panic, s).

Definition derefM {A} (o : option A) : M A := match o with Some a => mret a | None => panic end.
End monad.

(** [x, err := m; if err != nil { return e }; k] *)
Notation "x ⇐ m 'orelse' e ; k" :=
  (mbind (fun r => match r with Ok x => k | NotOk => e end) m) (at level 20, m at level 100, e at level 100, k at level 200, right associativity).

Section checks.
Context `{PieceSizes} `{SealingWorld}.

(** ** storage/pipeline/checks.go *)

(** The loop over the pieces: the number of deals, or the first error. *)
Fixpoint checkPiecesLoop (ts : Head) (pieces : list SectorPiece) (offset dealCount : Z) : M (error + Z) :=
  match pieces with
  | [] => mret (inr dealCount)
  | p :: pieces =>
      if Size (Piece p) =? 0 then panic
      else if negb (offset mod Size (Piece p) =? 0) then mret (inl ErrInvalidPiece)
      else
        let offset := u64 (offset + Size (Piece p)) in
        match DealInfo p with
        | None =>
            if bool_decide (PieceCID (Piece p) = ZeroPieceCommitment (Unpadded (Size (Piece p))))
            then checkPiecesLoop ts pieces offset dealCount
            else mret (inl ErrInvalidPiece)
        | Some d =>
            deal ⇐ ask (StateMarketStorageDeal (DealID d) (hkey ts)) orelse mret (inl ErrInvalidDeals);
            if negb (bool_decide (mp_Provider deal = maddr)) then mret (inl ErrInvalidDeals)
            else if negb (bool_decide (mp_PieceCID deal = PieceCID (Piece p))) then mret (inl ErrInvalidDeals)
            else if negb (Size (Piece p) =? mp_PieceSize deal) then mret (inl ErrInvalidDeals)
            else if mp_StartEpoch deal <=? hheight ts then mret (inl ErrExpiredDeals)
            else checkPiecesLoop ts pieces offset (dealCount + 1)
        end
  end.

Definition checkPieces (pieces : list SectorPiece) (mustHaveDeals : bool) : M (option error) :=
  ts ⇐ ask ChainHead orelse mret (Some ErrApi);
  r ← checkPiecesLoop ts pieces 0 0;
  match r with
  | inl e => mret (Some e)
  | inr dealCount => mret (if mustHaveDeals && (dealCount <=? 0) then Some ErrNoDeals else None)
  end.

Definition checkPrecommit (si : SectorInfo) (tsk : TipSetKey) (height : Z) : M (option error) :=
  err ← checkPieces (Pieces si) false;
  match err with
  | Some e => mret (Some e)
  | None =>
      bad ← (if hasDeals si then
               commD ⇐ ask (StateComputeDataCID (SectorType si) (dealIDs si) tsk) orelse mret (Some ErrApi);
               mret (if bool_decide (CommD si = Some commD) then None else Some ErrBadCommD)
             else mret None);
      match bad with
      | Some e => mret (Some e)
      | None =>
          pci ⇐ ask (StateSectorPreCommitInfo (SectorNumber si) tsk) orelse mret (Some ErrApi);
          match pci with
          | Some pci => mret (Some (if pc_SealRandEpoch (Info pci) =? TicketEpoch si then ErrPrecommitOnChain else ErrBadTicket))
          | None =>
              alloc ⇐ ask (StateMinerSectorAllocated (SectorNumber si) tsk) orelse mret (Some ErrOther);
              if (alloc : bool) then mret (Some ErrSectorNumberAllocated)
              else mret (if TicketEpoch si <? i64 (height - MaxPreCommitRandomnessLookback) then Some ErrExpiredTicket else None)
          end
      end
  end.

Definition checkCommit (si : SectorInfo) (proof : bytes) (tsk : TipSetKey) : M (option error) :=
  if SeedEpoch si =? 0 then mret (Some ErrBadSeed)
  else
    pci ⇐ ask (StateSectorPreCommitInfo (SectorNumber si) tsk) orelse mret (Some ErrOther);
    match pci with
    | None =>
        alloc ⇐ ask (StateMinerSectorAllocated (SectorNumber si) tsk) orelse mret (Some ErrOther);
        mret (Some (if (alloc : bool) then (if CommitMessage si then ErrCommitWaitFailed else ErrOther) else ErrNoPrecommit))
    | Some pci =>
        if negb (i64 (PreCommitEpoch pci + GetPreCommitChallengeDelay) =? SeedEpoch si) then mret (Some ErrBadSeed)
        else
          buf ⇐ mret marshalAddress orelse mret (Some ErrOther);
          seed ⇐ ask (StateGetRandomnessFromBeacon (SeedEpoch si) buf tsk) orelse mret (Some ErrApi);
          if negb (bool_decide (seed = SeedValue si)) then mret (Some ErrBadSeed)
          else
            _ ← derefM (CommR si); (* compared with the one on chain, for the log *)
            commD ← derefM (CommD si);
            ok ⇐ ask (VerifySeal (minerSectorID (SectorNumber si)) (pc_SealedCID (Info pci)) (pc_SealProof (Info pci))
                        proof (TicketValue si) (SeedValue si) commD) orelse mret (Some ErrInvalidProof);
            if negb ok then mret (Some ErrInvalidProof) else checkPieces (Pieces si) false
    end.

(** A nil proof is the empty one. *)
Definition checkReplicaUpdate (si : SectorInfo) (tsk : TipSetKey) : M (option error) :=
  err ← checkPieces (Pieces si) true;
  match err with
  | Some e => mret (Some e)
  | None =>
      if negb (CCUpdate si) then mret (Some ErrOther)
      else
        commD ⇐ ask (StateComputeDataCID (SectorType si) (dealIDs si) tsk) orelse mret (Some ErrApi);
        match UpdateUnsealed si with
        | None => mret (Some ErrBadRU)
        | Some updateUnsealed =>
            if negb (bool_decide (commD = updateUnsealed)) then mret (Some ErrBadRU)
            else if bool_decide (UpdateSealed si = None) then mret (Some ErrBadRU)
            else mret (if bool_decide (ReplicaUpdateProof si = []) then Some ErrBadPR else None)
        end
  end.

(** ** storage/pipeline/upgrade_queue.go *)

Fixpoint partitionsActive (parts : list (Z -> answer bool)) (sector : Z) : answer bool :=
  match parts with
  | [] => Ok false
  | isSet :: parts =>
      match isSet sector with
      | NotOk => NotOk
      | Ok true => Ok true
      | Ok false => partitionsActive parts sector
      end
  end.

Fixpoint deadlinesActive (dls : list Z) (tsk : TipSetKey) (sector : Z) : M (answer bool) :=
  match dls with
  | [] => mret (Ok false)
  | dl :: dls =>
      parts ⇐ ask (StateMinerPartitions dl tsk) orelse mret NotOk;
      match partitionsActive parts sector with
      | Ok false => deadlinesActive dls tsk sector
      | r => mret r
      end
  end.

Definition sectorActive (tsk : TipSetKey) (sector : Z) : M (answer bool) :=
  dls ⇐ ask (StateMinerDeadlines tsk) orelse mret NotOk;
  deadlinesActive (Z.of_nat <$> seq 0 dls) tsk sector.

(** ** storage/pipeline/currentdealinfo.go *)

Record CurrentDealInfo := {
  cd_DealID : Z;
  cd_MarketDeal : option MarketProposal;
  cd_PublishMsgTipSet : TipSetKey;
}.

Definition CheckDealEquality (tsk : TipSetKey) (p1 p2 : MarketProposal) : M (answer bool) :=
  p1ClientID ⇐ ask (StateLookupID (mp_Client p1) tsk) orelse mret NotOk;
  p2ClientID ⇐ ask (StateLookupID (mp_Client p2) tsk) orelse mret NotOk;
  mret (Ok (bool_decide (mp_PieceCID p1 = mp_PieceCID p2) && (mp_PieceSize p1 =? mp_PieceSize p2) &&
            Bool.eqb (mp_VerifiedDeal p1) (mp_VerifiedDeal p2) && bool_decide (mp_Label p1 = mp_Label p2) &&
            (mp_StartEpoch p1 =? mp_StartEpoch p2) && (mp_EndEpoch p1 =? mp_EndEpoch p2) &&
            (mp_StoragePricePerEpoch p1 =? mp_StoragePricePerEpoch p2) && (mp_ProviderCollateral p1 =? mp_ProviderCollateral p2) &&
            (mp_ClientCollateral p1 =? mp_ClientCollateral p2) && bool_decide (mp_Provider p1 = mp_Provider p2) &&
            bool_decide (p1ClientID = p2ClientID))).

(** The index of the first proposal equal to the target; -1 if there is none. *)
Fixpoint findDeal (tsk : TipSetKey) (proposal : MarketProposal) (deals : list MarketProposal) (i : Z) : M (answer Z) :=
  match deals with
  | [] => mret (Ok (-1))
  | paramDeal :: deals =>
      eq ⇐ CheckDealEquality tsk proposal paramDeal orelse mret NotOk;
      if (eq : bool) then mret (Ok i) else findDeal tsk proposal deals (i + 1)
  end.

Definition indexM {A} (l : list A) (i : Z) : M A := fun s => (index l i, s).

Definition dealIDFromPublishDealsMsg (tsk : TipSetKey) (proposal : option MarketProposal) (publishCid : Cid) : M (answer (Z * TipSetKey)) :=
  lookup ⇐ ask (StateSearchMsg tsk publishCid) orelse mret NotOk;
  match lookup with
  | None => mret NotOk
  | Some lookup =>
      if negb (ExitCode lookup =? 0) then mret NotOk
      else
        nv ⇐ ask (StateNetworkVersion (ml_TipSet lookup)) orelse mret NotOk;
        retval ⇐ mret (decodePublishReturn (ReturnValue lookup) nv) orelse mret NotOk;
        dealIDs ⇐ mret (DealIDs retval) orelse mret NotOk;
        match proposal with
        | None =>
            if 1 <? len dealIDs then mret NotOk
            else id ← indexM dealIDs 0; mret (Ok (id, ml_TipSet lookup))
        | Some proposal =>
            params ⇐ ask (ChainGetMessage publishCid) orelse mret NotOk;
            deals ⇐ mret (unmarshalPublishParams params) orelse mret NotOk;
            dealIdx ⇐ findDeal tsk proposal deals 0 orelse mret NotOk;
            if dealIdx =? -1 then mret NotOk
            else if len deals <=? dealIdx then mret NotOk
            else
              valid ⇐ mret (IsDealValid retval (u64 dealIdx)) orelse mret NotOk;
              if negb valid.1 then mret NotOk
              else if len dealIDs <=? valid.2 then mret NotOk
              else id ← indexM dealIDs valid.2; mret (Ok (id, ml_TipSet lookup))
        end
  end.

Definition GetCurrentDealInfo (tsk : TipSetKey) (proposal : option MarketProposal) (publishCid : Cid) : M (answer CurrentDealInfo) :=
  r ⇐ dealIDFromPublishDealsMsg tsk proposal publishCid orelse mret NotOk;
  let '(dealID, pubMsgTok) := r in
  marketDeal ⇐ ask (StateMarketStorageDeal dealID tsk) orelse mret NotOk;
  let found := {| cd_DealID := dealID; cd_MarketDeal := Some marketDeal; cd_PublishMsgTipSet := pubMsgTok |} in
  match proposal with
  | None => mret (Ok found)
  | Some proposal =>
      equal ⇐ CheckDealEquality tsk proposal marketDeal orelse mret NotOk;
      mret (if (equal : bool) then Ok found else NotOk)
  end.

(** ** storage/pipeline/utils.go and sealing.go *)

Context `{BigOps}.

Definition collateralSendAmount (cfg : SealingConfig) (collateral : Z) : M (answer Z) :=
  if CollateralFromMinerBalance cfg then
    if DisableCollateralFallback cfg then mret (Ok (big_NewInt 0))
    else
      avail ⇐ ask (StateMinerAvailableBalance EmptyTSK) orelse mret NotOk;
      let avail := big_Sub avail (AvailableBalanceBuffer cfg) in
      let avail := if big_LessThan avail (big_NewInt 0) then big_NewInt 0 else avail in
      let collateral := big_Sub collateral avail in
      mret (Ok (if big_LessThan collateral (big_NewInt 0) then big_NewInt 0 else collateral))
  else mret (Ok collateral).

Definition currentSealProof : M (answer Z) :=
  mi ⇐ ask (StateMinerInfo EmptyTSK) orelse mret NotOk;
  ver ⇐ ask (StateNetworkVersion EmptyTSK) orelse mret NotOk;
  c ⇐ ask getConfig orelse mret NotOk;
  mret (PreferredSealProof ver mi (UseSyntheticPoRep c)).
End checks.
