(* ===== verification/SealingFailed.v ===== *)
(** * Recovery from failures: storage/pipeline/states_failed.go

    One handler per failure state: it looks at what is on chain, waits, and sends the event
    that resumes the sector, gives it up, or asks for other deals. *)

From S2P Require Import Prelude SealingTypes Pieces SealingEvents SealingStats SealingInput SealingApi.

Section failed.
Context `{PieceSizes} `{SealingWorld}.

Definition MinRetryTime : Z := 60000000000. (* nanoseconds *)

(** The last entry of the log is read before its length is looked at. *)
Definition failedCooldown (sector : SectorInfo) : M (answer unit) :=
  l ← derefM (last (Log sector));
  let retryStart := i64 (Timestamp l) * 1000000000 + MinRetryTime in
  now ← ask clock;
  if (0 <? len (Log sector)) && negb (retryStart <? now) then ask (sleepUntil retryStart) else mret (Ok tt).

Definition checkPreCommitted (sector : SectorInfo) : M (answer (option SectorPreCommitOnChainInfo)) :=
  ts ⇐ ask ChainHead orelse mret NotOk;
  ask (StateSectorPreCommitInfo (SectorNumber sector) (hkey ts)).

(** [if err := failedCooldown(ctx, sector); err != nil { return err }] and an event. *)
Definition sendAfterCooldown (sector : SectorInfo) (e : Event) : M (option Event) :=
  _ ⇐ failedCooldown sector orelse fail "cancelled"; send e.

Definition MaxPreCommit1Retries : Z := 3.

Definition handleSealPrecommit1Failed (sector : SectorInfo) : M (option Event) :=
  if MaxPreCommit1Retries <? PreCommit1Fails sector then send SectorRemove
  else sendAfterCooldown sector SectorRetrySealPreCommit1.

Definition handleSealPrecommit2Failed (sector : SectorInfo) : M (option Event) :=
  _ ⇐ failedCooldown sector orelse fail "cancelled";
  if 3 <? PreCommit2Fails sector then send SectorRetrySealPreCommit1 else send SectorRetrySealPreCommit2.

(** The search for the pre-commit message; [None] goes on. *)
Definition preCommitMessageResult (ts : Head) (sector : SectorInfo) : M (option (option Event)) :=
  match PreCommitMessage sector with
  | None => mret None
  | Some msg =>
      mw ⇐ ask (StateSearchMsg (hkey ts) msg) orelse (r ← sendAfterCooldown sector SectorRetryPreCommitWait; mret (Some r));
      match mw with
      | None => mret (Some (Some SectorRetryPreCommitWait))
      | Some mw =>
          if ExitCode mw =? 0 then mret (Some (Some SectorRetryPreCommitWait))
          else if ExitCode mw =? SysErrOutOfGas then mret (Some (Some SectorRetryPreCommit))
          else mret None
      end
  end.

(** What follows when the checks pass, or find the pre-commit on chain. *)
Definition preCommitFailedRetry (ts : Head) (sector : SectorInfo) : M (option Event) :=
  r ← checkPreCommitted sector;
  match r with
  | Ok (Some pci) =>
      match PreCommitMessage sector with
      | None => send (SectorPreCommitLanded (hkey ts))
      | Some _ =>
          commR ← derefM (CommR sector);
          if negb (bool_decide (pc_SealedCID (Info pci) = commR)) then halt
          else sendAfterCooldown sector SectorRetryWaitSeed
      end
  | _ => sendAfterCooldown sector SectorRetryPreCommit
  end.

Definition handlePreCommitFailed (sector : SectorInfo) : M (option Event) :=
  ts ⇐ ask ChainHead orelse halt;
  found ← preCommitMessageResult ts sector;
  match found with
  | Some r => mret r
  | None =>
      err ← checkPrecommit sector (hkey ts) (hheight ts);
      match err with
      | Some ErrApi => halt
      | Some ErrBadCommD => send (SectorSealPreCommit1Failed "bad CommD error")
      | Some ErrExpiredTicket => send (SectorSealPreCommit1Failed "ticket expired error")
      | Some ErrBadTicket => send (SectorSealPreCommit1Failed "bad expired")
      | Some ErrInvalidDeals => send (SectorInvalidDealIDs RetPreCommitFailed)
      | Some ErrExpiredDeals => send (SectorDealsExpired "sector deals expired")
      | Some ErrNoPrecommit => send SectorRetryPreCommit
      | Some ErrSectorNumberAllocated => halt
      | Some ErrPrecommitOnChain | None => preCommitFailedRetry ts sector
      | Some _ => fail "checkPrecommit sanity check error"
      end
  end.

Definition handleComputeProofFailed (sector : SectorInfo) : M (option Event) :=
  _ ⇐ failedCooldown sector orelse fail "cancelled";
  if 1 <? InvalidProofs sector then send (SectorSealPreCommit1Failed "consecutive compute fails") else send SectorRetryComputeProof.

Definition handleRemoteCommitFailed (sector : SectorInfo) : M (option Event) := sendAfterCooldown sector SectorRetryComputeProof.

(** The search for the message of the replica update; [None] goes on. *)
Definition replicaUpdateMessageResult (sector : SectorInfo) : M (option Event) :=
  match ReplicaUpdateMessage sector with
  | None => mret None
  | Some msg =>
      mw ⇐ ask (StateSearchMsg EmptyTSK msg) orelse send SectorRetrySubmitReplicaUpdateWait;
      match mw with
      | None => send SectorRetrySubmitReplicaUpdateWait
      | Some mw =>
          if ExitCode mw =? 0 then send SectorRetrySubmitReplicaUpdateWait
          else if ExitCode mw =? SysErrOutOfGas then send SectorRetrySubmitReplicaUpdate
          else mret None
      end
  end.

Definition handleSubmitReplicaUpdateFailed (sector : SectorInfo) : M (option Event) :=
  _ ⇐ failedCooldown sector orelse fail "cancelled";
  found ← replicaUpdateMessageResult sector;
  match found with
  | Some e => send e
  | None =>
      ts ⇐ ask ChainHead orelse halt;
      err ← checkReplicaUpdate sector (hkey ts);
      match err with
      | Some ErrApi => halt
      | Some ErrBadRU => send SectorRetryReplicaUpdate
      | Some ErrBadPR => send SectorRetryProveReplicaUpdate
      | Some ErrInvalidDeals => send (SectorInvalidDealIDs EmptyString)
      | Some ErrExpiredDeals => send (SectorDealsExpired "expired dealIDs in sector")
      | Some _ => fail "checkReplica sanity check error"
      | None =>
          active ⇐ sectorActive (hkey ts) (SectorNumber sector) orelse halt;
          if negb active then send (SectorAbortUpgrade "sector marked for upgrade no longer active, aborting upgrade")
          else send SectorRetrySubmitReplicaUpdate
      end
  end.

Definition handleReleaseSectorKeyFailed (sector : SectorInfo) : M (option Event) := sendAfterCooldown sector SectorUpdateActive.

(** The search for the commit message; [None] goes on. *)
Definition commitMessageResult (ts : Head) (sector : SectorInfo) : M (option (option Event)) :=
  match CommitMessage sector with
  | None => mret None
  | Some msg =>
      mw ⇐ ask (StateSearchMsg (hkey ts) msg) orelse (r ← sendAfterCooldown sector SectorRetryCommitWait; mret (Some r));
      match mw with
      | None => mret (Some (Some SectorRetryCommitWait))
      | Some mw =>
          if ExitCode mw =? 0 then
            si ⇐ ask (StateSectorGetInfo (SectorNumber sector) (ml_TipSet mw)) orelse (r ← sendAfterCooldown sector SectorRetryCommitWait; mret (Some r));
            match si with
            | Some _ => mret (Some (Some SectorRetryCommitWait))
            | None => mret None
            end
          else if ExitCode mw =? SysErrOutOfGas then mret (Some (Some SectorRetrySubmitCommit))
          else mret None
      end
  end.

Definition handleCommitFailed (sector : SectorInfo) : M (option Event) :=
  ts ⇐ ask ChainHead orelse halt;
  found ← commitMessageResult ts sector;
  match found with
  | Some r => mret r
  | None =>
      err ← checkCommit sector (PoRepProof sector) (hkey ts);
      match err with
      | Some ErrApi => halt
      | Some ErrBadSeed => send SectorRetryWaitSeed
      | Some ErrInvalidProof =>
          _ ⇐ failedCooldown sector orelse fail "cancelled";
          if 0 <? InvalidProofs sector then send (SectorSealPreCommit1Failed "consecutive invalid proofs")
          else send SectorRetryInvalidProof
      | Some ErrPrecommitOnChain => send SectorRetryPreCommitWait
      | Some ErrNoPrecommit => send SectorRetryPreCommit
      | Some ErrInvalidDeals => send (SectorInvalidDealIDs RetCommitFailed)
      | Some ErrExpiredDeals => send (SectorDealsExpired "sector deals expired")
      | Some ErrCommitWaitFailed => sendAfterCooldown sector SectorRetryCommitWait
      | Some _ => fail "checkCommit sanity check error"
      | None => sendAfterCooldown sector SectorRetryComputeProof
      end
  end.

Definition handleFinalizeFailed (sector : SectorInfo) : M (option Event) := sendAfterCooldown sector SectorRetryFinalize.

Definition handleRemoveFailed (sector : SectorInfo) : M (option Event) := sendAfterCooldown sector SectorRemove.

(** An error of the call reads as no pre-commit. *)
Definition handleTerminateFailed (sector : SectorInfo) : M (option Event) :=
  r ← ask (StateSectorPreCommitInfo (SectorNumber sector) EmptyTSK);
  match r with
  | Ok (Some _) => halt
  | _ => sendAfterCooldown sector SectorTerminate
  end.

Definition handleDealsExpired (sector : SectorInfo) : M (option Event) :=
  si ⇐ ask (StateSectorGetInfo (SectorNumber sector) EmptyTSK) orelse fail "getting sector info";
  match si with
  | Some _ => fail "sector is committed on-chain, but we're in DealsExpired"
  | None => send SectorRemove
  end.

Definition handleDealsExpiredSnapDeals (sector : SectorInfo) : M (option Event) :=
  if negb (CCUpdate sector) then fail "should never reach SnapDealsDealsExpired as a non-CCUpdate sector"
  else send (SectorAbortUpgrade "one of upgrade deals expired").

(** [cleanupAssignedDeals] of states_sealing.go on the maps of this state. *)
Definition cleanupDeals (sector : SectorInfo) : M unit := fun s =>
  let '(m, acc) :=
    cleanupAssignedDeals minerSectorID
      {| assignedPieces := assigned s; pendingPieces := pending s; openSectors := dom (openSecs s) |} sector in
  (Ret tt,
   {| wld := wld s; assigned := assignedPieces m; pending := pendingPieces m;
      openSecs := filter (fun x => x.1 ∈ openSectors m) (openSecs s); nextDealSector := nextDealSector s;
      available := available s; replies := replies s ++ acc |}).

Definition handleAbortUpgrade (sector : SectorInfo) : M (option Event) :=
  if negb (CCUpdate sector) then fail "should never reach AbortUpgrade as a non-CCUpdate sector"
  else
    _ ← cleanupDeals sector;
    _ ⇐ ask (ReleaseReplicaUpgrade sector) orelse fail "removing CC update files from sector storage";
    _ ← ask (ReleaseUnsealed sector []);
    _ ← ask (sealerFinalizeSector sector);
    send SectorRevertUpgradeToProving.

(** ** Deals that changed *)

(** The pieces whose deal must be looked up again, and the number of fillers. *)
Fixpoint piecesToFix (ts : Head) (pieces : list SectorPiece) (i : Z) (toFix : list Z) (paddingPieces : Z) : M (answer (list Z * Z)) :=
  match pieces with
  | [] => mret (Ok (toFix, paddingPieces))
  | p :: pieces =>
      match DealInfo p with
      | None =>
          if negb (bool_decide (PieceCID (Piece p) = ZeroPieceCommitment (Unpadded (Size (Piece p))))) then mret NotOk
          else piecesToFix ts pieces (i + 1) toFix (paddingPieces + 1)
      | Some d =>
          deal ⇐ ask (StateMarketStorageDeal (DealID d) (hkey ts)) orelse piecesToFix ts pieces (i + 1) (toFix ++ [i]) paddingPieces;
          if negb (bool_decide (mp_Provider deal = maddr)) || negb (bool_decide (mp_PieceCID deal = PieceCID (Piece p)))
             || negb (Size (Piece p) =? mp_PieceSize deal)
          then piecesToFix ts pieces (i + 1) (toFix ++ [i]) paddingPieces
          else if mp_StartEpoch deal <=? hheight ts then mret NotOk
          else piecesToFix ts pieces (i + 1) toFix paddingPieces
      end
  end.

Definition recoveryPiecesToFix (sector : SectorInfo) : M (answer (list Z * Z)) :=
  ts ⇐ ask ChainHead orelse mret NotOk;
  piecesToFix ts (Pieces sector) 0 [] 0.

(** The loop over the pieces to fix: [None] if the handler gives up at a piece without a
    publish message, else whether a piece failed and the new deal IDs. *)
Fixpoint fixPieces (ts : Head) (pieces : list SectorPiece) (toFix : list Z) (failed : bool) (updates : gmap Z Z) : M (option (bool * gmap Z Z)) :=
  match toFix with
  | [] => mret (Some (failed, updates))
  | i :: toFix =>
      p ← indexM pieces i;
      d ← derefM (DealInfo p);
      match PublishCid d with
      | None => mret None
      | Some publishCid =>
          r ← GetCurrentDealInfo (hkey ts) (proposalFields <$> DealProposal d) publishCid;
          match r with
          | Ok res =>
              match cd_MarketDeal res with
              | Some deal =>
                  if negb (bool_decide (mp_PieceCID deal = PieceCID (Piece p))) then fixPieces ts pieces toFix true updates
                  else fixPieces ts pieces toFix failed (<[i := cd_DealID res]> updates)
              | None => fixPieces ts pieces toFix true updates
              end
          | NotOk => fixPieces ts pieces toFix true updates
          end
      end
  end.

(** Both branches of a failure send the same event. *)
Definition handleRecoverDealIDsOrFailWith (sector : SectorInfo) (failWith : Event) : M (option Event) :=
  r ⇐ recoveryPiecesToFix sector orelse fail "recovering deal ids";
  ts ⇐ ask ChainHead orelse fail "getting chain head";
  res ← fixPieces ts (Pieces sector) r.1 false ∅;
  match res with
  | None => send failWith
  | Some (failed, updates) => if (failed : bool) then send failWith else send (SectorUpdateDealIDs updates)
  end.

Definition HandleRecoverDealIDs (sector : SectorInfo) : M (option Event) := handleRecoverDealIDsOrFailWith sector SectorRemove.

Definition handleSnapDealsRecoverDealIDs (sector : SectorInfo) : M (option Event) :=
  handleRecoverDealIDsOrFailWith sector (SectorAbortUpgrade "failed recovering deal ids").
End failed.
