(* ===== verification/SealingUpdate.v ===== *)
(** * Replica updates and the life of a proven sector: storage/pipeline/states_replica_update.go, states_proving.go

    The handlers of the upgrade of a committed-capacity sector, and those of the states after
    sealing: faults, termination and removal.  A loop without a bound has a number of rounds
    as an argument; when they run out the handler is still waiting, and has sent nothing. *)

From S2P Require Import Prelude SealingTypes Pieces SealingEvents SealingStats SealingInput SealingApi SealingFailed.

Definition InteractivePoRepConfidence : Z := 6.

Section update.
Context `{PieceSizes} `{SealingWorld} `{BigOps}.

(** ** storage/pipeline/states_replica_update.go *)

Definition handleErrors (err : error) (sector : SectorInfo) : M (option Event) :=
  match err with
  | ErrApi => halt
  | ErrInvalidDeals => send (SectorInvalidDealIDs EmptyString)
  | ErrExpiredDeals => send (SectorDealsExpired "expired dealIDs in sector")
  | _ => fail "checkPieces sanity check error"
  end.

Definition handleReplicaUpdate (sector : SectorInfo) : M (option Event) :=
  if negb (hasDeals sector) then send (SectorAbortUpgrade "sector had no deals")
  else
    err ← checkPieces (Pieces sector) true;
    match err with
    | Some err => handleErrors err sector
    | None =>
        out ⇐ ask (ReplicaUpdate sector) orelse send (SectorUpdateReplicaFailed "replica update failed");
        send (SectorReplicaUpdate out.1 out.2)
    end.

Definition handleProveReplicaUpdate (sector : SectorInfo) : M (option Event) :=
  match UpdateSealed sector, UpdateUnsealed sector with
  | Some updateSealed, Some updateUnsealed =>
      match CommR sector with
      | None => fail "invalid sector with nil CommR"
      | Some commR =>
          ts ⇐ ask ChainHead orelse halt;
          active ⇐ sectorActive (hkey ts) (SectorNumber sector) orelse halt;
          if negb active then send (SectorAbortUpgrade "sector marked for upgrade no longer active, aborting upgrade")
          else
            vanillaProofs ⇐ ask (ProveReplicaUpdate1 sector commR updateSealed updateUnsealed)
              orelse send (SectorProveReplicaUpdateFailed "prove replica update (1) failed");
            err ← checkPieces (Pieces sector) true;
            match err with
            | Some err => handleErrors err sector
            | None =>
                proof ⇐ ask (ProveReplicaUpdate2 sector commR updateSealed updateUnsealed vanillaProofs)
                  orelse send (SectorProveReplicaUpdateFailed "prove replica update (2) failed");
                send (SectorProveReplicaUpdate proof)
            end
      end
  | _, _ => fail "invalid sector with nil UpdateSealed or UpdateUnsealed output"
  end.

(** The deadline of a sector that is due now or next cannot be changed; uint64 arithmetic, and
    a period without deadlines panics. *)
Definition deadlineImmutable (deadline : Z) (dlinfo : DeadlineInfo) : M bool :=
  if deadline =? Index dlinfo then mret true
  else if WPoStPeriodDeadlines dlinfo =? 0 then panic
  else mret (u64 (Index dlinfo + 1) mod WPoStPeriodDeadlines dlinfo =? deadline).

(** The message of an update: its collateral, the address that pays, and the push. *)
Definition sendReplicaUpdate (sector : SectorInfo) (cfg : SealingConfig) (ts : Head) (enc : bytes) (updateSealed : Cid) : M (option Event) :=
  onChainInfo ⇐ ask (StateSectorGetInfo (SectorNumber sector) (hkey ts)) orelse halt;
  match onChainInfo with
  | None => fail "sector not found"
  | Some onChainInfo =>
      sp ⇐ currentSealProof orelse halt;
      let virtualPCI :=
        {| pc_SealProof := sp; pc_SectorNumber := SectorNumber sector; pc_SealedCID := updateSealed; pc_SealRandEpoch := 0;
           pc_DealIDs := dealIDs sector; pc_Expiration := si_Expiration onChainInfo; pc_UnsealedCid := None |} in
      collateral ⇐ ask (StateMinerInitialPledgeCollateral virtualPCI (hkey ts)) orelse fail "getting initial pledge collateral";
      let collateral := big_Sub collateral (si_InitialPledge onChainInfo) in
      let collateral := if big_LessThan collateral (big_NewInt 0) then big_NewInt 0 else collateral in
      collateral ⇐ collateralSendAmount cfg collateral orelse halt;
      let goodFunds := big_Add collateral MaxCommitGasFee in
      mi ⇐ ask (StateMinerInfo (hkey ts)) orelse halt;
      from ⇐ ask (AddressFor mi goodFunds collateral) orelse send SectorSubmitReplicaUpdateFailed;
      mcid ⇐ ask (MpoolPushMessage from MethodProveReplicaUpdates collateral MaxCommitGasFee enc) orelse send SectorSubmitReplicaUpdateFailed;
      send (SectorReplicaUpdateSubmitted mcid)
  end.

(** After an error of [StateMinerProvingDeadline], which is only logged, the nil deadline is
    used. *)
Definition handleSubmitReplicaUpdate (sector : SectorInfo) : M (option Event) :=
  ts ⇐ ask ChainHead orelse halt;
  err ← checkReplicaUpdate sector (hkey ts);
  match err with
  | Some _ => send SectorSubmitReplicaUpdateFailed
  | None =>
      sl ⇐ ask (StateSectorPartition (SectorNumber sector) (hkey ts)) orelse halt;
      dlinfo ⇐ ask (StateMinerProvingDeadline (hkey ts)) orelse panic;
      immutable ← deadlineImmutable sl.1 dlinfo;
      if (immutable : bool) then send SectorDeadlineImmutable
      else
        updateProof ⇐ mret (RegisteredUpdateProof (SectorType sector)) orelse send SectorSubmitReplicaUpdateFailed;
        updateSealed ← derefM (UpdateSealed sector);
        enc ⇐ mret (marshalReplicaUpdates (SectorNumber sector) sl.1 sl.2 updateSealed (dealIDs sector) updateProof (ReplicaUpdateProof sector))
          orelse send SectorSubmitReplicaUpdateFailed;
        cfg ⇐ ask getConfig orelse fail "getting config";
        sendReplicaUpdate sector cfg ts enc updateSealed
  end.

(** The height at which the deadline of the sector is mutable again. *)
Definition mutableAt (ts : Head) (dlinfo : DeadlineInfo) (sectorDeadlineOpen : bool) : Z :=
  let dlineEpochsRemaining := i64 (NextOpen dlinfo - hheight ts) in
  if sectorDeadlineOpen then i64 (hheight ts + dlineEpochsRemaining)
  else i64 (i64 (hheight ts + dlineEpochsRemaining) + WPoStChallengeWindow dlinfo).

(** After [ChainAt] the handler waits for the callback, or for its context to be cancelled. *)
Fixpoint handleWaitMutable (n : nat) (sector : SectorInfo) : M (option Event) :=
  ts ⇐ ask ChainHead orelse halt;
  sl ⇐ ask (StateSectorPartition (SectorNumber sector) (hkey ts)) orelse halt;
  dlinfo ⇐ ask (StateMinerProvingDeadline (hkey ts)) orelse halt;
  if WPoStPeriodDeadlines dlinfo =? 0 then panic
  else
    let sectorDeadlineOpen := sl.1 =? Index dlinfo in
    let sectorDeadlineNext := u64 (Index dlinfo + 1) mod WPoStPeriodDeadlines dlinfo =? sl.1 in
    if sectorDeadlineOpen || sectorDeadlineNext then
      _ ⇐ ask (ChainAt 5 (mutableAt ts dlinfo sectorDeadlineOpen)) orelse halt;
      cancelled ← ask contextErr;
      if (cancelled : bool) then fail "cancelled"
      else match n with O => halt | S n => handleWaitMutable n sector end
    else send SectorDeadlineMutable.

Definition handleReplicaUpdateWait (sector : SectorInfo) : M (option Event) :=
  match ReplicaUpdateMessage sector with
  | None => send SectorSubmitReplicaUpdateFailed
  | Some msg =>
      mw ⇐ ask (StateWaitMsg msg) orelse send SectorSubmitReplicaUpdateFailed;
      if negb (ExitCode mw =? 0) then send SectorSubmitReplicaUpdateFailed
      else
        si ⇐ ask (StateSectorGetInfo (SectorNumber sector) (ml_TipSet mw)) orelse send SectorSubmitReplicaUpdateFailed;
        match si with
        | None => send SectorSubmitReplicaUpdateFailed
        | Some si =>
            updateSealed ← derefM (UpdateSealed sector);
            if negb (bool_decide (si_SealedCID si = updateSealed))
            then send (SectorAbortUpgrade "mismatch of expected onchain sealed cid after replica update")
            else send SectorReplicaUpdateLanded
        end
  end.

Definition handleFinalizeReplicaUpdate (sector : SectorInfo) : M (option Event) :=
  cfg ⇐ ask getConfig orelse fail "getting sealing config";
  _ ⇐ ask (ReleaseUnsealed sector (keepUnsealedRanges (Pieces sector) false (AlwaysKeepUnsealedCopy cfg)))
    orelse send (SectorFinalizeFailed "release unsealed");
  _ ⇐ ask (sealerFinalizeReplicaUpdate sector) orelse send (SectorFinalizeFailed "finalize sector");
  send SectorFinalized.

(** One attempt to have [SectorUpdateActive] sent at the height the update is active. *)
Definition tryActivate (msg : Cid) : M (answer unit) :=
  mw ⇐ ask (StateWaitMsg msg) orelse mret NotOk;
  ts ⇐ ask ChainHead orelse mret NotOk;
  nv ⇐ ask (StateNetworkVersion (hkey ts)) orelse mret NotOk;
  ask (ChainAt InteractivePoRepConfidence (i64 (ml_Height mw + GetWinningPoStSectorSetLookback nv))).

Fixpoint activateLoop (n : nat) (msg : Cid) : M (option Event) :=
  r ← tryActivate msg;
  match r with
  | Ok _ => send SectorUpdateActive (* by the callback *)
  | NotOk => match n with O => halt | S n => activateLoop n msg end
  end.

Definition handleUpdateActivating (n : nat) (sector : SectorInfo) : M (option Event) :=
  match ReplicaUpdateMessage sector with
  | None => fail "nil sector.ReplicaUpdateMessage!"
  | Some msg => activateLoop n msg
  end.

Definition handleReleaseSectorKey (sector : SectorInfo) : M (option Event) :=
  _ ⇐ ask (ReleaseSectorKeyFiles sector) orelse send (SectorReleaseKeyFailed "release sector key");
  send SectorKeyReleased.

(** ** storage/pipeline/states_proving.go *)

Definition handleFaulty (sector : SectorInfo) : M (option Event) := halt.

Definition handleFaultReported (sector : SectorInfo) : M (option Event) :=
  match FaultReportMsg sector with
  | None => fail "entered fault reported state without a FaultReportMsg cid"
  | Some msg =>
      mw ⇐ ask (StateWaitMsg msg) orelse fail "failed to wait for fault declaration";
      if negb (ExitCode mw =? 0) then fail "UNHANDLED: submitting fault declaration failed" else send SectorFaultedFinal
  end.

Definition handleTerminating (sector : SectorInfo) : M (option Event) :=
  si ⇐ ask (StateSectorGetInfo (SectorNumber sector) EmptyTSK) orelse send (SectorTerminateFailed "getting sector info");
  match si with
  | None =>
      pci ⇐ ask (StateSectorPreCommitInfo (SectorNumber sector) EmptyTSK) orelse send (SectorTerminateFailed "checking precommit presence");
      match pci with
      | Some _ => send (SectorTerminateFailed "sector was precommitted but not proven, remove instead of terminating")
      | None => send SectorRemove
      end
  | Some _ =>
      r ⇐ ask (AddTermination (minerSectorID (SectorNumber sector))) orelse send (SectorTerminateFailed "queueing termination");
      let '(termCid, terminated) := r in
      if (terminated : bool) then send (SectorTerminating None) else send (SectorTerminating (Some termCid))
  end.

Definition handleTerminateWait (sector : SectorInfo) : M (option Event) :=
  match TerminateMessage sector with
  | None =>
      ts ⇐ ask ChainHead orelse send (SectorTerminateFailed "getting chain head");
      send (SectorTerminated (hheight ts))
  | Some msg =>
      mw ⇐ ask (StateWaitMsg msg) orelse send (SectorTerminateFailed "waiting for terminate message to land on chain");
      if negb (ExitCode mw =? 0) then send (SectorTerminateFailed "terminate message failed to execute")
      else send (SectorTerminated (ml_Height mw))
  end.

(** How long to wait before looking again, in nanoseconds. *)
Definition finalityWait (h terminatedAt lookback : Z) : Z :=
  i64 (i64 (i64 (i64 (h - terminatedAt) + lookback) * i64 BlockDelaySecs) * 1000000000).

Fixpoint handleTerminateFinality (n : nat) (sector : SectorInfo) : M (option Event) :=
  ts ⇐ ask ChainHead orelse send (SectorTerminateFailed "getting chain head");
  nv ⇐ ask (StateNetworkVersion (hkey ts)) orelse send (SectorTerminateFailed "getting network version");
  let lookback := GetWinningPoStSectorSetLookback nv in
  if i64 (TerminatedAt sector + lookback) <=? hheight ts then send SectorRemove
  else
    now ← ask clock;
    _ ⇐ ask (sleepUntil (now + finalityWait (hheight ts) (TerminatedAt sector) lookback)) orelse fail "cancelled";
    match n with O => halt | S n => handleTerminateFinality n sector end.

Definition handleRemoving (sector : SectorInfo) : M (option Event) :=
  _ ⇐ ask (sealerRemove sector) orelse send (SectorRemoveFailed "remove"); send SectorRemoved.

Definition setAvailable (f : gset SectorID -> gset SectorID) : M unit := fun s =>
  (Ret tt, {| wld := wld s; assigned := assigned s; pending := pending s; openSecs := openSecs s; nextDealSector := nextDealSector s;
              available := f (available s); replies := replies s |}).

Definition handleProvingSector (sector : SectorInfo) : M (option Event) :=
  _ ← setAvailable (fun a => a ∖ {[minerSectorID (SectorNumber sector)]});
  _ ← cleanupDeals sector;
  halt.

Definition handleAvailableSector (sector : SectorInfo) : M (option Event) :=
  _ ← setAvailable (fun a => a ∪ {[minerSectorID (SectorNumber sector)]}); halt.
End update.
