(* ===== verification/SealingCommit.v ===== *)
(** * Sealing and committing: storage/pipeline/states_sealing.go, precommit_policy.go, receive.go, input.go

    The handlers on the way of a sector from its pieces to the proof on chain: the ticket, the
    two pre-commit phases, the batched messages, the seed, the proof, and finalisation, with the
    expiration that the pre-commit policy gives.  [handleAddPiece] and [handlePacking] are those
    of [SealingInput], on the maps of this state. *)

From S2P Require Import Prelude SealingTypes Pieces SealingEvents SealingStats SealingInput SealingApi SealingFailed SealingUpdate.

Section commit.
Context `{PieceSizes} `{SealingWorld} `{BigOps}.

(** ** Pieces *)

Definition inputMaps (s : Sealing) : InputMaps :=
  {| assignedPieces := assigned s; pendingPieces := pending s; openSectors := dom (openSecs s) |}.

Definition setMaps (m : InputMaps) (acc : list Accepted) (s : Sealing) : Sealing :=
  {| wld := wld s; assigned := assignedPieces m; pending := pendingPieces m;
     openSecs := filter (fun x => x.1 ∈ openSectors m) (openSecs s); nextDealSector := nextDealSector s;
     available := available s; replies := replies s ++ acc |}.

(** A handler on the maps. *)
Definition onMaps (h : InputMaps -> InputMaps * list Accepted * Sent) : M (option Event) := fun s =>
  let '(m, acc, sent) := h (inputMaps s) in
  (match sent with Send e => Ret (Some e) | Fail msg => Err msg | Crash => Panic end, setMaps m acc s).

Definition handleAddPieceM (sector : SectorInfo) : M (option Event) :=
  add ← ask sealerAddPiece;
  onMaps (fun m => handleAddPiece ZeroPieceCommitment minerSectorID add (fun p => mp_PieceCID (proposalFields p))
                     (SectorSize (SectorType sector)) m sector).

Definition handlePackingM (sector : SectorInfo) : M (option Event) :=
  add ← ask sealerAddPiece;
  onMaps (fun m => handlePacking ZeroPieceCommitment minerSectorID add (SectorSize (SectorType sector)) m sector).

Definition handleAddPieceFailed (sector : SectorInfo) : M (option Event) := send SectorRetryWaitDeals.

(** The last end of a deal in the sector; a nil proposal panics. *)
Fixpoint lastEnd (pieces : list SectorPiece) (end_ : Z) : option Z :=
  match pieces with
  | [] => Some end_
  | piece :: pieces =>
      match DealInfo piece with
      | None => lastEnd pieces end_
      | Some d =>
          prop ← DealProposal d;
          let e := mp_EndEpoch (proposalFields prop) in
          lastEnd pieces (if end_ <? e then e else end_)
      end
  end.

Definition setOpen (sid : SectorID) (o : option openSector) : M unit := fun s =>
  (Ret tt, {| wld := wld s; assigned := assigned s; pending := pending s; openSecs := partial_alter (fun _ => o) sid (openSecs s);
              nextDealSector := nextDealSector s; available := available s; replies := replies s |}).

Definition clearNext (n : Z) : M unit := fun s =>
  (Ret tt, {| wld := wld s; assigned := assigned s; pending := pending s; openSecs := openSecs s;
              nextDealSector := if bool_decide (nextDealSector s = Some n) then None else nextDealSector s;
              available := available s; replies := replies s |}).

(** The expirations of the allocations of the deals. *)
Fixpoint allocations (ids : list Z) (acc : gmap Z Z) : M (gmap Z Z) :=
  match ids with
  | [] => mret acc
  | id :: ids =>
      a ← ask (StateGetAllocationForPendingDeal id);
      allocations ids (match a with Some e => <[id := e]> acc | None => acc end)
  end.

Definition toOutcome {A} (r : answer A) : outcome A := match r with Ok a => Ret a | NotOk => Err "call failed" end.

(** [maybeStartSealing] with all the answers it may use asked for in advance. *)
Definition startSealing (sector : SectorInfo) (usedNow : Z) : M StartDecision :=
  now ← ask clock;
  timer ← ask (stopTimer (minerSectorID (SectorNumber sector)));
  cfg ← ask getConfig;
  ts ← ask ChainHead;
  allocs ← allocations (dealIDs sector) ∅;
  now2 ← ask clock;
  mret (maybeStartSealing (fun p => mp_StartEpoch (proposalFields p)) now now2 BlockDelaySecs timer (SectorSize (SectorType sector))
          (cfg ← toOutcome cfg; Ret {| WaitDealsDelay := cfg_WaitDealsDelay cfg; StartEpochSealingBuffer := cfg_StartEpochSealingBuffer cfg |})
          (ts ← toOutcome ts; Ret (hheight ts)) (fun id => allocs !! id) sector usedNow).

(** The goroutine that matches pieces with the open sectors is not part of the handler. *)
Definition handleWaitDeals (sector : SectorInfo) : M (option Event) :=
  lastDealEnd ← derefM (lastEnd (Pieces sector) 0);
  let usedNow := usedBytes (Pieces sector) in
  _ ← clearNext (SectorNumber sector);
  let sid := minerSectorID (SectorNumber sector) in
  assignedHere ← (fun s => (Ret (default [] (assigned s !! sid)), s)) : M (list Cid);
  if 0 <? len assignedHere then send SectorAddPiece
  else
    started ← startSealing sector usedNow;
    match started with
    | StartPacking => _ ← setOpen sid None; send SectorStartPacking
    | StartErr msg => _ ← setOpen sid None; fail msg
    | StartCrash => panic
    | Wait timer =>
        _ ← ask (fun w => (tt, match timer with Some t => startTimer sid t w | None => w end));
        open ← (fun s => (Ret (openSecs s !! sid), s)) : M (option openSector);
        let o := default {| used := usedNow; lastDealEnd := 0; number := SectorNumber sector; ccUpdate := CCUpdate sector |} open in
        _ ← setOpen sid (Some {| used := usedNow; lastDealEnd := lastDealEnd; number := number o; ccUpdate := ccUpdate o |});
        halt
    end.

(** ** storage/pipeline/receive.go *)

Definition FTUnsealed : Z := 1.
Definition FTSealed : Z := 2.
Definition FTCache : Z := 4.

(** The files that are elsewhere, by file type. *)
Definition filesToFetch (sector : SectorInfo) : list (Z * SectorLocation) :=
  omap (fun '(fileType, data) => match data with Some d => if Local d then None else Some (fileType, d) | None => None end)
    [(FTUnsealed, RemoteDataUnsealed sector); (FTSealed, RemoteDataSealed sector); (FTCache, RemoteDataCache sector)].

Definition handleReceiveSector (sector : SectorInfo) : M (option Event) :=
  let toFetch := filesToFetch sector in
  if 0 <? len toFetch then _ ⇐ ask (DownloadSectorData sector toFetch) orelse fail "downloading sector data"; send SectorReceived
  else send SectorReceived.

(** ** The ticket *)

Definition checkTicketExpired (ticket head : Z) : bool := MaxPreCommitRandomnessLookback <? i64 (head - ticket).

Definition checkProveCommitExpired (preCommitEpoch msd currEpoch : Z) : bool := i64 (preCommitEpoch + msd) <? currEpoch.

(** The ticket and its epoch, or an error, with whether the sector number is allocated.  An
    error of the first two calls is no error here, and the ticket is then empty. *)
Definition getTicket (sector : SectorInfo) : M (bool * answer (bytes * Z)) :=
  ts ⇐ ask ChainHead orelse mret (false, Ok ([], 0));
  allocated ⇐ ask (StateMinerSectorAllocated (SectorNumber sector) EmptyTSK) orelse mret (false, Ok ([], 0));
  let failed := mret (allocated, NotOk) in
  buf ⇐ mret marshalAddress orelse failed;
  pci ⇐ ask (StateSectorPreCommitInfo (SectorNumber sector) (hkey ts)) orelse failed;
  let withEpoch ticketEpoch :=
    rand ⇐ ask (StateGetRandomnessFromTickets ticketEpoch buf (hkey ts)) orelse failed;
    mret (allocated, Ok (rand, ticketEpoch)) in
  match pci with
  | Some pci =>
      nv ⇐ ask (StateNetworkVersion (hkey ts)) orelse failed;
      av ⇐ mret (VersionForNetwork nv) orelse failed;
      msd ⇐ mret (GetMaxProveCommitDuration av (SectorType sector)) orelse failed;
      if checkProveCommitExpired (PreCommitEpoch pci) msd (hheight ts) then failed else withEpoch (pc_SealRandEpoch (Info pci))
  | None => if (allocated : bool) then failed else withEpoch (i64 (hheight ts - SealRandomnessLookback))
  end.

Definition handleGetTicket (sector : SectorInfo) : M (option Event) :=
  r ← getTicket sector;
  match r with
  | (_, Ok (ticketValue, ticketEpoch)) => send (SectorTicket ticketValue ticketEpoch)
  | (allocated, NotOk) =>
      if (allocated : bool) then
        if CommitMessage sector then send (SectorCommitFailed "sector is committed but got into the GetTicket state") else send SectorRemove
      else send (SectorSealPreCommit1Failed "getting ticket failed")
  end.

(** ** Pre-commit *)

Definition ErrTempWorkerRestart : Z := 101.
Definition ErrTempAllocateSpace : Z := 102.

(** [None] when the rounds run out while the sealer asks for a retry. *)
Fixpoint retrySoftErr {A} (n : nat) (cb : world -> sealAnswer A * world) : M (option (answer A)) :=
  r ← ask cb;
  match r with
  | SealOk a => mret (Some (Ok a))
  | SealErr code =>
      if bool_decide (code = Some ErrTempWorkerRestart) || bool_decide (code = Some ErrTempAllocateSpace) then
        cancelled ← ask contextErr;
        if (cancelled : bool) then mret (Some NotOk)
        else match n with O => mret None | S n => retrySoftErr n cb end
      else mret (Some NotOk)
  end.

(** The sealing of the first phase, when the checks have passed. *)
Definition preCommit1 (n : nat) (sector : SectorInfo) : M (option Event) :=
  r ← retrySoftErr n (SealPreCommit1 sector);
  match r with
  | None => halt
  | Some NotOk => send (SectorSealPreCommit1Failed "seal pre commit(1) failed")
  | Some (Ok pc1o) => send (SectorPreCommit1 pc1o)
  end.

Definition handlePreCommit1 (n : nat) (sector : SectorInfo) : M (option Event) :=
  err ← checkPieces (Pieces sector) false;
  match err with
  | Some ErrApi => halt
  | Some ErrInvalidDeals => send (SectorInvalidDealIDs RetPreCommit1)
  | Some ErrExpiredDeals => send (SectorDealsExpired "expired dealIDs in sector")
  | Some _ => fail "checkPieces sanity check error"
  | None =>
      ts ⇐ ask ChainHead orelse halt;
      if checkTicketExpired (TicketEpoch sector) (hheight ts) then
        pci ⇐ ask (StateSectorPreCommitInfo (SectorNumber sector) (hkey ts)) orelse halt;
        match pci with
        | None => send SectorOldTicket
        | Some pci =>
            nv ⇐ ask (StateNetworkVersion (hkey ts)) orelse halt;
            av ⇐ mret (VersionForNetwork nv) orelse halt;
            msd ⇐ mret (GetMaxProveCommitDuration av (SectorType sector)) orelse halt;
            if checkProveCommitExpired (PreCommitEpoch pci) msd (hheight ts) then send SectorOldTicket else preCommit1 n sector
        end
      else preCommit1 n sector
  end.

Definition handlePreCommit2 (n : nat) (sector : SectorInfo) : M (option Event) :=
  r ← retrySoftErr n (SealPreCommit2 sector);
  match r with
  | None => halt
  | Some NotOk => send (SectorSealPreCommit2Failed "seal pre commit(2) failed")
  | Some (Ok (unsealed, sealed)) =>
      match unsealed with
      | None => send (SectorSealPreCommit1Failed "seal pre commit(2) returned undefined CommD")
      | Some unsealed => send (SectorPreCommit2 sealed unsealed)
      end
  end.

(** ** storage/pipeline/precommit_policy.go *)

(** The configured lifetime in seconds is taken without the rounding of float64. *)
Definition getCCSectorLifetime (provingBuffer nv : Z) : M (answer Z) :=
  c ⇐ ask getConfig orelse mret NotOk;
  maxCommitment ⇐ mret (GetMaxSectorExpirationExtension nv) orelse mret NotOk;
  let ccLifetimeEpochs := i64 (u64 (Z.quot (CommittedCapacitySectorLifetime c) 1000000000) / EpochDurationSeconds) in
  let ccLifetimeEpochs := if ccLifetimeEpochs =? 0 then maxCommitment else ccLifetimeEpochs in
  mret (Ok (if ccLifetimeEpochs <? MinSectorExpiration then MinSectorExpiration
            else if maxCommitment <? ccLifetimeEpochs then maxCommitment
            else i64 (ccLifetimeEpochs - provingBuffer))).

(** The latest end of a deal that has not ended yet. *)
Definition latestEnd (height : Z) (ps : list SectorPiece) : option Z :=
  foldl (fun end_ p =>
    match DealInfo p with
    | None => end_
    | Some d =>
        let e := EndEpoch (Schedule d) in
        if e <? height then end_
        else match end_ with Some e' => if e' <? e then Some e else end_ | None => Some e end
    end) None ps.

Definition Expiration (provingBuffer : Z) (ps : list SectorPiece) : M (answer Z) :=
  ts ⇐ ask ChainHead orelse mret NotOk;
  end_ ⇐ (match latestEnd (hheight ts) ps with
          | Some e => mret (Ok e)
          | None =>
              nv ⇐ ask (StateNetworkVersion EmptyTSK) orelse mret NotOk;
              expirationDuration ⇐ getCCSectorLifetime provingBuffer nv orelse mret NotOk;
              mret (Ok (i64 (hheight ts + expirationDuration)))
          end) orelse mret NotOk;
  let minExp := i64 (i64 (hheight ts + GetMinSectorExpiration) + WPoStProvingPeriod) in
  mret (Ok (if end_ <? minExp then minExp else end_)).

(** ** The pre-commit message *)

(** What [preCommitInfo] leaves to its caller. *)
Inductive PreCommitDecision :=
| PcSent (e : Event) (* sent in [preCommitInfo] *)
| PcStop
| PcErr
| PcParams (params : SectorPreCommitInfo) (deposit : Z) (tsk : TipSetKey).

(** The expiration within the bounds of the network, and the parameters. *)
Definition preCommitParams (provingBuffer : Z) (sector : SectorInfo) (ts : Head) : M PreCommitDecision :=
  let failed msg := mret (PcSent (SectorSealPreCommit1Failed msg)) in
  expiration ⇐ Expiration provingBuffer (Pieces sector) orelse failed "handlePreCommitting: failed to compute pre-commit expiry";
  nv ⇐ ask (StateNetworkVersion (hkey ts)) orelse failed "failed to get network version";
  av ⇐ mret (VersionForNetwork nv) orelse failed "failed to get actors version";
  msd ⇐ mret (GetMaxProveCommitDuration av (SectorType sector)) orelse failed "failed to get max prove commit duration";
  let minExpiration := i64 (i64 (i64 (TicketEpoch sector + MaxPreCommitRandomnessLookback) + msd) + MinSectorExpiration) in
  let expiration := if expiration <? minExpiration then minExpiration else expiration in
  maxExtension ⇐ mret (GetMaxSectorExpirationExtension nv) orelse failed "failed to get max extension";
  let maxExpiration := i64 (i64 (hheight ts + GetPreCommitChallengeDelay) + maxExtension) in
  let expiration := if maxExpiration <? expiration then maxExpiration else expiration in
  commR ← derefM (CommR sector);
  let params :=
    {| pc_SealProof := SectorType sector; pc_SectorNumber := SectorNumber sector; pc_SealedCID := commR; pc_SealRandEpoch := TicketEpoch sector;
       pc_DealIDs := dealIDs sector; pc_Expiration := expiration; pc_UnsealedCid := if hasDeals sector then CommD sector else None |} in
  collateral ⇐ ask (StateMinerPreCommitDepositForPower params (hkey ts)) orelse mret PcErr;
  mret (PcParams params collateral (hkey ts)).

Definition preCommitInfo (provingBuffer : Z) (sector : SectorInfo) : M PreCommitDecision :=
  ts ⇐ ask ChainHead orelse mret PcStop;
  err ← checkPrecommit sector (hkey ts) (hheight ts);
  match err with
  | Some ErrApi => mret PcStop
  | Some ErrBadCommD => mret (PcSent (SectorSealPreCommit1Failed "bad CommD error"))
  | Some ErrExpiredTicket => mret (PcSent (SectorSealPreCommit1Failed "ticket expired"))
  | Some ErrBadTicket => mret (PcSent (SectorSealPreCommit1Failed "bad ticket"))
  | Some ErrInvalidDeals => mret (PcSent (SectorInvalidDealIDs RetPreCommitting))
  | Some ErrExpiredDeals => mret (PcSent (SectorDealsExpired "sector deals expired"))
  | Some ErrPrecommitOnChain => mret (PcSent (SectorPreCommitLanded (hkey ts)))
  | Some ErrSectorNumberAllocated => mret PcStop
  | Some _ => mret PcErr
  | None => preCommitParams provingBuffer sector ts
  end.

Definition handlePreCommitting (sector : SectorInfo) : M (option Event) := send SectorPreCommitBatch.

Definition handleSubmitPreCommitBatch (provingBuffer : Z) (sector : SectorInfo) : M (option Event) :=
  match CommD sector, CommR sector with
  | Some _, Some _ =>
      d ← preCommitInfo provingBuffer sector;
      match d with
      | PcErr => send (SectorChainPreCommitFailed "preCommitInfo")
      | PcSent e => send e
      | PcStop => halt
      | PcParams params deposit _ =>
          res ⇐ ask (AddPreCommit sector deposit params) orelse send (SectorChainPreCommitFailed "queuing precommit batch failed");
          if negb (bool_decide (pb_Error res = EmptyString)) then send (SectorChainPreCommitFailed "precommit batch error")
          else
            match pb_Msg res with
            | None => send (SectorChainPreCommitFailed "batch message was nil")
            | Some msg => send (SectorPreCommitBatchSent msg)
            end
      end
  | _, _ => send (SectorSealPreCommit1Failed "sector had nil commR or commD")
  end.

Definition handlePreCommitWait (sector : SectorInfo) : M (option Event) :=
  match PreCommitMessage sector with
  | None => send (SectorChainPreCommitFailed "precommit message was nil")
  | Some msg =>
      mw ⇐ ask (StateWaitMsg msg) orelse send (SectorChainPreCommitFailed "waiting for the message");
      if ExitCode mw =? 0 then send (SectorPreCommitLanded (ml_TipSet mw))
      else if (ExitCode mw =? SysErrInsufficientFunds) || (ExitCode mw =? SysErrOutOfGas) then send SectorRetryPreCommit
      else send (SectorChainPreCommitFailed "sector precommit failed")
  end.

(** The event is sent by the callback at the height of the seed. *)
Definition handleWaitSeed (sector : SectorInfo) : M (option Event) :=
  ts ⇐ ask ChainHead orelse halt;
  pci ⇐ ask (StateSectorPreCommitInfo (SectorNumber sector) (hkey ts)) orelse fail "getting precommit info";
  match pci with
  | None => send (SectorChainPreCommitFailed "precommit info not found on chain")
  | Some pci =>
      let randHeight := i64 (PreCommitEpoch pci + GetPreCommitChallengeDelay) in
      _ ⇐ ask (ChainAt InteractivePoRepConfidence randHeight) orelse halt;
      ts ⇐ ask ChainHead orelse halt;
      buf ⇐ mret marshalAddress orelse halt;
      rand ⇐ ask (StateGetRandomnessFromBeacon randHeight buf (hkey ts))
        orelse send (SectorChainPreCommitFailed "failed to get randomness for computing seal proof");
      send (SectorSeedReady rand randHeight)
  end.

(** ** Commit *)

(** A phase of the proof computed by a remote: the body of the response, or the event. *)
Definition remotePhase (endpoint : string) (reqBody : bytes) (failed : string -> Event) : M (Event + bytes) :=
  match httpNewRequest endpoint with
  | NotOk => mret (inl (failed "creating new remote request"))
  | Ok _ =>
      resp ⇐ ask (httpPost endpoint reqBody) orelse mret (inl (failed "requesting remote"));
      if negb (resp.1 =? 200) then mret (inl (failed "remote received non-200 http response"))
      else match resp.2 with NotOk => mret (inl (failed "reading response")) | Ok body => mret (inr body) end
  end.

Definition commit1 (sector : SectorInfo) (commD commR : Cid) : M (Event + bytes) :=
  if bool_decide (RemoteCommit1Endpoint sector = EmptyString) then
    out ⇐ ask (SealCommit1 sector commD commR) orelse mret (inl (SectorComputeProofFailed "computing seal proof failed(1)"));
    mret (inr out)
  else
    reqBody ⇐ mret (jsonCommit1 sector commD commR) orelse fail "marshaling remote commit1 request";
    remotePhase (RemoteCommit1Endpoint sector) reqBody SectorRemoteCommit1Failed.

Definition commit2 (sector : SectorInfo) (c2in : bytes) : M (Event + bytes) :=
  if bool_decide (RemoteCommit2Endpoint sector = EmptyString) then
    out ⇐ ask (SealCommit2 sector c2in) orelse mret (inl (SectorComputeProofFailed "computing seal proof failed(2)"));
    mret (inr out)
  else
    reqBody ⇐ mret (jsonCommit2 sector c2in) orelse fail "marshaling remote commit2 request";
    remotePhase (RemoteCommit2Endpoint sector) reqBody SectorRemoteCommit2Failed.

(** Whether a commit message is on chain; an error of the search reads as no. *)
Definition commitFound (sector : SectorInfo) : M bool :=
  match CommitMessage sector with
  | None => mret false
  | Some msg =>
      ml ← ask (StateSearchMsg EmptyTSK msg);
      mret (match ml with Ok (Some _) => true | _ => false end)
  end.

Definition handleCommitting (sector : SectorInfo) : M (option Event) :=
  found ← commitFound sector;
  if (found : bool) then send SectorRetryCommitWait
  else
    cfg ⇐ ask getConfig orelse fail "getting config";
    match CommD sector, CommR sector with
    | Some commD, Some commR =>
        c1 ← commit1 sector commD commR;
        match c1 with
        | inl e => send e
        | inr c2in =>
            c2 ← commit2 sector c2in;
            match c2 with
            | inl e => send e
            | inr porepProof =>
                ts ⇐ ask ChainHead orelse halt;
                err ← checkCommit sector porepProof (hkey ts);
                match err with
                | Some _ => send (SectorCommitFailed "commit check error")
                | None => if cfg_FinalizeEarly cfg then send (SectorProofReady porepProof) else send (SectorCommitted porepProof)
                end
            end
        end
    | _, _ => send (SectorCommitFailed "sector had nil commR or commD")
    end.

(** The commit message of one sector. *)
Definition submitCommit (sector : SectorInfo) (cfg : SealingConfig) : M (option Event) :=
  ts ⇐ ask ChainHead orelse halt;
  err ← checkCommit sector (PoRepProof sector) (hkey ts);
  match err with
  | Some _ => send (SectorCommitFailed "commit check error")
  | None =>
      enc ⇐ mret (marshalProveCommit (SectorNumber sector) (PoRepProof sector))
        orelse send (SectorCommitFailed "could not serialize commit sector parameters");
      mi ⇐ ask (StateMinerInfo (hkey ts)) orelse halt;
      pci ⇐ ask (StateSectorPreCommitInfo (SectorNumber sector) (hkey ts)) orelse fail "getting precommit info";
      match pci with
      | None => send (SectorCommitFailed "precommit info not found on chain")
      | Some pci =>
          collateral ⇐ ask (StateMinerInitialPledgeCollateral (Info pci) (hkey ts)) orelse fail "getting initial pledge collateral";
          let collateral := big_Sub collateral (oc_PreCommitDeposit pci) in
          let collateral := if big_LessThan collateral (big_NewInt 0) then big_NewInt 0 else collateral in
          collateral ⇐ collateralSendAmount cfg collateral orelse fail "getting available miner balance";
          let goodFunds := big_Add collateral MaxCommitGasFee in
          from ⇐ ask (AddressFor mi goodFunds collateral) orelse send (SectorCommitFailed "no good address to send commit message from");
          mcid ⇐ ask (MpoolPushMessage from MethodProveCommitSector collateral MaxCommitGasFee enc)
            orelse send (SectorCommitFailed "pushing message to mpool");
          send (SectorCommitSubmitted mcid)
      end
  end.

Definition handleSubmitCommit (sector : SectorInfo) : M (option Event) :=
  cfg ⇐ ask getConfig orelse fail "getting config";
  if AggregateCommits cfg then
    nv ⇐ ask (StateNetworkVersion EmptyTSK) orelse fail "getting network version";
    if 13 <=? nv then send SectorSubmitCommitAggregate else submitCommit sector cfg
  else submitCommit sector cfg.

(** What follows a batch that failed. *)
Definition recheckCommit (sector : SectorInfo) : M (option Event) :=
  ts ⇐ ask ChainHead orelse halt;
  err ← checkCommit sector (PoRepProof sector) (hkey ts);
  match err with
  | Some _ => send (SectorCommitFailed "commit check error")
  | None => send SectorRetrySubmitCommit
  end.

Definition handleSubmitCommitAggregate (sector : SectorInfo) : M (option Event) :=
  match CommD sector, CommR sector with
  | Some commD, Some commR =>
      res ⇐ ask (AddCommit sector commD commR) orelse recheckCommit sector;
      if negb (bool_decide (cb_Error res = EmptyString)) then recheckCommit sector
      else
        match FailedSectors res !! SectorNumber sector with
        | Some _ => send (SectorCommitFailed "sector failed in aggregate processing")
        | None =>
            match cb_Msg res with
            | None => send (SectorCommitFailed "aggregate message was nil")
            | Some msg => send (SectorCommitAggregateSent msg)
            end
        end
  | _, _ => send (SectorCommitFailed "sector had nil commR or commD")
  end.

Definition handleCommitWait (sector : SectorInfo) : M (option Event) :=
  match CommitMessage sector with
  | None => send (SectorCommitFailed "entered commit wait with no commit cid")
  | Some msg =>
      mw ⇐ ask (StateWaitMsg msg) orelse send (SectorCommitFailed "failed to wait for porep inclusion");
      if ExitCode mw =? 0 then
        si ⇐ ask (StateSectorGetInfo (SectorNumber sector) (ml_TipSet mw))
          orelse send (SectorCommitFailed "proof validation failed, calling StateSectorGetInfo");
        match si with
        | None => send (SectorCommitFailed "proof validation failed, sector not found in sector set after cron")
        | Some _ => send SectorProving
        end
      else if (ExitCode mw =? SysErrInsufficientFunds) || (ExitCode mw =? SysErrOutOfGas) then send SectorRetrySubmitCommit
      else send (SectorCommitFailed "submitting sector proof failed")
  end.

Definition handleFinalizeSector (sector : SectorInfo) : M (option Event) :=
  cfg ⇐ ask getConfig orelse fail "getting sealing config";
  _ ⇐ ask (ReleaseUnsealed sector (keepUnsealedRanges (Pieces sector) false (AlwaysKeepUnsealedCopy cfg)))
    orelse send (SectorFinalizeFailed "release unsealed");
  _ ⇐ ask (sealerFinalizeSector sector) orelse send (SectorFinalizeFailed "finalize sector");
  if MakeCCSectorsAvailable cfg && negb (hasDeals sector) then send SectorFinalizedAvailable else send SectorFinalized.
End commit.
