(* ===== verification/SealingRuns.v ===== *)
(** * The handlers and the state machine together

    Each handler of the sealing pipeline is run in the state it is chosen for, with any answers
    of the chain, the sealer and the batchers, and the event it sends is given to the planner of
    that state. *)

From S2P Require Import Prelude SealingTypes Pieces SealingEvents SealingStats SealingInput SealingPlan SealingProps SealingSafety SealingApi SealingFailed SealingUpdate SealingCommit.

(** ** What a computation can give *)

Section yields.
Context `{SealingWorld}.

Definition yields {A} (Q : A -> Prop) (m : M A) : Prop := forall s a s', m s = (Ret a, s') -> Q a.

(** The events a handler can send. *)
Definition posts (P : Event -> Prop) : M (option Event) -> Prop := yields (fun o => match o with Some e => P e | None => True end).

Lemma yields_ret {A} (Q : A -> Prop) a : Q a -> yields Q (mret a).
Proof. intros HQ s a' s' [= <- _]. done. Qed.

Lemma yields_panic {A} (Q : A -> Prop) : yields Q panic.
Proof. intros s a s' [=]. Qed.

Lemma yields_fail {A} (Q : A -> Prop) msg : yields Q (fail msg).
Proof. intros s a s' [=]. Qed.

Lemma yields_bind {A B} (R : A -> Prop) (Q : B -> Prop) (m : M A) (f : A -> M B) :
  yields R m -> (forall a, R a -> yields Q (f a)) -> yields Q (m ≫= f).
Proof.
  intros Hm Hf s b s'. unfold mbind, M_bind. destruct (m s) as [[a|e|] s1] eqn:E; try done. by apply Hf, (Hm s a s1).
Qed.

Lemma yields_any {A B} (Q : B -> Prop) (m : M A) (f : A -> M B) : (forall a, yields Q (f a)) -> yields Q (m ≫= f).
Proof. intros Hf. apply (yields_bind (fun _ => True)); [done|auto]. Qed.

Lemma yields_mono {A} (Q R : A -> Prop) m : yields Q m -> (forall a, Q a -> R a) -> yields R m.
Proof. intros Hm HQ s a s' E. by eapply HQ, Hm. Qed.

Lemma posts_send P e : P e -> posts P (send e).
Proof. apply (yields_ret (fun o => match o with Some e => P e | None => True end) (Some e)). Qed.

Lemma posts_halt P : posts P halt.
Proof. by apply yields_ret. Qed.
End yields.

(** Every branch of a handler: calls give anything, and what is left are the events. *)
Ltac handler_step :=
  match goal with
  | |- posts _ _ => unfold posts
  | |- yields _ (send _) => apply posts_send
  | |- yields _ halt => apply posts_halt
  | |- yields _ (mret _) => apply yields_ret
  | |- yields _ (fail _) => apply yields_fail
  | |- yields _ panic => apply yields_panic
  | |- yields _ (if ?b then _ else _) => destruct b
  | |- yields _ (match ?x with _ => _ end) => destruct x
  | |- yields _ (mbind _ _) => apply yields_any; intros ?
  end.
Ltac handler := cbv zeta; repeat (handler_step; cbv zeta); try done; try solve [hnf; auto].

Section handlers.
Context `{PieceSizes} `{SealingWorld} `{BigOps}.
Context (P : Event -> Prop).

(** A sub-computation that may decide the event. *)
Definition may (Q : Event -> Prop) (r : option (option Event)) : Prop := match r with Some (Some e) => Q e | _ => True end.

Lemma sendAfterCooldown_posts sector e : P e -> posts P (sendAfterCooldown sector e).
Proof. intros He. unfold sendAfterCooldown. handler. Qed.

Lemma cooldown_may sector e : P e -> yields (may P) (r ← sendAfterCooldown sector e; mret (Some r)).
Proof.
  intros He. eapply yields_bind; [by apply sendAfterCooldown_posts|]. intros [e'|] He'; by apply yields_ret.
Qed.

(** A computation that decides, or goes on. *)
Lemma posts_may (m : M (option (option Event))) (k : M (option Event)) :
  yields (may P) m -> posts P k -> posts P (found ← m; match found with Some r => mret r | None => k end).
Proof. intros Hm Hk. eapply yields_bind; [done|]. intros [[e|]|] He; [by apply yields_ret..|done]. Qed.

(** *** Failures *)

Lemma preCommitMessageResult_may ts sector :
  P SectorRetryPreCommitWait -> P SectorRetryPreCommit -> yields (may P) (preCommitMessageResult ts sector).
Proof.
  intros HP1 HP2. unfold preCommitMessageResult. destruct (PreCommitMessage sector); [|by apply yields_ret].
  apply yields_any. intros [mw|]; [handler|by apply cooldown_may].
Qed.

Lemma commitMessageResult_may ts sector :
  P SectorRetryCommitWait -> P SectorRetrySubmitCommit -> yields (may P) (commitMessageResult ts sector).
Proof.
  intros HP1 HP2. unfold commitMessageResult. destruct (CommitMessage sector); [|by apply yields_ret].
  apply yields_any. intros [[mw|]|]; [|by apply yields_ret|by apply cooldown_may]. destruct (_ =? _); [|handler].
  apply yields_any. intros [si|]; [handler|by apply cooldown_may].
Qed.

Lemma handlePreCommitFailed_posts sector :
  P SectorRetryPreCommitWait -> P SectorRetryPreCommit -> P SectorRetryWaitSeed -> (forall msg, P (SectorSealPreCommit1Failed msg)) ->
  P (SectorInvalidDealIDs RetPreCommitFailed) -> (forall msg, P (SectorDealsExpired msg)) -> (forall ts, P (SectorPreCommitLanded ts)) ->
  posts P (handlePreCommitFailed sector).
Proof.
  intros. apply yields_any. intros [ts|]; [|apply posts_halt]. apply posts_may; [by apply preCommitMessageResult_may|].
  unfold preCommitFailedRetry, sendAfterCooldown. handler.
Qed.

Lemma handleCommitFailed_posts sector :
  P SectorRetryCommitWait -> P SectorRetrySubmitCommit -> P SectorRetryWaitSeed -> (forall msg, P (SectorSealPreCommit1Failed msg)) ->
  P SectorRetryInvalidProof -> P SectorRetryPreCommitWait -> P SectorRetryPreCommit -> P (SectorInvalidDealIDs RetCommitFailed) ->
  (forall msg, P (SectorDealsExpired msg)) -> P SectorRetryComputeProof ->
  posts P (handleCommitFailed sector).
Proof.
  intros. apply yields_any. intros [ts|]; [|apply posts_halt]. apply posts_may; [by apply commitMessageResult_may|].
  unfold sendAfterCooldown. handler.
Qed.

Lemma handleSubmitReplicaUpdateFailed_posts sector :
  P SectorRetrySubmitReplicaUpdateWait -> P SectorRetrySubmitReplicaUpdate -> P SectorRetryReplicaUpdate -> P SectorRetryProveReplicaUpdate ->
  P (SectorInvalidDealIDs EmptyString) -> (forall msg, P (SectorDealsExpired msg)) -> (forall msg, P (SectorAbortUpgrade msg)) ->
  posts P (handleSubmitReplicaUpdateFailed sector).
Proof.
  intros. apply yields_any. intros [[]|]; [|apply yields_fail].
  assert (posts P (replicaUpdateMessageResult sector)) as Hm by (unfold replicaUpdateMessageResult; handler).
  eapply yields_bind; [exact Hm|]. intros [e|] He; [by apply posts_send|]. handler.
Qed.

(** The recovered deals are those of pieces that have one. *)
Definition deals_at (pieces : list SectorPiece) (u : gmap Z Z) : Prop :=
  forall i id, u !! i = Some id -> 0 <= i /\ exists p d, pieces !! Z.to_nat i = Some p /\ DealInfo p = Some d.

Lemma indexM_yields {A} (l : list A) i : yields (fun a => 0 <= i /\ l !! Z.to_nat i = Some a) (indexM l i).
Proof. intros s a s' [= Hi _]. unfold index in Hi. destruct (Z.ltb_spec i 0); [done|]. by destruct (l !! Z.to_nat i); simplify_eq. Qed.

Lemma derefM_yields {A} (o : option A) : yields (fun a => o = Some a) (derefM o).
Proof. destruct o; [by apply yields_ret|apply yields_panic]. Qed.

Lemma fixPieces_yields ts pieces toFix failed u :
  deals_at pieces u -> yields (fun r => match r with Some (_, u) => deals_at pieces u | None => True end) (fixPieces ts pieces toFix failed u).
Proof.
  revert failed u. induction toFix as [|i toFix IH]; intros failed u Hu; cbn [fixPieces]; [by apply yields_ret|].
  eapply yields_bind; [apply indexM_yields|]. intros p [Hi Hp]. eapply yields_bind; [apply derefM_yields|]. intros d Hd.
  destruct (PublishCid d) as [c|]; [|by apply yields_ret]. apply yields_any. intros [res|]; [|by apply IH].
  destruct (cd_MarketDeal res) as [deal|]; [|by apply IH]. destruct (negb _); [by apply IH|]. apply IH.
  intros j id [[<- _]|[_ Hj]]%lookup_insert_Some; [split; [done|by exists p, d]|by eapply Hu].
Qed.

Lemma handleRecover_posts sector failWith :
  P failWith -> (forall u, deals_at (Pieces sector) u -> P (SectorUpdateDealIDs u)) -> posts P (handleRecoverDealIDsOrFailWith sector failWith).
Proof.
  intros Hf Hu. apply yields_any. intros [r|]; [|apply yields_fail]. apply yields_any. intros [ts|]; [|apply yields_fail].
  eapply yields_bind; [apply fixPieces_yields; intros ? ? E; by rewrite lookup_empty in E|].
  intros [[[] u]|] Hr; apply posts_send; auto.
Qed.

(** *** Updates and the end of a sector *)

Lemma handleWaitMutable_posts n sector : P SectorDeadlineMutable -> posts P (handleWaitMutable n sector).
Proof. intros HP. induction n as [|n IH]; cbn [handleWaitMutable]; handler. Qed.

Lemma activateLoop_posts n msg : P SectorUpdateActive -> posts P (activateLoop n msg).
Proof. intros HP. induction n as [|n IH]; cbn [activateLoop]; handler. Qed.

Lemma handleTerminateFinality_posts n sector :
  P SectorRemove -> (forall msg, P (SectorTerminateFailed msg)) -> posts P (handleTerminateFinality n sector).
Proof. intros HP Hf. induction n as [|n IH]; cbn [handleTerminateFinality]; handler. Qed.

(** *** Sealing *)

Definition sentOk (x : Sent) : Prop := match x with Send e => P e | _ => True end.

Lemma onMaps_posts h : (forall m, sentOk (h m).2) -> posts P (onMaps h).
Proof.
  intros Hh s o s'. unfold onMaps. specialize (Hh (inputMaps s)). destruct (h (inputMaps s)) as [[m acc] []]; intros [= <- _]; exact Hh.
Qed.

Lemma addPads_sent zc add piece sn pads st :
  (forall err, P (SectorAddPieceFailed err)) -> match addPads zc add piece sn pads st with inl _ => True | inr r => sentOk r.2 end.
Proof.
  intros HP. revert st. induction pads as [|p pads IH]; intros st; cbn [addPads]; [done|].
  destruct (add _ _ _); cbn; try done. case_bool_decide; [apply IH|apply HP].
Qed.

Lemma addDeal_sent zc add prop m sector ssize maxDeals i piece st :
  (forall err, P (SectorAddPieceFailed err)) ->
  match addDeal zc add prop m sector ssize maxDeals i piece st with inl _ => True | inr r => sentOk r.2 end.
Proof.
  intros HP. unfold addDeal. destruct (pendingPieces m !! piece) as [d|]; [|done]. destruct (_ <? _); [done|].
  destruct (GetRequiredPadding _ _) as [[pads padLength]|]; [|done]. destruct (_ <? _); [done|].
  pose proof (addPads_sent zc add piece (SectorNumber sector) pads (add_offset (Unpadded padLength) st) HP) as Hp.
  destruct (addPads _ _ _ _ _ _) as [st'|r]; [|done]. destruct (add _ _ _); cbn; try done.
  destruct (DealProposal _); [|done]. case_bool_decide; [done|apply HP].
Qed.

Lemma handleAddPiece_posts sector :
  (forall ps, P (SectorPieceAdded ps)) -> (forall err, P (SectorAddPieceFailed err)) -> posts P (handleAddPieceM sector).
Proof.
  intros Hadd Hfail. apply yields_any. intros add. apply onMaps_posts. intros m. unfold SealingInput.handleAddPiece.
  destruct (SectorSize _) as [ssize| |]; [|done|done]. destruct (assignedPieces m !! _) as [pend|]; [|apply Hadd].
  set (m' := {| assignedPieces := _ |}). generalize (getDealPerSectorLimit ssize) as maxDeals, (addStart sector) as st, 0 as i.
  intros maxDeals. induction pend as [|piece pend IH]; intros st i; cbn [addDeals]; [apply Hadd|].
  pose proof (addDeal_sent ZeroPieceCommitment add (fun p => mp_PieceCID (proposalFields p)) m' sector ssize maxDeals i piece st Hfail) as Hd.
  destruct (addDeal _ _ _ _ _ _ _ _ _ _) as [st'|[st' x]]; [apply IH|done].
Qed.

Lemma handlePacking_posts sector :
  (forall ps, P (SectorPacked ps)) -> (State sector = SnapDealsPacking -> forall err, P (SectorAbortUpgrade err)) -> posts P (handlePackingM sector).
Proof.
  intros Hpack Habort. apply yields_any. intros add. apply onMaps_posts. intros m. unfold SealingInput.handlePacking.
  destruct (cleanupAssignedDeals _ _ _) as [m' acc]. cbn [snd]. case_bool_decide; cbn [andb]; [destruct (negb _); [by apply Habort|]|].
  all: destruct (SectorSize _) as [ssize| |]; [|done|done]; destruct (_ <? _); [done|].
  all: unfold padSector; generalize (@nil PieceInfo) as out, (existingPieceSizes sector) as ex; intros out ex; revert out ex.
  all: generalize (fillersFromRem (u64 (Unpadded ssize - usedBytes (Pieces sector)))) as sizes.
  all: induction sizes as [|sz sizes IH]; intros out ex; cbn [padSector_loop]; [apply Hpack|].
  all: destruct (add _ _ _); [case_bool_decide; [apply IH|done]|done|done].
Qed.

Definition decides {A} (r : Event + A) : Prop := match r with inl e => P e | inr _ => True end.

Lemma commit1_decides sector commD commR :
  (forall err, P (SectorComputeProofFailed err)) -> (forall err, P (SectorRemoteCommit1Failed err)) -> yields decides (commit1 sector commD commR).
Proof. intros. unfold commit1, remotePhase. handler. Qed.

Lemma commit2_decides sector c2in :
  (forall err, P (SectorComputeProofFailed err)) -> (forall err, P (SectorRemoteCommit2Failed err)) -> yields decides (commit2 sector c2in).
Proof. intros. unfold commit2, remotePhase. handler. Qed.

Lemma handleCommitting_posts sector :
  P SectorRetryCommitWait -> (forall err, P (SectorComputeProofFailed err)) -> (forall err, P (SectorRemoteCommit1Failed err)) ->
  (forall err, P (SectorRemoteCommit2Failed err)) -> (forall err, P (SectorCommitFailed err)) -> (forall proof, P (SectorProofReady proof)) ->
  (forall proof, P (SectorCommitted proof)) -> posts P (SealingCommit.handleCommitting sector).
Proof.
  intros. unfold SealingCommit.handleCommitting. apply yields_any. intros []; [by apply posts_send|]. apply yields_any. intros [cfg|]; [|apply yields_fail].
  destruct (CommD sector) as [commD|], (CommR sector) as [commR|]; try by apply posts_send.
  eapply yields_bind; [by apply commit1_decides|]. intros [e|c2in] He; [by apply posts_send|].
  eapply yields_bind; [by apply commit2_decides|]. intros [e|proof] He'; [by apply posts_send|]. handler.
Qed.

Definition pcOk (d : PreCommitDecision) : Prop := match d with PcSent e => P e | _ => True end.

Lemma handleSubmitPreCommitBatch_posts pb sector :
  (forall err, P (SectorSealPreCommit1Failed err)) -> P (SectorInvalidDealIDs RetPreCommitting) -> (forall err, P (SectorDealsExpired err)) ->
  (forall ts, P (SectorPreCommitLanded ts)) -> (forall err, P (SectorChainPreCommitFailed err)) -> (forall msg, P (SectorPreCommitBatchSent msg)) ->
  posts P (SealingCommit.handleSubmitPreCommitBatch pb sector).
Proof.
  intros. unfold SealingCommit.handleSubmitPreCommitBatch. destruct (CommD sector), (CommR sector); try by apply posts_send.
  eapply (yields_bind pcOk); [unfold preCommitInfo, preCommitParams; handler|]. intros [e| | |params deposit tsk] He; handler.
Qed.
End handlers.

(** ** The handler of a state *)

(** [rounds] bounds the loops that wait for the chain or retry; [provingBuffer] is that of the
    pre-commit policy. *)
Definition runHandler `{PieceSizes} `{SealingWorld} `{BigOps} (rounds : nat) (provingBuffer : Z) (h : Handler) : SectorInfo -> M (option Event) :=
  match h with
  | SealingPlan.handleReceiveSector => handleReceiveSector
  | SealingPlan.handleWaitDeals => handleWaitDeals
  | SealingPlan.handleAddPiece => handleAddPieceM
  | SealingPlan.handlePacking => handlePackingM
  | SealingPlan.handleGetTicket => handleGetTicket
  | SealingPlan.handlePreCommit1 => handlePreCommit1 rounds
  | SealingPlan.handlePreCommit2 => handlePreCommit2 rounds
  | SealingPlan.handlePreCommitting => handlePreCommitting
  | SealingPlan.handleSubmitPreCommitBatch => handleSubmitPreCommitBatch provingBuffer
  | SealingPlan.handlePreCommitWait => handlePreCommitWait
  | SealingPlan.handleWaitSeed => handleWaitSeed
  | SealingPlan.handleCommitting => handleCommitting
  | SealingPlan.handleSubmitCommit => handleSubmitCommit
  | SealingPlan.handleSubmitCommitAggregate => handleSubmitCommitAggregate
  | SealingPlan.handleCommitWait => handleCommitWait
  | SealingPlan.handleFinalizeSector => handleFinalizeSector
  | SealingPlan.handleReplicaUpdate => handleReplicaUpdate
  | SealingPlan.handleProveReplicaUpdate => handleProveReplicaUpdate
  | SealingPlan.handleSubmitReplicaUpdate => handleSubmitReplicaUpdate
  | SealingPlan.handleWaitMutable => handleWaitMutable rounds
  | SealingPlan.handleReplicaUpdateWait => handleReplicaUpdateWait
  | SealingPlan.handleFinalizeReplicaUpdate => handleFinalizeReplicaUpdate
  | SealingPlan.handleUpdateActivating => handleUpdateActivating rounds
  | SealingPlan.handleReleaseSectorKey => handleReleaseSectorKey
  | SealingPlan.handleAddPieceFailed => handleAddPieceFailed
  | SealingPlan.handleSealPrecommit1Failed => handleSealPrecommit1Failed
  | SealingPlan.handleSealPrecommit2Failed => handleSealPrecommit2Failed
  | SealingPlan.handlePreCommitFailed => handlePreCommitFailed
  | SealingPlan.handleComputeProofFailed => handleComputeProofFailed
  | SealingPlan.handleRemoteCommitFailed => handleRemoteCommitFailed
  | SealingPlan.handleCommitFailed => handleCommitFailed
  | SealingPlan.handleFinalizeFailed => handleFinalizeFailed
  | SealingPlan.handleDealsExpired => handleDealsExpired
  | SealingPlan.HandleRecoverDealIDs => HandleRecoverDealIDs
  | SealingPlan.handleDealsExpiredSnapDeals => handleDealsExpiredSnapDeals
  | SealingPlan.handleSnapDealsRecoverDealIDs => handleSnapDealsRecoverDealIDs
  | SealingPlan.handleSubmitReplicaUpdateFailed => handleSubmitReplicaUpdateFailed
  | SealingPlan.handleAbortUpgrade => handleAbortUpgrade
  | SealingPlan.handleProvingSector => handleProvingSector
  | SealingPlan.handleAvailableSector => handleAvailableSector
  | SealingPlan.handleTerminating => handleTerminating
  | SealingPlan.handleTerminateWait => handleTerminateWait
  | SealingPlan.handleTerminateFinality => handleTerminateFinality rounds
  | SealingPlan.handleTerminateFailed => handleTerminateFailed
  | SealingPlan.handleRemoving => handleRemoving
  | SealingPlan.handleRemoveFailed => handleRemoveFailed
  | SealingPlan.handleFaulty => handleFaulty
  | SealingPlan.handleFaultReported => handleFaultReported
  | SealingPlan.handleReleaseSectorKeyFailed => handleReleaseSectorKeyFailed
  end.

(** The handler that [plan] chooses for a state. *)
Definition handlerOf (st : SectorState) : option Handler :=
  if decide (st = ReleaseSectorKeyFailed) then Some SealingPlan.handleReleaseSectorKeyFailed else assoc st SealingPlan.handlers.

Create HintDb sealing_handlers.
#[export] Hint Unfold handleReceiveSector handleWaitDeals handleGetTicket handlePreCommit1 preCommit1 handlePreCommit2 handlePreCommitting
  handlePreCommitWait handleWaitSeed handleSubmitCommit submitCommit handleSubmitCommitAggregate recheckCommit handleCommitWait
  handleFinalizeSector handleReplicaUpdate handleErrors handleProveReplicaUpdate handleSubmitReplicaUpdate sendReplicaUpdate
  handleReplicaUpdateWait handleFinalizeReplicaUpdate handleUpdateActivating handleReleaseSectorKey handleAddPieceFailed
  handleSealPrecommit1Failed handleSealPrecommit2Failed handleComputeProofFailed handleRemoteCommitFailed handleFinalizeFailed
  handleDealsExpired handleDealsExpiredSnapDeals handleAbortUpgrade handleProvingSector handleAvailableSector handleTerminating
  handleTerminateWait handleTerminateFailed handleRemoving handleRemoveFailed handleFaulty handleFaultReported
  handleReleaseSectorKeyFailed sendAfterCooldown : sealing_handlers.

(** ** What a planner takes *)

Definition globalTypes : list EventType := [TSectorRestart; TSectorFatalError; TSectorForceState; TSectorTerminate; TSectorRemove].

Definition takenTypes (p : Planner) : list EventType :=
  globalTypes ++
  match p with
  | PlanOne ts | PlanOneOrIgnore ts => transition_mut <$> ts
  | PlanCommitting =>
      [TSectorCommitted; TSectorProofReady; TSectorSeedReady; TSectorComputeProofFailed; TSectorRemoteCommit1Failed; TSectorRemoteCommit2Failed;
       TSectorSealPreCommit1Failed; TSectorCommitFailed; TSectorRetryCommitWait]
  | Final | FinalRemoved => []
  end.

(** The two events that handlers send and the planner of their state refuses. *)
Definition refused : list (SectorState * EventType) := [(GetTicket, TSectorSealPreCommit1Failed); (FaultReported, TSectorFaultedFinal)].

(** An event that a planner takes and the handler of its state does not send: [planCommitting]
    would not count the failure. *)
Definition unsent : list (SectorState * EventType) := [(Committing, TSectorSealPreCommit1Failed)].

Definition fits (st : SectorState) (e : Event) : bool :=
  negb (bool_decide ((st, typeOf e) ∈ unsent)) &&
  match assoc st fsmPlanners with
  | Some p => bool_decide (typeOf e ∈ takenTypes p \/ (st, typeOf e) ∈ refused)
  | None => false
  end &&
  match e with
  | SectorForceState _ | SectorReceive _ => false
  | SectorInvalidDealIDs ret => bool_decide (ret = invalidDealIDsReturn st)
  | _ => true
  end.

(** An event that fits the state and can be applied to the sector. *)
Definition good (st : SectorState) (sector : SectorInfo) (e : Event) : Prop :=
  fits st e = true /\ match e with SectorUpdateDealIDs u => deals_at (Pieces sector) u | _ => True end.

Section accepted.
Context `{PieceSizes} `{SealingWorld} `{BigOps}.

Ltac good_events Hst := intros; first [by split | exfalso; congruence | match goal with E : State _ = _ |- _ => rewrite Hst in E; discriminate E end].

Lemma handler_good rounds pb st h sector :
  handlerOf st = Some h -> State sector = st -> posts (good st sector) (runHandler rounds pb h sector).
Proof.
  unfold handlerOf. case_decide as Hrel.
  - intros [= <-] _. subst st. apply sendAfterCooldown_posts. by split.
  - intros Hh%assoc_elem Hst. unfold SealingPlan.handlers in Hh.
    repeat (apply elem_of_cons in Hh as [Hh|Hh]; [injection Hh as -> ->|]); [..|by apply not_elem_of_nil in Hh]; cbn [runHandler]; clear Hrel.
    all: try (first
      [ apply handlePreCommitFailed_posts | apply handleCommitFailed_posts | apply handleSubmitReplicaUpdateFailed_posts | apply handleRecover_posts
      | apply handleWaitMutable_posts | apply handleTerminateFinality_posts | apply handleAddPiece_posts | apply handlePacking_posts
      | apply handleCommitting_posts | apply handleSubmitPreCommitBatch_posts ]; good_events Hst).
    all: autounfold with sealing_handlers; handler; first [by split | apply activateLoop_posts; by split].
Qed.
End accepted.

(** ** The planner takes them *)

Lemma updateDealID_deals i id pieces u :
  deals_at pieces (<[i := id]> u) -> exists pieces', updateDealID i id pieces = Some pieces' /\ deals_at pieces' (<[i := id]> u).
Proof.
  intros Hd. destruct (Hd i id (lookup_insert_eq _ _ _)) as (Hi & p & d & Hp & Hpd). unfold updateDealID.
  destruct (Z.ltb_spec i 0); [lia|]. rewrite Hp. cbn. rewrite Hpd. cbn. eexists. split; [done|].
  intros j id' Hj. destruct (Hd j id' Hj) as (Hj0 & q & d' & Hq & Hqd). split; [done|].
  destruct (decide (Z.to_nat i = Z.to_nat j)) as [E|E].
  - rewrite <- E. rewrite list_lookup_insert_eq by (by eapply lookup_lt_Some). by do 2 eexists.
  - rewrite list_lookup_insert_ne by done. eauto.
Qed.

Lemma updateDealIDs_total u s : deals_at (Pieces s) u -> exists s', SectorUpdateDealIDs_apply u s = Some s'.
Proof.
  intros Hd. unfold SectorUpdateDealIDs_apply.
  assert (forall l pieces, (forall i id, (i, id) ∈ l -> u !! i = Some id) -> deals_at pieces u ->
    exists pieces', foldl (fun acc x => pieces ← acc; updateDealID x.1 x.2 pieces) (Some pieces) l = Some pieces') as Hl.
  { induction l as [|[i id] l IH]; intros pieces Hin Hp; [by eexists|]. cbn [foldl fst snd mbind option_bind].
    assert (<[i := id]> u = u) as Eu by (apply insert_id, Hin; set_solver). rewrite <- Eu in Hp.
    destruct (updateDealID_deals i id pieces u Hp) as (pieces' & -> & Hp'). rewrite Eu in Hp'. apply IH; [set_solver|done]. }
  destruct (Hl (map_to_list u) (Pieces s)) as [pieces' ->]; [intros; by apply elem_of_map_to_list|done|]. by eexists.
Qed.

(** Events that are neither global nor, as [SectorFaultedFinal], without an [apply]. *)
Definition isMutator (e : Event) : bool := negb (isGlobal e) && match e with SectorFaultedFinal => false | _ => true end.

Lemma event_apply_total now e s :
  isMutator e = true -> match e with SectorUpdateDealIDs u => deals_at (Pieces s) u | _ => True end -> exists s', event_apply now e s = Some s'.
Proof.
  intros Ht Hu. unfold event_apply, mutator_apply. destruct e; try discriminate Ht.
  all: cbn [precommit_apply commit_apply snap_apply recovery_apply snap_recovery_apply lifecycle_apply applied union option_union union_with option_union_with].
  all: first [eexists; match goal with |- Some ?a = Some _ => exact (eq_refl (Some a)) end | by apply updateDealIDs_total].
Qed.

Lemma isGlobal_type e : isGlobal e = bool_decide (typeOf e ∈ globalTypes).
Proof. by destruct e. Qed.

Lemma global_planned now p e s : p <> FinalRemoved -> isGlobal e = true -> exists r, runPlanner now p [e] s = Some r /\ pr_err r = None.
Proof.
  intros Hp He. assert (exists x, applyGlobal e s = Some x) as [[[s' ns] b] Hg] by (destruct e; try discriminate He; by eexists).
  destruct (applyGlobal_planner now p e s s' ns b Hp Hg) as (r & Hr & _ & He' & _). eauto.
Qed.

Lemma applyGlobal_None e s : isGlobal e = false -> applyGlobal e s = None.
Proof. by destruct e. Qed.

(** A planner with transitions, on an event that is one of them. *)
Lemma planOne_taken now ts e s :
  isMutator e = true -> typeOf e ∈ transition_mut <$> ts -> (forall info, e <> SectorReceive info) ->
  match e with SectorUpdateDealIDs u => deals_at (Pieces s) u | _ => True end ->
  (forall mut, onReturning mut ∈ ts -> Return s <> EmptyString) -> Forall transition_plain ts ->
  exists r, planOne now ts [e] s = Some r /\ pr_err r = None.
Proof.
  intros Hmu Hin Hrec Hu Hret Hplain. unfold planOne. cbn [planOne_loop]. pose proof Hmu as [Hg%negb_true_iff _]%andb_prop. rewrite applyGlobal_None by done.
  destruct (list_find _ ts) as [[j t]|] eqn:Hf; [|exfalso].
  - destruct (event_apply_total now e s Hmu Hu) as [s1 Hs1]. rewrite Hs1. cbn.
    apply list_find_Some in Hf as (Hj & Hmut & _). apply list_elem_of_lookup_2 in Hj.
    destruct t as [mut next|mut next cb|mut|mut]; cbn; try (by eexists).
    assert (Return s1 <> EmptyString) as Hr1.
    { destruct (event_apply_sig now e s s1) as [_ ->]; [done|done|].
      rewrite Forall_forall in Hplain. specialize (Hplain _ Hj). cbn in Hplain, Hmut. destruct e; try by eapply Hret. by rewrite Hmut in Hplain. }
    rewrite decide_False by done. by eexists.
  - apply list_find_None in Hf. apply list_elem_of_fmap in Hin as (t & Et & Ht). rewrite Forall_forall in Hf. by eapply Hf.
Qed.

Lemma planCommitting_taken now e s :
  isGlobal e = false -> typeOf e ∈ takenTypes PlanCommitting -> exists r, planCommitting now [e] s = Some r /\ pr_err r = None.
Proof.
  intros Hg [Hin|Hin]%elem_of_app; [exfalso; rewrite isGlobal_type in Hg; by apply bool_decide_eq_false in Hg|].
  unfold planCommitting. cbn [planCommitting_loop]. unfold planCommitting_step. rewrite applyGlobal_None by done.
  apply (bool_decide_pack _) in Hin. destruct e; try (exfalso; exact Hin); try (eexists; split; reflexivity).
  all: match goal with |- context [event_apply ?n ?e ?s] => destruct (event_apply_total n e s) as [s1 E]; [done|done|] end.
  1: destruct (_ && _); [eexists; split; reflexivity|].
  all: rewrite E; eexists; split; reflexivity.
Qed.

Lemma faultedFinal_untaken st p : assoc st fsmPlanners = Some p -> TSectorFaultedFinal ∉ takenTypes p.
Proof.
  assert (Forall (fun x => TSectorFaultedFinal ∉ takenTypes x.2) fsmPlanners) as H by (apply (bool_decide_unpack _); by vm_compute).
  rewrite Forall_forall in H. intros ?%assoc_elem. by apply (H (st, p)).
Qed.

Lemma good_planned now st p s e :
  assoc st fsmPlanners = Some p -> good st s e -> (st, typeOf e) ∉ refused ->
  (forall mut, onReturning mut ∈ planner_transitions p -> Return s <> EmptyString) ->
  exists r, runPlanner now p [e] s = Some r /\ pr_err r = None.
Proof.
  intros Hp [[[_ Hfit]%andb_prop He]%andb_prop Hu] Href Hret. rewrite Hp in Hfit. apply bool_decide_eq_true_1 in Hfit as [Hin|?]; [|done].
  assert (forall info, e <> SectorReceive info) as Hrec by (by intros info ->).
  pose proof (fsmPlanners_plain st p Hp) as Hplain. destruct (isGlobal e) eqn:Hg.
  - destruct p; [by apply global_planned..|by eexists].
  - pose proof Hin as [Hb|Hin']%elem_of_app; [by rewrite isGlobal_type, bool_decide_eq_true_2 in Hg|].
    assert (isMutator e = true) as Hmu.
    { unfold isMutator. rewrite Hg. destruct e; try done. by destruct (faultedFinal_untaken st p Hp). }
    destruct p as [ts|ts| | |]; cbn [runPlanner]; [| | |by apply not_elem_of_nil in Hin'|by eexists].
    + by apply planOne_taken.
    + destruct (planOne_taken now ts e s) as (r & Hr & _); try done. unfold planOneOrIgnore. rewrite Hr. by eexists.
    + by apply planCommitting_taken.
Qed.

(** ** The steps of the machine *)

(** Every state that a step leads to has a handler, or ends the machine. *)
Definition continues (x : SectorState * ReturnState) : bool :=
  bool_decide (x.1 = UndefinedSectorState) ||
  forallb (fun y => bool_decide (y.1 = Removed) ||
             bool_decide (y.1 <> PackingFailed /\ y.1 <> UndefinedSectorState /\ y.1 <> FailedUnrecoverable /\ is_Some (handlerOf y.1))) (succs [] [] x).

Lemma continues_check : reachable_dec [] [] (fun x => return_ready x && continues x) (reachable [] []) = true.
Proof. by vm_compute. Qed.

Lemma dispatch_ok s n :
  State s = Removed \/ (State s <> PackingFailed /\ State s <> UndefinedSectorState /\ State s <> FailedUnrecoverable /\ is_Some (handlerOf (State s))) ->
  exists h n' err, dispatch s n = (s, h, n', err) /\ (err = None /\ h = handlerOf (State s) /\ is_Some h \/ err = Some errSectorRemoved).
Proof.
  intros Hs. unfold dispatch, handlerOf in *. destruct Hs as [E|(H1 & H2 & H3 & [h Hh])].
  - rewrite E. do 3 eexists. split; [reflexivity|by right].
  - rewrite (decide_False (P := State s = PackingFailed)) by done.
    destruct (decide (State s = ReleaseSectorKeyFailed)); [do 3 eexists; split; [reflexivity|left; by eauto]|].
    destruct (decide (State s = Removed)); [do 3 eexists; split; [reflexivity|by right]|].
    rewrite (decide_False (P := State s = UndefinedSectorState)), (decide_False (P := State s = FailedUnrecoverable)) by done.
    rewrite Hh. do 3 eexists. split; [reflexivity|left; by eauto].
Qed.

Lemma fits_pipeline st e : fits st e = true -> pipeline_event [] st e.
Proof.
  intros [_ He]%andb_prop. split; [apply not_elem_of_nil|]. destruct e; try done. by apply bool_decide_eq_true_1 in He.
Qed.

Lemma return_ready_spec st ret p :
  return_ready (st, ret) = true -> assoc st fsmPlanners = Some p -> forall mut, onReturning mut ∈ planner_transitions p -> ret <> EmptyString.
Proof.
  unfold return_ready. cbn [fst snd]. intros Hr Hp mut Hm. rewrite Hp in Hr.
  assert (existsb is_onReturning (planner_transitions p) = true) as Hex by (apply existsb_exists; exists (onReturning mut); by rewrite <- list_elem_of_In).
  rewrite Hex in Hr. by apply bool_decide_eq_true_1 in Hr.
Qed.

(** The plan of an event that the planner takes. *)
Lemma plan_taken env e s ss p :
  assoc (State s) fsmPlanners = Some p -> pipeline_event [] (State s) e -> good (State s) s e -> (State s, typeOf e) ∉ refused ->
  (forall mut, onReturning mut ∈ planner_transitions p -> Return s <> EmptyString) -> continues (sig s) = true -> State s <> UndefinedSectorState ->
  exists o, planIn env [e] s ss = Some o /\ (po_err o = None /\ po_next o = handlerOf (State (po_state o)) /\ is_Some (po_next o) \/ po_err o = Some errSectorRemoved).
Proof.
  intros Hp Hpe Hgood Href Hret Hcont Hund. unfold planIn, plan.
  destruct (logEvents_logged (e_now env) (e_marshal env) (e_formatTrace env) (e_typeName env) [e] s) as (log & -> & _).
  change (State (set_Log log s)) with (State s). unfold plannerFor. rewrite Hp.
  destruct (good_planned (e_now env) (State s) p (set_Log log s) e) as (r & Hr & Herr); [done..|].
  rewrite Hr. cbn [mbind option_bind]. rewrite Herr. destruct (onUpdateSector _ _ _ _ _) as [ss1 upd].
  pose proof (runPlanner_sig [] (e_now env) p [e] (set_Log log s) r (fsmPlanners_plain _ _ Hp) ltac:(by constructor) Hr) as Hsig.
  apply orb_prop in Hcont as [?%bool_decide_eq_true_1|Hcont]; [done|]. rewrite forallb_forall in Hcont. unfold succs in Hcont.
  cbn [fst snd sig] in Hcont. rewrite decide_False, Hp in Hcont by apply not_elem_of_nil. specialize (Hcont _ (proj1 (list_elem_of_In _ _) Hsig)).
  destruct (dispatch_ok (pr_state r) (pr_processed r)) as (h & n' & err & -> & Hd).
  { apply orb_prop in Hcont as [E%bool_decide_eq_true_1|E%bool_decide_eq_true_1]; [by left|by right]. }
  eexists. split; [done|]. destruct Hd as [(-> & -> & ?)| ->]; [by left|by right].
Qed.

Section machine.
Context `{PieceSizes} `{SealingWorld} `{BigOps}.

(** [C2] The handlers and the planners of the sealing pipeline fit together: whatever the chain,
    the sealer and the batchers answer, the event that the handler of a reachable state sends is
    one of the pipeline's own for that state, and the planner takes it without an error and
    finds the next handler, or ends the machine of a removed sector.  Two events are
    exceptions: the failure to get a ticket, and the end of a reported fault. *)
Theorem handlers_fit_planners rounds provingBuffer env ss visited s h w e w' :
  run (pipeline_event []) zeroSectorInfo visited s -> handlerOf (State s) = Some h ->
  runHandler rounds provingBuffer h s w = (Ret (Some e), w') ->
  pipeline_event [] (State s) e /\
  ((State s, typeOf e) ∈ refused \/
   exists o, planIn env [e] s ss = Some o /\ (po_err o = None /\ po_next o = handlerOf (State (po_state o)) /\ is_Some (po_next o) \/ po_err o = Some errSectorRemoved)).
Proof.
  intros Hrun Hh Hw. pose proof (handler_good rounds provingBuffer (State s) h s Hh eq_refl w (Some e) w' Hw) as Hgood. cbn in Hgood.
  destruct (reachable_dec_sound _ _ _ _ _ _ continues_check Hrun) as [(m & ?%not_elem_of_nil & _)|[Hknown [Hret Hcont]%andb_prop]]; [done|].
  pose proof (fits_pipeline _ _ (proj1 Hgood)) as Hpe. split; [done|]. apply assoc_is_Some in Hknown as [p Hp].
  destruct (decide ((State s, typeOf e) ∈ refused)); [by left|right].
  apply (plan_taken env e s ss p); try done; [by apply (return_ready_spec _ _ _ Hret Hp)|]. intros E. by rewrite E in Hh.
Qed.
End machine.

(** ** Failures of the first pre-commit phase are counted *)

(** What one event can do to a sector. *)
Inductive effect (now : Z) (p : Planner) (e : Event) (s : SectorInfo) : SectorInfo -> Prop :=
| eff_none : effect now p e s s
| eff_global s' ns b : applyGlobal e s = Some (s', ns, b) -> effect now p e s s'
| eff_transition ts t s1 :
    p = PlanOne ts \/ p = PlanOneOrIgnore ts -> t ∈ ts -> transition_mut t = typeOf e -> event_apply now e s = Some s1 ->
    effect now p e s (transition_next t s1).1.1.1
| eff_committing st s1 :
    p = PlanCommitting -> (typeOf e <> TSectorSealPreCommit1Failed -> st <> SealPreCommit1Failed) -> s1 = s \/ event_apply now e s = Some s1 ->
    effect now p e s (set_State st s1).

Lemma planOne_effect now p ts e s r :
  p = PlanOne ts \/ p = PlanOneOrIgnore ts -> planOne now ts [e] s = Some r -> effect now p e s (pr_state r).
Proof.
  intros Hp. unfold planOne. cbn [planOne_loop]. destruct (applyGlobal e s) as [[[s' ns] b]|] eqn:Hg; [intros [= <-]; by eapply eff_global|].
  destruct (list_find _ ts) as [[j t]|] eqn:Hf.
  - apply list_find_Some in Hf as (Hj & Hmut & _). apply list_elem_of_lookup_2 in Hj.
    destruct (event_apply now e s) as [s1|] eqn:Ha; cbn [mbind option_bind]; [|done].
    pose proof (eff_transition now p e s ts t s1 Hp Hj Hmut Ha) as Heff.
    destruct (transition_next t s1) as [[[s2 ns] more] err]. destruct (_ || _); intros [= <-]; exact Heff.
  - destruct (isIgnorable e); intros [= <-]; apply eff_none.
Qed.

Lemma planCommitting_effect now e s r : planCommitting now [e] s = Some r -> effect now PlanCommitting e s (pr_state r).
Proof.
  unfold planCommitting. cbn [planCommitting_loop]. unfold planCommitting_step.
  destruct (applyGlobal e s) as [[[s' ns] b]|] eqn:Hg; [destruct b; cbn; intros [= <-]; by eapply eff_global|].
  destruct e; cbn [mbind option_bind]; try (intros [= <-]; apply eff_none); try (intros [= <-]; by apply eff_committing; [| |left]).
  all: try (destruct (_ && _); [intros [= <-]; apply eff_none|]).
  all: match goal with |- context [event_apply ?n ?e ?s] => destruct (event_apply n e s) as [s1|] eqn:Ha end; cbn [mbind option_bind]; [|done].
  all: intros [= <-]; apply eff_committing; [done|done|by right].
Qed.

Lemma runPlanner_effect now p e s r : runPlanner now p [e] s = Some r -> effect now p e s (pr_state r).
Proof.
  destruct p as [ts|ts| | |]; cbn [runPlanner].
  - apply planOne_effect. by left.
  - unfold planOneOrIgnore. destruct (planOne now ts [e] s) as [r1|] eqn:E; cbn [mbind option_bind]; [|done]. intros [= <-]. cbn [pr_state].
    eapply planOne_effect; [by right|exact E].
  - apply planCommitting_effect.
  - unfold final. destruct (applyGlobal e s) as [[[s' ns] b]|] eqn:Hg; intros [= <-]; [by eapply eff_global|apply eff_none].
  - intros [= <-]. apply eff_none.
Qed.

Lemma event_apply_fails now e s s' :
  typeOf e <> TSectorSealPreCommit1Failed -> (forall info, e <> SectorReceive info) -> event_apply now e s = Some s' ->
  PreCommit1Fails s' = PreCommit1Fails s.
Proof.
  intros Ht Hr. unfold event_apply. destruct e; simpl; intros; simplify_eq/=; try done.
  - unfold SectorAddPiece_apply. by destruct (_ =? _).
  - by destruct (SectorPacked_fields FillerPieces s) as [l ->].
  - by destruct (SectorUpdateDealIDs_fields Updates s s') as [l ->].
  - exfalso. by eapply Hr.
Qed.

(** The table counts: [SealPreCommit1Failed] is entered exactly by the event that counts. *)
Definition counted (t : Transition) : bool :=
  match t with
  | on mut next | onWithCB mut next _ => Bool.eqb (bool_decide (mut = TSectorSealPreCommit1Failed)) (bool_decide (next = SealPreCommit1Failed))
  | applyOnly mut | onReturning mut => negb (bool_decide (mut = TSectorSealPreCommit1Failed))
  end.

(** The states of a sector that is given up, left only by a retry of the first phase. *)
Definition givenUp : list SectorState :=
  [SealPreCommit1Failed; Terminating; TerminateWait; TerminateFinality; TerminateFailed; Removing; RemoveFailed; Removed].

Definition staysGivenUp (st : SectorState) (t : Transition) : bool :=
  match t with
  | on mut next => bool_decide (mut <> TSectorSealPreCommit1Failed) && (bool_decide (next ∈ givenUp) || bool_decide (st = SealPreCommit1Failed /\ mut = TSectorRetrySealPreCommit1))
  | _ => false
  end.

Lemma counted_check st p t : assoc st fsmPlanners = Some p -> t ∈ planner_transitions p -> counted t = true.
Proof.
  assert (forallb (fun x => forallb counted (planner_transitions x.2)) fsmPlanners = true) as H by (by vm_compute).
  rewrite forallb_forall in H. intros Hp%assoc_elem Ht. apply list_elem_of_In, H in Hp. rewrite forallb_forall in Hp. by apply Hp, list_elem_of_In.
Qed.

Lemma givenUp_check st p t :
  assoc st fsmPlanners = Some p -> st ∈ givenUp -> p <> PlanCommitting /\ (t ∈ planner_transitions p -> staysGivenUp st t = true).
Proof.
  assert (forallb (fun x => negb (bool_decide (x.1 ∈ givenUp)) ||
    (match x.2 with PlanCommitting => false | _ => true end && forallb (staysGivenUp x.1) (planner_transitions x.2))) fsmPlanners = true) as H by (by vm_compute).
  rewrite forallb_forall in H. intros Hp%assoc_elem Hst. apply list_elem_of_In, H in Hp. cbn [fst snd] in Hp. rewrite bool_decide_eq_true_2 in Hp by done.
  cbn [negb orb] in Hp. apply andb_prop in Hp as [Hp Ht]. rewrite forallb_forall in Ht. split; [by intros ->|]. intros Hin. by apply Ht, list_elem_of_In.
Qed.

(** What a step of the machine does to the count. *)
Record counts (s : SectorInfo) (e : Event) (s' : SectorInfo) : Prop := {
  ct_other : typeOf e <> TSectorSealPreCommit1Failed -> PreCommit1Fails s' = PreCommit1Fails s /\ (State s' = SealPreCommit1Failed -> State s = SealPreCommit1Failed);
  ct_failed : typeOf e = TSectorSealPreCommit1Failed ->
    PreCommit1Fails s' = PreCommit1Fails s /\ State s' = State s \/
    State s ∉ givenUp /\ PreCommit1Fails s' = u64 (PreCommit1Fails s + 1) /\ State s' = SealPreCommit1Failed;
  ct_givenUp : State s ∈ givenUp -> ~ (State s = SealPreCommit1Failed /\ typeOf e = TSectorRetrySealPreCommit1) -> State s' ∈ givenUp;
}.

Lemma event_return_not_failed st e ret :
  pipeline_event [] st e -> ret <> SealPreCommit1Failed -> event_return e ret <> SealPreCommit1Failed.
Proof.
  intros [_ He] Hret. destruct e; try done. cbn in *. rewrite He. unfold invalidDealIDsReturn. by repeat case_decide.
Qed.

(** The count and the state after the transition [t] on the applied sector [s1]. *)
Lemma transition_counts now st p t e s s1 :
  st = State s -> assoc st fsmPlanners = Some p -> t ∈ planner_transitions p -> transition_mut t = typeOf e -> event_apply now e s = Some s1 ->
  pipeline_event [] st e -> (forall info, e <> SectorReceive info) -> Return s <> SealPreCommit1Failed -> counts s e (transition_next t s1).1.1.1.
Proof.
  intros -> Hp Htp Hmut Ha Hpe Hrec Hret. pose proof (counted_check _ _ t Hp Htp) as Hc. destruct (event_apply_sig now e s s1 Hrec Ha) as [Est Eret].
  pose proof (event_return_not_failed _ e _ Hpe Hret) as Hret'. rewrite <- Eret in Hret'.
  assert (PreCommit1Fails (transition_next t s1).1.1.1 = PreCommit1Fails s1) as Ef by (destruct t; try done; cbn; by case_decide).
  split.
  - intros Hne. rewrite Ef, (event_apply_fails now e s s1) by done. split; [done|].
    destruct t as [mut next|mut next cb|mut|mut]; cbn in *; subst mut; try (rewrite bool_decide_eq_false_2 in Hc by done; intros ->; by vm_compute in Hc).
    + by rewrite Est.
    + case_decide; cbn; [by rewrite Est|done].
  - intros Heq. right. split; [intros Hg; destruct (givenUp_check _ _ t Hp Hg) as [_ Hs]; specialize (Hs Htp);
      destruct t; try done; cbn in *; subst; by rewrite Heq in Hs|]. rewrite Ef.
    destruct e; try done. injection Ha as <-. split; [done|]. destruct t as [mut next|mut next cb|mut|mut]; cbn in *; subst mut; try by vm_compute in Hc.
    all: apply eqb_prop in Hc; rewrite bool_decide_eq_true_2 in Hc by done; by symmetry in Hc; apply bool_decide_eq_true_1 in Hc.
  - intros Hg Hne. destruct (givenUp_check _ _ t Hp Hg) as [_ Hs]. specialize (Hs Htp). destruct t as [mut next|mut next cb|mut|mut]; try done. cbn in *.
    apply andb_prop in Hs as [_ [Hs|Hs]%orb_prop]; apply bool_decide_eq_true_1 in Hs; [done|]. by rewrite Hmut in Hs.
Qed.

Lemma planCommitting_state st : assoc st fsmPlanners = Some PlanCommitting -> st = Committing.
Proof.
  assert (forallb (fun x => match x.2 with PlanCommitting => bool_decide (x.1 = Committing) | _ => true end) fsmPlanners = true) as H by (by vm_compute).
  rewrite forallb_forall in H. intros Hp%assoc_elem%list_elem_of_In%H. by apply bool_decide_eq_true_1 in Hp.
Qed.

Lemma effect_counts now p e s s' :
  assoc (State s) fsmPlanners = Some p -> effect now p e s s' -> pipeline_event [] (State s) e -> (State s, typeOf e) ∉ unsent ->
  Return s <> SealPreCommit1Failed -> counts s e s'.
Proof.
  intros Hp Heff Hpe Huns Hret. pose proof Hpe as [_ He]. assert (forall info, e <> SectorReceive info) as Hrec by (by intros info ->).
  destruct Heff as [|s' ns b Hg|ts t s1 Hts Ht Hmut Ha|st s1 Hpc Hst Hs1].
  - split; auto.
  - destruct e; try done; injection Hg as <- <- <-; split; try done; try (by intros); intros; by apply (bool_decide_unpack _).
  - eapply (transition_counts now); try done. by destruct Hts as [->| ->].
  - subst p. assert (typeOf e <> TSectorSealPreCommit1Failed) as Hne.
    { intros E. apply Huns. rewrite E, (planCommitting_state _ Hp). left. }
    split; [intros _; split; [|by intros E; destruct (Hst Hne)]|done|].
    + destruct Hs1 as [->|Ha]; [done|]. cbn. by apply (event_apply_fails now e).
    + intros Hg. by destruct (givenUp_check _ _ (applyOnly TSectorRestart) Hp Hg).
Qed.

(** A sector driven by its handlers and by an operator, with what was sent in which state, the
    latest first. *)
Definition operatorTypes : list EventType :=
  [TSectorStart; TSectorStartCC; TSectorAddPiece; TSectorStartPacking; TSectorMarkForUpdate; TSectorStartCCUpdate; TSectorAbortUpgrade;
   TSectorRestart; TSectorTerminate; TSectorRemove].

Section driven.
Context `{PieceSizes} `{SealingWorld} `{BigOps}.

Inductive driven : list (SectorState * Event) -> SectorInfo -> Prop :=
| driven_start : driven [] zeroSectorInfo
| driven_operator trace s e env ss o t :
    driven trace s -> typeOf e ∈ operatorTypes -> PlanIn env [e] s ss = Some (o, t) -> driven ((State s, e) :: trace) (po_state o)
| driven_handler trace s rounds provingBuffer h w e w' env ss o t :
    driven trace s -> handlerOf (State s) = Some h -> runHandler rounds provingBuffer h s w = (Ret (Some e), w') ->
    PlanIn env [e] s ss = Some (o, t) -> driven ((State s, e) :: trace) (po_state o).

Definition isRetry (x : SectorState * Event) : bool := bool_decide (x.1 = SealPreCommit1Failed /\ typeOf x.2 = TSectorRetrySealPreCommit1).

Definition retries (trace : list (SectorState * Event)) : Z := Z.of_nat (length (List.filter isRetry trace)).

(** The sector was in a state of the table, and the step is a planner's. *)
Definition quiet (x : SectorState * ReturnState) : bool :=
  bool_decide (x.2 <> SealPreCommit1Failed) && forallb (fun y => bool_decide (y.1 <> PackingFailed)) (succs [] [] x).

Lemma quiet_check : reachable_dec [] [] quiet (reachable [] []) = true.
Proof. by vm_compute. Qed.

Lemma step_counts visited env e s ss o t :
  run (pipeline_event []) zeroSectorInfo visited s -> pipeline_event [] (State s) e -> (State s, typeOf e) ∉ unsent ->
  PlanIn env [e] s ss = Some (o, t) -> counts s e (po_state o).
Proof.
  intros Hrun Hpe Huns Hplan.
  destruct (reachable_dec_sound _ _ _ _ _ _ quiet_check Hrun) as [(m & ?%not_elem_of_nil & _)|[Hknown [Hret Hq]%andb_prop]]; [done|].
  apply bool_decide_eq_true_1 in Hret. apply assoc_is_Some in Hknown as [p Hp].
  destruct (Plan_single env e s ss o t p Hp Hplan) as (log1 & log2 & r & s' & Hr & -> & Hs').
  pose proof (runPlanner_sig [] (e_now env) p [e] (set_Log log1 s) r (fsmPlanners_plain _ _ Hp) ltac:(by constructor) Hr) as Hsig.
  unfold succs in Hq. cbn [fst snd sig] in Hq. rewrite decide_False, Hp in Hq by apply not_elem_of_nil. rewrite forallb_forall in Hq.
  specialize (Hq _ (proj1 (list_elem_of_In _ _) Hsig)). apply bool_decide_eq_true_1 in Hq. rewrite (Hs' Hq).
  destruct (effect_counts (e_now env) p e (set_Log log1 s) (pr_state r) Hp (runPlanner_effect _ _ _ _ _ Hr) Hpe Huns Hret) as [H1' H2' H3'].
  split; [exact H1'|exact H2'|exact H3'].
Qed.

Lemma retry_step env e s ss o t :
  State s = SealPreCommit1Failed -> typeOf e = TSectorRetrySealPreCommit1 -> PlanIn env [e] s ss = Some (o, t) -> State (po_state o) = PreCommit1.
Proof.
  intros Hs He Hplan. destruct e; try discriminate He.
  destruct (Plan_single env SectorRetrySealPreCommit1 s ss o t (PlanOne [on TSectorRetrySealPreCommit1 PreCommit1])) as (log1 & log2 & r & s' & Hr & -> & Hs');
    [by rewrite Hs|done|]. cbn in Hr. injection Hr as <-. by rewrite (Hs' ltac:(done)).
Qed.

Lemma handler_retry rounds pb h s w e w' :
  handlerOf (State s) = Some h -> runHandler rounds pb h s w = (Ret (Some e), w') -> State s = SealPreCommit1Failed ->
  typeOf e = TSectorRetrySealPreCommit1 -> PreCommit1Fails s <= 3.
Proof.
  intros Hh Hw Hs He. rewrite Hs in Hh. injection Hh as <-. cbn [runHandler] in Hw. unfold handleSealPrecommit1Failed, MaxPreCommit1Retries in Hw.
  destruct (Z.ltb_spec 3 (PreCommit1Fails s)); [|done]. by injection Hw as <- _.
Qed.

Record tally (trace : list (SectorState * Event)) (s : SectorInfo) : Prop := {
  ty_run : exists visited, run (pipeline_event []) zeroSectorInfo visited s;
  ty_retries : retries trace <= 3;
  ty_failed : retries trace <= PreCommit1Fails s /\ (State s = SealPreCommit1Failed -> retries trace < PreCommit1Fails s);
  ty_bound : PreCommit1Fails s <= 3 \/ PreCommit1Fails s = 4 /\ State s ∈ givenUp;
}.

Lemma retries_cons x trace : retries (x :: trace) = (if isRetry x then 1 else 0) + retries trace.
Proof. unfold retries. cbn. destruct (isRetry x); cbn [length]; lia. Qed.

Lemma tally_step trace s e env ss o t :
  tally trace s -> pipeline_event [] (State s) e -> (State s, typeOf e) ∉ unsent -> PlanIn env [e] s ss = Some (o, t) ->
  (State s = SealPreCommit1Failed -> typeOf e = TSectorRetrySealPreCommit1 -> PreCommit1Fails s <= 3) -> tally ((State s, e) :: trace) (po_state o).
Proof.
  intros [[visited Hrun] Hr [Hle Hlt] Hb] Hpe Huns Hplan Hretry. pose proof (step_counts visited env e s ss o t Hrun Hpe Huns Hplan) as [Ho Hf Hg].
  split; [eexists; eapply run_step; [done| |done]; by constructor|rewrite ?retries_cons..]; destruct (isRetry (State s, e)) eqn:Eretry.
  all: try (apply bool_decide_eq_true_1 in Eretry as [Es Ee]; cbn [fst snd] in Es, Ee; pose proof (retry_step env e s ss o t Es Ee Hplan) as Es'; specialize (Hretry Es Ee);
    specialize (Hlt Es); destruct Ho as [Eo _]; [by rewrite Ee|]; rewrite ?Eo; try lia; first [split; [lia|by rewrite Es']|left; lia]).
  all: apply bool_decide_eq_false in Eretry; cbn [fst snd] in Eretry; try lia; assert (0 <= retries trace) by (unfold retries; lia).
  all: destruct (decide (typeOf e = TSectorSealPreCommit1Failed)) as [Ee|Ee];
    [destruct (Hf Ee) as [[-> ->]|(Hng & -> & ->)]; [by auto|]; destruct Hb as [Hb|[_ ?]]; [|done]; rewrite u64_id by (unfold in_u64; lia)|destruct (Ho Ee) as [-> Hst]].
  - split; lia.
  - split; [lia|]. intros E. apply Hst, Hlt in E. lia.
  - destruct (decide (PreCommit1Fails s + 1 = 4)); [right; split; [done|left]|left; lia].
  - destruct Hb as [?|[? ?]]; [by left|right; auto].
Qed.

Lemma operator_pipeline st e : typeOf e ∈ operatorTypes -> pipeline_event [] st e /\ (st, typeOf e) ∉ unsent /\ typeOf e <> TSectorRetrySealPreCommit1.
Proof.
  intros He. apply (bool_decide_pack _) in He. split_and!.
  - split; [apply not_elem_of_nil|]. by destruct e.
  - intros [E1 E2]%list_elem_of_singleton%pair_equal_spec. by rewrite E2 in He.
  - intros E. by rewrite E in He.
Qed.

End driven.

(** ** The two events that are refused *)

Lemma refused_events env s ss e :
  (State s, typeOf e) ∈ refused -> exists o msg, planIn env [e] s ss = Some o /\ po_err o = Some (errPlan msg) /\ State (po_state o) = State s.
Proof.
  intros Hin. unfold planIn, plan.
  destruct (logEvents_logged (e_now env) (e_marshal env) (e_formatTrace env) (e_typeName env) [e] s) as (log & -> & _).
  change (State (set_Log log s)) with (State s).
  apply elem_of_cons in Hin as [[Es Ee]%pair_equal_spec|[Es Ee]%list_elem_of_singleton%pair_equal_spec]; rewrite Es; destruct e; try discriminate Ee.
  all: do 2 eexists; split_and!; [reflexivity|reflexivity|]; cbn; by rewrite Es.
Qed.

(** ** What some handlers do with an error *)

Section errors.
Context `{PieceSizes} `{SealingWorld}.

(** A chain that cannot be read gives the sector an empty ticket. *)
Lemma empty_ticket sector s : (ChainHead (wld s)).1 = NotOk -> (SealingCommit.handleGetTicket sector s).1 = Ret (Some (SectorTicket [] 0)).
Proof.
  intros Hh. unfold SealingCommit.handleGetTicket, getTicket, ask, send, mbind, M_bind, mret, M_ret.
  destruct (ChainHead (wld s)) as [h w]; cbn in Hh; subst h. done.
Qed.

(** The index of the last entry of the log is not guarded by the test of its length. *)
Lemma cooldown_empty_log sector s : Log sector = [] -> failedCooldown sector s = (Panic, s).
Proof. intros Hl. unfold failedCooldown. by rewrite Hl. Qed.

(** After an error the deadline is read from a nil pointer. *)
Lemma deadline_error_panics sector s s1 s2 s3 ts sl :
  ask ChainHead s = (Ret (Ok ts), s1) -> checkReplicaUpdate sector (hkey ts) s1 = (Ret None, s2) ->
  ask (StateSectorPartition (SectorNumber sector) (hkey ts)) s2 = (Ret (Ok sl), s3) ->
  (StateMinerProvingDeadline (hkey ts) (wld s3)).1 = NotOk -> (SealingUpdate.handleSubmitReplicaUpdate sector s).1 = Panic.
Proof.
  intros E1 E2 E3 E4. unfold SealingUpdate.handleSubmitReplicaUpdate, mbind, M_bind. rewrite E1, E2, E3. unfold ask.
  destruct (StateMinerProvingDeadline (hkey ts) (wld s3)) as [d w]; cbn in E4; subst d. done.
Qed.

(** The wait for finality grows with the epochs since the termination, by twice as much as it
    should shrink. *)
Lemma finality_wait_excess h terminatedAt lookback :
  0 <= terminatedAt <= h -> 0 <= lookback -> h + lookback < 2 ^ 26 -> 0 <= BlockDelaySecs <= 60 ->
  finalityWait h terminatedAt lookback =
    ((terminatedAt + lookback - h) + 2 * (h - terminatedAt)) * BlockDelaySecs * 1000000000.
Proof.
  intros Ht Hl Hh HB. unfold finalityWait.
  assert (0 <= (h - terminatedAt + lookback) * BlockDelaySecs <= 2 ^ 26 * 60) by nia.
  rewrite (i64_id (h - terminatedAt)), (i64_id BlockDelaySecs), (i64_id (h - terminatedAt + lookback)) by (unfold in_i64; lia).
  rewrite (i64_id (_ * BlockDelaySecs)), i64_id by (unfold in_i64; lia). lia.
Qed.
End errors.

(** ** A node whose calls succeed *)

Definition demoWorld : SealingWorld := {|
  world := unit; maddr := "t01000"; minerSectorID := fun n => (1000, n); marshalAddress := Ok [1]; EmptyTSK := "";
  ChainHead := fun w => (Ok {| hkey := "head"; hheight := 3000 |}, w);
  StateSectorPreCommitInfo := fun _ _ w => (Ok None, w); StateSectorGetInfo := fun _ _ w => (Ok None, w);
  StateMinerSectorAllocated := fun _ _ w => (Ok false, w); StateSearchMsg := fun _ _ w => (Ok None, w);
  StateWaitMsg := fun _ w => (NotOk, w); StateMarketStorageDeal := fun _ _ w => (NotOk, w); StateComputeDataCID := fun _ _ _ w => (NotOk, w);
  StateGetRandomnessFromBeacon := fun _ _ _ w => (Ok (repeat 7 32), w); StateGetRandomnessFromTickets := fun _ _ _ w => (Ok (repeat 9 32), w);
  StateNetworkVersion := fun _ w => (Ok 21, w); StateSectorPartition := fun _ _ w => (NotOk, w); StateMinerProvingDeadline := fun _ w => (NotOk, w);
  StateMinerDeadlines := fun _ w => (Ok 0%nat, w); StateMinerPartitions := fun _ _ w => (Ok [], w);
  StateMinerPreCommitDepositForPower := fun _ _ w => (Ok 10, w); StateMinerInitialPledgeCollateral := fun _ _ w => (Ok 20, w);
  StateMinerInfo := fun _ w => (Ok "info", w); StateMinerAvailableBalance := fun _ w => (Ok 0, w); StateLookupID := fun a _ w => (Ok a, w);
  StateGetAllocationForPendingDeal := fun _ w => (None, w); ChainGetMessage := fun _ w => (NotOk, w);
  MpoolPushMessage := fun _ _ _ _ _ w => (Ok "msg", w); AddressFor := fun _ _ _ w => (Ok "t0100", w); ChainAt := fun _ _ w => (Ok tt, w);
  getConfig := fun w => (Ok {| cfg_FinalizeEarly := false; MakeCCSectorsAvailable := false; AlwaysKeepUnsealedCopy := true; AggregateCommits := true;
    CollateralFromMinerBalance := false; AvailableBalanceBuffer := 0; DisableCollateralFallback := false; CommittedCapacitySectorLifetime := 0;
    UseSyntheticPoRep := false; cfg_WaitDealsDelay := 0; cfg_StartEpochSealingBuffer := 480 |}, w);
  proposalFields := fun _ => {| mp_PieceCID := ""; mp_PieceSize := 0; mp_VerifiedDeal := false; mp_Client := ""; mp_Provider := ""; mp_Label := "";
    mp_StartEpoch := 0; mp_EndEpoch := 0; mp_StoragePricePerEpoch := 0; mp_ProviderCollateral := 0; mp_ClientCollateral := 0 |};
  decodePublishReturn := fun _ _ => NotOk; unmarshalPublishParams := fun _ => NotOk; marshalReplicaUpdates := fun _ _ _ _ _ _ _ => Ok [];
  marshalProveCommit := fun _ _ => Ok []; PreferredSealProof := fun _ _ _ => Ok 8; RegisteredUpdateProof := fun _ => Ok 3;
  VersionForNetwork := fun nv => Ok nv; GetMaxProveCommitDuration := fun _ _ => Ok 100; GetMaxSectorExpirationExtension := fun _ => Ok 1000;
  GetWinningPoStSectorSetLookback := fun _ => 10; GetPreCommitChallengeDelay := 150; GetMinSectorExpiration := 180; MinSectorExpiration := 180;
  WPoStProvingPeriod := 2880; EpochDurationSeconds := 30; SealRandomnessLookback := 900; MaxPreCommitRandomnessLookback := 3780;
  ZeroPieceCommitment := fun _ => "zero"; SectorSize := fun _ => Ret 2048; SysErrInsufficientFunds := 6; SysErrOutOfGas := 7;
  MethodProveReplicaUpdates := 27; MethodProveCommitSector := 7; MaxCommitGasFee := 5; BlockDelaySecs := 30;
  VerifySeal := fun _ _ _ _ _ _ _ w => (Ok true, w); sealerAddPiece := fun w => (fun _ sz _ => Ret {| Size := sz; PieceCID := "zero" |}, w);
  SealPreCommit1 := fun _ w => (SealErr None, w); SealPreCommit2 := fun _ w => (SealErr None, w); SealCommit1 := fun _ _ _ w => (NotOk, w);
  SealCommit2 := fun _ _ w => (NotOk, w); httpNewRequest := fun _ => NotOk; httpPost := fun _ _ w => (NotOk, w); jsonCommit1 := fun _ _ _ => NotOk;
  jsonCommit2 := fun _ _ => NotOk; ReplicaUpdate := fun _ w => (NotOk, w); ProveReplicaUpdate1 := fun _ _ _ _ w => (NotOk, w);
  ProveReplicaUpdate2 := fun _ _ _ _ _ w => (NotOk, w); ReleaseUnsealed := fun _ _ w => (Ok tt, w); sealerFinalizeSector := fun _ w => (Ok tt, w);
  sealerFinalizeReplicaUpdate := fun _ w => (Ok tt, w); ReleaseReplicaUpgrade := fun _ w => (Ok tt, w); ReleaseSectorKeyFiles := fun _ w => (Ok tt, w);
  sealerRemove := fun _ w => (Ok tt, w); DownloadSectorData := fun _ _ w => (Ok tt, w); AddPreCommit := fun _ _ _ w => (NotOk, w);
  AddCommit := fun _ _ _ w => (NotOk, w); AddTermination := fun _ w => (NotOk, w); clock := fun w => (1700000000000000000, w);
  sleepUntil := fun _ w => (Ok tt, w); contextErr := fun w => (false, w); stopTimer := fun _ w => (None, w); startTimer := fun _ _ w => w;
|}.

#[local] Existing Instance demoWorld.

Definition demoSealing : Sealing :=
  {| wld := tt; assigned := ∅; pending := ∅; openSecs := ∅; nextDealSector := None; available := ∅; replies := [] |}.

(** The steps of a sector until the given number of handlers has run. *)
Fixpoint drive (n : nat) (s : SectorInfo) (trace : list (SectorState * Event)) : option (list (SectorState * Event) * SectorInfo) :=
  match n with
  | O => Some (trace, s)
  | S n =>
      h ← handlerOf (State s);
      match runHandler 3 0 h s demoSealing with
      | (Ret (Some e), _) => x ← PlanIn demoEnv [e] s zeroSectorStats; drive n (po_state x.1) ((State s, e) :: trace)
      | _ => None
      end
  end.

Lemma drive_driven n s trace trace' s' : driven trace s -> drive n s trace = Some (trace', s') -> driven trace' s'.
Proof.
  revert s trace. induction n as [|n IH]; intros s trace Hd; cbn [drive]; [by intros [= <- <-]|].
  destruct (handlerOf (State s)) as [h|] eqn:Hh; cbn [mbind option_bind]; [|done].
  destruct (runHandler 3 0 h s demoSealing) as [[[e|]| |] w'] eqn:Hw; try done.
  destruct (PlanIn demoEnv [e] s zeroSectorStats) as [[o t]|] eqn:Hp; cbn [mbind option_bind fst]; [|done].
  apply IH. by eapply driven_handler.
Qed.


Lemma handlers_fit_planners_witness :
  exists visited s w' o, run (pipeline_event []) zeroSectorInfo visited s /\ State s = GetTicket /\
    runHandler 3 0 SealingPlan.handleGetTicket s demoSealing = (Ret (Some (SectorTicket (repeat 9 32) 2100)), w') /\
    planIn demoEnv [SectorTicket (repeat 9 32) 2100] s zeroSectorStats = Some o.
Proof.
  destruct (runBatches demoEnv [[SectorStartCC 7 8]; [SectorPacked []]] [State zeroSectorInfo] zeroSectorInfo zeroSectorStats)
    as [[visited s]|] eqn:Hr; [|exfalso; by vm_compute in Hr].
  assert (run (pipeline_event []) zeroSectorInfo visited s) as Hrun.
  { eapply runBatches_run; [|apply run_start|exact Hr]. intros events st He _. revert events He.
    apply (Forall_forall (fun events => Forall (pipeline_event [] st) events)). repeat constructor; apply not_elem_of_nil. }
  assert (State s = GetTicket) as Hs by (vm_compute in Hr; by injection Hr as _ <-).
  assert (exists w', runHandler 3 0 SealingPlan.handleGetTicket s demoSealing = (Ret (Some (SectorTicket (repeat 9 32) 2100)), w')) as [w' Hw]
    by (eexists; vm_compute in Hr; injection Hr as _ <-; by vm_compute).
  destruct (handlers_fit_planners 3 0 demoEnv zeroSectorStats visited s SealingPlan.handleGetTicket demoSealing (SectorTicket (repeat 9 32) 2100) w')
    as [_ [Href|(o & Ho & _)]]; [done|by rewrite Hs|done| |eauto 10].
  exfalso. revert Href. rewrite Hs. by apply (bool_decide_unpack _).
Defined.
