(* ===== verification/SealingReceive.v ===== *)
(** * Import of sectors: storage/pipeline/receive.go

    A sector that another service has sealed in part is checked against the chain and the proofs
    library, and enters the pipeline at the state it is in. *)

From stdpp Require Import gmap.
From S2P Require Import Prelude Pieces SealingTypes SealingEvents SealingStats SealingPlan SealingProps SealingSafety SealingApi SealingCommit SealingRuns.

(** [cid.Prefix] *)
Record Prefix := {
  pfx_Version : Z;
  pfx_Codec : Z;
  pfx_MhType : Z;
  pfx_MhLength : Z;
}.

Record RemoteSectorMeta := {
  meta_State : SectorState;
  meta_Sector : SectorID;
  meta_Type : Z;
  meta_Pieces : list SectorPiece;
  meta_TicketValue : bytes;
  meta_TicketEpoch : Z;
  meta_PreCommit1Out : bytes;
  meta_CommD : option Cid;
  meta_CommR : option Cid;
  meta_PreCommitDeposit : option Z;
  meta_PreCommitMessage : option Cid;
  meta_PreCommitTipSet : TipSetKey;
  meta_SeedValue : bytes;
  meta_SeedEpoch : Z;
  meta_CommitProof : bytes;
  meta_CommitMessage : option Cid;
  meta_DataUnsealed : option SectorLocation;
  meta_DataSealed : option SectorLocation;
  meta_DataCache : option SectorLocation;
  meta_RemoteCommit1Endpoint : string;
  meta_RemoteCommit2Endpoint : string;
  meta_RemoteSealingDoneEndpoint : string;
}.

(** What the import uses besides: the sectors of the pipeline, addresses, CIDs and URLs. *)
Class ReceiveWorld `{SealingWorld} := {
  minerID : outcome Z; (* [address.IDFromAddress(m.maddr)] *)
  GetSectorInfo : Z -> api world bool; (* whether there is such a sector *)
  sectorsHas : Z -> api world bool;
  sectorsSend : Z -> Event -> api world unit;
  cidPrefix : Cid -> Prefix;
  urlParse : string -> answer unit;
  RandomnessLength : Z;
  FilCommitmentUnsealed : Z;
  FilCommitmentSealed : Z;
  DagCBOR : Z;
  SHA2_256_TRUNC254_PADDED : Z;
  POSEIDON_BLS12_381_A1_FC1 : Z;
  BLAKE2B_MIN : Z;
}.

Definition set_RemoteDataUnsealed : option SectorLocation -> SectorInfo -> SectorInfo := ltac:(mk_setter RemoteDataUnsealed).
Definition set_RemoteDataSealed : option SectorLocation -> SectorInfo -> SectorInfo := ltac:(mk_setter RemoteDataSealed).
Definition set_RemoteDataCache : option SectorLocation -> SectorInfo -> SectorInfo := ltac:(mk_setter RemoteDataCache).
Definition set_RemoteCommit1Endpoint : string -> SectorInfo -> SectorInfo := ltac:(mk_setter RemoteCommit1Endpoint).
Definition set_RemoteCommit2Endpoint : string -> SectorInfo -> SectorInfo := ltac:(mk_setter RemoteCommit2Endpoint).
Definition set_RemoteSealingDoneEndpoint : string -> SectorInfo -> SectorInfo := ltac:(mk_setter RemoteSealingDoneEndpoint).
Definition set_RemoteDataFinalized : bool -> SectorInfo -> SectorInfo := ltac:(mk_setter RemoteDataFinalized).

Section receive.
Context `{PieceSizes} `{ReceiveWorld}.

Definition checkMessagePrefix (c : Cid) : bool :=
  let p := cidPrefix c in
  negb (negb (pfx_Version p =? 1) || negb (pfx_MhLength p =? 32) || negb (pfx_MhType p =? BLAKE2B_MIN + 31) || negb (pfx_Codec p =? DagCBOR)).

(** [if err := ...; err != nil { return SectorInfo{}, ... }] *)
Definition require (b : bool) (msg : string) : M unit := if b then mret tt else fail msg.

(** An endpoint that is set must be an URL. *)
Definition setEndpoint (endpoint : string) (set : string -> SectorInfo -> SectorInfo) (msg : string) (info : SectorInfo) : M SectorInfo :=
  if negb (bool_decide (endpoint = EmptyString)) then _ ⇐ mret (urlParse endpoint) orelse fail msg; mret (set endpoint info)
  else mret info.

(** [case GetTicket, Packing], which the later states fall through to. *)
Definition receivePacking (meta : RemoteSectorMeta) (validatePoRep : bool) (info : SectorInfo) : M SectorInfo :=
  let info := set_SectorType (meta_Type meta) (set_Pieces (meta_Pieces meta) (set_SectorNumber (meta_Sector meta).2
    (set_State ReceiveSector (set_Return (meta_State meta) info)))) in
  info ← setEndpoint (meta_RemoteSealingDoneEndpoint meta) set_RemoteSealingDoneEndpoint "parsing remote sealing-done endpoint url" info;
  err ← checkPieces (meta_Pieces meta) false;
  match err with
  | Some _ => fail "checking pieces"
  | None =>
      match meta_DataUnsealed meta with
      | None => fail "expected DataUnsealed to be set"
      | Some data =>
          let info := set_RemoteDataUnsealed (Some data) info in
          if (validatePoRep : bool) then
            commR ← derefM (meta_CommR meta);
            commD ← derefM (meta_CommD meta);
            ok ⇐ ask (VerifySeal (meta_Sector meta) commR (meta_Type meta) (meta_CommitProof meta) (meta_TicketValue meta) (meta_SeedValue meta) commD)
              orelse fail "validating seal proof";
            if negb ok then fail "seal proof invalid" else mret info
          else mret info
      end
  end.

Definition commDPrefix (c : Cid) : bool :=
  let p := cidPrefix c in
  negb (negb (pfx_Version p =? 1) || negb (pfx_Codec p =? FilCommitmentUnsealed) || negb (pfx_MhType p =? SHA2_256_TRUNC254_PADDED) || negb (pfx_MhLength p =? 32)).

Definition commRPrefix (c : Cid) : bool :=
  let p := cidPrefix c in
  negb (negb (pfx_Version p =? 1) || negb (pfx_Codec p =? FilCommitmentSealed) || negb (pfx_MhType p =? POSEIDON_BLS12_381_A1_FC1) || negb (pfx_MhLength p =? 32)).

(** [case PreCommitting] *)
Definition receivePreCommitting (meta : RemoteSectorMeta) (ts : Head) (validatePoRep : bool) (info : SectorInfo) : M SectorInfo :=
  _ ← require (len (meta_TicketValue meta) =? RandomnessLength) "ticket randomness had wrong length";
  maddrBuf ⇐ mret marshalAddress orelse fail "marshal miner address for ticket check";
  rand ⇐ ask (StateGetRandomnessFromTickets (meta_TicketEpoch meta) maddrBuf (hkey ts)) orelse fail "generating check ticket";
  _ ← require (bool_decide (rand = meta_TicketValue meta)) "provided and generated tickets differ";
  let info := set_PreCommit1Out (meta_PreCommit1Out meta) (set_TicketEpoch (meta_TicketEpoch meta) (set_TicketValue (meta_TicketValue meta) info)) in
  match meta_CommD meta, meta_CommR meta with
  | Some commD, Some commR =>
      _ ← require (commDPrefix commD) "CommD cid has wrong prefix";
      _ ← require (commRPrefix commR) "CommR cid has wrong prefix";
      let info := set_CommR (Some commR) (set_CommD (Some commD) info) in
      match meta_DataSealed meta, meta_DataCache meta with
      | None, _ => fail "expected DataSealed to be set"
      | _, None => fail "expected DataCache to be set"
      | Some dataSealed, Some dataCache =>
          let info := set_RemoteDataCache (Some dataCache) (set_RemoteDataSealed (Some dataSealed) info) in
          info ← setEndpoint (meta_RemoteCommit1Endpoint meta) set_RemoteCommit1Endpoint "parsing remote c1 endpoint url" info;
          info ← setEndpoint (meta_RemoteCommit2Endpoint meta) set_RemoteCommit2Endpoint "parsing remote c2 endpoint url" info;
          let info := if negb (bool_decide (RemoteCommit1Endpoint info = EmptyString)) then set_RemoteDataFinalized true info else info in
          receivePacking meta validatePoRep info
      end
  | _, _ => fail "both CommR/CommD cids need to be set for sectors in PreCommitting and later states"
  end.

(** [case SubmitCommit] *)
Definition receiveSubmitCommit (meta : RemoteSectorMeta) (ts : Head) (info : SectorInfo) : M SectorInfo :=
  match meta_PreCommitDeposit meta with
  | None => fail "sector PreCommitDeposit was null"
  | Some deposit =>
      let info := set_PreCommitTipSet (meta_PreCommitTipSet meta) (set_PreCommitDeposit deposit info) in
      info ← (match PreCommitMessage info with
              | None => mret info
              | Some _ =>
                  msg ← derefM (meta_PreCommitMessage meta);
                  _ ← require (checkMessagePrefix msg) "commit message prefix";
                  mret (set_PreCommitMessage (Some msg) info)
              end);
      _ ← require (len (meta_SeedValue meta) =? RandomnessLength) "seed randomness had wrong length";
      maddrBuf ⇐ mret marshalAddress orelse fail "marshal miner address for seed check";
      rand ⇐ ask (StateGetRandomnessFromBeacon (meta_SeedEpoch meta) maddrBuf (hkey ts)) orelse fail "generating check seed";
      _ ← require (bool_decide (rand = meta_SeedValue meta)) "provided and generated seeds differ";
      let info := set_PoRepProof (meta_CommitProof meta) (set_SeedEpoch (meta_SeedEpoch meta) (set_SeedValue (meta_SeedValue meta) info)) in
      receivePreCommitting meta ts true info
  end.

(** [case Proving, Available] *)
Definition receiveProving (meta : RemoteSectorMeta) (ts : Head) (info : SectorInfo) : M SectorInfo :=
  info ← (match meta_CommitMessage meta with
          | None => mret info
          | Some msg => _ ← require (checkMessagePrefix msg) "commit message prefix"; mret (set_CommitMessage (Some msg) info)
          end);
  receiveSubmitCommit meta ts info.

Definition checkSectorMeta (meta : RemoteSectorMeta) : M SectorInfo :=
  match minerID with
  | Ret mid =>
      _ ← require ((meta_Sector meta).1 =? mid) "sector for wrong actor";
      exists_ ⇐ ask (GetSectorInfo (meta_Sector meta).2) orelse fail "getting sector info";
      _ ← require (negb exists_) "sector already exists in the sealing pipeline";
      spt ⇐ currentSealProof orelse fail "getting seal proof type";
      _ ← require (meta_Type meta =? spt) "sector seal proof type doesn't match current seal proof type";
      ts ⇐ ask ChainHead orelse fail "getting chain head";
      let st := meta_State meta in
      if bool_decide (st = Proving \/ st = Available) then receiveProving meta ts zeroSectorInfo
      else if bool_decide (st = SubmitCommit) then receiveSubmitCommit meta ts zeroSectorInfo
      else if bool_decide (st = PreCommitting) then receivePreCommitting meta ts false zeroSectorInfo
      else if bool_decide (st = GetTicket \/ st = Packing) then receivePacking meta false zeroSectorInfo
      else fail "imported sector State in not supported"
  | _ => panic
  end.

Definition Receive (meta : RemoteSectorMeta) : M unit :=
  si ← checkSectorMeta meta;
  exists_ ⇐ ask (sectorsHas (meta_Sector meta).2) orelse fail "checking if sector exists";
  _ ← require (negb exists_) "sector state already exists";
  _ ⇐ ask (sectorsSend (meta_Sector meta).2 (SectorReceive si)) orelse fail "receiving sector";
  mret tt.
End receive.

(** ** What an import has checked *)

Section props.
Context `{PieceSizes} `{ReceiveWorld}.

Lemma yields_ask {A} (f : world -> A * world) : yields (fun a => exists w w', f w = (a, w')) (ask f).
Proof. intros s a s'. unfold ask. destruct (f (wld s)) as [a' w'] eqn:E. intros [= -> _]. eauto. Qed.

Lemma yields_require b msg : yields (fun _ => b = true) (require b msg).
Proof. destruct b; [by apply yields_ret|apply yields_fail]. Qed.

Lemma yields_deref {A} (o : option A) : yields (fun a => o = Some a) (derefM o).
Proof. destruct o; [by apply yields_ret|apply yields_panic]. Qed.

(** The chain gave the ticket of the sector, and its CIDs are those of replicas. *)
Definition ticketed (meta : RemoteSectorMeta) (info : SectorInfo) : Prop :=
  (exists commD commR, CommD info = Some commD /\ CommR info = Some commR /\ commDPrefix commD = true /\ commRPrefix commR = true) /\
  CommD info = meta_CommD meta /\ CommR info = meta_CommR meta /\ TicketValue info = meta_TicketValue meta /\
  exists buf tsk w w', marshalAddress = Ok buf /\ StateGetRandomnessFromTickets (TicketEpoch info) buf tsk w = (Ok (TicketValue info), w').

(** The chain gave the seed, and the proof of the sector was verified with both. *)
Definition seeded (meta : RemoteSectorMeta) (info : SectorInfo) : Prop :=
  SeedValue info = meta_SeedValue meta /\ PoRepProof info = meta_CommitProof meta /\
  exists buf tsk w w', marshalAddress = Ok buf /\ StateGetRandomnessFromBeacon (SeedEpoch info) buf tsk w = (Ok (SeedValue info), w').

Definition verified (meta : RemoteSectorMeta) : Prop :=
  exists commR commD w w', meta_CommR meta = Some commR /\ meta_CommD meta = Some commD /\
    VerifySeal (meta_Sector meta) commR (meta_Type meta) (meta_CommitProof meta) (meta_TicketValue meta) (meta_SeedValue meta) commD w = (Ok true, w').

Definition basics (meta : RemoteSectorMeta) (info : SectorInfo) : Prop :=
  State info = ReceiveSector /\ Return info = meta_State meta /\ SectorNumber info = (meta_Sector meta).2 /\
  Pieces info = meta_Pieces meta /\ SectorType info = meta_Type meta /\ is_Some (RemoteDataUnsealed info).

(** The fields that the checks of a state set are kept by those it falls through to. *)
Definition sameSeal (a b : SectorInfo) : Prop :=
  CommD b = CommD a /\ CommR b = CommR a /\ TicketValue b = TicketValue a /\ TicketEpoch b = TicketEpoch a /\
  SeedValue b = SeedValue a /\ SeedEpoch b = SeedEpoch a /\ PoRepProof b = PoRepProof a /\ PreCommitMessage b = PreCommitMessage a.

Lemma sameSeal_trans a b c : sameSeal a b -> sameSeal b c -> sameSeal a c.
Proof. unfold sameSeal. intuition congruence. Qed.

Lemma ticketed_same meta a b : sameSeal a b -> ticketed meta a -> ticketed meta b.
Proof. intros (E1 & E2 & E3 & E4 & _). unfold ticketed. by rewrite E1, E2, E3, E4. Qed.

Lemma seeded_same meta a b : sameSeal a b -> seeded meta a -> seeded meta b.
Proof. intros (_ & _ & _ & _ & E1 & E2 & E3 & _). unfold seeded. by rewrite E1, E2, E3. Qed.

Lemma setEndpoint_yields endpoint set msg info (Q : SectorInfo -> Prop) : Q info -> Q (set endpoint info) -> yields Q (setEndpoint endpoint set msg info).
Proof.
  intros Ha Hb. unfold setEndpoint. destruct (negb _); [|by apply yields_ret].
  apply yields_any. intros [[]|]; [by apply yields_ret|apply yields_fail].
Qed.

Lemma receivePacking_yields meta v info :
  yields (fun b => basics meta b /\ sameSeal info b /\ (v = true -> verified meta)) (receivePacking meta v info).
Proof.
  unfold receivePacking. set (info1 := set_SectorType _ _).
  eapply (yields_bind (fun b => sameSeal info b /\ State b = ReceiveSector /\ Return b = meta_State meta /\ SectorNumber b = (meta_Sector meta).2 /\
            Pieces b = meta_Pieces meta /\ SectorType b = meta_Type meta)).
  { apply setEndpoint_yields; by unfold sameSeal. }
  intros b (Hs & Hb). apply yields_any. intros [e|]; [apply yields_fail|]. destruct (meta_DataUnsealed meta) as [data|]; [|apply yields_fail].
  assert (basics meta (set_RemoteDataUnsealed (Some data) b) /\ sameSeal info (set_RemoteDataUnsealed (Some data) b)) as [Hb1 Hb2].
  { destruct Hb as (? & ? & ? & ? & ?). split; [by split_and!; [..|eexists]|done]. }
  destruct v; [|by apply yields_ret].
  eapply yields_bind; [apply yields_deref|]. intros commR HR. eapply yields_bind; [apply yields_deref|]. intros commD HD.
  eapply yields_bind; [apply yields_ask|]. intros [[]|] (w & w' & Hw); [|apply yields_fail..]. apply yields_ret. split; [done|]. split; [done|].
  intros _. by exists commR, commD, w, w'.
Qed.

(** One step of the checks: the outcome of a failing one is of no interest, a passing one leaves its fact. *)
Ltac check_step :=
  match goal with
  | |- yields _ (require _ _ ≫= _) => eapply yields_bind; [apply yields_require|intros ? ?]
  | |- yields _ (mret ?x ≫= _) => eapply (yields_bind (fun y => y = x)); [by apply yields_ret|intros ? ->]
  | |- yields _ (ask _ ≫= _) => eapply yields_bind; [apply yields_ask|intros ? (? & ? & ?)]
  | |- yields _ (fail _) => apply yields_fail
  | |- yields _ panic => apply yields_panic
  | |- yields _ (match ?x with _ => _ end) => destruct x eqn:?
  end.

Lemma endpoints_yields meta v e1 m1 e2 m2 info :
  yields (fun b => basics meta b /\ sameSeal info b /\ (v = true -> verified meta))
    (info0 ← setEndpoint e1 set_RemoteCommit1Endpoint m1 info;
     info1 ← setEndpoint e2 set_RemoteCommit2Endpoint m2 info0;
     receivePacking meta v (if negb (bool_decide (RemoteCommit1Endpoint info1 = EmptyString)) then set_RemoteDataFinalized true info1 else info1)).
Proof.
  eapply (yields_bind (sameSeal info)); [by apply setEndpoint_yields|]. intros i0 S0.
  eapply (yields_bind (sameSeal info)); [by apply setEndpoint_yields|]. intros i1 S1.
  eapply yields_mono; [apply receivePacking_yields|]. intros b (Hb & S2 & Hv). split; [done|]. split; [|done].
  eapply sameSeal_trans; [exact S1|]. by destruct (negb _).
Qed.

Lemma receivePreCommitting_yields meta ts v info :
  yields (fun b => basics meta b /\ ticketed meta b /\ (v = true -> verified meta) /\ (seeded meta info -> seeded meta b) /\
            PreCommitMessage b = PreCommitMessage info)
    (receivePreCommitting meta ts v info).
Proof.
  unfold receivePreCommitting. cbv zeta. repeat check_step.
  eapply yields_mono; [apply endpoints_yields|]. cbv beta in *. subst. intros b (Hb & S & Hv).
  match goal with H : bool_decide (_ = _) = true |- _ => apply bool_decide_eq_true in H; subst end.
  split; [done|]. split; [eapply ticketed_same; [exact S|]|].
  - split_and!; [eauto 10|done..|]. eauto 10.
  - split; [done|]. split; [|apply S]. intros Hs. by eapply seeded_same.
Qed.

Lemma receiveSubmitCommit_yields meta ts info : PreCommitMessage info = None ->
  yields (fun b => basics meta b /\ ticketed meta b /\ verified meta /\ seeded meta b /\ PreCommitMessage b = None)
    (receiveSubmitCommit meta ts info).
Proof.
  intros Hn. unfold receiveSubmitCommit. destruct (meta_PreCommitDeposit meta); [|apply yields_fail]. cbv zeta.
  change (PreCommitMessage (set_PreCommitTipSet _ _)) with (PreCommitMessage info). rewrite Hn. repeat check_step.
  eapply yields_mono; [apply receivePreCommitting_yields|]. cbv beta in *. subst. intros b (Hb & Ht & Hv & Hs & Hp).
  match goal with H : bool_decide (_ = _) = true |- _ => apply bool_decide_eq_true in H; subst end.
  split; [done|]. split; [done|]. split; [by apply Hv|]. split; [|by rewrite Hp].
  apply Hs. split; [done|]. split; [done|]. eauto 10.
Qed.

Lemma receiveProving_yields meta ts info : PreCommitMessage info = None ->
  yields (fun b => basics meta b /\ ticketed meta b /\ verified meta /\ seeded meta b /\ PreCommitMessage b = None)
    (receiveProving meta ts info).
Proof.
  intros Hn. unfold receiveProving. eapply (yields_bind (fun i => PreCommitMessage i = None)).
  - destruct (meta_CommitMessage meta); [|by apply yields_ret]. check_step. by apply yields_ret.
  - intros i Hi. by apply receiveSubmitCommit_yields.
Qed.

(** The states at which a sector can be imported. *)
Definition imported : list SectorState := [Packing; GetTicket; PreCommitting; SubmitCommit; Proving; Available].

Lemma checkSectorMeta_yields meta :
  yields (fun b => basics meta b /\ meta_State meta ∈ imported /\ PreCommitMessage b = None /\
            (meta_State meta ∈ [PreCommitting; SubmitCommit; Proving; Available] -> ticketed meta b) /\
            (meta_State meta ∈ [SubmitCommit; Proving; Available] -> seeded meta b /\ verified meta)) (checkSectorMeta meta).
Proof.
  unfold checkSectorMeta. destruct minerID; [|apply yields_panic..]. repeat check_step.
  apply yields_any. intros [spt|]; [|apply yields_fail]. cbv zeta. repeat check_step.
  all: repeat match goal with E : bool_decide _ = true |- _ => apply bool_decide_eq_true in E | E : bool_decide _ = false |- _ => apply bool_decide_eq_false in E end.
  - eapply yields_mono; [by apply receiveProving_yields|]. intros b (? & ? & ? & ? & ?). split_and!; try done. unfold imported. set_solver.
  - eapply yields_mono; [by apply receiveSubmitCommit_yields|]. intros b (? & ? & ? & ? & ?). split_and!; try done. unfold imported. set_solver.
  - eapply yields_mono; [by apply receivePreCommitting_yields|]. intros b (? & ? & _ & _ & ?). split_and!; try done; unfold imported; set_solver.
  - eapply yields_mono; [by apply receivePacking_yields|]. intros b (? & (? & ? & ? & ? & ? & ? & ? & Hp) & _). split_and!; try done; unfold imported; set_solver.
Qed.
End props.

(** A planner that takes the event gives the sector to the handler of its new state. *)
Lemma plan_dispatched env e s ss p (after : SectorInfo -> SectorInfo) h :
  plannerFor (State s) [e] = Some p ->
  (forall log, exists r, runPlanner (e_now env) p [e] (set_Log log s) = Some r /\ pr_err r = None /\
    (dispatch (pr_state r) (pr_processed r)).1.1 = (after (set_Log log s), Some h) /\ (dispatch (pr_state r) (pr_processed r)).2 = None) ->
  exists o log, planIn env [e] s ss = Some o /\ po_err o = None /\ po_state o = after (set_Log log s) /\ po_next o = Some h.
Proof.
  intros Hp Hr. unfold planIn, plan.
  destruct (logEvents_logged (e_now env) (e_marshal env) (e_formatTrace env) (e_typeName env) [e] s) as (log & -> & _).
  change (State (set_Log log s)) with (State s). rewrite Hp. destruct (Hr log) as (r & -> & He & Hd1 & Hd2). cbn [mbind option_bind]. rewrite He.
  destruct (onUpdateSector _ _ _ _ _) as [ss' upd]. destruct (dispatch _ _) as [[[after' next] n] err]. cbn in Hd1, Hd2. simplify_eq.
  by do 2 eexists.
Qed.

Lemma plan_receive env ss info : State info = ReceiveSector ->
  exists o, planIn env [SectorReceive info] zeroSectorInfo ss = Some o /\ po_err o = None /\
    po_state o = info /\ po_next o = Some SealingPlan.handleReceiveSector.
Proof.
  intros Hs. destruct (plan_dispatched env (SectorReceive info) zeroSectorInfo ss
    (PlanOne [on TSectorStart WaitDeals; on TSectorStartCC Packing; on TSectorReceive ReceiveSector])
    (fun _ => info) SealingPlan.handleReceiveSector) as (o & log & ?); [reflexivity| |eauto].
  intros log. destruct info; cbn in Hs; subst. by eexists.
Qed.

Lemma plan_received env ss info : State info = ReceiveSector -> Return info ∈ imported ->
  exists o, planIn env [SectorReceived] info ss = Some o /\ po_err o = None /\ State (po_state o) = Return info /\ po_next o = handlerOf (Return info).
Proof.
  intros Hs Hr. assert (exists h, handlerOf (Return info) = Some h) as [h Hh].
  { revert Hr. generalize (Return info). apply Forall_forall. repeat constructor; by eexists. }
  destruct (plan_dispatched env SectorReceived info ss (PlanOne [onReturning TSectorReceived])
    (fun s => set_Return EmptyString (set_State (Return info) s)) h) as (o & log & Ho & He & Hst & Hn).
  - by rewrite Hs.
  - intros log. destruct info; cbn in Hs, Hr, Hh |- *; subst. unfold imported in Hr. 
    repeat (apply elem_of_cons in Hr as [->|Hr]; [vm_compute in Hh; injection Hh as <-; by eexists|]). by apply not_elem_of_nil in Hr.
  - exists o. rewrite Hst, Hn, Hh. done.
Qed.

(** [C33] A sector that the import accepts was checked as its state requires, and enters the
    pipeline at that state: it is one of the six states a sector can be imported at; from
    PreCommitting on, its CIDs are those of a replica and the chain gave its ticket; from
    SubmitCommit on, the beacon gave its seed and the proofs library verified its proof.  The
    machine takes the import of it as a new sector and calls the handler that fetches the data,
    which can only post that the data are there, and that event brings the sector to its state
    and calls the handler of it. *)
Theorem received_sector `{PieceSizes} `{ReceiveWorld} env ss meta s info s' :
  checkSectorMeta meta s = (Ret info, s') ->
  basics meta info /\ meta_State meta ∈ imported /\
  (meta_State meta ∈ [PreCommitting; SubmitCommit; Proving; Available] -> ticketed meta info) /\
  (meta_State meta ∈ [SubmitCommit; Proving; Available] -> seeded meta info /\ verified meta) /\
  (exists o, planIn env [SectorReceive info] zeroSectorInfo ss = Some o /\ po_err o = None /\
    po_state o = info /\ po_next o = Some SealingPlan.handleReceiveSector) /\
  posts (fun e => e = SectorReceived) (handleReceiveSector info) /\
  exists o, planIn env [SectorReceived] info ss = Some o /\ po_err o = None /\
    State (po_state o) = meta_State meta /\ po_next o = handlerOf (meta_State meta).
Proof.
  intros E. apply checkSectorMeta_yields in E as (Hb & Hi & _ & Ht & Hv). destruct Hb as (Hs & Hr & Hb).
  split; [done|]. split; [done|]. split; [done|]. split; [done|]. split; [by apply plan_receive|].
  split; [unfold handleReceiveSector; handler|]. rewrite <- Hr in Hi |- *. by apply plan_received.
Qed.

(** The pre-commit message of an imported sector is dropped: the guard reads the sector that is
    being built and not the import. *)
Lemma precommit_message_dropped `{PieceSizes} `{ReceiveWorld} meta s info s' :
  checkSectorMeta meta s = (Ret info, s') -> PreCommitMessage info = None.
Proof. intros E. by apply checkSectorMeta_yields in E as (_ & _ & ? & _). Qed.

(** ** The import of a proven sector *)

#[local] Existing Instance demoWorld.

Definition demoReceive : ReceiveWorld := {|
  minerID := Ret 1000; GetSectorInfo := fun _ w => (Ok false, w); sectorsHas := fun _ w => (Ok false, w); sectorsSend := fun _ _ w => (Ok tt, w);
  cidPrefix := fun c => {| pfx_Version := 1; pfx_Codec := if bool_decide (c = "sealed"%string) then 0xf102 else 0xf101;
    pfx_MhType := if bool_decide (c = "sealed"%string) then 0xb401 else 0x1012; pfx_MhLength := 32 |};
  urlParse := fun _ => Ok tt; RandomnessLength := 32; FilCommitmentUnsealed := 0xf101; FilCommitmentSealed := 0xf102; DagCBOR := 0x71;
  SHA2_256_TRUNC254_PADDED := 0x1012; POSEIDON_BLS12_381_A1_FC1 := 0xb401; BLAKE2B_MIN := 0xb201;
|}.

#[local] Existing Instance demoReceive.

Definition demoMeta (st : SectorState) : RemoteSectorMeta :=
  let loc := Some {| Local := true; URL := "/data"; Headers := [] |} in
  {| meta_State := st; meta_Sector := (1000, 7); meta_Type := 8; meta_Pieces := []; meta_TicketValue := repeat 9 32; meta_TicketEpoch := 2100;
     meta_PreCommit1Out := []; meta_CommD := Some "unsealed"%string; meta_CommR := Some "sealed"%string; meta_PreCommitDeposit := Some 10;
     meta_PreCommitMessage := Some "msg"%string; meta_PreCommitTipSet := "head"; meta_SeedValue := repeat 7 32; meta_SeedEpoch := 2250;
     meta_CommitProof := [1; 2; 3]; meta_CommitMessage := None; meta_DataUnsealed := loc; meta_DataSealed := loc; meta_DataCache := loc;
     meta_RemoteCommit1Endpoint := EmptyString; meta_RemoteCommit2Endpoint := EmptyString; meta_RemoteSealingDoneEndpoint := EmptyString |}.

Lemma received_sector_witness : exists info s',
  checkSectorMeta (demoMeta Proving) demoSealing = (Ret info, s') /\
  CommR info = Some "sealed"%string /\ TicketValue info = repeat 9 32 /\ PreCommitMessage info = None /\
  exists o, planIn demoEnv [SectorReceived] info zeroSectorStats = Some o /\ State (po_state o) = Proving /\
    po_next o = Some SealingPlan.handleProvingSector.
Proof.
  destruct (checkSectorMeta (demoMeta Proving) demoSealing) as [[info| |] s'] eqn:E; [|exfalso; vm_compute in E; congruence..].
  exists info, s'. split; [done|]. split; [vm_compute in E; by injection E as <- <-|].
  split; [vm_compute in E; by injection E as <- <-|]. split; [vm_compute in E; by injection E as <- <-|].
  destruct (received_sector demoEnv zeroSectorStats (demoMeta Proving) demoSealing info s' E) as (_ & _ & _ & _ & _ & _ & o & Ho & _ & Hs & Hn).
  by exists o.
Defined.

(** A sector in a state that is none of the six is refused. *)
Lemma import_states :
  (fun st => match (checkSectorMeta (demoMeta st) demoSealing).1 with Ret i => Some (Return i) | _ => None end) <$> [Packing; PreCommitting; SubmitCommit; Available; CommitFailed] =
  [Some Packing; Some PreCommitting; Some SubmitCommit; Some Available; None].
Proof. vm_compute. done. Qed.
