(* ===== verification/Blockstore.v ===== *)
(** * Block stores: blockstore/{blockstore,mem,sync,buffered,union,idstore,discard,fallback,timed}.go

    A block store keeps blocks by the hash in their CID.  [Blockstore] is the interface of Go, a
    class with an operation per method that changes or reads the blocks; the stores that wrap
    other stores are instances over the instances they wrap.  CIDs and blocks are those of
    go-cid and go-block-format.  [AllKeysChan], [HashOnRead] and [Close] are left out. *)

From stdpp Require Import gmap.
From S2P Require Import Prelude.

Class CidOps := {
  cid : Type;
  cid_eq_dec :: EqDecision cid;
  cid_countable :: Countable cid;
  cidHash : cid -> bytes; (* [Hash], the multihash *)
  cidCodec : cid -> Z; (* [Prefix().Codec] *)
  cidMhType : cid -> Z; (* [Prefix().MhType] *)
  mhDecode : bytes -> outcome (Z * bytes); (* [multihash.Decode]: the code and the digest *)
  mhIdentity : Z; (* [multihash.IDENTITY] *)
}.

(** [basic] is that the block is a [*blocks.BasicBlock]. *)
Record Block `{CidOps} := {
  blockCid : cid;
  RawData : bytes;
  basic : bool;
}.

(** [blocks.NewBlockWithCid], whose error is only for debugging. *)
Class BlockOps `{CidOps} := {
  NewBlockWithCid : bytes -> cid -> Block;
}.

Class BlockOpsOk `{BlockOps} : Prop := {
  NewBlockWithCid_cid : forall data c, blockCid (NewBlockWithCid data c) = c;
  NewBlockWithCid_data : forall data c, RawData (NewBlockWithCid data c) = data;
}.

(** [type MemBlockstore map[string]blocks.Block] and [type unionBlockstore []Blockstore]. *)
Notation MemBlockstore := (gmap bytes Block).
Notation unionBlockstore := list (only parsing).

Section stores.
Context `{BlockOps}.

(** [ipld.ErrNotFound] and [ipld.IsNotFound] *)
Definition errNotFound : string := "ipld: could not find node".
Definition IsNotFound {A} (r : outcome A) : bool :=
  match r with Err e => bool_decide (e = errNotFound) | _ => false end.

(** ** The interface *)

(** The size comes with the error, since a caller looks at it before the error.  A callback of
    [View] works on its own state [X]. *)
Class Blockstore (S : Type) := {
  bs_Has : cid -> S -> outcome bool * S;
  bs_Get : cid -> S -> outcome Block * S;
  bs_GetSize : cid -> S -> (Z * outcome unit) * S;
  bs_View : forall {X}, cid -> (bytes -> X -> outcome unit * X) -> S -> X -> outcome unit * S * X;
  bs_Put : Block -> S -> outcome unit * S;
  bs_PutMany : list Block -> S -> outcome unit * S;
  bs_DeleteBlock : cid -> S -> outcome unit * S;
  bs_DeleteMany : list cid -> S -> outcome unit * S;
  bs_Flush : S -> outcome unit * S;
}.

(** The [blockstore.Blockstore] of boxo, without [View], [DeleteMany] and [Flush]. *)
Class BasicBlockstore (S : Type) := {
  bb_Has : cid -> S -> outcome bool * S;
  bb_Get : cid -> S -> outcome Block * S;
  bb_GetSize : cid -> S -> (Z * outcome unit) * S;
  bb_Put : Block -> S -> outcome unit * S;
  bb_PutMany : list Block -> S -> outcome unit * S;
  bb_DeleteBlock : cid -> S -> outcome unit * S;
  bb_Flush : option (S -> outcome unit * S); (* if the store is a [Flusher] *)
}.

(** ** blockstore/mem.go *)

Definition mem_Get (k : cid) (m : MemBlockstore) : outcome Block :=
  match m !! cidHash k with
  | None => Err errNotFound
  | Some b => Ret (if negb (cidCodec (blockCid b) =? cidCodec k) then NewBlockWithCid (RawData b) k else b)
  end.

Definition mem_Put (b : Block) (m : MemBlockstore) : MemBlockstore :=
  let k := cidHash (blockCid b) in
  if basic b then <[k := b]> m
  else
    match m !! k with
    | Some _ => m
    | None => <[k := NewBlockWithCid (RawData b) (blockCid b)]> m
    end.

#[export] Instance memBlockstore : Blockstore MemBlockstore := {|
  bs_Has := fun k m => (Ret (bool_decide (is_Some (m !! cidHash k))), m);
  bs_Get := fun k m => (mem_Get k m, m);
  bs_GetSize := fun k m =>
    match m !! cidHash k with
    | None => ((0, Err errNotFound), m)
    | Some b => ((len (RawData b), Ret tt), m)
    end;
  bs_View := fun X k callback m x =>
    match m !! cidHash k with
    | None => (Err errNotFound, m, x)
    | Some b => let '(r, x) := callback (RawData b) x in (r, m, x)
    end;
  bs_Put := fun b m => (Ret tt, mem_Put b m);
  bs_PutMany := fun bs m => (Ret tt, foldl (fun m b => mem_Put b m) m bs);
  bs_DeleteBlock := fun k m => (Ret tt, delete (cidHash k) m);
  bs_DeleteMany := fun ks m => (Ret tt, foldl (fun m k => delete (cidHash k) m) m ks);
  bs_Flush := fun m => (Ret tt, m);
|}.

(** ** blockstore/blockstore.go: the adapter of a store of boxo *)

Fixpoint adapted_DeleteMany {S} `{!BasicBlockstore S} (cids : list cid) (s : S) : outcome unit * S :=
  match cids with
  | [] => (Ret tt, s)
  | c :: cids =>
      match bb_DeleteBlock c s with
      | (Ret _, s) => adapted_DeleteMany cids s
      | (r, s) => (r, s)
      end
  end.

Record adaptedBlockstore (S : Type) := { adapted : S }.
Arguments adapted {S} _.
Arguments Build_adaptedBlockstore {S} _.

Definition lift {S T A} (wrap : S -> T) (r : A * S) : A * T := (r.1, wrap r.2).

#[export] Instance adaptBlockstore {S} `{!BasicBlockstore S} : Blockstore (adaptedBlockstore S) := {|
  bs_Has := fun c a => lift Build_adaptedBlockstore (bb_Has c (adapted a));
  bs_Get := fun c a => lift Build_adaptedBlockstore (bb_Get c (adapted a));
  bs_GetSize := fun c a => lift Build_adaptedBlockstore (bb_GetSize c (adapted a));
  bs_View := fun X c callback a x =>
    match bb_Get c (adapted a) with
    | (Ret blk, s) => let '(r, x) := callback (RawData blk) x in (r, Build_adaptedBlockstore s, x)
    | (Err e, s) => (Err e, Build_adaptedBlockstore s, x)
    | (Panic, s) => (Panic, Build_adaptedBlockstore s, x)
    end;
  bs_Put := fun b a => lift Build_adaptedBlockstore (bb_Put b (adapted a));
  bs_PutMany := fun b a => lift Build_adaptedBlockstore (bb_PutMany b (adapted a));
  bs_DeleteBlock := fun c a => lift Build_adaptedBlockstore (bb_DeleteBlock c (adapted a));
  bs_DeleteMany := fun cids a => lift Build_adaptedBlockstore (adapted_DeleteMany cids (adapted a));
  bs_Flush := fun a =>
    match bb_Flush with
    | Some flush => lift Build_adaptedBlockstore (flush (adapted a))
    | None => (Ret tt, a)
    end;
|}.

(** ** blockstore/buffered.go *)

Record BufferedBlockstore (R W : Type) := {
  read : R;
  write : W;
}.
Arguments read {R W} _.
Arguments write {R W} _.
Arguments Build_BufferedBlockstore {R W} _ _.

Definition NewTieredBstore {R W} (r : R) (w : W) : BufferedBlockstore R W := {| read := r; write := w |}.

(** [NewBuffered], with buffering enabled. *)
Definition NewBuffered {R} (base : R) : BufferedBlockstore R MemBlockstore := NewTieredBstore base ∅.

Section buffered.
Context {R W : Type} `{!Blockstore R} `{!Blockstore W}.
Implicit Types bs : BufferedBlockstore R W.

Definition onRead {A} (f : R -> A * R) bs : A * BufferedBlockstore R W :=
  let '(a, r) := f (read bs) in (a, {| read := r; write := write bs |}).
Definition onWrite {A} (f : W -> A * W) bs : A * BufferedBlockstore R W :=
  let '(a, w) := f (write bs) in (a, {| read := read bs; write := w |}).

Definition buf_Has (c : cid) bs : outcome bool * BufferedBlockstore R W :=
  match onWrite (bs_Has c) bs with
  | (Ret false, bs) => onRead (bs_Has c) bs
  | (r, bs) => (r, bs)
  end.

Definition buf_Get (c : cid) bs : outcome Block * BufferedBlockstore R W :=
  let '(r, bs) := onWrite (bs_Get c) bs in
  if IsNotFound r then onRead (bs_Get c) bs else (r, bs).

Definition buf_GetSize (c : cid) bs : (Z * outcome unit) * BufferedBlockstore R W :=
  let '((s, err), bs) := onRead (bs_GetSize c) bs in
  if IsNotFound err || (s =? 0) then onWrite (bs_GetSize c) bs else ((s, err), bs).

Definition buf_View {X} (c : cid) (callback : bytes -> X -> outcome unit * X) bs (x : X) : outcome unit * BufferedBlockstore R W * X :=
  let '(err, w, x) := bs_View c callback (write bs) x in
  if IsNotFound err then
    let '(err, r, x) := bs_View c callback (read bs) x in (err, {| read := r; write := w |}, x)
  else (err, {| read := read bs; write := w |}, x).

Definition buf_Put (blk : Block) bs : outcome unit * BufferedBlockstore R W :=
  match onRead (bs_Has (blockCid blk)) bs with
  | (Ret true, bs) => (Ret tt, bs)
  | (Ret false, bs) => onWrite (bs_Put blk) bs
  | (Err e, bs) => (Err e, bs)
  | (Panic, bs) => (Panic, bs)
  end.

Definition buf_DeleteBlock (c : cid) bs : outcome unit * BufferedBlockstore R W :=
  match onRead (bs_DeleteBlock c) bs with
  | (Ret _, bs) => onWrite (bs_DeleteBlock c) bs
  | (r, bs) => (r, bs)
  end.

Definition buf_DeleteMany (cids : list cid) bs : outcome unit * BufferedBlockstore R W :=
  match onRead (bs_DeleteMany cids) bs with
  | (Ret _, bs) => onWrite (bs_DeleteMany cids) bs
  | (r, bs) => (r, bs)
  end.

#[export] Instance bufferedBlockstore : Blockstore (BufferedBlockstore R W) := {|
  bs_Has := buf_Has; bs_Get := buf_Get; bs_GetSize := buf_GetSize; bs_View := @buf_View; bs_Put := buf_Put;
  bs_PutMany := fun blks => onWrite (bs_PutMany blks);
  bs_DeleteBlock := buf_DeleteBlock; bs_DeleteMany := buf_DeleteMany;
  bs_Flush := onWrite bs_Flush;
|}.
End buffered.

(** ** blockstore/sync.go: every method holds the lock *)

Record SyncBlockstore := { syncMem : MemBlockstore }.

#[export] Instance syncBlockstore : Blockstore SyncBlockstore := {|
  bs_Has := fun k m => lift Build_SyncBlockstore (bs_Has k (syncMem m));
  bs_Get := fun k m => lift Build_SyncBlockstore (bs_Get k (syncMem m));
  bs_GetSize := fun k m => lift Build_SyncBlockstore (bs_GetSize k (syncMem m));
  bs_View := fun X k callback m x => let '(r, s, x) := bs_View k callback (syncMem m) x in (r, Build_SyncBlockstore s, x);
  bs_Put := fun b m => lift Build_SyncBlockstore (bs_Put b (syncMem m));
  bs_PutMany := fun bs m => lift Build_SyncBlockstore (bs_PutMany bs (syncMem m));
  bs_DeleteBlock := fun k m => lift Build_SyncBlockstore (bs_DeleteBlock k (syncMem m));
  bs_DeleteMany := fun ks m => lift Build_SyncBlockstore (bs_DeleteMany ks (syncMem m));
  bs_Flush := fun m => (Ret tt, m);
|}.

(** ** blockstore/union.go *)

Section union.
Context {S : Type} `{!Blockstore S}.

(** The loop of the reads, until a store has the block or fails; [r] is the result so far. *)
Fixpoint firstFound {A} (f : S -> outcome A * S) (r : outcome A) (m : unionBlockstore S) : outcome A * unionBlockstore S :=
  match m with
  | [] => (r, [])
  | bs :: m =>
      let '(r, bs) := f bs in
      if IsNotFound r then let '(r, m) := firstFound f r m in (r, bs :: m) else (r, bs :: m)
  end.

Fixpoint union_Has (c : cid) (m : unionBlockstore S) : outcome bool * unionBlockstore S :=
  match m with
  | [] => (Ret false, [])
  | bs :: m =>
      match bs_Has c bs with
      | (Ret false, bs) => let '(r, m) := union_Has c m in (r, bs :: m)
      | (r, bs) => (r, bs :: m)
      end
  end.

Fixpoint union_GetSize (c : cid) (r : Z * outcome unit) (m : unionBlockstore S) : (Z * outcome unit) * unionBlockstore S :=
  match m with
  | [] => (r, [])
  | bs :: m =>
      let '(r, bs) := bs_GetSize c bs in
      if IsNotFound r.2 then let '(r, m) := union_GetSize c r m in (r, bs :: m) else (r, bs :: m)
  end.

Fixpoint union_View {X} (c : cid) (callback : bytes -> X -> outcome unit * X) (r : outcome unit) (m : unionBlockstore S) (x : X) :
    outcome unit * unionBlockstore S * X :=
  match m with
  | [] => (r, [], x)
  | bs :: m =>
      let '(r, bs, x) := bs_View c callback bs x in
      if IsNotFound r then let '(r, m, x) := union_View c callback r m x in (r, bs :: m, x) else (r, bs :: m, x)
  end.

(** The loop of the writes, until one fails. *)
Fixpoint broadcast (f : S -> outcome unit * S) (m : unionBlockstore S) : outcome unit * unionBlockstore S :=
  match m with
  | [] => (Ret tt, [])
  | bs :: m =>
      match f bs with
      | (Ret _, bs) => let '(r, m) := broadcast f m in (r, bs :: m)
      | (r, bs) => (r, bs :: m)
      end
  end.

(** A union of no stores gets a nil block and no error; [Panic] stands for the use of it. *)
#[export] Instance unionStore : Blockstore (unionBlockstore S) := {|
  bs_Has := union_Has;
  bs_Get := fun c => firstFound (bs_Get c) Panic;
  bs_GetSize := fun c => union_GetSize c (0, Ret tt);
  bs_View := fun X c callback => union_View c callback (Ret tt);
  bs_Put := fun blk => broadcast (bs_Put blk);
  bs_PutMany := fun blks => broadcast (bs_PutMany blks);
  bs_DeleteBlock := fun c => broadcast (bs_DeleteBlock c);
  bs_DeleteMany := fun cids => broadcast (bs_DeleteMany cids);
  bs_Flush := broadcast bs_Flush;
|}.
End union.

(** ** blockstore/idstore.go *)

(** The data of a CID that has them inline. *)
Definition decodeCid (c : cid) : outcome (option bytes) :=
  if negb (cidMhType c =? mhIdentity) then Ret None
  else
    '(code, digest) ← mhDecode (cidHash c);
    Ret (if code =? mhIdentity then Some digest else None).

Record idstore (S : Type) := { idbs : S }.
Arguments idbs {S} _.
Arguments Build_idstore {S} _.

Section identity.
Context {S : Type} `{!Blockstore S}.

Definition errDecode : string := "error decoding Cid".

(** The answer for inline data, or that of the store. *)
Definition inlineOr {A} (c : cid) (k : bytes -> outcome A) (f : S -> outcome A * S) (b : idstore S) : outcome A * idstore S :=
  match decodeCid c with
  | Err _ => (Err errDecode, b)
  | Panic => (Panic, b)
  | Ret (Some data) => (k data, b)
  | Ret None => lift Build_idstore (f (idbs b))
  end.

(** The loops of [PutMany] and [DeleteMany] over the CIDs: what is left for the store. *)
Fixpoint notInline {A} (key : A -> cid) (l : list A) : outcome (list A) :=
  match l with
  | [] => Ret []
  | a :: l =>
      match decodeCid (key a) with
      | Err _ => Err errDecode
      | Panic => Panic
      | Ret (Some _) => notInline key l
      | Ret None => rest ← notInline key l; Ret (a :: rest)
      end
  end.

Definition id_many {A} (key : A -> cid) (f : list A -> S -> outcome unit * S) (l : list A) (b : idstore S) : outcome unit * idstore S :=
  match notInline key l with
  | Err e => (Err e, b)
  | Panic => (Panic, b)
  | Ret [] => (Ret tt, b)
  | Ret toPut => lift Build_idstore (f toPut (idbs b))
  end.

#[export] Instance idBlockstore : Blockstore (idstore S) := {|
  bs_Has := fun c => inlineOr c (fun _ => Ret true) (bs_Has c);
  bs_Get := fun c => inlineOr c (fun data => Ret (NewBlockWithCid data c)) (bs_Get c);
  bs_GetSize := fun c b =>
    match decodeCid c with
    | Err _ => ((0, Err errDecode), b)
    | Panic => ((0, Panic), b)
    | Ret (Some data) => ((len data, Ret tt), b)
    | Ret None => lift Build_idstore (bs_GetSize c (idbs b))
    end;
  bs_View := fun X c cb b x =>
    match decodeCid c with
    | Err _ => (Err errDecode, b, x)
    | Panic => (Panic, b, x)
    | Ret (Some data) => let '(r, x) := cb data x in (r, b, x)
    | Ret None => let '(r, s, x) := bs_View c cb (idbs b) x in (r, Build_idstore s, x)
    end;
  bs_Put := fun blk => inlineOr (blockCid blk) (fun _ => Ret tt) (bs_Put blk);
  bs_PutMany := id_many blockCid bs_PutMany;
  bs_DeleteBlock := fun c => inlineOr c (fun _ => Ret tt) (bs_DeleteBlock c);
  bs_DeleteMany := id_many (fun c => c) bs_DeleteMany;
  bs_Flush := fun b => lift Build_idstore (bs_Flush (idbs b));
|}.
End identity.

(** ** blockstore/discard.go *)

Record discardstore (S : Type) := { kept : S }.
Arguments kept {S} _.
Arguments Build_discardstore {S} _.

#[export] Instance discardBlockstore {S} `{!Blockstore S} : Blockstore (discardstore S) := {|
  bs_Has := fun c b => lift Build_discardstore (bs_Has c (kept b));
  bs_Get := fun c b => lift Build_discardstore (bs_Get c (kept b));
  bs_GetSize := fun c b => lift Build_discardstore (bs_GetSize c (kept b));
  bs_View := fun X c f b x => let '(r, s, x) := bs_View c f (kept b) x in (r, Build_discardstore s, x);
  bs_Put := fun _ b => (Ret tt, b);
  bs_PutMany := fun _ b => (Ret tt, b);
  bs_DeleteBlock := fun _ b => (Ret tt, b);
  bs_DeleteMany := fun _ b => (Ret tt, b);
  bs_Flush := fun b => (Ret tt, b);
|}.

(** ** blockstore/fallback.go *)

(** [missFn] fetches a block from the network [N]; [laterFn] is what [SetFallback] sets while a
    reader waits for it to be set. *)
Record FallbackStore (S N : Type) := {
  fallbackBs : S;
  missFn : option (cid -> N -> outcome Block * N);
  laterFn : option (cid -> N -> outcome Block * N);
  network : N;
}.
Arguments fallbackBs {S N} _.
Arguments missFn {S N} _.
Arguments laterFn {S N} _.
Arguments network {S N} _.

Section fallback.
Context {S N : Type} `{!Blockstore S}.
Implicit Types fbs : FallbackStore S N.

Definition SetFallback (f : cid -> N -> outcome Block * N) fbs : FallbackStore S N :=
  {| fallbackBs := fallbackBs fbs; missFn := Some f; laterFn := laterFn fbs; network := network fbs |}.

Definition onLocal {A} (f : S -> A * S) fbs : A * FallbackStore S N :=
  let '(a, s) := f (fallbackBs fbs) in
  (a, {| fallbackBs := s; missFn := missFn fbs; laterFn := laterFn fbs; network := network fbs |}).

(** The block from the network, which is kept. *)
Definition fetch (f : cid -> N -> outcome Block * N) (c : cid) fbs : outcome Block * FallbackStore S N :=
  let '(r, n) := f c (network fbs) in
  let fbs := {| fallbackBs := fallbackBs fbs; missFn := missFn fbs; laterFn := laterFn fbs; network := n |} in
  match r with
  | Ret b =>
      match onLocal (bs_Put b) fbs with
      | (Ret _, fbs) => (Ret b, fbs)
      | (Err e, fbs) => (Err (if bool_decide (e = errNotFound) then errNotFound else "persisting fallback-fetched block"), fbs)
      | (Panic, fbs) => (Panic, fbs)
      end
  | Err e => (Err e, fbs)
  | Panic => (Panic, fbs)
  end.

Definition getFallback (c : cid) fbs : outcome Block * FallbackStore S N :=
  match missFn fbs with
  | Some f => fetch f c fbs
  | None =>
      match laterFn fbs with
      | Some f => fetch f c (SetFallback f fbs)
      | None => (Err errNotFound, fbs)
      end
  end.

Definition fb_Get (c : cid) fbs : outcome Block * FallbackStore S N :=
  let '(r, fbs) := onLocal (bs_Get c) fbs in
  if IsNotFound r then getFallback c fbs else (r, fbs).

Definition fb_GetSize (c : cid) fbs : (Z * outcome unit) * FallbackStore S N :=
  let '((sz, err), fbs) := onLocal (bs_GetSize c) fbs in
  if IsNotFound err then
    match getFallback c fbs with
    | (Ret b, fbs) => ((len (RawData b), Ret tt), fbs)
    | (Err e, fbs) => ((0, Err e), fbs)
    | (Panic, fbs) => ((0, Panic), fbs)
    end
  else ((sz, err), fbs).

#[export] Instance fallbackBlockstore : Blockstore (FallbackStore S N) := {|
  bs_Has := fun c => onLocal (bs_Has c); bs_Get := fb_Get; bs_GetSize := fb_GetSize;
  bs_View := fun X c callback fbs x =>
    let '(r, s, x) := bs_View c callback (fallbackBs fbs) x in
    (r, {| fallbackBs := s; missFn := missFn fbs; laterFn := laterFn fbs; network := network fbs |}, x);
  bs_Put := fun b => onLocal (bs_Put b); bs_PutMany := fun bs => onLocal (bs_PutMany bs);
  bs_DeleteBlock := fun c => onLocal (bs_DeleteBlock c); bs_DeleteMany := fun cs => onLocal (bs_DeleteMany cs);
  bs_Flush := onLocal bs_Flush;
|}.
End fallback.

(** ** blockstore/timed.go *)

(** [closeCh] is nil, or a channel that is closed or not. *)
Record TimedCacheBlockstore := {
  active : MemBlockstore;
  inactive : MemBlockstore;
  closeCh : option bool;
}.

Definition NewTimedCacheBlockstore : TimedCacheBlockstore := {| active := ∅; inactive := ∅; closeCh := None |}.

(** Starts the ticks, at each of which the stores are rotated. *)
Definition Start (t : TimedCacheBlockstore) : outcome unit * TimedCacheBlockstore :=
  match closeCh t with
  | Some _ => (Err "already started", t)
  | None => (Ret tt, {| active := active t; inactive := inactive t; closeCh := Some false |})
  end.

Definition Stop (t : TimedCacheBlockstore) : outcome unit * TimedCacheBlockstore :=
  match closeCh t with
  | None => (Err "not started", t)
  | Some _ => (Ret tt, {| active := active t; inactive := inactive t; closeCh := Some true |})
  end.

Definition rotate (t : TimedCacheBlockstore) : TimedCacheBlockstore :=
  {| active := ∅; inactive := active t; closeCh := closeCh t |}.

Definition timed_Get (k : cid) (t : TimedCacheBlockstore) : outcome Block :=
  let r := mem_Get k (active t) in if IsNotFound r then mem_Get k (inactive t) else r.

(** The errors of the memory stores are nil, and so is their combination. *)
#[export] Instance timedBlockstore : Blockstore TimedCacheBlockstore := {|
  bs_Has := fun k t =>
    match (bs_Has k (active t)).1 with
    | Ret false => ((bs_Has k (inactive t)).1, t)
    | r => (r, t)
    end;
  bs_Get := fun k t => (timed_Get k t, t);
  bs_GetSize := fun k t =>
    let '(size, err) := (bs_GetSize k (active t)).1 in
    if IsNotFound err then ((bs_GetSize k (inactive t)).1, t) else ((size, err), t);
  bs_View := fun X k callback t x =>
    match timed_Get k t with
    | Ret b => let '(r, x) := callback (RawData b) x in (r, t, x)
    | Err e => (Err e, t, x)
    | Panic => (Panic, t, x)
    end;
  bs_Put := fun b t => lift (fun m => {| active := m; inactive := inactive t; closeCh := closeCh t |}) (bs_Put b (active t));
  bs_PutMany := fun bs t => lift (fun m => {| active := m; inactive := inactive t; closeCh := closeCh t |}) (bs_PutMany bs (active t));
  bs_DeleteBlock := fun k t =>
    (Ret tt, {| active := (bs_DeleteBlock k (active t)).2; inactive := (bs_DeleteBlock k (inactive t)).2; closeCh := closeCh t |});
  bs_DeleteMany := fun ks t =>
    (Ret tt, {| active := (bs_DeleteMany ks (active t)).2; inactive := (bs_DeleteMany ks (inactive t)).2; closeCh := closeCh t |});
  bs_Flush := fun t => (Ret tt, t);
|}.
End stores.

Arguments adapted {S} _.
Arguments Build_adaptedBlockstore {S} _.
Arguments read {R W} _.
Arguments write {R W} _.
Arguments Build_BufferedBlockstore {R W} _ _.
Arguments idbs {S} _.
Arguments Build_idstore {S} _.
Arguments kept {S} _.
Arguments Build_discardstore {S} _.
Arguments fallbackBs {_ S N} _.
Arguments missFn {_ S N} _.
Arguments laterFn {_ S N} _.
Arguments network {_ S N} _.
