(* ===== verification/BlockstoreProps.v ===== *)
(** * Theorems on the block stores

    The blocks are content-addressed: [content] is the data of a hash, and a store of valid
    blocks is a finite set of hashes.  [BlockstoreOk] states what a store promises to the
    stores that wrap it, calls that fail included; each wrapper keeps the promise, so that a
    stack of them does. *)

From stdpp Require Import gmap.
From S2P Require Import Prelude Blockstore.

Section content.
Context `{BlockOpsOk} (content : bytes -> bytes).

Definition valid (b : Block) : Prop := RawData b = content (cidHash (blockCid b)).

(** ** The promise *)

Definition failed {A} (r : outcome A) : Prop := exists e, r = Err e /\ e <> errNotFound.

Definition hashes (bs : list Block) : gset bytes := list_to_set ((fun b => cidHash (blockCid b)) <$> bs).
Definition cidHashes (cs : list cid) : gset bytes := list_to_set (cidHash <$> cs).

Arguments hashes : simpl never.
Arguments cidHashes : simpl never.

(** What the reads of a set [d] of hashes answer. *)
Definition has_answer (d : gset bytes) (c : cid) (r : outcome bool) : Prop := r = Ret (bool_decide (cidHash c ∈ d)) \/ failed r.

Definition get_answer (d : gset bytes) (c : cid) (r : outcome Block) : Prop :=
  (cidHash c ∈ d /\ exists b, r = Ret b /\ valid b /\ cidHash (blockCid b) = cidHash c) \/ (cidHash c ∉ d /\ r = Err errNotFound) \/ failed r.

(** The writes: all of [ds] is added or removed; a failed one may have done a part. *)
Definition put_effect (d ds : gset bytes) (r : outcome unit) (d' : gset bytes) : Prop :=
  (r = Ret tt /\ d' = d ∪ ds) \/ (failed r /\ d ⊆ d' /\ d' ⊆ d ∪ ds).

Definition delete_effect (d ds : gset bytes) (r : outcome unit) (d' : gset bytes) : Prop :=
  (r = Ret tt /\ d' = d ∖ ds) \/ (failed r /\ d ∖ ds ⊆ d' /\ d' ⊆ d).

(** A callback that does not itself report a missing block is called once if the block is there. *)
Definition view_effect {X : Type} (d : gset bytes) (c : cid) (callback : bytes -> X -> outcome unit * X) (x : X) (r : outcome unit) (x' : X) : Prop :=
  (cidHash c ∈ d /\ (r, x') = callback (content (cidHash c)) x) \/ (cidHash c ∉ d /\ r = Err errNotFound /\ x' = x) \/ (failed r /\ x' = x).

Class BlockstoreOk (S : Type) `{!Blockstore S} := {
  bs_dom : cid -> Prop; (* the CIDs that are stored *)
  bs_inv : S -> Prop;
  bs_set : S -> gset bytes;
  Has_ok c s : bs_inv s -> bs_dom c ->
    bs_inv (bs_Has c s).2 /\ bs_set (bs_Has c s).2 = bs_set s /\ has_answer (bs_set s) c (bs_Has c s).1;
  Get_ok c s : bs_inv s -> bs_dom c ->
    bs_inv (bs_Get c s).2 /\ bs_set (bs_Get c s).2 = bs_set s /\ get_answer (bs_set s) c (bs_Get c s).1;
  View_ok X c (callback : bytes -> X -> outcome unit * X) s x : bs_inv s -> bs_dom c -> (forall d y, IsNotFound (callback d y).1 = false) ->
    bs_inv (bs_View c callback s x).1.2 /\ bs_set (bs_View c callback s x).1.2 = bs_set s /\
    view_effect (bs_set s) c callback x (bs_View c callback s x).1.1 (bs_View c callback s x).2;
  Put_ok b s : bs_inv s -> bs_dom (blockCid b) -> valid b ->
    bs_inv (bs_Put b s).2 /\ put_effect (bs_set s) {[cidHash (blockCid b)]} (bs_Put b s).1 (bs_set (bs_Put b s).2);
  PutMany_ok bs s : bs_inv s -> Forall (fun b => bs_dom (blockCid b) /\ valid b) bs ->
    bs_inv (bs_PutMany bs s).2 /\ put_effect (bs_set s) (hashes bs) (bs_PutMany bs s).1 (bs_set (bs_PutMany bs s).2);
  DeleteBlock_ok c s : bs_inv s -> bs_dom c ->
    bs_inv (bs_DeleteBlock c s).2 /\ delete_effect (bs_set s) {[cidHash c]} (bs_DeleteBlock c s).1 (bs_set (bs_DeleteBlock c s).2);
  DeleteMany_ok cs s : bs_inv s -> Forall bs_dom cs ->
    bs_inv (bs_DeleteMany cs s).2 /\ delete_effect (bs_set s) (cidHashes cs) (bs_DeleteMany cs s).1 (bs_set (bs_DeleteMany cs s).2);
  Flush_ok s : bs_inv s -> bs_inv (bs_Flush s).2 /\ bs_set (bs_Flush s).2 = bs_set s /\ ((bs_Flush s).1 = Ret tt \/ failed (bs_Flush s).1);
}.

(** ** Effects *)

Lemma hashes_cons b bs : hashes (b :: bs) = {[cidHash (blockCid b)]} ∪ hashes bs.
Proof. done. Qed.

Lemma cidHashes_cons c cs : cidHashes (c :: cs) = {[cidHash c]} ∪ cidHashes cs.
Proof. done. Qed.

Lemma failed_not_found {A} (r : outcome A) : failed r -> IsNotFound r = false.
Proof. intros (e & -> & He). cbn. by rewrite bool_decide_eq_false_2. Qed.

Lemma put_effect_trans d ds1 ds2 r d1 d2 : put_effect d ds1 (Ret tt) d1 -> put_effect d1 ds2 r d2 -> put_effect d (ds1 ∪ ds2) r d2.
Proof.
  intros [[_ ->]|[(e & ? & _) _]] [[-> ->]|(Hf & I1 & I2)]; [|right; split; [done|set_solver]|done|done].
  left. split; [done|set_solver].
Qed.

Lemma put_effect_failed d ds1 ds2 r d1 : put_effect d ds1 r d1 -> failed r -> put_effect d (ds1 ∪ ds2) r d1.
Proof. intros [[-> _]|(Hf & I1 & I2)] Hr; [by destruct Hr as (? & ? & _)|right; set_solver]. Qed.

Lemma delete_effect_trans d ds1 ds2 r d1 d2 : delete_effect d ds1 (Ret tt) d1 -> delete_effect d1 ds2 r d2 -> delete_effect d (ds1 ∪ ds2) r d2.
Proof.
  intros [[_ ->]|[(e & ? & _) _]] [[-> ->]|(Hf & I1 & I2)]; [|right; split; [done|set_solver]|done|done].
  left. split; [done|set_solver].
Qed.

Lemma delete_effect_failed d ds1 ds2 r d1 : delete_effect d ds1 r d1 -> failed r -> delete_effect d (ds1 ∪ ds2) r d1.
Proof. intros [[-> _]|(Hf & I1 & I2)] Hr; [by destruct Hr as (? & ? & _)|right; set_solver]. Qed.

(** ** Memory stores *)

Definition mem_inv (m : MemBlockstore) : Prop := map_Forall (fun k b => cidHash (blockCid b) = k /\ valid b) m.

Lemma mem_Put_ok b m : mem_inv m -> valid b -> mem_inv (mem_Put b m) /\ dom (mem_Put b m) = dom m ∪ {[cidHash (blockCid b)]}.
Proof.
  intros Hm Hb. unfold mem_Put. destruct (basic b).
  - split; [by apply map_Forall_insert_2|rewrite dom_insert_L; set_solver].
  - destruct (m !! cidHash (blockCid b)) eqn:E; [split; [done|apply elem_of_dom_2 in E; set_solver]|].
    split; [|rewrite dom_insert_L; set_solver]. apply map_Forall_insert_2; [|done]. unfold valid. by rewrite NewBlockWithCid_cid, NewBlockWithCid_data.
Qed.

Lemma mem_PutMany_ok bs m :
  mem_inv m -> Forall valid bs -> mem_inv (foldl (fun m b => mem_Put b m) m bs) /\ dom (foldl (fun m b => mem_Put b m) m bs) = dom m ∪ hashes bs.
Proof.
  revert m. induction bs as [|b bs IH]; intros m Hm Hbs; cbn [foldl]; [split; [done|set_solver]|].
  apply Forall_cons in Hbs as [Hb Hbs]. destruct (mem_Put_ok b m Hm Hb) as [I1 I2].
  destruct (IH _ I1 Hbs) as [I3 I4]. split; [done|]. rewrite I4, I2, hashes_cons. set_solver.
Qed.

Lemma mem_DeleteMany_ok (cs : list cid) (m : MemBlockstore) :
  mem_inv m -> mem_inv (foldl (fun m k => delete (cidHash k) m) m cs) /\ dom (foldl (fun m k => delete (cidHash k) m) m cs) = dom m ∖ cidHashes cs.
Proof.
  revert m. induction cs as [|c cs IH]; intros m Hm; cbn [foldl]; [split; [done|set_solver]|].
  destruct (IH (delete (cidHash c) m)) as [I1 I2]; [by apply map_Forall_delete|]. split; [done|]. rewrite I2, cidHashes_cons, dom_delete_L. set_solver.
Qed.

Lemma mem_Get_ok k m : mem_inv m -> get_answer (dom m) k (mem_Get k m).
Proof.
  intros Hm. unfold mem_Get, get_answer. destruct (m !! cidHash k) as [b|] eqn:E; [left|right; left; split; [by apply not_elem_of_dom|done]].
  split; [by eapply elem_of_dom_2|]. destruct (Hm _ _ E) as [Hk Hb]. eexists. split; [done|].
  case_match; [|done]. unfold valid in *. rewrite NewBlockWithCid_cid, NewBlockWithCid_data. split; [congruence|done].
Qed.

#[export, program] Instance memOk : BlockstoreOk MemBlockstore := {| bs_dom _ := True; bs_inv := mem_inv; bs_set := dom |}.
Next Obligation. intros c m Hm _. split_and!; [done..|]. left. cbn. f_equal. apply bool_decide_ext. by rewrite elem_of_dom. Qed.
Next Obligation. intros c m Hm _. split_and!; [done..|]. by apply mem_Get_ok. Qed.
Next Obligation.
  intros X c cb m x Hm _ Hcb. unfold view_effect. cbn. destruct (m !! cidHash c) as [b|] eqn:E.
  - destruct (Hm _ _ E) as [Hk Hb]. unfold valid in Hb. rewrite Hk in Hb. rewrite Hb.
    destruct (cb (content (cidHash c)) x) as [r x'] eqn:Ec. cbn. split_and!; [done..|]. left. split; [by eapply elem_of_dom_2|done].
  - split_and!; [done..|]. right. left. split; [by apply not_elem_of_dom|done].
Qed.
Next Obligation. intros b m Hm _ Hb. destruct (mem_Put_ok b m Hm Hb). split; [done|by left]. Qed.
Next Obligation.
  intros bs m Hm Hbs. destruct (mem_PutMany_ok bs m Hm) as [? ?]; [|by split; [|left]].
  eapply Forall_impl; [done|]. by intros ? [_ ?].
Qed.
Next Obligation. intros c m Hm _. split; [by apply map_Forall_delete|left]. cbn. split; [done|by rewrite dom_delete_L]. Qed.
Next Obligation. intros cs m Hm _. destruct (mem_DeleteMany_ok cs m Hm). split; [done|by left]. Qed.
Next Obligation. intros m Hm. split_and!; [done..|by left]. Qed.

(** ** Buffered stores *)

Section buffered.
Context {R W : Type} `{!Blockstore R} `{!Blockstore W} `{!BlockstoreOk R} `{!BlockstoreOk W}.
Implicit Types bs : BufferedBlockstore R W.

Definition buf_dom (c : cid) : Prop := bs_dom (S := R) c /\ bs_dom (S := W) c.
Definition buf_inv bs : Prop := bs_inv (read bs) /\ bs_inv (write bs).
Definition buf_set bs : gset bytes := bs_set (read bs) ∪ bs_set (write bs).

Lemma buf_Has_ok c bs : buf_inv bs -> buf_dom c ->
  buf_inv (buf_Has c bs).2 /\ buf_set (buf_Has c bs).2 = buf_set bs /\ has_answer (buf_set bs) c (buf_Has c bs).1.
Proof.
  destruct bs as [r w]. intros [Ir Iw] [Dr Dw]. unfold buf_Has, onRead, onWrite, buf_inv, buf_set. cbn in *.
  destruct (Has_ok c w Iw Dw) as (Iw' & Sw & Aw), (Has_ok c r Ir Dr) as (Ir' & Sr & Ar).
  destruct (bs_Has c w) as [aw w'], (bs_Has c r) as [ar r'] eqn:Er; cbn in *.
  destruct Aw as [->|(e & -> & He)]; [|split_and!; [done..|by f_equal|right; by eexists]].
  case_bool_decide as Ew; [split_and!; [done..|by f_equal|left; cbn; by rewrite bool_decide_eq_true_2 by set_solver]|].
  cbn. rewrite Er. cbn. split_and!; [done..|congruence|]. destruct Ar as [->|?]; [left|by right]. f_equal. apply bool_decide_ext. set_solver.
Qed.

Lemma buf_Get_ok c bs : buf_inv bs -> buf_dom c ->
  buf_inv (buf_Get c bs).2 /\ buf_set (buf_Get c bs).2 = buf_set bs /\ get_answer (buf_set bs) c (buf_Get c bs).1.
Proof.
  destruct bs as [r w]. intros [Ir Iw] [Dr Dw]. unfold buf_Get, onRead, onWrite, buf_inv, buf_set. cbn in *.
  destruct (Get_ok c w Iw Dw) as (Iw' & Sw & Aw), (Get_ok c r Ir Dr) as (Ir' & Sr & Ar).
  destruct (bs_Get c w) as [aw w'], (bs_Get c r) as [ar r'] eqn:Er; cbn in *.
  destruct Aw as [(Hin & b & -> & Hb)|[[Hin ->]|Hf]].
  - cbn; split_and!; [done..|by f_equal|]. left. split; [set_solver|eauto].
  - cbn. rewrite bool_decide_eq_true_2, Er by done. cbn. split_and!; [done..|congruence|]. destruct Ar as [[? ?]|[[? ?]|?]]; [left|right; left|by right; right]; (split; [set_solver|done]).
  - rewrite (failed_not_found _ Hf). cbn; split_and!; [done..|by f_equal|by right; right].
Qed.

Lemma buf_View_ok (X : Type) c (callback : bytes -> X -> outcome unit * X) bs x :
  buf_inv bs -> buf_dom c -> (forall d y, IsNotFound (callback d y).1 = false) ->
  buf_inv (buf_View c callback bs x).1.2 /\ buf_set (buf_View c callback bs x).1.2 = buf_set bs /\
  view_effect (buf_set bs) c callback x (buf_View c callback bs x).1.1 (buf_View c callback bs x).2.
Proof.
  destruct bs as [r w]. intros [Ir Iw] [Dr Dw] Hcb. unfold buf_View, buf_inv, buf_set. cbn in *.
  destruct (View_ok X c callback w x Iw Dw Hcb) as (Iw' & Sw & Aw), (View_ok X c callback r x Ir Dr Hcb) as (Ir' & Sr & Ar).
  destruct (bs_View c callback w x) as [[aw w'] xw]. cbn in *.
  destruct Aw as [[Hin Hc]|[(Hin & -> & ->)|[Hf ->]]].
  - specialize (Hcb (content (cidHash c)) x). rewrite <- Hc in Hcb. cbn in Hcb. rewrite Hcb. cbn; split_and!; [done..|by f_equal|].
    left. split; [set_solver|done].
  - cbn. rewrite bool_decide_eq_true_2 by done. destruct (bs_View c callback r x) as [[ar r'] xr]; cbn in *.
    cbn; split_and!; [done..|congruence|]. destruct Ar as [[? ?]|[[? ?]|?]]; [left|right; left|by right; right]; (split; [set_solver|done]).
  - rewrite (failed_not_found _ Hf). cbn; split_and!; [done..|by f_equal|by right; right].
Qed.

Lemma buf_Put_ok b bs : buf_inv bs -> buf_dom (blockCid b) -> valid b ->
  buf_inv (buf_Put b bs).2 /\ put_effect (buf_set bs) {[cidHash (blockCid b)]} (buf_Put b bs).1 (buf_set (buf_Put b bs).2).
Proof.
  destruct bs as [r w]. intros [Ir Iw] [Dr Dw] Hb. unfold buf_Put, onRead, onWrite, buf_inv, buf_set. cbn in *.
  destruct (Has_ok (blockCid b) r Ir Dr) as (Ir' & Sr & Ar), (Put_ok b w Iw Dw Hb) as (Iw' & Aw).
  destruct (bs_Has (blockCid b) r) as [ar r'], (bs_Put b w) as [aw w'] eqn:Ew; cbn in *.
  destruct Ar as [->|(e & -> & He)]; [|split; [done|right; split; [by eexists|cbn; rewrite Sr; set_solver]]].
  case_bool_decide as Er; cbn; rewrite ?Ew; cbn; (split; [done|]).
  - left. split; [done|]. rewrite Sr. set_solver.
  - rewrite Sr. destruct Aw as [[-> ->]|(? & ? & ?)]; [left; split; [done|set_solver]|right; split; [done|set_solver]].
Qed.

Lemma buf_PutMany_ok blks bs : buf_inv bs -> Forall (fun b => buf_dom (blockCid b) /\ valid b) blks ->
  buf_inv (bs_PutMany blks bs).2 /\ put_effect (buf_set bs) (hashes blks) (bs_PutMany blks bs).1 (buf_set (bs_PutMany blks bs).2).
Proof.
  destruct bs as [r w]. intros [Ir Iw] Hb. unfold buf_inv, buf_set. cbn. unfold onWrite. cbn in *.
  destruct (PutMany_ok blks w Iw) as (Iw' & Aw); [eapply Forall_impl; [done|]; by intros ? [[_ ?] ?]|].
  destruct (bs_PutMany blks w) as [aw w']; cbn in *. split; [done|].
  destruct Aw as [[-> ->]|(? & ? & ?)]; [left; split; [done|set_solver]|right; split; [done|set_solver]].
Qed.

(** A deletion in both stores, one after the other. *)
Lemma delete_both dr ds dw ar aw dr' dw' :
  delete_effect dr ds ar dr' -> delete_effect dw ds aw dw' ->
  (ar = Ret tt -> delete_effect (dr ∪ dw) ds aw (dr' ∪ dw')) /\ (failed ar -> delete_effect (dr ∪ dw) ds ar (dr' ∪ dw)).
Proof.
  intros Er Ew. split.
  - intros ->. destruct Er as [[_ ->]|[(? & ? & _) _]]; [|done].
    destruct Ew as [[-> ->]|(? & ? & ?)]; [left; split; [done|set_solver]|right; split; [done|set_solver]].
  - intros Hf. destruct Er as [[-> _]|(_ & ? & ?)]; [by destruct Hf as (? & ? & _)|]. right. split; [done|set_solver].
Qed.

Lemma buf_delete (fr : R -> outcome unit * R) (fw : W -> outcome unit * W) ds bs :
  bs_inv (fr (read bs)).2 -> bs_inv (fw (write bs)).2 -> buf_inv bs ->
  delete_effect (bs_set (read bs)) ds (fr (read bs)).1 (bs_set (fr (read bs)).2) ->
  delete_effect (bs_set (write bs)) ds (fw (write bs)).1 (bs_set (fw (write bs)).2) ->
  let o := match onRead fr bs with (Ret _, bs) => onWrite fw bs | (r, bs) => (r, bs) end in
  buf_inv o.2 /\ delete_effect (buf_set bs) ds o.1 (buf_set o.2).
Proof.
  destruct bs as [r w]. unfold onRead, onWrite, buf_inv, buf_set. cbn. destruct (fr r) as [ar r'], (fw w) as [aw w'] eqn:Ew'; cbn.
  intros Ir' Iw' [Ir Iw] Er Ew. destruct (delete_both _ _ _ _ _ _ _ Er Ew) as [Hret Hfail].
  destruct Er as [[-> Er]|(Hf & Er)]; [cbn; rewrite Ew'; cbn; by split; [|apply Hret]|].
  specialize (Hfail Hf). destruct Hf as (e & -> & He). cbn. done.
Qed.

#[export, program] Instance bufferedOk : BlockstoreOk (BufferedBlockstore R W) := {| bs_dom := buf_dom; bs_inv := buf_inv; bs_set := buf_set |}.
Next Obligation. apply buf_Has_ok. Qed.
Next Obligation. apply buf_Get_ok. Qed.
Next Obligation. apply buf_View_ok. Qed.
Next Obligation. apply buf_Put_ok. Qed.
Next Obligation. apply buf_PutMany_ok. Qed.
Next Obligation. intros c bs [Ir Iw] [Dr Dw]. apply buf_delete; first [by apply DeleteBlock_ok|done]. Qed.
Next Obligation.
  intros cs bs [Ir Iw] Hcs. apply Forall_and in Hcs as [Dr Dw]. apply buf_delete; first [by apply DeleteMany_ok|done].
Qed.
Next Obligation.
  intros [r w] [Ir Iw]. cbn. unfold onWrite, buf_inv, buf_set. cbn in *.
  destruct (Flush_ok w Iw) as (Iw' & Sw & Aw). destruct (bs_Flush w) as [aw w']; cbn in *. split_and!; [done..|by f_equal|done].
Qed.
End buffered.

(** ** Unions *)

Section union.
Context {S : Type} `{!Blockstore S} `{!BlockstoreOk S}.
Implicit Types m : unionBlockstore S.

Definition union_set m : gset bytes := ⋃ (bs_set <$> m).
Definition union_inv m : Prop := m <> [] /\ Forall bs_inv m.

Arguments union_set : simpl never.

Lemma union_set_cons bs m : union_set (bs :: m) = bs_set bs ∪ union_set m.
Proof. done. Qed.

Lemma union_Has_ok c m : Forall bs_inv m -> bs_dom (S := S) c ->
  Forall bs_inv (union_Has c m).2 /\ length (union_Has c m).2 = length m /\ union_set (union_Has c m).2 = union_set m /\ has_answer (union_set m) c (union_Has c m).1.
Proof.
  intros Hm Hd. induction Hm as [|bs m Ibs Hm IH]; [split_and!; [done..|by left]|]. cbn [union_Has].
  destruct (Has_ok c bs Ibs Hd) as (I' & S' & A'). destruct (bs_Has c bs) as [r bs'], (union_Has c m) as [r2 m'], IH as (IHm & IHl & IHs & IHa); cbn in *.
  destruct A' as [->|(e & -> & He)]; [|cbn; rewrite !union_set_cons, S'; split_and!; [by constructor|done..|right; by eexists]].
  case_bool_decide as E; cbn; rewrite !union_set_cons, S', ?IHs; (split_and!; [by constructor|congruence|done|]).
  - left. by rewrite bool_decide_eq_true_2 by set_solver.
  - destruct IHa as [->|?]; [left|by right]. f_equal. apply bool_decide_ext. set_solver.
Qed.

Lemma firstFound_ok c m r0 : Forall bs_inv m -> bs_dom (S := S) c -> (m = [] -> r0 = Err errNotFound) ->
  let o := firstFound (bs_Get c) r0 m in
  Forall bs_inv o.2 /\ length o.2 = length m /\ union_set o.2 = union_set m /\ get_answer (union_set m) c o.1.
Proof.
  intros Hm Hd. revert r0. induction Hm as [|bs m Ibs Hm IH]; intros r0 Hr0; cbn [firstFound].
  { rewrite Hr0 by done. split_and!; [done..|]. right. left. split; [apply not_elem_of_empty|done]. }
  destruct (Get_ok c bs Ibs Hd) as (I' & S' & A'). destruct (bs_Get c bs) as [r bs']; cbn in *.
  destruct A' as [(Hin & b & -> & Hb)|[[Hin ->]|Hf]].
  - cbn. rewrite !union_set_cons, S'. split_and!; [by constructor|done..|]. left. split; [set_solver|eauto].
  - cbn. rewrite bool_decide_eq_true_2 by done. specialize (IH (Err errNotFound)).
    destruct (firstFound (bs_Get c) (Err errNotFound) m) as [r m'], IH as (IHm & IHl & IHs & IHa); [done|]; cbn in *.
    rewrite !union_set_cons, S', IHs. split_and!; [by constructor|congruence|done|].
    destruct IHa as [[? ?]|[[? ?]|?]]; [left|right; left|by right; right]; (split; [set_solver|done]).
  - rewrite (failed_not_found _ Hf). cbn. rewrite !union_set_cons, S'. split_and!; [by constructor|done..|by right; right].
Qed.

Lemma union_View_ok (X : Type) c (callback : bytes -> X -> outcome unit * X) m r0 x :
  Forall bs_inv m -> bs_dom (S := S) c -> (forall d y, IsNotFound (callback d y).1 = false) -> (m = [] -> r0 = Err errNotFound) ->
  let o := union_View c callback r0 m x in
  Forall bs_inv o.1.2 /\ length o.1.2 = length m /\ union_set o.1.2 = union_set m /\ view_effect (union_set m) c callback x o.1.1 o.2.
Proof.
  intros Hm Hd Hcb. revert r0. induction Hm as [|bs m Ibs Hm IH]; intros r0 Hr0; cbn [union_View].
  { rewrite Hr0 by done. split_and!; [done..|]. right. left. split; [apply not_elem_of_empty|done]. }
  destruct (View_ok X c callback bs x Ibs Hd Hcb) as (I' & S' & A'). destruct (bs_View c callback bs x) as [[r bs'] x']; cbn in *.
  destruct A' as [[Hin Hc]|[(Hin & -> & ->)|[Hf ->]]].
  - specialize (Hcb (content (cidHash c)) x). rewrite <- Hc in Hcb. cbn in Hcb. rewrite Hcb. cbn. rewrite !union_set_cons, S'.
    split_and!; [by constructor|done..|]. left. split; [set_solver|done].
  - cbn. rewrite bool_decide_eq_true_2 by done. specialize (IH (Err errNotFound)).
    destruct (union_View c callback (Err errNotFound) m x) as [[r m'] x'], IH as (IHm & IHl & IHs & IHa); [done|]; cbn in *.
    rewrite !union_set_cons, S', IHs. split_and!; [by constructor|congruence|done|].
    destruct IHa as [[? ?]|[[? ?]|?]]; [left|right; left|by right; right]; (split; [set_solver|done]).
  - rewrite (failed_not_found _ Hf). cbn. rewrite !union_set_cons, S'. split_and!; [by constructor|done..|by right; right].
Qed.

(** Writes: a union of no stores does nothing. *)
Definition if_any m (ds : gset bytes) : gset bytes := match m with [] => ∅ | _ => ds end.

Lemma if_any_sub m ds : if_any m ds ⊆ ds.
Proof. destruct m; set_solver. Qed.

Lemma broadcast_put (f : S -> outcome unit * S) ds m :
  Forall (fun bs => bs_inv bs /\ bs_inv (f bs).2 /\ put_effect (bs_set bs) ds (f bs).1 (bs_set (f bs).2)) m ->
  let o := broadcast f m in
  Forall bs_inv o.2 /\ length o.2 = length m /\ put_effect (union_set m) (if_any m ds) o.1 (union_set o.2).
Proof.
  induction 1 as [|bs m (Ibs & I' & E') Hm IH]; cbn [broadcast]; [split_and!; [done..|left; split; [done|set_solver]]|].
  destruct (f bs) as [r bs'], (broadcast f m) as [r2 m'], IH as (IHm & IHl & IHe); cbn in *.
  pose proof (if_any_sub m ds). destruct E' as [[-> E']|((e & -> & He) & E' & E2)]; cbn; rewrite !union_set_cons.
  - split_and!; [by constructor|congruence|]. rewrite E'. destruct IHe as [[-> ->]|(? & ? & ?)]; [left|right]; (split; [done|set_solver]).
  - split_and!; [constructor; [done|]; by eapply Forall_impl; [apply Hm|intros ? [? _]]|done|]. right. split; [by eexists|set_solver].
Qed.

Lemma broadcast_delete (f : S -> outcome unit * S) ds m :
  Forall (fun bs => bs_inv bs /\ bs_inv (f bs).2 /\ delete_effect (bs_set bs) ds (f bs).1 (bs_set (f bs).2)) m ->
  let o := broadcast f m in
  Forall bs_inv o.2 /\ length o.2 = length m /\ delete_effect (union_set m) ds o.1 (union_set o.2).
Proof.
  induction 1 as [|bs m (Ibs & I' & E') Hm IH]; cbn [broadcast]; [split_and!; [done..|left; split; [done|unfold union_set; cbn; set_solver]]|].
  destruct (f bs) as [r bs'], (broadcast f m) as [r2 m'], IH as (IHm & IHl & IHe); cbn in *.
  destruct E' as [[-> E']|((e & -> & He) & E' & E2)]; cbn; rewrite !union_set_cons.
  - split_and!; [by constructor|congruence|]. rewrite E'. destruct IHe as [[-> ->]|(? & ? & ?)]; [left|right]; (split; [done|set_solver]).
  - split_and!; [constructor; [done|]; by eapply Forall_impl; [apply Hm|intros ? [? _]]|done|]. right. split; [by eexists|set_solver].
Qed.

Lemma union_keeps m m' : m <> [] -> length m' = length m -> m' <> [].
Proof. by destruct m, m'. Qed.

Lemma union_put (f : S -> outcome unit * S) ds m :
  union_inv m -> (forall bs, bs_inv bs -> bs_inv (f bs).2 /\ put_effect (bs_set bs) ds (f bs).1 (bs_set (f bs).2)) ->
  union_inv (broadcast f m).2 /\ put_effect (union_set m) ds (broadcast f m).1 (union_set (broadcast f m).2).
Proof.
  intros [Hne Hm] Hf. destruct (broadcast_put f ds m) as (I1 & I2 & I3); [eapply Forall_impl; [done|]; by eauto|].
  split; [split; [by eapply union_keeps|done]|]. by destruct m.
Qed.

Lemma union_delete (f : S -> outcome unit * S) ds m :
  union_inv m -> (forall bs, bs_inv bs -> bs_inv (f bs).2 /\ delete_effect (bs_set bs) ds (f bs).1 (bs_set (f bs).2)) ->
  union_inv (broadcast f m).2 /\ delete_effect (union_set m) ds (broadcast f m).1 (union_set (broadcast f m).2).
Proof.
  intros [Hne Hm] Hf. destruct (broadcast_delete f ds m) as (I1 & I2 & I3); [eapply Forall_impl; [done|]; by eauto|].
  split; [split; [by eapply union_keeps|done]|done].
Qed.

#[export, program] Instance unionOk : BlockstoreOk (unionBlockstore S) := {| bs_dom := bs_dom (S := S); bs_inv := union_inv; bs_set := union_set |}.
Next Obligation.
  intros c m [Hne Hm] Hd. destruct (union_Has_ok c m Hm Hd) as (? & ? & ? & ?). split_and!; [|done..]. split; [by eapply union_keeps|done].
Qed.
Next Obligation.
  intros c m [Hne Hm] Hd. destruct (firstFound_ok c m Panic Hm Hd) as (? & ? & ? & ?); [done|]. split_and!; [|done..]. split; [by eapply union_keeps|done].
Qed.
Next Obligation.
  intros X c cb m x [Hne Hm] Hd Hcb. destruct (union_View_ok X c cb m (Ret tt) x Hm Hd Hcb) as (? & ? & ? & ?); [done|].
  split_and!; [|done..]. split; [by eapply union_keeps|done].
Qed.
Next Obligation. intros b m Hm Hd Hb. apply union_put; [done|]. intros bs Ibs. by apply Put_ok. Qed.
Next Obligation. intros blks m Hm Hb. apply union_put; [done|]. intros bs Ibs. by apply PutMany_ok. Qed.
Next Obligation. intros c m Hm Hd. apply union_delete; [done|]. intros bs Ibs. by apply DeleteBlock_ok. Qed.
Next Obligation. intros cs m Hm Hd. apply union_delete; [done|]. intros bs Ibs. by apply DeleteMany_ok. Qed.
Next Obligation.
  intros m Hm. destruct (union_put bs_Flush ∅ m Hm) as [I1 I2].
  { intros bs Ibs. destruct (Flush_ok bs Ibs) as (? & -> & [->|?]); (split; [done|]); [left|right]; (split; [done|set_solver]). }
  split; [done|]. destruct I2 as [[? E]|(? & ? & ?)]; (split; [set_solver|by auto]).
Qed.
End union.

(** ** Identity stores *)

Section identity.
Context {S : Type} `{!Blockstore S} `{!BlockstoreOk S}.

Definition id_dom (c : cid) : Prop := bs_dom (S := S) c /\ decodeCid c = Ret None.

Lemma notInline_dom {A : Type} (key : A -> cid) l : Forall (fun a => decodeCid (key a) = Ret None) l -> notInline key l = Ret l.
Proof. induction 1 as [|a l Ha Hl IH]; [done|]. cbn [notInline]. by rewrite Ha, IH. Qed.

(** The writes of many leave an empty list to no store. *)
Lemma id_many_ok {A : Type} (key : A -> cid) (f : list A -> S -> outcome unit * S) (E : gset bytes -> outcome unit -> gset bytes -> Prop) l (b : idstore S) :
  Forall (fun a => decodeCid (key a) = Ret None) l -> bs_inv (idbs b) -> (l = [] -> E (bs_set (idbs b)) (Ret tt) (bs_set (idbs b))) ->
  bs_inv (f l (idbs b)).2 /\ E (bs_set (idbs b)) (f l (idbs b)).1 (bs_set (f l (idbs b)).2) ->
  bs_inv (idbs (id_many key f l b).2) /\ E (bs_set (idbs b)) (id_many key f l b).1 (bs_set (idbs (id_many key f l b).2)).
Proof.
  intros Hl Hb Hnil [I1 I2]. unfold id_many. rewrite (notInline_dom key l Hl). destruct l; [by split; [|apply Hnil]|done].
Qed.

#[export, program] Instance idOk : BlockstoreOk (idstore S) := {| bs_dom := id_dom; bs_inv b := bs_inv (idbs b); bs_set b := bs_set (idbs b) |}.
Next Obligation. intros c b Hb [Hd Hc]. cbn. unfold inlineOr. rewrite Hc. by apply Has_ok. Qed.
Next Obligation. intros c b Hb [Hd Hc]. cbn. unfold inlineOr. rewrite Hc. by apply Get_ok. Qed.
Next Obligation.
  intros X c cb b x Hb [Hd Hc] Hcb. cbn. rewrite Hc. pose proof (View_ok X c cb (idbs b) x Hb Hd Hcb) as Hv.
  by destruct (bs_View c cb (idbs b) x) as [[r s] x'].
Qed.
Next Obligation. intros blk b Hb [Hd Hc] Hv. cbn. unfold inlineOr. rewrite Hc. by apply Put_ok. Qed.
Next Obligation.
  intros blks b Hb Hd. apply (id_many_ok blockCid bs_PutMany (fun d r d' => put_effect d (hashes blks) r d')); [|done| |].
  - eapply Forall_impl; [done|]. by intros ? [[_ ?] _].
  - intros ->. left. split; [done|set_solver].
  - apply PutMany_ok; [done|]. eapply Forall_impl; [done|]. by intros ? [[? _] ?].
Qed.
Next Obligation. intros c b Hb [Hd Hc]. cbn. unfold inlineOr. rewrite Hc. by apply DeleteBlock_ok. Qed.
Next Obligation.
  intros cs b Hb Hd. apply (id_many_ok (fun c => c) bs_DeleteMany (fun d r d' => delete_effect d (cidHashes cs) r d')); [|done| |].
  - eapply Forall_impl; [done|]. by intros ? [_ ?].
  - intros ->. left. split; [done|set_solver].
  - apply DeleteMany_ok; [done|]. eapply Forall_impl; [done|]. by intros ? [? _].
Qed.
Next Obligation. intros b Hb. exact (Flush_ok (idbs b) Hb). Qed.
End identity.

(** ** Stores of boxo *)

(** What [BlockstoreOk] says of the methods that the interface of boxo has. *)
Class BasicBlockstoreOk (S : Type) `{!BasicBlockstore S} := {
  bb_inv : S -> Prop;
  bb_set : S -> gset bytes;
  bb_Has_ok c s : bb_inv s -> bb_inv (bb_Has c s).2 /\ bb_set (bb_Has c s).2 = bb_set s /\ has_answer (bb_set s) c (bb_Has c s).1;
  bb_Get_ok c s : bb_inv s -> bb_inv (bb_Get c s).2 /\ bb_set (bb_Get c s).2 = bb_set s /\ get_answer (bb_set s) c (bb_Get c s).1;
  bb_Put_ok b s : bb_inv s -> valid b ->
    bb_inv (bb_Put b s).2 /\ put_effect (bb_set s) {[cidHash (blockCid b)]} (bb_Put b s).1 (bb_set (bb_Put b s).2);
  bb_PutMany_ok bs s : bb_inv s -> Forall valid bs ->
    bb_inv (bb_PutMany bs s).2 /\ put_effect (bb_set s) (hashes bs) (bb_PutMany bs s).1 (bb_set (bb_PutMany bs s).2);
  bb_DeleteBlock_ok c s : bb_inv s ->
    bb_inv (bb_DeleteBlock c s).2 /\ delete_effect (bb_set s) {[cidHash c]} (bb_DeleteBlock c s).1 (bb_set (bb_DeleteBlock c s).2);
  bb_Flush_ok flush s : bb_Flush = Some flush -> bb_inv s ->
    bb_inv (flush s).2 /\ bb_set (flush s).2 = bb_set s /\ ((flush s).1 = Ret tt \/ failed (flush s).1);
}.

Section adapted.
Context {S : Type} `{!BasicBlockstore S} `{!BasicBlockstoreOk S}.

Lemma adapted_DeleteMany_ok (cs : list cid) (s : S) : bb_inv s ->
  bb_inv (adapted_DeleteMany cs s).2 /\ delete_effect (bb_set s) (cidHashes cs) (adapted_DeleteMany cs s).1 (bb_set (adapted_DeleteMany cs s).2).
Proof.
  revert s. induction cs as [|c cs IH]; intros s Hs; cbn [adapted_DeleteMany]; [split; [done|left; split; [done|set_solver]]|].
  destruct (bb_DeleteBlock_ok c s Hs) as [I1 I2]. destruct (bb_DeleteBlock c s) as [r s1]; cbn in *. rewrite cidHashes_cons.
  destruct I2 as [[-> I2]|(Hf & I2 & I3)].
  - destruct (IH s1 I1) as [I3 I4]. split; [done|]. eapply delete_effect_trans; [by left|]. done.
  - destruct Hf as (e & -> & He). cbn. split; [done|]. right. split; [by eexists|set_solver].
Qed.

#[export, program] Instance adaptedOk : BlockstoreOk (adaptedBlockstore S) :=
  {| bs_dom _ := True; bs_inv a := bb_inv (adapted a); bs_set a := bb_set (adapted a) |}.
Next Obligation. intros c a Ha _. by apply bb_Has_ok. Qed.
Next Obligation. intros c a Ha _. by apply bb_Get_ok. Qed.
Next Obligation.
  intros X c cb a x Ha _ Hcb. cbn. destruct (bb_Get_ok c (adapted a) Ha) as (I1 & I2 & I3). destruct (bb_Get c (adapted a)) as [r s]; cbn in *.
  unfold view_effect. destruct I3 as [(Hin & b & -> & Hb & Hk)|[[Hin ->]|(e & -> & He)]]; [|cbn; split_and!; [done..|]; by auto|cbn; split_and!; [done..|]; right; right; split; [by eexists|done]].
  unfold valid in Hb. rewrite Hk in Hb. rewrite Hb. destruct (cb (content (cidHash c)) x) as [r x'] eqn:Ec. cbn. split_and!; [done..|]. by left.
Qed.
Next Obligation. intros b a Ha _ Hb. by apply bb_Put_ok. Qed.
Next Obligation. intros bs a Ha Hb. apply bb_PutMany_ok; [done|]. eapply Forall_impl; [done|]. by intros ? [_ ?]. Qed.
Next Obligation. intros c a Ha _. by apply bb_DeleteBlock_ok. Qed.
Next Obligation. intros cs a Ha _. by apply adapted_DeleteMany_ok. Qed.
Next Obligation.
  intros a Ha. cbn. destruct bb_Flush as [flush|] eqn:E; [|split_and!; [done..|by left]]. by apply (bb_Flush_ok flush).
Qed.
End adapted.

(** ** Synchronised memory stores *)

#[export, program] Instance syncOk : BlockstoreOk SyncBlockstore := {| bs_dom _ := True; bs_inv m := mem_inv (syncMem m); bs_set m := dom (syncMem m) |}.
Next Obligation. intros c [m] Hm _. exact (Has_ok (S := MemBlockstore) c m Hm I). Qed.
Next Obligation. intros c [m] Hm _. exact (Get_ok (S := MemBlockstore) c m Hm I). Qed.
Next Obligation.
  intros X c cb [m] x Hm _ Hcb. pose proof (View_ok (S := MemBlockstore) X c cb m x Hm I Hcb) as Hv.
  change (bs_View c cb {| syncMem := m |} x) with (let '(r, s, x) := bs_View c cb m x in (r, Build_SyncBlockstore s, x)).
  by destruct (bs_View c cb m x) as [[r s] x'].
Qed.
Next Obligation. intros b [m] Hm _ Hb. exact (Put_ok (S := MemBlockstore) b m Hm I Hb). Qed.
Next Obligation. intros bs [m] Hm Hb. exact (PutMany_ok (S := MemBlockstore) bs m Hm Hb). Qed.
Next Obligation. intros c [m] Hm _. exact (DeleteBlock_ok (S := MemBlockstore) c m Hm I). Qed.
Next Obligation. intros cs [m] Hm Hd. exact (DeleteMany_ok (S := MemBlockstore) cs m Hm Hd). Qed.
Next Obligation. intros [m] Hm. split_and!; [done..|by left]. Qed.

(** ** Runs *)

Inductive BsOp :=
| OHas (c : cid) | OGet (c : cid) | OView (c : cid) | OPut (b : Block) | OPutMany (bs : list Block)
| ODelete (c : cid) | ODeleteMany (cs : list cid) | OFlush.

(** A view collects the data it is called with. *)
Inductive BsAnswer :=
| AHas (r : outcome bool) | AGet (r : outcome Block) | AView (r : outcome unit) (seen : list bytes) | AWrite (r : outcome unit).

Definition collect (d : bytes) (seen : list bytes) : outcome unit * list bytes := (Ret tt, d :: seen).

Definition exec {S} `{!Blockstore S} (op : BsOp) (s : S) : BsAnswer * S :=
  match op with
  | OHas c => let '(r, s) := bs_Has c s in (AHas r, s)
  | OGet c => let '(r, s) := bs_Get c s in (AGet r, s)
  | OView c => let '(r, s, seen) := bs_View c collect s [] in (AView r seen, s)
  | OPut b => let '(r, s) := bs_Put b s in (AWrite r, s)
  | OPutMany bs => let '(r, s) := bs_PutMany bs s in (AWrite r, s)
  | ODelete c => let '(r, s) := bs_DeleteBlock c s in (AWrite r, s)
  | ODeleteMany cs => let '(r, s) := bs_DeleteMany cs s in (AWrite r, s)
  | OFlush => let '(r, s) := bs_Flush s in (AWrite r, s)
  end.

Fixpoint execs {S} `{!Blockstore S} (ops : list BsOp) (s : S) : list BsAnswer * S :=
  match ops with
  | [] => ([], s)
  | op :: ops => let '(a, s) := exec op s in let '(l, s) := execs ops s in (a :: l, s)
  end.

(** The same operations on a set of hashes. *)
Definition spec_step (op : BsOp) (d : gset bytes) (a : BsAnswer) (d' : gset bytes) : Prop :=
  match op, a with
  | OHas c, AHas r => d' = d /\ has_answer d c r
  | OGet c, AGet r => d' = d /\ get_answer d c r
  | OView c, AView r seen => d' = d /\ view_effect d c collect [] r seen
  | OPut b, AWrite r => put_effect d {[cidHash (blockCid b)]} r d'
  | OPutMany bs, AWrite r => put_effect d (hashes bs) r d'
  | ODelete c, AWrite r => delete_effect d {[cidHash c]} r d'
  | ODeleteMany cs, AWrite r => delete_effect d (cidHashes cs) r d'
  | OFlush, AWrite r => d' = d /\ (r = Ret tt \/ failed r)
  | _, _ => False
  end.

Inductive spec_run : gset bytes -> list BsOp -> list BsAnswer -> gset bytes -> Prop :=
| spec_nil d : spec_run d [] [] d
| spec_cons d op a d1 ops l d2 : spec_step op d a d1 -> spec_run d1 ops l d2 -> spec_run d (op :: ops) (a :: l) d2.

Definition op_blocks (op : BsOp) : list Block := match op with OPut b => [b] | OPutMany bs => bs | _ => [] end.
Definition op_cids (op : BsOp) : list cid :=
  match op with OHas c | OGet c | OView c | ODelete c => [c] | ODeleteMany cs => cs | _ => blockCid <$> op_blocks op end.

Section runs.
Context {S : Type} `{!Blockstore S} `{!BlockstoreOk S}.

Lemma exec_ok op (s : S) : bs_inv s -> Forall (bs_dom (S := S)) (op_cids op) -> Forall valid (op_blocks op) ->
  bs_inv (exec op s).2 /\ spec_step op (bs_set s) (exec op s).1 (bs_set (exec op s).2).
Proof.
  intros Hs Hd Hb. destruct op as [c|c|c|b|bs|c|cs|]; cbn in Hd, Hb; rewrite ?Forall_singleton in Hd; rewrite ?Forall_singleton in Hb; cbn [exec].
  - destruct (Has_ok c s Hs Hd) as (? & ? & ?). by destruct (bs_Has c s).
  - destruct (Get_ok c s Hs Hd) as (? & ? & ?). by destruct (bs_Get c s).
  - destruct (View_ok _ c collect s [] Hs Hd) as (? & ? & ?); [done|]. by destruct (bs_View c collect s []) as [[? ?] ?].
  - pose proof (Put_ok b s Hs Hd Hb). by destruct (bs_Put b s).
  - rewrite Forall_fmap in Hd. pose proof (PutMany_ok bs s Hs) as Hp. destruct (bs_PutMany bs s). apply Hp, Forall_and. by split.
  - pose proof (DeleteBlock_ok c s Hs Hd). by destruct (bs_DeleteBlock c s).
  - pose proof (DeleteMany_ok cs s Hs Hd). by destruct (bs_DeleteMany cs s).
  - destruct (Flush_ok s Hs) as (? & ? & ?). by destruct (bs_Flush s).
Qed.

(** With a further invariant of the store that every operation keeps. *)
Lemma execs_ok (P : S -> Prop) ops (s : S) :
  (forall op s, bs_inv s -> Forall (bs_dom (S := S)) (op_cids op) -> Forall valid (op_blocks op) -> P s -> P (exec op s).2) ->
  bs_inv s -> Forall (fun op => Forall (bs_dom (S := S)) (op_cids op) /\ Forall valid (op_blocks op)) ops -> P s ->
  bs_inv (execs ops s).2 /\ P (execs ops s).2 /\ spec_run (bs_set s) ops (execs ops s).1 (bs_set (execs ops s).2).
Proof.
  intros HP. revert s. induction ops as [|op ops IH]; intros s Hs Hops Hp; cbn [execs]; [split_and!; [done..|constructor]|].
  apply Forall_cons in Hops as [[Hd Hb] Hops]. destruct (exec_ok op s Hs Hd Hb) as [I1 I2]. specialize (HP op s Hs Hd Hb Hp).
  destruct (exec op s) as [a s1]; cbn in *. destruct (IH s1 I1 Hops HP) as (I3 & I4 & I5). destruct (execs ops s1) as [l s2]; cbn in *.
  split_and!; [done..|]. by econstructor.
Qed.
End runs.

(** ** A stack of stores *)

(** Nothing is added to the store under a buffer. *)
Lemma buf_base {R W : Type} `{!Blockstore R} `{!Blockstore W} `{!BlockstoreOk R} `{!BlockstoreOk W} (op : BsOp) (bs : BufferedBlockstore R W) :
  bs_inv (read bs) -> Forall (bs_dom (S := R)) (op_cids op) -> bs_set (read (exec op bs).2) ⊆ bs_set (read bs).
Proof.
  destruct bs as [r w]. intros Hr Hd. cbn [read] in *. destruct op as [c|c|c|b|bs|c|cs|]; cbn in Hd; rewrite ?Forall_singleton in Hd.
  - destruct (Has_ok c r Hr Hd) as (_ & Sr & _). cbn. unfold buf_Has, onRead, onWrite. cbn.
    destruct (bs_Has c w) as [[[]|e|] w'], (bs_Has c r) as [ar r'] eqn:E; cbn in *; rewrite ?E; cbn; set_solver.
  - destruct (Get_ok c r Hr Hd) as (_ & Sr & _). cbn. unfold buf_Get, onRead, onWrite. cbn.
    destruct (bs_Get c w) as [aw w'], (bs_Get c r) as [ar r'] eqn:E; cbn in *. destruct (IsNotFound aw); cbn; rewrite ?E; cbn; set_solver.
  - destruct (View_ok _ c collect r [] Hr Hd) as (_ & Sr & Vr); [done|]. cbn. unfold buf_View. cbn.
    destruct (bs_View c collect w []) as [[aw w'] x]. destruct (IsNotFound aw); [|cbn; set_solver].
    destruct (View_ok _ c collect r x Hr Hd) as (_ & Sr' & _); [done|]. destruct (bs_View c collect r x) as [[ar r'] x']; cbn in *. set_solver.
  - destruct (Has_ok (blockCid b) r Hr Hd) as (_ & Sr & _). cbn. unfold buf_Put, onRead, onWrite. cbn.
    destruct (bs_Has (blockCid b) r) as [[[]|e|] r'], (bs_Put b w) as [aw w'] eqn:E; cbn in *; rewrite ?E; cbn; set_solver.
  - cbn. unfold onWrite. cbn. destruct (bs_PutMany bs w) as [aw w']. cbn. done.
  - destruct (DeleteBlock_ok c r Hr Hd) as (_ & Er). cbn. unfold buf_DeleteBlock, onRead, onWrite. cbn.
    destruct (bs_DeleteBlock c r) as [[?|e|] r'], (bs_DeleteBlock c w) as [aw w'] eqn:E; cbn in *; rewrite ?E; cbn; destruct Er as [[? ->]|(? & ? & ?)]; set_solver.
  - destruct (DeleteMany_ok cs r Hr Hd) as (_ & Er). cbn. unfold buf_DeleteMany, onRead, onWrite. cbn.
    destruct (bs_DeleteMany cs r) as [[?|e|] r'], (bs_DeleteMany cs w) as [aw w'] eqn:E; cbn in *; rewrite ?E; cbn; destruct Er as [[? ->]|(? & ? & ?)]; set_solver.
  - cbn. unfold onWrite. cbn. destruct (bs_Flush w) as [aw w']. cbn. done.
Qed.

(** An identity store hands its operations on, or does nothing. *)
Lemma id_exec {S : Type} `{!Blockstore S} (op : BsOp) (s : idstore S) :
  Forall (fun c => decodeCid c = Ret None) (op_cids op) -> idbs (exec op s).2 = (exec op (idbs s)).2 \/ idbs (exec op s).2 = idbs s.
Proof.
  intros Hd. destruct op as [c|c|c|b|bs|c|cs|]; cbn in Hd; rewrite ?Forall_singleton in Hd; cbn; unfold inlineOr, id_many; rewrite ?Hd, ?notInline_dom by (rewrite ?Forall_fmap in *; done).
  - left. by destruct (bs_Has c (idbs s)).
  - left. by destruct (bs_Get c (idbs s)).
  - left. by destruct (bs_View c collect (idbs s) []) as [[? ?] ?].
  - left. by destruct (bs_Put b (idbs s)).
  - destruct bs as [|b bs]; [by right|left]. by destruct (bs_PutMany (b :: bs) (idbs s)).
  - left. by destruct (bs_DeleteBlock c (idbs s)).
  - destruct cs as [|c cs]; [by right|left]. by destruct (bs_DeleteMany (c :: cs) (idbs s)).
  - left. by destruct (bs_Flush (idbs s)).
Qed.

Section stack.
Context {B : Type} `{!BasicBlockstore B} `{!BasicBlockstoreOk B}.

Notation stack := (idstore (BufferedBlockstore (unionBlockstore (adaptedBlockstore B)) MemBlockstore)).

(** A buffer over a union of stores of boxo, behind an identity store. *)
Definition NewStack (bases : list (adaptedBlockstore B)) : stack := {| idbs := NewBuffered bases |}.

Lemma stack_bases (bases : list (adaptedBlockstore B)) (op : BsOp) (s : stack) :
  bs_inv s -> Forall (bs_dom (S := stack)) (op_cids op) ->
  union_set (read (idbs s)) ⊆ union_set bases -> union_set (read (idbs (exec op s).2)) ⊆ union_set bases.
Proof.
  intros [Hr _] Hd Hs. apply Forall_and in Hd as [Hb Hi].
  destruct (id_exec op s Hi) as [->| ->]; [|done]. etrans; [|done]. apply (buf_base op (idbs s) Hr).
  by apply Forall_true.
Qed.

End stack.

(** ** The timed cache *)

Inductive TimedOp := TOp (op : BsOp) | TRotate.

Definition timed_step (op : TimedOp) (t : TimedCacheBlockstore) : TimedCacheBlockstore :=
  match op with TOp op => (exec op t).2 | TRotate => rotate t end.

Definition op_deletes (op : BsOp) : list cid := match op with ODelete c => [c] | ODeleteMany cs => cs | _ => [] end.

(** Looking back from the latest operation: the hash was put, and not deleted since, with at
    most [n] rotations since. *)
Fixpoint keptFor (n : nat) (history : list TimedOp) (h : bytes) : bool :=
  match history with
  | [] => false
  | TRotate :: history => match n with O => false | S n => keptFor n history h end
  | TOp op :: history =>
      if bool_decide (h ∈ hashes (op_blocks op)) then true
      else if bool_decide (h ∈ cidHashes (op_deletes op)) then false
      else keptFor n history h
  end.

Fixpoint timed_run (history : list TimedOp) : TimedCacheBlockstore :=
  match history with
  | [] => NewTimedCacheBlockstore
  | op :: history => timed_step op (timed_run history)
  end.

Definition timed_inv (t : TimedCacheBlockstore) : Prop := mem_inv (active t) /\ mem_inv (inactive t).

Lemma timed_exec (op : BsOp) (t : TimedCacheBlockstore) : timed_inv t -> Forall valid (op_blocks op) ->
  timed_inv (exec op t).2 /\
  dom (active (exec op t).2) = (dom (active t) ∪ hashes (op_blocks op)) ∖ cidHashes (op_deletes op) /\
  dom (inactive (exec op t).2) = dom (inactive t) ∖ cidHashes (op_deletes op).
Proof.
  intros [Ia Ii] Hb. assert (forall d : gset bytes, d = (d ∪ hashes []) ∖ cidHashes [] /\ d = d ∖ cidHashes []) as Hn by (unfold hashes, cidHashes; set_solver).
  assert (forall t', t' = t -> timed_inv t' /\ dom (active t') = (dom (active t) ∪ hashes []) ∖ cidHashes [] /\ dom (inactive t') = dom (inactive t) ∖ cidHashes []) as Hsame.
  { intros t' ->. split; [done|]. split; apply Hn. }
  destruct op as [c|c|c|b|bs|c|cs|]; cbn [op_blocks op_deletes] in *; try (apply Hsame; cbn; by repeat case_match; simplify_eq).
  - rewrite Forall_singleton in Hb. destruct (mem_Put_ok b (active t) Ia Hb) as [I1 I2]. cbn. split; [done|].
    split; [|apply Hn]. rewrite I2. unfold hashes, cidHashes. set_solver.
  - destruct (mem_PutMany_ok bs (active t) Ia Hb) as [I1 I2]. cbn. split; [done|]. split; [|apply Hn]. rewrite I2. unfold cidHashes. set_solver.
  - cbn. split; [split; by apply map_Forall_delete|]. rewrite !dom_delete_L. unfold hashes, cidHashes. set_solver.
  - destruct (mem_DeleteMany_ok cs (active t) Ia) as [I1 I2], (mem_DeleteMany_ok cs (inactive t) Ii) as [I3 I4]. cbn. split; [done|].
    rewrite I2, I4. unfold hashes. set_solver.
Qed.

Lemma op_puts_or_deletes (op : BsOp) : op_blocks op = [] \/ op_deletes op = [].
Proof. destruct op; auto. Qed.

Lemma timed_run_ok history : Forall (fun op => match op with TOp op => Forall valid (op_blocks op) | TRotate => True end) history ->
  timed_inv (timed_run history) /\
  forall h, (h ∈ dom (active (timed_run history)) <-> keptFor 0 history h = true) /\
       (h ∈ dom (active (timed_run history)) ∪ dom (inactive (timed_run history)) <-> keptFor 1 history h = true).
Proof.
  induction 1 as [|[op|] history Hop Hh [IHi IHk]]; cbn [timed_run timed_step keptFor].
  - split; [split; apply map_Forall_empty|]. cbn. intros h. rewrite dom_empty_L. set_solver.
  - destruct (timed_exec op (timed_run history) IHi Hop) as (I1 & I2 & I3). split; [done|]. intros h. rewrite I2, I3. destruct (IHk h) as [K0 K1].
    destruct (op_puts_or_deletes op) as [E|E]; rewrite E; repeat case_bool_decide; unfold hashes, cidHashes in *; set_solver.
  - destruct IHi as [Ia Ii]. split; [split; [apply map_Forall_empty|done]|]. intros h. cbn. rewrite dom_empty_L. destruct (IHk h) as [K0 _]. set_solver.
Qed.

(** The timed cache keeps every block for at least one interval and at most two: after any
    history of operations and rotations of the cache, a block is there exactly if it was put,
    was not deleted since, and there was at most one rotation since it was last put; reads find
    it in either half and give its data. *)
Theorem timed_cache_window (history : list TimedOp) (c : cid) :
  Forall (fun op => match op with TOp op => Forall valid (op_blocks op) | TRotate => True end) history ->
  let t := timed_run history in
  bs_Has c t = (Ret (keptFor 1 history (cidHash c)), t) /\
  (keptFor 1 history (cidHash c) = true ->
    (exists b, bs_Get c t = (Ret b, t) /\ valid b /\ cidHash (blockCid b) = cidHash c) /\
    bs_GetSize c t = ((len (content (cidHash c)), Ret tt), t)) /\
  (keptFor 1 history (cidHash c) = false -> bs_Get c t = (Err errNotFound, t)).
Proof.
  intros Hh t. destruct (timed_run_ok history Hh) as [[Ia Ii] K]. destruct (K (cidHash c)) as [_ K1]. fold t in Ia, Ii, K1.
  rewrite elem_of_union, !elem_of_dom in K1. pose proof (mem_Get_ok c (active t) Ia) as Ga. pose proof (mem_Get_ok c (inactive t) Ii) as Gi.
  cbn. unfold timed_Get, get_answer, mem_Get in *. rewrite !elem_of_dom in Ga, Gi.
  destruct (active t !! cidHash c) as [b|] eqn:Ea; cbn in *.
  - rewrite (proj1 K1) by eauto. split_and!; [done| |done]. intros _. destruct (Ia _ _ Ea) as [Ek Ev].
    destruct Ga as [(_ & b' & [= <-] & Hb)|[[Hn _]|(e & ? & _)]]; [|by destruct Hn|done].
    split; [by eexists|]. unfold valid in Ev. rewrite Ek in Ev. by rewrite Ev.
  - destruct (inactive t !! cidHash c) as [b|] eqn:Ei.
    + rewrite (proj1 K1) by eauto. cbn. split_and!; [done| |done]. intros _. destruct (Ii _ _ Ei) as [Ek Ev].
      destruct Gi as [(_ & b' & [= <-] & Hb)|[[Hn _]|(e & ? & _)]]; [|by destruct Hn|done].
      split; [by eexists|]. unfold valid in Ev. rewrite Ek in Ev. by rewrite Ev.
    + destruct (keptFor 1 history (cidHash c)) eqn:Ek; [destruct (proj2 K1 eq_refl) as [[? ?]|[? ?]]; done|].
      split_and!; done.
Qed.

(** ** Further wrappers *)

(** A block that a fallback store gets is in its local store afterwards. *)
Lemma fallback_keeps {S N : Type} `{!Blockstore S} `{!BlockstoreOk S} c b (fbs fbs' : FallbackStore S N) :
  bs_inv (fallbackBs fbs) -> bs_dom (S := S) c ->
  (forall f n b n', missFn fbs = Some f \/ laterFn fbs = Some f -> f c n = (Ret b, n') -> valid b /\ bs_dom (S := S) (blockCid b)) ->
  bs_Get c fbs = (Ret b, fbs') -> cidHash (blockCid b) ∈ bs_set (fallbackBs fbs').
Proof.
  intros Hi Hd Hv. cbn. unfold fb_Get, onLocal. destruct (Get_ok c (fallbackBs fbs) Hi Hd) as (I1 & I2 & I3).
  destruct (bs_Get c (fallbackBs fbs)) as [r s]; cbn in *. destruct (IsNotFound r) eqn:En.
  2: { intros [= -> <-]. cbn. rewrite I2. destruct I3 as [(Hin & b' & [= <-] & _ & Hk)|[[_ ?]|(e & ? & _)]]; [by rewrite Hk|done..]. }
  assert (forall f x, missFn fbs = Some f \/ laterFn fbs = Some f -> bs_inv (fallbackBs x) -> fetch f c x = (Ret b, fbs') -> cidHash (blockCid b) ∈ bs_set (fallbackBs fbs')) as Hf.
  { intros f x Hmf Hx. unfold fetch, onLocal. destruct (f c (network x)) as [[b'|e|] n] eqn:Ef; [|done..]. cbn.
    destruct (Hv f _ _ _ Hmf Ef) as [Hb' Hd']. destruct (Put_ok b' (fallbackBs x) Hx Hd' Hb') as [_ Hp].
    destruct (bs_Put b' (fallbackBs x)) as [[?|?|] s']; [|done..]. intros [= <- <-]. cbn in *.
    destruct Hp as [[_ ->]|[(? & ? & _) _]]; [set_solver|done]. }
  unfold getFallback. cbn. destruct (missFn fbs) as [f|]; [apply Hf; auto|]. destruct (laterFn fbs) as [f|]; [apply Hf; auto|done].
Qed.

(** [View] of a fallback store does not fall back. *)
Lemma fallback_view_misses {N : Type} c b (f : cid -> N -> outcome Block * N) (n : N) :
  f c n = (Ret b, n) ->
  let fbs := {| fallbackBs := (∅ : MemBlockstore); missFn := Some f; laterFn := None; network := n |} in
  (bs_Get c fbs).1 = Ret b /\ (bs_View c collect fbs []).1.1 = Err errNotFound.
Proof.
  intros Hf fbs. cbn. unfold fb_Get, onLocal. cbn. unfold mem_Get. rewrite lookup_empty. cbn. unfold getFallback, fetch. cbn. rewrite Hf. by cbn.
Qed.

(** [GetSize] of a buffered store does not find an empty block of the store under the buffer. *)
Lemma buffered_empty_block c b : RawData b = [] ->
  let bs := NewBuffered ({[cidHash c := b]} : MemBlockstore) in
  (bs_Has c bs).1 = Ret true /\ (bs_GetSize c bs).1 = (0, Err errNotFound).
Proof.
  intros Hb bs. cbn. unfold buf_Has, buf_GetSize, onRead, onWrite. cbn. rewrite lookup_empty, lookup_singleton_eq, Hb. done.
Qed.
End content.

(** ** A stack over memory *)

(** CIDs are a codec and a multihash, which is a code and the digest. *)
#[local, program] Instance demoCid : CidOps := {|
  cid := Z * bytes; cidHash := snd; cidCodec := fst; cidMhType c := match c.2 with [] => -1 | code :: _ => code end;
  mhDecode h := match h with [] => Err "short" | code :: digest => Ret (code, digest) end; mhIdentity := 0;
|}.

#[local] Instance demoBlockOps : BlockOps := {| NewBlockWithCid data c := {| blockCid := c; RawData := data; basic := true |} |}.

#[local] Instance demoBlockOpsOk : BlockOpsOk.
Proof. by split. Qed.

#[local] Instance memBasic : BasicBlockstore MemBlockstore := {|
  bb_Has := bs_Has; bb_Get := bs_Get; bb_GetSize := bs_GetSize; bb_Put := bs_Put; bb_PutMany := bs_PutMany; bb_DeleteBlock := bs_DeleteBlock;
  bb_Flush := None |}.

(** The data of a hash are its digest. *)
Definition demoContent (h : bytes) : bytes := tail h.

#[local, program] Instance memBasicOk : BasicBlockstoreOk demoContent MemBlockstore := {| bb_inv := mem_inv demoContent; bb_set := dom |}.
Next Obligation. intros c s Hs. exact (Has_ok demoContent c s Hs I). Qed.
Next Obligation. intros c s Hs. exact (Get_ok demoContent c s Hs I). Qed.
Next Obligation. intros b s Hs Hb. exact (Put_ok demoContent b s Hs I Hb). Qed.
Next Obligation. intros bs s Hs Hb. apply (PutMany_ok (BlockstoreOk := memOk demoContent) demoContent bs s Hs). eapply Forall_impl; [done|]. by split. Qed.
Next Obligation. intros c s Hs. exact (DeleteBlock_ok demoContent c s Hs I). Qed.
Next Obligation. intros flush s [=]. Qed.

Definition demoBlock (data : bytes) : Block := {| blockCid := (85, 18 :: data); RawData := data; basic := true |}.

Definition demoBases : list (adaptedBlockstore MemBlockstore) := [{| adapted := {[ [18; 1; 2] := demoBlock [1; 2] ]} |}; {| adapted := ∅ |}].

Definition demoOps : list BsOp :=
  [OPut (demoBlock [3]); OHas (85, [18; 1; 2]); OView (85, [18; 3]); OPutMany [demoBlock [4]; demoBlock [5]]; ODeleteMany [(85, [18; 1; 2]); (85, [18; 4])];
   OGet (113, [18; 5]); OHas (85, [18; 4]); OFlush].


Lemma timed_cache_window_witness :
  let put := TOp (OPut (demoBlock [3])) in
  bs_Has (85, [18; 3]) (timed_run [TRotate; put]) = (Ret true, timed_run [TRotate; put]) /\
  bs_Has (85, [18; 3]) (timed_run [TRotate; TRotate; put]) = (Ret false, timed_run [TRotate; TRotate; put]).
Proof.
  split.
  - apply (timed_cache_window demoContent [TRotate; TOp (OPut (demoBlock [3]))] (85, [18; 3])). repeat constructor.
  - apply (timed_cache_window demoContent [TRotate; TRotate; TOp (OPut (demoBlock [3]))] (85, [18; 3])). repeat constructor.
Defined.
