(* ===== verification/Autobatch.v ===== *)
(** * The batching block store: blockstore/autobatch.go

    Blocks are put into a buffer, and a goroutine writes the buffer to the backing store in
    batches, while readers look into the store and the buffers.  The methods are given as the
    parts that hold the lock of the state or call the backing store, in turn; [system] is the
    store with a flusher and any number of readers, whose parts may interleave in any order. *)

From stdpp Require Import gmap.
From S2P Require Import Prelude Blockstore BlockstoreProps.

Section autobatch.
Context `{BlockOps} {S : Type} `{!Blockstore S}.

Record blockBatch := {
  blockList : list Block;
  blockMap : gmap cid Block;
}.

Definition emptyBatch : blockBatch := {| blockList := []; blockMap := ∅ |}.

(** The nil error is [Ret tt]; [flushCh] is that its one slot is full. *)
Record AutobatchBlockstore := {
  addedCids : gset cid;
  bufferedBatch : blockBatch;
  flushingBatch : blockBatch;
  flushErr : outcome unit;
  flushCh : bool;
  backingBs : S;
  bufferCapacity : Z;
  bufferSize : Z;
}.

Definition NewAutobatch (backing : S) (capacity : Z) : AutobatchBlockstore :=
  {| addedCids := ∅; bufferedBatch := emptyBatch; flushingBatch := emptyBatch; flushErr := Ret tt; flushCh := false;
     backingBs := backing; bufferCapacity := capacity; bufferSize := 0 |}.

Definition auto_Put (blk : Block) (bs : AutobatchBlockstore) : AutobatchBlockstore :=
  if bool_decide (blockCid blk ∈ addedCids bs) then bs
  else
    let size := bufferSize bs + len (RawData blk) in
    {| addedCids := {[blockCid blk]} ∪ addedCids bs;
       bufferedBatch := {| blockList := blockList (bufferedBatch bs) ++ [blk]; blockMap := <[blockCid blk := blk]> (blockMap (bufferedBatch bs)) |};
       flushingBatch := flushingBatch bs; flushErr := flushErr bs;
       flushCh := flushCh bs || (bufferCapacity bs <=? size);
       backingBs := backingBs bs; bufferCapacity := bufferCapacity bs; bufferSize := size |}.

Definition auto_PutMany (blks : list Block) (bs : AutobatchBlockstore) : AutobatchBlockstore := foldl (fun bs blk => auto_Put blk bs) bs blks.

Definition errDeletion : string := "deletion is unsupported".
Definition auto_DeleteBlock (c : cid) (bs : AutobatchBlockstore) : outcome unit * AutobatchBlockstore := (Err errDeletion, bs).
Definition auto_DeleteMany (cids : list cid) (bs : AutobatchBlockstore) : outcome unit * AutobatchBlockstore := (Err errDeletion, bs).

(** ** Flushing *)

(** [bs.flushErr = bs.backingBs.PutMany(ctx, bs.flushingBatch.blockList)] *)
Definition putBatch (bs : AutobatchBlockstore) : AutobatchBlockstore :=
  let '(err, backing) := bs_PutMany (blockList (flushingBatch bs)) (backingBs bs) in
  {| addedCids := addedCids bs; bufferedBatch := bufferedBatch bs; flushingBatch := flushingBatch bs; flushErr := err; flushCh := flushCh bs;
     backingBs := backing; bufferCapacity := bufferCapacity bs; bufferSize := bufferSize bs |}.

Definition setBatches (buffered flushing : blockBatch) (bs : AutobatchBlockstore) : AutobatchBlockstore :=
  {| addedCids := addedCids bs; bufferedBatch := buffered; flushingBatch := flushing; flushErr := flushErr bs; flushCh := flushCh bs;
     backingBs := backingBs bs; bufferCapacity := bufferCapacity bs; bufferSize := bufferSize bs |}.

Definition isNil (err : outcome unit) : bool := match err with Ret _ => true | _ => false end.

(** Where [doFlush] is: before the retry, the change of the batches, the write, the reset. *)
Inductive FlushAt := FRetry (retryOnly : bool) | FTake | FWrite | FReset.

(** The next part of [doFlush], and where it goes on; [None] is that it returns [flushErr]. *)
Definition flushStep (at_ : FlushAt) (bs : AutobatchBlockstore) : option FlushAt * AutobatchBlockstore :=
  match at_ with
  | FRetry retryOnly =>
      let bs := if isNil (flushErr bs) then bs else putBatch bs in
      (if retryOnly || negb (isNil (flushErr bs)) then None else Some FTake, bs)
  | FTake => (Some FWrite, setBatches emptyBatch (bufferedBatch bs) bs)
  | FWrite => let bs := putBatch bs in (if isNil (flushErr bs) then Some FReset else None, bs)
  | FReset => (None, setBatches (bufferedBatch bs) emptyBatch bs)
  end.

(** All parts in turn. *)
Definition doFlush (retryOnly : bool) (bs : AutobatchBlockstore) : outcome unit * AutobatchBlockstore :=
  let finish bs := (flushErr bs, bs) in
  match flushStep (FRetry retryOnly) bs with
  | (None, bs) => finish bs
  | (Some _, bs) =>
      match flushStep FWrite (flushStep FTake bs).2 with
      | (None, bs) => finish bs
      | (Some _, bs) => finish (flushStep FReset bs).2
      end
  end.

Definition auto_Flush : AutobatchBlockstore -> outcome unit * AutobatchBlockstore := doFlush false.

(** ** Reading *)

(** Where [Get] is: at the backing store, with the lock, or at the backing store again. *)
Inductive GetAt := GBacking | GLocked | GAgain.

Definition onBacking {A} (f : S -> A * S) (bs : AutobatchBlockstore) : A * AutobatchBlockstore :=
  let '(a, backing) := f (backingBs bs) in
  (a, {| addedCids := addedCids bs; bufferedBatch := bufferedBatch bs; flushingBatch := flushingBatch bs; flushErr := flushErr bs; flushCh := flushCh bs;
         backingBs := backing; bufferCapacity := bufferCapacity bs; bufferSize := bufferSize bs |}).

(** The next part of [Get]: where it goes on, or the result. *)
Definition getStep (c : cid) (at_ : GetAt) (bs : AutobatchBlockstore) : (GetAt + outcome Block) * AutobatchBlockstore :=
  match at_ with
  | GBacking => let '(r, bs) := onBacking (bs_Get c) bs in (if IsNotFound r then inl GLocked else inr r, bs)
  | GLocked =>
      (match blockMap (flushingBatch bs) !! c with
       | Some v => inr (Ret v)
       | None => match blockMap (bufferedBatch bs) !! c with Some v => inr (Ret v) | None => inl GAgain end
       end, bs)
  | GAgain => let '(r, bs) := onBacking (bs_Get c) bs in (inr r, bs)
  end.

Definition auto_Get (c : cid) (bs : AutobatchBlockstore) : outcome Block * AutobatchBlockstore :=
  match getStep c GBacking bs with
  | (inr r, bs) => (r, bs)
  | (inl _, bs) =>
      match getStep c GLocked bs with
      | (inr r, bs) => (r, bs)
      | (inl _, bs) => onBacking (bs_Get c) bs
      end
  end.

Definition auto_Has (c : cid) (bs : AutobatchBlockstore) : outcome bool * AutobatchBlockstore :=
  match auto_Get c bs with
  | (Ret _, bs) => (Ret true, bs)
  | (Err e, bs) => (if bool_decide (e = errNotFound) then Ret false else Err e, bs)
  | (Panic, bs) => (Panic, bs)
  end.

Definition auto_GetSize (c : cid) (bs : AutobatchBlockstore) : (Z * outcome unit) * AutobatchBlockstore :=
  match auto_Get c bs with
  | (Ret blk, bs) => ((len (RawData blk), Ret tt), bs)
  | (Err e, bs) => ((0, Err e), bs)
  | (Panic, bs) => ((0, Panic), bs)
  end.

Definition auto_View {X} (c : cid) (callback : bytes -> X -> outcome unit * X) (bs : AutobatchBlockstore) (x : X) : outcome unit * AutobatchBlockstore * X :=
  match auto_Get c bs with
  | (Ret blk, bs) => let '(r, x) := callback (RawData blk) x in (r, bs, x)
  | (Err e, bs) => (Err e, bs, x)
  | (Panic, bs) => (Panic, bs, x)
  end.

(** ** The goroutines *)

(** Where [flushWorker] is: waiting for a signal, at [doFlush], waiting to retry, at the last
    flush, returned. *)
Inductive WorkerAt := WIdle | WFlush (retryOnly : bool) | WWait | WLast | WDone.

Inductive Caller := CWorker | CFlush.

(** [holder] has [doFlushLock]: who, the CIDs that had been added when it took the lock, whether
    it only retries, and where it is.  A reader has its CID, whether that had been added when
    the call began, and where it is. *)
Record system := {
  store : AutobatchBlockstore;
  holder : option (Caller * gset cid * bool * FlushAt);
  worker : WorkerAt;
  cancelled : bool;
  readers : gmap nat (cid * bool * GetAt);
}.

Definition start (bs : AutobatchBlockstore) : system := {| store := bs; holder := None; worker := WIdle; cancelled := false; readers := ∅ |}.

Inductive sysEvent :=
| EPut (blk : Block) (* a call of [Put], or a round of [PutMany] *)
| ESignal (* the worker takes the signal from [flushCh] *)
| ERetry (* the delay before a retry is over *)
| EShutdown (* [Shutdown] cancels the context *)
| ECancelled (* the worker sees that *)
| ELock (c : Caller) (* the worker or a call of [Flush] takes [doFlushLock] *)
| EFlush (* the next part of [doFlush] *)
| EGet (id : nat) (c : cid) (* a call of [Get] begins *)
| ERead (id : nat). (* the next part of [Get] *)

Inductive sysOutput := Got (c : cid) (known : bool) (r : outcome Block) | Flushed (before : gset cid) (retryOnly : bool) (r : outcome unit).

Definition setStore (bs : AutobatchBlockstore) (s : system) : system :=
  {| store := bs; holder := holder s; worker := worker s; cancelled := cancelled s; readers := readers s |}.
Definition setHolder (h : option (Caller * gset cid * bool * FlushAt)) (s : system) : system :=
  {| store := store s; holder := h; worker := worker s; cancelled := cancelled s; readers := readers s |}.
Definition setWorker (w : WorkerAt) (s : system) : system :=
  {| store := store s; holder := holder s; worker := w; cancelled := cancelled s; readers := readers s |}.
Definition setReaders (r : gmap nat (cid * bool * GetAt)) (s : system) : system :=
  {| store := store s; holder := holder s; worker := worker s; cancelled := cancelled s; readers := r |}.

(** What the worker does after [doFlush] returned. *)
Definition afterFlush (w : WorkerAt) (err : outcome unit) : WorkerAt :=
  match w with
  | WFlush _ => if isNil err then WIdle else WWait
  | WLast => WDone
  | w => w
  end.

Definition takeSignal (bs : AutobatchBlockstore) : AutobatchBlockstore :=
  {| addedCids := addedCids bs; bufferedBatch := bufferedBatch bs; flushingBatch := flushingBatch bs; flushErr := flushErr bs; flushCh := false;
     backingBs := backingBs bs; bufferCapacity := bufferCapacity bs; bufferSize := bufferSize bs |}.

Definition sysStep (e : sysEvent) (s : system) : option (system * option sysOutput) :=
  match e with
  | EPut blk => Some (setStore (auto_Put blk (store s)) s, None)
  | ESignal =>
      match worker s with
      | WIdle => if flushCh (store s) then Some (setWorker (WFlush false) (setStore (takeSignal (store s)) s), None) else None
      | _ => None
      end
  | ERetry => match worker s with WWait => Some (setWorker (WFlush true) s, None) | _ => None end
  | EShutdown => Some ({| store := store s; holder := holder s; worker := worker s; cancelled := true; readers := readers s |}, None)
  | ECancelled =>
      if cancelled s then
        match worker s with
        | WIdle => Some (setWorker WLast s, None)
        | WWait => Some (setWorker WDone s, None)
        | _ => None
        end
      else None
  | ELock c =>
      match holder s with
      | Some _ => None
      | None =>
          let lock retryOnly := Some (setHolder (Some (c, addedCids (store s), retryOnly, FRetry retryOnly)) s, None) in
          match c, worker s with
          | CFlush, _ => lock false
          | CWorker, WFlush retryOnly => lock retryOnly
          | CWorker, WLast => lock false
          | CWorker, _ => None
          end
      end
  | EFlush =>
      match holder s with
      | None => None
      | Some (c, before, retryOnly, at_) =>
          let '(next, bs) := flushStep at_ (store s) in
          let s := setStore bs s in
          match next with
          | Some at_ => Some (setHolder (Some (c, before, retryOnly, at_)) s, None)
          | None =>
              let w := match c with CWorker => afterFlush (worker s) (flushErr bs) | CFlush => worker s end in
              Some (setWorker w (setHolder None s), Some (Flushed before retryOnly (flushErr bs)))
          end
      end
  | EGet id c =>
      match readers s !! id with
      | Some _ => None
      | None => Some (setReaders (<[id := (c, bool_decide (c ∈ addedCids (store s)), GBacking)]> (readers s)) s, None)
      end
  | ERead id =>
      match readers s !! id with
      | None => None
      | Some (c, known, at_) =>
          let '(next, bs) := getStep c at_ (store s) in
          let s := setStore bs s in
          match next with
          | inl at_ => Some (setReaders (<[id := (c, known, at_)]> (readers s)) s, None)
          | inr r => Some (setReaders (delete id (readers s)) s, Some (Got c known r))
          end
      end
  end.
End autobatch.
Arguments AutobatchBlockstore {_} S.
Arguments system {_} S.
