(* ===== verification/AutobatchProps.v ===== *)
(** * Theorems on the batching block store *)

From stdpp Require Import gmap.
From S2P Require Import Prelude Blockstore BlockstoreProps Autobatch.

Section props.
Context `{BlockOpsOk} (content : bytes -> bytes).
Context {S : Type} `{!Blockstore S} `{!BlockstoreOk content S}.
Implicit Types bs : AutobatchBlockstore S.

Notation inBacking bs c := (cidHash c ∈ bs_set content (backingBs bs)).

Definition block_ok (b : Block) : Prop := bs_dom content (S := S) (blockCid b) /\ valid content b.

Definition event_ok (e : sysEvent) : Prop :=
  match e with
  | EPut blk => block_ok blk
  | EGet _ c => bs_dom content (S := S) c
  | _ => True
  end.

Inductive sysReach (s0 : system S) : system S -> Prop :=
| reach_start : sysReach s0 s0
| reach_step s e s' out : sysReach s0 s -> event_ok e -> sysStep e s = Some (s', out) -> sysReach s0 s'.

(** ** The invariant *)

Definition batch_ok (b : blockBatch) : Prop :=
  Forall block_ok (blockList b) /\ map_Forall (fun c blk => blockCid blk = c /\ blk ∈ blockList b) (blockMap b).

(** The batch that is flushed is in the backing store. *)
Definition written bs : Prop := forall b, b ∈ blockList (flushingBatch bs) -> inBacking bs (blockCid b).

Definition store_ok bs : Prop :=
  bs_inv content (backingBs bs) /\ (isNil (flushErr bs) = true \/ failed (flushErr bs)) /\ batch_ok (bufferedBatch bs) /\ batch_ok (flushingBatch bs) /\
  forall c, c ∈ addedCids bs -> is_Some (blockMap (bufferedBatch bs) !! c) \/ is_Some (blockMap (flushingBatch bs) !! c) \/ inBacking bs c.

(** What a flusher has reached; without one, no error means that the last batch is written. *)
Definition flush_ok (h : option (Caller * gset cid * bool * FlushAt)) bs : Prop :=
  match h with
  | None | Some (_, _, _, FRetry _) => isNil (flushErr bs) = true -> written bs
  | Some (_, _, retryOnly, FTake) => retryOnly = false /\ written bs
  | Some (_, before, retryOnly, FWrite) =>
      retryOnly = false /\ forall c, c ∈ before -> is_Some (blockMap (flushingBatch bs) !! c) \/ inBacking bs c
  | Some (_, before, retryOnly, FReset) =>
      retryOnly = false /\ isNil (flushErr bs) = true /\ written bs /\ forall c, c ∈ before -> inBacking bs c
  end /\
  match h with
  | Some (_, before, retryOnly, at_) => before ⊆ addedCids bs /\ match at_ with FRetry ro => ro = retryOnly | _ => True end
  | None => True
  end.

Definition reader_ok bs (r : cid * bool * GetAt) : Prop :=
  let '(c, known, at_) := r in
  bs_dom content (S := S) c /\ (known = true -> c ∈ addedCids bs) /\
  (known = true -> match at_ with GAgain => inBacking bs c | _ => True end).

Definition sys_inv (s : system S) : Prop :=
  store_ok (store s) /\ flush_ok (holder s) (store s) /\ map_Forall (fun _ => reader_ok (store s)) (readers s).

(** ** Steps *)

(** Nothing leaves the backing store or the CIDs that were added. *)
Definition grows bs bs' : Prop :=
  addedCids bs ⊆ addedCids bs' /\ bs_set content (backingBs bs) ⊆ bs_set content (backingBs bs').

Lemma reader_grows bs bs' r : grows bs bs' -> reader_ok bs r -> reader_ok bs' r.
Proof. intros [G1 G2]. destruct r as [[c known] []]; unfold reader_ok; intros (? & ? & ?); split_and!; by auto. Qed.

Lemma readers_grow bs bs' (m : gmap nat (cid * bool * GetAt)) : grows bs bs' -> map_Forall (fun _ => reader_ok bs) m -> map_Forall (fun _ => reader_ok bs') m.
Proof. intros G Hm i r Hr. by eapply reader_grows, (Hm i). Qed.

Lemma put_ok blk bs h : block_ok blk -> store_ok bs -> flush_ok h bs -> store_ok (auto_Put blk bs) /\ flush_ok h (auto_Put blk bs) /\ grows bs (auto_Put blk bs).
Proof.
  intros Hb (I1 & Ie & [I2 I3] & I4 & I5) [Hf1 Hf2]. unfold auto_Put. case_bool_decide as E; [done|].
  split; [split; [done|]; split; [done|]; split; [split|split; [done|]]|split; [split|split]]; cbn.
  - by apply Forall_app; split; [|constructor].
  - apply map_Forall_insert_2; [set_solver|]. eapply map_Forall_impl; [done|]. cbn. intros c b [? ?]. set_solver.
  - intros c [->%elem_of_singleton|Hc]%elem_of_union; [left; rewrite lookup_insert_eq; eauto|].
    destruct (I5 c Hc) as [?|[?|?]]; [left|by auto..]. destruct (decide (blockCid blk = c)) as [->|?]; [rewrite lookup_insert_eq; eauto|by rewrite lookup_insert_ne].
  - by destruct h as [[[[? ?] ?] []]|].
  - destruct h as [[[[? ?] ?] ?]|]; [|done]. set_solver.
  - set_solver.
  - done.
Qed.

(** The write of the batch. *)
Lemma putBatch_ok bs : store_ok bs ->
  store_ok (putBatch bs) /\ grows bs (putBatch bs) /\ (isNil (flushErr (putBatch bs)) = true -> written (putBatch bs)) /\
  addedCids (putBatch bs) = addedCids bs /\ flushingBatch (putBatch bs) = flushingBatch bs.
Proof.
  intros (I1 & Ie & I2 & I3 & I5). unfold putBatch.
  destruct (PutMany_ok content (blockList (flushingBatch bs)) (backingBs bs) I1 (proj1 I3)) as [J1 J2].
  destruct (bs_PutMany _ (backingBs bs)) as [err backing]; cbn in *.
  assert (bs_set content (backingBs bs) ⊆ bs_set content backing) as Hsub by (destruct J2 as [[_ ->]|(_ & ? & _)]; set_solver).
  assert (isNil err = true \/ failed err) as Herr by (destruct J2 as [[-> _]|[? _]]; auto).
  split; [split; [done|split; [done|]]; split; [done|split; [done|]]|split; [done|split; [|done]]]; cbn.
  - intros c Hc. destruct (I5 c Hc) as [?|[?|?]]; by auto.
  - intros Hn b Hb. cbn in *. destruct J2 as [[_ ->]|[(e & -> & _) _]]; [|done]. apply elem_of_union_r, elem_of_list_to_set, list_elem_of_fmap. eauto.
Qed.

(** What holds after a part of [doFlush] with next part [next]. *)
Definition flush_next (c : Caller) (before : gset cid) (retryOnly : bool) (next : option FlushAt) bs : Prop :=
  match next with
  | Some at_ => flush_ok (Some (c, before, retryOnly, at_)) bs
  | None => flush_ok None bs /\ (retryOnly = false -> isNil (flushErr bs) = true -> forall c, c ∈ before -> inBacking bs c)
  end.

Lemma grows_refl bs : grows bs bs.
Proof. done. Qed.

Lemma retry_ok c before retryOnly bs : store_ok bs -> flush_ok (Some (c, before, retryOnly, FRetry retryOnly)) bs ->
  let '(next, bs') := flushStep (FRetry retryOnly) bs in store_ok bs' /\ grows bs bs' /\ flush_next c before retryOnly next bs'.
Proof.
  intros Hs [Hf [Hb _]]. cbn [flushStep]. set (bs1 := if isNil (flushErr bs) then bs else putBatch bs).
  assert (store_ok bs1 /\ grows bs bs1 /\ (isNil (flushErr bs1) = true -> written bs1) /\ before ⊆ addedCids bs1) as (P1 & P2 & P3 & P4).
  { unfold bs1. destruct (isNil (flushErr bs)) eqn:En; [by rewrite En; auto using grows_refl|].
    destruct (putBatch_ok bs Hs) as (? & ? & ? & E & _). by rewrite E. }
  split; [done|]. split; [done|]. destruct retryOnly; cbn; [by split|].
  destruct (isNil (flushErr bs1)) eqn:En; cbn; [by split; [split; [|apply P3]|]|]. split; [split; [congruence|done]|congruence].
Qed.

(** A block of a batch that is written is in the backing store. *)
Lemma written_map bs c : batch_ok (flushingBatch bs) -> written bs -> is_Some (blockMap (flushingBatch bs) !! c) -> inBacking bs c.
Proof. intros [_ Hm] Hw [b Hb]. destruct (Hm _ _ Hb) as [<- Hin]. by apply Hw. Qed.

Lemma take_ok c before retryOnly bs : store_ok bs -> flush_ok (Some (c, before, retryOnly, FTake)) bs ->
  let '(next, bs') := flushStep FTake bs in store_ok bs' /\ grows bs bs' /\ flush_next c before retryOnly next bs'.
Proof.
  intros (I1 & Ie & I2 & I3 & I5) [[Hr Hw] [Hb _]]. cbn [flushStep].
  assert (forall c, c ∈ addedCids bs -> is_Some (blockMap (bufferedBatch bs) !! c) \/ inBacking bs c) as Hadd.
  { intros c' Hc. destruct (I5 c' Hc) as [?|[Hin|?]]; [by auto| |by auto]. right. by apply written_map. }
  split; [|split; [done|]].
  - split; [done|]. split; [done|]. split; [split; [constructor|apply map_Forall_empty]|]. split; [done|]. cbn. intros c' Hc. right. by apply Hadd.
  - split; [|done]. split; [done|]. cbn. intros c' Hc. by apply Hadd, Hb.
Qed.

Lemma write_ok c before retryOnly bs : store_ok bs -> flush_ok (Some (c, before, retryOnly, FWrite)) bs ->
  let '(next, bs') := flushStep FWrite bs in store_ok bs' /\ grows bs bs' /\ flush_next c before retryOnly next bs'.
Proof.
  intros Hs [[Hr Hc] [Hb _]]. cbn [flushStep]. destruct (putBatch_ok bs Hs) as (P1 & P2 & P3 & P4 & P5). split; [done|]. split; [done|].
  destruct (isNil (flushErr (putBatch bs))) eqn:En; cbn.
  - split; [|by rewrite P4]. split; [done|]. split; [done|]. split; [by apply P3|]. intros c' Hin.
    destruct (Hc c' Hin) as [Hm|?]; [|by apply P2]. apply written_map; [apply P1|by apply P3|by rewrite P5].
  - split; [split; [congruence|done]|congruence].
Qed.

Lemma reset_ok c before retryOnly bs : store_ok bs -> flush_ok (Some (c, before, retryOnly, FReset)) bs ->
  let '(next, bs') := flushStep FReset bs in store_ok bs' /\ grows bs bs' /\ flush_next c before retryOnly next bs'.
Proof.
  intros (I1 & Ie & I2 & I3 & I5) [(Hr & Hn & Hw & Hc) _]. cbn [flushStep]. split; [|split; [done|]].
  - split; [done|]. split; [done|]. split; [done|]. split; [split; [constructor|apply map_Forall_empty]|]. cbn. intros c' Hin.
    destruct (I5 c' Hin) as [?|[Hm|?]]; [by auto| |by auto]. right. right. by apply (written_map bs).
  - split; [|by intros _ _]. split; [|done]. intros _ b Hin. by apply not_elem_of_nil in Hin.
Qed.

Lemma flushStep_ok c before retryOnly at_ bs : store_ok bs -> flush_ok (Some (c, before, retryOnly, at_)) bs ->
  let '(next, bs') := flushStep at_ bs in store_ok bs' /\ grows bs bs' /\ flush_next c before retryOnly next bs'.
Proof.
  intros Hs Hf. destruct at_ as [ro| | |]; [|by apply take_ok|by apply write_ok|by apply reset_ok].
  destruct (proj2 Hf) as [_ ->]. by apply retry_ok.
Qed.

(** ** Reads *)

Lemma onBacking_ok c bs h : store_ok bs -> flush_ok h bs -> bs_dom content (S := S) c ->
  let '(r, bs') := onBacking (bs_Get c) bs in
  store_ok bs' /\ flush_ok h bs' /\ grows bs bs' /\ addedCids bs' = addedCids bs /\ get_answer content (bs_set content (backingBs bs)) c r.
Proof.
  intros (I1 & Ie & I2 & I3 & I5) Hf Hd. unfold onBacking. destruct (Get_ok content c (backingBs bs) I1 Hd) as (J1 & J2 & J3).
  destruct (bs_Get c (backingBs bs)) as [r backing]; cbn in *.
  split; [|split; [|split; [|done]]].
  - split; [done|]. split; [done|]. split; [done|]. split; [done|]. cbn. by rewrite J2.
  - unfold flush_ok, written in *. cbn. rewrite J2. done.
  - split; [done|]. cbn. by rewrite J2.
Qed.

(** A block that was found: its data are those of the hash. *)
Definition found (c : cid) (r : outcome Block) : Prop := (exists b, r = Ret b /\ valid content b /\ cidHash (blockCid b) = cidHash c) \/ failed r.

Lemma getStep_ok c known at_ bs h : store_ok bs -> flush_ok h bs -> reader_ok bs (c, known, at_) ->
  let '(next, bs') := getStep c at_ bs in
  store_ok bs' /\ flush_ok h bs' /\ grows bs bs' /\
  match next with
  | inl at_ => reader_ok bs' (c, known, at_)
  | inr r => found c r \/ (known = false /\ r = Err errNotFound)
  end.
Proof.
  intros Hs Hf (Hd & Hk & Ha). destruct at_; cbn [getStep].
  - pose proof (onBacking_ok c bs h Hs Hf Hd) as Ho. destruct (onBacking (bs_Get c) bs) as [r bs'], Ho as (? & ? & Hg & Hadd & Hr).
    split; [done|]. split; [done|]. split; [done|]. destruct (IsNotFound r) eqn:En; [split; [done|]; split; [by rewrite Hadd|done]|].
    left. destruct Hr as [[_ Hr]|[[_ ->]|Hr]]; [by left|cbn in En; by rewrite bool_decide_eq_true_2 in En|by right].
  - split; [done|]. split; [done|]. split; [done|]. destruct Hs as (I1 & Ie & [B1 B2] & [F1 F2] & I5).
    assert (forall b l, blockCid b = c /\ b ∈ l -> Forall block_ok l -> found c (Ret b)) as Hfound.
    { intros b l [<- Hin] Hl. left. rewrite Forall_forall in Hl. destruct (Hl b Hin) as [_ ?]. eauto. }
    destruct (blockMap (flushingBatch bs) !! c) as [b|] eqn:Ef; [left; eapply Hfound; [by apply (F2 _ _ Ef)|done]|].
    destruct (blockMap (bufferedBatch bs) !! c) as [b|] eqn:Eb; [left; eapply Hfound; [by apply (B2 _ _ Eb)|done]|].
    split; [done|]. split; [done|]. intros Hkn. destruct (I5 c (Hk Hkn)) as [[? ?]|[[? ?]|?]]; [congruence..|done].
  - pose proof (onBacking_ok c bs h Hs Hf Hd) as Ho. destruct (onBacking (bs_Get c) bs) as [r bs'], Ho as (? & ? & Hg & Hadd & Hr).
    split; [done|]. split; [done|]. split; [done|]. destruct Hr as [[_ Hr]|[[Hn ->]|Hr]]; [by left; left| |by left; right].
    right. split; [|done]. destruct known; [by destruct Hn; apply Ha|done].
Qed.

(** ** The system *)

Lemma sysStep_inv e s s' out : event_ok e -> sys_inv s -> sysStep e s = Some (s', out) ->
  sys_inv s' /\
  match out with
  | Some (Got c known r) => found c r \/ (known = false /\ r = Err errNotFound)
  | Some (Flushed before retryOnly err) =>
      (err = Ret tt \/ failed err) /\ (retryOnly = false -> err = Ret tt -> forall c, c ∈ before -> inBacking (store s') c)
  | None => True
  end.
Proof.
  intros He (Hs & Hf & Hr) Hstep. destruct e as [blk| | | | |c| |id c|id]; cbn [sysStep] in Hstep.
  - injection Hstep as <- <-. destruct (put_ok blk (store s) (holder s) He Hs Hf) as (P1 & P2 & P3). split; [|done].
    split; [done|]. split; [done|]. by eapply readers_grow.
  - repeat case_match; simplify_eq. by split.
  - repeat case_match; simplify_eq. by split.
  - simplify_eq. by split.
  - repeat case_match; simplify_eq; by split.
  - destruct (holder s) eqn:Eh; [done|]. destruct Hf as [Hf _]. repeat case_match; simplify_eq; (split; [|done]); (split; [done|]); (split; [|done]); (split; [exact Hf|by split]).
  - destruct (holder s) as [[[[c before] retryOnly] at_]|] eqn:Eh; [|done].
    pose proof (flushStep_ok c before retryOnly at_ (store s) Hs Hf) as Hstep'.
    destruct (flushStep at_ (store s)) as [[at'|] bs'], Hstep' as (P1 & P2 & P3); injection Hstep as <- <-;
      (split; [split; [done|]; split; [apply P3|by eapply readers_grow]|]); [done|].
    destruct P1 as (_ & [Hn|Hn] & _); (split; [|intros Hro Herr; apply P3; [done|by rewrite Herr]]); [left|by right].
    by destruct (flushErr bs') as [[]| |].
  - destruct (readers s !! id) eqn:Er; [done|]. injection Hstep as <- <-. split; [|done]. split; [done|]. split; [done|].
    apply map_Forall_insert_2; [|done]. split; [done|]. split; [apply bool_decide_eq_true_1|done].
  - destruct (readers s !! id) as [[[c known] at_]|] eqn:Er; [|done].
    pose proof (getStep_ok c known at_ (store s) (holder s) Hs Hf (Hr _ _ Er)) as Hstep'.
    destruct (getStep c at_ (store s)) as [[at'|r] bs'], Hstep' as (P1 & P2 & P3 & P4); injection Hstep as <- <-;
      (split; [split; [done|]; split; [done|]|done]); [apply map_Forall_insert_2; [done|]|apply map_Forall_delete]; by eapply readers_grow.
Qed.

Lemma start_inv backing capacity : bs_inv content backing -> sys_inv (start (NewAutobatch backing capacity)).
Proof.
  intros Hb. assert (batch_ok emptyBatch) by (split; [constructor|apply map_Forall_empty]).
  split; [|split; [split; [|done]|apply map_Forall_empty]].
  - split; [done|]. split; [by left|]. split; [done|]. split; [done|]. intros c Hc. by apply not_elem_of_empty in Hc.
  - intros _ b Hb'. by apply not_elem_of_nil in Hb'.
Qed.

Lemma sysReach_inv backing capacity s : bs_inv content backing -> sysReach (start (NewAutobatch backing capacity)) s -> sys_inv s.
Proof. intros Hb. induction 1 as [|s e s' out Hr IH He Hs]; [by apply start_inv|]. by apply (sysStep_inv e s s' out). Qed.

(** [C12] The batching store loses no block, whatever the order in which calls of [Put], [Get] and
    [Flush], the flushing goroutine and its retries interleave, and however often the backing
    store fails.  A [Get] of a CID that was put before the call began gives a block with the data
    of its hash, or an error of the backing store, and never that the block is missing, also
    while the block moves from the buffer to the batch and to the backing store.  A [Flush] that
    returns without an error has brought every block that was put before it to the backing
    store. *)
Theorem autobatch_keeps backing capacity s e s' out :
  bs_inv content backing -> sysReach (start (NewAutobatch backing capacity)) s -> event_ok e -> sysStep e s = Some (s', Some out) ->
  match out with
  | Got c known r =>
      (exists b, r = Ret b /\ valid content b /\ cidHash (blockCid b) = cidHash c) \/ failed r \/ (known = false /\ r = Err errNotFound)
  | Flushed before retryOnly err =>
      (err = Ret tt \/ failed err) /\
      (retryOnly = false -> err = Ret tt -> forall c, c ∈ before -> cidHash c ∈ bs_set content (backingBs (store s')))
  end.
Proof.
  intros Hb Hr He Hs. apply (sysStep_inv e s s' _ He) in Hs as [_ Ho]; [|by eapply sysReach_inv]. destruct out; [|done].
  destruct Ho as [[?|?]|?]; by auto.
Qed.

(** The size of the buffer is not reset by a flush: once it is over the capacity, every block
    that is put signals a flush. *)
Lemma buffer_size_kept retryOnly bs : bufferSize (doFlush retryOnly bs).2 = bufferSize bs.
Proof.
  assert (forall bs, bufferSize (putBatch bs) = bufferSize bs) as Hp by (intros x; unfold putBatch; by destruct (bs_PutMany _ (backingBs x))).
  unfold doFlush, flushStep. destruct (isNil (flushErr bs)); repeat case_match; simplify_eq; cbn; rewrite ?Hp; cbn; by rewrite ?Hp.
Qed.

Lemma full_buffer_signals blk bs : bufferCapacity bs <= bufferSize bs -> blockCid blk ∉ addedCids bs -> flushCh (auto_Put blk bs) = true.
Proof.
  intros Hc Hn. unfold auto_Put. rewrite bool_decide_eq_false_2 by done. cbn. apply orb_true_iff. right. apply Z.leb_le. unfold len. lia.
Qed.
End props.

(** ** A read that races with a flush *)

#[local] Existing Instances demoCid demoBlockOps demoBlockOpsOk.

Fixpoint sysRun {S} `{!Blockstore S} (es : list sysEvent) (s : system S) : option (system S) :=
  match es with
  | [] => Some s
  | e :: es => match sysStep e s with Some (s, _) => sysRun es s | None => None end
  end.

Lemma sysRun_reach s0 s es s' :
  sysReach demoContent (S := MemBlockstore) s0 s -> Forall (event_ok demoContent (S := MemBlockstore)) es -> sysRun es s = Some s' ->
  sysReach demoContent (S := MemBlockstore) s0 s'.
Proof.
  intros Hr Hes. revert s Hr. induction Hes as [|e es He Hes IH]; intros s Hr; cbn [sysRun]; [by intros [= <-]|].
  destruct (sysStep e s) as [[s1 out]|] eqn:E; [|done]. apply IH. by eapply reach_step.
Qed.

Definition demoRace : list sysEvent :=
  [EPut (demoBlock [7]); EGet 0 (85, [18; 7]); ERead 0; ELock CFlush; EFlush; EFlush; EFlush; EFlush; ERead 0].

(** The block moves to the backing store between the two looks of the reader, who finds it when
    it looks there again. *)
Lemma autobatch_keeps_witness :
  exists s s' b,
    sysReach demoContent (S := MemBlockstore) (start (NewAutobatch ∅ 100)) s /\
    sysStep (ERead 0) s = Some (s', Some (Got (85, [18; 7]) true (Ret b))) /\ valid demoContent b.
Proof.
  assert ((s ← sysRun demoRace (start (NewAutobatch (∅ : MemBlockstore) 100)); x ← sysStep (ERead 0) s; x.2)
          = Some (Got (85, [18; 7]) true (Ret (demoBlock [7])))) as Hout by (by vm_compute).
  destruct (sysRun demoRace (start (NewAutobatch (∅ : MemBlockstore) 100))) as [s|] eqn:E; [|done]. cbn [mbind option_bind] in Hout.
  destruct (sysStep (ERead 0) s) as [[s' out]|] eqn:Hs; [|done]. cbn [mbind option_bind snd] in Hout. subst out.
  assert (sysReach demoContent (S := MemBlockstore) (start (NewAutobatch ∅ 100)) s) as Hr.
  { eapply sysRun_reach; [apply reach_start| |exact E]. repeat constructor. }
  assert (bs_inv demoContent (∅ : MemBlockstore)) as Hi by apply map_Forall_empty.
  exists s, s', (demoBlock [7]). split; [done|]. split; [done|].
  destruct (autobatch_keeps demoContent (S := MemBlockstore) ∅ 100 s (ERead 0) s' _ Hi Hr I Hs)
    as [(b & [= <-] & Hb & _)|[(e & [=] & _)|[[=] _]]]. exact Hb.
Defined.
