(* ===== verification/Kv.v ===== *)
(** * Datastores

    The datastore of go-datastore, as a class of calls that may fail, the laws that its users
    rely on, and the computations over it. *)

From stdpp Require Import gmap.
From S2P Require Import Prelude.

Class Kv := {
  kv : Type;
  dsKey : Type;
  dsKey_eq_dec :: EqDecision dsKey;
  dsKey_countable :: Countable dsKey;
  NewKey : string -> dsKey;
  KeyWithNamespaces : list string -> dsKey;
  kv_Get : dsKey -> kv -> outcome (option bytes) * kv; (* [None] is [ErrNotFound] *)
  kv_Put : dsKey -> bytes -> kv -> outcome unit * kv;
  kv_Delete : dsKey -> kv -> outcome unit * kv;
}.

(** The contents of a datastore; a failed write may have been done or not. *)
Class KvOk `{Kv} := {
  kv_view : kv -> gmap dsKey bytes;
  kv_Get_ok k s : kv_view (kv_Get k s).2 = kv_view s /\ ((kv_Get k s).1 = Ret (kv_view s !! k) \/ exists e, (kv_Get k s).1 = Err e);
  kv_Put_ok k v s :
    ((kv_Put k v s).1 = Ret tt /\ kv_view (kv_Put k v s).2 = <[k := v]> (kv_view s)) \/
    ((exists e, (kv_Put k v s).1 = Err e) /\ (kv_view (kv_Put k v s).2 = kv_view s \/ kv_view (kv_Put k v s).2 = <[k := v]> (kv_view s)));
  kv_Delete_ok k s :
    ((kv_Delete k s).1 = Ret tt /\ kv_view (kv_Delete k s).2 = delete k (kv_view s)) \/
    ((exists e, (kv_Delete k s).1 = Err e) /\ (kv_view (kv_Delete k s).2 = kv_view s \/ kv_view (kv_Delete k s).2 = delete k (kv_view s)));
}.

Section monad.
Context `{Kv}.

Definition KM (A : Type) : Type := kv -> outcome A * kv.

#[export] Instance KM_ret : MRet KM := fun A a s => (Ret a, s).
#[export] Instance KM_bind : MBind KM := fun A B f m s =>
  match m s with
  | (Ret a, s) => f a s
  | (Err e, s) => (Err e, s)
  | (Panic, s) => (Panic, s)
  end.

Definition kfail {A} (e : string) : KM A := fun s => (Err e, s).
Definition klift {A} (r : outcome A) : KM A := fun s => (r, s).
End monad.

(** ** Reasoning *)

Section triples.
Context `{KvOk}.

(** From every store that satisfies [P] a result satisfies [Q] and an error leaves [E]. *)
Definition ktriple {A} (P : gmap dsKey bytes -> Prop) (m : KM A) (Q : A -> gmap dsKey bytes -> Prop) (E : gmap dsKey bytes -> Prop) : Prop :=
  forall s, P (kv_view s) -> match m s with (Ret a, s') => Q a (kv_view s') | (Err _, s') => E (kv_view s') | (Panic, _) => False end.

Lemma ktriple_ret {A} P (a : A) Q E : (forall v, P v -> Q a v) -> ktriple P (mret a) Q E.
Proof. intros HQ s Hs. by apply HQ. Qed.

Lemma ktriple_fail {A} P e (Q : A -> _ -> Prop) (E : _ -> Prop) : (forall v, P v -> E v) -> ktriple P (kfail e) Q E.
Proof. intros HE s Hs. by apply HE. Qed.

Lemma ktriple_lift {A} P (r : outcome A) (Q : A -> _ -> Prop) (E : _ -> Prop) :
  r <> Panic -> (forall v, P v -> E v) -> (forall v a, P v -> r = Ret a -> Q a v) -> ktriple P (klift r) Q E.
Proof. intros Hp HE HQ s Hs. unfold klift. destruct r; [by apply HQ|by apply HE|done]. Qed.

Lemma ktriple_bind {A B} P (m : KM A) (f : A -> KM B) Q R E :
  ktriple P m Q E -> (forall a, ktriple (Q a) (f a) R E) -> ktriple P (m ≫= f) R E.
Proof.
  intros Hm Hf s Hs. specialize (Hm s Hs). unfold mbind, KM_bind. destruct (m s) as [[a|e|] s']; [|done..]. by apply Hf.
Qed.

Lemma ktriple_Get P k (E : _ -> Prop) : (forall v, P v -> E v) -> ktriple P (kv_Get k) (fun r v => P v /\ r = v !! k) E.
Proof.
  intros HE s Hs. destruct (kv_Get_ok k s) as [Hv Hr]. destruct (kv_Get k s) as [r s']; cbn in *. rewrite Hv.
  destruct Hr as [->|[e ->]]; [done|by apply HE].
Qed.

Lemma ktriple_Put P k x (E : _ -> Prop) : (forall v, P v -> E v /\ E (<[k := x]> v)) -> ktriple P (kv_Put k x) (fun _ v => exists v0, P v0 /\ v = <[k := x]> v0) E.
Proof.
  intros HE s Hs. destruct (HE _ Hs) as [H1 H2]. destruct (kv_Put_ok k x s) as [[Hr Hv]|[[e Hr] Hv]]; destruct (kv_Put k x s) as [r s']; cbn in *; subst r; [eauto|].
  by destruct Hv as [->| ->].
Qed.

Lemma ktriple_Delete P k (E : _ -> Prop) : (forall v, P v -> E v /\ E (delete k v)) -> ktriple P (kv_Delete k) (fun _ v => exists v0, P v0 /\ v = delete k v0) E.
Proof.
  intros HE s Hs. destruct (HE _ Hs) as [H1 H2]. destruct (kv_Delete_ok k s) as [[Hr Hv]|[[e Hr] Hv]]; destruct (kv_Delete k s) as [r s']; cbn in *; subst r; [eauto|].
  by destruct Hv as [->| ->].
Qed.

Lemma ktriple_conseq {A} (P P' : _ -> Prop) (m : KM A) (Q Q' : A -> _ -> Prop) (E E' : _ -> Prop) :
  ktriple P' m Q' E' -> (forall v, P v -> P' v) -> (forall a v, Q' a v -> Q a v) -> (forall v, E' v -> E v) -> ktriple P m Q E.
Proof. intros Hm HP HQ HE s Hs. specialize (Hm s (HP _ Hs)). destruct (m s) as [[a|e|] s']; eauto. Qed.
End triples.

(** ** A datastore in memory *)

#[local] Instance memKv : Kv := {|
  kv := gmap (list string) bytes; dsKey := list string; NewKey s := [s]; KeyWithNamespaces l := l;
  kv_Get k s := (Ret (s !! k), s); kv_Put k v s := (Ret tt, <[k := v]> s); kv_Delete k s := (Ret tt, delete k s);
|}.

#[local, program] Instance memKvOk : KvOk := {| kv_view s := s |}.
Next Obligation. intros k s. split; [done|by left]. Qed.
Next Obligation. intros k v s. by left. Qed.
Next Obligation. intros k s. by left. Qed.
