(* ===== verification/NumAssign.v ===== *)
(** * Sector numbers: storage/pipeline/numassign.go

    Numbers for new sectors are the least ones that are neither allocated before, nor reserved
    by the operator, nor allocated on the chain.  The sets are bitfields of go-bitfield in a
    datastore.  Calls are whole steps: all but [NumFree] hold [sclk]. *)

From stdpp Require Import gmap.
From Stdlib Require Import Ascii.
From S2P Require Import Prelude Kv.

Class BitFields := {
  BitField : Type;
  bf_New : BitField;
  bf_NewFromRun : Z -> outcome BitField; (* [NewFromIter] of one run of ones *)
  bf_Set : Z -> BitField -> BitField;
  bf_Merge : BitField -> BitField -> outcome BitField;
  bf_Subtract : BitField -> BitField -> outcome BitField;
  bf_Intersect : BitField -> BitField -> outcome BitField;
  bf_IsEmpty : BitField -> outcome bool;
  bf_Count : BitField -> outcome Z;
  bf_Slice : BitField -> Z -> Z -> outcome BitField;
  bf_RunIterator : BitField -> outcome (list (outcome (bool * Z))); (* the answers of [NextRun] *)
  bf_Marshal : BitField -> outcome bytes;
  bf_Unmarshal : bytes -> outcome BitField;
}.

Definition StorageCounterDSPrefix : string := "/storage/nextid".
Definition SectorBitfieldsDSPrefix : string := "/storage/sectorsids/".
Definition SectorReservationsDSPrefix : string := "/storage/sectorsids/reserved/".

(** ** encoding/binary *)

(** [PutUvarint]: seven bits per byte, the lowest first. *)
Fixpoint putUvarint (n : nat) (x : Z) : bytes :=
  match n with
  | O => []
  | S n => if x <? 128 then [x] else Z.lor (u8 x) 128 :: putUvarint n (Z.shiftr x 7)
  end.

(** The value of [Uvarint]: 0 for a short buffer or an overflow. *)
Fixpoint uvarint (i : nat) (x s : Z) (buf : bytes) : Z :=
  match buf with
  | [] => 0
  | b :: buf =>
      if (i =? 10)%nat then 0
      else if b <? 128 then if (i =? 9)%nat && (1 <? b) then 0 else Z.lor x (u64 (Z.shiftl b s))
      else uvarint (S i) (Z.lor x (u64 (Z.shiftl (Z.land b 127) s))) (s + 7) buf
  end.

Section assign.
Context `{Kv} `{BitFields}.

Definition allocatedSectorsKey : dsKey := NewKey (SectorBitfieldsDSPrefix +:+ "allocated").
Definition reservedSectorsKey : dsKey := NewKey (SectorBitfieldsDSPrefix +:+ "reserved").

Definition loadBitField (name : dsKey) : KM (option BitField) :=
  raw ← kv_Get name;
  match raw with
  | None => mret None
  | Some raw => bf ← klift (bf_Unmarshal raw); mret (Some bf)
  end.

Definition saveBitField (name : dsKey) (bf : BitField) : KM unit :=
  bb ← klift (bf_Marshal bf); kv_Put name bb.

Record NumAssignerMeta := {
  Reserved : BitField;
  Allocated : BitField;
  InUse : BitField;
  Next : Z;
}.

(** The sum of the lengths of the runs of ones that come first. *)
Fixpoint firstFree (runs : list (outcome (bool * Z))) (n : Z) : outcome Z :=
  match runs with
  | [] => Ret n
  | r :: runs =>
      '(v, l) ← r;
      if negb v then Ret n else firstFree runs (u64 (n + l))
  end.

(** One more than the counter that earlier versions kept. *)
Definition legacyCount : KM Z :=
  cur ← kv_Get (NewKey StorageCounterDSPrefix);
  mret (match cur with Some cur => u64 (uvarint 0 0 0 cur + 1) | None => 0 end).

(** [stateAllocated] is the answer of [StateMinerAllocated]. *)
Definition numAssignerMetaLocked (stateAllocated : outcome (option BitField)) : KM NumAssignerMeta :=
  reserved ← loadBitField reservedSectorsKey;
  allocated ← loadBitField allocatedSectorsKey;
  allocated ← (match allocated with
               | Some bf => mret bf
               | None => i ← legacyCount; klift (bf_NewFromRun i)
               end : KM BitField);
  let reserved := default bf_New reserved in
  inuse ← klift (bf_Merge reserved allocated);
  chain ← klift stateAllocated;
  match chain with
  | None => kfail "getting state-allocated sector numbers"
  | Some chain =>
      inuse ← klift (bf_Merge inuse chain);
      iri ← klift (bf_RunIterator inuse);
      next ← klift (firstFree iri 0);
      mret {| Reserved := reserved; Allocated := allocated; InUse := inuse; Next := next |}
  end.

Definition NextSectorNumber (stateAllocated : outcome (option BitField)) : KM Z :=
  am ← numAssignerMetaLocked stateAllocated;
  _ ← saveBitField allocatedSectorsKey (bf_Set (Next am) (Allocated am));
  _ ← kv_Put (NewKey StorageCounterDSPrefix) (putUvarint 10 (Next am));
  mret (Next am).

(** ** Reservations *)

Definition allowedChar (a : ascii) : bool :=
  let n := Z.of_nat (nat_of_ascii a) in
  ((97 <=? n) && (n <=? 122)) || ((65 <=? n) && (n <=? 90)) || ((48 <=? n) && (n <=? 57)) || (n =? 95) || (n =? 45).

(** The regular expression of names: one or more letters, digits, underscores and dashes. *)
Fixpoint allAllowed (name : string) : bool :=
  match name with
  | EmptyString => true
  | String a name => allowedChar a && allAllowed name
  end.

Definition validName (name : string) : bool := negb (bool_decide (name = EmptyString)) && allAllowed name.

Definition reservationKey (name : string) : outcome dsKey :=
  if validName name then Ret (KeyWithNamespaces [SectorReservationsDSPrefix; name])
  else Err "reservation name contained disallowed characters (allowed: a-z, A-Z, 0-9, '-', '_')".

(** A check that two sets are disjoint, unless it is forced. *)
Definition checkColliding (all reserving : BitField) (force : bool) (msg : string) : KM unit :=
  colliding ← klift (bf_Intersect all reserving);
  empty ← klift (bf_IsEmpty colliding);
  if negb empty && negb force then kfail msg else mret tt.

(** The reservation of the name, which is replaced by force only. *)
Definition currentReservation (rk : dsKey) (force : bool) : KM BitField :=
  curRes ← kv_Get rk;
  match curRes with
  | None => mret bf_New
  | Some curRes => if negb force then kfail "reservation with this name already exists" else klift (bf_Unmarshal curRes)
  end.

Definition numReserveLocked (stateAllocated : outcome (option BitField)) (name : string) (reserving : BitField) (force : bool) : KM unit :=
  rk ← klift (reservationKey name);
  cur ← currentReservation rk force;
  nm ← numAssignerMetaLocked stateAllocated;
  allReserved ← klift (bf_Subtract (Reserved nm) cur);
  _ ← checkColliding allReserved reserving force "new reservation is colliding with another existing reservation";
  _ ← checkColliding (Allocated nm) reserving force "new reservation is colliding with allocated sector numbers";
  newReserved ← klift (bf_Merge allReserved reserving);
  _ ← saveBitField rk reserving;
  saveBitField reservedSectorsKey newReserved.

Definition NumReserve : outcome (option BitField) -> string -> BitField -> bool -> KM unit := numReserveLocked.

(** The chain is asked twice. *)
Definition NumReserveCount (stateAllocated stateAllocated' : outcome (option BitField)) (name : string) (count : Z) : KM BitField :=
  nm ← numAssignerMetaLocked stateAllocated;
  usedCount ← klift (bf_Count (InUse nm));
  mask ← klift (bf_NewFromRun (u64 (count + usedCount)));
  free ← klift (bf_Subtract mask (InUse nm));
  free ← klift (bf_Slice free 0 count);
  _ ← numReserveLocked stateAllocated' name free false;
  mret free.

Definition NumFree (name : string) : KM unit :=
  rk ← klift (reservationKey name);
  res ← loadBitField rk;
  match res with
  | None => kfail "reservation with this name doesn't exist"
  | Some res =>
      allRes ← loadBitField reservedSectorsKey;
      match allRes with
      | None => kfail "all reservations bitfield not found"
      | Some allRes =>
          newAll ← klift (bf_Subtract allRes res);
          _ ← saveBitField reservedSectorsKey newAll;
          kv_Delete rk
      end
  end.
End assign.

(** ** What is relied on *)

(** Bit [i] by the runs, as far as they could be read. *)
Fixpoint runAt (runs : list (outcome (bool * Z))) (i : Z) : option bool :=
  match runs with
  | [] => Some false
  | Ret (v, l) :: runs => if i <? l then Some v else runAt runs (i - l)
  | _ => None
  end.

Definition runLen (r : outcome (bool * Z)) : Z := match r with Ret (_, l) => l | _ => 0 end.

(** A bitfield is a finite set of natural numbers. *)
Class BitFieldsOk `{BitFields} := {
  bits : BitField -> gset Z;
  bits_nonneg bf i : i ∈ bits bf -> 0 <= i;
  bits_New : bits bf_New = ∅;
  bits_NewFromRun n bf : bf_NewFromRun n = Ret bf -> forall i, i ∈ bits bf <-> 0 <= i < n;
  bits_Set n bf : 0 <= n -> bits (bf_Set n bf) = {[n]} ∪ bits bf;
  bits_Merge a b bf : bf_Merge a b = Ret bf -> bits bf = bits a ∪ bits b;
  bits_Marshal bf raw : bf_Marshal bf = Ret raw -> exists bf', bf_Unmarshal raw = Ret bf' /\ bits bf' = bits bf;
  bits_Runs bf runs : bf_RunIterator bf = Ret runs ->
    Forall (fun r => r <> Panic /\ forall v l, r = Ret (v, l) -> 0 < l) runs /\ sumZ runLen runs < 18446744073709551616 /\
    forall i v, 0 <= i -> runAt runs i = Some v -> (v = true <-> i ∈ bits bf);
  np_NewFromRun n : bf_NewFromRun n <> Panic;
  np_Merge a b : bf_Merge a b <> Panic;
  np_Subtract a b : bf_Subtract a b <> Panic;
  np_Intersect a b : bf_Intersect a b <> Panic;
  np_IsEmpty a : bf_IsEmpty a <> Panic;
  np_Count a : bf_Count a <> Panic;
  np_Slice a i j : bf_Slice a i j <> Panic;
  np_RunIterator a : bf_RunIterator a <> Panic;
  np_Marshal a : bf_Marshal a <> Panic;
  np_Unmarshal raw : bf_Unmarshal raw <> Panic;
}.

Create HintDb nopanic discriminated.
#[export] Hint Resolve np_NewFromRun np_Merge np_Subtract np_Intersect np_IsEmpty np_Count np_Slice np_RunIterator np_Marshal np_Unmarshal : nopanic.

(** The keys are different paths. *)
Class KeysOk `{Kv} : Prop := {
  keys_reserved : reservedSectorsKey <> allocatedSectorsKey;
  keys_counter : NewKey StorageCounterDSPrefix <> allocatedSectorsKey;
  keys_reserved_counter : reservedSectorsKey <> NewKey StorageCounterDSPrefix;
  keys_named name rk : reservationKey name = Ret rk -> rk <> allocatedSectorsKey /\ rk <> NewKey StorageCounterDSPrefix;
}.

(** ** The next number *)

Lemma firstFree_spec runs n k :
  Forall (fun r => r <> Panic /\ forall v l, r = Ret (v, l) -> 0 < l) runs -> 0 <= n -> n + sumZ runLen runs < 18446744073709551616 ->
  firstFree runs n = Ret k ->
  n <= k /\ runAt runs (k - n) = Some false /\ forall i, n <= i < k -> runAt runs (i - n) = Some true.
Proof.
  revert n. induction runs as [|r runs IH]; intros n Hr Hn Hs; cbn [firstFree runAt].
  { intros [= <-]. split; [lia|]. split; [done|lia]. }
  apply Forall_cons in Hr as [[Hp Hl] Hr]. destruct r as [[v l]|e|]; cbn [mbind outcome_bind]; [|done..].
  specialize (Hl v l eq_refl). assert (sumZ runLen runs >= 0) as Hpos.
  { clear -Hr. induction Hr as [|r runs [_ Hl] Hr IH]; cbn; [lia|]. unfold sumZ in *. destruct r as [[v l]|e|]; cbn in *; [specialize (Hl v l eq_refl)|..]; lia. }
  unfold sumZ in Hs, Hpos, IH. cbn in Hs. destruct v; cbn [negb].
  - rewrite (u64_id (n + l)) by (unfold in_u64; lia). intros Hk. destruct (IH (n + l)) as (I1 & I2 & I3); [done|lia|lia|done|].
    split; [lia|]. split.
    + replace (k - n <? l) with false by lia. by replace (k - n - l) with (k - (n + l)) by lia.
    + intros i Hi. destruct (i - n <? l) eqn:E; [done|]. replace (i - n - l) with (i - (n + l)) by lia. apply I3. lia.
  - intros [= <-]. split; [lia|]. split; [by replace (n - n <? l) with true by lia|lia].
Qed.

Section props.
Context `{KvOk} `{BitFieldsOk} `{!KeysOk}.

(** The numbers that were given out, by the contents of the datastore. *)
Definition allocatedIn (v : gmap dsKey bytes) (n : Z) : Prop :=
  match v !! allocatedSectorsKey with
  | Some raw => exists bf, bf_Unmarshal raw = Ret bf /\ n ∈ bits bf
  | None => 0 <= n < match v !! NewKey StorageCounterDSPrefix with Some cur => u64 (uvarint 0 0 0 cur + 1) | None => 0 end
  end.

Definition reservedIn (v : gmap dsKey bytes) (n : Z) : Prop :=
  exists raw bf, v !! reservedSectorsKey = Some raw /\ bf_Unmarshal raw = Ret bf /\ n ∈ bits bf.

(** The least number that is not in use. *)
Definition leastFree (v : gmap dsKey bytes) (stateAllocated : outcome (option BitField)) (n : Z) : Prop :=
  exists chain, stateAllocated = Ret (Some chain) /\ 0 <= n /\ ~ (allocatedIn v n \/ reservedIn v n \/ n ∈ bits chain) /\
  forall i, 0 <= i < n -> allocatedIn v i \/ reservedIn v i \/ i ∈ bits chain.

(** A computation that leaves the contents as they are. *)
Definition kreads {A} (m : KM A) (v0 : gmap dsKey bytes) (Q : A -> Prop) : Prop :=
  ktriple (fun v => v = v0) m (fun a v => v = v0 /\ Q a) (fun v => v = v0).

Lemma kreads_ret {A} (a : A) v0 (Q : A -> Prop) : Q a -> kreads (mret a) v0 Q.
Proof. intros HQ. by apply ktriple_ret. Qed.

Lemma kreads_lift {A} (r : outcome A) v0 (Q : A -> Prop) : r <> Panic -> (forall a, r = Ret a -> Q a) -> kreads (klift r) v0 Q.
Proof. intros Hp HQ. apply ktriple_lift; [done..|]. intros v a -> Hr. auto. Qed.

Lemma kreads_Get k v0 : kreads (kv_Get k) v0 (fun r => r = v0 !! k).
Proof. eapply ktriple_conseq; [by apply (ktriple_Get (fun v => v = v0) k (fun v => v = v0))|done| |done]. by intros a v [-> ->]. Qed.

Lemma kreads_bind {A B} (m : KM A) (f : A -> KM B) v0 Q R : kreads m v0 Q -> (forall a, Q a -> kreads (f a) v0 R) -> kreads (m ≫= f) v0 R.
Proof.
  intros Hm Hf. eapply ktriple_bind; [exact Hm|]. intros a s [Hs HQ]. by apply Hf.
Qed.

Lemma load_reads k v0 :
  kreads (loadBitField k) v0 (fun r => match v0 !! k with None => r = None | Some raw => exists bf, bf_Unmarshal raw = Ret bf /\ r = Some bf end).
Proof.
  eapply kreads_bind; [apply kreads_Get|]. intros r ->. destruct (v0 !! k) as [raw|]; [|by apply kreads_ret].
  eapply kreads_bind; [apply (kreads_lift _ _ (fun bf => bf_Unmarshal raw = Ret bf)); [auto with nopanic|done]|].
  intros bf Hbf. apply kreads_ret. by exists bf.
Qed.

Lemma meta_reads stateAllocated v0 : stateAllocated <> Panic ->
  kreads (numAssignerMetaLocked stateAllocated) v0
    (fun am => (forall n, n ∈ bits (Allocated am) <-> allocatedIn v0 n) /\ leastFree v0 stateAllocated (Next am)).
Proof.
  intros Hp. unfold numAssignerMetaLocked.
  eapply kreads_bind; [apply load_reads|]. intros reserved Hres.
  eapply kreads_bind; [apply load_reads|]. intros allocated Hall.
  eapply (kreads_bind _ _ _ (fun bf => forall n, n ∈ bits bf <-> allocatedIn v0 n)).
  { unfold allocatedIn. destruct (v0 !! allocatedSectorsKey) as [raw|].
    - destruct Hall as (bf & Hbf & ->). apply kreads_ret. intros n. split; [eauto|]. intros (bf' & Hbf' & Hn). congruence.
    - subst allocated. unfold legacyCount.
      eapply (kreads_bind _ _ _ (fun i => i = match v0 !! NewKey StorageCounterDSPrefix with Some cur => u64 (uvarint 0 0 0 cur + 1) | None => 0 end)).
      { eapply kreads_bind; [apply kreads_Get|]. intros r ->. by apply kreads_ret. }
      intros i ->. apply kreads_lift; [auto with nopanic|]. apply bits_NewFromRun. }
  clear allocated Hall. intros allocated Hall.
  assert (forall n, n ∈ bits (default bf_New reserved) <-> reservedIn v0 n) as Hres'.
  { intros n. unfold reservedIn. destruct (v0 !! reservedSectorsKey) as [raw|]; [destruct Hres as (bf & Hbf & ->)|subst reserved]; cbn.
    - split; [eauto|]. intros (raw' & bf' & [= <-] & Hbf' & Hn). congruence.
    - rewrite bits_New. split; [set_solver|]. by intros (raw' & bf' & ? & _). }
  eapply kreads_bind; [apply (kreads_lift _ _ (fun bf => bf_Merge (default bf_New reserved) allocated = Ret bf)); [auto with nopanic|done]|]. intros inuse Hin.
  eapply kreads_bind; [by apply (kreads_lift _ _ (fun c => stateAllocated = Ret c))|]. intros [chain|] Hch; [|by apply ktriple_fail].
  eapply kreads_bind; [apply (kreads_lift _ _ (fun bf => bf_Merge inuse chain = Ret bf)); [auto with nopanic|done]|]. intros inuse2 Hin2.
  eapply kreads_bind; [apply (kreads_lift _ _ (fun rs => bf_RunIterator inuse2 = Ret rs)); [auto with nopanic|done]|]. intros runs Hruns.
  destruct (bits_Runs _ _ Hruns) as (R1 & R2 & R3).
  eapply kreads_bind; [apply (kreads_lift _ _ (fun n => firstFree runs 0 = Ret n)); [|done]|].
  { clear -R1. generalize 0. induction R1 as [|r runs [Hr _] R1 IH]; intros n; cbn; [done|]. destruct r as [[[] l]|e|]; cbn; [apply IH|done..]. }
  intros n Hn. apply kreads_ret. split; [done|]. exists chain. split; [done|]. cbn [Next].
  destruct (firstFree_spec runs 0 n R1) as (F1 & F2 & F3); [lia|lia|done|].
  assert (forall i, i ∈ bits inuse2 <-> allocatedIn v0 i \/ reservedIn v0 i \/ i ∈ bits chain) as Hbits.
  { intros i. rewrite (bits_Merge _ _ _ Hin2), (bits_Merge _ _ _ Hin), !elem_of_union, Hall, Hres'. tauto. }
  rewrite Z.sub_0_r in F2. split; [done|]. split.
  - rewrite <- Hbits, <- (R3 n false) by done. done.
  - intros i Hi. apply Hbits. apply (R3 i true); [lia| |done]. rewrite <- (F3 i Hi). f_equal. lia.
Qed.

(** ** What the operations keep *)

(** The keys that the allocated numbers depend on have the same values. *)
Definition sameAlloc (v0 v : gmap dsKey bytes) : Prop :=
  v !! allocatedSectorsKey = v0 !! allocatedSectorsKey /\ v !! NewKey StorageCounterDSPrefix = v0 !! NewKey StorageCounterDSPrefix.

Lemma sameAlloc_in v0 v n : sameAlloc v0 v -> allocatedIn v n <-> allocatedIn v0 n.
Proof. intros [E1 E2]. unfold allocatedIn. by rewrite E1, E2. Qed.

Definition leavesAlloc {A} (m : KM A) : Prop := forall v0, ktriple (sameAlloc v0) m (fun _ => sameAlloc v0) (sameAlloc v0).

Lemma leaves_ret {A} (a : A) : leavesAlloc (mret a).
Proof. intros v0. by apply ktriple_ret. Qed.

Lemma leaves_fail {A} e : leavesAlloc (kfail e : KM A).
Proof. intros v0. by apply ktriple_fail. Qed.

Lemma leaves_lift {A} (r : outcome A) : r <> Panic -> leavesAlloc (klift r).
Proof. intros Hr v0. by apply ktriple_lift. Qed.

Lemma leaves_bind {A B} (m : KM A) (f : A -> KM B) : leavesAlloc m -> (forall a, leavesAlloc (f a)) -> leavesAlloc (m ≫= f).
Proof. intros Hm Hf v0. eapply ktriple_bind; [apply Hm|]. intros a. apply Hf. Qed.

Lemma leaves_Get k : leavesAlloc (kv_Get k).
Proof. intros v0. eapply ktriple_conseq; [by apply (ktriple_Get (sameAlloc v0) k (sameAlloc v0))|done| |done]. by intros a v [? _]. Qed.

Definition otherKey (k : dsKey) : Prop := k <> allocatedSectorsKey /\ k <> NewKey StorageCounterDSPrefix.

Lemma same_insert v0 v k x : otherKey k -> sameAlloc v0 v -> sameAlloc v0 (<[k := x]> v).
Proof. intros [? ?] [? ?]. unfold sameAlloc. by rewrite !lookup_insert_ne. Qed.

Lemma same_delete v0 v k : otherKey k -> sameAlloc v0 v -> sameAlloc v0 (delete k v).
Proof. intros [? ?] [? ?]. unfold sameAlloc. by rewrite !lookup_delete_ne. Qed.

Lemma leaves_Put k x : otherKey k -> leavesAlloc (kv_Put k x).
Proof.
  intros Hk v0. eapply ktriple_conseq; [apply (ktriple_Put (sameAlloc v0) k x (sameAlloc v0))|done| |done]; [by auto using same_insert|].
  intros a v (v1 & Hv & ->). by apply same_insert.
Qed.

Lemma leaves_Delete k : otherKey k -> leavesAlloc (kv_Delete k).
Proof.
  intros Hk v0. eapply ktriple_conseq; [apply (ktriple_Delete (sameAlloc v0) k (sameAlloc v0))|done| |done]; [by auto using same_delete|].
  intros a v (v1 & Hv & ->). by apply same_delete.
Qed.

Lemma reserved_other : otherKey reservedSectorsKey.
Proof. split; [apply keys_reserved|apply keys_reserved_counter]. Qed.

Lemma leaves_bind_key {A} name (f : dsKey -> KM A) : (forall rk, otherKey rk -> leavesAlloc (f rk)) -> leavesAlloc (rk ← klift (reservationKey name); f rk).
Proof.
  intros Hf. destruct (reservationKey name) as [rk|e|] eqn:E; [|by apply leaves_fail|by unfold reservationKey in E; destruct (validName name)].
  apply (Hf rk). by apply (keys_named name).
Qed.

Lemma leaves_meta stateAllocated : stateAllocated <> Panic -> leavesAlloc (numAssignerMetaLocked stateAllocated).
Proof.
  intros Hp v0 s Hs. pose proof (meta_reads stateAllocated (kv_view s) Hp s eq_refl) as Hm.
  destruct (numAssignerMetaLocked stateAllocated s) as [[am|e|] s']; [destruct Hm as [Hm _]; by rewrite Hm|by rewrite Hm|done].
Qed.

Ltac leaves :=
  repeat first
    [ by apply leaves_meta | apply leaves_ret | apply leaves_fail | apply leaves_Get
    | apply leaves_lift; solve [auto with nopanic]
    | apply leaves_Put; solve [apply reserved_other | done] | apply leaves_Delete; solve [apply reserved_other | done]
    | match goal with |- leavesAlloc (saveBitField _ _) => fail 2 | |- leavesAlloc (numReserveLocked _ _ _ _) => fail 2 | _ => idtac end;
      apply leaves_bind; [|intros ?]
    | case_match ].

Lemma leaves_save k bf : otherKey k -> leavesAlloc (saveBitField k bf).
Proof. intros Hk. unfold saveBitField. leaves. Qed.

Lemma leaves_reserve stateAllocated name bf force : stateAllocated <> Panic -> leavesAlloc (numReserveLocked stateAllocated name bf force).
Proof.
  intros Hp. apply leaves_bind_key. intros rk Hrk. unfold currentReservation, checkColliding. leaves; apply leaves_save; [done|apply reserved_other].
Qed.

Lemma leaves_reserveCount st1 st2 name count : st1 <> Panic -> st2 <> Panic -> leavesAlloc (NumReserveCount st1 st2 name count).
Proof. intros Hp1 Hp2. unfold NumReserveCount. leaves. by apply leaves_reserve. Qed.

Lemma leaves_free name : leavesAlloc (NumFree name).
Proof. apply leaves_bind_key. intros rk Hrk. unfold loadBitField. leaves. apply leaves_save, reserved_other. Qed.

(** [NextSectorNumber] gives the least number that is not in use and records it. *)
Lemma next_spec stateAllocated v0 : stateAllocated <> Panic ->
  ktriple (fun v => v = v0) (NextSectorNumber stateAllocated)
    (fun n v => leastFree v0 stateAllocated n /\ forall k, allocatedIn v k <-> k = n \/ allocatedIn v0 k)
    (fun v => forall k, allocatedIn v0 k -> allocatedIn v k).
Proof.
  intros Hp. unfold NextSectorNumber. eapply ktriple_bind; [eapply ktriple_conseq; [apply (meta_reads stateAllocated v0 Hp)|done|done|]; by intros v ->|].
  intros am. cbn beta. unfold saveBitField. generalize (putUvarint 10 (Next am)); intros count.
  assert (0 <= Next am -> forall raw v, bf_Marshal (bf_Set (Next am) (Allocated am)) = Ret raw -> (forall n, n ∈ bits (Allocated am) <-> allocatedIn v0 n) ->
            v !! allocatedSectorsKey = Some raw -> forall k, allocatedIn v k <-> k = Next am \/ allocatedIn v0 k) as Hset.
  { intros Hpos raw v Hm Hall Hv k. destruct (bits_Marshal _ _ Hm) as (bf' & Hu & Hb). unfold allocatedIn at 1. rewrite Hv, <- Hall. split.
    - intros (bf & Hbf & Hin). rewrite Hu in Hbf. injection Hbf as <-. rewrite Hb, bits_Set in Hin by done. set_solver.
    - intros Hk. exists bf'. split; [done|]. rewrite Hb, bits_Set by done. set_solver. }
  intros s [<- [Hall Hleast]]. assert (0 <= Next am) as Hpos by (by destruct Hleast as (? & _ & ? & _)).
  specialize (Hset Hpos). unfold mbind, KM_bind, klift. destruct (bf_Marshal (bf_Set (Next am) (Allocated am))) as [raw|e|] eqn:Hm.
  2: done. 2: by apply np_Marshal in Hm.
  pose proof (kv_Put_ok allocatedSectorsKey raw s) as Hp1. destruct (kv_Put allocatedSectorsKey raw s) as [r1 s1]; cbn in *.
  assert (forall v, v = kv_view s \/ v = <[allocatedSectorsKey := raw]> (kv_view s) -> forall k, allocatedIn (kv_view s) k -> allocatedIn v k) as Hkeep.
  { intros v [->| ->] k Hk; [done|]. apply (Hset raw); [done..|by rewrite lookup_insert_eq|by right]. }
  destruct Hp1 as [[-> Hv1]|[[e ->] Hv1]]; [|by apply Hkeep].
  pose proof (kv_Put_ok (NewKey StorageCounterDSPrefix) count s1) as Hp2.
  destruct (kv_Put (NewKey StorageCounterDSPrefix) count s1) as [r2 s2]; cbn in *.
  assert (kv_view s2 !! allocatedSectorsKey = Some raw) as Hv2.
  { destruct Hp2 as [[_ ->]|[_ [->| ->]]]; rewrite ?lookup_insert_ne by apply keys_counter; rewrite Hv1; by rewrite lookup_insert_eq. }
  destruct Hp2 as [[-> _]|[[e ->] _]]; cbn; [split; [done|by apply (Hset raw)]|]. intros k Hk. apply (Hset raw); [done..|by right].
Qed.

(** ** Runs *)

(** A call of an operation, with what the chain answers. *)
Inductive NumOp :=
| CallNext (chain : outcome (option BitField))
| CallReserve (chain : outcome (option BitField)) (name : string) (bf : BitField) (force : bool)
| CallReserveCount (chain chain' : outcome (option BitField)) (name : string) (count : Z)
| CallFree (name : string).

Definition chain_ok (op : NumOp) : Prop :=
  match op with
  | CallNext st | CallReserve st _ _ _ => st <> Panic
  | CallReserveCount st st' _ _ => st <> Panic /\ st' <> Panic
  | CallFree _ => True
  end.

(** The number, if the call gives one out. *)
Definition call (op : NumOp) : KM (option Z) :=
  match op with
  | CallNext chain => n ← NextSectorNumber chain; mret (Some n)
  | CallReserve chain name bf force => _ ← NumReserve chain name bf force; mret None
  | CallReserveCount chain chain' name count => _ ← NumReserveCount chain chain' name count; mret None
  | CallFree name => _ ← NumFree name; mret None
  end.

(** The numbers given out by a sequence of calls, of which any may fail. *)
Fixpoint numbers (ops : list NumOp) (s : kv) : list Z * kv :=
  match ops with
  | [] => ([], s)
  | op :: ops =>
      let '(r, s) := call op s in
      let '(l, s) := numbers ops s in
      (match r with Ret (Some n) => n :: l | _ => l end, s)
  end.

Lemma leaves_none {A} (m : KM A) v0 : leavesAlloc m ->
  ktriple (fun v => v = v0) (_ ← m; mret (None : option Z)) (fun r v => r = None /\ forall k, allocatedIn v0 k -> allocatedIn v k) (fun v => forall k, allocatedIn v0 k -> allocatedIn v k).
Proof.
  intros Hm s <-. specialize (Hm (kv_view s) s (conj eq_refl eq_refl)). unfold mbind, KM_bind.
  destruct (m s) as [[a|e|] s']; cbn; [split; [done|]| |done]; intros k Hk; by apply (sameAlloc_in _ _ k Hm).
Qed.

Lemma call_spec op v0 : chain_ok op ->
  ktriple (fun v => v = v0) (call op)
    (fun r v => (forall k, allocatedIn v0 k -> allocatedIn v k) /\ forall n, r = Some n -> ~ allocatedIn v0 n /\ allocatedIn v n)
    (fun v => forall k, allocatedIn v0 k -> allocatedIn v k).
Proof.
  intros Hc. destruct op as [chain|chain name bf force|chain chain' name count|name]; cbn [call].
  2: { eapply ktriple_conseq; [by apply (leaves_none _ v0), leaves_reserve|done| |done]. intros r v [-> ?]. by split. }
  2: { destruct Hc. eapply ktriple_conseq; [by apply (leaves_none _ v0), leaves_reserveCount|done| |done]. intros r v [-> ?]. by split. }
  2: { eapply ktriple_conseq; [by apply (leaves_none _ v0), leaves_free|done| |done]. intros r v [-> ?]. by split. }
  eapply ktriple_bind; [by apply next_spec|]. intros n. apply ktriple_ret. intros v [(c & Hch & Hn & Hfree & _) Hall]. split.
  - intros k Hk. apply Hall. by right.
  - intros n' [= <-]. split; [by intros ?; apply Hfree; left|]. apply Hall. by left.
Qed.

Lemma numbers_spec ops s : Forall chain_ok ops ->
  NoDup (numbers ops s).1 /\ (forall k, allocatedIn (kv_view s) k -> allocatedIn (kv_view (numbers ops s).2) k) /\
  forall n, n ∈ (numbers ops s).1 -> ~ allocatedIn (kv_view s) n /\ allocatedIn (kv_view (numbers ops s).2) n.
Proof.
  intros Hops. revert s. induction Hops as [|op ops Hop Hops IH]; intros s; cbn [numbers].
  { split_and!; [constructor|done|]. intros n Hn. by apply not_elem_of_nil in Hn. }
  pose proof (call_spec op (kv_view s) Hop s eq_refl) as Hc. destruct (call op s) as [r s1].
  specialize (IH s1). destruct (numbers ops s1) as [l s2], IH as (I1 & I2 & I3); cbn in *.
  assert (forall k, allocatedIn (kv_view s) k -> allocatedIn (kv_view s1) k) as Hk by (destruct r; [apply Hc|done|done]).
  assert (forall n, n ∈ l -> ~ allocatedIn (kv_view s) n /\ allocatedIn (kv_view s2) n) as Hl.
  { intros n Hn. destruct (I3 n Hn) as [Hn1 Hn2]. split; [|done]. intros ?. by apply Hn1, Hk. }
  destruct r as [[n|]|e|]; [|by auto..|done]. destruct Hc as [_ Hc]. destruct (Hc n eq_refl) as [Hn1 Hn2]. split_and!; [|by auto|].
  - constructor; [|done]. intros Hn. by destruct (I3 n Hn).
  - intros n' [->|Hn']%elem_of_cons; [|by apply Hl]. by auto.
Qed.

(** [C16] A sector number is given out once.  Whatever the chain answers and whatever calls fail
    in the datastore, between any sequence of assignments, reservations and releases the numbers
    that [NextSectorNumber] returns are different from each other and from all that were
    allocated before, and stay recorded as allocated; and each is the least number that is
    neither allocated, nor reserved, nor allocated on the chain. *)
Theorem sector_numbers_unique ops chain s :
  Forall chain_ok ops -> chain <> Panic ->
  NoDup (numbers ops s).1 /\
  (forall n, n ∈ (numbers ops s).1 -> ~ allocatedIn (kv_view s) n /\ allocatedIn (kv_view (numbers ops s).2) n) /\
  forall n s', NextSectorNumber chain (numbers ops s).2 = (Ret n, s') -> leastFree (kv_view (numbers ops s).2) chain n.
Proof.
  intros Hops Hchain. destruct (numbers_spec ops s Hops) as (N1 & N2 & N3). split_and!; [done..|]. intros n s' Hn.
  pose proof (next_spec chain (kv_view (numbers ops s).2) Hchain (numbers ops s).2 eq_refl) as Hs. rewrite Hn in Hs. apply Hs.
Qed.
End props.

(** ** Sets as bitfields *)

#[local] Existing Instances memKv memKvOk.

(** The runs of a set, one for every bit. *)
Definition setBound (b : gset N) : N := N.succ (foldr N.max 0%N (elements b)).

Definition setRuns (b : gset N) : list (outcome (bool * Z)) :=
  (fun i => Ret (bool_decide (N.of_nat i ∈ b), 1)) <$> seq 0 (N.to_nat (setBound b)).

#[local] Instance setFields : BitFields := {|
  BitField := gset N; bf_New := ∅; bf_NewFromRun n := Ret (list_to_set (N.of_nat <$> seq 0 (Z.to_nat n))); bf_Set n b := {[Z.to_N n]} ∪ b;
  bf_Merge a b := Ret (a ∪ b); bf_Subtract a b := Ret (a ∖ b); bf_Intersect a b := Ret (a ∩ b); bf_IsEmpty b := Ret (bool_decide (b = ∅));
  bf_Count b := Ret (Z.of_nat (size b)); bf_Slice b i n := if Z.of_nat (size b) <? i + n then Err "not enough bits set in field to satisfy slice count" else Ret (list_to_set (take (Z.to_nat n) (drop (Z.to_nat i) (elements b))));
  bf_RunIterator b := if (Z.of_N (setBound b) <? 18446744073709551616) then Ret (setRuns b) else Err "too long";
  bf_Marshal b := Ret (Z.of_N <$> elements b); bf_Unmarshal raw := Ret (list_to_set (Z.to_N <$> raw));
|}.

Lemma setBound_spec b i : i ∈ b -> (i < setBound b)%N.
Proof.
  intros Hi. apply elem_of_elements in Hi. unfold setBound. induction (elements b) as [|x l IH]; [by apply not_elem_of_nil in Hi|].
  cbn. apply elem_of_cons in Hi as [->|Hi]; [lia|]. specialize (IH Hi). lia.
Qed.

Lemma unit_runs (f : nat -> bool) a n i v : 0 <= i -> runAt ((fun j => Ret (f j, 1)) <$> seq a n) i = Some v ->
  v = if i <? Z.of_nat n then f (a + Z.to_nat i)%nat else false.
Proof.
  revert a i. induction n as [|n IH]; intros a i Hi; cbn [seq fmap list_fmap runAt].
  { intros [= <-]. by destruct (Z.ltb_spec i (Z.of_nat 0)); [lia|]. }
  destruct (Z.ltb_spec i 1).
  - intros [= <-]. assert (i = 0) as -> by lia. destruct (Z.ltb_spec 0 (Z.of_nat (S n))); [|lia]. by rewrite Nat.add_0_r.
  - intros Hr. rewrite (IH (S a) (i - 1)) by (lia || done).
    destruct (Z.ltb_spec (i - 1) (Z.of_nat n)), (Z.ltb_spec i (Z.of_nat (S n))); first [lia|done|f_equal; lia].
Qed.

Lemma unit_runs_sum (f : nat -> bool) a n : sumZ runLen ((fun j => Ret (f j, 1)) <$> seq a n) = Z.of_nat n.
Proof. revert a. induction n as [|n IH]; intros a; [done|]. unfold sumZ in *. cbn. rewrite IH. lia. Qed.

#[local, program] Instance setFieldsOk : BitFieldsOk := {| bits b := set_map Z.of_N b |}.
Next Obligation. intros b i (n & -> & _)%elem_of_map. lia. Qed.
Next Obligation. set_solver. Qed.
Next Obligation.
  intros n b [= <-] i. rewrite elem_of_map. setoid_rewrite elem_of_list_to_set. setoid_rewrite list_elem_of_fmap. split.
  - intros (x & -> & y & -> & Hy). apply elem_of_seq in Hy. lia.
  - intros Hi. exists (Z.to_N i). split; [lia|]. exists (Z.to_nat i). split; [lia|]. apply elem_of_seq. lia.
Qed.
Next Obligation. intros n b Hn. cbn. rewrite set_map_union_L, set_map_singleton_L. by rewrite Z2N.id. Qed.
Next Obligation. intros a b c [= <-]. by rewrite set_map_union_L. Qed.
Next Obligation.
  intros b raw [= <-]. eexists. split; [done|]. f_equal. apply set_eq. intros i. rewrite elem_of_list_to_set, <- list_fmap_compose.
  rewrite list_elem_of_fmap. split; [intros (x & -> & Hx); cbn; rewrite N2Z.id; by apply elem_of_elements|].
  intros Hi. exists i. split; [cbn; by rewrite N2Z.id|]. by apply elem_of_elements.
Qed.
Next Obligation.
  intros b runs. cbn. destruct (Z.of_N (setBound b) <? 18446744073709551616) eqn:E; [|done]. intros [= <-]. split_and!.
  - apply Forall_fmap, Forall_true. intros j. split; [done|]. by intros v l [= _ <-].
  - unfold setRuns. rewrite (unit_runs_sum (fun j => bool_decide (N.of_nat j ∈ b))). lia.
  - intros i v Hi Hv. apply (unit_runs (fun j => bool_decide (N.of_nat j ∈ b))) in Hv; [|done]. rewrite elem_of_map. split.
    + intros ->. destruct (i <? _) eqn:E2; [|done]. symmetry in Hv. apply bool_decide_eq_true_1 in Hv. cbn in Hv. eexists. split; [|exact Hv]. lia.
    + intros (n & -> & Hn). pose proof (setBound_spec b n Hn). rewrite (proj2 (Z.ltb_lt _ _)) in Hv by lia. rewrite Hv.
      apply bool_decide_eq_true_2. cbn. by replace (N.of_nat (Z.to_nat (Z.of_N n))) with n by lia.
Qed.
Next Obligation. done. Qed.
Next Obligation. done. Qed.
Next Obligation. done. Qed.
Next Obligation. done. Qed.
Next Obligation. done. Qed.
Next Obligation. done. Qed.
Next Obligation. intros b i n. cbn. by destruct (_ <? _). Qed.
Next Obligation. intros b. cbn. by destruct (_ <? _). Qed.
Next Obligation. done. Qed.
Next Obligation. done. Qed.

#[local] Instance memKeysOk : KeysOk.
Proof.
  split; [done..|]. intros name rk. unfold reservationKey. destruct (validName name); [|done]. intros [= <-]. by split.
Qed.

Definition demoCalls : list NumOp :=
  [CallNext (Ret (Some {[1%N]})); CallReserve (Ret (Some ∅)) "mine" {[2%N; 3%N]} false; CallNext (Ret (Some {[1%N]})); CallNext (Err "offline");
   CallFree "mine"; CallNext (Ret (Some {[1%N]}))].

Lemma sector_numbers_unique_witness :
  (numbers demoCalls ∅).1 = [0; 4; 2] /\ NoDup (numbers demoCalls (∅ : gmap (list string) bytes)).1 /\
  exists s', NextSectorNumber (Ret (Some ∅)) (numbers demoCalls ∅).2 = (Ret 1, s') /\ leastFree (numbers demoCalls ∅).2 (Ret (Some ∅)) 1.
Proof.
  assert (Forall chain_ok demoCalls) as Hc by (repeat constructor; done).
  destruct (sector_numbers_unique demoCalls (Ret (Some ∅)) ∅ Hc) as (H1 & _ & H2); [done|].
  split; [by vm_compute|]. split; [done|].
  assert ((NextSectorNumber (Ret (Some ∅)) (numbers demoCalls ∅).2).1 = Ret 1) as Hn by (by vm_compute).
  destruct (NextSectorNumber (Ret (Some ∅)) (numbers demoCalls ∅).2) as [r s'] eqn:E. cbn in Hn. subst r. exists s'. split; [done|]. by eapply H2.
Defined.
