(* ===== verification/MsgSigner.v ===== *)
(** * The message signer: chain/messagesigner/messagesigner.go

    The signer gives every message that a wallet sends the next nonce of its address, from the
    message pool and from the last one it recorded itself.  Calls of [SignMessage] are whole
    steps, since they hold its lock.  The pool, the wallet and the callback that publishes the
    message are arguments. *)

From stdpp Require Import gmap.
From Stdlib Require Import Sorting.Sorted.
From S2P Require Import Prelude TipSet ChainMsg Kv.

Definition dsKeyActorNonce : string := "ActorNextNonce".
Definition dsKeyMsgUUIDSet : string := "MsgUuidSet".

(** The header codec of cbor-gen, addresses, and the Ethereum messages of ethtypes. *)
Class SignerOps := {
  CborReadHeader : bytes -> outcome (Z * Z);
  CborEncodeMajorType : Z -> Z -> bytes;
  MajUnsignedInt : Z;
  addressString : Address -> string;
  isDelegated : Address -> bool; (* [Protocol() == address.Delegated] *)
  EthTxArgs : Type;
  EthTxArgsFromUnsignedEthMessage : Message -> outcome EthTxArgs;
  ToRlpUnsignedMsg : EthTxArgs -> outcome bytes;
  SignedMessage_UnmarshalCBOR : bytes -> outcome SignedMessage;
}.

Section signer.
Context `{MsgOps} `{SignerOps} `{Kv}.

Definition dstoreKey (addr : Address) : dsKey := KeyWithNamespaces [dsKeyActorNonce; addressString addr].

(** [mpoolNonce] is the answer of the pool. *)
Definition NextNonce (mpoolNonce : outcome Z) (addr : Address) : KM Z :=
  nonce ← klift mpoolNonce;
  dsNonceBytes ← kv_Get (dstoreKey addr);
  match dsNonceBytes with
  | None => mret nonce
  | Some dsNonceBytes =>
      '(maj, dsNonce) ← klift (CborReadHeader dsNonceBytes);
      if negb (maj =? MajUnsignedInt) then kfail "bad cbor type parsing nonce from datastore"
      else mret (if nonce <=? dsNonce then dsNonce else nonce)
  end.

Definition SaveNonce (addr : Address) (nonce : Z) : KM unit :=
  kv_Put (dstoreKey addr) (CborEncodeMajorType MajUnsignedInt (u64 (nonce + 1))).

Definition SigningBytes (msg : Message) : outcome bytes :=
  if isDelegated (From msg) then
    txArgs ← EthTxArgsFromUnsignedEthMessage msg; ToRlpUnsignedMsg txArgs
  else Message_Cid msg.

Definition withNonce (nonce : Z) (m : Message) : Message := {|
  Version := Version m; To := To m; From := From m; Nonce := nonce; Value := Value m; GasLimit := GasLimit m;
  GasFeeCap := GasFeeCap m; GasPremium := GasPremium m; Method := Method m; Params := Params m |}.

Definition SignMessage (mpoolNonce : outcome Z) (walletSign : Address -> bytes -> bytes -> outcome Signature)
    (cb : SignedMessage -> outcome unit) (msg : Message) : KM SignedMessage :=
  nonce ← NextNonce mpoolNonce (From msg);
  let msg := withNonce nonce msg in
  sb ← klift (SigningBytes msg);
  mb ← klift (Message_ToStorageBlock msg);
  sig ← klift (walletSign (From msg) sb (fst mb));
  let smsg := {| SMessage := msg; SSignature := sig |} in
  _ ← klift (cb smsg);
  _ ← SaveNonce (From msg) nonce;
  mret smsg.

Definition GetSignedMessage (uuid : string) : KM SignedMessage :=
  b ← kv_Get (KeyWithNamespaces [dsKeyMsgUUIDSet; uuid]);
  match b with
  | None => kfail "datastore: key not found"
  | Some b => klift (SignedMessage_UnmarshalCBOR b)
  end.

Definition StoreSignedMessage (uuid : string) (message : SignedMessage) : KM unit :=
  serializedMsg ← klift (SignedMessage_Serialize message);
  kv_Put (KeyWithNamespaces [dsKeyMsgUUIDSet; uuid]) serializedMsg.
End signer.

(** ** What is relied on *)

Class SignerOk `{SignerOps} `{Kv} : Prop := {
  cbor_roundtrip maj n : in_u64 n -> CborReadHeader (CborEncodeMajorType maj n) = Ret (maj, n);
  dstoreKey_inj a b : dstoreKey a = dstoreKey b -> a = b;
}.

(** ** Nonces *)

Section props.
Context `{MsgOps} `{KvOk} `{SignerOps} `{!SignerOk}.

Record SignCall := {
  callPool : outcome Z;
  callSign : Address -> bytes -> bytes -> outcome Signature;
  callback : SignedMessage -> outcome unit;
  callMsg : Message;
}.

(** The calls one after another, of which any may fail: the addresses and nonces of the messages
    that are returned. *)
Fixpoint signAll (calls : list SignCall) (s : kv) : list (Address * Z) * kv :=
  match calls with
  | [] => ([], s)
  | c :: calls =>
      let '(r, s) := SignMessage (callPool c) (callSign c) (callback c) (callMsg c) s in
      let '(l, s) := signAll calls s in
      (match r with Ret sm => (From (SMessage sm), Nonce (SMessage sm)) :: l | _ => l end, s)
  end.

(** The nonce that is recorded for an address. *)
Definition recorded (v : gmap dsKey bytes) (a : Address) (n : Z) : Prop :=
  exists raw maj, v !! dstoreKey a = Some raw /\ CborReadHeader raw = Ret (maj, n).

Definition bounded (B : Z) (v : gmap dsKey bytes) : Prop := forall a n, recorded v a n -> 0 <= n <= B.

(** More than [n] is recorded for the address. *)
Definition above (v : gmap dsKey bytes) (a : Address) (n : Z) : Prop := exists m, recorded v a m /\ n < m.

Lemma recorded_insert v a b n k : in_u64 n -> recorded (<[dstoreKey b := CborEncodeMajorType MajUnsignedInt n]> v) a k ->
  (a = b /\ k = n) \/ (a <> b /\ recorded v a k).
Proof.
  intros Hn (raw & maj & Hv & Hr). destruct (decide (a = b)) as [->|Hab]; [left|right]; (split; [done|]).
  - rewrite lookup_insert_eq in Hv. injection Hv as <-. rewrite cbor_roundtrip in Hr by done. congruence.
  - rewrite lookup_insert_ne in Hv by (intros ?%dstoreKey_inj; congruence). by exists raw, maj.
Qed.

Lemma next_nonce mp a s : (forall n, mp = Ret n -> 0 <= n) ->
  match NextNonce mp a s with
  | (Ret n, s') => kv_view s' = kv_view s /\ exists p, mp = Ret p /\
      ((kv_view s !! dstoreKey a = None /\ n = p) \/ exists m, recorded (kv_view s) a m /\ n = Z.max p m)
  | (_, s') => kv_view s' = kv_view s
  end.
Proof.
  intros Hmp. unfold NextNonce, mbind, KM_bind, klift. destruct mp as [p|e|]; [|done..].
  destruct (kv_Get_ok (dstoreKey a) s) as [Hv Hr]. destruct (kv_Get (dstoreKey a) s) as [r s1]; cbn in *.
  destruct Hr as [->|[e ->]]; [|done]. destruct (kv_view s !! dstoreKey a) as [raw|] eqn:E; [|cbn; split; [done|]; eauto].
  destruct (CborReadHeader raw) as [[maj m]|e|] eqn:Er; [|done..]. destruct (negb (maj =? MajUnsignedInt)); cbn; [done|].
  split; [done|]. exists p. split; [done|]. right. exists m. split; [by exists raw, maj|]. destruct (p <=? m) eqn:Ep; lia.
Qed.

(** A call: the contents stay, or the nonce after the one that was used is recorded. *)
Lemma sign_spec c B s : (forall n, callPool c = Ret n -> 0 <= n <= B) -> bounded B (kv_view s) -> B < 18446744073709551615 ->
  let o := SignMessage (callPool c) (callSign c) (callback c) (callMsg c) s in
  (kv_view o.2 = kv_view s /\ (forall sm, o.1 <> Ret sm)) \/
  exists n p, callPool c = Ret p /\ p <= n <= B /\ (forall m, recorded (kv_view s) (From (callMsg c)) m -> m <= n) /\
    ((kv_view s !! dstoreKey (From (callMsg c)) = None /\ n = p) \/ exists m, recorded (kv_view s) (From (callMsg c)) m /\ n = Z.max p m) /\
    kv_view o.2 = <[dstoreKey (From (callMsg c)) := CborEncodeMajorType MajUnsignedInt (n + 1)]> (kv_view s) /\
    (forall sm, o.1 = Ret sm -> From (SMessage sm) = From (callMsg c) /\ Nonce (SMessage sm) = n).
Proof.
  destruct c as [mp sign cb msg]; cbn [callPool callSign callback callMsg]. intros Hmp Hb HB. unfold SignMessage, SaveNonce, mbind, KM_bind, klift.
  pose proof (next_nonce mp (From msg) s) as Hn. destruct (NextNonce mp (From msg) s) as [[n|e|] s1]; [|left; split; [|done]; cbn; apply Hn; intros ? ?; by apply Hmp..].
  destruct Hn as (Hv1 & p & -> & Hn); [intros ? ?; by apply Hmp|]. specialize (Hmp p eq_refl).
  assert (p <= n <= B /\ forall m, recorded (kv_view s) (From msg) m -> m <= n) as [Hpn Hmax].
  { destruct Hn as [[E ->]|(m & Hm & ->)]; [split; [lia|]; intros m (raw & maj & E' & _); congruence|]. specialize (Hb _ _ Hm). split; [lia|].
    intros m' (raw & maj & E & Er). destruct Hm as (raw' & maj' & E' & Er'). simplify_eq. rewrite Er in Er'. simplify_eq. lia. }
  destruct (SigningBytes (withNonce n msg)) as [sb|e|]; [|by left..]. destruct (Message_ToStorageBlock (withNonce n msg)) as [mb|e|]; [|by left..].
  destruct (sign (From (withNonce n msg)) sb (fst mb)) as [sig|e|]; [|by left..]. destruct (cb {| SMessage := withNonce n msg; SSignature := sig |}) as [u|e|]; [|by left..].
  rewrite (u64_id (n + 1)) by (unfold in_u64; lia). cbn [From withNonce].
  destruct (kv_Put_ok (dstoreKey (From msg)) (CborEncodeMajorType MajUnsignedInt (n + 1)) s1) as [[Hr Hv]|[[e Hr] Hv]];
    destruct (kv_Put (dstoreKey (From msg)) (CborEncodeMajorType MajUnsignedInt (n + 1)) s1) as [r s2]; cbn [fst snd] in *; subst r; rewrite Hv1 in Hv; cbn.
  - right. exists n, p. split_and!; try done; try lia. by intros sm [= <-].
  - destruct Hv as [->| ->]; [by left|]. right. exists n, p. by split_and!; try done; try lia.
Qed.

Definition noncesOf (a : Address) (issued : list (Address * Z)) : list Z := (filter (fun x => x.1 = a) issued).*2.

Lemma noncesOf_cons a x issued : noncesOf a (x :: issued) = if decide (x.1 = a) then x.2 :: noncesOf a issued else noncesOf a issued.
Proof. unfold noncesOf. rewrite filter_cons. by case_decide. Qed.

(** What a call does to the bound and to what is recorded. *)
Lemma sign_step c B s : (forall n, callPool c = Ret n -> 0 <= n <= B) -> bounded B (kv_view s) -> B < 18446744073709551615 ->
  let o := SignMessage (callPool c) (callSign c) (callback c) (callMsg c) s in
  bounded (B + 1) (kv_view o.2) /\ (forall a l, above (kv_view s) a l -> above (kv_view o.2) a l) /\
  forall sm, o.1 = Ret sm -> (forall m, recorded (kv_view s) (From (SMessage sm)) m -> m <= Nonce (SMessage sm)) /\
    above (kv_view o.2) (From (SMessage sm)) (Nonce (SMessage sm)).
Proof.
  intros Hmp Hb HB o. destruct (sign_spec c B s Hmp Hb HB) as [[Hv Hno]|(n & p & Hp & Hn & Hmax & _ & Hv & Hsm)]; fold o in Hv.
  - rewrite Hv. split_and!; [|done|by intros sm ?%Hno]. intros a m Hm. specialize (Hb a m Hm). lia.
  - assert (in_u64 (n + 1)) as Hu by (unfold in_u64; specialize (Hmp p Hp); lia).
    assert (recorded (kv_view o.2) (From (callMsg c)) (n + 1)) as Hrec.
    { rewrite Hv. eexists _, MajUnsignedInt. split; [apply lookup_insert_eq|]. by apply cbor_roundtrip. }
    split_and!.
    + intros a m Hm. rewrite Hv in Hm. specialize (Hmp p Hp). apply recorded_insert in Hm as [[-> ->]|[_ Hm]]; [lia| |done]. specialize (Hb a m Hm). lia.
    + intros a l (m & Hm & Hl). destruct (decide (a = From (callMsg c))) as [->|Ha]; [exists (n + 1); split; [done|]; specialize (Hmax m Hm); lia|].
      exists m. split; [|done]. destruct Hm as (raw & maj & E & Er). exists raw, maj. split; [|done]. rewrite Hv, lookup_insert_ne; [done|].
      intros ?%dstoreKey_inj. congruence.
    + intros sm Hret. destruct (Hsm sm Hret) as [-> ->]. split; [done|]. exists (n + 1). split; [done|lia].
Qed.

Lemma signAll_spec calls B s :
  Forall (fun c => forall n, callPool c = Ret n -> 0 <= n <= B) calls -> bounded B (kv_view s) -> B + len calls < 18446744073709551616 ->
  forall a, StronglySorted Z.lt (noncesOf a (signAll calls s).1) /\
       (forall l, above (kv_view s) a l -> Forall (fun n => l < n) (noncesOf a (signAll calls s).1)) /\
       (forall m, recorded (kv_view s) a m -> Forall (fun n => m <= n) (noncesOf a (signAll calls s).1)).
Proof.
  revert B s. induction calls as [|c calls IH]; intros B s Hc Hb HB a; cbn [signAll]; [split_and!; constructor|].
  apply Forall_cons in Hc as [Hc Hcs]. unfold len in *. cbn [length] in HB.
  destruct (sign_step c B s Hc Hb) as (S1 & S2 & S3); [lia|].
  destruct (SignMessage (callPool c) (callSign c) (callback c) (callMsg c) s) as [r s1]; cbn [fst snd] in *.
  destruct (IH (B + 1) s1) with (a := a) as (I1 & I2 & I3); [|done|lia|].
  { eapply Forall_impl; [done|]. cbn. intros c' Hc' n Hn. specialize (Hc' n Hn). lia. }
  destruct (signAll calls s1) as [l s2]; cbn [fst snd] in *.
  assert (forall m, recorded (kv_view s) a m -> Forall (fun n => m <= n) (noncesOf a l)) as I3'.
  { intros m Hm. assert (above (kv_view s1) a (m - 1)) as Ha by (apply S2; exists m; split; [done|lia]).
    eapply Forall_impl; [by apply I2|]. cbn. lia. }
  destruct r as [sm|e|]; [|split_and!; by auto..]. destruct (S3 sm eq_refl) as [Hrec Hab].
  rewrite noncesOf_cons. cbn [fst snd]. case_decide as Ea; [|split_and!; by auto]. subst a. split_and!.
  - constructor; [done|]. by apply I2.
  - intros l' Hl'. constructor; [|by auto]. destruct Hl' as (m & Hm & ?). specialize (Hrec m Hm). lia.
  - intros m Hm. constructor; by auto.
Qed.

End props.

(** ** A signer over a datastore in memory *)

#[local] Existing Instances memKv memKvOk.

#[local] Instance demoMsgOps : MsgOps := {|
  Message_MarshalCBOR m := Ret [Nonce m]; SignedMessage_MarshalCBOR sm := Ret [Nonce (SMessage sm)]; CidBuilder_Sum b := Ret b;
  address_Undef := EmptyString; address_isID _ := false; AddressValidForNetworkVersion _ _ := true; ZeroAddress := "f00" |}.

#[local] Instance demoSignerOps : SignerOps := {|
  CborReadHeader b := match b with [maj; n] => Ret (maj, n) | _ => Err "short" end; CborEncodeMajorType maj n := [maj; n]; MajUnsignedInt := 0;
  addressString a := a; isDelegated _ := false; EthTxArgs := unit; EthTxArgsFromUnsignedEthMessage _ := Err "none"; ToRlpUnsignedMsg _ := Err "none";
  SignedMessage_UnmarshalCBOR _ := Err "none" |}.

#[local] Instance demoSignerOk : SignerOk.
Proof.
  split; [done|]. by intros a b [= ->].
Qed.

Definition demoMessage (from : Address) : Message := {|
  Version := 0; To := "f01"; From := from; Nonce := 0; Value := None; GasLimit := 0; GasFeeCap := None; GasPremium := None; Method := 0; Params := [] |}.

Definition demoSign (pool : outcome Z) (ok : bool) (from : Address) : SignCall := {|
  callPool := pool; callSign := fun _ _ _ => Ret {| SType := SigTypeBLS; SData := [] |}; callback := fun _ => if ok then Ret tt else Err "refused"; callMsg := demoMessage from |}.

Definition demoSigns : list SignCall :=
  [demoSign (Ret 5) true "a"; demoSign (Ret 5) false "a"; demoSign (Ret 0) true "b"; demoSign (Ret 5) true "a"; demoSign (Ret 9) true "a"; demoSign (Ret 3) true "a"].

