(* ===== verification/Paych.v ===== *)
(** * Payment channels: paychmgr/{store,state,paych,accessorcache,manager,util}.go

    The manager of payment channels: the channels in the datastore, the vouchers on their lanes,
    and the operations of the node on them.  The codecs, the wallet, signatures, the actor of a
    channel and its messages are the operations of [PaychNode]; the funding of channels is in
    [PaychFunds]. *)

From stdpp Require Import gmap.
From S2P Require Import Prelude TipSet ChainMsg Kv.

(** ** Data *)

Record SignedVoucher := {
  ChannelAddr : Address;
  TimeLockMin : Z;
  TimeLockMax : Z;
  SecretHash : bytes;
  Extra : option bytes; (* [*ModVerifyParams] *)
  Lane : Z;
  VNonce : Z; (* [Nonce] *)
  Amount : Z;
  MinSettleHeight : Z;
  Merges : list (Z * Z);
  VSignature : option Signature; (* [Signature] *)
}.

#[export] Instance Signature_eq_dec : EqDecision Signature.
Proof. solve_decision. Defined.
#[export] Instance SignedVoucher_eq_dec : EqDecision SignedVoucher.
Proof. solve_decision. Defined.

Definition DirInbound : Z := 1.
Definition DirOutbound : Z := 2.
Definition dsKeyChannelInfo : string := "ChannelInfo".
Definition dsKeyMsgCid : string := "MsgCid".

Record VoucherInfo := {
  Voucher : SignedVoucher;
  VProof : bytes; (* [Proof] *)
  Submitted : bool;
}.

Record ChannelInfo := {
  ChannelID : string;
  Channel : option Address;
  Control : Address;
  Target : Address;
  Direction : Z;
  Vouchers : list VoucherInfo;
  NextLane : Z;
  ChAmount : BigInt; (* [Amount] *)
  AvailableAmount : BigInt;
  PendingAvailableAmount : BigInt;
  PendingAmount : BigInt;
  CreateMsg : option Cid;
  AddFundsMsg : option Cid;
  Settling : bool;
}.

Definition ChannelInfo_eta (c : ChannelInfo) : ChannelInfo := {|
  ChannelID := ChannelID c; Channel := Channel c; Control := Control c; Target := Target c; Direction := Direction c; Vouchers := Vouchers c;
  NextLane := NextLane c; ChAmount := ChAmount c; AvailableAmount := AvailableAmount c; PendingAvailableAmount := PendingAvailableAmount c;
  PendingAmount := PendingAmount c; CreateMsg := CreateMsg c; AddFundsMsg := AddFundsMsg c; Settling := Settling c |}.

Ltac ci_setter proj :=
  intros v c;
  let t := eval unfold ChannelInfo_eta in (ChannelInfo_eta c) in
  match eval pattern (proj c) in t with
  | ?f _ => let r := eval cbv beta in (f v) in exact r
  end.

Definition set_ChannelID : string -> ChannelInfo -> ChannelInfo := ltac:(ci_setter ChannelID).
Definition set_Channel : option Address -> ChannelInfo -> ChannelInfo := ltac:(ci_setter Channel).
Definition set_Vouchers : list VoucherInfo -> ChannelInfo -> ChannelInfo := ltac:(ci_setter Vouchers).
Definition set_NextLane : Z -> ChannelInfo -> ChannelInfo := ltac:(ci_setter NextLane).
Definition set_ChAmount : BigInt -> ChannelInfo -> ChannelInfo := ltac:(ci_setter ChAmount).
Definition set_AvailableAmount : BigInt -> ChannelInfo -> ChannelInfo := ltac:(ci_setter AvailableAmount).
Definition set_PendingAvailableAmount : BigInt -> ChannelInfo -> ChannelInfo := ltac:(ci_setter PendingAvailableAmount).
Definition set_PendingAmount : BigInt -> ChannelInfo -> ChannelInfo := ltac:(ci_setter PendingAmount).
Definition set_CreateMsg : option Cid -> ChannelInfo -> ChannelInfo := ltac:(ci_setter CreateMsg).
Definition set_AddFundsMsg : option Cid -> ChannelInfo -> ChannelInfo := ltac:(ci_setter AddFundsMsg).
Definition set_Settling : bool -> ChannelInfo -> ChannelInfo := ltac:(ci_setter Settling).

Definition ci_from (ci : ChannelInfo) : Address := if Direction ci =? DirOutbound then Control ci else Target ci.
Definition ci_to (ci : ChannelInfo) : Address := if Direction ci =? DirOutbound then Target ci else Control ci.

Record MsgInfo := {
  mi_ChannelID : string; (* [ChannelID] *)
  MsgCid : Cid;
  Received : bool;
  mi_Err : string; (* [Err] *)
}.

(** The interfaces of chain/actors/builtin/paych. *)
Record LaneState := {
  Redeemed : outcome Z;
  LNonce : outcome Z; (* [Nonce] *)
}.

Record PaychState := {
  ps_From : outcome Address;
  ps_To : outcome Address;
  SettlingAt : outcome Z;
  LaneCount : outcome Z;
  ForEachLaneState : outcome (list (Z * LaneState)); (* the calls of the callback *)
}.

Record MessageBuilder := {
  mb_Create : Address -> Z -> outcome Message;
  mb_Update : Address -> SignedVoucher -> bytes -> outcome Message;
  mb_Settle : Address -> outcome Message;
  mb_Collect : Address -> outcome Message;
}.

(** The lane state of a voucher. *)
Definition laneState (redeemed nonce : Z) : LaneState := {| Redeemed := Ret redeemed; LNonce := Ret nonce |}.

(** A request for funds; [req_done] is the time at which its context ends. *)
Record fundsReq := {
  req_id : Z;
  req_amt : Z;
  OffChain : bool;
  Reserve : bool;
  req_done : option Z;
}.

Record paychFundsRes := {
  fr_channel : option Address;
  fr_mcid : option Cid;
  fr_err : option string;
}.

Record channelAccessor := {
  ca_from : Address;
  ca_to : Address;
  fundsReqQueue : list fundsReq;
}.

(** The goroutines that are begun: a wait for a message, or a look at the queue of an accessor. *)
Inductive Waiting :=
| WaitCreate (channelID : string) (mcid : Cid)
| WaitAddFunds (channelID : string) (mcid : Cid)
| RunQueue (key : string).

(** What [StateWaitMsg] gives: the receipt, or an error that may be the end of the context. *)
Inductive WaitRes :=
| WaitReceipt (exitCode : Z) (ret : bytes)
| WaitErr (contextDone : bool) (msg : string).

(** ** The node *)

Class KvQuery `{Kv} := kv_Query : string -> kv -> outcome (list (outcome bytes)) * kv.

Class PaychNode := {
  node : Type;
  uuidNew : node -> string * node;
  emptyAddr : Address;
  addrString : Address -> string;
  cidString : Cid -> string;
  dumpChannelInfo : ChannelInfo -> outcome bytes;
  loadChannelInfo : bytes -> outcome ChannelInfo;
  dumpMsgInfo : MsgInfo -> outcome bytes;
  loadMsgInfo : bytes -> outcome MsgInfo;
  cborEquals : SignedVoucher -> SignedVoucher -> outcome bool;
  VoucherSigningBytes : SignedVoucher -> outcome bytes;
  sigsVerify : option Signature -> Address -> bytes -> outcome unit;
  VersionForNetwork : Z -> outcome Z;
  lpaychMessage : Z -> Address -> outcome MessageBuilder;
  decodeExecReturn : bytes -> outcome Address; (* [RobustAddress] *)
  ResolveToDeterministicAddress : Address -> node -> outcome Address * node;
  GetPaychState : Address -> node -> outcome (Z * PaychState) * node; (* the balance of the actor and its state *)
  CallExitCode : Message -> node -> outcome Z * node;
  StateAccountKey : Address -> node -> outcome Address * node;
  StateWaitMsg : Cid -> node -> WaitRes * node;
  MpoolPushMessage : Message -> node -> outcome Cid * node;
  WalletHas : Address -> node -> outcome bool * node;
  WalletSign : Address -> bytes -> node -> outcome Signature * node;
  StateNetworkVersion : node -> outcome Z * node;
}.

Inductive perr :=
| ErrChannelNotTracked
| ErrNotFound (* [datastore.ErrNotFound] *)
| ErrInsufficientFunds (shortfall : Z)
| errorf (msg : string).

(** [Error()], as far as it is looked at. *)
Definition errText (e : perr) : string :=
  match e with
  | ErrChannelNotTracked => "channel not tracked"
  | ErrNotFound => "datastore: key not found"
  | ErrInsufficientFunds _ => "not enough funds in channel to cover voucher"
  | errorf msg => msg
  end.

Inductive pres (A : Type) :=
| POk (a : A)
| PErr (e : perr)
| PPanic.
Arguments POk {A} a.
Arguments PErr {A} e.
Arguments PPanic {A}.

Section paych.
Context `{KvQuery} `{PaychNode}.

Record Manager := {
  pkv : kv; (* the datastore of [store] *)
  pnode : node; (* [pchapi] *)
  channels : gmap string channelAccessor;
  now : Z;
  answers : list (fundsReq * paychFundsRes * bool); (* sent to the promises of requests, and whether their context was alive *)
  waits : list Waiting;
}.

Definition PM (A : Type) : Type := Manager -> pres A * Manager.

#[export] Instance PM_ret : MRet PM := fun A a s => (POk a, s).
#[export] Instance PM_bind : MBind PM := fun A B f m s =>
  match m s with
  | (POk a, s) => f a s
  | (PErr e, s) => (PErr e, s)
  | (PPanic, s) => (PPanic, s)
  end.

Definition pfail {A} (e : perr) : PM A := fun s => (PErr e, s).
Definition ppanic {A} : PM A := fun s => (PPanic, s).

(** The error of a call as a value. *)
Definition attempt {A} (m : PM A) : PM (perr + A) := fun s =>
  match m s with
  | (POk a, s) => (POk (inr a), s)
  | (PErr e, s) => (POk (inl e), s)
  | (PPanic, s) => (PPanic, s)
  end.

Definition plift {A} (r : outcome A) : PM A := fun s =>
  match r with Ret a => (POk a, s) | Err e => (PErr (errorf e), s) | Panic => (PPanic, s) end.

Definition pderef {A} (o : option A) : PM A := match o with Some a => mret a | None => ppanic end.

Definition ds {A} (m : KM A) : PM A := fun s =>
  let '(r, k) := m (pkv s) in
  plift r {| pkv := k; pnode := pnode s; channels := channels s; now := now s; answers := answers s; waits := waits s |}.

Definition askNode {A} (f : node -> A * node) : PM A := fun s =>
  let '(a, n) := f (pnode s) in
  (POk a, {| pkv := pkv s; pnode := n; channels := channels s; now := now s; answers := answers s; waits := waits s |}).

Definition api {A} (f : node -> outcome A * node) : PM A := r ← askNode f; plift r.

(** ** The store of channels *)

Definition dskeyForMsg (mcid : Cid) : dsKey := KeyWithNamespaces [dsKeyMsgCid; cidString mcid].
Definition dskeyForChannel (channelID : string) : dsKey := KeyWithNamespaces [dsKeyChannelInfo; channelID].

(** The encoding leaves the placeholder of a missing address in the channel. *)
Definition marshallChannelInfo (ci : ChannelInfo) : ChannelInfo * outcome bytes :=
  let ci := match Channel ci with None => set_Channel (Some emptyAddr) ci | Some _ => ci end in
  (ci, dumpChannelInfo ci).

Definition unmarshallChannelInfo (value : bytes) : outcome ChannelInfo :=
  stored ← loadChannelInfo value;
  let stored := if bool_decide (Channel stored = Some emptyAddr) then set_Channel None stored else stored in
  Ret (match AvailableAmount stored with
       | None => set_PendingAvailableAmount (Some (NewInt 0)) (set_AvailableAmount (Some (NewInt 0)) stored)
       | Some _ => stored
       end).

(** The channel as the caller sees it after the call. *)
Definition putChannelInfo (ci : ChannelInfo) : PM ChannelInfo :=
  ci ← (if bool_decide (ChannelID ci = EmptyString) then
          u ← askNode uuidNew; mret (set_ChannelID u ci)
        else mret ci);
  let k := dskeyForChannel (ChannelID ci) in
  let '(ci, b) := marshallChannelInfo ci in
  b ← plift b;
  _ ← ds (kv_Put k b);
  mret ci.

(** An entry that cannot be read ends the search without an error. *)
Fixpoint findChansLoop (entries : list (outcome bytes)) (filter : ChannelInfo -> PM bool) (max : Z) (matches : list ChannelInfo) : PM (list ChannelInfo) :=
  match entries with
  | [] => mret matches
  | Ret value :: entries =>
      ci ← plift (unmarshallChannelInfo value);
      ok ← filter ci;
      if negb ok then findChansLoop entries filter max matches
      else
        let matches := matches ++ [ci] in
        if len matches =? max then mret matches else findChansLoop entries filter max matches
  | Err _ :: _ => mret []
  | Panic :: _ => ppanic
  end.

Definition findChans (filter : ChannelInfo -> PM bool) (max : Z) : PM (list ChannelInfo) :=
  res ← ds (kv_Query dsKeyChannelInfo);
  findChansLoop res filter max [].

Definition findChan (filter : ChannelInfo -> PM bool) : PM ChannelInfo :=
  cis ← findChans filter 1;
  match cis with
  | [] => pfail ErrChannelNotTracked
  | ci :: _ => mret ci
  end.

Definition ByAddress (addr : Address) : PM ChannelInfo :=
  findChan (fun ci => mret (bool_decide (Channel ci = Some addr))).

Definition ListChannels : PM (list Address) :=
  cis ← findChans (fun ci => mret (bool_decide (is_Some (Channel ci)))) 0;
  mret (omap Channel cis).

Definition TrackChannel (ci : ChannelInfo) : PM ChannelInfo :=
  ch ← pderef (Channel ci);
  r ← attempt (ByAddress ch);
  match r with
  | inl ErrChannelNotTracked => ci ← putChannelInfo ci; ch ← pderef (Channel ci); ByAddress ch
  | inl err => pfail err
  | inr _ => pfail (errorf "already tracking channel")
  end.

Definition AllocateLane (ch : Address) : PM Z :=
  ci ← ByAddress ch;
  let out := NextLane ci in
  _ ← putChannelInfo (set_NextLane (u64 (NextLane ci + 1)) ci);
  mret out.

Definition VouchersForPaych (ch : Address) : PM (list VoucherInfo) :=
  ci ← ByAddress ch; mret (Vouchers ci).

(** The position of a voucher in the channel. *)
Fixpoint infoForVoucher (sv : SignedVoucher) (vs : list VoucherInfo) : outcome (option nat) :=
  match vs with
  | [] => Ret None
  | v :: vs =>
      eq ← cborEquals sv (Voucher v);
      if (eq : bool) then Ret (Some 0%nat) else r ← infoForVoucher sv vs; Ret (option_map S r)
  end.

Definition hasVoucher (ci : ChannelInfo) (sv : SignedVoucher) : outcome bool :=
  vi ← infoForVoucher sv (Vouchers ci); Ret (bool_decide (is_Some vi)).

Definition setSubmitted (v : VoucherInfo) : VoucherInfo := {| Voucher := Voucher v; VProof := VProof v; Submitted := true |}.

Definition markVoucherSubmitted (sv : SignedVoucher) (ci : ChannelInfo) : outcome ChannelInfo :=
  vi ← infoForVoucher sv (Vouchers ci);
  match vi with
  | None => Err "cannot submit voucher that has not been added to channel"
  | Some i =>
      let vs := alter setSubmitted i (Vouchers ci) in
      let vs := (fun v => if (Lane (Voucher v) =? Lane sv) && (VNonce (Voucher v) <? VNonce sv) then setSubmitted v else v) <$> vs in
      Ret (set_Vouchers vs ci)
  end.

Definition wasVoucherSubmitted (ci : ChannelInfo) (sv : SignedVoucher) : outcome bool :=
  vi ← infoForVoucher sv (Vouchers ci);
  match vi ≫= (fun i => Vouchers ci !! i) with
  | None => Err "cannot submit voucher that has not been added to channel"
  | Some v => Ret (Submitted v)
  end.

Definition MarkVoucherSubmitted (ci : ChannelInfo) (sv : SignedVoucher) : PM unit :=
  ci ← plift (markVoucherSubmitted sv ci);
  _ ← putChannelInfo ci;
  mret tt.

Definition SaveNewMessage (channelID : string) (mcid : Cid) : PM unit :=
  b ← plift (dumpMsgInfo {| mi_ChannelID := channelID; MsgCid := mcid; Received := false; mi_Err := EmptyString |});
  ds (kv_Put (dskeyForMsg mcid) b).

Definition GetMessage (mcid : Cid) : PM MsgInfo :=
  val ← ds (kv_Get (dskeyForMsg mcid));
  match val with
  | None => pfail ErrNotFound
  | Some val => plift (loadMsgInfo val)
  end.

Definition SaveMessageResult (mcid : Cid) (msgErr : option string) : PM unit :=
  minfo ← GetMessage mcid;
  b ← plift (dumpMsgInfo {| mi_ChannelID := mi_ChannelID minfo; MsgCid := MsgCid minfo; Received := true;
                            mi_Err := match msgErr with Some e => e | None => mi_Err minfo end |});
  ds (kv_Put (dskeyForMsg mcid) b).

Definition ByMessageCid (mcid : Cid) : PM ChannelInfo :=
  minfo ← GetMessage mcid;
  findChan (fun ci => mret (bool_decide (ChannelID ci = mi_ChannelID minfo))).

(** A channel whose state cannot be read is passed over. *)
Definition OutboundActiveByFromTo (from to : Address) : PM ChannelInfo :=
  findChan (fun ci =>
    if negb (Direction ci =? DirOutbound) then mret false
    else if Settling ci then mret false
    else
      let matching := bool_decide (Control ci = from) && bool_decide (Target ci = to) in
      match Channel ci with
      | None => mret matching
      | Some ch =>
          r ← attempt (x ← api (GetPaychState ch); plift (SettlingAt (snd x)));
          match r with
          | inl _ => mret false
          | inr sat => if negb (sat =? 0) then mret false else mret matching
          end
      end).

Definition WithPendingAddFunds : PM (list ChannelInfo) :=
  findChans (fun ci =>
    if negb (Direction ci =? DirOutbound) then mret false
    else mret (bool_decide (is_Some (CreateMsg ci)) || bool_decide (is_Some (AddFundsMsg ci)))) 0.

Definition ByChannelID (channelID : string) : PM ChannelInfo :=
  res ← ds (kv_Get (dskeyForChannel channelID));
  match res with
  | None => pfail ErrChannelNotTracked
  | Some res => plift (unmarshallChannelInfo res)
  end.

Definition CreateChannel (from to : Address) (createMsgCid : Cid) (amt avail : Z) : PM ChannelInfo :=
  ci ← putChannelInfo {| ChannelID := EmptyString; Channel := None; Control := from; Target := to; Direction := DirOutbound; Vouchers := [];
    NextLane := 0; ChAmount := None; AvailableAmount := None; PendingAvailableAmount := Some avail; PendingAmount := Some amt;
    CreateMsg := Some createMsgCid; AddFundsMsg := None; Settling := false |};
  _ ← SaveNewMessage (ChannelID ci) createMsgCid;
  mret ci.

Definition RemoveChannel (channelID : string) : PM unit := ds (kv_Delete (dskeyForChannel channelID)).

(** ** The channel on the chain *)

Definition nextLaneFromState (st : PaychState) : outcome Z :=
  laneCount ← LaneCount st;
  if laneCount =? 0 then Ret 0
  else
    lanes ← ForEachLaneState st;
    let maxID := foldl (fun maxID x => if maxID <? fst x then fst x else maxID) 0 lanes in
    Ret (u64 (maxID + 1)).

Definition loadStateChannelInfo (ch : Address) (dir : Z) : PM ChannelInfo :=
  '(_, st) ← api (GetPaychState ch);
  f ← plift (ps_From st);
  from ← api (ResolveToDeterministicAddress f);
  t ← plift (ps_To st);
  to ← api (ResolveToDeterministicAddress t);
  nextLane ← plift (nextLaneFromState st);
  mret {| ChannelID := EmptyString; Channel := Some ch; Control := if dir =? DirOutbound then from else to;
          Target := if dir =? DirOutbound then to else from; Direction := dir; Vouchers := []; NextLane := nextLane; ChAmount := None;
          AvailableAmount := None; PendingAvailableAmount := None; PendingAmount := None; CreateMsg := None; AddFundsMsg := None; Settling := false |}.

(** ** Vouchers *)

Definition messageBuilder (from : Address) : PM MessageBuilder :=
  nwVersion ← api StateNetworkVersion;
  av ← plift (VersionForNetwork nwVersion);
  plift (lpaychMessage av from).

Definition nextNonceForLane (ci : ChannelInfo) (lane : Z) : Z :=
  let maxnonce := foldl (fun maxnonce v =>
    if Lane (Voucher v) =? lane then if maxnonce <? VNonce (Voucher v) then VNonce (Voucher v) else maxnonce else maxnonce) 0 (Vouchers ci) in
  u64 (maxnonce + 1).

(** The vouchers of the store over the lanes of the chain. *)
Fixpoint applyVouchers (vouchers : list VoucherInfo) (laneStates : gmap Z LaneState) : outcome (gmap Z LaneState) :=
  match vouchers with
  | [] => Ret laneStates
  | v :: vouchers =>
      let sv := Voucher v in
      match Merges sv with
      | _ :: _ => Err "paych merges not handled yet"
      | [] =>
          older ← (match laneStates !! Lane sv with
                   | Some ls => n ← LNonce ls; Ret (VNonce sv <? n)
                   | None => Ret false
                   end);
          if (older : bool) then applyVouchers vouchers laneStates
          else applyVouchers vouchers (<[Lane sv := laneState (Amount sv) (VNonce sv)]> laneStates)
      end
  end.

Definition laneStates (state : PaychState) (ch : Address) : PM (gmap Z LaneState) :=
  _ ← plift (LaneCount state);
  lanes ← plift (ForEachLaneState state);
  let m := foldl (fun m x => <[fst x := snd x]> m) ∅ lanes in
  r ← attempt (VouchersForPaych ch);
  match r with
  | inl ErrChannelNotTracked => plift (applyVouchers [] m)
  | inl err => pfail err
  | inr vouchers => plift (applyVouchers vouchers m)
  end.

Fixpoint sumRedeemed (lanes : list (Z * LaneState)) (total : Z) : outcome Z :=
  match lanes with
  | [] => Ret total
  | x :: lanes => r ← Redeemed (snd x); sumRedeemed lanes (BigAdd total r)
  end.

Definition totalRedeemedWithVoucher (laneStates : gmap Z LaneState) (sv : SignedVoucher) : outcome Z :=
  match Merges sv with
  | _ :: _ => Err "dont currently support paych lane merges"
  | [] =>
      total ← sumRedeemed (map_to_list laneStates) 0;
      match laneStates !! Lane sv with
      | Some lane =>
          n ← LNonce lane;
          if n <? VNonce sv then r ← Redeemed lane; Ret (BigAdd total (Amount sv - r)) else Ret total
      | None => Ret (BigAdd total (Amount sv))
      end
  end.

Definition checkVoucherValidUnlocked (ch : Address) (sv : SignedVoucher) : PM (gmap Z LaneState) :=
  if negb (bool_decide (ChannelAddr sv = ch)) then pfail (errorf "voucher ChannelAddr doesn't match channel address")
  else if bool_decide (is_Some (Extra sv)) then pfail (errorf "voucher is Message Locked")
  else if negb (TimeLockMax sv =? 0) then pfail (errorf "voucher is Max Time Locked")
  else if negb (TimeLockMin sv =? 0) then pfail (errorf "voucher is Min Time Locked")
  else if negb (len (SecretHash sv) =? 0) then pfail (errorf "voucher is Hash Locked")
  else
    '(balance, pchState) ← api (GetPaychState ch);
    f ← plift (ps_From pchState);
    from ← api (ResolveToDeterministicAddress f);
    vb ← plift (VoucherSigningBytes sv);
    _ ← plift (sigsVerify (VSignature sv) from vb);
    lanes ← laneStates pchState ch;
    _ ← plift (match lanes !! Lane sv with
               | None => Ret tt
               | Some ls =>
                   n ← LNonce ls;
                   if VNonce sv <=? n then Err "nonce too low"
                   else r ← Redeemed ls; if Amount sv <=? r then Err "voucher amount is lower than amount for voucher with lower nonce" else Ret tt
               end);
    totalRedeemed ← plift (totalRedeemedWithVoucher lanes sv);
    if balance <? totalRedeemed then pfail (ErrInsufficientFunds (totalRedeemed - balance))
    else if negb (len (Merges sv) =? 0) then pfail (errorf "dont currently support paych lane merges")
    else mret lanes.

(** Whether a voucher is one of the channel already. *)
Fixpoint alreadyAdded (sv : SignedVoucher) (vs : list VoucherInfo) : outcome bool :=
  match vs with
  | [] => Ret false
  | v :: vs => eq ← cborEquals sv (Voucher v); if (eq : bool) then Ret true else alreadyAdded sv vs
  end.

Definition newVoucherInfo (sv : SignedVoucher) : VoucherInfo := {| Voucher := sv; VProof := []; Submitted := false |}.

Definition addVoucherUnlocked (ch : Address) (sv : SignedVoucher) (minDelta : Z) : PM Z :=
  ci ← ByAddress ch;
  dup ← plift (alreadyAdded sv (Vouchers ci));
  if (dup : bool) then mret 0
  else
    lanes ← checkVoucherValidUnlocked ch sv;
    redeemed ← plift (match lanes !! Lane sv with Some ls => Redeemed ls | None => Ret 0 end);
    let delta := Amount sv - redeemed in
    if delta <? minDelta then pfail (errorf "addVoucher: supplied token amount too low")
    else
      let ci := set_Vouchers (Vouchers ci ++ [newVoucherInfo sv]) ci in
      let ci := if NextLane ci <=? Lane sv then set_NextLane (u64 (Lane sv + 1)) ci else ci in
      _ ← putChannelInfo ci;
      mret delta.

Definition signedFor (ch : Address) (nonce : Z) (sig : option Signature) (v : SignedVoucher) : SignedVoucher := {|
  ChannelAddr := ch; TimeLockMin := TimeLockMin v; TimeLockMax := TimeLockMax v; SecretHash := SecretHash v; Extra := Extra v; Lane := Lane v;
  VNonce := nonce; Amount := Amount v; MinSettleHeight := MinSettleHeight v; Merges := Merges v; VSignature := sig |}.

(** [VoucherCreateResult]: the voucher, or the funds that are missing. *)
Definition createVoucher (ch : Address) (voucher : SignedVoucher) : PM (option SignedVoucher * Z) :=
  ci ← ByAddress ch;
  let sv := signedFor ch (nextNonceForLane ci (Lane voucher)) (VSignature voucher) voucher in
  vb ← plift (VoucherSigningBytes sv);
  sig ← api (WalletSign (Control ci) vb);
  let sv := signedFor ch (VNonce sv) (Some sig) sv in
  r ← attempt (addVoucherUnlocked ch sv 0);
  match r with
  | inr _ => mret (Some sv, 0)
  | inl (ErrInsufficientFunds shortfall) => mret (None, shortfall)
  | inl _ => pfail (errorf "failed to persist voucher")
  end.

Definition getPaychRecipient (ch : Address) : PM Address :=
  '(_, state) ← api (GetPaychState ch); plift (ps_To state).

Definition checkVoucherSpendable (ch : Address) (sv : SignedVoucher) (secret : bytes) : PM bool :=
  recipient ← getPaychRecipient ch;
  ci ← ByAddress ch;
  submitted ← plift (wasVoucherSubmitted ci sv);
  if (submitted : bool) then mret false
  else
    mb ← messageBuilder recipient;
    mes ← plift (mb_Update mb ch sv secret);
    exitCode ← api (CallExitCode mes);
    mret (exitCode =? 0).

Definition submitVoucher (ch : Address) (sv : SignedVoucher) (secret : bytes) : PM Cid :=
  ci ← ByAddress ch;
  has ← plift (hasVoucher ci sv);
  submitted ← plift (if (has : bool) then wasVoucherSubmitted ci sv else Ret false);
  if (submitted : bool) then pfail (errorf "cannot submit voucher that has already been submitted")
  else
    mb ← messageBuilder (Control ci);
    msg ← plift (mb_Update mb ch sv secret);
    mcid ← api (MpoolPushMessage msg);
    let ci := if (has : bool) then ci else set_Vouchers (Vouchers ci ++ [newVoucherInfo sv]) ci in
    _ ← MarkVoucherSubmitted ci sv;
    mret mcid.

Definition settle (ch : Address) : PM Cid :=
  ci ← ByAddress ch;
  mb ← messageBuilder (Control ci);
  msg ← plift (mb_Settle mb ch);
  mcid ← api (MpoolPushMessage msg);
  _ ← putChannelInfo (set_Settling true ci);
  mret mcid.

Definition collect (ch : Address) : PM Cid :=
  ci ← ByAddress ch;
  mb ← messageBuilder (Control ci);
  msg ← plift (mb_Collect mb ch);
  api (MpoolPushMessage msg).

(** [util.go]: the vouchers of the recipient and the answers of [PaychVoucherCheckSpendable]. *)
Fixpoint bestSpendable (vouchers : list (SignedVoucher * outcome bool)) (bestByLane : gmap Z SignedVoucher) : outcome (gmap Z SignedVoucher) :=
  match vouchers with
  | [] => Ret bestByLane
  | (voucher, r) :: vouchers =>
      spendable ← r;
      bestSpendable vouchers
        (if (spendable : bool) && match bestByLane !! Lane voucher with None => true | Some b => Amount b <? Amount voucher end
         then <[Lane voucher := voucher]> bestByLane else bestByLane)
  end.

Definition BestSpendableByLane (list : outcome (list SignedVoucher)) (check : SignedVoucher -> outcome bool) : outcome (gmap Z SignedVoucher) :=
  vouchers ← list; bestSpendable ((fun v => (v, check v)) <$> vouchers) ∅.

(** ** The accessors and the manager *)

Definition setChannels (f : gmap string channelAccessor -> gmap string channelAccessor) : PM unit := fun s =>
  (POk tt, {| pkv := pkv s; pnode := pnode s; channels := f (channels s); now := now s; answers := answers s; waits := waits s |}).

Definition accessorCacheKey (from to : Address) : string := String.append (addrString from) (String.append "->" (addrString to)).

(** An accessor is known by its key. *)
Definition accessorByFromTo (from to : Address) : PM string :=
  let key := accessorCacheKey from to in
  _ ← setChannels (fun m => match m !! key with Some _ => m | None => <[key := {| ca_from := from; ca_to := to; fundsReqQueue := [] |}]> m end);
  mret key.

Definition accessorByAddress (ch : Address) : PM string :=
  channelInfo ← ByAddress ch;
  accessorByFromTo (Control channelInfo) (Target channelInfo).

Definition trackInboundChannel (ch : Address) : PM ChannelInfo :=
  r ← attempt (ByAddress ch);
  match r with
  | inr ci => mret ci
  | inl ErrChannelNotTracked =>
      stateCi ← loadStateChannelInfo ch DirInbound;
      toKey ← api (StateAccountKey (Control stateCi));
      has ← api (WalletHas toKey);
      if negb has then pfail (errorf "cannot add voucher for channel: wallet does not have key for address")
      else TrackChannel stateCi
  | inl err => pfail err
  end.

Definition inboundChannelAccessor (ch : Address) : PM string :=
  ci ← trackInboundChannel ch;
  accessorByFromTo (Target ci) (Control ci).

Definition noProof {A} (proof : bytes) (m : PM A) : PM A :=
  if 0 <? len proof then pfail (errorf "payment channel proof parameter is not supported") else m.

Definition GetChannelInfo (addr : Address) : PM ChannelInfo := _ ← accessorByAddress addr; ByAddress addr.
Definition CreateVoucher (ch : Address) (voucher : SignedVoucher) : PM (option SignedVoucher * Z) := _ ← accessorByAddress ch; createVoucher ch voucher.
Definition CheckVoucherValid (ch : Address) (sv : SignedVoucher) : PM unit := _ ← inboundChannelAccessor ch; _ ← checkVoucherValidUnlocked ch sv; mret tt.
Definition CheckVoucherSpendable (ch : Address) (sv : SignedVoucher) (secret proof : bytes) : PM bool :=
  noProof proof (_ ← accessorByAddress ch; checkVoucherSpendable ch sv secret).
Definition AddVoucherOutbound (ch : Address) (sv : SignedVoucher) (proof : bytes) (minDelta : Z) : PM Z :=
  noProof proof (_ ← accessorByAddress ch; addVoucherUnlocked ch sv minDelta).
Definition AddVoucherInbound (ch : Address) (sv : SignedVoucher) (proof : bytes) (minDelta : Z) : PM Z :=
  noProof proof (_ ← inboundChannelAccessor ch; addVoucherUnlocked ch sv minDelta).
Definition SubmitVoucher (ch : Address) (sv : SignedVoucher) (secret proof : bytes) : PM Cid :=
  noProof proof (_ ← accessorByAddress ch; submitVoucher ch sv secret).
Definition AllocateLaneFor (ch : Address) : PM Z := _ ← accessorByAddress ch; AllocateLane ch.
Definition ListVouchers (ch : Address) : PM (list VoucherInfo) := _ ← accessorByAddress ch; VouchersForPaych ch.
Definition Settle (ch : Address) : PM Cid := _ ← accessorByAddress ch; settle ch.
Definition Collect (ch : Address) : PM Cid := _ ← accessorByAddress ch; collect ch.
End paych.
