(* ===== verification/PaychProps.v ===== *)
(** * Payment channels: what vouchers are accepted, nonces and lanes *)

From stdpp Require Import gmap.
From Stdlib Require Import Sorting.Sorted.
From S2P Require Import Prelude TipSet ChainMsg Kv Paych.

(** ** What is relied on *)

(** A nil amount is encoded as zero. *)
Definition normalised (ci : ChannelInfo) : ChannelInfo :=
  set_ChAmount (Some (default 0 (ChAmount ci))) (set_AvailableAmount (Some (default 0 (AvailableAmount ci)))
    (set_PendingAvailableAmount (Some (default 0 (PendingAvailableAmount ci))) (set_PendingAmount (Some (default 0 (PendingAmount ci))) ci))).

(** A query gives the entries of its namespace in some order, up to an entry that cannot be read. *)
Class PaychOk `{KvOk} `{!KvQuery} `{PaychNode} := {
  inNamespace : string -> dsKey -> bool;
  namespace_channel id : inNamespace dsKeyChannelInfo (dskeyForChannel id) = true;
  namespace_msg mcid : inNamespace dsKeyChannelInfo (dskeyForMsg mcid) = false;
  kv_Query_ok p s : kv_view (kv_Query p s).2 = kv_view s /\
    ((exists e, (kv_Query p s).1 = Err e) \/
     exists l kvs rest, (kv_Query p s).1 = Ret l /\ kvs ++ rest ≡ₚ map_to_list (filter (fun x => inNamespace p x.1 = true) (kv_view s)) /\
       Forall2 (fun e x => e = Ret x.2 \/ exists m, e = Err m) l kvs /\ (rest <> [] -> exists m, Err m ∈ l));
  channel_codec ci b : dumpChannelInfo ci = Ret b -> is_Some (Channel ci) -> loadChannelInfo b = Ret (normalised ci);
  cborEquals_ok a b eq : cborEquals a b = Ret eq -> eq = bool_decide (a = b);
}.

(** ** Reasoning about the store *)

Section triples.
Context `{PaychOk}.

Definition view (s : Manager) : gmap dsKey bytes := kv_view (pkv s).

(** From every store that satisfies [P] a result satisfies [Q], and an error or a panic leaves [E]. *)
Definition ptriple {A} (P : gmap dsKey bytes -> Prop) (m : PM A) (Q : A -> gmap dsKey bytes -> Prop) (E : gmap dsKey bytes -> Prop) : Prop :=
  forall s, P (view s) -> match m s with (POk a, s') => Q a (view s') | (_, s') => E (view s') end.

Lemma ptriple_ret {A} (P : _ -> Prop) (a : A) (Q : A -> _ -> Prop) E : (forall v, P v -> Q a v) -> ptriple P (mret a) Q E.
Proof. intros HQ s Hs. by apply HQ. Qed.

Lemma ptriple_fail {A} (P : _ -> Prop) e (Q : A -> _ -> Prop) (E : _ -> Prop) : (forall v, P v -> E v) -> ptriple P (pfail e) Q E.
Proof. intros HE s Hs. by apply HE. Qed.

Lemma ptriple_panic {A} (P : _ -> Prop) (Q : A -> _ -> Prop) (E : _ -> Prop) : (forall v, P v -> E v) -> ptriple P ppanic Q E.
Proof. intros HE s Hs. by apply HE. Qed.

Lemma ptriple_bind {A B} P (m : PM A) (f : A -> PM B) Q R E : ptriple P m Q E -> (forall a, ptriple (Q a) (f a) R E) -> ptriple P (m ≫= f) R E.
Proof. intros Hm Hf s Hs. specialize (Hm s Hs). unfold mbind, PM_bind. destruct (m s) as [[a|e|] s']; [|done..]. by apply Hf. Qed.

Lemma ptriple_conseq {A} (P P' : _ -> Prop) (m : PM A) (Q Q' : A -> _ -> Prop) (E E' : _ -> Prop) :
  ptriple P' m Q' E' -> (forall v, P v -> P' v) -> (forall a v, Q' a v -> Q a v) -> (forall v, E' v -> E v) -> ptriple P m Q E.
Proof. intros Hm HP HQ HE s Hs. specialize (Hm s (HP _ Hs)). destruct (m s) as [[a|e|] s']; eauto. Qed.

Lemma ptriple_lift {A} (P : _ -> Prop) (r : outcome A) (E : _ -> Prop) : (forall v, P v -> E v) -> ptriple P (plift r) (fun a v => P v /\ r = Ret a) E.
Proof. intros HE s Hs. unfold plift. destruct r; [done|by apply HE..]. Qed.

Lemma ptriple_askNode {A} (P : _ -> Prop) (f : node -> A * node) E : ptriple P (askNode f) (fun a v => P v /\ exists n n', f n = (a, n')) E.
Proof. intros s Hs. unfold askNode. destruct (f (pnode s)) as [a n] eqn:Ef. cbn. eauto. Qed.

Lemma ptriple_api {A} (P : _ -> Prop) (f : node -> outcome A * node) (E : _ -> Prop) :
  (forall v, P v -> E v) -> ptriple P (api f) (fun a v => P v /\ exists n n', f n = (Ret a, n')) E.
Proof.
  intros HE. unfold api. eapply ptriple_bind; [apply ptriple_askNode|]. intros r. cbn.
  eapply ptriple_conseq; [apply ptriple_lift with (P := fun v => P v /\ exists n n', f n = (r, n')) (E := E)|done| |done]; [naive_solver|].
  cbn. intros a v [[HP Hr] ->]. done.
Qed.

Lemma ptriple_attempt {A} P (m : PM A) (Q : A -> _ -> Prop) (E : _ -> Prop) :
  ptriple P m Q E -> ptriple P (attempt m) (fun r v => match r with inr a => Q a v | inl _ => E v end) E.
Proof. intros Hm s Hs. specialize (Hm s Hs). unfold attempt. by destruct (m s) as [[a|e|] s']. Qed.

Lemma ptriple_Put (P : _ -> Prop) k x (E : _ -> Prop) : (forall v, P v -> E v /\ E (<[k := x]> v)) ->
  ptriple P (ds (kv_Put k x)) (fun _ v => exists v0, P v0 /\ v = <[k := x]> v0) E.
Proof.
  intros HE s Hs. destruct (HE _ Hs) as [E1 E2]. unfold ds, view in *.
  destruct (kv_Put_ok k x (pkv s)) as [[Hr Hv]|[[e Hr] Hv]]; destruct (kv_Put k x (pkv s)) as [r s']; cbn in *; subst r; cbn; [eauto|].
  by destruct Hv as [->| ->].
Qed.

Lemma ptriple_Query (P : _ -> Prop) p (E : _ -> Prop) : (forall v, P v -> E v) ->
  ptriple P (ds (kv_Query p)) (fun l v => P v /\ exists kvs rest, kvs ++ rest ≡ₚ map_to_list (filter (fun x => inNamespace p x.1 = true) v) /\
       Forall2 (fun e x => e = Ret x.2 \/ exists m, e = Err m) l kvs /\ (rest <> [] -> exists m, Err m ∈ l)) E.
Proof.
  intros HE s Hs. unfold ds, view in *. destruct (kv_Query_ok p (pkv s)) as [Hv Hr]. destruct (kv_Query p (pkv s)) as [r s']; cbn in *.
  destruct Hr as [[e ->]|(l & kvs & rest & -> & Hp & Hf & Hrest)]; cbn; rewrite Hv; [by apply HE|]. split; [done|]. by exists kvs, rest.
Qed.

Lemma ptriple_pure {A} (phi : Prop) P (m : PM A) Q E : (phi -> ptriple P m Q E) -> ptriple (fun v => P v /\ phi) m Q E.
Proof. intros Hm s [Hs Hphi]. by apply Hm. Qed.

Lemma ptriple_ret_bind {A B} P (a : A) (f : A -> PM B) Q E : ptriple P (f a) Q E -> ptriple P (mret a ≫= f) Q E.
Proof. done. Qed.

(** Calls that leave the store as it is. *)
Lemma ptriple_lift_bind {A B} v0 (r : outcome A) (f : A -> PM B) Q (E : _ -> Prop) :
  E v0 -> (forall a, r = Ret a -> ptriple (eq v0) (f a) Q E) -> ptriple (eq v0) (plift r ≫= f) Q E.
Proof.
  intros HE Hf. eapply ptriple_bind; [apply ptriple_lift; by intros v <-|]. intros a. cbn. by apply ptriple_pure, Hf.
Qed.

Lemma ptriple_api_bind {A B} v0 (g : node -> outcome A * node) (f : A -> PM B) Q (E : _ -> Prop) :
  E v0 -> (forall a, (exists n n', g n = (Ret a, n')) -> ptriple (eq v0) (f a) Q E) -> ptriple (eq v0) (api g ≫= f) Q E.
Proof.
  intros HE Hf. eapply ptriple_bind; [apply ptriple_api; by intros v <-|]. intros a. cbn. apply ptriple_pure, Hf.
Qed.

Lemma ptriple_read_bind {A B} v0 (m : PM A) (Phi : A -> Prop) (f : A -> PM B) Q (E : _ -> Prop) :
  ptriple (eq v0) m (fun a v => v0 = v /\ Phi a) (eq v0) -> E v0 -> (forall a, Phi a -> ptriple (eq v0) (f a) Q E) -> ptriple (eq v0) (m ≫= f) Q E.
Proof.
  intros Hm HE Hf. eapply ptriple_bind; [eapply ptriple_conseq; [exact Hm|done|by intros a v Hv; exact Hv|by intros v <-]|]. intros a. cbn. apply ptriple_pure, Hf.
Qed.
End triples.

(** ** The channels of the store *)

Section channels.
Context `{PaychOk}.

(** The store has this channel at this address. *)
Definition tracked (v : gmap dsKey bytes) (ch : Address) (ci : ChannelInfo) : Prop :=
  Channel ci = Some ch /\ ChannelID ci <> EmptyString /\
  exists b, v !! dskeyForChannel (ChannelID ci) = Some b /\ unmarshallChannelInfo b = Ret ci.

(** Channels are under their keys, and an address has one channel. *)
Record store_ok (v : gmap dsKey bytes) : Prop := {
  so_keys k b ci : v !! k = Some b -> inNamespace dsKeyChannelInfo k = true -> unmarshallChannelInfo b = Ret ci ->
    k = dskeyForChannel (ChannelID ci) /\ ChannelID ci <> EmptyString;
  so_unique ch c1 c2 : tracked v ch c1 -> tracked v ch c2 -> c1 = c2;
}.

Lemma findChansLoop_found v0 (p : ChannelInfo -> bool) entries max matches :
  ptriple (eq v0) (findChansLoop entries (fun ci => mret (p ci)) max matches)
    (fun l v => v0 = v /\ forall ci, ci ∈ l -> ci ∈ matches \/ (p ci = true /\ exists b, Ret b ∈ entries /\ unmarshallChannelInfo b = Ret ci)) (eq v0).
Proof.
  revert matches. induction entries as [|[b|e|] entries IH]; intros matches; cbn [findChansLoop].
  - apply ptriple_ret. intros v ->. auto.
  - apply ptriple_lift_bind; [done|]. intros ci Hb. apply ptriple_ret_bind. destruct (p ci) eqn:Ep; cbn [negb].
    + destruct (len (matches ++ [ci]) =? max).
      * apply ptriple_ret. intros v <-. split; [done|]. intros ci' [?| ->%list_elem_of_singleton]%elem_of_app; [auto|]. right. split; [done|]. exists b. split; [left|done].
      * eapply ptriple_conseq; [apply IH|done| |done]. intros l v [<- Hl]. split; [done|]. intros ci' [[?| ->%list_elem_of_singleton]%elem_of_app|(Hp & b' & Hb' & Hu)]%Hl; [auto|..].
        -- right. split; [done|]. exists b. split; [left|done].
        -- right. split; [done|]. exists b'. split; [by right|done].
    + eapply ptriple_conseq; [apply IH|done| |done]. intros l v [<- Hl]. split; [done|]. intros ci' [?|(Hp & b' & Hb' & Hu)]%Hl; [auto|].
      right. split; [done|]. exists b'. split; [by right|done].
  - apply ptriple_ret. intros v <-. split; [done|]. intros ci Hci. by apply not_elem_of_nil in Hci.
  - apply ptriple_panic. done.
Qed.

Lemma ByAddress_tracked v0 ch : store_ok v0 -> ptriple (eq v0) (ByAddress ch) (fun ci v => v0 = v /\ tracked v0 ch ci) (eq v0).
Proof.
  intros Hok. unfold ByAddress, findChan, findChans. eapply ptriple_bind.
  - eapply ptriple_read_bind with (Phi := fun l => forall b, Ret b ∈ l -> exists k, v0 !! k = Some b /\ inNamespace dsKeyChannelInfo k = true).
    + eapply ptriple_conseq; [by apply (ptriple_Query (eq v0) _ (eq v0))|done| |done]. cbn. intros l v [<- (kvs & rest & Hp & Hf & _)].
      split; [done|]. intros b Hb. apply list_elem_of_lookup in Hb as [i Hi]. destruct (Forall2_lookup_l _ _ _ _ _ Hf Hi) as ([k b'] & Hk & [[= <-]|[m [=]]]).
      assert ((k, b) ∈ map_to_list (filter (fun x => inNamespace dsKeyChannelInfo x.1 = true) v0)) as Hin%elem_of_map_to_list%map_lookup_filter_Some.
      { rewrite <- Hp. apply elem_of_app. left. by eapply list_elem_of_lookup_2. }
      eauto.
    + done.
    + intros l Hl. eapply ptriple_conseq; [apply findChansLoop_found|done| |done]. cbn. intros cis v [<- Hcis].
      instantiate (1 := fun cis v => v0 = v /\ forall ci, ci ∈ cis -> tracked v0 ch ci). split; [done|]. intros ci [?%not_elem_of_nil|(Hc%bool_decide_eq_true & b & Hb & Hu)]%Hcis; [done|].
      destruct (Hl b Hb) as (k & Hk & Hn). destruct (so_keys v0 Hok k b ci Hk Hn Hu) as [-> Hid]. split; [done|]. split; [done|]. eauto.
  - intros [|ci cis]; cbn; [apply ptriple_fail; naive_solver|]. apply ptriple_ret. intros v [<- Hall]. split; [done|]. apply Hall. left.
Qed.

Lemma tracked_not_empty v ch ci : tracked v ch ci -> ch <> emptyAddr.
Proof.
  intros (Hc & _ & b & _ & Hu) ->. unfold unmarshallChannelInfo in Hu. destruct (loadChannelInfo b) as [c|e|]; cbn in Hu; [|done..].
  injection Hu as <-. case_bool_decide as Hb; destruct (AvailableAmount _); cbn in Hc; congruence.
Qed.

(** What is written for a channel is read back. *)
Lemma written_channel ci b ch : Channel ci = Some ch -> ch <> emptyAddr -> dumpChannelInfo ci = Ret b -> unmarshallChannelInfo b = Ret (normalised ci).
Proof.
  intros Hc Hne Hd. unfold unmarshallChannelInfo. rewrite (channel_codec _ _ Hd) by eauto. cbn. rewrite Hc. rewrite bool_decide_eq_false_2 by congruence. done.
Qed.

(** A write of a channel that keeps its key and its address. *)
Lemma putChannelInfo_tracked v0 ch ci ci' (E : _ -> Prop) : tracked v0 ch ci -> ChannelID ci' = ChannelID ci -> Channel ci' = Some ch -> E v0 ->
  (forall b, unmarshallChannelInfo b = Ret (normalised ci') -> E (<[dskeyForChannel (ChannelID ci) := b]> v0)) ->
  ptriple (eq v0) (putChannelInfo ci')
    (fun r v => r = ci' /\ exists b, v = <[dskeyForChannel (ChannelID ci) := b]> v0 /\ unmarshallChannelInfo b = Ret (normalised ci')) E.
Proof.
  intros Ht Hid Hc E0 E1. pose proof (tracked_not_empty _ _ _ Ht) as Hne. destruct Ht as (_ & Hn & _).
  unfold putChannelInfo. rewrite bool_decide_eq_false_2 by congruence. apply ptriple_ret_bind. unfold marshallChannelInfo. rewrite Hc.
  apply ptriple_lift_bind; [done|]. intros b Hb. pose proof (written_channel ci' b ch Hc Hne Hb) as Hw. rewrite Hid.
  eapply ptriple_bind; [apply ptriple_Put; intros v <-; split; [done|by apply E1]|]. intros []. cbn. apply ptriple_ret. intros v (_ & <- & ->). eauto.
Qed.

(** Such a write replaces the channel and keeps the others. *)
Lemma store_update v0 ch ci ci' b : store_ok v0 -> tracked v0 ch ci -> ChannelID ci' = ChannelID ci -> Channel ci' = Some ch ->
  unmarshallChannelInfo b = Ret ci' -> store_ok (<[dskeyForChannel (ChannelID ci) := b]> v0) /\ tracked (<[dskeyForChannel (ChannelID ci) := b]> v0) ch ci'.
Proof.
  intros Hok Ht Hid Hc Hu. assert (tracked (<[dskeyForChannel (ChannelID ci) := b]> v0) ch ci') as Ht'.
  { split; [done|]. rewrite Hid. split; [apply Ht|]. exists b. split; [apply lookup_insert_eq|done]. }
  split; [|done]. split.
  - intros k b' c Hk Hn Hb. apply lookup_insert_Some in Hk as [[<- <-]|[_ Hk]]; [|by eapply so_keys].
    rewrite Hu in Hb. injection Hb as <-. rewrite Hid. split; [done|apply Ht].
  - assert (forall ch' c, tracked (<[dskeyForChannel (ChannelID ci) := b]> v0) ch' c ->
      (c = ci' /\ ch' = ch) \/ (tracked v0 ch' c /\ dskeyForChannel (ChannelID c) <> dskeyForChannel (ChannelID ci))) as Hcase.
    { intros ch' c (Hc' & Hn' & b' & Hb' & Hu'). apply lookup_insert_Some in Hb' as [[Hk <-]|[Hk Hb']].
      - left. split; congruence.
      - right. split; [|congruence]. split; [done|]. split; [done|]. eauto. }
    intros ch' c1 c2 [[-> ->]|[Ha Hk1]]%Hcase [[-> E2]|[Hb Hk2]]%Hcase; [done|..].
    + exfalso. apply Hk2. by rewrite (so_unique _ Hok _ _ _ Hb Ht).
    + subst ch'. exfalso. apply Hk1. by rewrite (so_unique _ Hok _ _ _ Ha Ht).
    + by eapply so_unique.
Qed.

(** The entries of a query can be read. *)
Definition entries_read : Prop := forall p s l e, (kv_Query p s).1 = Ret l -> e ∈ l -> exists b, e = Ret b.

Lemma findChansLoop_empty (p : ChannelInfo -> bool) entries s r s' :
  (forall e, e ∈ entries -> exists b, e = Ret b) -> findChansLoop entries (fun ci => mret (p ci)) 1 [] s = (r, s') ->
  match r with
  | POk [] => forall b ci, Ret b ∈ entries -> unmarshallChannelInfo b = Ret ci -> p ci = false
  | PErr e => exists msg, e = errorf msg
  | _ => True
  end.
Proof.
  induction entries as [|e entries IH]; intros Hread; cbn [findChansLoop].
  { intros [= <- <-] b ci Hb. by apply not_elem_of_nil in Hb. }
  destruct (Hread e) as [b ->]; [left|]. unfold mbind, PM_bind, plift, mret, PM_ret. destruct (unmarshallChannelInfo b) as [ci|e|] eqn:Hu; [|intros [= <- <-]; eauto..].
  destruct (p ci) eqn:Hp; cbn [negb]; [cbn; by intros [= <- <-]|]. intros Hl. specialize (IH (fun e He => Hread e (list_elem_of_further _ _ _ He)) Hl).
  destruct r as [[|]|e|]; try done. intros b' ci' [[= ->]|Hb']%elem_of_cons; [congruence|by apply IH].
Qed.

Lemma ByAddress_finds v0 ch ci s s' : entries_read -> view s = v0 -> tracked v0 ch ci -> ByAddress ch s <> (PErr ErrChannelNotTracked, s').
Proof.
  intros Hread Hs (Hc & _ & b & Hb & Hu). unfold ByAddress, findChan, findChans, ds, mbind, PM_bind, plift. subst v0.
  destruct (kv_Query_ok dsKeyChannelInfo (pkv s)) as [_ Hq]. specialize (Hread dsKeyChannelInfo (pkv s)).
  destruct (kv_Query dsKeyChannelInfo (pkv s)) as [q k]. cbn in *. destruct Hq as [[e ->]|(l & kvs & rest & -> & Hp & Hf & Hrest)]; [done|].
  specialize (Hread l). match goal with |- context [findChansLoop l ?f 1 [] ?m] => destruct (findChansLoop l f 1 [] m) as [r s1] eqn:El end.
  apply findChansLoop_empty in El; [|intros e He; by apply Hread]. destruct r as [[|ci' cis]|e|]; cbn; try done; [|by destruct El as [msg ->]].
  exfalso. specialize (El b ci). cbn in El. assert (rest = []) as ->.
  { destruct rest; [done|]. destruct Hrest as [m Hm]; [done|]. destruct (Hread (Err m) eq_refl Hm) as [? [=]]. }
  rewrite app_nil_r in Hp. assert ((dskeyForChannel (ChannelID ci), b) ∈ kvs) as Hin.
  { rewrite Hp. apply elem_of_map_to_list, map_lookup_filter_Some. split; [done|]. apply namespace_channel. }
  apply list_elem_of_lookup in Hin as [i Hi]. destruct (Forall2_lookup_r _ _ _ _ _ Hf Hi) as (e & He & Hor).
  apply list_elem_of_lookup_2 in He as He'. destruct (Hread e eq_refl He') as [b' ->]. destruct Hor as [[= ->]|[m [=]]]. cbn in He'.
  specialize (El He' Hu). by rewrite bool_decide_eq_true_2 in El.
Qed.
End channels.

(** ** Lanes *)

Section lanes.
Context `{PaychOk}.

Definition nonceZ (ls : LaneState) : Z := match LNonce ls with Ret n => n | _ => 0 end.
Definition redeemedZ (ls : LaneState) : Z := match Redeemed ls with Ret n => n | _ => 0 end.

(** The lanes on the chain. *)
Definition chainLanes (lanes : list (Z * LaneState)) : gmap Z LaneState := foldl (fun m x => <[fst x := snd x]> m) ∅ lanes.

Lemma applyVouchers_app vs1 vs2 m : applyVouchers (vs1 ++ vs2) m = applyVouchers vs1 m ≫= applyVouchers vs2.
Proof.
  revert m. induction vs1 as [|v vs1 IH]; intros m; cbn; [done|]. destruct (Merges (Voucher v)); [|done].
  destruct (match m !! Lane (Voucher v) with Some ls => _ | None => _ end) as [[]|e|]; cbn; [apply IH..|done|done].
Qed.

(** Nonces of lanes only grow, and cover the vouchers. *)
Lemma applyVouchers_nonces vs m m' : applyVouchers vs m = Ret m' ->
  (forall l ls n, m !! l = Some ls -> LNonce ls = Ret n -> exists ls' n', m' !! l = Some ls' /\ LNonce ls' = Ret n' /\ n <= n') /\
  (forall v, v ∈ vs -> exists ls n, m' !! Lane (Voucher v) = Some ls /\ LNonce ls = Ret n /\ VNonce (Voucher v) <= n).
Proof.
  revert m. induction vs as [|v vs IH]; intros m; cbn [applyVouchers].
  { intros [= <-]. split; [intros l ls n Hl Hn; by exists ls, n|]. intros v Hv. by apply not_elem_of_nil in Hv. }
  destruct (Merges (Voucher v)); [|done]. set (L := Lane (Voucher v)).
  destruct (match m !! L with Some ls => _ | None => _ end) as [older|e|] eqn:Eo; cbn [mbind outcome_bind]; [|done..].
  destruct older; intros [I1 I2]%IH.
  - split; [done|]. intros v' [->|Hv]%elem_of_cons; [|by apply I2]. destruct (m !! L) as [ls|] eqn:El; [|done].
    destruct (LNonce ls) as [n|e|] eqn:En; cbn in Eo; [|done..]. destruct (I1 L ls n El En) as (ls' & n' & ? & ? & ?). exists ls', n'. split_and!; [done..|]. injection Eo as Eo. lia.
  - split.
    + intros l ls n Hl Hn. destruct (decide (l = L)) as [->|Hne]; [|apply (I1 l ls n); [by rewrite lookup_insert_ne|done]].
      destruct (I1 L (laneState (Amount (Voucher v)) (VNonce (Voucher v))) (VNonce (Voucher v))) as (ls' & n' & ? & ? & ?); [apply lookup_insert_eq|done|].
      exists ls', n'. split_and!; [done..|]. rewrite Hl in Eo. rewrite Hn in Eo. cbn in Eo. injection Eo as Eo. lia.
    + intros v' [->|Hv]%elem_of_cons; [|by apply I2]. apply (I1 L (laneState (Amount (Voucher v)) (VNonce (Voucher v)))); [apply lookup_insert_eq|done].
Qed.

Lemma sumRedeemed_ok l t t' : sumRedeemed l t = Ret t' -> t' = t + sumZ (fun x => redeemedZ x.2) l.
Proof.
  revert t. induction l as [|x l IH]; intros t; cbn; [intros [= <-]; lia|]. unfold redeemedZ at 1. destruct (Redeemed x.2) as [r|e|]; cbn; [|done..].
  intros Hl%IH. unfold BigAdd, sumZ in *. lia.
Qed.

(** The total with a voucher of a higher nonce is that of the lanes it leaves. *)
Lemma totalRedeemed_ok (lanes : gmap Z LaneState) sv t : totalRedeemedWithVoucher lanes sv = Ret t ->
  (forall ls n, lanes !! Lane sv = Some ls -> LNonce ls = Ret n -> n < VNonce sv) ->
  t = map_sum redeemedZ (<[Lane sv := laneState (Amount sv) (VNonce sv)]> lanes).
Proof.
  unfold totalRedeemedWithVoucher. intros Ht Hn. destruct (Merges sv); [|done]. destruct (sumRedeemed _ _) as [total|e|] eqn:Es; cbn [mbind outcome_bind] in Ht; [|done..].
  apply sumRedeemed_ok in Es. change (sumZ _ (map_to_list lanes)) with (map_sum redeemedZ lanes) in Es. rewrite map_sum_update. cbn [redeemedZ laneState Redeemed].
  destruct (lanes !! Lane sv) as [ls|] eqn:El; cbn [from_option]; [|injection Ht as <-; unfold BigAdd; lia].
  destruct (LNonce ls) as [n|e|] eqn:En; cbn in Ht; [|done..]. specialize (Hn ls n eq_refl En). replace (n <? VNonce sv) with true in Ht by lia.
  unfold redeemedZ. destruct (Redeemed ls) as [r|e|]; cbn in Ht; [|done..]. injection Ht as <-. unfold BigAdd, redeemedZ in *. lia.
Qed.

(** The lanes of a channel: those of the chain with the vouchers of the store. *)
Lemma laneStates_spec v0 ch ci st : entries_read -> store_ok v0 -> tracked v0 ch ci ->
  ptriple (eq v0) (laneStates st ch)
    (fun lanes v => v0 = v /\ exists chain, ForEachLaneState st = Ret chain /\ applyVouchers (Vouchers ci) (chainLanes chain) = Ret lanes) (eq v0).
Proof.
  intros Hread Hok Ht. unfold laneStates. apply ptriple_lift_bind; [done|]. intros _ _. apply ptriple_lift_bind; [done|]. intros chain Hchain.
  apply ptriple_read_bind with (Phi := fun r => match r with inr vs => vs = Vouchers ci | inl e => e <> ErrChannelNotTracked end); [|done|].
  - intros s Hs. subst v0. pose proof (ByAddress_tracked _ ch Hok s eq_refl) as Hb. pose proof (fun s' => ByAddress_finds _ ch ci s s' Hread eq_refl Ht) as Hf.
    unfold attempt, VouchersForPaych, mbind, PM_bind, mret, PM_ret. destruct (ByAddress ch s) as [[ci'|e|] s']; [|split; [done|]; intros ->; by apply (Hf s')|done].
    destruct Hb as [Hv Hb]. split; [done|]. by rewrite (so_unique _ Hok _ _ _ Hb Ht).
  - intros [e|vs]; [intros He; destruct e; try done; by apply ptriple_fail|]. intros ->. eapply ptriple_conseq; [by apply (ptriple_lift (eq v0) _ (eq v0))|done| |done].
    cbn. intros lanes v [<- Hl]. eauto.
Qed.

(** What is checked of a voucher: it is unlocked and signed by the payer, its nonce and its amount
    are above those of its lane, and the balance covers all lanes with it. *)
Definition accepted (ch : Address) (sv : SignedVoucher) (vs : list VoucherInfo) (lanes : gmap Z LaneState) : Prop :=
  ChannelAddr sv = ch /\ Extra sv = None /\ TimeLockMax sv = 0 /\ TimeLockMin sv = 0 /\ SecretHash sv = [] /\ Merges sv = [] /\
  (forall ls, lanes !! Lane sv = Some ls -> nonceZ ls < VNonce sv /\ redeemedZ ls < Amount sv) /\
  (forall v, v ∈ vs -> Lane (Voucher v) = Lane sv -> VNonce (Voucher v) < VNonce sv) /\
  exists balance st chain f from vb,
    (exists n n', GetPaychState ch n = (Ret (balance, st), n')) /\
    ps_From st = Ret f /\ (exists n n', ResolveToDeterministicAddress f n = (Ret from, n')) /\
    VoucherSigningBytes sv = Ret vb /\ sigsVerify (VSignature sv) from vb = Ret tt /\
    ForEachLaneState st = Ret chain /\ applyVouchers vs (chainLanes chain) = Ret lanes /\
    applyVouchers (vs ++ [newVoucherInfo sv]) (chainLanes chain) = Ret (<[Lane sv := laneState (Amount sv) (VNonce sv)]> lanes) /\
    map_sum redeemedZ (<[Lane sv := laneState (Amount sv) (VNonce sv)]> lanes) <= balance.

Lemma len_zero {A} (l : list A) : negb (len l =? 0) = false -> l = [].
Proof. destruct l; [done|]. intros Hl%negb_false_iff%Z.eqb_eq. unfold len in Hl. cbn [length] in Hl. lia. Qed.

Lemma checkVoucherValid_spec v0 ch ci sv : entries_read -> store_ok v0 -> tracked v0 ch ci ->
  ptriple (eq v0) (checkVoucherValidUnlocked ch sv) (fun lanes v => v0 = v /\ accepted ch sv (Vouchers ci) lanes) (eq v0).
Proof.
  intros Hread Hok Ht. unfold checkVoucherValidUnlocked. do 5 (match goal with |- ptriple _ (if ?b then _ else _) _ _ => destruct b eqn:? end; [by apply ptriple_fail|]).
  apply ptriple_api_bind; [done|]. intros [balance st] Hst. apply ptriple_lift_bind; [done|]. intros f Hf. apply ptriple_api_bind; [done|]. intros from Hfrom.
  apply ptriple_lift_bind; [done|]. intros vb Hvb. apply ptriple_lift_bind; [done|]. intros [] Hsig.
  eapply ptriple_read_bind; [by apply laneStates_spec|done|]. intros lanes (chain & Hchain & Hl).
  apply ptriple_lift_bind; [done|]. intros [] Hlane. apply ptriple_lift_bind; [done|]. intros t Htot.
  destruct (balance <? t) eqn:Hb; [by apply ptriple_fail|]. destruct (negb (len (Merges sv) =? 0)) eqn:Hm; [by apply ptriple_fail|]. apply ptriple_ret. intros v <-. split; [done|].
  assert (forall ls, lanes !! Lane sv = Some ls -> exists n, LNonce ls = Ret n /\ n < VNonce sv /\ redeemedZ ls < Amount sv) as Hup.
  { intros ls Els. rewrite Els in Hlane. unfold redeemedZ. destruct (LNonce ls) as [n|e|]; cbn in Hlane; [|done..]. destruct (VNonce sv <=? n) eqn:En; [done|].
    destruct (Redeemed ls) as [r|e|]; cbn in Hlane; [|done..]. destruct (Amount sv <=? r) eqn:Er; [done|]. exists n. split; [done|]. lia. }
  destruct (applyVouchers_nonces _ _ _ Hl) as [_ Hcov].
  apply len_zero in Hm. split_and!; [by apply negb_false_iff, bool_decide_eq_true in Heqb|by destruct (Extra sv)|lia|lia|by apply len_zero|done|..].
  - intros ls Els. destruct (Hup ls Els) as (n & En & ? & ?). unfold nonceZ. by rewrite En.
  - intros v Hv Elane. destruct (Hcov v Hv) as (ls & n & Els & En & ?). rewrite Elane in Els. destruct (Hup ls Els) as (n' & En' & ? & ?). assert (n = n') by congruence. lia.
  - exists balance, st, chain, f, from, vb. split_and!; try done.
    + rewrite applyVouchers_app, Hl. cbn. rewrite Hm. destruct (lanes !! Lane sv) as [ls|] eqn:Els; cbn; [|done]. destruct (Hup ls eq_refl) as (n & -> & ? & _). cbn. by replace (VNonce sv <? n) with false by lia.
    + apply totalRedeemed_ok in Htot; [lia|]. intros ls n Els En. destruct (Hup ls Els) as (n' & En' & ? & _). assert (n = n') by congruence. lia.
Qed.

Lemma alreadyAdded_true sv vs : alreadyAdded sv vs = Ret true -> sv ∈ Voucher <$> vs.
Proof.
  induction vs as [|v vs IH]; cbn; [done|]. destruct (cborEquals sv (Voucher v)) as [eq|e|] eqn:E; cbn; [|done..].
  apply cborEquals_ok in E. subst eq. case_bool_decide as Hv; [intros _; subst; left|]. intros Ha%IH. by right.
Qed.

(** The channel with a voucher more. *)
Definition withVoucher (sv : SignedVoucher) (ci : ChannelInfo) : ChannelInfo :=
  let ci := set_Vouchers (Vouchers ci ++ [newVoucherInfo sv]) ci in
  if NextLane ci <=? Lane sv then set_NextLane (u64 (Lane sv + 1)) ci else ci.

(** The store has [ci'] for the channel. *)
Definition replaced (ch : Address) (ci' : ChannelInfo) (v : gmap dsKey bytes) : Prop :=
  store_ok v /\ tracked v ch (normalised ci').

Lemma replace_tracked v0 ch ci ci' b : store_ok v0 -> tracked v0 ch ci -> ChannelID ci' = ChannelID ci -> Channel ci' = Some ch ->
  unmarshallChannelInfo b = Ret (normalised ci') -> replaced ch ci' (<[dskeyForChannel (ChannelID ci) := b]> v0).
Proof. intros Hok Ht Hid Hc Hu. by apply (store_update v0 ch ci). Qed.

Lemma put_replaced v0 ch ci ci' : store_ok v0 -> tracked v0 ch ci -> ChannelID ci' = ChannelID ci -> Channel ci' = Some ch ->
  ptriple (eq v0) (putChannelInfo ci') (fun _ v => replaced ch ci' v) (fun v => v0 = v \/ replaced ch ci' v).
Proof.
  intros Hok Ht Hid Hc. eapply ptriple_conseq; [apply (putChannelInfo_tracked v0 ch ci ci' (fun v => v0 = v \/ replaced ch ci' v)); try done|done| |done].
  - by left.
  - intros b Hb. right. by apply replace_tracked.
  - cbn. intros _ v (_ & b & -> & Hb). by apply replace_tracked.
Qed.

Lemma addVoucher_spec v0 ch ci sv minDelta : entries_read -> store_ok v0 -> tracked v0 ch ci ->
  ptriple (eq v0) (addVoucherUnlocked ch sv minDelta)
    (fun delta v => (v0 = v /\ delta = 0 /\ sv ∈ Voucher <$> Vouchers ci) \/
       exists lanes, replaced ch (withVoucher sv ci) v /\ accepted ch sv (Vouchers ci) lanes /\
         delta = Amount sv - from_option redeemedZ 0 (lanes !! Lane sv) /\ minDelta <= delta)
    (fun v => v0 = v \/ (replaced ch (withVoucher sv ci) v /\ exists lanes, accepted ch sv (Vouchers ci) lanes)).
Proof.
  intros Hread Hok Ht. unfold addVoucherUnlocked. eapply ptriple_read_bind; [by apply ByAddress_tracked|by left|].
  intros ci' Ht'. rewrite (so_unique _ Hok _ _ _ Ht' Ht). clear ci' Ht'. apply ptriple_lift_bind; [by left|]. intros [] Hdup.
  { apply ptriple_ret. intros v <-. left. split; [done|]. split; [done|]. by apply alreadyAdded_true. }
  eapply ptriple_read_bind; [by apply checkVoucherValid_spec|by left|]. intros lanes Hacc. apply ptriple_lift_bind; [by left|]. intros r Hr. cbv zeta.
  destruct (Amount sv - r <? minDelta) eqn:Hd; [apply ptriple_fail; by left|]. fold (withVoucher sv ci).
  assert (ChannelID (withVoucher sv ci) = ChannelID ci /\ Channel (withVoucher sv ci) = Some ch) as [Hid Hc].
  { unfold withVoucher. cbn. destruct (NextLane ci <=? Lane sv); split; try done; apply Ht. }
  eapply ptriple_bind; [eapply ptriple_conseq; [by apply (put_replaced v0 ch ci)|done|intros a v Hv; exact Hv|]|].
  { cbn. intros v [?|?]; [by left|]. right. split; [done|]. by exists lanes. }
  intros ?. cbn. apply ptriple_ret. intros v Hv. right. exists lanes. split_and!; [done..| |lia].
  destruct (lanes !! Lane sv) as [ls|]; cbn; [|congruence]. unfold redeemedZ. by rewrite Hr.
Qed.
End lanes.

(** ** Calls on a channel *)

Section runs.
Context `{PaychOk}.

Inductive chanOp :=
| DoAdd (sv : SignedVoucher) (minDelta : Z)
| DoCreate (v : SignedVoucher)
| DoAllocate
| DoSubmit (i : nat) (secret : bytes) (* a voucher of the channel *)
| DoSettle
| DoCollect
| DoSpendable (sv : SignedVoucher) (secret : bytes).

(** The lane that the call has allocated. *)
Definition runOp (ch : Address) (op : chanOp) : PM (option Z) :=
  match op with
  | DoAdd sv minDelta => _ ← addVoucherUnlocked ch sv minDelta; mret None
  | DoCreate v => _ ← createVoucher ch v; mret None
  | DoAllocate => l ← AllocateLane ch; mret (Some l)
  | DoSubmit i secret =>
      vs ← VouchersForPaych ch;
      match vs !! i with Some v => _ ← submitVoucher ch (Voucher v) secret; mret None | None => mret None end
  | DoSettle => _ ← settle ch; mret None
  | DoCollect => _ ← collect ch; mret None
  | DoSpendable sv secret => _ ← checkVoucherSpendable ch sv secret; mret None
  end.

(** The calls one after another, of which any may fail, and the lanes they have allocated. *)
Fixpoint runOps (ch : Address) (ops : list chanOp) (s : Manager) : list Z * Manager :=
  match ops with
  | [] => ([], s)
  | op :: ops =>
      let '(r, s) := runOp ch op s in
      let '(l, s) := runOps ch ops s in
      (match r with POk (Some lane) => lane :: l | _ => l end, s)
  end.

(** Vouchers of a lane are in the order of their nonces. *)
Definition nonces_up (vs : list SignedVoucher) : Prop :=
  forall i j v w, (i < j)%nat -> vs !! i = Some v -> vs !! j = Some w -> Lane v = Lane w -> VNonce v < VNonce w.

Definition vouchersOf (ci : ChannelInfo) : list SignedVoucher := Voucher <$> Vouchers ci.

Record lanes_ok (B : Z) (ci : ChannelInfo) : Prop := {
  lo_nonces : nonces_up (vouchersOf ci);
  lo_lanes v : v ∈ vouchersOf ci -> 0 <= Lane v < NextLane ci;
  lo_next : 0 <= NextLane ci <= B;
}.

(** A call keeps the vouchers and the order, and does not lower the next lane. *)
Definition grown (B : Z) (ci ci' : ChannelInfo) : Prop :=
  lanes_ok (B + 1) ci' /\ NextLane ci <= NextLane ci' /\ vouchersOf ci `prefix_of` vouchersOf ci'.

Definition op_ok (B : Z) (op : chanOp) : Prop :=
  match op with
  | DoAdd v _ | DoCreate v => 0 <= Lane v < B
  | _ => True
  end.

Lemma nonces_up_snoc vs sv : nonces_up vs -> (forall v, v ∈ vs -> Lane v = Lane sv -> VNonce v < VNonce sv) -> nonces_up (vs ++ [sv]).
Proof.
  intros Hup Hsv i j v w Hij Hi Hj Hl. apply lookup_app_Some in Hj as [Hj|[Hj Hjs]].
  - rewrite lookup_app_l in Hi; [by eapply Hup|]. apply lookup_lt_Some in Hj. lia.
  - apply list_lookup_singleton_Some in Hjs as [Ej <-]. rewrite lookup_app_l in Hi by lia. apply Hsv; [by eapply list_elem_of_lookup_2|done].
Qed.

Lemma vouchersOf_with sv ci : vouchersOf (withVoucher sv ci) = vouchersOf ci ++ [sv].
Proof. unfold vouchersOf, withVoucher. destruct (_ <=? _); cbn; by rewrite fmap_app. Qed.

Lemma grown_refl B ci ci' : lanes_ok B ci -> vouchersOf ci' = vouchersOf ci -> NextLane ci' = NextLane ci -> grown B ci ci'.
Proof.
  intros [L1 L2 L3] Ev En. split; [|by rewrite Ev, En]. split; rewrite ?Ev, ?En; [done..|lia].
Qed.

Lemma grown_voucher B ci sv lanes : lanes_ok B ci -> 0 <= Lane sv < B -> B < 18446744073709551615 -> accepted (ChannelAddr sv) sv (Vouchers ci) lanes ->
  grown B ci (withVoucher sv ci).
Proof.
  intros [L1 L2 L3] Hl HB Hacc. assert (NextLane (withVoucher sv ci) = Z.max (NextLane ci) (Lane sv + 1)) as En.
  { unfold withVoucher. cbn. destruct (NextLane ci <=? Lane sv) eqn:E; cbn; [rewrite u64_id by (unfold in_u64; lia)|]; lia. }
  split; [|split; [lia|rewrite vouchersOf_with; by eexists]]. destruct Hacc as (_ & _ & _ & _ & _ & _ & _ & Hn & _). split.
  - rewrite vouchersOf_with. apply nonces_up_snoc; [done|]. intros v Hv. apply list_elem_of_fmap in Hv as (vi & -> & Hv). by apply Hn.
  - intros v. rewrite vouchersOf_with, En. intros [Hv| ->%list_elem_of_singleton]%elem_of_app; [specialize (L2 v Hv)|]; lia.
  - lia.
Qed.

(** What a call leaves of the store. *)
Definition op_post (ch : Address) (B : Z) (ci : ChannelInfo) (r : option Z) (v : gmap dsKey bytes) : Prop :=
  store_ok v /\ exists ci', tracked v ch ci' /\ grown B ci ci' /\ (forall l, r = Some l -> l = NextLane ci /\ l < NextLane ci').

Lemma op_post_same ch B ci v0 : store_ok v0 -> tracked v0 ch ci -> lanes_ok B ci -> op_post ch B ci None v0.
Proof. intros Hok Ht Hl. split; [done|]. exists ci. split; [done|]. split; [by apply grown_refl|done]. Qed.

Lemma op_post_replaced ch B ci ci' r v : replaced ch ci' v -> grown B ci ci' -> (forall l, r = Some l -> l = NextLane ci /\ l < NextLane ci') -> op_post ch B ci r v.
Proof.
  intros [Hok Ht] Hg Hr. split; [done|]. exists (normalised ci'). split; [done|]. split; [|done]. destruct Hg as ([] & ? & ?). by split.
Qed.

Lemma markVoucherSubmitted_keeps sv ci ci' : markVoucherSubmitted sv ci = Ret ci' ->
  vouchersOf ci' = vouchersOf ci /\ NextLane ci' = NextLane ci /\ ChannelID ci' = ChannelID ci /\ Channel ci' = Channel ci.
Proof.
  unfold markVoucherSubmitted. destruct (infoForVoucher sv (Vouchers ci)) as [[i|]|e|]; cbn; [|done..]. intros [= <-]. split; [|done].
  unfold vouchersOf. cbn. rewrite <- list_fmap_compose. transitivity (Voucher <$> alter setSubmitted i (Vouchers ci)).
  - apply list_fmap_ext. intros j v _. cbn. by destruct (_ && _).
  - generalize (Vouchers ci). clear. induction i as [|i IH]; intros [|v vs]; cbn; [done..|]. f_equal. apply IH.
Qed.

Lemma hasVoucher_elem sv ci has : hasVoucher ci sv = Ret has -> sv ∈ vouchersOf ci -> has = true.
Proof.
  unfold hasVoucher, vouchersOf. destruct (infoForVoucher sv (Vouchers ci)) as [[i|]|e|] eqn:E; cbn; intros [= <-]; [done|]. intros Hin. exfalso. revert E Hin.
  induction (Vouchers ci) as [|v vs IH]; cbn; [intros _ Hin; by apply not_elem_of_nil in Hin|]. destruct (cborEquals sv (Voucher v)) as [eq|e|] eqn:Eq; cbn; [|done..].
  apply cborEquals_ok in Eq. subst eq. case_bool_decide as Hv; [done|]. destruct (infoForVoucher sv vs) as [[i|]|e|]; cbn; [done| |done..].
  intros _ [?|?]%elem_of_cons; [done|]. by apply IH.
Qed.

Section op.
Context (ch : Address) (B : Z) (ci : ChannelInfo) (v0 : gmap dsKey bytes).
Context (Hread : entries_read) (Hok : store_ok v0) (Ht : tracked v0 ch ci) (Hlanes : lanes_ok B ci) (HB : B < 18446744073709551615).

Let same : op_post ch B ci None v0 := op_post_same ch B ci v0 Hok Ht Hlanes.

Lemma read_channel {A} (f : ChannelInfo -> PM A) Q (E : _ -> Prop) : E v0 -> ptriple (eq v0) (f ci) Q E -> ptriple (eq v0) (ByAddress ch ≫= f) Q E.
Proof.
  intros HE Hf. eapply ptriple_read_bind; [by apply ByAddress_tracked|done|]. intros ci' Ht'. by rewrite (so_unique _ Hok _ _ _ Ht' Ht).
Qed.

(** A write of the channel at the end of a call. *)
Lemma put_post {A} ci' (a : A) : ChannelID ci' = ChannelID ci -> Channel ci' = Channel ci -> grown B ci ci' ->
  ptriple (eq v0) (_ ← putChannelInfo ci'; mret a) (fun r v => r = a /\ replaced ch ci' v) (op_post ch B ci None).
Proof.
  intros Hid Hc Hg. eapply ptriple_bind; [eapply ptriple_conseq; [apply (put_replaced v0 ch ci ci'); try done|done|intros ? v Hv; exact Hv|]|].
  - rewrite Hc. apply Ht.
  - cbn. intros v [<-|Hv]; [done|]. by apply (op_post_replaced ch B ci ci').
  - intros ?. by apply ptriple_ret.
Qed.

Lemma add_post sv minDelta : 0 <= Lane sv < B -> ptriple (eq v0) (addVoucherUnlocked ch sv minDelta) (fun _ => op_post ch B ci None) (op_post ch B ci None).
Proof.
  intros Hl. assert (forall v lanes, replaced ch (withVoucher sv ci) v -> accepted ch sv (Vouchers ci) lanes -> op_post ch B ci None v) as Hrep.
  { intros v lanes Hv Hacc. apply (op_post_replaced ch B ci (withVoucher sv ci)); [done| |done]. eapply grown_voucher; [done..|]. destruct Hacc as [Hch ?]. rewrite Hch. by split. }
  eapply ptriple_conseq; [by apply (addVoucher_spec v0 ch ci sv minDelta)|done|..]; cbn.
  - intros delta v [(<- & _)|(lanes & Hv & Hacc & _)]; [done|]. by eapply Hrep.
  - intros v [<-|(Hv & lanes & Hacc)]; [done|]. by eapply Hrep.
Qed.

Lemma create_post sv : 0 <= Lane sv < B -> ptriple (eq v0) (createVoucher ch sv) (fun _ => op_post ch B ci None) (op_post ch B ci None).
Proof.
  intros Hl. unfold createVoucher. apply read_channel; [done|]. apply ptriple_lift_bind; [done|]. intros vb _. apply ptriple_api_bind; [done|]. intros sig _.
  eapply ptriple_bind; [by apply ptriple_attempt, add_post|]. intros [[| |shortfall|msg]|delta]; cbn; first [by apply ptriple_fail|by apply ptriple_ret].
Qed.

Lemma allocate_post : ptriple (eq v0) (AllocateLane ch) (fun l => op_post ch B ci (Some l)) (op_post ch B ci None).
Proof.
  assert (NextLane ci <= B) as Hn by apply Hlanes. assert (u64 (NextLane ci + 1) = NextLane ci + 1) as Eu by (apply u64_id; destruct (lo_next _ _ Hlanes); unfold in_u64; lia).
  assert (grown B ci (set_NextLane (u64 (NextLane ci + 1)) ci)) as Hg.
  { split; [|split; [cbn; lia|done]]. pose proof Hlanes as [L1 L2 L3]. split; [done| |cbn; lia]. intros v Hv. specialize (L2 v Hv). cbn. lia. }
  unfold AllocateLane. apply read_channel; [done|]. cbv zeta. eapply ptriple_conseq; [by apply (put_post (set_NextLane (u64 (NextLane ci + 1)) ci))|done| |done].
  cbn. intros l v [-> Hv]. apply (op_post_replaced ch B ci (set_NextLane (u64 (NextLane ci + 1)) ci)); [done..|]. intros l [= <-]. cbn [set_NextLane NextLane]. rewrite Eu. lia.
Qed.

Lemma builder_bind {A} from (f : MessageBuilder -> PM A) Q (E : _ -> Prop) : E v0 -> (forall mb, ptriple (eq v0) (f mb) Q E) -> ptriple (eq v0) (messageBuilder from ≫= f) Q E.
Proof.
  intros HE Hf. eapply (ptriple_read_bind v0 (messageBuilder from) (fun _ => True)); [|done|by intros mb _].
  unfold messageBuilder. apply ptriple_api_bind; [done|]. intros nv _. apply ptriple_lift_bind; [done|]. intros av _.
  eapply ptriple_conseq; [by apply (ptriple_lift (eq v0) _ (eq v0))|done|by intros a v [<- _]|done].
Qed.

Lemma submit_post sv secret : sv ∈ vouchersOf ci -> ptriple (eq v0) (submitVoucher ch sv secret) (fun _ => op_post ch B ci None) (op_post ch B ci None).
Proof.
  intros Hin. unfold submitVoucher. apply read_channel; [done|]. apply ptriple_lift_bind; [done|]. intros has Hhas. apply (hasVoucher_elem sv ci has) in Hhas as ->; [|done].
  apply ptriple_lift_bind; [done|]. intros [] _; [apply ptriple_fail; by intros v <-|]. apply builder_bind; [done|]. intros mb. apply ptriple_lift_bind; [done|]. intros msg _.
  apply ptriple_api_bind; [done|]. intros mcid _. cbv zeta.
  apply (ptriple_bind _ _ _ (fun _ => op_post ch B ci None)); [|intros ?; by apply ptriple_ret].
  unfold MarkVoucherSubmitted. apply ptriple_lift_bind; [done|]. intros ci' (Ev & En & Hid & Hc)%markVoucherSubmitted_keeps.
  assert (grown B ci ci') as Hg by by apply grown_refl.
  eapply ptriple_conseq; [by apply (put_post ci')|done| |done]. cbn. intros ? v [_ Hv]. by apply (op_post_replaced ch B ci ci').
Qed.

Lemma settle_post : ptriple (eq v0) (settle ch) (fun _ => op_post ch B ci None) (op_post ch B ci None).
Proof.
  unfold settle. apply read_channel; [done|]. apply builder_bind; [done|]. intros mb. apply ptriple_lift_bind; [done|]. intros msg _.
  apply ptriple_api_bind; [done|]. intros mcid _. assert (grown B ci (set_Settling true ci)) as Hg by by apply grown_refl.
  eapply ptriple_conseq; [by apply (put_post (set_Settling true ci))|done| |done]. cbn. intros ? v [_ Hv]. by apply (op_post_replaced ch B ci (set_Settling true ci)).
Qed.

Lemma collect_post : ptriple (eq v0) (collect ch) (fun _ => op_post ch B ci None) (op_post ch B ci None).
Proof.
  unfold collect. apply read_channel; [done|]. apply builder_bind; [done|]. intros mb. apply ptriple_lift_bind; [done|]. intros msg _.
  eapply ptriple_conseq; [by apply (ptriple_api (eq v0) _ (eq v0))|done|by intros a v [<- _]|by intros v <-].
Qed.

Lemma spendable_post sv secret : ptriple (eq v0) (checkVoucherSpendable ch sv secret) (fun _ => op_post ch B ci None) (op_post ch B ci None).
Proof.
  unfold checkVoucherSpendable. eapply (ptriple_read_bind v0 (getPaychRecipient ch) (fun _ => True)); [|done|].
  { unfold getPaychRecipient. apply ptriple_api_bind; [done|]. intros [bal st] _. eapply ptriple_conseq; [by apply (ptriple_lift (eq v0) _ (eq v0))|done|by intros a v [<- _]|done]. }
  intros to _. apply read_channel; [done|]. apply ptriple_lift_bind; [done|]. intros [] _; [apply ptriple_ret; by intros v <-|].
  apply builder_bind; [done|]. intros mb. apply ptriple_lift_bind; [done|]. intros msg _. apply ptriple_api_bind; [done|]. intros code _. apply ptriple_ret. by intros v <-.
Qed.

Lemma runOp_post op : op_ok B op -> ptriple (eq v0) (runOp ch op) (op_post ch B ci) (op_post ch B ci None).
Proof.
  assert (forall A (m : PM A), ptriple (eq v0) m (fun _ => op_post ch B ci None) (op_post ch B ci None) ->
    ptriple (eq v0) (_ ← m; mret None) (op_post ch B ci) (op_post ch B ci None)) as Hdrop.
  { intros A m Hm. eapply ptriple_bind; [exact Hm|]. intros a. by apply ptriple_ret. }
  intros Hop. destruct op as [sv d|sv| |i secret| | |sv secret]; cbn [runOp op_ok] in *.
  - by apply Hdrop, add_post.
  - by apply Hdrop, create_post.
  - eapply ptriple_bind; [apply allocate_post|]. intros l. by apply ptriple_ret.
  - eapply (ptriple_read_bind v0 (VouchersForPaych ch) (fun vs => vs = Vouchers ci)); [|done|].
    + unfold VouchersForPaych. apply read_channel; [done|]. by apply ptriple_ret.
    + intros vs ->. destruct (Vouchers ci !! i) as [v|] eqn:Ei; [|apply ptriple_ret; by intros v <-]. apply Hdrop, submit_post.
      apply list_elem_of_fmap. exists v. split; [done|]. by eapply list_elem_of_lookup_2.
  - apply Hdrop, settle_post.
  - apply Hdrop, collect_post.
  - apply Hdrop, spendable_post.
Qed.
End op.

Lemma runOps_post ch ops B ci s : entries_read -> store_ok (view s) -> tracked (view s) ch ci -> lanes_ok B ci -> Forall (op_ok B) ops ->
  B + len ops < 18446744073709551616 ->
  store_ok (view (runOps ch ops s).2) /\ exists ci', tracked (view (runOps ch ops s).2) ch ci' /\ lanes_ok (B + len ops) ci' /\
    vouchersOf ci `prefix_of` vouchersOf ci' /\ StronglySorted Z.lt (runOps ch ops s).1 /\
    Forall (fun l => NextLane ci <= l < NextLane ci') (runOps ch ops s).1 /\ NextLane ci <= NextLane ci'.
Proof.
  intros Hread. revert B ci s. induction ops as [|op ops IH]; intros B ci s Hok Ht Hl Hops HB; cbn [runOps].
  { split; [done|]. exists ci. unfold len. cbn. rewrite Z.add_0_r. split_and!; try done; constructor. }
  apply Forall_cons in Hops as [Hop Hops]. rewrite len_cons in HB |- *. pose proof (len_nonneg ops).
  pose proof (runOp_post ch B ci (view s) Hread Hok Ht Hl ltac:(lia) op Hop s eq_refl) as Hpost. destruct (runOp ch op s) as [r s1].
  assert (exists lane, op_post ch B ci lane (view s1) /\ forall l, r = POk (Some l) -> lane = Some l) as (lane & Hp & Hlane).
  { destruct r as [a|e|]; [exists a|exists None..]; (split; [exact Hpost|]); congruence. }
  destruct Hp as (Hok1 & ci1 & Ht1 & (Hl1 & Hn1 & Hpre) & Hlane1).
  destruct (IH (B + 1) ci1 s1) as (Hok2 & ci2 & Ht2 & Hl2 & Hpre2 & Hs2 & Hf2 & Hn2); [done..| |lia|].
  { eapply Forall_impl; [exact Hops|]. intros []; cbn; lia. }
  destruct (runOps ch ops s1) as [ls s2]. cbn [fst snd] in *. split; [done|]. exists ci2. replace (B + (1 + len ops)) with (B + 1 + len ops) by lia.
  split_and!; [done|done|by etrans| | |lia].
  - destruct r as [[l|]|e|]; try done. constructor; [done|]. destruct (Hlane1 l (Hlane l eq_refl)). eapply Forall_impl; [exact Hf2|]. cbn. lia.
  - assert (Forall (fun l => NextLane ci <= l < NextLane ci2) ls) by (eapply Forall_impl; [exact Hf2|]; cbn; lia).
    destruct r as [[l|]|e|]; try done. constructor; [|done]. destruct (Hlane1 l (Hlane l eq_refl)). lia.
Qed.


End runs.

(** ** What else the calls do *)

Section others.
Context `{PaychOk}.

(** An entry that cannot be read hides all channels, and no error is reported. *)
Lemma unreadable_hides ch m es k s : kv_Query dsKeyChannelInfo (pkv s) = (Ret (Err m :: es), k) -> (ByAddress ch s).1 = PErr ErrChannelNotTracked.
Proof. intros Hq. unfold ByAddress, findChan, findChans, mbind, PM_bind, ds. by rewrite Hq. Qed.

(** A channel has one accessor for the vouchers that come in, and another for the other calls. *)
Lemma two_accessors ch ci s s1 : ByAddress ch s = (POk ci, s1) ->
  (inboundChannelAccessor ch s).1 = POk (accessorCacheKey (Target ci) (Control ci)) /\ (accessorByAddress ch s).1 = POk (accessorCacheKey (Control ci) (Target ci)).
Proof.
  intros Hb. unfold inboundChannelAccessor, trackInboundChannel, accessorByAddress, attempt, mbind, PM_bind. rewrite Hb. done.
Qed.

(** The best voucher of a lane is a spendable one of the largest amount. *)
Lemma bestSpendable_ok vouchers best best' : bestSpendable vouchers best = Ret best' ->
  (forall l b, best !! l = Some b -> Lane b = l) ->
  forall l, match best' !! l with
       | Some b => Lane b = l /\ (best !! l = Some b \/ (b, Ret true) ∈ vouchers) /\ (forall b0, best !! l = Some b0 -> Amount b0 <= Amount b) /\
           forall v, (v, Ret true) ∈ vouchers -> Lane v = l -> Amount v <= Amount b
       | None => best !! l = None /\ forall v, (v, Ret true) ∈ vouchers -> Lane v <> l
       end.
Proof.
  revert best. induction vouchers as [|[v r] vouchers IH]; intros best; cbn [bestSpendable].
  { intros [= <-] Hl l. destruct (best !! l) as [b|] eqn:E.
    - split; [by eapply Hl|]. split; [by left|]. split; [intros b0 [= ->]; done|]. intros v Hv. by apply not_elem_of_nil in Hv.
    - split; [done|]. intros v Hv. by apply not_elem_of_nil in Hv. }
  destruct r as [sp|e|]; cbn [mbind outcome_bind]; [|done..]. intros Hb Hl l.
  destruct (sp && _) eqn:Esp; specialize (IH _ Hb).
  - apply andb_true_iff in Esp as [-> Esp]. assert (forall l0 b, <[Lane v := v]> best !! l0 = Some b -> Lane b = l0) as Hl'.
    { intros l0 b [[<- <-]|[_ ?]]%lookup_insert_Some; [done|by apply Hl]. }
    specialize (IH Hl' l). destruct (best' !! l) as [b|] eqn:Eb.
    + destruct IH as (Hlane & Hin & Hge & Hmax). split; [done|]. destruct (decide (Lane v = l)) as [<-|Hne].
      * rewrite lookup_insert_eq in Hin, Hge. specialize (Hge v eq_refl). split_and!.
        -- right. destruct Hin as [[= ->]|?]; [left|by right].
        -- intros b0 Hb0. rewrite Hb0 in Esp. lia.
        -- intros w [[= ->]|?]%elem_of_cons Hw; [done|by apply Hmax].
      * rewrite lookup_insert_ne in Hin, Hge by done. split_and!; [destruct Hin; [by left|right; by right]|done|].
        intros w [[= ->]|?]%elem_of_cons Hw; [done|by apply Hmax].
    + destruct IH as [Hn Hno]. apply lookup_insert_None in Hn as [Hn Hne]. split; [done|]. intros w [[= ->]|?]%elem_of_cons; [done|by apply Hno].
  - specialize (IH Hl l). destruct (best' !! l) as [b|] eqn:Eb.
    + destruct IH as (Hlane & Hin & Hge & Hmax). split_and!; [done|destruct Hin; [by left|right; by right]|done|].
      intros w [[= -> <-]|?]%elem_of_cons Hw; [|by apply Hmax]. cbn in Esp. rewrite Hw in Esp. destruct (best !! l) as [b0|] eqn:E0; [|done]. specialize (Hge b0 eq_refl). lia.
    + destruct IH as [Hn Hno]. split; [done|]. intros w [[= -> <-]|?]%elem_of_cons; [|by apply Hno]. cbn in Esp. intros <-. by rewrite Hn in Esp.
Qed.
End others.

(** ** A manager over a datastore in memory *)

#[export] Instance VoucherInfo_eq_dec : EqDecision VoucherInfo.
Proof. solve_decision. Defined.
#[export] Instance ChannelInfo_eq_dec : EqDecision ChannelInfo.
Proof. solve_decision. Defined.

#[local] Existing Instances memKv memKvOk.

#[local] Instance memQuery : KvQuery := fun p s => (Ret ((fun x => Ret x.2) <$> map_to_list (filter (fun x => head x.1 = Some p) (s : gmap (list string) bytes))), s).

Definition demoVoucher (lane nonce amount : Z) : SignedVoucher := {|
  ChannelAddr := "ch"; TimeLockMin := 0; TimeLockMax := 0; SecretHash := []; Extra := None; Lane := lane; VNonce := nonce; Amount := amount;
  MinSettleHeight := 0; Merges := []; VSignature := Some {| SType := SigTypeBLS; SData := [] |} |}.

(** The channels that the codec of the example has: between two addresses, and with such vouchers. *)
Definition demoChannel (id : string) (nextLane avail : Z) (vs : list VoucherInfo) : ChannelInfo := {|
  ChannelID := id; Channel := Some "ch"; Control := "me"; Target := "you"; Direction := DirOutbound; Vouchers := vs; NextLane := nextLane;
  ChAmount := Some 0; AvailableAmount := Some avail; PendingAvailableAmount := Some 0; PendingAmount := Some 0; CreateMsg := None; AddFundsMsg := None; Settling := false |}.

Definition encodeDemo (ci : ChannelInfo) : bytes :=
  NextLane ci :: default 0 (AvailableAmount ci) ::
  concat ((fun v => [Lane (Voucher v); VNonce (Voucher v); Amount (Voucher v); if Submitted v then 1 else 0]) <$> Vouchers ci).

Fixpoint decodeVouchers (b : bytes) : list VoucherInfo :=
  match b with
  | l :: n :: a :: s :: b => {| Voucher := demoVoucher l n a; VProof := []; Submitted := s =? 1 |} :: decodeVouchers b
  | _ => []
  end.

Definition decodeDemo (b : bytes) : option ChannelInfo :=
  match b with
  | nextLane :: avail :: b => Some (demoChannel "id" nextLane avail (decodeVouchers b))
  | _ => None
  end.

Definition demoBuilder : MessageBuilder := {| mb_Create := fun _ _ => Err "create"; mb_Update := fun _ _ _ => Ret {|
  Version := 0; To := "ch"; From := "me"; Nonce := 0; Value := None; GasLimit := 0; GasFeeCap := None; GasPremium := None; Method := 2; Params := [] |};
  mb_Settle := fun _ => Err "settle"; mb_Collect := fun _ => Err "collect" |}.

Definition demoState : PaychState := {| ps_From := Ret "me"; ps_To := Ret "you"; SettlingAt := Ret 0; LaneCount := Ret 1; ForEachLaneState := Ret [(0, laneState 10 1)] |}.

#[local] Instance demoNode : PaychNode := {|
  node := unit; uuidNew := fun n => ("id", n); emptyAddr := "empty"; addrString := fun a => a; cidString := fun _ => "cid";
  dumpChannelInfo := fun ci => let b := encodeDemo ci in if decide (decodeDemo b = Some (normalised ci)) then Ret b else Err "not of the example";
  loadChannelInfo := fun b => match decodeDemo b with Some ci => Ret ci | None => Err "short" end; dumpMsgInfo := fun _ => Ret []; loadMsgInfo := fun _ => Err "none";
  cborEquals := fun a b => Ret (bool_decide (a = b)); VoucherSigningBytes := fun _ => Ret []; sigsVerify := fun sig a b => if sig then Ret tt else Err "no signature";
  VersionForNetwork := fun v => Ret v; lpaychMessage := fun _ _ => Ret demoBuilder; decodeExecReturn := fun _ => Err "none";
  ResolveToDeterministicAddress := fun a n => (Ret a, n); GetPaychState := fun _ n => (Ret (100, demoState), n); CallExitCode := fun _ n => (Ret 0, n);
  StateAccountKey := fun a n => (Ret a, n); StateWaitMsg := fun _ n => (WaitErr false "none", n); MpoolPushMessage := fun _ n => (Ret [], n);
  WalletHas := fun _ n => (Ret true, n); WalletSign := fun _ _ n => (Ret {| SType := SigTypeBLS; SData := [] |}, n); StateNetworkVersion := fun n => (Ret 21, n) |}.

Lemma entries_of {K} (l : list (K * bytes)) : Forall2 (fun e x => e = Ret x.2 \/ exists m : string, e = Err m) ((fun x => Ret x.2) <$> l) l.
Proof. induction l; constructor; auto. Qed.

#[local, program] Instance demoOk : PaychOk := {| inNamespace p k := bool_decide (head k = Some p) |}.
Next Obligation. done. Qed.
Next Obligation. done. Qed.
Next Obligation.
  intros p s. split; [done|]. right. eexists _, (map_to_list (filter (fun x => head x.1 = Some p) (s : gmap (list string) bytes))), [].
  split; [done|]. rewrite app_nil_r. split_and!; [|apply entries_of|done].
  apply reflexive_eq. f_equal. apply map_filter_ext. intros k b _. cbn. by rewrite bool_decide_eq_true.
Qed.
Next Obligation. intros ci b. cbn. destruct (decide _) as [E|]; [|done]. intros [= <-] _. cbn; congruence. Qed.
Next Obligation. by intros a b eq [= <-]. Qed.

Definition demoManager (ci : ChannelInfo) : Manager := {|
  pkv := {[ ["ChannelInfo"; "id"] := encodeDemo ci ]} : gmap (list string) bytes; pnode := tt; channels := ∅; now := 0; answers := []; waits := [] |}.

Lemma demo_entries_read : entries_read.
Proof. intros p s l e [= <-] He. apply list_elem_of_fmap in He as (x & -> & _). eauto. Qed.

Lemma demo_lookup ci (k : list string) b : view (demoManager ci) !! k = Some b <-> k = ["ChannelInfo"; "id"] /\ b = encodeDemo ci.
Proof.
  assert ((({[ ["ChannelInfo"; "id"] := encodeDemo ci ]} : gmap (list string) bytes) !! k = Some b) <-> k = ["ChannelInfo"; "id"] /\ b = encodeDemo ci) as Hl; [|exact Hl].
  rewrite lookup_singleton_Some. naive_solver.
Qed.

Lemma demo_store nextLane avail : store_ok (view (demoManager (demoChannel "id" nextLane avail []))) /\
  tracked (view (demoManager (demoChannel "id" nextLane avail []))) "ch" (demoChannel "id" nextLane avail []).
Proof.
  split; [split|].
  - intros k b ci [-> ->]%demo_lookup _ [= <-]. done.
  - intros ch c1 c2 (_ & _ & b1 & [_ ->]%demo_lookup & Hu1) (_ & _ & b2 & [_ ->]%demo_lookup & Hu2). congruence.
  - split; [done|]. split; [done|]. eexists. split; [by apply demo_lookup|]. done.
Qed.

(** The chain has 10 of lane 0 redeemed; of a balance of 100, 40 go to lane 0 and 30 to lane 1,
    and there is not enough for 60 more on lane 2. *)
Definition demoCalls : list chanOp :=
  [DoAdd (demoVoucher 0 2 40) 0; DoAllocate; DoCreate (demoVoucher 1 0 30); DoAdd (demoVoucher 0 2 45) 0; DoAdd (demoVoucher 2 1 60) 0; DoSubmit 0 []; DoAllocate].



(** A voucher that is submitted without having been added does not raise the next lane, so its
    lane is allocated again. *)
Lemma submitted_lane_reused :
  (AllocateLane "ch" (submitVoucher "ch" (demoVoucher 1 1 5) [] (demoManager (demoChannel "id" 1 0 []))).2).1 = POk 1.
Proof. by vm_compute. Qed.
