(* ===== verification/PaychFunds.v ===== *)
(** * Payment channels: the funds, paychmgr/simple.go

    Requests for funds are queued per accessor and merged: they are filled from what is available
    in the channel, and for the rest a message creates the channel or adds funds to it, and the
    requests after it wait until it is on the chain.  The context of a request ends at a time of
    its own, and time passes with every look at a context; a call of the accessor holds its lock.
    The goroutines that it begins, which wait for a message or process the queue, are tasks that
    run later. *)

From stdpp Require Import gmap.
From S2P Require Import Prelude TipSet ChainMsg Kv Paych.

Section funds.
Context `{KvQuery} `{PaychNode}.

Definition modify (f : Manager -> Manager) : PM unit := fun s => (POk tt, f s).

Definition tick (s : Manager) : Manager :=
  {| pkv := pkv s; pnode := pnode s; channels := channels s; now := now s + 1; answers := answers s; waits := waits s |}.

Definition addWait (w : Waiting) : PM unit := modify (fun s =>
  {| pkv := pkv s; pnode := pnode s; channels := channels s; now := now s; answers := answers s; waits := waits s ++ [w] |}).

Definition alive (r : fundsReq) (t : Z) : bool := match req_done r with Some d => t <? d | None => true end.

Definition isActive (r : fundsReq) : PM bool := fun s => (POk (alive r (now s)), tick s).

(** The result goes to the promise, unless the context ends. *)
Definition onComplete (r : fundsReq) (res : paychFundsRes) : PM unit := modify (fun s =>
  {| pkv := pkv s; pnode := pnode s; channels := channels s; now := now s; answers := answers s ++ [(r, res, alive r (now s))]; waits := waits s |}).

(** ** Merged requests *)

Definition fundsLess (a b : fundsReq) : bool :=
  if negb (Bool.eqb (OffChain a) (OffChain b)) then OffChain a
  else if negb (Bool.eqb (Reserve a) (Reserve b)) then Reserve a
  else req_amt a <? req_amt b.

(** [m_cancelled] is the state of its own context. *)
Record mergedFundsReq := {
  m_cancelled : bool;
  m_reqs : list fundsReq;
}.

(** Whether no request is active. *)
Fixpoint checkActive (reqs : list fundsReq) : PM bool :=
  match reqs with
  | [] => mret true
  | r :: reqs => act ← isActive r; if (act : bool) then mret false else checkActive reqs
  end.

Definition newMergedFundsReq (reqs : list fundsReq) : PM mergedFundsReq :=
  let rqs := sortSlice fundsLess reqs in
  cancelled ← checkActive rqs;
  mret {| m_cancelled := cancelled; m_reqs := rqs |}.

Fixpoint onCompleteAll (reqs : list fundsReq) (res : paychFundsRes) : PM unit :=
  match reqs with
  | [] => mret tt
  | r :: reqs =>
      act ← isActive r;
      _ ← (if (act : bool) then onComplete r res else mret tt);
      onCompleteAll reqs res
  end.

Fixpoint sumReqs (reqs : list fundsReq) (sum avail : Z) : PM (Z * Z) :=
  match reqs with
  | [] => mret (sum, avail)
  | r :: reqs =>
      act ← isActive r;
      if (act : bool) then sumReqs reqs (BigAdd sum (req_amt r)) (if negb (Reserve r) then BigAdd avail (req_amt r) else avail)
      else sumReqs reqs sum avail
  end.

Definition resChannel (ch : Address) : paychFundsRes := {| fr_channel := Some ch; fr_mcid := None; fr_err := None |}.
Definition resErr (e : string) : paychFundsRes := {| fr_channel := None; fr_mcid := None; fr_err := Some e |}.

(** The loop: the index of the request, that of the next one that stays, and the amounts. *)
Fixpoint completeLoop (avail : Z) (ci : ChannelInfo) (reqs : list fundsReq) (i next : nat) (used failed : Z) : PM (nat * Z * Z) :=
  match reqs with
  | [] => mret (next, used, failed)
  | r :: reqs =>
      if negb (Reserve r) then mret (next, used, failed)
      else
        act ← isActive r;
        if negb act then completeLoop avail ci reqs (S i) next used failed
        else if avail - used <? req_amt r then
          if OffChain r then
            act ← isActive r;
            failed ← (if (act : bool) then
                        ch ← pderef (Channel ci);
                        _ ← onComplete r {| fr_channel := Some ch; fr_mcid := None; fr_err := Some "not enough funds available in the payment channel" |};
                        mret (BigAdd failed (req_amt r))
                      else mret failed);
            completeLoop avail ci reqs (S i) (S i) used failed
          else mret (next, used, failed)
        else
          ch ← pderef (Channel ci);
          _ ← onComplete r (resChannel ch);
          completeLoop avail ci reqs (S i) (S i) (BigAdd used (req_amt r)) failed
  end.

Definition completeAmount (avail : Z) (ci : ChannelInfo) (m : mergedFundsReq) : PM (mergedFundsReq * option paychFundsRes * Z * Z) :=
  '(next, used, failed) ← completeLoop avail ci (m_reqs m) 0 0 0 0;
  let m := {| m_cancelled := m_cancelled m; m_reqs := drop next (m_reqs m) |} in
  match m_reqs m with
  | [] => ch ← pderef (Channel ci); mret (m, Some (resChannel ch), used, failed)
  | _ => mret (m, None, used, failed)
  end.

Fixpoint failLoop (reqs : list fundsReq) (i next : nat) (freed : Z) : PM (nat * Z) :=
  match reqs with
  | [] => mret (next, freed)
  | r :: reqs =>
      if negb (OffChain r) then mret (next, freed)
      else
        let freed := BigAdd freed (req_amt r) in
        act ← isActive r;
        if negb act then failLoop reqs (S i) next freed
        else _ ← onComplete r (resErr "payment channel doesn't exist"); failLoop reqs (S i) (S i) freed
  end.

Definition failOffChainNoChannel (m : mergedFundsReq) : PM (mergedFundsReq * option paychFundsRes * Z) :=
  '(next, freed) ← failLoop (m_reqs m) 0 0 0;
  let m := {| m_cancelled := m_cancelled m; m_reqs := drop next (m_reqs m) |} in
  mret (m, match m_reqs m with [] => Some (resErr "payment channel doesn't exist") | _ => None end, freed).

(** ** The channel in the store *)

(** Errors of the store are only logged; [d] is what the change leaves outside if it does not run. *)
Definition mutateChannelInfo {A} (channelID : string) (d : A) (mutate : ChannelInfo -> PM (ChannelInfo * A)) : PM A :=
  r ← attempt (ByChannelID channelID);
  match r with
  | inl _ => mret d
  | inr ci => '(ci, a) ← mutate ci; _ ← attempt (putChannelInfo ci); mret a
  end.

Definition createPaych (from to : Address) (amt avail : Z) : PM Cid :=
  mb ← messageBuilder from;
  msg ← plift (mb_Create mb to amt);
  mcid ← api (MpoolPushMessage msg);
  ci ← CreateChannel from to mcid amt avail;
  _ ← addWait (WaitCreate (ChannelID ci) mcid);
  mret mcid.

Definition completeAvailable (m : mergedFundsReq) (channelInfo : ChannelInfo) (amt av : Z) : PM (mergedFundsReq * option paychFundsRes * Z) :=
  let toReserve := amt - av in
  avail ← mutateChannelInfo (ChannelID channelInfo) 0 (fun ci =>
    available ← pderef (AvailableAmount ci);
    let avail := if toReserve <? available then toReserve else available in
    mret (set_AvailableAmount (Some (available - avail)) ci, avail));
  '(m, res, used, failed) ← completeAmount avail channelInfo m;
  _ ← mutateChannelInfo (ChannelID channelInfo) tt (fun ci =>
    available ← pderef (AvailableAmount ci);
    mret (set_AvailableAmount (Some (BigAdd available (avail - used))) ci, tt));
  mret (m, res, amt - BigAdd used failed).

Definition addFunds (channelInfo : ChannelInfo) (amt avail : Z) : PM Cid :=
  ch ← pderef (Channel channelInfo);
  mcid ← api (MpoolPushMessage {| Version := 0; To := ch; From := Control channelInfo; Nonce := 0; Value := Some amt; GasLimit := 0; GasFeeCap := None;
    GasPremium := None; Method := 0; Params := [] |});
  _ ← mutateChannelInfo (ChannelID channelInfo) tt (fun ci =>
    mret (set_AddFundsMsg (Some mcid) (set_PendingAvailableAmount (Some avail) (set_PendingAmount (Some amt) ci)), tt));
  _ ← attempt (SaveNewMessage (ChannelID channelInfo) mcid);
  _ ← addWait (WaitAddFunds (ChannelID channelInfo) mcid);
  mret mcid.

(** ** The queue *)

(** [channelInfo == nil] *)
Definition taskNoChannel (from to : Address) (m : mergedFundsReq) (amt avail : Z) : PM (mergedFundsReq * option paychFundsRes) :=
  '(m, res, freed) ← failOffChainNoChannel m;
  match res with
  | Some res => mret (m, Some res)
  | None =>
      r ← attempt (createPaych from to (amt - freed) avail);
      mret (m, Some (match r with inl e => resErr (errText e) | inr mcid => {| fr_channel := None; fr_mcid := Some mcid; fr_err := None |} end))
  end.

Definition taskChannel (ci : ChannelInfo) (m : mergedFundsReq) (amt avail : Z) : PM (mergedFundsReq * option paychFundsRes) :=
  if bool_decide (is_Some (CreateMsg ci)) then mret (m, None)
  else if bool_decide (is_Some (AddFundsMsg ci)) then mret (m, None)
  else
    '(m, res, amt) ← completeAvailable m ci amt avail;
    if bool_decide (is_Some res) || (amt <=? 0) then mret (m, res)
    else
      r ← attempt (addFunds ci amt avail);
      match r with
      | inl e => mret (m, Some (resErr (errText e)))
      | inr mcid => ch ← pderef (Channel ci); mret (m, Some {| fr_channel := Some ch; fr_mcid := Some mcid; fr_err := None |})
      end.

Definition processTask (from to : Address) (m : mergedFundsReq) (amt avail : Z) : PM (mergedFundsReq * option paychFundsRes) :=
  r ← attempt (OutboundActiveByFromTo from to);
  match r with
  | inl ErrChannelNotTracked => taskNoChannel from to m amt avail
  | inl err => mret (m, Some (resErr (errText err)))
  | inr ci => taskChannel ci m amt avail
  end.

Definition accessor (key : string) : PM channelAccessor := fun s =>
  match channels s !! key with Some ca => (POk ca, s) | None => (PPanic, s) end.

Definition setQueue (key : string) (q : list fundsReq) : PM unit := setChannels (alter (fun ca => {| ca_from := ca_from ca; ca_to := ca_to ca; fundsReqQueue := q |}) key).

Fixpoint filterActive (reqs : list fundsReq) : PM (list fundsReq) :=
  match reqs with
  | [] => mret []
  | r :: reqs => act ← isActive r; rs ← filterActive reqs; mret (if (act : bool) then r :: rs else rs)
  end.

Definition filterQueue (key : string) : PM unit := ca ← accessor key; q ← filterActive (fundsReqQueue ca); setQueue key q.

Record ChannelAvailableFunds := {
  af_Channel : option Address;
  af_From : Address;
  af_To : Address;
  ConfirmedAmt : BigInt;
  PendingAmt : BigInt;
  NonReservedAmt : BigInt;
  PendingAvailableAmt : BigInt;
  PendingWaitSentinel : option Cid;
  QueuedAmt : Z;
  VoucherReedeemedAmt : Z;
}.

Definition currentAvailableFunds (channelID : string) (queuedAmt : Z) : PM (option ChannelAvailableFunds) :=
  if bool_decide (channelID = EmptyString) then mret None
  else
    ci ← ByChannelID channelID;
    let waitSentinel := match CreateMsg ci with Some m => Some m | None => AddFundsMsg ci end in
    totalRedeemed ← (match Channel ci with
                     | None => mret 0
                     | Some ch => '(_, st) ← api (GetPaychState ch); lanes ← laneStates st ch; plift (sumRedeemed (map_to_list lanes) 0)
                     end);
    mret (Some {| af_Channel := Channel ci; af_From := ci_from ci; af_To := ci_to ci; ConfirmedAmt := ChAmount ci; PendingAmt := PendingAmount ci;
                  NonReservedAmt := AvailableAmount ci; PendingAvailableAmt := PendingAvailableAmount ci; PendingWaitSentinel := waitSentinel;
                  QueuedAmt := queuedAmt; VoucherReedeemedAmt := totalRedeemed |}).

Definition processQueue (key : string) (channelID : string) : PM (option ChannelAvailableFunds) :=
  _ ← filterQueue key;
  ca ← accessor key;
  match fundsReqQueue ca with
  | [] => currentAvailableFunds channelID 0
  | _ =>
      merged ← newMergedFundsReq (fundsReqQueue ca);
      '(amt, avail) ← sumReqs (m_reqs merged) 0 0;
      if amt =? 0 then currentAvailableFunds channelID amt
      else
        '(merged, res) ← processTask (ca_from ca) (ca_to ca) merged amt avail;
        match res with
        | None => currentAvailableFunds channelID amt
        | Some res =>
            _ ← setQueue key [];
            _ ← onCompleteAll (m_reqs merged) res;
            currentAvailableFunds channelID 0
        end
  end.

Definition enqueue (key : string) (task : fundsReq) : PM unit :=
  ca ← accessor key;
  _ ← setQueue key (fundsReqQueue ca ++ [task]);
  addWait (RunQueue key).

Definition GetPaych (from to : Address) (task : fundsReq) : PM unit :=
  if negb (Reserve task) && OffChain task then pfail (errorf "can't fund payment channels without on-chain operations")
  else key ← accessorByFromTo from to; enqueue key task.

(** ** Messages on the chain *)

(** The error, and whether it is the end of the context. *)
Definition waitPaychCreateMsg (channelID : string) (mcid : Cid) : PM (option (bool * string)) :=
  w ← askNode (StateWaitMsg mcid);
  match w with
  | WaitErr contextDone msg => mret (Some (contextDone, msg))
  | WaitReceipt exitCode ret =>
      if negb (exitCode =? 0) then
        _ ← attempt (RemoveChannel channelID); mret (Some (false, "payment channel creation failed"))
      else
        r ← attempt (plift (decodeExecReturn ret));
        match r with
        | inl e => mret (Some (false, errText e))
        | inr robust =>
            mutateChannelInfo channelID None (fun ci =>
              mret (set_CreateMsg None (set_PendingAvailableAmount (Some 0) (set_PendingAmount (Some 0) (set_AvailableAmount (PendingAvailableAmount ci)
                (set_ChAmount (PendingAmount ci) (set_Channel (Some robust) ci))))), None))
        end
  end.

Definition waitAddFundsMsg (channelID : string) (mcid : Cid) : PM (option (bool * string)) :=
  w ← askNode (StateWaitMsg mcid);
  match w with
  | WaitErr contextDone msg => mret (Some (contextDone, msg))
  | WaitReceipt exitCode _ =>
      if negb (exitCode =? 0) then
        _ ← mutateChannelInfo channelID tt (fun ci =>
          mret (set_AddFundsMsg None (set_PendingAvailableAmount (Some 0) (set_PendingAmount (Some 0) ci)), tt));
        mret (Some (false, "voucher channel creation failed: adding funds"))
      else
        mutateChannelInfo channelID None (fun ci =>
          amount ← pderef (ChAmount ci); pending ← pderef (PendingAmount ci);
          available ← pderef (AvailableAmount ci); pendingAvailable ← pderef (PendingAvailableAmount ci);
          mret (set_AddFundsMsg None (set_PendingAvailableAmount (Some 0) (set_PendingAmount (Some 0) (set_AvailableAmount (Some (BigAdd available pendingAvailable))
            (set_ChAmount (Some (BigAdd amount pending)) ci)))), None))
  end.

(** The message is done, and the queue that may have waited for it is looked at. *)
Definition msgWaitComplete (key : string) (mcid : Cid) (err : option (bool * string)) : PM unit :=
  match err with
  | Some (true, _) => mret tt
  | _ =>
      _ ← attempt (SaveMessageResult mcid (snd <$> err));
      ca ← accessor key;
      match fundsReqQueue ca with [] => mret tt | _ => addWait (RunQueue key) end
  end.

Definition waitForPaychCreateMsg (key channelID : string) (mcid : Cid) : PM unit :=
  err ← waitPaychCreateMsg channelID mcid;
  msgWaitComplete key mcid err.

Definition waitForAddFundsMsg (key channelID : string) (mcid : Cid) : PM unit :=
  err ← waitAddFundsMsg channelID mcid;
  msgWaitComplete key mcid err.

(** The waits that a restart begins again, and the first error. *)
Fixpoint restartLoop (cis : list ChannelInfo) (err : option perr) : PM (option perr) :=
  match cis with
  | [] => mret err
  | ci :: cis =>
      r ← attempt (match CreateMsg ci, AddFundsMsg ci with
                   | Some mcid, _ => _ ← accessorByFromTo (Control ci) (Target ci); addWait (WaitCreate (ChannelID ci) mcid)
                   | None, Some mcid => ch ← pderef (Channel ci); _ ← accessorByAddress ch; addWait (WaitAddFunds (ChannelID ci) mcid)
                   | None, None => mret tt
                   end);
      restartLoop cis (match err, r with None, inl e => Some e | _, _ => err end)
  end.

Definition restartPending : PM unit :=
  cis ← WithPendingAddFunds;
  err ← restartLoop cis None;
  match err with Some e => pfail e | None => mret tt end.

(** The address, or [None] while the message is not on the chain. *)
Definition getPaychWaitReady (mcid : Cid) : PM (option Address) :=
  msgInfo ← GetMessage mcid;
  if negb (bool_decide (mi_Err msgInfo = EmptyString)) then pfail (errorf (mi_Err msgInfo))
  else if Received msgInfo then
    ci ← ByMessageCid mcid;
    match Channel ci with None => ppanic | Some ch => mret (Some ch) end
  else mret None.

(** What [msgPromise] gives when the message completes. *)
Definition msgPromise (mcid : Cid) (err : option string) : PM Address :=
  match err with
  | Some e => pfail (errorf e)
  | None => ci ← ByMessageCid mcid; pderef (Channel ci)
  end.

Definition GetPaychWaitReady (mcid : Cid) : PM (option Address) :=
  r ← attempt (ByMessageCid mcid);
  match r with
  | inl ErrNotFound => pfail (errorf "Could not find wait msg cid")
  | inl err => pfail err
  | inr ci => _ ← accessorByFromTo (Control ci) (Target ci); getPaychWaitReady mcid
  end.

Definition availableFunds (key channelID : string) : PM (option ChannelAvailableFunds) := processQueue key channelID.

Definition AvailableFunds (ch : Address) : PM (option ChannelAvailableFunds) :=
  key ← accessorByAddress ch; ci ← ByAddress ch; availableFunds key (ChannelID ci).

Definition AvailableFundsByFromTo (from to : Address) : PM (option ChannelAvailableFunds) :=
  key ← accessorByFromTo from to;
  r ← attempt (OutboundActiveByFromTo from to);
  match r with
  | inl ErrChannelNotTracked =>
      mret (Some {| af_Channel := None; af_From := from; af_To := to; ConfirmedAmt := Some 0; PendingAmt := Some 0; NonReservedAmt := Some 0;
                    PendingAvailableAmt := Some 0; PendingWaitSentinel := None; QueuedAmt := 0; VoucherReedeemedAmt := 0 |})
  | inl err => pfail err
  | inr ci => availableFunds key (ChannelID ci)
  end.
End funds.
