(* ===== verification/PaychFundsProps.v ===== *)
(** * Payment channels: every request for funds is settled once, and the amounts agree *)

From stdpp Require Import gmap.
From Stdlib Require Import Sorting.Sorted.
From S2P Require Import Prelude TipSet ChainMsg Kv Paych PaychProps PaychFunds.

Section funds.
Context `{PaychOk}.

(** ** A store that works *)

Record store_works : Prop := {
  sw_Get k s : (kv_Get k s).1 = Ret (kv_view s !! k);
  sw_Put k x s : (kv_Put k x s).1 = Ret tt;
  sw_Query p s : exists l, (kv_Query p s).1 = Ret l;
  sw_read : entries_read;
  sw_dump ci : exists b, dumpChannelInfo ci = Ret b;
  sw_dumpMsg mi : exists b, dumpMsgInfo mi = Ret b;
  sw_uuid n : (uuidNew n).1 <> EmptyString;
}.

(** The node gives results and errors. *)
Record no_panics : Prop := {
  np_state ch n : (GetPaychState ch n).1 <> Panic;
  np_settling ch n bal st : (GetPaychState ch n).1 = Ret (bal, st) -> SettlingAt st <> Panic;
  np_network n : (StateNetworkVersion n).1 <> Panic;
  np_version nv : VersionForNetwork nv <> Panic;
  np_builder av from : lpaychMessage av from <> Panic;
  np_create av from mb to amt : lpaychMessage av from = Ret mb -> mb_Create mb to amt <> Panic;
  np_push msg n : (MpoolPushMessage msg n).1 <> Panic;
}.

(** A channel of the store. *)
Definition stored (v : gmap dsKey bytes) (ci : ChannelInfo) : Prop :=
  ChannelID ci <> EmptyString /\ exists b, v !! dskeyForChannel (ChannelID ci) = Some b /\ unmarshallChannelInfo b = Ret ci.

(** The channels of the store can be read, and have an address once they are created. *)
Definition live (v : gmap dsKey bytes) : Prop :=
  forall k b, v !! k = Some b -> inNamespace dsKeyChannelInfo k = true ->
    exists ci, unmarshallChannelInfo b = Ret ci /\ k = dskeyForChannel (ChannelID ci) /\ ChannelID ci <> EmptyString /\
      (CreateMsg ci = None -> is_Some (Channel ci)).

(** ** Steps of the manager *)

(** The requests that were answered in between; time may pass. *)
Record answered (s : Manager) (d : list (fundsReq * paychFundsRes * bool)) (s' : Manager) : Prop := {
  an_view : view s' = view s;
  an_channels : channels s' = channels s;
  an_waits : waits s' = waits s;
  an_answers : answers s' = answers s ++ d;
  an_now : now s <= now s';
}.

Lemma answered_refl s : answered s [] s.
Proof. split; rewrite ?app_nil_r; lia || done. Qed.

Lemma answered_trans s1 d1 s2 d2 s3 : answered s1 d1 s2 -> answered s2 d2 s3 -> answered s1 (d1 ++ d2) s3.
Proof. intros [] []. split; [congruence..| |lia]. by rewrite an_answers1, an_answers0, app_assoc. Qed.

Lemma answered_tick s : answered s [] (tick s).
Proof. split; cbn; rewrite ?app_nil_r; try done; lia. Qed.

(** The context of a request does not end from now on. *)
Definition steady (r : fundsReq) (t : Z) : Prop := forall t', t <= t' -> alive r t' = true.

Lemma steady_le r t t' : steady r t -> t <= t' -> steady r t'.
Proof. intros Hs Ht t'' Ht'. apply Hs. lia. Qed.

Lemma steady_all_le l t t' : Forall (fun r => steady r t) l -> t <= t' -> Forall (fun r => steady r t') l.
Proof. intros Hl Ht. eapply Forall_impl; [exact Hl|]. intros r Hr. apply (steady_le r t t' Hr Ht). Qed.

Lemma isActive_steady r s : steady r (now s) -> isActive r s = (POk true, tick s).
Proof. intros Hr. unfold isActive. by rewrite (Hr (now s)) by lia. Qed.

Definition answer (res : paychFundsRes) (r : fundsReq) : fundsReq * paychFundsRes * bool := (r, res, true).

Lemma onComplete_steady r res s : steady r (now s) -> exists s', onComplete r res s = (POk tt, s') /\ answered s [answer res r] s' /\ now s' = now s.
Proof. intros Hr. eexists. split; [done|]. unfold answer. rewrite <- (Hr (now s)) by lia. split; [split; cbn; done || lia|done]. Qed.

(** ** Merged requests *)

Lemma checkActive_steady reqs s : reqs <> [] -> Forall (fun r => steady r (now s)) reqs -> exists s', checkActive reqs s = (POk false, s') /\ answered s [] s'.
Proof.
  destruct reqs as [|r reqs]; [done|]. intros _ [Hr _]%Forall_cons. cbn. unfold mbind, PM_bind. rewrite isActive_steady by done.
  eexists. split; [done|]. apply answered_tick.
Qed.

Definition nonReserved (reqs : list fundsReq) : Z := sumZ (fun r => if Reserve r then 0 else req_amt r) reqs.

Lemma sumReqs_steady reqs sum avail s : Forall (fun r => steady r (now s)) reqs ->
  exists s', sumReqs reqs sum avail s = (POk (sum + sumZ req_amt reqs, avail + nonReserved reqs), s') /\ answered s [] s'.
Proof.
  unfold nonReserved. revert sum avail s. induction reqs as [|r reqs IH]; intros sum avail s Hr; cbn [sumReqs].
  { eexists. cbn. rewrite !Z.add_0_r. split; [done|apply answered_refl]. }
  apply Forall_cons in Hr as [Hr Hreqs]. unfold mbind, PM_bind. rewrite isActive_steady by done.
  destruct (IH (BigAdd sum (req_amt r)) (if negb (Reserve r) then BigAdd avail (req_amt r) else avail) (tick s)) as (s' & -> & Ha).
  { eapply steady_all_le; [done|cbn; lia]. }
  exists s'. split; [|by apply (answered_trans _ [] _ _ _ (answered_tick s))]. rewrite !sumZ_cons. unfold BigAdd. destruct (Reserve r); cbn [negb]; do 3 f_equal; lia.
Qed.

Lemma onCompleteAll_steady reqs res s : Forall (fun r => steady r (now s)) reqs ->
  exists s', onCompleteAll reqs res s = (POk tt, s') /\ answered s (answer res <$> reqs) s'.
Proof.
  revert s. induction reqs as [|r reqs IH]; intros s Hr; cbn [onCompleteAll]; [eexists; split; [done|apply answered_refl]|].
  apply Forall_cons in Hr as [Hr Hreqs]. unfold mbind, PM_bind. rewrite isActive_steady by done.
  destruct (onComplete_steady r res (tick s)) as (s1 & -> & Ha & Hn); [eapply steady_le; [done|cbn; lia]|].
  destruct (IH s1) as (s2 & -> & Hb). { eapply steady_all_le; [done|rewrite Hn; cbn; lia]. }
  exists s2. split; [done|]. apply (answered_trans _ [] _ _ _ (answered_tick s)). by apply (answered_trans _ _ _ _ _ Ha).
Qed.

Lemma filterActive_steady (reqs : list fundsReq) s : (forall r, r ∈ reqs -> steady r (now s) \/ forall t, now s <= t -> alive r t = false) ->
  exists s', filterActive reqs s = (POk (filter (fun r => alive r (now s) = true) reqs), s') /\ answered s [] s'.
Proof.
  assert (forall t, t <= now s -> (forall r, r ∈ reqs -> steady r t \/ forall t', t <= t' -> alive r t' = false) ->
    exists s', filterActive reqs s = (POk (filter (fun r => alive r t = true) reqs), s') /\ answered s [] s') as Hall; [|intros Hr; by apply Hall].
  revert s. induction reqs as [|r reqs IH]; intros s t Ht Hr; cbn [filterActive]; [eexists; split; [done|apply answered_refl]|].
  unfold mbind, PM_bind, isActive. destruct (IH (tick s) t) as (s' & -> & Ha); [cbn; lia|intros r' Hr'; apply Hr; by right|].
  exists s'. split; [|by apply (answered_trans _ [] _ _ _ (answered_tick s))]. rewrite filter_cons.
  destruct (Hr r) as [Hs|Hd]; [left|..].
  - rewrite !Hs by lia. by rewrite decide_True by done.
  - rewrite !Hd by lia. by rewrite decide_False by done.
Qed.

#[export] Instance paychFundsRes_eq_dec : EqDecision paychFundsRes.
Proof. solve_decision. Defined.

Notation Answers := (list (fundsReq * paychFundsRes * bool)).

(** The amounts that were granted from the available funds of a channel. *)
Definition granted (ch : Address) (d : Answers) : Z := sumZ (fun x => if decide (x.1.2 = resChannel ch) then req_amt x.1.1 else 0) d.

Definition noFunds (ch : Address) : paychFundsRes :=
  {| fr_channel := Some ch; fr_mcid := None; fr_err := Some "not enough funds available in the payment channel" |}.

(** A request that is settled without a message: filled, or refused if it must not go to the chain. *)
Definition settled (ch : Address) (x : fundsReq * paychFundsRes * bool) : Prop :=
  x.2 = true /\ Reserve x.1.1 = true /\ (x.1.2 = resChannel ch \/ (OffChain x.1.1 = true /\ x.1.2 = noFunds ch)).

Lemma granted_cons ch r res b d : granted ch ((r, res, b) :: d) = (if decide (res = resChannel ch) then req_amt r else 0) + granted ch d.
Proof. done. Qed.

(** The requests of [d] are settled, and the first of [rest] cannot be. *)
Record filled (avail : Z) (ch : Address) (used : Z) (reqs : list fundsReq) (s : Manager) (d : Answers) (rest : list fundsReq) (s' : Manager) : Prop := {
  fl_split : reqs = d.*1.*1 ++ rest;
  fl_answered : answered s d s';
  fl_settled : Forall (settled ch) d;
  fl_avail : used <= avail -> used + granted ch d <= avail;
  fl_rest r rest' : rest = r :: rest' -> Reserve r = false \/ (OffChain r = false /\ avail - (used + granted ch d) < req_amt r);
}.

Lemma filled_stop avail ch used reqs s s' : answered s [] s' -> (forall r rest', reqs = r :: rest' -> Reserve r = false \/ (OffChain r = false /\ avail - used < req_amt r)) ->
  filled avail ch used reqs s [] reqs s'.
Proof. intros Ha Hr. split; [done..|cbn; lia|]. cbn. intros r rest' E. destruct (Hr r rest' E) as [?|[? ?]]; [by left|right; split; [done|lia]]. Qed.

Lemma filled_cons avail ch used reqs s s1 r res d rest s' : answered s [answer res r] s1 -> settled ch (answer res r) ->
  (res = resChannel ch -> req_amt r <= avail - used) ->
  filled avail ch (used + (if decide (res = resChannel ch) then req_amt r else 0)) reqs s1 d rest s' -> filled avail ch used (r :: reqs) s (answer res r :: d) rest s'.
Proof.
  intros Ha Hset Hfit [F1 F2 F3 F4 F5]. unfold answer in *. split.
  - cbn. by f_equal.
  - by apply (answered_trans _ _ _ _ _ Ha).
  - by constructor.
  - rewrite granted_cons. case_decide as E; [specialize (Hfit E)|]; lia.
  - intros r' rest' Er. rewrite granted_cons. destruct (F5 r' rest' Er) as [?|[? ?]]; [by left|right; split; [done|]]. case_decide; lia.
Qed.

Lemma completeLoop_steady avail ci ch reqs i used failed s : Channel ci = Some ch -> Forall (fun r => steady r (now s)) reqs ->
  exists d rest s', filled avail ch used reqs s d rest s' /\
    completeLoop avail ci reqs i i used failed s = (POk ((i + length d)%nat, used + granted ch d, failed + (sumZ (fun x => req_amt x.1.1) d - granted ch d)), s').
Proof.
  intros Hc. revert i used failed s. induction reqs as [|r reqs IH]; intros i used failed s Hr; cbn [completeLoop].
  { exists [], [], s. split; [by apply filled_stop; [apply answered_refl|]|]. cbn. by rewrite Nat.add_0_r, !Z.add_0_r. }
  apply Forall_cons in Hr as [Hr Hreqs]. destruct (Reserve r) eqn:Er; cbn [negb].
  2: { exists [], (r :: reqs), s. split; [apply filled_stop; [apply answered_refl|]; intros ? ? [= <- <-]; by left|]. cbn. by rewrite Nat.add_0_r, !Z.add_0_r. }
  unfold mbind, PM_bind. rewrite isActive_steady by done. cbn [negb]. assert (steady r (now (tick s))) as Hr1 by (eapply steady_le; [done|cbn; lia]).
  destruct (avail - used <? req_amt r) eqn:Efit.
  - destruct (OffChain r) eqn:Eoff.
    + rewrite isActive_steady by done. cbn [pderef]. rewrite Hc. cbn [pderef]. unfold mret, PM_ret.
      destruct (onComplete_steady r (noFunds ch) (tick (tick s))) as (s1 & Eo & Ha & Hn); [eapply steady_le; [done|cbn; lia]|]. unfold noFunds in Eo. rewrite Eo.
      destruct (IH (S i) used (BigAdd failed (req_amt r)) s1) as (d & rest & s' & Hf & ->); [eapply steady_all_le; [done|rewrite Hn; cbn; lia]|].
      exists (answer (noFunds ch) r :: d), rest, s'. split.
      * apply (filled_cons _ _ _ _ _ s1); [..|by rewrite decide_False, Z.add_0_r by done].
        -- apply (answered_trans _ [] _ _ _ (answered_tick s)), (answered_trans _ [] _ _ _ (answered_tick (tick s))), Ha.
        -- split; [done|]. split; [done|]. by right.
        -- done.
      * unfold answer. rewrite granted_cons, decide_False by done. rewrite sumZ_cons. cbn [length fst snd]. unfold BigAdd. do 3 f_equal; [f_equal|]; lia.
    + exists [], (r :: reqs), (tick s). split; [apply filled_stop; [apply answered_tick|]; intros ? ? [= <- <-]; right; split; [done|lia]|]. cbn. by rewrite Nat.add_0_r, !Z.add_0_r.
  - rewrite Hc. cbn [pderef]. unfold mret, PM_ret. destruct (onComplete_steady r (resChannel ch) (tick s) Hr1) as (s1 & -> & Ha & Hn).
    destruct (IH (S i) (BigAdd used (req_amt r)) failed s1) as (d & rest & s' & Hf & ->); [eapply steady_all_le; [done|rewrite Hn; cbn; lia]|].
    exists (answer (resChannel ch) r :: d), rest, s'. split.
    + apply (filled_cons _ _ _ _ _ s1); [..|by rewrite decide_True by done].
      * apply (answered_trans _ [] _ _ _ (answered_tick s)), Ha.
      * split; [done|]. split; [done|]. by left.
      * lia.
    + unfold answer. rewrite granted_cons, decide_True by done. rewrite sumZ_cons. cbn [length fst snd]. unfold BigAdd. do 3 f_equal; [f_equal|]; lia.
Qed.

Definition refused : paychFundsRes := resErr "payment channel doesn't exist".

Lemma failLoop_steady reqs i freed s : Forall (fun r => steady r (now s)) reqs ->
  exists d rest s', reqs = d ++ rest /\ Forall (fun r => OffChain r = true) d /\ (forall r rest', rest = r :: rest' -> OffChain r = false) /\
    answered s (answer refused <$> d) s' /\ failLoop reqs i i freed s = (POk ((i + length d)%nat, freed + sumZ req_amt d), s').
Proof.
  revert i freed s. induction reqs as [|r reqs IH]; intros i freed s Hr; cbn [failLoop].
  { exists [], [], s. split_and!; [done..|apply answered_refl|]. cbn. by rewrite Nat.add_0_r, Z.add_0_r. }
  apply Forall_cons in Hr as [Hr Hreqs]. destruct (OffChain r) eqn:Eo; cbn [negb].
  - unfold mbind, PM_bind. rewrite isActive_steady by done. cbn [negb].
    destruct (onComplete_steady r refused (tick s)) as (s1 & E & Ha & Hn); [eapply steady_le; [done|cbn; lia]|]. unfold refused in E. rewrite E.
    destruct (IH (S i) (BigAdd freed (req_amt r)) s1) as (d & rest & s' & -> & Hd & Hrest & Hb & ->); [eapply steady_all_le; [done|rewrite Hn; cbn; lia]|].
    exists (r :: d), rest, s'. split_and!; [done|by constructor|done| |rewrite sumZ_cons; cbn [length]; unfold BigAdd; do 2 f_equal; f_equal; lia].
    apply (answered_trans _ [] _ _ _ (answered_tick s)). by apply (answered_trans _ _ _ _ _ Ha).
  - exists [], (r :: reqs), s. split_and!; [done..|by intros ? ? [= <- <-]|apply answered_refl|]. cbn. by rewrite Nat.add_0_r, Z.add_0_r.
Qed.

Lemma fundsLess_asym x y : fundsLess x y = true -> fundsLess y x = false.
Proof. unfold fundsLess. destruct (OffChain x), (OffChain y), (Reserve x), (Reserve y); cbn; try done; lia. Qed.

Lemma fundsLess_trans x y z : fundsLess y x = false -> fundsLess z y = false -> fundsLess z x = false.
Proof. unfold fundsLess. destruct (OffChain x), (OffChain y), (OffChain z), (Reserve x), (Reserve y), (Reserve z); cbn; try done; lia. Qed.

(** Requests that must not go to the chain are first. *)
Lemma sorted_tail q d r rest : sortSlice fundsLess q = d ++ r :: rest -> OffChain r = false -> Forall (fun r => OffChain r = false) (r :: rest).
Proof.
  intros E Hr. pose proof (sortSlice_sorted fundsLess fundsLess_asym fundsLess_trans q) as Hs. rewrite E in Hs. clear E. induction d as [|x d IH]; cbn in Hs.
  - apply StronglySorted_inv in Hs as [_ Hs]. constructor; [done|]. eapply Forall_impl; [exact Hs|]. cbn. intros y Hy. unfold fundsLess in Hy. rewrite Hr in Hy. by destruct (OffChain y).
  - apply StronglySorted_inv in Hs as [Hs _]. by apply IH.
Qed.

(** ** The store *)

(** A write, and what else there is. *)
Record wrote (s : Manager) (k : dsKey) (b : bytes) (s' : Manager) : Prop := {
  wr_view : view s' = <[k := b]> (view s);
  wr_channels : channels s' = channels s;
  wr_waits : waits s' = waits s;
  wr_answers : answers s' = answers s;
  wr_now : now s <= now s';
}.

Context (Hkv : store_works).

Lemma ds_Get k s : exists s', ds (kv_Get k) s = (POk (view s !! k), s') /\ answered s [] s'.
Proof.
  unfold ds, view. destruct (kv_Get_ok k (pkv s)) as [Hv _]. pose proof (sw_Get Hkv k (pkv s)) as Hr. destruct (kv_Get k (pkv s)) as [r k']; cbn in *. subst r.
  eexists. split; [done|]. split; cbn; rewrite ?app_nil_r; done || lia.
Qed.

Lemma ds_Put k b s : exists s', ds (kv_Put k b) s = (POk tt, s') /\ wrote s k b s'.
Proof.
  unfold ds, view. pose proof (sw_Put Hkv k b (pkv s)) as Hr. destruct (kv_Put_ok k b (pkv s)) as [[_ Hv]|[[e He] _]]; [|congruence].
  destruct (kv_Put k b (pkv s)) as [r k']; cbn in *. subst r. eexists. split; [done|]. by split; cbn; try done; lia.
Qed.

Lemma ByChannelID_stored ci s : stored (view s) ci -> exists s', ByChannelID (ChannelID ci) s = (POk ci, s') /\ answered s [] s'.
Proof.
  intros (_ & b & Hb & Hu). unfold ByChannelID, mbind, PM_bind. destruct (ds_Get (dskeyForChannel (ChannelID ci)) s) as (s' & -> & Ha). rewrite Hb.
  exists s'. unfold plift. by rewrite Hu.
Qed.

Lemma unmarshall_avail b ci : unmarshallChannelInfo b = Ret ci -> is_Some (AvailableAmount ci).
Proof.
  unfold unmarshallChannelInfo. destruct (loadChannelInfo b) as [c|e|]; cbn [mbind outcome_bind]; [|done..]. cbv zeta.
  generalize (if bool_decide (Channel c = Some emptyAddr) then set_Channel None c else c). intros c' [= <-].
  destruct (AvailableAmount c') eqn:E; [rewrite E|cbn]; eauto.
Qed.

Lemma unmarshall_channel b ci ch : unmarshallChannelInfo b = Ret ci -> Channel ci = Some ch -> ch <> emptyAddr.
Proof.
  unfold unmarshallChannelInfo. destruct (loadChannelInfo b) as [c|e|]; cbn; [|done..]. intros [= <-]. case_bool_decide as Hb; destruct (AvailableAmount _); cbn; congruence.
Qed.

Lemma put_stored ci ch s : ChannelID ci <> EmptyString -> Channel ci = Some ch -> ch <> emptyAddr ->
  exists s' b, putChannelInfo ci s = (POk ci, s') /\ wrote s (dskeyForChannel (ChannelID ci)) b s' /\ unmarshallChannelInfo b = Ret (normalised ci).
Proof.
  intros Hid Hc Hne. unfold putChannelInfo. rewrite bool_decide_eq_false_2 by done. unfold marshallChannelInfo, mbind, PM_bind, mret, PM_ret. rewrite Hc.
  destruct (sw_dump Hkv ci) as [b Hb]. rewrite Hb. cbn [plift]. destruct (ds_Put (dskeyForChannel (ChannelID ci)) b s) as (s' & -> & Hw).
  exists s', b. split; [done|]. split; [done|]. by eapply written_channel.
Qed.

(** A change of a channel that has an address after it. *)
Lemma mutate_addressed {A} ci ci' ch (a d : A) f s : stored (view s) ci -> ChannelID ci' = ChannelID ci -> Channel ci' = Some ch -> ch <> emptyAddr -> f ci = mret (ci', a) ->
  exists s' b, mutateChannelInfo (ChannelID ci) d f s = (POk a, s') /\ wrote s (dskeyForChannel (ChannelID ci)) b s' /\ unmarshallChannelInfo b = Ret (normalised ci').
Proof.
  intros Hst Hid Hc' Hch Hf. pose proof Hst as (Hne & _). unfold mutateChannelInfo, attempt, mbind, PM_bind.
  destruct (ByChannelID_stored ci s Hst) as (s1 & -> & Ha). rewrite Hf. unfold mret, PM_ret.
  destruct (put_stored ci' ch s1) as (s2 & b & -> & [Hv Hchs Hw Han Hn] & Hu); [by rewrite Hid|done..|].
  exists s2, b. split; [done|]. split; [|done]. destruct Ha as [Av Ac Aw Aa An]. rewrite app_nil_r in Aa. rewrite Hid in Hv. split; [congruence..|lia].
Qed.

(** A change of the amounts or messages of a channel. *)
Lemma mutate_stored {A} ci ci' ch (a d : A) f s : stored (view s) ci -> Channel ci = Some ch -> ChannelID ci' = ChannelID ci -> Channel ci' = Channel ci -> f ci = mret (ci', a) ->
  exists s' b, mutateChannelInfo (ChannelID ci) d f s = (POk a, s') /\ wrote s (dskeyForChannel (ChannelID ci)) b s' /\ unmarshallChannelInfo b = Ret (normalised ci').
Proof.
  intros Hst Hc Hid Hc' Hf. pose proof Hst as (_ & b0 & _ & Hu0). apply (mutate_addressed ci ci' ch); [done..|by rewrite Hc'|by eapply unmarshall_channel|done].
Qed.

Lemma wrote_stored s ci b s' ci' : wrote s (dskeyForChannel (ChannelID ci)) b s' -> unmarshallChannelInfo b = Ret ci' -> ChannelID ci' = ChannelID ci -> ChannelID ci <> EmptyString ->
  stored (view s') ci'.
Proof. intros Hw Hu Hid Hne. split; [by rewrite Hid|]. exists b. split; [|done]. rewrite (wr_view _ _ _ _ Hw), Hid. apply lookup_insert_eq. Qed.

(** What a call on one channel changes. *)
Record changed (s : Manager) (id : string) (d : Answers) (w : list Waiting) (s' : Manager) : Prop := {
  cg_others k : inNamespace dsKeyChannelInfo k = true -> k <> dskeyForChannel id -> view s' !! k = view s !! k;
  cg_channels : channels s' = channels s;
  cg_waits : waits s' = waits s ++ w;
  cg_answers : answers s' = answers s ++ d;
  cg_now : now s <= now s';
}.

Lemma changed_answered s id d s' : answered s d s' -> changed s id d [] s'.
Proof. intros []. split; rewrite ?app_nil_r; try done. intros k _ _. by rewrite an_view0. Qed.

Lemma changed_wrote s id b s' : wrote s (dskeyForChannel id) b s' -> changed s id [] [] s'.
Proof. intros []. split; rewrite ?app_nil_r; try done. intros k _ Hk. by rewrite wr_view0, lookup_insert_ne. Qed.

Lemma changed_wrote_msg s id mcid b s' : wrote s (dskeyForMsg mcid) b s' -> changed s id [] [] s'.
Proof.
  intros []. split; rewrite ?app_nil_r; try done. intros k Hk _. rewrite wr_view0, lookup_insert_ne; [done|]. intros <-. by rewrite namespace_msg in Hk.
Qed.

Lemma changed_trans s1 id d1 w1 s2 d2 w2 s3 : changed s1 id d1 w1 s2 -> changed s2 id d2 w2 s3 -> changed s1 id (d1 ++ d2) (w1 ++ w2) s3.
Proof.
  intros [A1 A2 A3 A4 A5] [B1 B2 B3 B4 B5]. split; [|congruence|by rewrite B3, A3, app_assoc|by rewrite B4, A4, app_assoc|lia].
  intros k Hk Hne. by rewrite B1, A1.
Qed.

Lemma bind_ok {A B} (m : PM A) (f : A -> PM B) s a s1 : m s = (POk a, s1) -> (m ≫= f) s = f a s1.
Proof. intros E. unfold mbind, PM_bind. by rewrite E. Qed.

Lemma bind_err {A B} (m : PM A) (f : A -> PM B) s e s1 : m s = (PErr e, s1) -> (m ≫= f) s = (PErr e, s1).
Proof. intros E. unfold mbind, PM_bind. by rewrite E. Qed.

Lemma attempt_ok {A} (m : PM A) s a s1 : m s = (POk a, s1) -> attempt m s = (POk (inr a), s1).
Proof. intros E. unfold attempt. by rewrite E. Qed.

Lemma attempt_err {A} (m : PM A) s e s1 : m s = (PErr e, s1) -> attempt m s = (POk (inl e), s1).
Proof. intros E. unfold attempt. by rewrite E. Qed.

Lemma completeAmount_steady avail ci ch m s : Channel ci = Some ch -> Forall (fun r => steady r (now s)) (m_reqs m) ->
  exists d rest s', filled avail ch 0 (m_reqs m) s d rest s' /\
    completeAmount avail ci m s = (POk ({| m_cancelled := m_cancelled m; m_reqs := rest |}, match rest with [] => Some (resChannel ch) | _ => None end,
      granted ch d, sumZ (fun x => req_amt x.1.1) d - granted ch d), s').
Proof.
  intros Hc Hr. unfold completeAmount, mbind, PM_bind. destruct (completeLoop_steady avail ci ch (m_reqs m) 0 0 0 s Hc Hr) as (d & rest & s' & Hf & ->).
  exists d, rest, s'. split; [done|]. assert (drop (0 + length d) (m_reqs m) = rest) as Ed.
  { rewrite (fl_split _ _ _ _ _ _ _ _ Hf). rewrite drop_app_length'; [done|]. by rewrite !length_fmap. }
  cbn [m_reqs]. rewrite Ed, Hc. destruct rest; cbn; by rewrite ?Z.add_0_l.
Qed.

Lemma completeAvailable_spec m ci ch a amt av s : stored (view s) ci -> Channel ci = Some ch -> AvailableAmount ci = Some a -> 0 <= a -> 0 <= amt - av ->
  Forall (fun r => steady r (now s)) (m_reqs m) ->
  exists d rest s', m_reqs m = d.*1.*1 ++ rest /\ Forall (settled ch) d /\ granted ch d <= a /\
    (forall r rest', rest = r :: rest' -> Reserve r = false \/ OffChain r = false) /\
    changed s (ChannelID ci) d [] s' /\ stored (view s') (set_AvailableAmount (Some (a - granted ch d)) (normalised ci)) /\
    completeAvailable m ci amt av s =
      (POk ({| m_cancelled := m_cancelled m; m_reqs := rest |}, match rest with [] => Some (resChannel ch) | _ => None end, amt - sumZ (fun x => req_amt x.1.1) d), s').
Proof.
  intros Hst Hc Ea Ha Hav Hr. pose proof (proj1 Hst) as Hid. unfold completeAvailable. cbv zeta. set (avail := if amt - av <? a then amt - av else a).
  assert (0 <= avail <= a) as Hrange by (unfold avail; destruct (amt - av <? a) eqn:E; lia).
  destruct (mutate_stored ci (set_AvailableAmount (Some (a - avail)) ci) ch avail 0 (fun ci0 =>
    available ← pderef (AvailableAmount ci0);
    mret (set_AvailableAmount (Some (available - (if amt - av <? available then amt - av else available))) ci0,
          if amt - av <? available then amt - av else available)) s Hst Hc) as (s1 & b1 & E1 & Hw1 & Hu1); [done|done|by rewrite Ea|].
  rewrite (bind_ok _ _ _ _ _ E1).
  pose proof (wrote_stored _ _ _ _ _ Hw1 Hu1 eq_refl Hid) as Hst1. pose proof (wr_now _ _ _ _ Hw1).
  destruct (completeAmount_steady avail ci ch m s1 Hc) as (d & rest & s2 & Hf & Ecomp); [by eapply steady_all_le|].
  rewrite (bind_ok _ _ _ _ _ Ecomp). pose proof (fl_answered _ _ _ _ _ _ _ _ Hf) as Han.
  assert (stored (view s2) (normalised (set_AvailableAmount (Some (a - avail)) ci))) as Hst2 by by rewrite (an_view _ _ _ Han).
  destruct (mutate_stored (normalised (set_AvailableAmount (Some (a - avail)) ci)) (set_AvailableAmount (Some (a - granted ch d)) (normalised ci)) ch tt tt (fun ci0 =>
    available ← pderef (AvailableAmount ci0);
    mret (set_AvailableAmount (Some (BigAdd available (avail - granted ch d))) ci0, tt)) s2 Hst2 Hc) as (s3 & b3 & E3 & Hw3 & Hu3); [done|done| |].
  { transitivity (mret (M := PM) (set_AvailableAmount (Some (BigAdd (a - avail) (avail - granted ch d))) (normalised ci), tt)); [done|].
    by replace (BigAdd (a - avail) (avail - granted ch d)) with (a - granted ch d) by (unfold BigAdd; lia). }
  cbn [ChannelID normalised] in E3. cbv beta iota. rewrite (bind_ok _ _ _ _ _ E3). exists d, rest, s3. split_and!.
  - apply Hf.
  - apply Hf.
  - pose proof (fl_avail _ _ _ _ _ _ _ _ Hf). lia.
  - intros r rest' Er. destruct (fl_rest _ _ _ _ _ _ _ _ Hf r rest' Er) as [?|[? _]]; [by left|by right].
  - apply (changed_trans _ _ [] [] _ _ [] _ (changed_wrote _ _ _ _ Hw1)). rewrite <- (app_nil_r d). apply (changed_trans _ _ _ [] s2 _ []).
    + by apply changed_answered.
    + by eapply changed_wrote.
  - apply (wrote_stored _ _ _ _ _ Hw3 Hu3 eq_refl Hid).
  - by replace (amt - sumZ (fun x => req_amt x.1.1) d) with (amt - BigAdd (granted ch d) (sumZ (fun x => req_amt x.1.1) d - granted ch d)) by (unfold BigAdd; lia).
Qed.

(** ** Messages *)

Context (Hnp : no_panics).

Lemma api_cases {A} (f : node -> outcome A * node) s : (f (pnode s)).1 <> Panic ->
  exists s', answered s [] s' /\
    ((exists a n, f (pnode s) = (Ret a, n) /\ api f s = (POk a, s')) \/ (exists e n, f (pnode s) = (Err e, n) /\ api f s = (PErr (errorf e), s'))).
Proof.
  intros Hp. unfold api, askNode, mbind, PM_bind, plift. destruct (f (pnode s)) as [[a|e|] n] eqn:E; cbn in Hp; [| |done].
  all: eexists; split; [|first [left; by eauto|right; by eauto]]; split; cbn; rewrite ?app_nil_r; done || lia.
Qed.

(** The message that adds funds. *)
Definition fundsMessage (ch from : Address) (amt : Z) : Message :=
  {| Version := 0; To := ch; From := from; Nonce := 0; Value := Some amt; GasLimit := 0; GasFeeCap := None; GasPremium := None; Method := 0; Params := [] |}.

(** A channel that waits for funds. *)
Definition withPending (mcid : Cid) (amt avail : Z) (ci : ChannelInfo) : ChannelInfo :=
  set_AddFundsMsg (Some mcid) (set_PendingAvailableAmount (Some avail) (set_PendingAmount (Some amt) ci)).

Lemma SaveNewMessage_ok id id' mcid s : exists s', SaveNewMessage id mcid s = (POk tt, s') /\ changed s id' [] [] s' /\
  (forall ci, stored (view s) ci -> stored (view s') ci).
Proof.
  unfold SaveNewMessage. destruct (sw_dumpMsg Hkv {| mi_ChannelID := id; MsgCid := mcid; Received := false; mi_Err := EmptyString |}) as [b Hb].
  unfold mbind, PM_bind. rewrite Hb. cbn [plift]. destruct (ds_Put (dskeyForMsg mcid) b s) as (s' & -> & Hw). exists s'. split; [done|].
  split; [by eapply changed_wrote_msg|]. intros ci (Hne & b' & Hb' & Hu). split; [done|]. exists b'. split; [|done].
  rewrite (wr_view _ _ _ _ Hw), lookup_insert_ne; [done|]. intros E. pose proof (namespace_msg mcid) as Hm. rewrite E, namespace_channel in Hm. done.
Qed.

Lemma addWait_ok w s : exists s', addWait w s = (POk tt, s') /\ (forall id, changed s id [] [w] s') /\ view s' = view s.
Proof. eexists. split; [done|]. split; [|done]. intros id. split; cbn; rewrite ?app_nil_r; done || lia. Qed.

Lemma addFunds_spec ci ci1 ch amt avail s : stored (view s) ci1 -> ChannelID ci1 = ChannelID ci -> Channel ci1 = Some ch -> Channel ci = Some ch ->
  exists s', 
    (exists e n, MpoolPushMessage (fundsMessage ch (Control ci) amt) (pnode s) = (Err e, n) /\ addFunds ci amt avail s = (PErr (errorf e), s') /\ answered s [] s') \/
    (exists mcid n, MpoolPushMessage (fundsMessage ch (Control ci) amt) (pnode s) = (Ret mcid, n) /\ addFunds ci amt avail s = (POk mcid, s') /\
       changed s (ChannelID ci) [] [WaitAddFunds (ChannelID ci) mcid] s' /\ stored (view s') (normalised (withPending mcid amt avail ci1))).
Proof.
  intros Hst Hid Hc1 Hc. unfold addFunds. rewrite Hc. cbn [pderef]. fold (fundsMessage ch (Control ci) amt).
  destruct (api_cases (MpoolPushMessage (fundsMessage ch (Control ci) amt)) s) as (s1 & Ha & [(mcid & n & Ep & E1)|(e & n & Ep & E1)]); [apply Hnp|..].
  2: { exists s1. left. exists e, n. split; [done|]. split; [|done]. by rewrite (bind_ok (mret ch) _ s ch s eq_refl), (bind_err _ _ _ _ _ E1). }
  rewrite (bind_ok (mret ch) _ s ch s eq_refl), (bind_ok _ _ _ _ _ E1). assert (stored (view s1) ci1) as Hst1 by by rewrite (an_view _ _ _ Ha).
  destruct (mutate_stored ci1 (withPending mcid amt avail ci1) ch tt tt (fun ci => mret (withPending mcid amt avail ci, tt)) s1 Hst1 Hc1) as (s2 & b & E2 & Hw & Hu); [done..|].
  rewrite Hid in E2, Hw. rewrite (bind_ok _ _ _ _ _ E2). destruct (SaveNewMessage_ok (ChannelID ci) (ChannelID ci) mcid s2) as (s3 & E3 & C3 & K3).
  rewrite (bind_ok _ _ _ _ _ (attempt_ok _ _ _ _ E3)).
  destruct (addWait_ok (WaitAddFunds (ChannelID ci) mcid) s3) as (s4 & E4 & C4 & V4). rewrite (bind_ok _ _ _ _ _ E4). exists s4. right. exists mcid, n.
  split; [done|]. split; [done|]. split.
  - apply (changed_trans _ _ [] [] s1 [] [_] _ (changed_answered _ _ _ _ Ha)), (changed_trans _ _ [] [] s2 [] [_] _ (changed_wrote _ _ _ _ Hw)).
    by apply (changed_trans _ _ [] [] s3 [] [_] _ C3).
  - rewrite V4. apply K3. eapply (wrote_stored s1 ci); [done|done|by rewrite <- Hid|]. rewrite <- Hid. apply Hst.
Qed.

(** A channel whose creation is on its way. *)
Definition newChannel (id : string) (from to : Address) (mcid : Cid) (amt avail : Z) : ChannelInfo := {|
  ChannelID := id; Channel := None; Control := from; Target := to; Direction := DirOutbound; Vouchers := []; NextLane := 0; ChAmount := Some 0;
  AvailableAmount := Some 0; PendingAvailableAmount := Some avail; PendingAmount := Some amt; CreateMsg := Some mcid; AddFundsMsg := None; Settling := false |}.

Lemma put_new ci s : ChannelID ci = EmptyString -> Channel ci = None -> exists id s' b,
  putChannelInfo ci s = (POk (set_Channel (Some emptyAddr) (set_ChannelID id ci)), s') /\ id <> EmptyString /\ changed s id [] [] s' /\
  view s' !! dskeyForChannel id = Some b /\ unmarshallChannelInfo b = Ret (set_Channel None (normalised (set_ChannelID id ci))).
Proof.
  intros Hid Hc. unfold putChannelInfo. rewrite bool_decide_eq_true_2 by done. pose proof (sw_uuid Hkv (pnode s)) as Hu. destruct (uuidNew (pnode s)) as [id n] eqn:Eu. cbn [fst] in Hu.
  assert (exists s1, (u ← askNode uuidNew; mret (set_ChannelID u ci)) s = (POk (set_ChannelID id ci), s1) /\ answered s [] s1) as (s1 & E1 & Ha).
  { unfold askNode, mbind, PM_bind. rewrite Eu. eexists. split; [done|]. split; cbn; rewrite ?app_nil_r; done || lia. }
  rewrite (bind_ok _ _ _ _ _ E1). unfold marshallChannelInfo. cbn [Channel set_ChannelID]. rewrite Hc. fold (set_ChannelID id ci).
  set (ci' := set_Channel (Some emptyAddr) (set_ChannelID id ci)). destruct (sw_dump Hkv ci') as [b Hb]. destruct (ds_Put (dskeyForChannel id) b s1) as (s2 & E2 & Hw).
  exists id, s2, b. split_and!.
  - cbv beta iota zeta. rewrite Hb. rewrite (bind_ok (plift (Ret b)) _ s1 b s1 eq_refl). by rewrite (bind_ok _ _ _ _ _ E2).
  - done.
  - apply (changed_trans _ _ [] [] s1 [] [] _ (changed_answered _ _ _ _ Ha)). by eapply changed_wrote.
  - rewrite (wr_view _ _ _ _ Hw). apply lookup_insert_eq.
  - unfold unmarshallChannelInfo. rewrite (channel_codec _ _ Hb) by by eexists. cbn. by rewrite bool_decide_eq_true_2 by done.
Qed.

Lemma plift_cases {A} (r : outcome A) s : r <> Panic -> (exists a, r = Ret a /\ plift r s = (POk a, s)) \/ (exists e, r = Err e /\ plift r s = (PErr (errorf e), s)).
Proof. intros Hr. destruct r; [left|right|done]; eauto. Qed.

Lemma messageBuilder_cases from s : exists s', answered s [] s' /\
  ((exists av mb, lpaychMessage av from = Ret mb /\ messageBuilder from s = (POk mb, s')) \/ exists e, messageBuilder from s = (PErr e, s')).
Proof.
  unfold messageBuilder. destruct (api_cases StateNetworkVersion s) as (s1 & A1 & [(nv & n & En & E1)|(e & n & En & E1)]); [apply Hnp|..]; exists s1; (split; [done|]).
  2: { right. eexists. by rewrite (bind_err _ _ _ _ _ E1). }
  rewrite (bind_ok _ _ _ _ _ E1). destruct (plift_cases (VersionForNetwork nv) s1) as [(av & Ev & E2)|(e & Ev & E2)]; [apply Hnp|..].
  2: { right. eexists. by rewrite (bind_err _ _ _ _ _ E2). }
  rewrite (bind_ok _ _ _ _ _ E2). destruct (plift_cases (lpaychMessage av from) s1) as [(mb & Em & E3)|(e & Em & E3)]; [apply Hnp|left|right]; eauto.
Qed.

Lemma createPaych_spec from to amt avail s :
  exists s',
    (exists e, createPaych from to amt avail s = (PErr e, s') /\ answered s [] s') \/
    (exists id av mb msg mcid, lpaychMessage av from = Ret mb /\ mb_Create mb to amt = Ret msg /\ (exists n n', MpoolPushMessage msg n = (Ret mcid, n')) /\
       createPaych from to amt avail s = (POk mcid, s') /\ changed s id [] [WaitCreate id mcid] s' /\ stored (view s') (newChannel id from to mcid amt avail)).
Proof.
  unfold createPaych. destruct (messageBuilder_cases from s) as (s1 & A1 & [(av & mb & Emb & E1)|(e & E1)]).
  2: { exists s1. left. eexists. by rewrite (bind_err _ _ _ _ _ E1). }
  rewrite (bind_ok _ _ _ _ _ E1). destruct (plift_cases (mb_Create mb to amt) s1) as [(msg & Emsg & E2)|(e & Emsg & E2)]; [by eapply np_create|..].
  2: { exists s1. left. eexists. by rewrite (bind_err _ _ _ _ _ E2). }
  rewrite (bind_ok _ _ _ _ _ E2). destruct (api_cases (MpoolPushMessage msg) s1) as (s2 & A2 & [(mcid & n & En & E3)|(e & n & En & E3)]); [apply Hnp|..].
  2: { exists s2. left. eexists. rewrite (bind_err _ _ _ _ _ E3). split; [done|]. by apply (answered_trans _ [] _ [] _ A1). }
  rewrite (bind_ok _ _ _ _ _ E3). unfold CreateChannel. match goal with |- context [putChannelInfo ?c] => destruct (put_new c s2) as (id & s3 & b & E4 & Hne & C3 & Hb & Hu); [done..|] end.
  destruct (SaveNewMessage_ok id id mcid s3) as (s4 & E5 & C4 & K4). destruct (addWait_ok (WaitCreate id mcid) s4) as (s5 & E6 & C5 & V5).
  exists s5. right. exists id, av, mb, msg, mcid. split_and!; [done|done|by eauto|..].
  - erewrite bind_ok; [|rewrite (bind_ok _ _ _ _ _ E4); cbn [ChannelID set_Channel set_ChannelID]; by rewrite (bind_ok _ _ _ _ _ E5)].
    cbn [ChannelID set_Channel set_ChannelID]. by rewrite (bind_ok _ _ _ _ _ E6).
  - apply (changed_trans _ _ [] [] s1 [] [_] _ (changed_answered _ _ _ _ A1)), (changed_trans _ _ [] [] s2 [] [_] _ (changed_answered _ _ _ _ A2)).
    by apply (changed_trans _ _ [] [] s3 [] [_] _ C3), (changed_trans _ _ [] [] s4 [] [_] _ C4).
  - rewrite V5. apply K4. split; [done|]. by exists b.
Qed.

(** ** The channel of an accessor *)

Lemma findChansLoop_cases (filter : ChannelInfo -> PM bool) (P : ChannelInfo -> Prop) entries s :
  (forall ci s, exists b s', filter ci s = (POk b, s') /\ answered s [] s' /\ (b = true -> P ci)) ->
  (forall e, e ∈ entries -> exists b ci, e = Ret b /\ unmarshallChannelInfo b = Ret ci) ->
  exists l s', findChansLoop entries filter 1 [] s = (POk l, s') /\ answered s [] s' /\
    (l = [] \/ exists ci b, l = [ci] /\ P ci /\ Ret b ∈ entries /\ unmarshallChannelInfo b = Ret ci).
Proof.
  intros Hf. revert s. induction entries as [|e entries IH]; intros s He; cbn [findChansLoop].
  { exists [], s. split; [done|]. split; [apply answered_refl|by left]. }
  destruct (He e) as (b & ci & -> & Hu); [left|]. rewrite Hu. rewrite (bind_ok (plift (Ret ci)) _ s ci s eq_refl).
  destruct (Hf ci s) as (ok & s1 & E1 & A1 & HP). rewrite (bind_ok _ _ _ _ _ E1). destruct ok; cbn [negb].
  - exists [ci], s1. split; [done|]. split; [done|]. right. exists ci, b. split_and!; [done|by apply HP|left|done].
  - destruct (IH s1) as (l & s2 & E2 & A2 & Hl); [intros e' He'; apply He; by right|]. exists l, s2. split; [done|]. split; [by apply (answered_trans _ [] _ [] _ A1)|].
    destruct Hl as [->|(ci' & b' & -> & ? & ? & ?)]; [by left|]. right. exists ci', b'. split_and!; [done|done|by right|done].
Qed.

Lemma OutboundActive_cases from to s : live (view s) -> exists s', answered s [] s' /\
  (OutboundActiveByFromTo from to s = (PErr ErrChannelNotTracked, s') \/
   exists ci, OutboundActiveByFromTo from to s = (POk ci, s') /\ stored (view s) ci /\ Control ci = from /\ Target ci = to /\ (CreateMsg ci = None -> is_Some (Channel ci))).
Proof.
  intros Hlive. unfold OutboundActiveByFromTo, findChan, findChans. match goal with |- context [findChansLoop _ ?f _ _] => set (filter := f) end.
  assert (forall ci s, exists b s', filter ci s = (POk b, s') /\ answered s [] s' /\ (b = true -> Control ci = from /\ Target ci = to)) as Hf.
  { clear s Hlive. intros ci s. unfold filter. destruct (negb _); [exists false, s; split; [done|]; split; [apply answered_refl|done]|].
    destruct (Settling ci); [exists false, s; split; [done|]; split; [apply answered_refl|done]|]. set (mt := bool_decide _ && _).
    assert (mt = true -> Control ci = from /\ Target ci = to) as Hmt by (intros [?%bool_decide_eq_true ?%bool_decide_eq_true]%andb_true_iff; done).
    destruct (Channel ci) as [ch|]; [|exists mt, s; split; [done|]; by split; [apply answered_refl|]].
    destruct (api_cases (GetPaychState ch) s) as (s1 & A1 & [([bal st] & n & En & E1)|(e & n & En & E1)]); [apply Hnp|..].
    2: { rewrite (bind_ok _ _ _ _ _ (attempt_err _ _ _ _ (bind_err _ _ _ _ _ E1))). exists false, s1. done. }
    destruct (plift_cases (SettlingAt st) s1) as [(sat & Es & E2)|(e & Es & E2)]; [by eapply (np_settling Hnp ch (pnode s)); rewrite En|..].
    - rewrite (bind_ok _ _ _ _ _ (attempt_ok _ _ _ _ (eq_trans (bind_ok _ (fun x => plift (SettlingAt (snd x))) _ _ _ E1) E2))).
      destruct (negb (sat =? 0)); [exists false, s1|exists mt, s1]; done.
    - rewrite (bind_ok _ _ _ _ _ (attempt_err _ _ _ _ (eq_trans (bind_ok _ (fun x => plift (SettlingAt (snd x))) _ _ _ E1) E2))). exists false, s1. done. }
  destruct (sw_Query Hkv dsKeyChannelInfo (pkv s)) as [l Hl]. destruct (kv_Query_ok dsKeyChannelInfo (pkv s)) as [Hv [[e He]|(l' & kvs & rest & El & Hp & Hf2 & _)]]; [congruence|].
  assert (l' = l) as -> by congruence. pose proof (fun e => sw_read Hkv dsKeyChannelInfo (pkv s) l e Hl) as Hread.
  assert (exists s1, ds (kv_Query dsKeyChannelInfo) s = (POk l, s1) /\ answered s [] s1) as (s1 & E1 & A1).
  { unfold ds. destruct (kv_Query dsKeyChannelInfo (pkv s)) as [r k]. cbn in *. subst r. eexists. split; [done|]. split; cbn; rewrite ?app_nil_r; done || lia. }
  assert (forall b, Ret b ∈ l -> exists k, view s !! k = Some b /\ inNamespace dsKeyChannelInfo k = true) as Hin.
  { intros b Hb. apply list_elem_of_lookup in Hb as [j Hj]. destruct (Forall2_lookup_l _ _ _ _ _ Hf2 Hj) as ([k b'] & Hk & [[= <-]|[m [=]]]).
    assert ((k, b) ∈ kvs ++ rest) as Hkb by (apply elem_of_app; left; by eapply list_elem_of_lookup_2). rewrite Hp in Hkb.
    apply elem_of_map_to_list, map_lookup_filter_Some in Hkb. by exists k. }
  destruct (findChansLoop_cases filter (fun ci => Control ci = from /\ Target ci = to) l s1 Hf) as (cis & s2 & E2 & A2 & Hcis).
  { intros e He. destruct (Hread e He) as [b ->]. destruct (Hin b He) as (k & Hk & Hn). destruct (Hlive k b Hk Hn) as (ci & Hu & _). by exists b, ci. }
  exists s2. split; [by apply (answered_trans _ [] _ [] _ A1)|]. rewrite (bind_ok _ _ _ _ _ (eq_trans (bind_ok _ (fun res => findChansLoop res filter 1 []) _ _ _ E1) E2)).
  destruct Hcis as [->|(ci & b & -> & [Hc Htg] & Hb & Hu)]; [by left|]. right. exists ci. split; [done|].
  destruct (Hin b Hb) as (k & Hk & Hn). destruct (Hlive k b Hk Hn) as (ci' & Hu' & -> & Hne & Hcr). assert (ci' = ci) as -> by congruence.
  split; [|done]. split; [done|]. by exists b.
Qed.

(** ** A task *)

(** A request can be for any amount over zero, and one that must not go to the chain reserves. *)
Definition valid (r : fundsReq) : Prop := 0 < req_amt r /\ (OffChain r = true -> Reserve r = true).

Definition onMessage (ch : option Address) (mcid : Cid) : paychFundsRes := {| fr_channel := ch; fr_mcid := Some mcid; fr_err := None |}.

(** What else there is of channels stays. *)
Definition others (id : string) (v v' : gmap dsKey bytes) : Prop := forall k, inNamespace dsKeyChannelInfo k = true -> k <> dskeyForChannel id -> v' !! k = v !! k.

(** What becomes of the requests, the store and the waits: those of [d] are answered, and [res]
    is for [rest]. *)
Inductive task_outcome (from to : Address) (v v' : gmap dsKey bytes) (d : Answers) (w : list Waiting) (rest : list fundsReq) (res : paychFundsRes) : Prop :=
| task_refused : (* there is no channel, and none is created *)
    Forall (fun x => x.1.2 = refused /\ OffChain x.1.1 = true /\ x.2 = true) d -> (rest = [] \/ is_Some (fr_err res)) -> v' = v -> w = [] ->
    task_outcome from to v v' d w rest res
| task_created id mcid av mb msg : (* a channel is created for the rest *)
    Forall (fun x => x.1.2 = refused /\ OffChain x.1.1 = true /\ x.2 = true) d -> Forall (fun r => OffChain r = false) rest -> res = onMessage None mcid ->
    lpaychMessage av from = Ret mb -> mb_Create mb to (sumZ req_amt rest) = Ret msg -> (exists n n', MpoolPushMessage msg n = (Ret mcid, n')) ->
    others id v v' -> w = [WaitCreate id mcid] -> stored v' (newChannel id from to mcid (sumZ req_amt rest) (nonReserved rest)) ->
    task_outcome from to v v' d w rest res
| task_filled ci ch a : (* the available funds are used, and suffice or no more can be added *)
    stored v ci -> Control ci = from -> Target ci = to -> Channel ci = Some ch -> AvailableAmount ci = Some a ->
    Forall (settled ch) d -> 0 <= granted ch d <= a -> (rest = [] \/ is_Some (fr_err res)) ->
    others (ChannelID ci) v v' -> w = [] -> stored v' (set_AvailableAmount (Some (a - granted ch d)) (normalised ci)) ->
    task_outcome from to v v' d w rest res
| task_added ci ch a mcid : (* funds are added for the rest *)
    stored v ci -> Control ci = from -> Target ci = to -> Channel ci = Some ch -> AvailableAmount ci = Some a ->
    Forall (settled ch) d -> 0 <= granted ch d <= a -> Forall (fun r => OffChain r = false) rest -> res = onMessage (Some ch) mcid ->
    (exists n n', MpoolPushMessage (fundsMessage ch from (sumZ req_amt rest)) n = (Ret mcid, n')) ->
    others (ChannelID ci) v v' -> w = [WaitAddFunds (ChannelID ci) mcid] ->
    stored v' (withPending mcid (sumZ req_amt rest) (nonReserved rest) (set_AvailableAmount (Some (a - granted ch d)) (normalised ci))) ->
    task_outcome from to v v' d w rest res.

(** The requests that were answered and the waits that were begun. *)
Record moved (s : Manager) (d : Answers) (w : list Waiting) (s' : Manager) : Prop := {
  mv_channels : channels s' = channels s;
  mv_waits : waits s' = waits s ++ w;
  mv_answers : answers s' = answers s ++ d;
  mv_now : now s <= now s';
}.

Lemma moved_changed s id d w s' : changed s id d w s' -> moved s d w s' /\ others id (view s) (view s').
Proof. intros []. split; [by split|done]. Qed.

Lemma moved_answered s d s' : answered s d s' -> moved s d [] s' /\ view s' = view s.
Proof. intros []. split; [by split; rewrite ?app_nil_r|done]. Qed.

Lemma sum_valid_pos reqs : Forall valid reqs -> reqs <> [] -> 0 < sumZ req_amt reqs.
Proof.
  intros Hv Hne. destruct Hv as [|r reqs [Hr _] Hv]; [done|]. clear Hne. rewrite sumZ_cons. assert (0 <= sumZ req_amt reqs); [|lia].
  induction Hv as [|r' reqs [? _] Hv IH]; [done|]. rewrite sumZ_cons. lia.
Qed.

Lemma nonReserved_app l1 l2 : nonReserved (l1 ++ l2) = nonReserved l1 + nonReserved l2.
Proof. apply sumZ_app. Qed.

Lemma nonReserved_reserve l : Forall (fun r => Reserve r = true) l -> nonReserved l = 0.
Proof. induction 1 as [|r l Hr Hl IH]; [done|]. unfold nonReserved in *. rewrite sumZ_cons, Hr. lia. Qed.

Lemma nonReserved_le l : Forall valid l -> nonReserved l <= sumZ req_amt l.
Proof. induction 1 as [|r l [Hr _] Hl IH]; [done|]. unfold nonReserved in *. rewrite !sumZ_cons. destruct (Reserve r); lia. Qed.

Lemma granted_nonneg ch d : Forall valid d.*1.*1 -> 0 <= granted ch d.
Proof.
  induction d as [|[[r res] b] d IH]; [done|]. intros [[Hr _] Hd]%Forall_cons. rewrite granted_cons. specialize (IH Hd). cbn in Hr. case_decide; lia.
Qed.

Lemma sum_answers (d : Answers) : sumZ (fun x => req_amt x.1.1) d = sumZ req_amt d.*1.*1.
Proof. induction d as [|x d IH]; [done|]. cbn. unfold sumZ in *. cbn. by rewrite IH. Qed.

Lemma answers_of res (l : list fundsReq) : (answer res <$> l).*1.*1 = l.
Proof. induction l as [|r l IH]; cbn; [done|by f_equal]. Qed.

(** The outcome of a merged task. *)
Definition task_done (from to : Address) (s : Manager) (reqs : list fundsReq) (m' : mergedFundsReq) (ores : option paychFundsRes) (s' : Manager) : Prop :=
  exists d w res, ores = Some res /\ reqs = d.*1.*1 ++ m_reqs m' /\ moved s d w s' /\ task_outcome from to (view s) (view s') d w (m_reqs m') res.

Lemma drop_first {A} (d rest : list A) n : n = length d -> drop n (d ++ rest) = rest.
Proof. intros ->. by rewrite drop_app_length. Qed.

Lemma refused_answers (d : list fundsReq) : Forall (fun r => OffChain r = true) d -> Forall (fun x => x.1.2 = refused /\ OffChain x.1.1 = true /\ x.2 = true) (answer refused <$> d).
Proof. intros Hd. apply Forall_fmap. eapply Forall_impl; [exact Hd|]. done. Qed.

Lemma taskNoChannel_spec from to q m s : m_reqs m = sortSlice fundsLess q -> Forall valid (m_reqs m) -> Forall (fun r => steady r (now s)) (m_reqs m) ->
  exists m' ores s', taskNoChannel from to m (sumZ req_amt (m_reqs m)) (nonReserved (m_reqs m)) s = (POk (m', ores), s') /\ task_done from to s (m_reqs m) m' ores s'.
Proof.
  intros Hsort Hval Hst. unfold taskNoChannel, failOffChainNoChannel.
  destruct (failLoop_steady (m_reqs m) 0 0 s Hst) as (d & rest & s1 & Ereqs & Hoff & Hrest & A1 & E1).
  rewrite (bind_ok _ _ _ _ _ (bind_ok _ _ _ _ _ E1)). cbn [m_reqs]. rewrite Ereqs, drop_first by done. pose proof (refused_answers d Hoff) as Hd.
  destruct rest as [|r rest].
  { do 3 eexists. split; [done|]. destruct (moved_answered _ _ _ A1). exists (answer refused <$> d), [], refused.
    split; [done|]. rewrite answers_of. split; [done|]. split; [done|]. apply task_refused; by auto. }
  rewrite Ereqs in Hval. apply Forall_app in Hval as [Hvd Hvr]. rewrite nonReserved_app, (nonReserved_reserve d), Z.add_0_l.
  2: { rewrite Forall_forall in Hvd, Hoff |- *. intros x Hx. apply (Hvd x Hx). by apply Hoff. }
  rewrite sumZ_app. replace (_ - (0 + sumZ req_amt d)) with (sumZ req_amt (r :: rest)) by lia.
  destruct (createPaych_spec from to (sumZ req_amt (r :: rest)) (nonReserved (r :: rest)) s1) as (s2 & [(e & E2 & A2)|(id & av & mb & msg & mcid & Emb & Emsg & Hp & E2 & C2 & Hstored)]).
  - rewrite (bind_ok _ _ _ _ _ (attempt_err _ _ _ _ E2)). assert (answered s (answer refused <$> d) s2) as [Hm Hv]%moved_answered.
    { rewrite <- (app_nil_r (answer refused <$> d)). by apply (answered_trans _ _ _ _ _ A1). }
    do 3 eexists. split; [done|]. exists (answer refused <$> d), []. eexists. split; [done|]. rewrite answers_of. split; [done|]. split; [done|]. apply task_refused; [done|right; by eexists|done..].
  - rewrite (bind_ok _ _ _ _ _ (attempt_ok _ _ _ _ E2)). assert (changed s id (answer refused <$> d) [WaitCreate id mcid] s2) as [Hm Ho]%moved_changed.
    { rewrite <- (app_nil_r (answer refused <$> d)). apply (changed_trans _ _ _ [] s1 [] [_]); [by apply changed_answered|done]. }
    do 3 eexists. split; [done|]. exists (answer refused <$> d). do 2 eexists. split; [done|]. rewrite answers_of. split; [done|]. split; [exact Hm|].
    eapply task_created; [done| |done..]. rewrite Hsort in Ereqs. apply (sorted_tail q d); [done|]. by eapply Hrest.
Qed.

Lemma taskChannel_spec from to q ci ch a m s : m_reqs m = sortSlice fundsLess q -> Forall valid (m_reqs m) -> Forall (fun r => steady r (now s)) (m_reqs m) -> m_reqs m <> [] ->
  stored (view s) ci -> Control ci = from -> Target ci = to -> CreateMsg ci = None -> AddFundsMsg ci = None -> Channel ci = Some ch -> AvailableAmount ci = Some a -> 0 <= a ->
  exists m' ores s', taskChannel ci m (sumZ req_amt (m_reqs m)) (nonReserved (m_reqs m)) s = (POk (m', ores), s') /\ task_done from to s (m_reqs m) m' ores s'.
Proof.
  intros Hsort Hval Hst Hne Hci Hco Htg Hcr Hadd Hch Ha Ha0. unfold taskChannel. rewrite Hcr, Hadd. rewrite !bool_decide_eq_false_2 by (by intros []).
  destruct (completeAvailable_spec m ci ch a (sumZ req_amt (m_reqs m)) (nonReserved (m_reqs m)) s Hci Hch Ha Ha0) as (d & rest & s1 & Ereqs & Hset & Hg & Hrest & C1 & Hst1 & E1);
    [pose proof (nonReserved_le _ Hval); lia|done|].
  rewrite (bind_ok _ _ _ _ _ E1). rewrite sum_answers, Ereqs, sumZ_app. rewrite Ereqs in Hval. apply Forall_app in Hval as [Hvd Hvr]. pose proof (granted_nonneg ch d Hvd).
  destruct rest as [|r rest].
  { rewrite bool_decide_eq_true_2 by by eexists. cbn [orb]. do 3 eexists. split; [done|]. destruct (moved_changed _ _ _ _ _ C1). exists d, []. eexists. split; [done|]. split; [done|]. split; [done|].
    eapply (task_filled _ _ _ _ _ _ _ _ ci ch a); try done; by left. }
  pose proof (sum_valid_pos (r :: rest) Hvr ltac:(done)). rewrite bool_decide_eq_false_2 by (by intros []).
  replace (sumZ req_amt d.*1.*1 + sumZ req_amt (r :: rest) - sumZ req_amt d.*1.*1) with (sumZ req_amt (r :: rest)) by lia.
  replace (sumZ req_amt (r :: rest) <=? 0) with false by lia. cbn [orb]. rewrite nonReserved_app, (nonReserved_reserve d.*1.*1), Z.add_0_l.
  2: { rewrite <- list_fmap_compose. apply Forall_fmap. eapply Forall_impl; [exact Hset|]. intros x (_ & Hx & _). done. }
  destruct (addFunds_spec ci (set_AvailableAmount (Some (a - granted ch d)) (normalised ci)) ch (sumZ req_amt (r :: rest)) (nonReserved (r :: rest)) s1 Hst1 eq_refl Hch Hch)
    as (s2 & [(e & n & Ep & E2 & A2)|(mcid & n & Ep & E2 & C2 & Hst2)]).
  - rewrite (bind_ok _ _ _ _ _ (attempt_err _ _ _ _ E2)). assert (changed s (ChannelID ci) d [] s2) as [Hm Ho]%moved_changed.
    { rewrite <- (app_nil_r d). apply (changed_trans _ _ _ [] s1 [] []); [done|by apply changed_answered]. }
    do 3 eexists. split; [done|]. exists d, []. eexists. split; [done|]. split; [done|]. split; [done|].
    eapply (task_filled _ _ _ _ _ _ _ _ ci ch a); try done; [right; by eexists|by rewrite (an_view _ _ _ A2)].
  - rewrite (bind_ok _ _ _ _ _ (attempt_ok _ _ _ _ E2)), Hch. assert (changed s (ChannelID ci) d [WaitAddFunds (ChannelID ci) mcid] s2) as [Hm Ho]%moved_changed.
    { rewrite <- (app_nil_r d). by apply (changed_trans _ _ _ [] s1 [] [_]). }
    do 3 eexists. split; [done|]. exists d. do 2 eexists. split; [done|]. split; [done|]. split; [exact Hm|].
    eapply (task_added _ _ _ _ _ _ _ _ ci ch a mcid); try done.
    + rewrite Hsort in Ereqs. apply (sorted_tail q d.*1.*1); [done|]. destruct (Hrest r rest eq_refl) as [Hr|Hr]; [|done].
      apply Forall_cons in Hvr as [[_ Hoff] _]. destruct (OffChain r); [|done]. rewrite Hoff in Hr; done.
    + rewrite Hco in Ep. eauto.
Qed.

Lemma task_done_later from to s s1 reqs m' ores s' : answered s [] s1 -> task_done from to s1 reqs m' ores s' -> task_done from to s reqs m' ores s'.
Proof.
  intros [Av Ac Aw Aa An] (d & w & res & Ho & Hr & [M1 M2 M3 M4] & Ht). rewrite app_nil_r in Aa. exists d, w, res. rewrite <- Av. split_and!; [done..| |done].
  split; [congruence..|lia].
Qed.

(** The task waits for a message, or settles all requests. *)
Lemma processTask_spec from to q m s : live (view s) -> (forall ci a, stored (view s) ci -> AvailableAmount ci = Some a -> 0 <= a) ->
  m_reqs m = sortSlice fundsLess q -> Forall valid (m_reqs m) -> m_reqs m <> [] -> Forall (fun r => steady r (now s)) (m_reqs m) ->
  exists m' ores s', processTask from to m (sumZ req_amt (m_reqs m)) (nonReserved (m_reqs m)) s = (POk (m', ores), s') /\
    ((ores = None /\ answered s [] s' /\ exists ci, stored (view s) ci /\ Control ci = from /\ Target ci = to /\ (is_Some (CreateMsg ci) \/ is_Some (AddFundsMsg ci))) \/
     task_done from to s (m_reqs m) m' ores s').
Proof.
  intros Hlive Hnn Hsort Hval Hne Hst. unfold processTask. destruct (OutboundActive_cases from to s Hlive) as (s1 & A1 & Hcases).
  assert (Forall (fun r => steady r (now s1)) (m_reqs m)) as Hst1 by (eapply steady_all_le; [done|apply A1]).
  destruct Hcases as [E1|(ci & E1 & Hci & Hco & Htg & Hcr)].
  - rewrite (bind_ok _ _ _ _ _ (attempt_err _ _ _ _ E1)). destruct (taskNoChannel_spec from to q m s1 Hsort Hval Hst1) as (m' & ores & s' & E2 & Hd).
    exists m', ores, s'. split; [done|]. right. by eapply task_done_later.
  - rewrite (bind_ok _ _ _ _ _ (attempt_ok _ _ _ _ E1)). destruct (decide (is_Some (CreateMsg ci) \/ is_Some (AddFundsMsg ci))) as [Hw|Hw].
    + exists m, None, s1. split; [unfold taskChannel; repeat case_bool_decide; done || tauto|]. left. split_and!; [done..|]. by exists ci.
    + assert (CreateMsg ci = None) as Hcm by (destruct (CreateMsg ci); [exfalso; apply Hw; left; by eexists|done]).
      assert (AddFundsMsg ci = None) as Ham by (destruct (AddFundsMsg ci); [exfalso; apply Hw; right; by eexists|done]).
      destruct (Hcr Hcm) as [ch Hch]. pose proof Hci as (_ & b & _ & Hu). destruct (unmarshall_avail _ _ Hu) as [a Ha].
      assert (stored (view s1) ci) as Hci1 by by rewrite (an_view _ _ _ A1).
      destruct (taskChannel_spec from to q ci ch a m s1) as (m' & ores & s' & E2 & Hd); [done..|by apply (Hnn ci)|].
      exists m', ores, s'. split; [done|]. right. by eapply task_done_later.
Qed.

(** ** Messages that are on the chain *)

Lemma askNode_ok {A} (f : node -> A * node) s a n : f (pnode s) = (a, n) -> exists s', askNode f s = (POk a, s') /\ answered s [] s'.
Proof. intros E. unfold askNode. rewrite E. eexists. split; [done|]. split; cbn; rewrite ?app_nil_r; done || lia. Qed.

(** Funds that were added are confirmed, or given up if the message has failed. *)
Lemma funds_confirmed ci ch mcid code ret n amt pend av pav s : stored (view s) ci -> Channel ci = Some ch -> StateWaitMsg mcid (pnode s) = (WaitReceipt code ret, n) ->
  ChAmount ci = Some amt -> PendingAmount ci = Some pend -> AvailableAmount ci = Some av -> PendingAvailableAmount ci = Some pav ->
  exists r s', waitAddFundsMsg (ChannelID ci) mcid s = (POk r, s') /\ (r = None <-> code = 0) /\ changed s (ChannelID ci) [] [] s' /\
    stored (view s') (set_AddFundsMsg None (set_PendingAvailableAmount (Some 0) (set_PendingAmount (Some 0)
      (set_AvailableAmount (Some (if code =? 0 then av + pav else av)) (set_ChAmount (Some (if code =? 0 then amt + pend else amt)) ci))))).
Proof.
  intros Hst Hc Hw Ea Ep Eav Epav. pose proof (proj1 Hst) as Hid. unfold waitAddFundsMsg. destruct (askNode_ok _ _ _ _ Hw) as (s1 & E1 & A1). rewrite (bind_ok _ _ _ _ _ E1).
  set (ci' := set_AddFundsMsg None _). assert (stored (view s1) ci) as Hst1 by by rewrite (an_view _ _ _ A1).
  assert (normalised ci' = ci') as Hnorm by by destruct ci.
  assert (forall A (f : ChannelInfo -> PM (ChannelInfo * A)) (a d : A), f ci = mret (ci', a) ->
    exists s', mutateChannelInfo (ChannelID ci) d f s1 = (POk a, s') /\ changed s (ChannelID ci) [] [] s' /\ stored (view s') ci') as Hmut.
  { intros A f a d Hf. destruct (mutate_stored ci ci' ch a d f s1 Hst1 Hc eq_refl eq_refl Hf) as (s2 & b & E2 & Hwr & Hu). exists s2. split; [done|]. split.
    - apply (changed_trans _ _ [] [] s1 [] [] _ (changed_answered _ _ _ _ A1)). by eapply changed_wrote.
    - rewrite Hnorm in Hu. by apply (wrote_stored s1 ci b). }
  destruct (Z.eqb_spec code 0) as [->|Hcode]; cbn [negb].
  - match goal with |- context [mutateChannelInfo _ ?d ?f] => destruct (Hmut _ f None d) as (s2 & E2 & C2 & S2) end.
    { by rewrite Ea, Ep, Eav, Epav. }
    exists None, s2. done.
  - match goal with |- context [mutateChannelInfo _ ?d ?f] => destruct (Hmut _ f tt d) as (s2 & E2 & C2 & S2) end.
    { subst ci'. destruct ci; cbn in *; by subst. }
    rewrite (bind_ok _ _ _ _ _ E2). eexists _, s2. split; [done|]. split; [by split|done].
Qed.

(** A channel that is created gets its address and its funds. *)
Lemma creation_confirmed ci robust mcid ret n s : stored (view s) ci -> StateWaitMsg mcid (pnode s) = (WaitReceipt 0 ret, n) -> decodeExecReturn ret = Ret robust -> robust <> emptyAddr ->
  exists s', waitPaychCreateMsg (ChannelID ci) mcid s = (POk None, s') /\ changed s (ChannelID ci) [] [] s' /\
    stored (view s') (normalised (set_CreateMsg None (set_PendingAvailableAmount (Some 0) (set_PendingAmount (Some 0)
      (set_AvailableAmount (PendingAvailableAmount ci) (set_ChAmount (PendingAmount ci) (set_Channel (Some robust) ci))))))).
Proof.
  intros Hst Hw Hdec Hne. pose proof (proj1 Hst) as Hid. unfold waitPaychCreateMsg. destruct (askNode_ok _ _ _ _ Hw) as (s1 & E1 & A1). rewrite (bind_ok _ _ _ _ _ E1). cbn [negb Z.eqb].
  rewrite Hdec. rewrite (bind_ok _ _ _ _ _ (attempt_ok (plift (Ret robust)) s1 robust s1 eq_refl)).
  set (ci' := set_CreateMsg None _). assert (stored (view s1) ci) as Hst1 by by rewrite (an_view _ _ _ A1).
  match goal with |- context [mutateChannelInfo _ None ?f] => destruct (mutate_addressed ci ci' robust None None f s1 Hst1 eq_refl eq_refl Hne eq_refl) as (s2 & b & E2 & Hwr & Hu) end.
  exists s2. split; [done|]. split; [|by apply (wrote_stored s1 ci b)].
  apply (changed_trans _ _ [] [] s1 [] [] _ (changed_answered _ _ _ _ A1)). by eapply changed_wrote.
Qed.

(** ** The queue *)

(** The accessor with another queue. *)
Definition withQueue (q : list fundsReq) (ca : channelAccessor) : channelAccessor := {| ca_from := ca_from ca; ca_to := ca_to ca; fundsReqQueue := q |}.

Lemma accessor_ok key ca s : channels s !! key = Some ca -> accessor key s = (POk ca, s).
Proof. intros E. unfold accessor. by rewrite E. Qed.

Lemma setQueue_ok key q s : exists s', setQueue key q s = (POk tt, s') /\ view s' = view s /\ answers s' = answers s /\ waits s' = waits s /\ now s' = now s /\
  channels s' = alter (withQueue q) key (channels s).
Proof. by eexists. Qed.

(** A message of the channel is on its way. *)
Definition waitingFor (from to : Address) (v : gmap dsKey bytes) : Prop :=
  exists ci, stored v ci /\ Control ci = from /\ Target ci = to /\ (is_Some (CreateMsg ci) \/ is_Some (AddFundsMsg ci)).

(** The contexts of the requests have ended or do not end. *)
Definition decided (q : list fundsReq) (t : Z) : Prop := forall r, r ∈ q -> steady r t \/ forall t', t <= t' -> alive r t' = false.

Lemma filterQueue_ok key ca s : channels s !! key = Some ca -> decided (fundsReqQueue ca) (now s) ->
  exists s', filterQueue key s = (POk tt, s') /\ view s' = view s /\ answers s' = answers s /\ waits s' = waits s /\ now s <= now s' /\
    channels s' = alter (withQueue (filter (fun r => alive r (now s) = true) (fundsReqQueue ca))) key (channels s).
Proof.
  intros Hca Hd. unfold filterQueue. rewrite (bind_ok _ _ _ _ _ (accessor_ok key ca s Hca)). destruct (filterActive_steady (fundsReqQueue ca) s Hd) as (s1 & E1 & [Av Ac Aw Aa An]).
  rewrite (bind_ok _ _ _ _ _ E1). rewrite app_nil_r in Aa.
  destruct (setQueue_ok key (filter (fun r => alive r (now s) = true) (fundsReqQueue ca)) s1) as (s2 & E2 & V2 & S2 & W2 & N2 & C2).
  exists s2. split; [done|]. rewrite <- Ac, <- Av, <- Aa, <- Aw. split_and!; try done. lia.
Qed.

Lemma decided_steady q t : decided q t -> Forall (fun r => steady r t) (filter (fun r => alive r t = true) q).
Proof.
  intros Hd. apply Forall_forall. intros r [Ha Hr]%list_elem_of_filter. destruct (Hd r Hr) as [?|Hf]; [done|]. rewrite Hf in Ha; [done|lia].
Qed.

(** What [processQueue] does with the requests [q] that are not cancelled. *)
Definition queue_outcome (key : string) (ca : channelAccessor) (q : list fundsReq) (s s' : Manager) : Prop :=
  ((q = [] \/ waitingFor (ca_from ca) (ca_to ca) (view s)) /\ view s' = view s /\ answers s' = answers s /\ waits s' = waits s /\
     channels s' = alter (withQueue q) key (channels s)) \/
  (exists d w rest res, d.*1.*1 ++ rest ≡ₚ q /\ task_outcome (ca_from ca) (ca_to ca) (view s) (view s') d w rest res /\
     answers s' = answers s ++ d ++ (answer res <$> rest) /\ waits s' = waits s ++ w /\ channels s' = alter (withQueue []) key (channels s)).

End funds.

(** ** A manager whose store works *)

Section codec.
Definition sigTuple (s : Signature) : (Z + Z) * bytes :=
  (match SType s with SigTypeBLS => inl 0 | SigTypeSecp256k1 => inl 1 | SigTypeDelegated => inl 2 | SigTypeOther n => inr n end, SData s).
Definition tupleSig (x : (Z + Z) * bytes) : Signature :=
  {| SType := match x.1 with inl 0 => SigTypeBLS | inl 1 => SigTypeSecp256k1 | inl _ => SigTypeDelegated | inr n => SigTypeOther n end; SData := x.2 |}.

Lemma tupleSig_sigTuple s : tupleSig (sigTuple s) = s.
Proof. by destruct s as [[] d]. Qed.

#[local] Instance Signature_countable : Countable Signature := inj_countable' sigTuple tupleSig tupleSig_sigTuple.

Definition svTuple (v : SignedVoucher) := (ChannelAddr v, TimeLockMin v, TimeLockMax v, SecretHash v, Extra v, Lane v, VNonce v, Amount v, MinSettleHeight v, Merges v, VSignature v).
Definition tupleSv x : SignedVoucher :=
  let '(a, b, c, d, e, f, g, h, i, j, k) := x in
  {| ChannelAddr := a; TimeLockMin := b; TimeLockMax := c; SecretHash := d; Extra := e; Lane := f; VNonce := g; Amount := h; MinSettleHeight := i; Merges := j; VSignature := k |}.

Lemma tupleSv_svTuple v : tupleSv (svTuple v) = v.
Proof. by destruct v. Qed.

#[local] Instance SignedVoucher_countable : Countable SignedVoucher := inj_countable' svTuple tupleSv tupleSv_svTuple.

Definition viTuple (v : VoucherInfo) := (Voucher v, VProof v, Submitted v).
Definition tupleVi x : VoucherInfo := let '(a, b, c) := x in {| Voucher := a; VProof := b; Submitted := c |}.

Lemma tupleVi_viTuple v : tupleVi (viTuple v) = v.
Proof. by destruct v. Qed.

#[local] Instance VoucherInfo_countable : Countable VoucherInfo := inj_countable' viTuple tupleVi tupleVi_viTuple.

Definition ciTuple (c : ChannelInfo) :=
  (ChannelID c, Channel c, Control c, Target c, Direction c, Vouchers c, NextLane c, (ChAmount c, AvailableAmount c, PendingAvailableAmount c, PendingAmount c), CreateMsg c, AddFundsMsg c, Settling c).
Definition tupleCi x : ChannelInfo :=
  let '(a, b, c, d, e, f, g, (h, i, j, k), l, m, n) := x in
  {| ChannelID := a; Channel := b; Control := c; Target := d; Direction := e; Vouchers := f; NextLane := g; ChAmount := h; AvailableAmount := i;
     PendingAvailableAmount := j; PendingAmount := k; CreateMsg := l; AddFundsMsg := m; Settling := n |}.

Lemma tupleCi_ciTuple c : tupleCi (ciTuple c) = c.
Proof. by destruct c. Qed.

Definition encodeCi (c : ChannelInfo) : bytes := [Z.pos (encode (ciTuple (normalised c)))].
Definition decodeCi (b : bytes) : outcome ChannelInfo :=
  match b with
  | [Z.pos p] => match decode p with Some x => Ret (tupleCi x) | None => Err "encoding" end
  | _ => Err "encoding"
  end.

Lemma decode_encodeCi c : decodeCi (encodeCi c) = Ret (normalised c).
Proof. unfold decodeCi, encodeCi. rewrite decode_encode. by rewrite tupleCi_ciTuple. Qed.
End codec.

#[local] Existing Instances memKv memKvOk memQuery.

(** The messages get the numbers of the calls. *)
#[local] Instance countingNode : PaychNode := {|
  node := Z; uuidNew := fun n => ("id", n); emptyAddr := "empty"; addrString := fun a => a; cidString := fun _ => "cid";
  dumpChannelInfo := fun ci => Ret (encodeCi ci); loadChannelInfo := decodeCi; dumpMsgInfo := fun _ => Ret []; loadMsgInfo := fun _ => Err "none";
  cborEquals := fun a b => Ret (bool_decide (a = b)); VoucherSigningBytes := fun _ => Ret []; sigsVerify := fun sig a b => if sig then Ret tt else Err "no signature";
  VersionForNetwork := fun v => Ret v; lpaychMessage := fun _ from => Ret {| mb_Create := fun to amt => Ret (fundsMessage to from amt);
    mb_Update := fun _ _ _ => Err "update"; mb_Settle := fun _ => Err "settle"; mb_Collect := fun _ => Err "collect" |}; decodeExecReturn := fun _ => Ret "ch";
  ResolveToDeterministicAddress := fun a n => (Ret a, n); GetPaychState := fun _ n => (Ret (100, demoState), n); CallExitCode := fun _ n => (Ret 0, n);
  StateAccountKey := fun a n => (Ret a, n); StateWaitMsg := fun _ n => (WaitReceipt 0 [], n); MpoolPushMessage := fun _ n => (Ret [n], n + 1);
  WalletHas := fun _ n => (Ret true, n); WalletSign := fun _ _ n => (Ret {| SType := SigTypeBLS; SData := [] |}, n); StateNetworkVersion := fun n => (Ret 21, n) |}.

#[local, program] Instance countingOk : PaychOk := {| inNamespace p k := bool_decide (head k = Some p) |}.
Next Obligation. done. Qed.
Next Obligation. done. Qed.
Next Obligation.
  intros p s. split; [done|]. right. eexists _, (map_to_list (filter (fun x => head x.1 = Some p) (s : gmap (list string) bytes))), [].
  split; [done|]. rewrite app_nil_r. split_and!; [|apply entries_of|done].
  apply reflexive_eq. f_equal. apply map_filter_ext. intros k b _. cbn. by rewrite bool_decide_eq_true.
Qed.
Next Obligation. intros ci b [= <-] _. apply decode_encodeCi. Qed.
Next Obligation. by intros a b eq [= <-]. Qed.

Definition fundsDemo (avail : Z) (q : list fundsReq) : Manager := {|
  pkv := {[ ["ChannelInfo"; "id"] := encodeCi (demoChannel "id" 0 avail []) ]} : gmap (list string) bytes; pnode := 0;
  channels := {[ "me->you" := {| ca_from := "me"; ca_to := "you"; fundsReqQueue := q |} ]}; now := 0; answers := []; waits := [] |}.

Definition demoReq (id amt : Z) (offChain reserve : bool) : fundsReq := {| req_id := id; req_amt := amt; OffChain := offChain; Reserve := reserve; req_done := None |}.

Lemma demo_works : store_works.
Proof.
  split.
  - done.
  - done.
  - intros p s. by eexists.
  - intros p s l e [= <-] He. apply list_elem_of_fmap in He as (x & -> & _). eauto.
  - intros ci. by eexists.
  - intros mi. by eexists.
  - done.
Qed.

Lemma demo_calm : no_panics.
Proof. split; try done. - by intros ch n bal st [= <- <-]. - by intros av from mb to amt [= <-]. Qed.

Lemma funds_lookup avail q (k : list string) b : view (fundsDemo avail q) !! k = Some b <-> k = ["ChannelInfo"; "id"] /\ b = encodeCi (demoChannel "id" 0 avail []).
Proof.
  assert ((({[ ["ChannelInfo"; "id"] := encodeCi (demoChannel "id" 0 avail []) ]} : gmap (list string) bytes) !! k = Some b) <->
    k = ["ChannelInfo"; "id"] /\ b = encodeCi (demoChannel "id" 0 avail [])) as Hl; [|exact Hl].
  rewrite lookup_singleton_Some. naive_solver.
Qed.

Lemma funds_stored avail b ci : b = encodeCi (demoChannel "id" 0 avail []) -> unmarshallChannelInfo b = Ret ci -> ci = demoChannel "id" 0 avail [].
Proof. intros -> E. unfold unmarshallChannelInfo in E. cbn [loadChannelInfo countingNode] in E. rewrite decode_encodeCi in E. by injection E as <-. Qed.

(** Of 7 available, 4 are granted to a request that must not go to the chain; a request for 5 that
    reserves and one for 3 that does not are sent as one message. *)
Definition demoQueue : list fundsReq := [demoReq 1 5 false true; demoReq 2 4 true true; demoReq 3 3 false false].


(** A request of the amount zero that does not reserve keeps the queue as it is although another
    request was granted, so the other request is granted again and reserves its amount twice. *)
Lemma granted_twice :
  let q := [demoReq 1 5 false true; demoReq 2 0 false false] in
  let s1 := (processQueue "me->you" EmptyString (fundsDemo 12 q)).2 in
  let s2 := (processQueue "me->you" EmptyString s1).2 in
  ((fun x => (req_id x.1.1, x.1.2)) <$> answers s2) = [(1, resChannel "ch"); (1, resChannel "ch")] /\
  match (ByChannelID "id" s2).1 with POk ci => AvailableAmount ci | _ => None end = Some 2.
Proof. by vm_compute. Qed.
