(* ===== verification/SchedRes.v ===== *)
(** * The sealing scheduler: tasks and resources

    storage/sealer/sealtasks/task.go, storage/sealer/storiface/{worker,resources}.go and
    storage/sealer/sched_resources.go: what a task needs, what a worker has, and the account of
    what is in use.  Floating-point numbers are IEEE 754 numbers of double precision.  The
    counters of tasks, which two accounts of a worker share through a pointer, are an argument of
    their own. *)

From stdpp Require Import gmap.
From Stdlib Require Import SpecFloat.
From S2P Require Import Prelude.

(** ** [float64] *)

Definition float64 := spec_float.
Definition float_of (z : Z) : float64 := binary_normalize 53 1024 z 0 false.
Definition float_zero : float64 := S754_zero false.
Definition float_one : float64 := Eval vm_compute in float_of 1.
Definition fadd : float64 -> float64 -> float64 := SFadd 53 1024.
Definition fsub : float64 -> float64 -> float64 := SFsub 53 1024.
Definition fdiv : float64 -> float64 -> float64 := SFdiv 53 1024.
Definition MaxFloat64 : float64 := S754_finite false 9007199254740991 971.

(** ** Types of tasks, sealtasks/task.go *)

Definition TaskType := string.
Definition TTDataCid : TaskType := "seal/v0/datacid".
Definition TTAddPiece : TaskType := "seal/v0/addpiece".
Definition TTPreCommit1 : TaskType := "seal/v0/precommit/1".
Definition TTPreCommit2 : TaskType := "seal/v0/precommit/2".
Definition TTCommit1 : TaskType := "seal/v0/commit/1".
Definition TTCommit2 : TaskType := "seal/v0/commit/2".
Definition TTFinalize : TaskType := "seal/v0/finalize".
Definition TTFinalizeUnsealed : TaskType := "seal/v0/finalizeunsealed".
Definition TTFetch : TaskType := "seal/v0/fetch".
Definition TTUnseal : TaskType := "seal/v0/unseal".
Definition TTReplicaUpdate : TaskType := "seal/v0/replicaupdate".
Definition TTProveReplicaUpdate1 : TaskType := "seal/v0/provereplicaupdate/1".
Definition TTProveReplicaUpdate2 : TaskType := "seal/v0/provereplicaupdate/2".
Definition TTRegenSectorKey : TaskType := "seal/v0/regensectorkey".
Definition TTFinalizeReplicaUpdate : TaskType := "seal/v0/finalize/replicaupdate".
Definition TTDownloadSector : TaskType := "seal/v0/download/sector".
Definition TTGenerateWindowPoSt : TaskType := "post/v0/windowproof".
Definition TTGenerateWinningPoSt : TaskType := "post/v0/winningproof".
Definition TTNoop : TaskType := EmptyString.

Definition order : gmap TaskType Z := list_to_map [
  (TTRegenSectorKey, 11); (TTDataCid, 10); (TTAddPiece, 9); (TTReplicaUpdate, 8); (TTProveReplicaUpdate2, 7); (TTProveReplicaUpdate1, 6);
  (TTPreCommit1, 5); (TTPreCommit2, 4); (TTCommit2, 3); (TTCommit1, 2); (TTUnseal, 1);
  (TTFetch, -1); (TTDownloadSector, -2); (TTFinalize, -3); (TTFinalizeUnsealed, -4); (TTGenerateWindowPoSt, -5); (TTGenerateWinningPoSt, -6)].

Definition orderOf (a : TaskType) : Z := default 0 (order !! a).

Definition MuchLess (a b : TaskType) : bool * bool := (Z.lxor (orderOf a) (orderOf b) <? 0, orderOf a <? orderOf b).

Definition task_Less (a b : TaskType) : bool := orderOf a <? orderOf b.

(** A type of tasks and a registered proof. *)
Notation SealTaskType := (TaskType * Z)%type.

(** ** What a task needs, storiface/resources.go *)

Record Resources := {
  MinMemory : Z;
  MaxMemory : Z;
  GPUUtilization : float64;
  MaxParallelism : Z;
  MaxParallelismGPU : Z;
  BaseMinMemory : Z;
  MaxConcurrent : Z;
}.

Definition ParallelNum : Z := 92.
Definition ParallelDenom : Z := 100.

Definition usesGPU (r : Resources) : bool := SFltb float_zero (GPUUtilization r).

Definition Threads (r : Resources) (wcpus gpus : Z) : Z :=
  let mp := if usesGPU r && (0 <? gpus) && negb (MaxParallelismGPU r =? 0) then MaxParallelismGPU r else MaxParallelism r in
  if mp =? -1 then
    let n := u64 (wcpus * ParallelNum) / ParallelDenom in
    if n =? 0 then wcpus else n
  else u64 mp.

(** The registered proofs of go-state-types. *)
Definition StackedDrg2KiBV1 : Z := 0.
Definition StackedDrg8MiBV1 : Z := 1.
Definition StackedDrg512MiBV1 : Z := 2.
Definition StackedDrg32GiBV1 : Z := 3.
Definition StackedDrg64GiBV1 : Z := 4.
Definition V1_1 (proof : Z) : Z := proof + 5.
Definition SyntheticPoRep (proof : Z) : Z := proof + 10.

Definition mkResources (maxMemory minMemory maxParallelism maxParallelismGPU : Z) (gpu : float64) (base : Z) : Resources :=
  {| MinMemory := minMemory; MaxMemory := maxMemory; GPUUtilization := gpu; MaxParallelism := maxParallelism; MaxParallelismGPU := maxParallelismGPU;
     BaseMinMemory := base; MaxConcurrent := 0 |}.

#[local] Notation "x ≪ y" := (Z.shiftl x y) (at level 35).

Definition tableAddPiece : gmap Z Resources := list_to_map [
  (StackedDrg64GiBV1, mkResources (8 ≪ 30) (8 ≪ 30) 1 0 float_zero (1 ≪ 30));
  (StackedDrg32GiBV1, mkResources (4 ≪ 30) (4 ≪ 30) 1 0 float_zero (1 ≪ 30));
  (StackedDrg512MiBV1, mkResources (1 ≪ 30) (1 ≪ 30) 1 0 float_zero (1 ≪ 30));
  (StackedDrg2KiBV1, mkResources (2 ≪ 10) (2 ≪ 10) 1 0 float_zero (2 ≪ 10));
  (StackedDrg8MiBV1, mkResources (8 ≪ 20) (8 ≪ 20) 1 0 float_zero (8 ≪ 20))].

Definition tablePreCommit1 : gmap Z Resources := list_to_map [
  (StackedDrg64GiBV1, mkResources (128 ≪ 30) (112 ≪ 30) 1 0 float_zero (10 ≪ 20));
  (StackedDrg32GiBV1, mkResources (64 ≪ 30) (56 ≪ 30) 1 0 float_zero (10 ≪ 20));
  (StackedDrg512MiBV1, mkResources (1 ≪ 30) (768 ≪ 20) 1 0 float_zero (1 ≪ 20));
  (StackedDrg2KiBV1, mkResources (2 ≪ 10) (2 ≪ 10) 1 0 float_zero (2 ≪ 10));
  (StackedDrg8MiBV1, mkResources (8 ≪ 20) (8 ≪ 20) 1 0 float_zero (8 ≪ 20))].

Definition tablePreCommit2 : gmap Z Resources := list_to_map [
  (StackedDrg64GiBV1, mkResources (30 ≪ 30) (30 ≪ 30) (-1) 6 float_one (1 ≪ 30));
  (StackedDrg32GiBV1, mkResources (15 ≪ 30) (15 ≪ 30) (-1) 6 float_one (1 ≪ 30));
  (StackedDrg512MiBV1, mkResources (3 ≪ 29) (1 ≪ 30) (-1) 0 float_zero (1 ≪ 30));
  (StackedDrg2KiBV1, mkResources (2 ≪ 10) (2 ≪ 10) (-1) 0 float_zero (2 ≪ 10));
  (StackedDrg8MiBV1, mkResources (8 ≪ 20) (8 ≪ 20) (-1) 0 float_zero (8 ≪ 20))].

Definition tableCommit1 : gmap Z Resources := list_to_map [
  (StackedDrg64GiBV1, mkResources (1 ≪ 30) (1 ≪ 30) 0 0 float_zero (1 ≪ 30));
  (StackedDrg32GiBV1, mkResources (1 ≪ 30) (1 ≪ 30) 0 0 float_zero (1 ≪ 30));
  (StackedDrg512MiBV1, mkResources (1 ≪ 30) (1 ≪ 30) 0 0 float_zero (1 ≪ 30));
  (StackedDrg2KiBV1, mkResources (2 ≪ 10) (2 ≪ 10) 0 0 float_zero (2 ≪ 10));
  (StackedDrg8MiBV1, mkResources (8 ≪ 20) (8 ≪ 20) 0 0 float_zero (8 ≪ 20))].

Definition tableCommit2 : gmap Z Resources := list_to_map [
  (StackedDrg64GiBV1, mkResources (190 ≪ 30) (60 ≪ 30) (-1) 6 float_one (64 ≪ 30));
  (StackedDrg32GiBV1, mkResources (150 ≪ 30) (30 ≪ 30) (-1) 6 float_one (32 ≪ 30));
  (StackedDrg512MiBV1, mkResources (3 ≪ 29) (1 ≪ 30) 1 0 float_one (10 ≪ 30));
  (StackedDrg2KiBV1, mkResources (2 ≪ 10) (2 ≪ 10) 1 0 float_one (2 ≪ 10));
  (StackedDrg8MiBV1, mkResources (8 ≪ 20) (8 ≪ 20) 1 0 float_one (8 ≪ 20))].

Definition tableFetch : gmap Z Resources := list_to_map [
  (StackedDrg64GiBV1, mkResources (1 ≪ 20) (1 ≪ 20) 0 0 float_zero (0));
  (StackedDrg32GiBV1, mkResources (1 ≪ 20) (1 ≪ 20) 0 0 float_zero (0));
  (StackedDrg512MiBV1, mkResources (1 ≪ 20) (1 ≪ 20) 0 0 float_zero (0));
  (StackedDrg2KiBV1, mkResources (1 ≪ 20) (1 ≪ 20) 0 0 float_zero (0));
  (StackedDrg8MiBV1, mkResources (1 ≪ 20) (1 ≪ 20) 0 0 float_zero (0))].

Definition tableReplicaUpdate : gmap Z Resources := list_to_map [
  (StackedDrg64GiBV1, mkResources (8 ≪ 30) (8 ≪ 30) 1 6 float_one (1 ≪ 30));
  (StackedDrg32GiBV1, mkResources (4 ≪ 30) (4 ≪ 30) 1 6 float_one (1 ≪ 30));
  (StackedDrg512MiBV1, mkResources (1 ≪ 30) (1 ≪ 30) 1 0 float_one (1 ≪ 30));
  (StackedDrg2KiBV1, mkResources (2 ≪ 10) (2 ≪ 10) 1 0 float_one (2 ≪ 10));
  (StackedDrg8MiBV1, mkResources (8 ≪ 20) (8 ≪ 20) 1 0 float_one (8 ≪ 20))].

Definition tableProveReplicaUpdate1 : gmap Z Resources := list_to_map [
  (StackedDrg64GiBV1, mkResources (1 ≪ 30) (1 ≪ 30) 0 0 float_zero (1 ≪ 30));
  (StackedDrg32GiBV1, mkResources (1 ≪ 30) (1 ≪ 30) 0 0 float_zero (1 ≪ 30));
  (StackedDrg512MiBV1, mkResources (1 ≪ 30) (1 ≪ 30) 0 0 float_zero (1 ≪ 30));
  (StackedDrg2KiBV1, mkResources (2 ≪ 10) (2 ≪ 10) 0 0 float_zero (2 ≪ 10));
  (StackedDrg8MiBV1, mkResources (8 ≪ 20) (8 ≪ 20) 0 0 float_zero (8 ≪ 20))].

Definition tableProveReplicaUpdate2 : gmap Z Resources := list_to_map [
  (StackedDrg64GiBV1, mkResources (190 ≪ 30) (60 ≪ 30) (-1) 6 float_one (64 ≪ 30));
  (StackedDrg32GiBV1, mkResources (150 ≪ 30) (30 ≪ 30) (-1) 6 float_one (32 ≪ 30));
  (StackedDrg512MiBV1, mkResources (3 ≪ 29) (1 ≪ 30) 1 0 float_one (10 ≪ 30));
  (StackedDrg2KiBV1, mkResources (2 ≪ 10) (2 ≪ 10) 1 0 float_one (2 ≪ 10));
  (StackedDrg8MiBV1, mkResources (8 ≪ 20) (8 ≪ 20) 1 0 float_one (8 ≪ 20))].

Definition tableGenerateWindowPoSt : gmap Z Resources := list_to_map [
  (StackedDrg64GiBV1, mkResources (120 ≪ 30) (60 ≪ 30) (-1) 6 float_one (64 ≪ 30));
  (StackedDrg32GiBV1, mkResources (96 ≪ 30) (30 ≪ 30) (-1) 6 float_one (32 ≪ 30));
  (StackedDrg512MiBV1, mkResources (3 ≪ 29) (1 ≪ 30) 1 0 float_one (10 ≪ 30));
  (StackedDrg2KiBV1, mkResources (2 ≪ 10) (2 ≪ 10) 1 0 float_one (2 ≪ 10));
  (StackedDrg8MiBV1, mkResources (8 ≪ 20) (8 ≪ 20) 1 0 float_one (8 ≪ 20))].

Definition tableGenerateWinningPoSt : gmap Z Resources := list_to_map [
  (StackedDrg64GiBV1, mkResources (1 ≪ 30) (1 ≪ 30) (-1) 6 float_one (64 ≪ 30));
  (StackedDrg32GiBV1, mkResources (1 ≪ 30) (1 ≪ 30) (-1) 6 float_one (32 ≪ 30));
  (StackedDrg512MiBV1, mkResources (2 ≪ 10) (2 ≪ 10) 1 0 float_one (10 ≪ 30));
  (StackedDrg2KiBV1, mkResources (2 ≪ 10) (2 ≪ 10) 1 0 float_one (2 ≪ 10));
  (StackedDrg8MiBV1, mkResources (8 ≪ 20) (8 ≪ 20) 1 0 float_one (8 ≪ 20))].

(** The zero value, for what is not in the table. *)
Definition noResources : Resources := mkResources 0 0 0 0 float_zero 0.

(** [m[proof + d] = m[proof]] *)
Definition sameAs (to from : Z) (t : gmap Z Resources) : gmap Z Resources := <[to := default noResources (t !! from)]> t.

(** The loop at the end of [init]. *)
Definition withVersions (t : gmap Z Resources) : gmap Z Resources :=
  foldl (fun t p => sameAs (SyntheticPoRep p) p (sameAs (V1_1 p) p t)) t
    [StackedDrg2KiBV1; StackedDrg8MiBV1; StackedDrg512MiBV1; StackedDrg32GiBV1; StackedDrg64GiBV1].

Definition ResourceTable : gmap TaskType (gmap Z Resources) :=
  withVersions <$> list_to_map [
    (TTAddPiece, tableAddPiece); (TTPreCommit1, tablePreCommit1); (TTPreCommit2, tablePreCommit2); (TTCommit1, tableCommit1); (TTCommit2, tableCommit2);
    (TTFetch, tableFetch); (TTReplicaUpdate, tableReplicaUpdate); (TTProveReplicaUpdate1, tableProveReplicaUpdate1);
    (TTProveReplicaUpdate2, tableProveReplicaUpdate2); (TTGenerateWindowPoSt, tableGenerateWindowPoSt);
    (TTGenerateWinningPoSt, tableGenerateWinningPoSt);
    (TTUnseal, tablePreCommit1); (TTRegenSectorKey, tableReplicaUpdate);
    (TTDataCid, (fun _ => default noResources (tableAddPiece !! StackedDrg32GiBV1)) <$> tableAddPiece)].

(** ** What a worker has, storiface/worker.go *)

Record WorkerResources := {
  MemPhysical : Z;
  MemUsed : Z;
  MemSwap : Z;
  MemSwapUsed : Z;
  CPUs : Z;
  GPUs : list string;
  CustomResources : option (gmap TaskType (gmap Z Resources)); (* [Resources] *)
}.

Record WorkerInfo := {
  Hostname : string;
  IgnoreResources : bool;
  wi_Resources : WorkerResources;
}.

Definition ResourceSpec (wr : WorkerResources) (spt : Z) (tt : TaskType) : Resources :=
  let res := default noResources (ResourceTable !! tt ≫= (.!! spt)) in
  match CustomResources wr with
  | Some table =>
      match table !! tt with
      | None => res
      | Some tr => match tr !! spt with Some r => r | None => res end
      end
  | None => res
  end.

Definition set_MaxConcurrent (n : Z) (r : Resources) : Resources :=
  {| MinMemory := MinMemory r; MaxMemory := MaxMemory r; GPUUtilization := GPUUtilization r; MaxParallelism := MaxParallelism r;
     MaxParallelismGPU := MaxParallelismGPU r; BaseMinMemory := BaseMinMemory r; MaxConcurrent := n |}.

Definition PrepResourceSpec (wr : WorkerResources) (spt : Z) (tt prepTT : TaskType) : Resources :=
  let res := ResourceSpec wr spt tt in
  if negb (bool_decide (prepTT = tt)) && negb (bool_decide (prepTT = TTNoop)) then set_MaxConcurrent (MaxConcurrent (ResourceSpec wr spt prepTT)) res
  else res.

(** ** What is in use, sched_resources.go *)

Definition UUID := Z.
Definition noUUID : UUID := 0.

Notation taskCounter := (gmap SealTaskType (gmap UUID Z)).

Definition tc_Get (tt : SealTaskType) (tc : taskCounter) : gmap UUID Z := default ∅ (tc !! tt).

Definition tc_Add (tt : SealTaskType) (schedID : UUID) (tc : taskCounter) : taskCounter :=
  let m := tc_Get tt tc in <[tt := <[schedID := default 0 (m !! schedID) + 1]> m]> tc.

Definition tc_Free (tt : SealTaskType) (schedID : UUID) (tc : taskCounter) : taskCounter :=
  let m := tc_Get tt tc in
  <[tt := if default 0 (m !! schedID) <=? 1 then delete schedID m else <[schedID := default 0 (m !! schedID) - 1]> m]> tc.

Definition tc_Sum (tc : taskCounter) : Z := map_fold (fun _ v sum => sum + Z.of_nat (size v)) 0 tc.

Record ActiveResources := {
  memUsedMin : Z;
  memUsedMax : Z;
  gpuUsed : float64;
  cpuUse : Z;
  waiting : Z;
}.

Definition NewActiveResources : ActiveResources := {| memUsedMin := 0; memUsedMax := 0; gpuUsed := float_zero; cpuUse := 0; waiting := 0 |}.

Definition gpus (wr : WorkerResources) : Z := Z.of_nat (length (GPUs wr)).

Definition utilization (wr : WorkerResources) (a : ActiveResources) : float64 :=
  let fmax x max := if SFltb max x then x else max in
  let max := fdiv (float_of (cpuUse a)) (float_of (CPUs wr)) in
  let memUsed := if memUsedMin a <? MemUsed wr then MemUsed wr else memUsedMin a in
  let max := fmax (fdiv (float_of memUsed) (float_of (MemPhysical wr))) max in
  let vmemUsed := if memUsedMax a <? u64 (MemUsed wr + MemSwapUsed wr) then u64 (MemUsed wr + MemSwapUsed wr) else memUsedMax a in
  let max := fmax (fdiv (float_of vmemUsed) (float_of (u64 (MemPhysical wr + MemSwap wr)))) max in
  if 0 <? gpus wr then fmax (fdiv (gpuUsed a) (float_of (gpus wr))) max else max.

Definition addUse (wr : WorkerResources) (r : Resources) (a : ActiveResources) : ActiveResources := {|
  memUsedMin := u64 (memUsedMin a + MinMemory r);
  memUsedMax := u64 (memUsedMax a + MaxMemory r);
  gpuUsed := if usesGPU r then fadd (gpuUsed a) (GPUUtilization r) else gpuUsed a;
  cpuUse := u64 (cpuUse a + Threads r (CPUs wr) (gpus wr));
  waiting := waiting a |}.

(** [ActiveResources.Add]: the account, the counters and the difference of the utilization. *)
Definition ar_Add (schedID : UUID) (tt : SealTaskType) (wr : WorkerResources) (r : Resources) (a : ActiveResources) (tc : taskCounter)
    : ActiveResources * taskCounter * float64 :=
  let a' := addUse wr r a in
  (a', tc_Add tt schedID tc, fsub (utilization wr a') (utilization wr a)).

Definition ar_Free (schedID : UUID) (tt : SealTaskType) (wr : WorkerResources) (r : Resources) (a : ActiveResources) (tc : taskCounter)
    : ActiveResources * taskCounter :=
  ({| memUsedMin := u64 (memUsedMin a - MinMemory r);
      memUsedMax := u64 (memUsedMax a - MaxMemory r);
      gpuUsed := if usesGPU r then fsub (gpuUsed a) (GPUUtilization r) else gpuUsed a;
      cpuUse := u64 (cpuUse a - Threads r (CPUs wr) (gpus wr));
      waiting := waiting a |}, tc_Free tt schedID tc).

Definition CanHandleRequest (schedID : UUID) (tt : SealTaskType) (needRes : Resources) (info : WorkerInfo) (a : ActiveResources) (tc : taskCounter) : bool :=
  let tasks := tc_Get tt tc in
  if (0 <? MaxConcurrent needRes) && (MaxConcurrent needRes <=? Z.of_nat (size tasks))
     && ((schedID =? noUUID) || (default 0 (tasks !! schedID) =? 0)) then false
  else if IgnoreResources info then true
  else
    let res := wi_Resources info in
    let memNeeded := u64 (MinMemory needRes + BaseMinMemory needRes) in
    let memAvail := u64 (MemPhysical res - memUsedMin a) in
    if memAvail <? memNeeded then false
    else
      let vmemNeeded := u64 (MaxMemory needRes + BaseMinMemory needRes) in
      let workerMemoryReserved := u64 (MemUsed res + MemSwapUsed res) in
      let vmemUsed := if memUsedMax a <? workerMemoryReserved then workerMemoryReserved else memUsedMax a in
      let vmemAvail := u64 (u64 (MemPhysical res + MemSwap res) - vmemUsed) in
      if vmemAvail <? vmemNeeded then false
      else if CPUs res <? u64 (cpuUse a + Threads needRes (CPUs res) (gpus res)) then false
      else if (0 <? gpus res) && usesGPU needRes && SFltb (float_of (gpus res)) (fadd (gpuUsed a) (GPUUtilization needRes)) then false
      else true.

Definition taskCount (tt : option SealTaskType) (tc : taskCounter) : Z :=
  match tt with None => tc_Sum tc | Some stt => Z.of_nat (size (tc_Get stt tc)) end.
