(* ===== verification/Sched.v ===== *)
(** * The sealing scheduler

    storage/sealer/{sched,request_queue,sched_worker,sched_assigner_common,sched_assigner_darts,
    sched_assigner_spread,sched_assigner_spread_tasks,sched_assigner_utilization}.go and the
    methods of worker handles in sched_resources.go.

    Requests for tasks are queued, assigned to windows of workers, moved to the workers through
    channels and run there.  The state [Sys] has the scheduler, the handles of all workers there
    were (a pointer to one is its number), the channels between them and the tasks.  A step is a
    turn of the scheduler's loop, a step of the goroutine of a worker between two points where it
    waits, or a step of the goroutine of a task; runs interleave them in any order.  Answers of
    workers, selectors and random numbers are given with a step. *)

From stdpp Require Import gmap.
From Stdlib Require Import SpecFloat.
From S2P Require Import Prelude SchedRes.

Definition WorkerID := UUID.

(** ** Requests, sched.go and request_queue.go *)

Record WorkerRequest := {
  SectorNumber : Z; (* [Sector.ID.Number] *)
  ProofType : Z; (* [Sector.ProofType] *)
  req_TaskType : TaskType;
  Priority : Z;
  SchedId : UUID;
  PrepType : TaskType; (* [prepare.PrepType] *)
}.

#[global] Instance WorkerRequest_dec : EqDecision WorkerRequest.
Proof. solve_decision. Defined.

Definition SealTask (r : WorkerRequest) : SealTaskType := (req_TaskType r, ProofType r).
Definition PrepSealTask (r : WorkerRequest) : SealTaskType := (PrepType r, ProofType r).

Definition Less (a b : WorkerRequest) : bool :=
  let '(oneMuchLess, muchLess) := MuchLess (req_TaskType a) (req_TaskType b) in
  if oneMuchLess then muchLess
  else if negb (Priority a =? Priority b) then Priority b <? Priority a
  else if negb (bool_decide (req_TaskType a = req_TaskType b)) then task_Less (req_TaskType a) (req_TaskType b)
  else SectorNumber a <? SectorNumber b.

(** [sort.Sort] with [Less], which need not be stable. *)
Class GoSort := { sortRequests : list WorkerRequest -> list WorkerRequest }.

Record SchedWindow := {
  Allocated : ActiveResources;
  w_counters : taskCounter; (* [Allocated.taskCounters] *)
  Todo : list WorkerRequest;
}.

Definition setWaiting (n : Z) (a : ActiveResources) : ActiveResources :=
  {| memUsedMin := memUsedMin a; memUsedMax := memUsedMax a; gpuUsed := gpuUsed a; cpuUse := cpuUse a; waiting := n |}.

Definition newWindow : SchedWindow := {| Allocated := NewActiveResources; w_counters := ∅; Todo := [] |}.

(** [Done] is the channel of the worker's goroutine. *)
Record SchedWindowRequest := {
  swr_Worker : WorkerID;
  Done : nat;
}.

(** ** Workers *)

(** Where the goroutine of a task is: in [prepare.Action], in [cond.Wait], woken up from it, in
    the work with the resources taken, and after its response. *)
Inductive Phase := Preparing | Blocked | Woken | Working | Responded.

#[global] Instance Phase_dec : EqDecision Phase.
Proof. solve_decision. Defined.

(** What follows when a worker is disabled. *)
Inductive After := ToRetry | ToSession | ToExit.

(** Where the goroutine of a worker is: at the top of the loop of [handleWorker], before
    [checkSession], in [disable] before the request is taken, before it is done and after it, in
    the select of [checkSession], before [waitForUpdates], before the windows are processed, and
    at its end. *)
Inductive Pc := AtTop | AtSession | AtDisable (k : After) | AtDisabling (k : After) | AtDisabled (k : After) | AtRetry | AtUpdates | AtProcess | Exited.

Record WorkerHandle := {
  wid : WorkerID;
  Info : WorkerInfo;
  preparing : ActiveResources;
  active : ActiveResources;
  counters : taskCounter; (* of [preparing] and [active] *)
  activeWindows : list SchedWindow;
  Enabled : bool;
  windowsRequested : Z;
  scheduledWindows : list SchedWindow; (* the channel *)
  taskDone : bool; (* the channel, of size one *)
  pc : Pc;
  tasks : list (WorkerRequest * Phase);
}.

Definition set_preparing (a : ActiveResources) (tc : taskCounter) (h : WorkerHandle) : WorkerHandle := {|
  wid := wid h; Info := Info h; preparing := a; active := active h; counters := tc; activeWindows := activeWindows h; Enabled := Enabled h;
  windowsRequested := windowsRequested h; scheduledWindows := scheduledWindows h; taskDone := taskDone h; pc := pc h; tasks := tasks h |}.
Definition set_active (a : ActiveResources) (tc : taskCounter) (h : WorkerHandle) : WorkerHandle := {|
  wid := wid h; Info := Info h; preparing := preparing h; active := a; counters := tc; activeWindows := activeWindows h; Enabled := Enabled h;
  windowsRequested := windowsRequested h; scheduledWindows := scheduledWindows h; taskDone := taskDone h; pc := pc h; tasks := tasks h |}.
Definition set_windows (ws : list SchedWindow) (n : Z) (h : WorkerHandle) : WorkerHandle := {|
  wid := wid h; Info := Info h; preparing := preparing h; active := active h; counters := counters h; activeWindows := ws; Enabled := Enabled h;
  windowsRequested := n; scheduledWindows := scheduledWindows h; taskDone := taskDone h; pc := pc h; tasks := tasks h |}.
Definition set_Enabled (b : bool) (h : WorkerHandle) : WorkerHandle := {|
  wid := wid h; Info := Info h; preparing := preparing h; active := active h; counters := counters h; activeWindows := activeWindows h; Enabled := b;
  windowsRequested := windowsRequested h; scheduledWindows := scheduledWindows h; taskDone := taskDone h; pc := pc h; tasks := tasks h |}.
Definition set_scheduled (ws : list SchedWindow) (h : WorkerHandle) : WorkerHandle := {|
  wid := wid h; Info := Info h; preparing := preparing h; active := active h; counters := counters h; activeWindows := activeWindows h; Enabled := Enabled h;
  windowsRequested := windowsRequested h; scheduledWindows := ws; taskDone := taskDone h; pc := pc h; tasks := tasks h |}.
Definition set_taskDone (b : bool) (h : WorkerHandle) : WorkerHandle := {|
  wid := wid h; Info := Info h; preparing := preparing h; active := active h; counters := counters h; activeWindows := activeWindows h; Enabled := Enabled h;
  windowsRequested := windowsRequested h; scheduledWindows := scheduledWindows h; taskDone := b; pc := pc h; tasks := tasks h |}.
Definition set_pc (p : Pc) (h : WorkerHandle) : WorkerHandle := {|
  wid := wid h; Info := Info h; preparing := preparing h; active := active h; counters := counters h; activeWindows := activeWindows h; Enabled := Enabled h;
  windowsRequested := windowsRequested h; scheduledWindows := scheduledWindows h; taskDone := taskDone h; pc := p; tasks := tasks h |}.
Definition set_tasks (ts : list (WorkerRequest * Phase)) (h : WorkerHandle) : WorkerHandle := {|
  wid := wid h; Info := Info h; preparing := preparing h; active := active h; counters := counters h; activeWindows := activeWindows h; Enabled := Enabled h;
  windowsRequested := windowsRequested h; scheduledWindows := scheduledWindows h; taskDone := taskDone h; pc := pc h; tasks := ts |}.

Definition workerRes (h : WorkerHandle) : WorkerResources := wi_Resources (Info h).
Definition needRes (h : WorkerHandle) (r : WorkerRequest) : Resources := ResourceSpec (workerRes h) (ProofType r) (req_TaskType r).
Definition needResPrep (h : WorkerHandle) (r : WorkerRequest) : Resources := PrepResourceSpec (workerRes h) (ProofType r) (req_TaskType r) (PrepType r).

(** sched_resources.go *)
Definition Utilization (wh : WorkerHandle) : float64 :=
  let u := fadd (utilization (workerRes wh) (active wh)) (utilization (workerRes wh) (preparing wh)) in
  foldl (fun u window => fadd u (utilization (workerRes wh) (Allocated window))) u (activeWindows wh).

Definition TaskCount (t : option SealTaskType) (wh : WorkerHandle) : Z :=
  let u := taskCount t (counters wh) + taskCount t (counters wh) in
  foldl (fun u window => u + taskCount t (w_counters window)) u (activeWindows wh).

Definition TaskCounts (wh : WorkerHandle) : Z := TaskCount None wh.

Definition newWorkerHandle (w : WorkerID) (info : WorkerInfo) : WorkerHandle := {|
  wid := w; Info := info; preparing := NewActiveResources; active := NewActiveResources; counters := ∅; activeWindows := []; Enabled := true;
  windowsRequested := 0; scheduledWindows := []; taskDone := false; pc := AtTop; tasks := [] |}.

Definition SchedWindows : Z := 2.
Definition chanSize : Z := 20.

(** The answers that were sent to the callers are in [answered], and the requests of windows that
    did not fit into the channel of a worker are in [dropped]. *)
Record Sys := {
  handles : gmap nat WorkerHandle;
  Workers : gmap WorkerID nat;
  SchedQueue : list WorkerRequest;
  OpenWindows : list SchedWindowRequest;
  windowRequests : list SchedWindowRequest; (* the channel *)
  workerChange : Z; (* the channel *)
  initialised : bool;
  answered : list (WorkerRequest * option string);
  dropped : list WorkerRequest;
}.

Definition set_handles (hs : gmap nat WorkerHandle) (s : Sys) : Sys := {|
  handles := hs; Workers := Workers s; SchedQueue := SchedQueue s; OpenWindows := OpenWindows s; windowRequests := windowRequests s;
  workerChange := workerChange s; initialised := initialised s; answered := answered s; dropped := dropped s |}.
Definition set_Workers (ws : gmap WorkerID nat) (s : Sys) : Sys := {|
  handles := handles s; Workers := ws; SchedQueue := SchedQueue s; OpenWindows := OpenWindows s; windowRequests := windowRequests s;
  workerChange := workerChange s; initialised := initialised s; answered := answered s; dropped := dropped s |}.
Definition set_SchedQueue (q : list WorkerRequest) (s : Sys) : Sys := {|
  handles := handles s; Workers := Workers s; SchedQueue := q; OpenWindows := OpenWindows s; windowRequests := windowRequests s;
  workerChange := workerChange s; initialised := initialised s; answered := answered s; dropped := dropped s |}.
Definition set_OpenWindows (ws : list SchedWindowRequest) (s : Sys) : Sys := {|
  handles := handles s; Workers := Workers s; SchedQueue := SchedQueue s; OpenWindows := ws; windowRequests := windowRequests s;
  workerChange := workerChange s; initialised := initialised s; answered := answered s; dropped := dropped s |}.
Definition set_windowRequests (ws : list SchedWindowRequest) (s : Sys) : Sys := {|
  handles := handles s; Workers := Workers s; SchedQueue := SchedQueue s; OpenWindows := OpenWindows s; windowRequests := ws;
  workerChange := workerChange s; initialised := initialised s; answered := answered s; dropped := dropped s |}.
Definition set_workerChange (n : Z) (s : Sys) : Sys := {|
  handles := handles s; Workers := Workers s; SchedQueue := SchedQueue s; OpenWindows := OpenWindows s; windowRequests := windowRequests s;
  workerChange := n; initialised := initialised s; answered := answered s; dropped := dropped s |}.
Definition set_initialised (s : Sys) : Sys := {|
  handles := handles s; Workers := Workers s; SchedQueue := SchedQueue s; OpenWindows := OpenWindows s; windowRequests := windowRequests s;
  workerChange := workerChange s; initialised := true; answered := answered s; dropped := dropped s |}.
Definition answer (r : WorkerRequest) (err : option string) (s : Sys) : Sys := {|
  handles := handles s; Workers := Workers s; SchedQueue := SchedQueue s; OpenWindows := OpenWindows s; windowRequests := windowRequests s;
  workerChange := workerChange s; initialised := initialised s; answered := answered s ++ [(r, err)]; dropped := dropped s |}.
Definition drop_window (w : SchedWindow) (s : Sys) : Sys := {|
  handles := handles s; Workers := Workers s; SchedQueue := SchedQueue s; OpenWindows := OpenWindows s; windowRequests := windowRequests s;
  workerChange := workerChange s; initialised := initialised s; answered := answered s; dropped := dropped s ++ Todo w |}.

Definition newSys : Sys := {| handles := ∅; Workers := ∅; SchedQueue := []; OpenWindows := []; windowRequests := []; workerChange := 0; initialised := false;
  answered := []; dropped := [] |}.

Definition set_handle (n : nat) (h : WorkerHandle) (s : Sys) : Sys := set_handles (<[n := h]> (handles s)) s.

(** [sh.Workers[id]] *)
Definition workerOf (s : Sys) (id : WorkerID) : option WorkerHandle := Workers s !! id ≫= (handles s !!.).

Section sched.
Context `{GoSort}.

(** ** The queue, request_queue.go *)

Definition queue_Push (q : list WorkerRequest) (x : WorkerRequest) : list WorkerRequest := sortRequests (q ++ [x]).

Definition queue_Remove (i : nat) (q : list WorkerRequest) : outcome (list WorkerRequest) :=
  match q !! i, last q with
  | Some _, Some x => Ret (sortRequests (take (length q - 1) (<[i := x]> q)))
  | _, _ => Panic
  end.

(** ** Assigning tasks to windows, sched_assigner_common.go *)

(** What a pass over the queue is answered: by the selector of a request about a window, by its
    comparison of two workers, and by the random numbers of [rand.Shuffle] and [rand.Intn]. *)
Record Answers := {
  sel_Ok : WorkerRequest -> nat -> outcome (bool * bool);
  sel_Cmp : WorkerRequest -> WorkerID -> WorkerID -> bool;
  rnd_Shuffle : nat -> nat -> nat;
  rnd_Intn : nat -> nat;
}.

(** The windows that a task can be put into, preferred ones only if there are any. *)
Fixpoint acceptable (s : Sys) (ans : Answers) (task : WorkerRequest) (wnd : nat) (reqs : list SchedWindowRequest) (havePreferred : bool) (acc : list nat) : list nat :=
  match reqs with
  | [] => acc
  | windowRequest :: reqs =>
      let next := acceptable s ans task (S wnd) reqs in
      match workerOf s (swr_Worker windowRequest) with
      | None => next havePreferred acc
      | Some worker =>
          if negb (Enabled worker) then next havePreferred acc
          else if negb (CanHandleRequest (SchedId task) (SealTask task) (needRes worker task) (Info worker) NewActiveResources ∅) then next havePreferred acc
          else
            match sel_Ok ans task wnd with
            | Ret (true, preferred) =>
                if havePreferred && negb preferred then next havePreferred acc
                else if preferred && negb havePreferred then next true [wnd]
                else next havePreferred (acc ++ [wnd])
            | _ => next havePreferred acc
            end
      end
  end.

Definition swap (i j : nat) (l : list nat) : list nat :=
  match l !! i, l !! j with Some x, Some y => <[j := x]> (<[i := y]> l) | _, _ => l end.

(** [rand.Shuffle] *)
Fixpoint shuffle (rnd : nat -> nat) (i : nat) (l : list nat) : list nat :=
  match i with
  | O => l
  | S i' => shuffle rnd i' (swap i (rnd i mod S i)%nat l)
  end.

(** [sort.SliceStable]: [x] goes to the left past what it is less than. *)
Fixpoint insertStable (less : nat -> nat -> bool) (x : nat) (sorted : list nat) : list nat :=
  match sorted with
  | y :: rest => if less x y then y :: insertStable less x rest else x :: sorted
  | [] => [x]
  end.

Definition sortStable (less : nat -> nat -> bool) (l : list nat) : list nat :=
  reverse (foldl (fun sorted x => insertStable less x sorted) [] l).

Definition windowLess (s : Sys) (ans : Answers) (task : WorkerRequest) (i j : nat) : bool :=
  match OpenWindows s !! i, OpenWindows s !! j with
  | Some wi, Some wj => if swr_Worker wi =? swr_Worker wj then (i <? j)%nat else sel_Cmp ans task (swr_Worker wi) (swr_Worker wj)
  | _, _ => false
  end.

Definition acceptableWindows (s : Sys) (ans : Answers) (sqi : nat) (task : WorkerRequest) : list nat :=
  let acc := acceptable s ans task 0 (OpenWindows s) false [] in
  sortStable (windowLess s ans task) (shuffle (rnd_Shuffle ans sqi) (length acc - 1) acc).

(** The worker of a window, if the window has room for the task. *)
Definition tryWindow (s : Sys) (windows : list SchedWindow) (task : WorkerRequest) (wnd : nat) : outcome (option (WorkerID * WorkerHandle)) :=
  match OpenWindows s !! wnd, windows !! wnd with
  | Some req, Some window =>
      match workerOf s (swr_Worker req) with
      | None => Panic
      | Some w =>
          Ret (if CanHandleRequest (SchedId task) (SealTask task) (needRes w task) (Info w) (Allocated window) (w_counters window)
               then Some (swr_Worker req, w) else None)
      end
  | _, _ => Panic
  end.

(** The task is put into the window. *)
Definition allocate (w : WorkerHandle) (task : WorkerRequest) (window : SchedWindow) : SchedWindow * float64 :=
  let '(a, tc, diff) := ar_Add (SchedId task) (SealTask task) (workerRes w) (needRes w task) (Allocated window) (w_counters window) in
  ({| Allocated := a; w_counters := tc; Todo := Todo window ++ [task] |}, diff).

(** The loops of the assigners have the same shape: for each task [choose] looks for a window
    among the acceptable ones, and [bump] counts the task for its worker.  The result has the
    windows and the indexes of the tasks that got one. *)
Fixpoint assignTasks {St} (choose : St -> nat -> WorkerRequest -> list nat -> list SchedWindow -> outcome (St * option nat))
    (bump : St -> WorkerID -> WorkerRequest -> float64 -> St) (s : Sys) (sqi : nat) (queue : list (WorkerRequest * list nat)) (windows : list SchedWindow)
    (rmQueue : list nat) (st : St) : outcome (list SchedWindow * list nat) :=
  match queue with
  | [] => Ret (windows, rmQueue)
  | (task, wnds) :: queue =>
      '(st, selectedWindow) ← choose st sqi task wnds windows;
      match selectedWindow with
      | None => assignTasks choose bump s (S sqi) queue windows rmQueue st
      | Some wnd =>
          match OpenWindows s !! wnd, windows !! wnd with
          | Some req, Some window =>
              match workerOf s (swr_Worker req) with
              | None => Panic
              | Some w =>
                  let '(window, diff) := allocate w task window in
                  assignTasks choose bump s (S sqi) queue (<[wnd := window]> windows) (rmQueue ++ [sqi]) (bump st (swr_Worker req) task diff)
              end
          | _, _ => Panic
          end
      end
  end.

(** [for i := len(rmQueue) - 1; i >= 0; i--] *)
Fixpoint removeAll (rmQueue : list nat) (q : list WorkerRequest) : outcome (list WorkerRequest) :=
  match rmQueue with
  | [] => Ret q
  | i :: rmQueue => q ← removeAll rmQueue q; queue_Remove i q
  end.

Definition MaxInt : Z := 9223372036854775807.

(** sched_assigner_spread.go and sched_assigner_spread_tasks.go: the worker with the fewest tasks. *)
Fixpoint fewestTasks `{Countable K} (key : WorkerID -> K) (count : WorkerHandle -> Z) (queued : bool) (s : Sys) (task : WorkerRequest) (windows : list SchedWindow)
    (wnds : list nat) (workerAssigned : gmap K Z) (best : option nat) (bestAssigned : Z) : outcome (gmap K Z * option nat) :=
  match wnds with
  | [] => Ret (workerAssigned, best)
  | wnd :: wnds =>
      r ← tryWindow s windows task wnd;
      match r with
      | None => fewestTasks key count queued s task windows wnds workerAssigned best bestAssigned
      | Some (wid, w) =>
          let '(wu, workerAssigned) :=
            match workerAssigned !! key wid with
            | Some wu => (wu, workerAssigned)
            | None => if queued then (count w, <[key wid := count w]> workerAssigned) else (0, workerAssigned)
            end in
          if bestAssigned <=? wu then fewestTasks key count queued s task windows wnds workerAssigned best bestAssigned
          else fewestTasks key count queued s task windows wnds workerAssigned (Some wnd) wu
      end
  end.

Definition countTask `{Countable K} (k : K) (m : gmap K Z) : gmap K Z := <[k := default 0 (m !! k) + 1]> m.

Definition SpreadWS (queued : bool) (s : Sys) (queue : list (WorkerRequest * list nat)) (windows : list SchedWindow) : outcome (list SchedWindow * list nat) :=
  assignTasks (fun (workerAssigned : gmap WorkerID Z) _ task wnds windows => fewestTasks id TaskCounts queued s task windows wnds workerAssigned None MaxInt)
    (fun m wid _ _ => countTask wid m) s 0 queue windows [] ∅.

Definition SpreadTasksWS (queued : bool) (s : Sys) (queue : list (WorkerRequest * list nat)) (windows : list SchedWindow) : outcome (list SchedWindow * list nat) :=
  assignTasks (fun (workerAssigned : gmap (WorkerID * TaskType) Z) _ task wnds windows =>
      fewestTasks (fun wid => (wid, req_TaskType task)) (TaskCount (Some (SealTask task))) queued s task windows wnds workerAssigned None MaxInt)
    (fun m wid task _ => countTask (wid, req_TaskType task) m) s 0 queue windows [] ∅.

(** sched_assigner_utilization.go: the worker that is used least, up to the first one that is not
    better. *)
Fixpoint lowestUtilization (s : Sys) (task : WorkerRequest) (windows : list SchedWindow) (wnds : list nat) (workerUtil : gmap WorkerID float64) (best : option nat)
    (bestUtilization : float64) : outcome (gmap WorkerID float64 * option nat) :=
  match wnds with
  | [] => Ret (workerUtil, best)
  | wnd :: wnds =>
      r ← tryWindow s windows task wnd;
      match r with
      | None => lowestUtilization s task windows wnds workerUtil best bestUtilization
      | Some (wid, w) =>
          let '(wu, workerUtil) :=
            match workerUtil !! wid with
            | Some wu => (wu, workerUtil)
            | None => (Utilization w, <[wid := Utilization w]> workerUtil)
            end in
          if SFleb bestUtilization wu then Ret (workerUtil, best)
          else lowestUtilization s task windows wnds workerUtil (Some wnd) wu
      end
  end.

Definition LowestUtilizationWS (s : Sys) (queue : list (WorkerRequest * list nat)) (windows : list SchedWindow) : outcome (list SchedWindow * list nat) :=
  assignTasks (fun (workerUtil : gmap WorkerID float64) _ task wnds windows => lowestUtilization s task windows wnds workerUtil None MaxFloat64)
    (fun m wid _ diff => <[wid := fadd (default float_zero (m !! wid)) diff]> m) s 0 queue windows [] ∅.

(** sched_assigner_darts.go: any window with room. *)
Fixpoint roomyWindows (s : Sys) (task : WorkerRequest) (windows : list SchedWindow) (wnds : list nat) : outcome (list nat) :=
  match wnds with
  | [] => Ret []
  | wnd :: wnds =>
      r ← tryWindow s windows task wnd;
      choices ← roomyWindows s task windows wnds;
      Ret (match r with None => choices | Some _ => wnd :: choices end)
  end.

Definition RandomWS (ans : Answers) (s : Sys) (queue : list (WorkerRequest * list nat)) (windows : list SchedWindow) : outcome (list SchedWindow * list nat) :=
  assignTasks (fun (_ : unit) sqi task wnds windows =>
      choices ← roomyWindows s task windows wnds;
      Ret (tt, choices !! (rnd_Intn ans sqi mod length choices)%nat))
    (fun _ _ _ _ => tt) s 0 queue windows [] tt.

Inductive Assigner := AUtilization | ASpread (queued : bool) | ASpreadTasks (queued : bool) | ARandom.

Definition WindowSel (a : Assigner) (ans : Answers) : Sys -> list (WorkerRequest * list nat) -> list SchedWindow -> outcome (list SchedWindow * list nat) :=
  match a with
  | AUtilization => LowestUtilizationWS
  | ASpread queued => SpreadWS queued
  | ASpreadTasks queued => SpreadTasksWS queued
  | ARandom => RandomWS ans
  end.

(** The assigner that [newScheduler] takes. *)
Definition assignerNamed (assigner : string) : outcome Assigner :=
  if bool_decide (assigner = EmptyString) || bool_decide (assigner = "utilization") then Ret AUtilization
  else if bool_decide (assigner = "spread") then Ret (ASpread false)
  else if bool_decide (assigner = "experiment-spread-qcount") then Ret (ASpread true)
  else if bool_decide (assigner = "experiment-spread-tasks") then Ret (ASpreadTasks false)
  else if bool_decide (assigner = "experiment-spread-tasks-qcount") then Ret (ASpreadTasks true)
  else if bool_decide (assigner = "experiment-random") then Ret ARandom
  else Err "unknown assigner".

(** A window goes into the channel of its worker if there is room. *)
Definition sendWindow (s : Sys) (req : SchedWindowRequest) (window : SchedWindow) : Sys :=
  match handles s !! Done req with
  | Some h =>
      if Z.of_nat (length (scheduledWindows h)) <? SchedWindows then set_handle (Done req) (set_scheduled (scheduledWindows h ++ [window]) h) s
      else drop_window window s
  | None => drop_window window s
  end.

(** The windows with tasks are sent, the others stay open. *)
Fixpoint submitWindows (s : Sys) (open : list SchedWindowRequest) (windows : list SchedWindow) (kept : list SchedWindowRequest) : Sys * list SchedWindowRequest :=
  match open, windows with
  | req :: open, window :: windows =>
      match Todo window with
      | [] => submitWindows s open windows (kept ++ [req])
      | _ => submitWindows (sendWindow s req window) open windows kept
      end
  | _, _ => (s, kept)
  end.

Definition TrySched (a : Assigner) (ans : Answers) (s : Sys) : outcome Sys :=
  match OpenWindows s, SchedQueue s with
  | [], _ | _, [] => Ret s
  | _, _ =>
      let queue := imap (fun sqi task => (task, acceptableWindows s ans sqi task)) (SchedQueue s) in
      '(windows, rmQueue) ← WindowSel a ans s queue (replicate (length (OpenWindows s)) newWindow);
      q ← removeAll rmQueue (SchedQueue s);
      match rmQueue with
      | [] => Ret (set_SchedQueue q s)
      | _ => let '(s', kept) := submitWindows (set_SchedQueue q s) (OpenWindows s) windows [] in Ret (set_OpenWindows kept s')
      end
  end.

(** ** The goroutine of a worker, sched_worker.go *)

(** Tasks of a window go to the one before it if they fit there. *)
Fixpoint moveTasks (h : WorkerHandle) (lower window : SchedWindow) (todos kept : list WorkerRequest) : SchedWindow * SchedWindow :=
  match todos with
  | [] => (lower, {| Allocated := Allocated window; w_counters := w_counters window; Todo := kept |})
  | todo :: todos =>
      if CanHandleRequest (SchedId todo) (SealTask todo) (needRes h todo) (Info h) (Allocated lower) (w_counters lower) then
        let '(a, tc) := ar_Free (SchedId todo) (SealTask todo) (workerRes h) (needRes h todo) (Allocated window) (w_counters window) in
        moveTasks h (allocate h todo lower).1 {| Allocated := a; w_counters := tc; Todo := Todo window |} todos kept
      else moveTasks h lower window todos (kept ++ [todo])
  end.

Fixpoint compactLoop (h : WorkerHandle) (lower : SchedWindow) (windows : list SchedWindow) : list SchedWindow :=
  match windows with
  | [] => [lower]
  | window :: windows =>
      let '(lower, window) := moveTasks h lower window (Todo window) [] in
      lower :: compactLoop h window windows
  end.

Definition hasTasks (w : SchedWindow) : bool := match Todo w with [] => false | _ => true end.

Definition workerCompactWindows (h : WorkerHandle) : WorkerHandle :=
  let ws := match activeWindows h with [] => [] | w :: ws => compactLoop h w ws end in
  let newWindows := List.filter hasTasks ws in
  set_windows newWindows (windowsRequested h - Z.of_nat (length ws - length newWindows)) h.

Definition startProcessingTask (req : WorkerRequest) (h : WorkerHandle) : WorkerHandle :=
  let '(a, tc, _) := ar_Add (SchedId req) (PrepSealTask req) (workerRes h) (needResPrep h req) (preparing h) (counters h) in
  set_tasks (tasks h ++ [(req, Preparing)]) (set_preparing a tc h).

Definition startProcessingReadyTask (req : WorkerRequest) (h : WorkerHandle) : WorkerHandle :=
  let '(a, tc, _) := ar_Add (SchedId req) (SealTask req) (workerRes h) (needRes h req) (active h) (counters h) in
  set_tasks (tasks h ++ [(req, Working)]) (set_active a tc h).

Definition canPrepare (h : WorkerHandle) (todo : WorkerRequest) : bool :=
  CanHandleRequest (SchedId todo) (PrepSealTask todo) (needResPrep h todo) (Info h) (preparing h) (counters h).

Definition canWork (h : WorkerHandle) (todo : WorkerRequest) : bool :=
  CanHandleRequest (SchedId todo) (SealTask todo) (needRes h todo) (Info h) (active h) (counters h).

Definition readyTask (h : WorkerHandle) (todo : WorkerRequest) : bool :=
  (bool_decide (req_TaskType todo = TTCommit1) || bool_decide (req_TaskType todo = TTCommit2)) && canWork h todo.

(** The first task that can start is started, until there is none; each round takes one. *)
Fixpoint startTasks (can : WorkerHandle -> WorkerRequest -> bool) (start : WorkerRequest -> WorkerHandle -> WorkerHandle) (rounds : nat)
    (todo : list WorkerRequest) (h : WorkerHandle) : list WorkerRequest * WorkerHandle :=
  match rounds with
  | O => (todo, h)
  | S rounds =>
      match list_find (fun t => can h t = true) todo with
      | None => (todo, h)
      | Some (tidx, t) => startTasks can start rounds (delete tidx todo) (start t h)
      end
  end.

(** The windows in order, up to the first with tasks that cannot start. *)
Fixpoint assignWork (can : WorkerHandle -> WorkerRequest -> bool) (start : WorkerRequest -> WorkerHandle -> WorkerHandle) (windows : list SchedWindow)
    (h : WorkerHandle) : list SchedWindow * WorkerHandle :=
  match windows with
  | [] => ([], h)
  | firstWindow :: rest =>
      let '(todo, h) := startTasks can start (length (Todo firstWindow)) (Todo firstWindow) h in
      match todo with
      | [] => assignWork can start rest h
      | _ => ({| Allocated := Allocated firstWindow; w_counters := w_counters firstWindow; Todo := todo |} :: rest, h)
      end
  end.

Definition assignWindows (can : WorkerHandle -> WorkerRequest -> bool) (start : WorkerRequest -> WorkerHandle -> WorkerHandle) (h : WorkerHandle) : WorkerHandle :=
  let '(windows, h') := assignWork can start (activeWindows h) h in
  set_windows windows (windowsRequested h - Z.of_nat (length (activeWindows h) - length windows)) h'.

Definition assignPreparingWork (h : WorkerHandle) : WorkerHandle := assignWindows canPrepare startProcessingTask h.

Definition assignReadyWork (h : WorkerHandle) : WorkerHandle :=
  if 0 <? waiting (active h) then h else assignWindows readyTask startProcessingReadyTask h.

Definition processAssignedWindows (h : WorkerHandle) : WorkerHandle := assignPreparingWork (assignReadyWork h).

(** What [Session] answers: an error, another session, or the session of the worker. *)
Inductive Session := SErr | SOther | SSame.

(** The steps of [handleWorker] with [requestWindows], [checkSession], [disable] and
    [waitForUpdates]. *)
Inductive WorkerStep := WTop | WSession (answer : Session) | WDisabled | WHeartbeat | WWindow | WTaskDone | WProcess.

Definition blocked {A} : outcome A := Err "blocked".

Definition requestWindows (n : nat) (h : WorkerHandle) (s : Sys) : outcome Sys :=
  if Enabled h && (windowsRequested h <? SchedWindows) then
    if Z.of_nat (length (windowRequests s)) <? chanSize then
      Ret (set_windowRequests (windowRequests s ++ [{| swr_Worker := wid h; Done := n |}])
            (set_handle n (set_windows (activeWindows h) (windowsRequested h + 1) h) s))
    else blocked
  else Ret (set_handle n (set_pc AtSession h) s).

Definition checkSession (n : nat) (h : WorkerHandle) (answer : Session) (s : Sys) : Sys :=
  match answer with
  | SErr => set_handle n (set_pc (AtDisable ToRetry) h) s
  | SOther => set_handle n (set_pc (AtDisable ToExit) h) s
  | SSame => set_handle n (set_pc (if Enabled h then AtUpdates else AtProcess) (set_Enabled true h)) s
  end.

(** The end of [disable], and of [handleWorker]. *)
Definition disabled (n : nat) (h : WorkerHandle) (k : After) (s : Sys) : Sys :=
  let h := set_windows [] 0 h in
  match k with
  | ToRetry => set_handle n (set_pc AtRetry h) s
  | ToSession => set_handle n (set_pc AtSession h) s
  | ToExit => set_Workers (delete (wid h) (Workers s)) (set_handle n (set_pc Exited h) s)
  end.

(** A window is taken from the channel. *)
Definition receiveWindow (n : nat) (h : WorkerHandle) (next : Pc) (s : Sys) : outcome Sys :=
  match scheduledWindows h with
  | [] => blocked
  | w :: ws => Ret (set_handle n (set_pc next (set_scheduled ws (set_windows (activeWindows h ++ [w]) (windowsRequested h) h))) s)
  end.

Definition handleWorker (n : nat) (step : WorkerStep) (s : Sys) : outcome Sys :=
  match handles s !! n with
  | None => blocked
  | Some h =>
      match pc h, step with
      | AtTop, WTop => requestWindows n h s
      | AtSession, WSession answer => Ret (checkSession n h answer s)
      | AtDisabled k, WDisabled => Ret (disabled n h k s)
      | AtRetry, WHeartbeat => Ret (set_handle n (set_pc AtSession h) s)
      | AtRetry, WWindow => receiveWindow n h (AtDisable ToSession) s
      | AtUpdates, WHeartbeat => Ret (set_handle n (set_pc AtSession h) s)
      | AtUpdates, WWindow => receiveWindow n h AtProcess s
      | AtUpdates, WTaskDone =>
          if taskDone h then Ret (set_workerChange (Z.min chanSize (workerChange s + 1)) (set_handle n (set_pc AtProcess (set_taskDone false h)) s))
          else blocked
      | AtProcess, WProcess => Ret (set_handle n (set_pc AtTop (processAssignedWindows (workerCompactWindows h))) s)
      | _, _ => blocked
      end
  end.

Definition runWorker (n : nat) (w : WorkerID) (info : WorkerInfo) (s : Sys) : outcome Sys :=
  match handles s !! n with
  | Some _ => blocked (* not a new handle *)
  | None =>
      match Workers s !! w with
      | Some _ => Ret s
      | None => Ret (set_Workers (<[w := n]> (Workers s)) (set_handle n (newWorkerHandle w info) s))
      end
  end.

(** ** The goroutine of a task, [startProcessingTask] and [withResources] *)

(** Prepared, or woken up: the task starts to work if there are resources, and waits otherwise. *)
Definition withResources (i : nat) (r : WorkerRequest) (h : WorkerHandle) : WorkerHandle :=
  if canWork h r then
    let '(a, tc, _) := ar_Add (SchedId r) (SealTask r) (workerRes h) (needRes h r) (active h) (counters h) in
    let '(p, tc) := ar_Free (SchedId r) (PrepSealTask r) (workerRes h) (needResPrep h r) (preparing h) tc in
    set_taskDone true (set_tasks (<[i := (r, Working)]> (tasks h)) (set_preparing p tc (set_active a tc h)))
  else set_tasks (<[i := (r, Blocked)]> (tasks h)) (set_active (setWaiting (waiting (active h) + 1) (active h)) (counters h) h).

(** [cond.Broadcast] *)
Definition wake (t : WorkerRequest * Phase) : WorkerRequest * Phase := match t.2 with Blocked => (t.1, Woken) | _ => t end.

Inductive TaskStep := TPrepared | TPrepareError (err : string) | TWake | TRespond (err : option string) | TFree.

Definition runTask (n i : nat) (step : TaskStep) (s : Sys) : outcome Sys :=
  match handles s !! n with
  | None => blocked
  | Some h =>
      match tasks h !! i, step with
      | Some (r, Preparing), TPrepared => Ret (set_handle n (withResources i r h) s)
      | Some (r, Preparing), TPrepareError err =>
          let '(p, tc) := ar_Free (SchedId r) (PrepSealTask r) (workerRes h) (needResPrep h r) (preparing h) (counters h) in
          Ret (answer r (Some err) (set_handle n (set_taskDone true (set_tasks (delete i (tasks h)) (set_preparing p tc h))) s))
      | Some (r, Woken), TWake => Ret (set_handle n (withResources i r (set_active (setWaiting (waiting (active h) - 1) (active h)) (counters h) h)) s)
      | Some (r, Working), TRespond err => Ret (answer r err (set_handle n (set_tasks (<[i := (r, Responded)]> (tasks h)) h) s))
      | Some (r, Responded), TFree =>
          let '(a, tc) := ar_Free (SchedId r) (SealTask r) (workerRes h) (needRes h r) (active h) (counters h) in
          Ret (set_handle n (set_taskDone true (set_tasks (wake <$> delete i (tasks h)) (set_active a tc h))) s)
      | _, _ => blocked
      end
  end.

(** ** The loop of the scheduler, sched.go *)

Inductive Msg := MRemove (id : UUID) | MChange | MDisable (n : nat) | MSchedule (r : WorkerRequest) | MWindow | MInit.

Definition removeRequest (id : UUID) (s : Sys) : outcome Sys :=
  match list_find (fun r => SchedId r = id) (SchedQueue s) with
  | Some (i, r) => q ← queue_Remove i (SchedQueue s); Ret (answer r (Some "scheduling request removed") (set_SchedQueue q s))
  | None => Ret s
  end.

(** A message is taken from its channel; the requests to disable a worker are collected. *)
Definition receive (m : Msg) (s : Sys) (toDisable : list nat) : outcome (Sys * list nat) :=
  match m with
  | MRemove id => s ← removeRequest id s; Ret (s, toDisable)
  | MChange => if 0 <? workerChange s then Ret (set_workerChange (workerChange s - 1) s, toDisable) else blocked
  | MDisable n =>
      match handles s !! n with
      | Some h => match pc h with AtDisable k => Ret (set_handle n (set_pc (AtDisabling k) h) s, toDisable ++ [n]) | _ => blocked end
      | None => blocked
      end
  | MSchedule r => Ret (set_SchedQueue (queue_Push (SchedQueue s) r) s, toDisable)
  | MWindow =>
      match windowRequests s with
      | [] => blocked
      | req :: reqs => Ret (set_windowRequests reqs (set_OpenWindows (OpenWindows s ++ [req]) s), toDisable)
      end
  | MInit => if initialised s then blocked else Ret (set_initialised s, toDisable)
  end.

(** The loop that gathers more messages takes these. *)
Definition gathers (m : Msg) : bool := match m with MRemove _ | MInit => false | _ => true end.

Fixpoint gatherMsgs (ms : list Msg) (s : Sys) (toDisable : list nat) : outcome (Sys * list nat) :=
  match ms with
  | [] => Ret (s, toDisable)
  | m :: ms => if gathers m then '(s, toDisable) ← receive m s toDisable; gatherMsgs ms s toDisable else blocked
  end.

(** The tasks of its windows go back to the queue, and its open windows are closed. *)
Definition disableWorker (n : nat) (s : Sys) : outcome Sys :=
  match handles s !! n with
  | None => Panic
  | Some h =>
      match Workers s !! wid h with
      | None => Panic
      | Some m =>
          match handles s !! m with
          | None => Panic
          | Some w =>
              let s := set_SchedQueue (foldl queue_Push (SchedQueue s) (concat (Todo <$> activeWindows h))) s in
              let s := set_OpenWindows (filter (fun window => swr_Worker window <> wid h) (OpenWindows s)) s in
              let s := set_handle m (set_Enabled false w) s in
              Ret (match handles s !! n with
                   | Some h => match pc h with AtDisabling k => set_handle n (set_pc (AtDisabled k) h) s | _ => s end
                   | None => s
                   end)
          end
      end
  end.

Fixpoint disableWorkers (ns : list nat) (s : Sys) : outcome Sys :=
  match ns with
  | [] => Ret s
  | n :: ns => s ← disableWorker n s; disableWorkers ns s
  end.

(** A turn of the loop of [runSched]: a message, and once it is initialised those that are
    waiting too, before it assigns tasks. *)
Definition runSched (a : Assigner) (m : Msg) (ms : list Msg) (ans : Answers) (s : Sys) : outcome Sys :=
  '(s, toDisable) ← receive m s [];
  if initialised s then
    '(s, toDisable) ← gatherMsgs ms s toDisable;
    s ← disableWorkers toDisable s;
    TrySched a ans s
  else match ms with [] => Ret s | _ => blocked end.

(** ** Runs *)

Inductive SchedEvent :=
| ERun (m : Msg) (ms : list Msg) (ans : Answers)
| EAdd (n : nat) (w : WorkerID) (info : WorkerInfo)
| EWorker (n : nat) (step : WorkerStep)
| ETask (n i : nat) (step : TaskStep).

Definition schedStep (a : Assigner) (e : SchedEvent) (s : Sys) : outcome Sys :=
  match e with
  | ERun m ms ans => runSched a m ms ans s
  | EAdd n w info => runWorker n w info s
  | EWorker n step => handleWorker n step s
  | ETask n i step => runTask n i step s
  end.

(** Events that are not possible do not happen. *)
Fixpoint schedRun (a : Assigner) (es : list SchedEvent) (s : Sys) : outcome Sys :=
  match es with
  | [] => Ret s
  | e :: es => match schedStep a e s with Ret s => schedRun a es s | Err _ => schedRun a es s | Panic => Panic end
  end.
End sched.
