(* ===== verification/SchedProps.v ===== *)
(** * The sealing scheduler: no request is lost or run twice

    The places of a request are counted: the queue, the windows in the channels of workers and
    those they work on, the tasks, the answers and the windows that were dropped.  Every step
    keeps the count of each request, whatever assigner, answers and interleaving. *)

From stdpp Require Import gmap sorting.
From Stdlib Require Import SpecFloat.
From S2P Require Import Prelude SchedRes Sched.

(** ** Counting *)

Definition occ (r : WorkerRequest) (l : list WorkerRequest) : Z := Z.of_nat (length (filter (eq r) l)).

Lemma occ_app r l1 l2 : occ r (l1 ++ l2) = occ r l1 + occ r l2.
Proof. unfold occ. rewrite filter_app, length_app. lia. Qed.

Lemma occ_cons r x l : occ r (x :: l) = (if decide (r = x) then 1 else 0) + occ r l.
Proof. unfold occ. rewrite filter_cons. destruct (decide (r = x)); cbn [length]; lia. Qed.

Lemma occ_nonneg r l : 0 <= occ r l.
Proof. unfold occ. lia. Qed.

Lemma occ_perm r l1 l2 : l1 ≡ₚ l2 -> occ r l1 = occ r l2.
Proof. unfold occ. by intros ->. Qed.

Lemma occ_in r l : r ∈ l <-> 0 < occ r l.
Proof.
  induction l as [|x l IH]; [split; [by intros ?%elem_of_nil|done]|]. rewrite elem_of_cons, occ_cons, IH. pose proof (occ_nonneg r l).
  destruct (decide (r = x)); naive_solver lia.
Qed.

Lemma occ_NoDup l : NoDup l <-> forall r, occ r l <= 1.
Proof.
  induction l as [|x l IH]; [split; [done|constructor]|]. rewrite NoDup_cons, IH, occ_in. split.
  - intros [Hx Hl] r. rewrite occ_cons. specialize (Hl r). destruct (decide (r = x)) as [->|]; lia.
  - intros Hr. split; [specialize (Hr x); rewrite occ_cons, decide_True in Hr by done; lia|]. intros r. specialize (Hr r). rewrite occ_cons in Hr.
    destruct (decide (r = x)); lia.
Qed.

Lemma occ_nil r : occ r [] = 0.
Proof. done. Qed.

Ltac occs := rewrite ?occ_app, ?occ_cons, ?occ_nil.

(** The sum over the handles. *)
Definition sumMap {A} (f : A -> Z) (m : gmap nat A) : Z := map_fold (fun _ x acc => f x + acc) 0 m.

Lemma sumMap_new {A} (f : A -> Z) m k x : m !! k = None -> sumMap f (<[k := x]> m) = f x + sumMap f m.
Proof. intros Hk. unfold sumMap. rewrite map_fold_insert_L; [done|intros; lia|done]. Qed.

Lemma sumMap_upd {A} (f : A -> Z) m k x y : m !! k = Some x -> sumMap f (<[k := y]> m) = sumMap f m - f x + f y.
Proof.
  intros Hk. assert (m = <[k := x]> (delete k m)) as Hm by by rewrite insert_delete_id.
  rewrite Hm at 2. rewrite <-insert_delete_eq, !sumMap_new by apply lookup_delete_eq. lia.
Qed.

Lemma sumMap_nonneg {A} (f : A -> Z) m : (forall x, 0 <= f x) -> 0 <= sumMap f m.
Proof. intros Hf. induction m as [|k x m Hk IH] using map_ind; [done|]. rewrite sumMap_new by done. specialize (Hf x). lia. Qed.

(** ** The order of the queue *)

Lemma MuchLess_spec a b : (MuchLess a b).1 = true <-> (orderOf a < 0 <= orderOf b \/ orderOf b < 0 <= orderOf a).
Proof. unfold MuchLess. cbn [fst]. rewrite Z.ltb_lt, Z.lt_nge, Z.lxor_nonneg. lia. Qed.

(** A request that is less has a smaller key. *)
Lemma Less_key a b : Less a b = true ->
  (orderOf (req_TaskType a) < 0 <= orderOf (req_TaskType b)) \/
  ((orderOf (req_TaskType a) < 0 <-> orderOf (req_TaskType b) < 0) /\
   (Priority b < Priority a \/ Priority a = Priority b /\
     (orderOf (req_TaskType a) < orderOf (req_TaskType b) \/ orderOf (req_TaskType a) = orderOf (req_TaskType b) /\ SectorNumber a < SectorNumber b))).
Proof.
  unfold Less. pose proof (MuchLess_spec (req_TaskType a) (req_TaskType b)) as Hm. destruct (MuchLess _ _) as [one much] eqn:Em. cbn [fst] in Hm.
  assert (much = (orderOf (req_TaskType a) <? orderOf (req_TaskType b))) as Hmuch by (unfold MuchLess in Em; congruence).
  destruct one; [rewrite Hmuch, Z.ltb_lt; intros; destruct (proj1 Hm eq_refl); lia|].
  assert (~ (orderOf (req_TaskType a) < 0 <= orderOf (req_TaskType b) \/ orderOf (req_TaskType b) < 0 <= orderOf (req_TaskType a))) as Hn by (rewrite <-Hm; done).
  destruct (Z.eqb_spec (Priority a) (Priority b)); cbn [negb]; [|rewrite Z.ltb_lt; lia].
  case_bool_decide as Ht; cbn [negb]; [rewrite Ht in *; rewrite Z.ltb_lt; lia|]. unfold task_Less. rewrite Z.ltb_lt. lia.
Qed.

Lemma Less_cycle a b c : Less a b = true -> Less b c = true -> Less c a = true -> False.
Proof. intros ?%Less_key ?%Less_key ?%Less_key. lia. Qed.

Lemma Less_irrefl a : Less a a = false.
Proof. apply not_true_is_false. intros Ha. by apply (Less_cycle a a a). Qed.

(** Both the order and its ties are transitive: what [sort.Sort] asks for. *)
Definition orderable (l : list WorkerRequest) : Prop := forall a b c, a ∈ l -> b ∈ l -> c ∈ l ->
  (Less a b = true -> Less b c = true -> Less a c = true) /\ (Less a b = false -> Less b c = false -> Less a c = false).

Definition queueSorted : list WorkerRequest -> Prop := StronglySorted (fun a b => Less b a = false).

Class GoSortOk `{GoSort} : Prop := {
  sort_perm l : sortRequests l ≡ₚ l;
  sort_sorted l : orderable l -> queueSorted (sortRequests l);
}.

(** Different requests compare as different. *)
Definition noTies (l : list WorkerRequest) : Prop := forall a b, a ∈ l -> b ∈ l -> a <> b -> Less a b = true \/ Less b a = true.

Lemma noTies_orderable l : noTies l -> orderable l.
Proof.
  intros Hl a b c Ha Hb Hc. pose proof (Less_irrefl a). split; intros Hab Hbc.
  - apply not_false_iff_true. intros Hac. destruct (decide (a = c)) as [->|Hne].
    + apply Less_key in Hab, Hbc. lia.
    + destruct (Hl a c) as [?|Hca]; [done..|congruence|]. by apply (Less_cycle a b c).
  - apply not_true_is_false. intros Hac. assert (a <> c) by congruence. destruct (decide (a = b)) as [->|Hab']; [congruence|].
    destruct (decide (b = c)) as [->|Hbc']; [congruence|]. destruct (Hl a b) as [?|Hba]; [done..|congruence|]. destruct (Hl b c) as [?|Hcb]; [done..|congruence|].
    by apply (Less_cycle a c b).
Qed.

Lemma noTies_sub l l' : noTies l -> l' ⊆ l -> noTies l'.
Proof. intros Hl Hs a b Ha Hb. apply Hl; by apply Hs. Qed.

(** A sorted queue without ties is the only sorted one. *)
Lemma sorted_unique l1 l2 : noTies l1 -> queueSorted l1 -> queueSorted l2 -> l1 ≡ₚ l2 -> l1 = l2.
Proof.
  intros Hn H1 H2 Hp. apply (StronglySorted_unique_strong (fun a b => Less b a = false)); [|done..]. intros a b Ha Hb Hba Hab.
  destruct (decide (a = b)) as [|Hne]; [done|]. rewrite <-Hp in Hb. destruct (Hn a b Ha Hb Hne); congruence.
Qed.

Lemma sorted_delete i l : queueSorted l -> queueSorted (delete i l).
Proof.
  intros Hl. rewrite delete_take_drop. destruct (decide (i < length l)%nat) as [Hi|]; [|by rewrite (drop_ge l (S i)), app_nil_r, take_ge by lia].
  destruct (lookup_lt_is_Some_2 l i Hi) as [x Hx]. rewrite <-(take_drop_middle l i x Hx) in Hl.
  apply StronglySorted_app in Hl as (Hc & H1 & [_ H2]%StronglySorted_cons). apply StronglySorted_app. repeat split; [|done..].
  intros a b Ha Hb. apply Hc; [done|]. by apply elem_of_cons; right.
Qed.

(** [old[i] = old[n-1]], and the last one is cut off. *)
Lemma swap_remove i (x : WorkerRequest) q : (i < length q)%nat -> last q = Some x -> take (length q - 1) (<[i := x]> q) ≡ₚ delete i q.
Proof.
  intros Hi Hl. destruct q as [|y q' _] using rev_ind; [done|]. rewrite last_snoc in Hl. injection Hl as ->. rewrite length_app in *. cbn [length] in *.
  replace (length q' + 1 - 1)%nat with (length q') by lia. destruct (decide (i = length q')) as [->|Hne].
  - rewrite delete_middle, app_nil_r. rewrite insert_app_r_alt by lia. by rewrite take_app_length.
  - rewrite insert_app_l by lia. rewrite take_app_length' by by rewrite length_insert.
    rewrite insert_take_drop, delete_take_drop, take_app_le, drop_app_le by lia. by rewrite (Permutation_app_comm (drop _ _)).
Qed.

Section queue.
Context `{GoSortOk}.

Lemma queue_Push_perm q x : queue_Push q x ≡ₚ x :: q.
Proof. unfold queue_Push. rewrite sort_perm. by rewrite Permutation_app_comm. Qed.

Lemma queue_Push_sorted q x : noTies (x :: q) -> queueSorted (queue_Push q x).
Proof.
  intros Hn. apply sort_sorted, noTies_orderable. eapply noTies_sub; [done|]. set_solver.
Qed.

Lemma Pushes_perm xs q : foldl queue_Push q xs ≡ₚ xs ++ q.
Proof. revert q. induction xs as [|x xs IH]; intros q; cbn [foldl]; [done|]. rewrite IH, queue_Push_perm. symmetry. apply Permutation_middle. Qed.

Lemma Pushes_sorted xs q : noTies (xs ++ q) -> queueSorted q -> queueSorted (foldl queue_Push q xs).
Proof.
  revert q. induction xs as [|x xs IH]; intros q Hn Hq; cbn [foldl]; [done|]. apply IH.
  - eapply noTies_sub; [done|]. intros r. rewrite queue_Push_perm. set_solver.
  - apply queue_Push_sorted. eapply noTies_sub; [done|]. set_solver.
Qed.

(** Without ties an entry is removed as from a list that stays as it is. *)
Lemma queue_Remove_delete i q : (i < length q)%nat -> noTies q -> queueSorted q -> queue_Remove i q = Ret (delete i q).
Proof.
  intros Hi Hn Hs. unfold queue_Remove. destruct (lookup_lt_is_Some_2 q i Hi) as [y ->]. destruct (last q) as [x|] eqn:Hl; [|apply last_None in Hl; subst; cbn in Hi; lia].
  f_equal. assert (delete i q ⊆ q) as Hsub by apply sublist_subseteq, sublist_delete.
  assert (sortRequests (take (length q - 1) (<[i := x]> q)) ≡ₚ delete i q) as Hp by by rewrite sort_perm, swap_remove.
  assert (noTies (delete i q)) as Hnd by by eapply noTies_sub. symmetry. apply sorted_unique; [done|by apply sorted_delete| |by symmetry].
  apply sort_sorted, noTies_orderable. eapply noTies_sub; [exact Hnd|]. intros r. by rewrite <-Hp, sort_perm.
Qed.

(** The entries at the indexes are removed, and those before them stay where they are. *)
Lemma removeAll_ok ks q : StronglySorted lt ks -> Forall (fun k => k < length q)%nat ks -> noTies q -> queueSorted q ->
  exists q', removeAll ks q = Ret q' /\ queueSorted q' /\ q' ⊆ q /\ (forall j, Forall (lt j) ks -> q' !! j = q !! j) /\
    forall r, occ r q = occ r q' + occ r (omap (q !!.) ks).
Proof.
  intros Hks Hlen Hn Hs. induction ks as [|k ks IH]; cbn [removeAll].
  - exists q. repeat split; [done..|]. intros r. occs. lia.
  - apply StronglySorted_cons in Hks as [Hk Hks]. apply Forall_cons in Hlen as [Hkl Hlen]. destruct (IH Hks Hlen) as (q1 & -> & Hs1 & Hsub & Hpre & Hocc).
    assert (q1 !! k = q !! k) as Hq1 by by apply Hpre. destruct (lookup_lt_is_Some_2 q k Hkl) as [x Hx]. cbn [mbind outcome_bind].
    rewrite queue_Remove_delete; [|by apply lookup_lt_Some with x; rewrite Hq1|by eapply noTies_sub|done].
    exists (delete k q1). split; [done|]. split; [by apply sorted_delete|]. split; [|split].
    + etrans; [apply sublist_subseteq, sublist_delete|done].
    + intros j [Hj Hjs]%Forall_cons. rewrite list_lookup_delete_lt by done. by apply Hpre.
    + intros r. cbn [omap list_omap]. rewrite Hx, occ_cons, (Hocc r). rewrite (occ_perm r q1 (x :: delete k q1)), occ_cons; [lia|].
      apply delete_Permutation. congruence.
Qed.
End queue.

(** ** Assigning tasks *)

Definition todos (ws : list SchedWindow) : list WorkerRequest := concat (Todo <$> ws).

#[local] Arguments todos : simpl never.
#[local] Arguments occ : simpl never.

Lemma todos_app ws1 ws2 : todos (ws1 ++ ws2) = todos ws1 ++ todos ws2.
Proof. unfold todos. by rewrite fmap_app, concat_app. Qed.

Lemma todos_cons w ws : todos (w :: ws) = Todo w ++ todos ws.
Proof. done. Qed.

Lemma todos_insert r i w w' ws : ws !! i = Some w -> occ r (todos (<[i := w']> ws)) = occ r (todos ws) - occ r (Todo w) + occ r (Todo w').
Proof.
  revert i. induction ws as [|x ws IH]; intros [|i] Hi; simplify_eq/=; rewrite ?todos_cons, ?occ_app; [lia|].
  specialize (IH i Hi). lia.
Qed.

Lemma todos_new n : todos (replicate n newWindow) = [].
Proof. by induction n. Qed.

(** A window that is open and has a worker. *)
Definition valid (s : Sys) (i : nat) : Prop := exists req h, OpenWindows s !! i = Some req /\ workerOf s (swr_Worker req) = Some h /\ Enabled h = true.

Lemma acceptable_valid s ans task reqs wnd pref acc : reqs = drop wnd (OpenWindows s) -> Forall (valid s) acc -> Forall (valid s) (acceptable s ans task wnd reqs pref acc).
Proof.
  revert wnd pref acc. induction reqs as [|req reqs IH]; intros wnd pref acc Hd Hacc; cbn [acceptable]; [done|].
  assert (OpenWindows s !! wnd = Some req) as Hreq by by rewrite <-(Nat.add_0_r wnd), <-lookup_drop, <-Hd.
  assert (reqs = drop (S wnd) (OpenWindows s)) as Hd' by (rewrite <-Nat.add_1_r, <-drop_drop, <-Hd; done).
  destruct (workerOf s (swr_Worker req)) as [h|] eqn:Hw; [|by apply IH]. destruct (Enabled h) eqn:Hen; cbn [negb]; [|by apply IH].
  assert (valid s wnd) as Hv by (exists req, h; done).
  destruct (CanHandleRequest _ _ _ _ _ _); cbn [negb]; [|by apply IH]. destruct (sel_Ok ans task wnd) as [[[] p]| |]; [|by apply IH..].
  repeat case_match; apply IH; try done; [by apply Forall_singleton|]. apply Forall_app. split; [done|by apply Forall_singleton].
Qed.

Lemma swap_perm i j l : swap i j l ≡ₚ l.
Proof. unfold swap. repeat case_match; [by apply Permutation_insert_swap|done..]. Qed.

Lemma shuffle_perm rnd i l : shuffle rnd i l ≡ₚ l.
Proof. revert l. induction i as [|i IH]; intros l; cbn [shuffle]; [done|]. by rewrite IH, swap_perm. Qed.

Lemma insertStable_perm less x l : insertStable less x l ≡ₚ x :: l.
Proof. induction l as [|y l IH]; cbn [insertStable]; [done|]. case_match; [|done]. rewrite IH. apply Permutation_swap. Qed.

Lemma sortStable_perm less l : sortStable less l ≡ₚ l.
Proof.
  unfold sortStable. rewrite reverse_Permutation. assert (forall acc, foldl (fun sorted x => insertStable less x sorted) acc l ≡ₚ l ++ acc) as Hl.
  { induction l as [|x l IH]; intros acc; cbn [foldl]; [done|]. rewrite IH, insertStable_perm. symmetry. apply Permutation_middle. }
  by rewrite Hl, app_nil_r.
Qed.

Lemma acceptableWindows_valid s ans sqi task : Forall (valid s) (acceptableWindows s ans sqi task).
Proof. unfold acceptableWindows. rewrite sortStable_perm, shuffle_perm. by apply acceptable_valid. Qed.

Section assign.
Context (s : Sys).

(** The window has room for the task. *)
Definition roomy (windows : list SchedWindow) (task : WorkerRequest) (wnd : nat) : Prop := exists wid w, tryWindow s windows task wnd = Ret (Some (wid, w)).

Lemma tryWindow_total windows task wnd : valid s wnd -> length windows = length (OpenWindows s) -> exists r, tryWindow s windows task wnd = Ret r.
Proof.
  intros (req & h & Hreq & Hw & _) Hlen. unfold tryWindow. rewrite Hreq. apply lookup_lt_Some in Hreq as Hlt. rewrite <-Hlen in Hlt.
  destruct (lookup_lt_is_Some_2 _ _ Hlt) as [w ->]. rewrite Hw. by eexists.
Qed.

(** What the loop over tasks needs of a choice. *)
Definition chooser {St} (choose : St -> nat -> WorkerRequest -> list nat -> list SchedWindow -> outcome (St * option nat)) : Prop :=
  forall st sqi task wnds windows, Forall (valid s) wnds -> length windows = length (OpenWindows s) ->
    exists st' sel, choose st sqi task wnds windows = Ret (st', sel) /\ forall w, sel = Some w -> roomy windows task w.

Lemma fewestTasks_ok `{Countable K} (key : WorkerID -> K) count queued task windows wnds m best n :
  Forall (valid s) wnds -> length windows = length (OpenWindows s) -> (forall w, best = Some w -> roomy windows task w) ->
  exists m' sel, fewestTasks key count queued s task windows wnds m best n = Ret (m', sel) /\ forall w, sel = Some w -> roomy windows task w.
Proof.
  intros Hv Hlen. revert m best n. induction Hv as [|wnd wnds Hw Hv IH]; intros m best n Hb; cbn [fewestTasks]; [by eauto|].
  destruct (tryWindow_total windows task wnd Hw Hlen) as [r Hr]. rewrite Hr. cbn [mbind outcome_bind].
  destruct r as [[wid w]|]; [|by apply IH]. destruct (match m !! key wid with Some _ => _ | None => _ end) as [wu m']. case_match; apply IH; [done|].
  intros ? [= <-]. by exists wid, w.
Qed.

Lemma lowestUtilization_ok task windows wnds m best u :
  Forall (valid s) wnds -> length windows = length (OpenWindows s) -> (forall w, best = Some w -> roomy windows task w) ->
  exists m' sel, lowestUtilization s task windows wnds m best u = Ret (m', sel) /\ forall w, sel = Some w -> roomy windows task w.
Proof.
  intros Hv Hlen. revert m best u. induction Hv as [|wnd wnds Hw Hv IH]; intros m best u Hb; cbn [lowestUtilization]; [by eauto|].
  destruct (tryWindow_total windows task wnd Hw Hlen) as [r Hr]. rewrite Hr. cbn [mbind outcome_bind].
  destruct r as [[wid w]|]; [|by apply IH]. destruct (match m !! wid with Some _ => _ | None => _ end) as [wu m']. case_match; [by eauto|]. apply IH.
  intros ? [= <-]. by exists wid, w.
Qed.

Lemma roomyWindows_ok task windows wnds : Forall (valid s) wnds -> length windows = length (OpenWindows s) ->
  exists choices, roomyWindows s task windows wnds = Ret choices /\ Forall (roomy windows task) choices.
Proof.
  intros Hv Hlen. induction Hv as [|wnd wnds Hw Hv (choices & Hc & Hf)]; cbn [roomyWindows]; [by eauto|].
  destruct (tryWindow_total windows task wnd Hw Hlen) as [r Hr]. rewrite Hr, Hc. cbn [mbind outcome_bind]. destruct r as [[wid w]|]; eexists; (split; [done|]); [|done].
  constructor; [by exists wid, w|done].
Qed.

(** A property of windows that putting a task where it fits keeps. *)
Context (Q : nat -> SchedWindow -> Prop).
Hypothesis Q_allocate : forall i req w window task, OpenWindows s !! i = Some req -> workerOf s (swr_Worker req) = Some w -> Q i window ->
  CanHandleRequest (SchedId task) (SealTask task) (needRes w task) (Info w) (Allocated window) (w_counters window) = true -> Q i (allocate w task window).1.

Definition allQ (windows : list SchedWindow) : Prop := forall i w, windows !! i = Some w -> Q i w.

(** The tasks of the queue at the indexes, which start at [sqi]. *)
Definition picks (queue : list (WorkerRequest * list nat)) (sqi : nat) : list nat -> list WorkerRequest -> Prop :=
  Forall2 (fun k t => (sqi <= k)%nat /\ fst <$> queue !! (k - sqi)%nat = Some t).

Lemma picks_later q queue sqi ks ts : picks queue (S sqi) ks ts -> picks (q :: queue) sqi ks ts.
Proof. intros Hp. eapply Forall2_impl; [exact Hp|]. intros k t [Hk Ht]. split; [lia|]. by replace (k - sqi)%nat with (S (k - S sqi)) by lia. Qed.

(** What an assigner gives: the windows with the tasks that they got. *)
Definition assigned (queue : list (WorkerRequest * list nat)) (sqi : nat) (windows windows' : list SchedWindow) (ks : list nat) : Prop :=
  length windows' = length windows /\ allQ windows' /\ StronglySorted lt ks /\
  exists ts, picks queue sqi ks ts /\ forall r, occ r (todos windows') = occ r (todos windows) + occ r ts.

Lemma assignTasks_ok {St} choose bump queue sqi windows rm (st : St) : chooser choose -> length windows = length (OpenWindows s) -> allQ windows ->
  Forall (fun q => Forall (valid s) q.2) queue ->
  exists windows' ks, assignTasks choose bump s sqi queue windows rm st = Ret (windows', rm ++ ks) /\ assigned queue sqi windows windows' ks.
Proof.
  intros Hch. revert sqi windows rm st. induction queue as [|[task wnds] queue IH]; intros sqi windows rm st Hlen HQ Hq; cbn [assignTasks].
  { exists windows, []. rewrite app_nil_r. split; [done|]. repeat split; [done..|constructor|]. exists []. split; [constructor|]. intros r. occs. lia. }
  apply Forall_cons in Hq as [Hv Hq]. destruct (Hch st sqi task wnds windows Hv Hlen) as (st' & sel & -> & Hsel). cbn [mbind outcome_bind].
  destruct sel as [wnd|]; [|destruct (IH (S sqi) windows rm st' Hlen HQ Hq) as (windows' & ks & -> & Hl & HQ' & Hs & ts & Hts & Hocc); exists windows', ks;
    repeat split; [done..|]; exists ts; by split; [apply picks_later|]].
  destruct (Hsel wnd eq_refl) as (wid & w & Hr). unfold tryWindow in Hr. destruct (OpenWindows s !! wnd) as [req|] eqn:Hreq; [|done].
  destruct (windows !! wnd) as [window|] eqn:Hwin; [|done]. destruct (workerOf s (swr_Worker req)) as [h|] eqn:Hw; [|done].
  destruct (CanHandleRequest _ _ _ _ _ _) eqn:Hcan in Hr; [|done]. destruct (allocate h task window) as [window' diff] eqn:Ha.
  assert (window' = (allocate h task window).1) as -> by by rewrite Ha.
  destruct (IH (S sqi) (<[wnd := (allocate h task window).1]> windows) (rm ++ [sqi]) (bump st' (swr_Worker req) task diff)) as (windows' & ks & -> & Hl & HQ' & Hs & ts & Hts & Hocc).
  - by rewrite length_insert.
  - intros i x [(-> & <- & _)|[_ Hx]]%list_lookup_insert_Some; [by eapply Q_allocate; [..|eapply HQ|]|by apply HQ].
  - done.
  - exists windows', (sqi :: ks). rewrite <-app_assoc. split; [done|]. split; [by rewrite Hl, length_insert|]. split; [done|]. split.
    + constructor; [done|]. apply Forall_forall. intros k Hk. apply list_elem_of_lookup in Hk as [i Hi].
      destruct (Forall2_lookup_l _ _ _ _ _ Hts Hi) as (t & _ & Hle & _). lia.
    + exists (task :: ts). split; [constructor; [by rewrite Nat.sub_diag|by apply picks_later]|]. intros r. rewrite Hocc, (todos_insert r wnd window) by done.
      replace (Todo (allocate h task window).1) with (Todo window ++ [task]) by done. occs. lia.
Qed.

Lemma WindowSel_ok a ans queue windows : length windows = length (OpenWindows s) -> allQ windows -> Forall (fun q => Forall (valid s) q.2) queue ->
  exists windows' ks, WindowSel a ans s queue windows = Ret (windows', ks) /\ assigned queue 0 windows windows' ks.
Proof.
  intros Hlen HQ Hq. destruct a as [|queued|queued|]; cbn [WindowSel].
  - apply (assignTasks_ok _ _ _ 0 windows [] _); [|done..]. intros st sqi task wnds ws Hv Hl. by apply lowestUtilization_ok.
  - apply (assignTasks_ok _ _ _ 0 windows [] _); [|done..]. intros st sqi task wnds ws Hv Hl. by apply fewestTasks_ok.
  - apply (assignTasks_ok _ _ _ 0 windows [] _); [|done..]. intros st sqi task wnds ws Hv Hl. by apply fewestTasks_ok.
  - apply (assignTasks_ok _ _ _ 0 windows [] _); [|done..]. intros st sqi task wnds ws Hv Hl.
    destruct (roomyWindows_ok task ws wnds Hv Hl) as (choices & -> & Hf). eexists _, _. split; [done|]. intros w Hw. by eapply Forall_lookup_1.
Qed.
End assign.

(** ** The places of a request *)

(** The scheduler has taken the windows of the worker, which is about to forget them. *)
Definition stale (p : Pc) : bool := match p with AtDisabled _ => true | _ => false end.

(** The tasks that have no answer. *)
Definition running (h : WorkerHandle) : list WorkerRequest := (filter (fun t => t.2 <> Responded) (tasks h)).*1.

Definition hocc (r : WorkerRequest) (h : WorkerHandle) : Z :=
  occ r (todos (scheduledWindows h)) + (if stale (pc h) then 0 else occ r (todos (activeWindows h))) + occ r (running h).

Definition total (r : WorkerRequest) (s : Sys) : Z :=
  occ r (SchedQueue s) + sumMap (hocc r) (handles s) + occ r (answered s).*1 + occ r (dropped s).

#[local] Arguments running : simpl never.

Lemma hocc_nonneg r h : 0 <= hocc r h.
Proof. unfold hocc. pose proof (occ_nonneg r (todos (scheduledWindows h))). pose proof (occ_nonneg r (todos (activeWindows h))). pose proof (occ_nonneg r (running h)).
  destruct (stale _); lia. Qed.

Lemma total_queue r s : occ r (SchedQueue s) <= total r s.
Proof.
  unfold total. pose proof (sumMap_nonneg (hocc r) (handles s) (hocc_nonneg r)). pose proof (occ_nonneg r (answered s).*1). pose proof (occ_nonneg r (dropped s)). lia.
Qed.

Lemma total_set_handle r n h h' s : handles s !! n = Some h -> total r (set_handle n h' s) = total r s - hocc r h + hocc r h'.
Proof. intros Hn. unfold total. cbn. rewrite (sumMap_upd _ _ _ h) by done. lia. Qed.

(** The queue is sorted, and the workers are the handles whose goroutine has not ended. *)
Record wf (s : Sys) : Prop := {
  wf_sorted : queueSorted (SchedQueue s);
  wf_workers w n : Workers s !! w = Some n <-> exists h, handles s !! n = Some h /\ wid h = w /\ pc h <> Exited;
}.

Lemma wf_set_handle n h h' s : wf s -> handles s !! n = Some h -> wid h' = wid h -> (pc h' = Exited <-> pc h = Exited) -> wf (set_handle n h' s).
Proof.
  intros [Hs Hw] Hn Hwid Hp. split; [done|]. intros w m. rewrite (Hw w m). cbn. destruct (decide (m = n)) as [->|Hne].
  - rewrite lookup_insert_eq. split; intros (x & Hx & <- & ?); simplify_eq; [exists h'|exists h]; naive_solver.
  - by rewrite lookup_insert_ne by done.
Qed.

(** ** Windows of a worker *)

Lemma moveTasks_occ r h lower window ts kept :
  occ r (Todo (moveTasks h lower window ts kept).1) + occ r (Todo (moveTasks h lower window ts kept).2) = occ r (Todo lower) + occ r ts + occ r kept.
Proof.
  revert lower window kept. induction ts as [|t ts IH]; intros lower window kept; cbn [moveTasks]; [cbn [fst snd Todo]; occs; lia|].
  case_match.
  - destruct (ar_Free _ _ _ _ _ _) as [a tc]. rewrite IH. replace (Todo (allocate h t lower).1) with (Todo lower ++ [t]) by done. occs. lia.
  - rewrite IH. occs. lia.
Qed.

Lemma compactLoop_occ r h lower ws : occ r (todos (compactLoop h lower ws)) = occ r (Todo lower) + occ r (todos ws).
Proof.
  revert lower. induction ws as [|w ws IH]; intros lower; cbn [compactLoop]; [rewrite todos_cons, occ_app; done|].
  pose proof (moveTasks_occ r h lower w (Todo w) []) as Hm. destruct (moveTasks _ _ _ _ _) as [l w'] eqn:E. cbn [fst snd] in Hm. rewrite !todos_cons, !occ_app, IH.
  rewrite occ_nil in Hm. lia.
Qed.

Lemma hasTasks_occ r ws : occ r (todos (List.filter hasTasks ws)) = occ r (todos ws).
Proof.
  induction ws as [|w ws IH]; [done|]. cbn [List.filter]. rewrite todos_cons, occ_app. unfold hasTasks at 1. destruct (Todo w) eqn:Et; [rewrite IH; occs; lia|].
  rewrite todos_cons, occ_app, Et. lia.
Qed.

(** The same handle but for its tasks and the resources in use. *)
Record sameWindows (h h' : WorkerHandle) : Prop := {
  sw_wid : wid h' = wid h;
  sw_Info : Info h' = Info h;
  sw_active : activeWindows h' = activeWindows h;
  sw_Enabled : Enabled h' = Enabled h;
  sw_requested : windowsRequested h' = windowsRequested h;
  sw_scheduled : scheduledWindows h' = scheduledWindows h;
  sw_taskDone : taskDone h' = taskDone h;
  sw_pc : pc h' = pc h;
}.

#[local] Instance sameWindows_pre : PreOrder sameWindows.
Proof. split; [done|]. intros h1 h2 h3 [] []. split; congruence. Qed.

Lemma running_snoc h ts r p : p <> Responded -> running (set_tasks (ts ++ [(r, p)]) h) = running (set_tasks ts h) ++ [r].
Proof. intros Hp. unfold running. cbn. rewrite filter_app, fmap_app. f_equal. by rewrite filter_cons_True. Qed.

(** What the start of a task does to the handle. *)
Definition starts (start : WorkerRequest -> WorkerHandle -> WorkerHandle) : Prop :=
  forall t h, sameWindows h (start t h) /\ running (start t h) = running h ++ [t].

Lemma startPreparing : starts startProcessingTask.
Proof. intros t h. split; [by destruct h|]. unfold startProcessingTask. destruct (ar_Add _ _ _ _ _ _) as [[a tc] u]. by rewrite running_snoc. Qed.

Lemma startReady : starts startProcessingReadyTask.
Proof. intros t h. split; [by destruct h|]. unfold startProcessingReadyTask. destruct (ar_Add _ _ _ _ _ _) as [[a tc] u]. by rewrite running_snoc. Qed.

Lemma startTasks_ok can start k todo h : starts start -> let res := startTasks can start k todo h in
  sameWindows h res.2 /\ forall r, occ r res.1 + occ r (running res.2) = occ r todo + occ r (running h).
Proof.
  intros Hst. revert todo h. induction k as [|k IH]; intros todo h; cbn [startTasks]; [by split|].
  destruct (list_find _ todo) as [[i t]|] eqn:Ef; [|by split]. apply list_find_Some in Ef as (Hi & _ & _). destruct (Hst t h) as [Hs Hr].
  destruct (IH (delete i todo) (start t h)) as [Hs' Ho]. split; [by etrans|]. intros r. cbn zeta in *. rewrite Ho, Hr, occ_app, occ_cons.
  rewrite (occ_perm r todo (t :: delete i todo)), occ_cons by by apply delete_Permutation. rewrite occ_nil. lia.
Qed.

Lemma assignWork_ok can start ws h : starts start -> let res := assignWork can start ws h in
  sameWindows h res.2 /\ (forall r, occ r (todos res.1) + occ r (running res.2) = occ r (todos ws) + occ r (running h)) /\ (length res.1 <= length ws)%nat.
Proof.
  intros Hst. revert h. induction ws as [|w ws IH]; intros h; cbn [assignWork]; [by repeat split|].
  destruct (startTasks_ok can start (length (Todo w)) (Todo w) h Hst) as [Hs Ho]. destruct (startTasks _ _ _ _ _) as [todo h']. cbn [fst snd] in *.
  destruct todo as [|t todo].
  - destruct (IH h') as (Hs' & Ho' & Hl). split; [by etrans|]. cbn zeta in *. cbn [length]. split; [|lia]. intros r. specialize (Ho r). specialize (Ho' r).
    rewrite todos_cons, occ_app. rewrite occ_nil in Ho. lia.
  - split; [done|]. cbn [fst snd length]. split; [|lia]. intros r. specialize (Ho r). rewrite !todos_cons, !occ_app. cbn [Todo]. lia.
Qed.

(** The windows that a worker has asked for and has not used up. *)
Definition openCount (h : WorkerHandle) : Z := windowsRequested h - Z.of_nat (length (activeWindows h)).

(** What processing the windows keeps. *)
Definition processed (h h' : WorkerHandle) : Prop :=
  (forall r, occ r (todos (activeWindows h')) + occ r (running h') = occ r (todos (activeWindows h)) + occ r (running h)) /\
  wid h' = wid h /\ pc h' = pc h /\ scheduledWindows h' = scheduledWindows h /\ Enabled h' = Enabled h /\ openCount h' = openCount h /\
  (length (activeWindows h') <= length (activeWindows h))%nat.

#[local] Instance processed_pre : PreOrder processed.
Proof. split; [done|]. intros h1 h2 h3 (Ho & ? & ? & ? & ? & ? & ?) (Ho' & ? & ? & ? & ? & ? & ?). split; [intros r; by rewrite Ho'|]. split_and!; first [congruence|lia]. Qed.

Lemma assignWindows_processed can start h : starts start -> processed h (assignWindows can start h).
Proof.
  intros Hst. unfold assignWindows. destruct (assignWork_ok can start (activeWindows h) h Hst) as (Hs & Ho & Hl). destruct (assignWork _ _ _ _) as [ws h'].
  cbn [fst snd] in *. destruct Hs. unfold processed, openCount. cbn. split_and!; first [done|lia].
Qed.

Lemma compact_processed h : processed h (workerCompactWindows h).
Proof.
  unfold processed, openCount, workerCompactWindows. cbn [activeWindows set_windows windowsRequested]. split; [|split; [done|split; [done|split; [done|split; [done|]]]]].
  - intros r. rewrite hasTasks_occ. destruct (activeWindows h) as [|w ws]; [done|]. by rewrite compactLoop_occ, todos_cons, occ_app.
  - assert (length (match activeWindows h with [] => [] | w :: ws => compactLoop h w ws end) = length (activeWindows h)) as Hl.
    { destruct (activeWindows h) as [|w ws]; [done|]. revert w. induction ws as [|w' ws IH]; intros w; cbn [compactLoop]; [done|]. destruct (moveTasks _ _ _ _ _) as [l w2]. cbn [length]. by rewrite IH. }
    pose proof (List.filter_length_le hasTasks (match activeWindows h with [] => [] | w :: ws => compactLoop h w ws end)). split; lia.
Qed.

Lemma process_processed h : processed h (processAssignedWindows (workerCompactWindows h)).
Proof.
  etrans; [apply compact_processed|]. unfold processAssignedWindows, assignPreparingWork, assignReadyWork. etrans; [|apply assignWindows_processed, startPreparing].
  case_match; [done|]. apply assignWindows_processed, startReady.
Qed.

(** ** Tasks *)

(** The tasks without an answer of a list. *)
Definition unanswered (r : WorkerRequest) (ts : list (WorkerRequest * Phase)) : Z := occ r (filter (fun t => t.2 <> Responded) ts).*1.

Lemma unanswered_perm r ts ts' : ts ≡ₚ ts' -> unanswered r ts = unanswered r ts'.
Proof. intros Hp. unfold unanswered. apply occ_perm. by rewrite Hp. Qed.

Lemma unanswered_cons r t p ts : unanswered r ((t, p) :: ts) = (if decide (p <> Responded) then occ r [t] else 0) + unanswered r ts.
Proof. unfold unanswered. rewrite filter_cons. cbn [snd]. case_decide; cbn [fmap list_fmap fst]; occs; lia. Qed.

Lemma insert_perm {A} (l : list A) i x y : l !! i = Some x -> <[i := y]> l ≡ₚ y :: delete i l.
Proof. intros Hi%lookup_lt_Some. rewrite insert_take_drop, delete_take_drop by done. symmetry. apply Permutation_middle. Qed.

Lemma unanswered_delete r ts i t p : ts !! i = Some (t, p) -> unanswered r ts = (if decide (p <> Responded) then occ r [t] else 0) + unanswered r (delete i ts).
Proof. intros Hi. by rewrite (unanswered_perm r ts ((t, p) :: delete i ts)), unanswered_cons by by apply delete_Permutation. Qed.

Lemma unanswered_insert r ts i t p p' : ts !! i = Some (t, p) ->
  unanswered r (<[i := (t, p')]> ts) = (if decide (p' <> Responded) then occ r [t] else 0) + unanswered r (delete i ts).
Proof. intros Hi. by rewrite (unanswered_perm r _ ((t, p') :: delete i ts)), unanswered_cons by by eapply insert_perm. Qed.

Lemma unanswered_wake r ts : unanswered r (wake <$> ts) = unanswered r ts.
Proof.
  induction ts as [|[t p] ts IH]; [done|]. cbn [fmap list_fmap]. rewrite unanswered_cons, <-IH. unfold wake at 1. destruct p; cbn [fst snd]; by rewrite unanswered_cons.
Qed.

(** ** Steps *)

(** A step that is not possible does not happen, and none panics. *)
Definition steps_to {A} (P : A -> Prop) (o : outcome A) : Prop := match o with Ret a => P a | Err _ => True | Panic => False end.

Lemma steps_bind {A B} (P : A -> Prop) (Q : B -> Prop) (o : outcome A) f : steps_to P o -> (forall a, P a -> steps_to Q (f a)) -> steps_to Q (o ≫= f).
Proof. destruct o; cbn; auto. Qed.

Lemma steps_impl {A} (P Q : A -> Prop) (o : outcome A) : steps_to P o -> (forall a, P a -> Q a) -> steps_to Q o.
Proof. destruct o; cbn; auto. Qed.

(** The requests [rs] have their places. *)
Definition kept (rs : list WorkerRequest) (s : Sys) : Prop := wf s /\ forall r, total r s = occ r rs.

Lemma kept_queue rs s : kept rs s -> noTies rs -> noTies (SchedQueue s).
Proof. intros [_ Ht] Hn. eapply noTies_sub; [done|]. intros r. rewrite !occ_in, <-Ht. pose proof (total_queue r s). lia. Qed.

Lemma kept_set_handle rs n h h' s : kept rs s -> handles s !! n = Some h -> wid h' = wid h -> (pc h' = Exited <-> pc h = Exited) ->
  (forall r, hocc r h' = hocc r h) -> kept rs (set_handle n h' s).
Proof. intros [Hwf Ht] Hn Hw Hp Ho. split; [by eapply wf_set_handle|]. intros r. rewrite (total_set_handle r _ h), Ho, <-Ht by done. lia. Qed.

Lemma kept_frame rs s s' : kept rs s -> SchedQueue s' = SchedQueue s -> handles s' = handles s -> Workers s' = Workers s -> answered s' = answered s -> dropped s' = dropped s ->
  kept rs s'.
Proof.
  intros [[Hs Hw] Ht] Eq Eh Ew Ea Ed. split; [split; [by rewrite Eq|]|]. { intros w n. by rewrite Eh, Ew. } intros r. rewrite <-Ht. unfold total. by rewrite Eq, Eh, Ea, Ed.
Qed.

(** ** A pass of the assigner *)

Lemma sendWindow_ok s req window : wf s -> let s' := sendWindow s req window in
  wf s' /\ SchedQueue s' = SchedQueue s /\ forall r, total r s' = total r s + occ r (Todo window).
Proof.
  intros Hwf. assert (wf (drop_window window s)) as Hd by (destruct Hwf; by split).
  assert (forall r, total r (drop_window window s) = total r s + occ r (Todo window)) as Ht by (intros r; unfold total; cbn; rewrite occ_app; lia).
  unfold sendWindow. destruct (handles s !! Done req) as [h|] eqn:Hh; [|by split_and!]. case_match; [|by split_and!].
  split; [by eapply wf_set_handle|]. split; [done|]. intros r. rewrite (total_set_handle r _ h) by done. unfold hocc. cbn [set_scheduled scheduledWindows pc activeWindows].
  rewrite todos_app, occ_app, todos_cons, occ_app. change (running (set_scheduled _ h)) with (running h). change (todos []) with (@nil WorkerRequest). rewrite occ_nil. lia.
Qed.

Lemma submitWindows_ok s open windows kept : wf s -> length open = length windows -> let s' := (submitWindows s open windows kept).1 in
  wf s' /\ SchedQueue s' = SchedQueue s /\ forall r, total r s' = total r s + occ r (todos windows).
Proof.
  revert s windows kept. induction open as [|req open IH]; intros s [|w windows] kept Hwf Hl; simplify_eq/=.
  - split_and!; [done..|]. intros r. change (todos []) with (@nil WorkerRequest). rewrite occ_nil. lia.
  - destruct (Todo w) as [|t ts] eqn:Et.
    + destruct (IH s windows (kept ++ [req]) Hwf Hl) as (Hwf' & Hq & Ht). split_and!; [done..|]. intros r. rewrite todos_cons, Et, Ht. done.
    + destruct (sendWindow_ok s req w Hwf) as (Hwf1 & Hq1 & Ht1). destruct (IH _ windows kept Hwf1 Hl) as (Hwf' & Hq & Ht).
      split_and!; [done|congruence|]. intros r. rewrite todos_cons, occ_app, Ht, Ht1. lia.
Qed.

Lemma picks_omap (f : nat -> WorkerRequest -> list nat) q ks ts : picks (imap (fun i t => (t, f i t)) q) 0 ks ts -> omap (q !!.) ks = ts /\ Forall (fun k => k < length q)%nat ks.
Proof.
  induction 1 as [|k t ks ts [_ Hk] _ [IH1 IH2]]; [done|]. rewrite Nat.sub_0_r, list_lookup_imap in Hk. cbn [omap list_omap].
  destruct (q !! k) as [x|] eqn:Hx; [|done]. injection Hk as <-. rewrite IH1. split; [done|]. constructor; [by eapply lookup_lt_Some|done].
Qed.

Section steps.
Context `{GoSortOk}.

(** A pass takes tasks from the queue and puts them into the windows, of which the ones with tasks
    are sent; [Q] is a property of windows as above. *)
Lemma TrySched_spec (Q : nat -> SchedWindow -> Prop) a ans s :
  (forall i req w window task, OpenWindows s !! i = Some req -> workerOf s (swr_Worker req) = Some w -> Q i window ->
    CanHandleRequest (SchedId task) (SealTask task) (needRes w task) (Info w) (Allocated window) (w_counters window) = true -> Q i (allocate w task window).1) ->
  (forall i, Q i newWindow) -> wf s -> noTies (SchedQueue s) ->
  exists q ts windows, queueSorted q /\ (forall r, occ r (SchedQueue s) = occ r q + occ r ts) /\ length windows = length (OpenWindows s) /\ allQ Q windows /\
    (forall r, occ r (todos windows) = occ r ts) /\
    ((ts = [] /\ TrySched a ans s = Ret (set_SchedQueue q s)) \/
     let x := submitWindows (set_SchedQueue q s) (OpenWindows s) windows [] in TrySched a ans s = Ret (set_OpenWindows x.2 x.1)).
Proof.
  intros HQ Hnew Hwf Hn. unfold TrySched. set (windows0 := replicate (length (OpenWindows s)) newWindow).
  assert (length windows0 = length (OpenWindows s)) as Hl0 by apply length_replicate.
  assert (allQ Q windows0) as HQ0 by (intros i w [-> _]%lookup_replicate; apply Hnew).
  assert (exists q ts windows, queueSorted q /\ (forall r, occ r (SchedQueue s) = occ r q + occ r ts) /\ length windows = length (OpenWindows s) /\ allQ Q windows /\
    (forall r, occ r (todos windows) = occ r ts) /\ ((ts = [] /\ Ret s = Ret (set_SchedQueue q s)) \/
     let x := submitWindows (set_SchedQueue q s) (OpenWindows s) windows [] in Ret s = Ret (set_OpenWindows x.2 x.1))) as Hnone.
  { exists (SchedQueue s), [], windows0. split_and!; [apply Hwf|intros r; occs; lia|done..| |]; [unfold windows0; intros r; by rewrite todos_new|left; by destruct s]. }
  destruct (OpenWindows s) as [|w0 ws0] eqn:Ew; [done|]. destruct (SchedQueue s) as [|q0 qs0] eqn:Eq; [done|]. clear Hnone.
  rewrite <-Ew, <-Eq in *. clear Ew Eq. set (queue := imap _ (SchedQueue s)).
  destruct (WindowSel_ok s Q HQ a ans queue windows0 Hl0 HQ0) as (windows & ks & -> & Hlen & HQw & Hks & ts & Hts & Hocc).
  - apply Forall_forall. intros q Hq. apply list_elem_of_lookup in Hq as [i Hi]. unfold queue in Hi. rewrite list_lookup_imap in Hi.
    destruct (SchedQueue s !! i); [|done]. injection Hi as <-. apply acceptableWindows_valid.
  - apply picks_omap in Hts as [Hom Hlt]. destruct (removeAll_ok ks (SchedQueue s) Hks Hlt Hn (wf_sorted s Hwf)) as (q' & Hq' & Hs' & _ & _ & Ho).
    rewrite Hom in Ho. cbn [mbind outcome_bind]. rewrite Hq'. cbn [mbind outcome_bind]. rewrite Hl0 in Hlen.
    assert (forall r, occ r (todos windows) = occ r ts) as Ht by (intros r; rewrite Hocc; unfold windows0; by rewrite todos_new).
    exists q', ts, windows. split_and!; [done..|]. destruct ks as [|k ks]; [left; split; [by cbn in Hom; subst|done]|right]. by destruct (submitWindows _ _ _ _).
Qed.

Lemma TrySched_ok a ans s : wf s -> noTies (SchedQueue s) -> exists s', TrySched a ans s = Ret s' /\ wf s' /\ forall r, total r s' = total r s.
Proof.
  intros Hwf Hn. destruct (TrySched_spec (fun _ _ => True) a ans s) as (q & ts & windows & Hq & Ho & Hl & _ & Ht & Hr); [done..|].
  assert (wf (set_SchedQueue q s)) as Hwf' by (destruct Hwf; by split).
  assert (forall r, total r (set_SchedQueue q s) + occ r ts = total r s) as Htot by (intros r; specialize (Ho r); unfold total; cbn; lia). destruct Hr as [[-> ->]|Hr].
  - eexists. split; [done|]. split; [done|]. intros r. specialize (Htot r). rewrite occ_nil in Htot. lia.
  - destruct (submitWindows_ok (set_SchedQueue q s) (OpenWindows s) windows [] Hwf' ltac:(done)) as (Hwf2 & _ & Ht2). cbn zeta in *. rewrite Hr.
    eexists. split; [done|]. split; [destruct Hwf2; by split|]. intros r. change (total r (set_OpenWindows ?k ?s)) with (total r s). rewrite Ht2, Ht. apply Htot.
Qed.

Definition scheduled (m : Msg) : list WorkerRequest := match m with MSchedule r => [r] | _ => [] end.

(** The requests that come with an event. *)
Definition requests (e : SchedEvent) : list WorkerRequest := match e with ERun m ms _ => scheduled m ++ concat (scheduled <$> ms) | _ => [] end.

(** The requests that were scheduled in a run. *)
Fixpoint scheduledBy (a : Assigner) (es : list SchedEvent) (s : Sys) : list WorkerRequest :=
  match es with
  | [] => []
  | e :: es => match schedStep a e s with Ret s => requests e ++ scheduledBy a es s | Err _ => scheduledBy a es s | Panic => requests e end
  end.

(** The workers whose requests to be disabled were taken. *)
Definition disabling (s : Sys) (ns : list nat) : Prop := NoDup ns /\ forall n, n ∈ ns -> exists h k, handles s !! n = Some h /\ pc h = AtDisabling k.

Lemma kept_removed rs s i r q : kept rs s -> noTies rs -> SchedQueue s !! i = Some r -> queue_Remove i (SchedQueue s) = q ->
  steps_to (fun q => forall e, kept rs (answer r e (set_SchedQueue q s))) q.
Proof.
  intros [Hwf Ht] Hn Hi <-. rewrite queue_Remove_delete; [|by eapply lookup_lt_Some|by eapply kept_queue|apply Hwf]. intros e. split.
  - destruct Hwf. split; [by apply sorted_delete|done].
  - intros x. rewrite <-Ht. unfold total. cbn [answer set_SchedQueue SchedQueue handles answered dropped]. rewrite fmap_app, occ_app. cbn [fmap list_fmap fst].
    rewrite (occ_perm x (SchedQueue s) (r :: delete i (SchedQueue s))) by by apply delete_Permutation. occs. lia.
Qed.

Lemma receive_ok m s rs ns : kept rs s -> disabling s ns -> noTies (rs ++ scheduled m) ->
  steps_to (fun x => kept (rs ++ scheduled m) x.1 /\ disabling x.1 x.2) (receive m s ns).
Proof.
  intros Hk Hd Hn. assert (noTies rs) as Hn' by (eapply noTies_sub; [done|set_solver]).
  destruct m as [id| |n|r| |]; cbn [receive scheduled] in *; rewrite ?app_nil_r in *.
  - unfold removeRequest. destruct (list_find _ (SchedQueue s)) as [[i r]|] eqn:Ef; [|done]. apply list_find_Some in Ef as (Hi & _).
    pose proof (kept_removed rs s i r _ Hk Hn' Hi eq_refl) as Hr. destruct (queue_Remove i (SchedQueue s)); [|done..]. split; [apply Hr|done].
  - case_match; [|done]. split; [by eapply kept_frame|done].
  - destruct (handles s !! n) as [h|] eqn:Hh; [|done]. destruct (pc h) eqn:Hp; try done. cbn. split.
    + eapply kept_set_handle; [done..| |]; [by rewrite Hp|]. intros r. unfold hocc. cbn. by rewrite Hp.
    + destruct Hd as [Hnd Hd]. assert (n ∉ ns) as Hnn by (intros (h' & k' & ? & ?)%Hd; congruence). split; [apply NoDup_app; split; [done|]; split; [set_solver|apply NoDup_singleton]|].
      intros m. rewrite elem_of_app, list_elem_of_singleton. cbn. intros [Hm| ->]; [|rewrite lookup_insert_eq; by eauto]. rewrite lookup_insert_ne by (intros ->; done). by apply Hd.
  - destruct Hk as [Hwf Ht]. split; [|done]. split.
    + destruct Hwf. split; [|done]. apply queue_Push_sorted. eapply noTies_sub; [exact Hn|]. intros x. rewrite elem_of_cons. intros [-> |Hx]; [apply elem_of_app; right; by apply list_elem_of_singleton|].
      apply elem_of_app. left. apply occ_in. rewrite <-Ht. apply occ_in in Hx. pose proof (total_queue x s). lia.
    + intros x. unfold total. cbn. rewrite (occ_perm x _ _ (queue_Push_perm _ _)). occs. rewrite <-Ht. unfold total. lia.
  - destruct (windowRequests s) as [|req reqs]; [done|]. split; [by eapply kept_frame|done].
  - case_match; [done|]. split; [by eapply kept_frame|done].
Qed.

Lemma gather_ok ms s rs ns : kept rs s -> disabling s ns -> noTies (rs ++ concat (scheduled <$> ms)) ->
  steps_to (fun x => kept (rs ++ concat (scheduled <$> ms)) x.1 /\ disabling x.1 x.2) (gatherMsgs ms s ns).
Proof.
  revert s rs ns. induction ms as [|m ms IH]; intros s rs ns Hk Hd Hn; cbn [gatherMsgs fmap list_fmap concat] in *; [by rewrite app_nil_r|]. rewrite app_assoc in *.
  case_match; [|done]. eapply steps_bind; [apply (receive_ok m s rs ns); [done..|eapply noTies_sub; [done|set_solver]]|]. intros [s1 ns1] [Hk1 Hd1]. by apply IH.
Qed.

Lemma disableWorker_ok n ns s rs : kept rs s -> noTies rs -> disabling s (n :: ns) -> steps_to (fun s' => kept rs s' /\ disabling s' ns) (disableWorker n s).
Proof.
  intros Hk Hn [[Hnn Hnd]%NoDup_cons Hd]. destruct (Hd n ltac:(set_solver)) as (h & k & Hh & Hp). unfold disableWorker. rewrite Hh. destruct Hk as [Hwf Ht].
  assert (Workers s !! wid h = Some n) as -> by (apply (wf_workers s Hwf); exists h; by rewrite Hp). rewrite Hh. cbn [handles set_handle set_handles]. rewrite lookup_insert_eq.
  cbn [pc set_Enabled]. rewrite Hp. set (s1 := set_OpenWindows _ _). set (h1 := set_Enabled false h).
  assert (wf s1) as Hwf1.
  { destruct Hwf as [Hs Hw]. split; [|done]. apply Pushes_sorted; [|done]. eapply noTies_sub; [done|]. intros x. rewrite occ_in. rewrite occ_app. intros Hx. apply occ_in. rewrite <-Ht.
    unfold total. pose proof (occ_nonneg x (answered s).*1). pose proof (occ_nonneg x (dropped s)).
    assert (occ x (todos (activeWindows h)) <= sumMap (hocc x) (handles s)); [|unfold todos in *; lia].
    rewrite <-(insert_delete_id _ _ _ Hh), sumMap_new by apply lookup_delete_eq. pose proof (sumMap_nonneg (hocc x) (delete n (handles s)) (hocc_nonneg x)).
    unfold hocc at 1. rewrite Hp. cbn [stale]. pose proof (occ_nonneg x (todos (scheduledWindows h))). pose proof (occ_nonneg x (running h)). lia. }
  assert (handles s1 !! n = Some h) as Hh1 by done. assert (handles (set_handle n h1 s1) !! n = Some h1) as Hh2 by (cbn; by rewrite lookup_insert_eq).
  cbn. split; [|split; [done|]].
  - split.
    + eapply wf_set_handle; [eapply wf_set_handle; [done|exact Hh1|done|done]|exact Hh2|done|]. cbn. by rewrite Hp.
    + intros r. erewrite total_set_handle by exact Hh2. erewrite total_set_handle by exact Hh1. rewrite <-Ht. unfold hocc, h1, running. cbn. rewrite Hp. cbn.
      unfold total, s1. cbn. rewrite (occ_perm r _ _ (Pushes_perm _ _)), occ_app. unfold todos. lia.
  - intros m Hm. assert (m <> n) by (intros ->; done). cbn. rewrite !lookup_insert_ne by done. apply Hd. set_solver.
Qed.

Lemma disableWorkers_ok ns s rs : kept rs s -> noTies rs -> disabling s ns -> steps_to (kept rs) (disableWorkers ns s).
Proof.
  revert s. induction ns as [|n ns IH]; intros s Hk Hn Hd; cbn [disableWorkers]; [done|].
  eapply steps_bind; [by apply (disableWorker_ok n ns s rs)|]. intros s' [Hk' Hd']. by apply IH.
Qed.

Lemma runSched_ok a m ms ans s rs : kept rs s -> noTies (rs ++ scheduled m ++ concat (scheduled <$> ms)) ->
  steps_to (kept (rs ++ scheduled m ++ concat (scheduled <$> ms))) (runSched a m ms ans s).
Proof.
  intros Hk Hn. unfold runSched. eapply steps_bind; [apply (receive_ok m s rs []); [done|split; [constructor|set_solver]|eapply noTies_sub; [done|set_solver]]|].
  intros [s1 ns1] [Hk1 Hd1]. rewrite app_assoc in *. case_match.
  - eapply steps_bind; [by apply (gather_ok ms s1 (rs ++ scheduled m) ns1)|]. intros [s2 ns2] [Hk2 Hd2]. eapply steps_bind; [by apply disableWorkers_ok|].
    intros s3 Hk3. destruct (TrySched_ok a ans s3 (proj1 Hk3)) as (s4 & -> & Hwf4 & Ht4); [by eapply kept_queue|]. split; [done|]. intros r. by rewrite Ht4, (proj2 Hk3).
  - destruct ms; [|done]. cbn. by rewrite app_nil_r.
Qed.

(** ** Steps of workers and tasks *)

(** The handle has the same requests. *)
Lemma hocc_same r h h' : scheduledWindows h' = scheduledWindows h -> stale (pc h') = stale (pc h) ->
  (stale (pc h) = false -> occ r (todos (activeWindows h')) + occ r (running h') = occ r (todos (activeWindows h)) + occ r (running h)) ->
  (stale (pc h) = true -> occ r (running h') = occ r (running h)) -> hocc r h' = hocc r h.
Proof. intros Es Ep Hf Ht. unfold hocc. rewrite Es, Ep. destruct (stale (pc h)); [by rewrite Ht|]. specialize (Hf eq_refl). lia. Qed.

Lemma kept_worker rs n h h' s : kept rs s -> handles s !! n = Some h -> wid h' = wid h -> (pc h' = Exited <-> pc h = Exited) ->
  scheduledWindows h' = scheduledWindows h -> activeWindows h' = activeWindows h -> tasks h' = tasks h -> stale (pc h') = stale (pc h) -> kept rs (set_handle n h' s).
Proof. intros Hk Hh Hw Hp Es Ea Et Ep. eapply kept_set_handle; [done..|]. intros r. apply hocc_same; [done..| |]; unfold running; by rewrite ?Ea, Et. Qed.

Lemma receiveWindow_ok n h p s rs : kept rs s -> handles s !! n = Some h -> stale (pc h) = false -> stale p = false -> (p = Exited <-> pc h = Exited) ->
  steps_to (kept rs) (receiveWindow n h p s).
Proof.
  intros Hk Hh Hs Hs' Hp. unfold receiveWindow. destruct (scheduledWindows h) as [|w ws] eqn:Ew; [done|]. cbn. eapply kept_set_handle; [done..|].
  intros r. unfold hocc, running. cbn. rewrite Hs, Hs', Ew. rewrite todos_app, !todos_cons, !occ_app. change (todos []) with (@nil WorkerRequest). rewrite occ_nil. lia.
Qed.

Lemma disabled_ok n h k s rs : kept rs s -> handles s !! n = Some h -> pc h = AtDisabled k -> kept rs (disabled n h k s).
Proof.
  intros Hk Hh Hp. assert (forall p r, stale p = false -> hocc r (set_pc p (set_windows [] 0 h)) = hocc r h) as Ho.
  { intros p r Hs. unfold hocc, running. cbn. rewrite Hp, Hs. cbn. change (todos []) with (@nil WorkerRequest). by rewrite occ_nil. }
  unfold disabled. destruct k; [eapply kept_set_handle; [done..| |intros; by apply Ho]; cbn; by rewrite Hp..|]. cbn. destruct Hk as [[Hs Hw] Ht]. split.
  - split; [done|]. intros w m. cbn. rewrite lookup_delete_Some, Hw. assert (Workers s !! wid h = Some n) as Hn by (apply Hw; exists h; by rewrite Hp).
    destruct (decide (m = n)) as [->|Hne]; [rewrite lookup_insert_eq; split; [intros (Hne & x & Hx & ? & ?)|intros (x & [= <-] & ? & ?)]; by simplify_eq|].
    rewrite lookup_insert_ne by done. split; [by intros [_ ?]|]. intros (x & Hx & <- & Hxp). split; [|by exists x]. intros Hwid.
    assert (Workers s !! wid x = Some m) by (apply Hw; by exists x). congruence.
  - intros r. change (total r (set_Workers _ ?s)) with (total r s). rewrite (total_set_handle r _ h), Ho, <-Ht by done. lia.
Qed.

#[local] Ltac worker_step n h Hp := apply (kept_worker _ n h); cbn; rewrite ?Hp; done.

Lemma handleWorker_ok n st s rs : kept rs s -> steps_to (kept rs) (handleWorker n st s).
Proof.
  intros Hk. unfold handleWorker. destruct (handles s !! n) as [h|] eqn:Hh; [|done].
  destruct (pc h) eqn:Hp, st; try done; cbn [steps_to]; try worker_step n h Hp.
  - unfold requestWindows. case_match; [case_match; [|done]|]; cbn [steps_to]; [|worker_step n h Hp].
    eapply kept_frame; [apply (kept_worker rs n h (set_windows (activeWindows h) (windowsRequested h + 1) h) s)|..]; done.
  - unfold checkSession. destruct answer; [| |destruct (Enabled h)]; worker_step n h Hp.
  - by apply disabled_ok.
  - apply receiveWindow_ok; by rewrite ?Hp.
  - apply receiveWindow_ok; by rewrite ?Hp.
  - case_match; [|done]. cbn [steps_to]. eapply kept_frame; [apply (kept_worker rs n h (set_pc AtProcess (set_taskDone false h)) s)|..]; cbn; rewrite ?Hp; done.
  - apply (kept_set_handle _ n h); [done..| | |]; cbn; [apply (process_processed h)|by rewrite Hp|]. intros r. apply hocc_same; cbn; rewrite ?Hp; [|done| |done].
    + apply (process_processed h).
    + intros _. apply process_processed.
Qed.

Lemma runWorker_ok n w info s rs : kept rs s -> steps_to (kept rs) (runWorker n w info s).
Proof.
  intros Hk. unfold runWorker. destruct (handles s !! n) eqn:Hh; [done|]. destruct (Workers s !! w) eqn:Ew; [done|]. destruct Hk as [[Hs Hw] Ht]. cbn. split.
  - split; [done|]. intros w' m. cbn. destruct (decide (m = n)) as [->|Hne].
    + rewrite lookup_insert_eq. split; [|intros (x & [= <-] & <- & _); by rewrite lookup_insert_eq]. intros [[-> _]|[_ Hm]]%lookup_insert_Some; [by eexists|].
      apply Hw in Hm as (x & Hx & _). congruence.
    + rewrite (lookup_insert_ne (handles s)), <-Hw by done. split; [intros [[_ ->]|[_ ?]]%lookup_insert_Some; done|]. intros Hm. rewrite lookup_insert_ne; [done|]. intros ->. congruence.
  - intros r. rewrite <-Ht. unfold total. cbn. rewrite sumMap_new by done. unfold hocc, running. cbn. change (todos []) with (@nil WorkerRequest). rewrite occ_nil. lia.
Qed.

Lemma withResources_ok i r p h : tasks h !! i = Some (r, p) -> p <> Responded -> let h' := withResources i r h in
  wid h' = wid h /\ pc h' = pc h /\ scheduledWindows h' = scheduledWindows h /\ activeWindows h' = activeWindows h /\ forall x, occ x (running h') = occ x (running h).
Proof.
  intros Hi Hp. assert (forall x p', p' <> Responded -> unanswered x (<[i := (r, p')]> (tasks h)) = unanswered x (tasks h)) as Hr.
  { intros x p' Hp'. by rewrite (unanswered_insert x _ _ _ p), (unanswered_delete x (tasks h) i r p), !decide_True by done. }
  unfold withResources. case_match; [|split_and!; try done; intros x; by apply (Hr x Blocked)].
  destruct (ar_Add _ _ _ _ _ _) as [[a tc] u]. destruct (ar_Free _ _ _ _ _ _) as [q tc']. split_and!; try done. intros x. by apply (Hr x Working).
Qed.

(** A request that gets its answer. *)
Lemma kept_answered rs n h h' s r e : kept rs s -> handles s !! n = Some h -> wid h' = wid h -> pc h' = pc h ->
  (forall x, hocc x h' + occ x [r] = hocc x h) -> kept rs (answer r e (set_handle n h' s)).
Proof.
  intros [Hwf Ht] Hh Hw Hp Ho. destruct (wf_set_handle n h h' s) as [Hs Hws]; [done..|by rewrite Hp|]. split; [by split|].
  intros x. pose proof (total_set_handle x n h h' s Hh) as Hx. specialize (Ho x). rewrite <-Ht. unfold total in *. cbn in *. rewrite fmap_app, occ_app. cbn. lia.
Qed.

Lemma runTask_ok n i st s rs : kept rs s -> steps_to (kept rs) (runTask n i st s).
Proof.
  intros Hk. unfold runTask. destruct (handles s !! n) as [h|] eqn:Hh; [|done]. destruct (tasks h !! i) as [[r p]|] eqn:Hi; [|done]. destruct p, st; try done.
  - destruct (withResources_ok i r Preparing h Hi) as (Hw & Hp & Es & Ea & Hr); [done|]. eapply kept_set_handle; [done..|by rewrite Hp|]. intros x. apply hocc_same; by rewrite ?Ea, ?Hp, ?Hr.
  - destruct (ar_Free _ _ _ _ _ _) as [q tc]. cbn [steps_to]. eapply kept_answered; [done..|]. intros x. unfold hocc. cbn.
    pose proof (unanswered_delete x (tasks h) i r Preparing Hi) as Hx. rewrite decide_True in Hx by done. unfold unanswered in Hx. unfold running. cbn. lia.
  - set (h1 := set_active _ _ h). destruct (withResources_ok i r Woken h1 Hi) as (Hw & Hp & Es & Ea & Hr); [done|]. eapply kept_set_handle; [done..|by rewrite Hp|].
    intros x. apply hocc_same; by rewrite ?Ea, ?Hp, ?Hr.
  - cbn [steps_to]. eapply kept_answered; [done..|]. intros x. unfold hocc. cbn. pose proof (unanswered_delete x (tasks h) i r Working Hi) as Hx.
    pose proof (unanswered_insert x (tasks h) i r Working Responded Hi) as Hx'. rewrite decide_True in Hx by done. rewrite decide_False in Hx' by tauto.
    unfold unanswered in *. unfold running. cbn. lia.
  - destruct (ar_Free _ _ _ _ _ _) as [q tc]. cbn [steps_to]. eapply kept_set_handle; [done..|]. intros x.
    assert (unanswered x (wake <$> delete i (tasks h)) = unanswered x (tasks h)) as Hx; [|apply hocc_same; cbn; [done|done|intros _; f_equal; apply Hx|intros _; apply Hx]].
    rewrite unanswered_wake, (unanswered_delete x (tasks h) i r Responded Hi), decide_False by tauto. lia.
Qed.

Lemma schedStep_ok a e s rs : kept rs s -> noTies (rs ++ requests e) -> steps_to (kept (rs ++ requests e)) (schedStep a e s).
Proof.
  intros Hk Hn. destruct e as [m ms ans|n w info|n st|n i st]; cbn [schedStep requests] in *; rewrite ?app_nil_r in *.
  - by apply runSched_ok.
  - by apply runWorker_ok.
  - by apply handleWorker_ok.
  - by apply runTask_ok.
Qed.

(** ** Workers whose sessions go on *)

(** The session of the worker is still the same when it is asked. *)
Definition sameSession (e : SchedEvent) : Prop := match e with EWorker _ (WSession SSame) => True | EWorker _ (WSession _) => False | _ => True end.

Definition calm (p : Pc) : bool := match p with AtTop | AtSession | AtUpdates | AtProcess => true | _ => false end.

Definition cnt (n : nat) (l : list SchedWindowRequest) : Z := Z.of_nat (length (filter (fun q => Done q = n) l)).

Lemma cnt_app n l1 l2 : cnt n (l1 ++ l2) = cnt n l1 + cnt n l2.
Proof. unfold cnt. rewrite filter_app, length_app. lia. Qed.

Lemma cnt_cons n q l : cnt n (q :: l) = (if decide (Done q = n) then 1 else 0) + cnt n l.
Proof. unfold cnt. rewrite filter_cons. destruct (decide (Done q = n)); cbn [length]; lia. Qed.

Lemma cnt_zero n l : (forall q, q ∈ l -> Done q <> n) -> cnt n l = 0.
Proof.
  induction l as [|q l IH]; [done|]. intros Hl. rewrite cnt_cons, decide_False, IH; [done| |apply Hl; set_solver]. intros q' Hq'. apply Hl. set_solver.
Qed.

Lemma cnt_nonneg n l : 0 <= cnt n l.
Proof. unfold cnt. lia. Qed.

(** Every window that a worker has asked for is requested, open, in its channel, or one that it
    works on: at most two, so that the channel has room for them. *)
Record undisturbed (open : list SchedWindowRequest) (s : Sys) : Prop := {
  un_dropped : dropped s = [];
  un_handle n h : handles s !! n = Some h -> calm (pc h) = true /\ Enabled h = true /\ windowsRequested h <= SchedWindows /\
    cnt n (windowRequests s ++ open) + Z.of_nat (length (scheduledWindows h)) = openCount h;
  un_done q : q ∈ windowRequests s ++ open -> is_Some (handles s !! Done q);
}.

Lemma undisturbed_set_handle open n h h' s : undisturbed open s -> handles s !! n = Some h -> calm (pc h') = true -> Enabled h' = true -> windowsRequested h' <= SchedWindows ->
  openCount h' - Z.of_nat (length (scheduledWindows h')) = openCount h - Z.of_nat (length (scheduledWindows h)) -> undisturbed open (set_handle n h' s).
Proof.
  intros [Hd Hu Hq] Hh Hc He Hw Ho. split; [done| |].
  - intros m x. cbn [handles set_handle set_handles]. intros [[<- <-]|[Hne Hx]]%lookup_insert_Some; [|by apply Hu]. split_and!; [done..|]. destruct (Hu n h Hh) as (_ & _ & _ & Hn). cbn [windowRequests set_handle set_handles]. lia.
  - intros q Hx. destruct (Hq q Hx) as [x Hx']. cbn. destruct (decide (Done q = n)) as [->|]; [by rewrite lookup_insert_eq|by rewrite lookup_insert_ne].
Qed.

Lemma sendWindow_calm open req window s : undisturbed (req :: open) s -> undisturbed open (sendWindow s req window).
Proof.
  intros [Hd Hu Hq]. destruct (Hq req) as [h Hh]; [set_solver|]. unfold sendWindow. rewrite Hh. destruct (Hu _ _ Hh) as (Hc & He & Hw & Hn).
  rewrite cnt_app, cnt_cons, decide_True in Hn by done. pose proof (cnt_nonneg (Done req) (windowRequests s)). pose proof (cnt_nonneg (Done req) open).
  assert (openCount h <= windowsRequested h) by (unfold openCount; lia). rewrite (proj2 (Z.ltb_lt _ _)) by lia. split; [done| |].
  - intros m x. cbn [handles set_handle set_handles windowRequests]. intros [[<- <-]|[Hne Hx]]%lookup_insert_Some; rewrite cnt_app.
    + cbn. rewrite length_app. cbn [length]. split_and!; [done..|]. unfold openCount in *. cbn. lia.
    + destruct (Hu _ _ Hx) as (? & ? & ? & Hm). rewrite cnt_app, cnt_cons, decide_False in Hm by done. done.
  - intros q Hx. destruct (Hq q) as [x Hx']; [set_solver|]. cbn. destruct (decide (Done q = Done req)) as [->|]; [by rewrite lookup_insert_eq|by rewrite lookup_insert_ne].
Qed.

Lemma undisturbed_perm open open' s : open ≡ₚ open' -> undisturbed open s -> undisturbed open' s.
Proof.
  intros Hp [Hd Hu Hq]. split; [done| |].
  - intros n h Hh. destruct (Hu n h Hh) as (? & ? & ? & Hn). split_and!; [done..|]. rewrite <-Hn. unfold cnt. by rewrite Hp.
  - intros q. rewrite <-Hp. apply Hq.
Qed.

Lemma submitWindows_calm open windows keep s : length open = length windows -> undisturbed (open ++ keep) s ->
  undisturbed (submitWindows s open windows keep).2 (submitWindows s open windows keep).1.
Proof.
  revert windows keep s. induction open as [|req open IH]; intros [|w windows] keep s Hl Hu; simplify_eq/=; [done|]. destruct (Todo w).
  - apply IH; [done|]. eapply undisturbed_perm; [|done]. rewrite app_assoc. apply Permutation_cons_append.
  - apply IH; [done|]. by apply sendWindow_calm.
Qed.

Lemma undisturbed_frame open s s' : undisturbed open s -> handles s' = handles s -> windowRequests s' = windowRequests s -> dropped s' = dropped s -> undisturbed open s'.
Proof. intros [Hd Hu Hq] Eh Ew Ed. split; [congruence|intros n h; rewrite Eh, Ew; apply Hu|intros q; rewrite Eh, Ew; apply Hq]. Qed.

Lemma TrySched_calm a ans s : wf s -> noTies (SchedQueue s) -> undisturbed (OpenWindows s) s -> steps_to (fun s' => undisturbed (OpenWindows s') s') (TrySched a ans s).
Proof.
  intros Hwf Hn Hu. destruct (TrySched_spec (fun _ _ => True) a ans s) as (q & ts & windows & _ & _ & Hl & _ & _ & [[_ ->]| ->]); [done..| |].
  - by eapply undisturbed_frame.
  - cbn [steps_to]. eapply undisturbed_frame; [apply (submitWindows_calm (OpenWindows s) windows []); [done|]|done..]. rewrite app_nil_r. by eapply undisturbed_frame.
Qed.

(** If the step happens. *)
Definition ends_in {A} (P : A -> Prop) (o : outcome A) : Prop := match o with Ret a => P a | _ => True end.

Lemma ends_bind {A B} (P : A -> Prop) (Q : B -> Prop) (o : outcome A) f : ends_in P o -> (forall a, o = Ret a -> P a -> ends_in Q (f a)) -> ends_in Q (o ≫= f).
Proof. destruct o; cbn; auto. Qed.

Definition calmly (s : Sys) : Prop := undisturbed (OpenWindows s) s.

Lemma receive_calm m s : calmly s -> ends_in (fun x => calmly x.1 /\ x.2 = []) (receive m s []).
Proof.
  intros Hu. destruct m as [id| |n|r| |]; cbn [receive].
  - unfold removeRequest. destruct (list_find _ _) as [[i r]|]; [|done]. destruct (queue_Remove _ _); [|done..]. split; [by eapply undisturbed_frame|done].
  - case_match; [|done]. split; [by eapply undisturbed_frame|done].
  - destruct (handles s !! n) as [h|] eqn:Hh; [|done]. destruct (un_handle _ _ Hu n h Hh) as [Hc _]. by destruct (pc h).
  - split; [by eapply undisturbed_frame|done].
  - destruct Hu as [Hd Hh Hq]. destruct (windowRequests s) as [|req reqs] eqn:Er; [done|].
    assert ((req :: reqs) ++ OpenWindows s ≡ₚ reqs ++ OpenWindows s ++ [req]) as Hp by (rewrite app_assoc; apply Permutation_cons_append).
    split; [|done]. split; [done| |].
    + intros n h Hn. destruct (Hh n h Hn) as (? & ? & ? & Hc). split_and!; [done..|]. rewrite <-Hc. unfold cnt. by rewrite Hp.
    + intros q. cbn. rewrite <-Hp. apply Hq.
  - case_match; [done|]. split; [by eapply undisturbed_frame|done].
Qed.

Lemma gather_calm ms s : calmly s -> ends_in (fun x => calmly x.1 /\ x.2 = []) (gatherMsgs ms s []).
Proof.
  revert s. induction ms as [|m ms IH]; intros s Hu; cbn [gatherMsgs]; [done|]. case_match; [|done]. eapply ends_bind; [by apply receive_calm|].
  intros [s1 ns1] _ [Hu1 Hns]. cbn [fst snd] in *. subst ns1. by apply IH.
Qed.

Lemma runSched_calm a m ms ans s rs : kept rs s -> noTies (rs ++ scheduled m ++ concat (scheduled <$> ms)) -> calmly s -> ends_in calmly (runSched a m ms ans s).
Proof.
  intros Hk Hn Hu. unfold runSched. pose proof (receive_ok m s rs []) as Hr. destruct (receive m s []) as [[s1 ns1]| |] eqn:E1; [|done..].
  pose proof (receive_calm m s Hu) as Hc. rewrite E1 in Hc. destruct Hc as [Hu1 Hns]. cbn [snd] in Hns. subst ns1. rewrite app_assoc in Hn.
  destruct Hr as [Hk1 Hd1]; [done|split; [constructor|set_solver]|eapply noTies_sub; [done|set_solver]|]. cbn [mbind outcome_bind fst snd] in *. case_match; [|by destruct ms].
  pose proof (gather_ok ms s1 (rs ++ scheduled m) [] Hk1 Hd1 Hn) as Hg. pose proof (gather_calm ms s1 Hu1) as Hc. destruct (gatherMsgs ms s1 []) as [[s2 ns2]| |]; [|done..].
  destruct Hg as [Hk2 _]. destruct Hc as [Hu2 Hns]. cbn [fst snd] in *. subst ns2. cbn [mbind outcome_bind disableWorkers].
  pose proof (TrySched_calm a ans s2 (proj1 Hk2) (kept_queue _ _ Hk2 Hn) Hu2) as Ht. by destruct (TrySched a ans s2).
Qed.

Lemma handleWorker_calm n st s : sameSession (EWorker n st) -> calmly s -> ends_in calmly (handleWorker n st s).
Proof.
  intros Hs Hu. unfold handleWorker. destruct (handles s !! n) as [h|] eqn:Hh; [|done]. destruct (un_handle _ _ Hu n h Hh) as (Hc & He & Hw & Hn).
  destruct (pc h) eqn:Hp, st; try done; cbn [ends_in]; try (by eapply undisturbed_set_handle).
  - unfold requestWindows. rewrite He. cbn [andb]. case_match eqn:Hlt; [case_match; [|done]|cbn [ends_in]; by eapply undisturbed_set_handle]. apply Z.ltb_lt in Hlt. cbn [ends_in]. destruct Hu as [Hd Hu Hq]. split; [done| |].
    + intros m x. cbn. intros [[<- <-]|[Hne Hx]]%lookup_insert_Some; cbn; rewrite !cnt_app, cnt_cons; cbn [Done].
      * rewrite decide_True by done. rewrite cnt_app in Hn. unfold openCount in *. cbn. split_and!; [by rewrite Hp|done|lia|]. unfold cnt at 2. cbn. lia.
      * rewrite decide_False by done. destruct (Hu m x Hx) as (? & ? & ? & Hm). rewrite cnt_app in Hm. split_and!; [done..|]. unfold cnt at 2. cbn. lia.
    + intros q. cbn. intros Hx. destruct (decide (Done q = n)) as [->|Hne]; [by rewrite lookup_insert_eq|]. rewrite lookup_insert_ne by done. apply Hq.
      rewrite !elem_of_app, list_elem_of_singleton in Hx. rewrite elem_of_app. destruct Hx as [[?| ->]|?]; [by left|done|by right].
  - destruct answer; try done. unfold checkSession. rewrite He. by eapply undisturbed_set_handle.
  - unfold receiveWindow. destruct (scheduledWindows h) as [|w ws] eqn:Es; [done|]. eapply undisturbed_set_handle; [done..|]. unfold openCount. cbn. rewrite Es, length_app. cbn. lia.
  - case_match; [|done]. cbn [ends_in]. eapply (undisturbed_frame _ (set_handle n _ s)); [|reflexivity..]. by eapply undisturbed_set_handle.
  - destruct (process_processed h) as (_ & _ & _ & Es & Ee & Eo & Hle). eapply undisturbed_set_handle; [done..| | |]; cbn; [by rewrite Ee|unfold openCount in *; lia|].
    change (openCount (set_pc AtTop ?x)) with (openCount x). rewrite Es. lia.
Qed.

Lemma runWorker_calm n w info s : calmly s -> ends_in calmly (runWorker n w info s).
Proof.
  intros Hu. unfold runWorker. destruct (handles s !! n) eqn:Hh; [done|]. destruct (Workers s !! w); [done|]. destruct Hu as [Hd Hu Hq]. cbn. split; [done| |].
  - intros m x. cbn. intros [[<- <-]|[Hne Hx]]%lookup_insert_Some; [|by apply Hu]. cbn. split_and!; [done..|]. unfold openCount. cbn.
    rewrite cnt_zero; [done|]. intros q Hx Hq'. destruct (Hq q Hx) as [y Hy]. congruence.
  - intros q Hx. destruct (Hq q Hx) as [y Hy]. cbn. rewrite lookup_insert_ne by congruence. by exists y.
Qed.

Lemma undisturbed_task n h h' s : calmly s -> handles s !! n = Some h -> pc h' = pc h -> Enabled h' = Enabled h -> windowsRequested h' = windowsRequested h ->
  activeWindows h' = activeWindows h -> scheduledWindows h' = scheduledWindows h -> calmly (set_handle n h' s).
Proof.
  intros Hu Hh Ep Ee Er Ea Es. destruct (un_handle _ _ Hu n h Hh) as (Hc & He & Hw & Hn). eapply undisturbed_set_handle; [done..|congruence|congruence|congruence|].
  unfold openCount. by rewrite Er, Ea, Es.
Qed.

Lemma withResources_calm n i r h h0 s : calmly s -> handles s !! n = Some h -> pc h0 = pc h -> Enabled h0 = Enabled h -> windowsRequested h0 = windowsRequested h ->
  activeWindows h0 = activeWindows h -> scheduledWindows h0 = scheduledWindows h -> calmly (set_handle n (withResources i r h0) s).
Proof.
  intros Hu Hh Ep Ee Er Ea Es. unfold withResources. case_match; [|by eapply undisturbed_task]. destruct (ar_Add _ _ _ _ _ _) as [[a tc] u]. destruct (ar_Free _ _ _ _ _ _) as [q tc'].
  by eapply undisturbed_task.
Qed.

Lemma runTask_calm n i st s : calmly s -> ends_in calmly (runTask n i st s).
Proof.
  intros Hu. unfold runTask. destruct (handles s !! n) as [h|] eqn:Hh; [|done]. destruct (tasks h !! i) as [[r p]|]; [|done]. destruct p, st; try done.
  - by eapply withResources_calm.
  - destruct (ar_Free _ _ _ _ _ _) as [q tc]. cbn [ends_in]. eapply (undisturbed_frame _ (set_handle n _ s)); [|reflexivity..]. by eapply undisturbed_task.
  - by eapply withResources_calm.
  - cbn [ends_in]. eapply (undisturbed_frame _ (set_handle n _ s)); [|reflexivity..]. by eapply undisturbed_task.
  - destruct (ar_Free _ _ _ _ _ _) as [q tc]. by eapply undisturbed_task.
Qed.

Lemma step_calm a e s rs : kept rs s -> noTies (rs ++ requests e) -> sameSession e -> calmly s -> ends_in calmly (schedStep a e s).
Proof.
  intros Hk Hn Hs Hu. destruct e as [m ms ans|n w info|n st|n i st]; cbn [schedStep requests] in *.
  - by eapply runSched_calm.
  - by apply runWorker_calm.
  - by apply handleWorker_calm.
  - by apply runTask_calm.
Qed.

Lemma run_ok a es s rs : kept rs s -> noTies (rs ++ scheduledBy a es s) ->
  exists s', schedRun a es s = Ret s' /\ kept (rs ++ scheduledBy a es s) s' /\ (Forall sameSession es -> calmly s -> calmly s').
Proof.
  revert s rs. induction es as [|e es IH]; intros s rs Hk Hn; cbn [schedRun scheduledBy] in *; [exists s; by rewrite app_nil_r|].
  assert (noTies (rs ++ requests e) -> steps_to (kept (rs ++ requests e)) (schedStep a e s)) as Hst by by apply schedStep_ok.
  assert (noTies (rs ++ requests e) -> sameSession e -> calmly s -> ends_in calmly (schedStep a e s)) as Hc by by apply step_calm.
  destruct (schedStep a e s) as [s1| |] eqn:E.
  - rewrite app_assoc in Hn. assert (noTies (rs ++ requests e)) as Hn1 by (eapply noTies_sub; [done|set_solver]).
    destruct (IH s1 (rs ++ requests e) (Hst Hn1) Hn) as (s' & Hr & Hk' & Hc'). exists s'. rewrite app_assoc. split_and!; [done..|]. intros [He Hes]%Forall_cons Hu. apply Hc'; [done|]. by apply Hc.
  - destruct (IH s rs Hk Hn) as (s' & Hr & Hk' & Hc'). exists s'. split_and!; [done..|]. intros [_ Hes]%Forall_cons. by apply Hc'.
  - by destruct (Hst Hn).
Qed.

End steps.

(** ** A sort, and runs with it *)

Section insertion.

Fixpoint insertRequest (x : WorkerRequest) (l : list WorkerRequest) : list WorkerRequest :=
  match l with
  | [] => [x]
  | y :: l => if Less y x then y :: insertRequest x l else x :: y :: l
  end.

Definition insertionSort (l : list WorkerRequest) : list WorkerRequest := foldr insertRequest [] l.

Lemma insertRequest_perm x l : insertRequest x l ≡ₚ x :: l.
Proof. induction l as [|y l IH]; cbn [insertRequest]; [done|]. case_match; [|done]. rewrite IH. apply Permutation_swap. Qed.

Lemma insertionSort_perm l : insertionSort l ≡ₚ l.
Proof. induction l as [|x l IH]; cbn; [done|]. by rewrite insertRequest_perm, IH. Qed.

Lemma orderable_sub l l' : orderable l -> l' ⊆ l -> orderable l'.
Proof. intros Ho Hs a b c Ha Hb Hc. apply Ho; by apply Hs. Qed.

Lemma insertRequest_sorted x l : orderable (x :: l) -> queueSorted l -> queueSorted (insertRequest x l).
Proof.
  intros Ho Hl. induction Hl as [|y l Hl IH Hy]; cbn [insertRequest]; [by repeat constructor|]. rewrite Forall_forall in Hy.
  destruct (Less y x) eqn:Hxy.
  - constructor; [apply IH; eapply orderable_sub; [exact Ho|clear; set_solver]|]. rewrite insertRequest_perm. apply Forall_cons. split; [|by rewrite Forall_forall].
    apply not_true_is_false. intros Hyx. apply Less_key in Hxy, Hyx. lia.
  - constructor; [by constructor; [|rewrite Forall_forall]|]. apply Forall_cons. split; [done|]. apply Forall_forall. intros z Hz.
    apply (Ho z y x); [by do 2 constructor|by do 2 constructor|by constructor|by apply Hy|done].
Qed.

Lemma insertionSort_sorted l : orderable l -> queueSorted (insertionSort l).
Proof.
  induction l as [|x l IH]; intros Ho; cbn; [constructor|]. apply insertRequest_sorted.
  - intros a b c. rewrite insertionSort_perm. apply Ho.
  - apply IH. eapply orderable_sub; [exact Ho|clear; set_solver].
Qed.
End insertion.

Definition stableSort : GoSort := {| sortRequests := insertionSort |}.

Lemma stableSort_ok : @GoSortOk stableSort.
Proof. split; [apply insertionSort_perm|apply insertionSort_sorted]. Qed.

(** A sort that turns ties around. *)
Definition unstableSort : GoSort := {| sortRequests := fun l => insertionSort (reverse l) |}.

Lemma unstableSort_ok : @GoSortOk unstableSort.
Proof.
  split; intros l; cbn; [by rewrite insertionSort_perm, reverse_Permutation|]. intros Ho. apply insertionSort_sorted. intros a b c. rewrite !elem_of_reverse. apply Ho.
Qed.

Definition demoRequest (type : TaskType) (number : Z) (id : UUID) : WorkerRequest :=
  {| SectorNumber := number; ProofType := StackedDrg2KiBV1; req_TaskType := type; Priority := 0; SchedId := id; PrepType := TTFetch |}.

(** One task of adding a piece at a time. *)
Definition demoInfo : WorkerInfo := {| Hostname := "w"; IgnoreResources := false; wi_Resources := {| MemPhysical := 2 ^ 30; MemUsed := 0; MemSwap := 0; MemSwapUsed := 0;
  CPUs := 16; GPUs := []; CustomResources := Some {[ TTAddPiece := {[ StackedDrg2KiBV1 := set_MaxConcurrent 1 (mkResources 2048 2048 1 0 float_zero 2048) ]} ]} |} |}.

Definition demoAnswers : Answers := {| sel_Ok := fun _ _ => Ret (true, false); sel_Cmp := fun _ _ _ => false; rnd_Shuffle := fun _ _ => O; rnd_Intn := fun _ => O |}.

Definition turn (m : Msg) : SchedEvent := ERun m [] demoAnswers.

(** A worker that has asked for its windows and waits. *)
Definition demoStart : list SchedEvent := [EAdd 0 7 demoInfo; EWorker 0 WTop; EWorker 0 WTop; EWorker 0 WTop; EWorker 0 (WSession SSame); turn MInit; turn MWindow; turn MWindow].

Definition demoRun : list SchedEvent := demoStart ++
  [turn (MSchedule (demoRequest TTAddPiece 1 11)); turn (MSchedule (demoRequest TTPreCommit1 2 12)); EWorker 0 WWindow; EWorker 0 WProcess; ETask 0 0 TPrepared;
   ETask 0 0 (TRespond None); ETask 0 0 TFree].

Definition demoRequests : list WorkerRequest := [demoRequest TTAddPiece 1 11; demoRequest TTPreCommit1 2 12].

Lemma demo_scheduled : scheduledBy (H := stableSort) AUtilization demoRun newSys = demoRequests.
Proof. vm_compute. reflexivity. Qed.

Lemma demo_noTies : noTies demoRequests.
Proof. intros a b [->|[->|[]%elem_of_nil]%elem_of_cons]%elem_of_cons [->|[->|[]%elem_of_nil]%elem_of_cons]%elem_of_cons Hab; try done; [right|left]; vm_compute; reflexivity. Qed.


(** ** Runs in which requests are lost *)

Definition stateAfter {A} (f : Sys -> A) (o : outcome Sys) : option A := match o with Ret s => Some (f s) | _ => None end.

(** Two requests that tie: the second does not fit into the window, and a third one does.  With a
    sort that turns ties around, which [sort.Sort] may do, the wrong one is taken from the queue:
    it has no place any more, and the other one is in the queue and in the window. *)
Lemma tie_loses_request :
  let a1 := demoRequest TTAddPiece 1 11 in let a2 := demoRequest TTAddPiece 1 12 in let c := demoRequest TTRegenSectorKey 0 13 in
  let es := take 7 demoStart ++ [ERun (MSchedule a1) [MSchedule a2; MSchedule c] demoAnswers] in
  stateAfter (fun s => (total a1 s, total a2 s, total c s)) (schedRun (H := unstableSort) AUtilization es newSys) = Some (2, 0, 1).
Proof. vm_compute. reflexivity. Qed.

(** A worker is disabled while its requests for windows are in the channel of the scheduler, and
    asks for two more when it is back.  Three of the four windows get a task, and the third one
    does not fit into the channel of the worker. *)
Lemma full_channel_drops :
  let p n := demoRequest TTAddPiece n (10 + n) in
  let es := [EAdd 0 7 demoInfo; EWorker 0 WTop; EWorker 0 WTop; EWorker 0 WTop; turn MInit; EWorker 0 (WSession SErr); turn (MDisable 0); EWorker 0 WDisabled; turn MWindow;
    turn MWindow; EWorker 0 WHeartbeat; EWorker 0 (WSession SSame); EWorker 0 WProcess; EWorker 0 WTop; EWorker 0 WTop; EWorker 0 WTop; turn MWindow; turn MWindow;
    ERun (MSchedule (p 1)) [MSchedule (p 2); MSchedule (p 3)] demoAnswers] in
  stateAfter (fun s => (SchedQueue s, dropped s)) (schedRun (H := stableSort) AUtilization es newSys) = Some ([], [p 3]).
Proof. vm_compute. reflexivity. Qed.

(** A worker that was restarted ends with a window in its channel, whose task is not queued again. *)
Lemma restart_loses_window :
  let r := demoRequest TTAddPiece 1 11 in
  let es := demoStart ++ [EWorker 0 WHeartbeat; turn (MSchedule r); EWorker 0 (WSession SOther); turn (MDisable 0); EWorker 0 WDisabled] in
  stateAfter (fun s => (SchedQueue s, size (Workers s), (fun h => (pc h, Todo <$> scheduledWindows h)) <$> handles s !! 0%nat))
    (schedRun (H := stableSort) AUtilization es newSys) = Some ([], 0%nat, Some (Exited, [[r]])).
Proof. vm_compute. reflexivity. Qed.

(** A request to disable a worker that comes before the scheduler is initialised is forgotten, and
    the worker waits for its end although it answers again. *)
Lemma early_disable_forgotten :
  let es := [EAdd 0 7 demoInfo; EWorker 0 WTop; EWorker 0 WTop; EWorker 0 WTop; EWorker 0 (WSession SErr); turn (MDisable 0); turn MInit; turn (MDisable 0); EWorker 0 WDisabled;
    EWorker 0 WHeartbeat; EWorker 0 (WSession SSame)] in
  stateAfter (fun s => pc <$> handles s !! 0%nat) (schedRun (H := stableSort) AUtilization es newSys) = Some (Some (AtDisabling ToRetry)).
Proof. vm_compute. reflexivity. Qed.

(** Both accounts of a worker have the same counters, and its tasks count twice. *)
Lemma tasks_counted_twice h : activeWindows h = [] -> TaskCounts h = 2 * tc_Sum (counters h).
Proof. intros E. unfold TaskCounts, TaskCount. rewrite E. cbn. lia. Qed.
