(* ===== verification/SchedResProps.v ===== *)
(** * The sealing scheduler: workers stay within their resources

    The accounts of a worker are the sums over its tasks, its counters count them, and the tasks
    that run, those that are prepared and those of each window fit into the memory and the CPUs of
    the worker and keep the limits of tasks of one type. *)

From stdpp Require Import gmap sorting.
From Stdlib Require Import SpecFloat.
From S2P Require Import Prelude SchedRes Sched SchedProps.

(** ** Accounts *)

(** A use of resources by a task. *)
Record use := { u_res : Resources; u_task : SealTaskType; u_id : UUID }.

Definition sumOf (f : use -> Z) (us : list use) : Z := foldr (fun u acc => f u + acc) 0 us.

Lemma sumOf_cons f u us : sumOf f (u :: us) = f u + sumOf f us.
Proof. done. Qed.

Lemma sumOf_perm f us us' : us ≡ₚ us' -> sumOf f us = sumOf f us'.
Proof. induction 1; rewrite ?sumOf_cons; lia. Qed.

#[local] Arguments sumOf : simpl never.

Lemma sumOf_nonneg f us : (forall u, u ∈ us -> 0 <= f u) -> 0 <= sumOf f us.
Proof. induction us as [|u us IH]; intros Hf; [done|]. rewrite sumOf_cons. assert (0 <= f u) by (apply Hf; constructor). assert (0 <= sumOf f us) by (apply IH; intros x Hx; apply Hf; by constructor). lia. Qed.

Definition threads (wr : WorkerResources) (u : use) : Z := Threads (u_res u) (CPUs wr) (gpus wr).

(** The account has the sums, up to wrap-around. *)
Record account (wr : WorkerResources) (a : ActiveResources) (us : list use) : Prop := {
  ac_min : memUsedMin a = u64 (sumOf (fun u => MinMemory (u_res u)) us);
  ac_max : memUsedMax a = u64 (sumOf (fun u => MaxMemory (u_res u)) us);
  ac_cpu : cpuUse a = u64 (sumOf (threads wr) us);
}.

(** What the uses take together. *)
Record fits (info : WorkerInfo) (us : list use) : Prop := {
  fit_min : sumOf (fun u => MinMemory (u_res u)) us <= MemPhysical (wi_Resources info);
  fit_max : sumOf (fun u => MaxMemory (u_res u)) us <= MemPhysical (wi_Resources info) + MemSwap (wi_Resources info);
  fit_cpu : sumOf (threads (wi_Resources info)) us <= CPUs (wi_Resources info);
}.

(** A worker whose numbers are sizes of a machine: what is used of its memory is not more than it
    has, and sums do not wrap around. *)
Definition saneRes (wr : WorkerResources) (r : Resources) : Prop :=
  0 <= MinMemory r /\ 0 <= MaxMemory r /\ 0 <= BaseMinMemory r /\ MinMemory r + BaseMinMemory r < 2 ^ 64 /\ MaxMemory r + BaseMinMemory r < 2 ^ 64 /\
  0 <= Threads r (CPUs wr) (gpus wr) /\ CPUs wr + Threads r (CPUs wr) (gpus wr) < 2 ^ 64.

Record sane (wr : WorkerResources) : Prop := {
  sane_phys : 0 <= MemPhysical wr;
  sane_swap : 0 <= MemSwap wr;
  sane_sum : MemPhysical wr + MemSwap wr < 2 ^ 64;
  sane_used : 0 <= MemUsed wr + MemSwapUsed wr <= MemPhysical wr + MemSwap wr;
  sane_cpus : 0 <= CPUs wr;
  sane_spec spt tt : saneRes wr (ResourceSpec wr spt tt);
}.

Lemma u64_sub_l a b : u64 (u64 a - b) = u64 (a - b).
Proof. unfold u64. apply Zminus_mod_idemp_l. Qed.

Lemma account_perm wr a us us' : us ≡ₚ us' -> account wr a us -> account wr a us'.
Proof. intros Hp [E1 E2 E3]. split; [rewrite E1|rewrite E2|rewrite E3]; f_equal; by apply sumOf_perm. Qed.

Lemma fits_perm info us us' : us ≡ₚ us' -> fits info us -> fits info us'.
Proof. intros Hp [E1 E2 E3]. split; by rewrite <-(sumOf_perm _ _ _ Hp). Qed.

Lemma account_add wr a us u : account wr a us -> account wr (addUse wr (u_res u) a) (u :: us).
Proof. intros [E1 E2 E3]. split; cbn; [rewrite E1|rewrite E2|rewrite E3]; rewrite u64_add_l, sumOf_cons; f_equal; unfold threads; lia. Qed.

Lemma account_free wr a us u id st tc : account wr a (u :: us) -> account wr (ar_Free id st wr (u_res u) a tc).1 us.
Proof. intros [E1 E2 E3]. split; cbn; [rewrite E1|rewrite E2|rewrite E3]; rewrite u64_sub_l, sumOf_cons; f_equal; unfold threads; lia. Qed.

Lemma fits_free info us u : saneRes (wi_Resources info) (u_res u) -> fits info (u :: us) -> fits info us.
Proof. intros (? & ? & _ & _ & _ & ? & _) [E1 E2 E3]. rewrite sumOf_cons in *. unfold threads in E3 at 1. split; lia. Qed.

(** A request that can be handled fits with what is there. *)
Lemma CanHandle_fits info a tc us u id st : sane (wi_Resources info) -> saneRes (wi_Resources info) (u_res u) -> Forall (fun u => saneRes (wi_Resources info) (u_res u)) us ->
  account (wi_Resources info) a us -> fits info us -> IgnoreResources info = false -> CanHandleRequest id st (u_res u) info a tc = true -> fits info (u :: us).
Proof.
  intros Hs (Hr1 & Hr2 & Hr3 & Hr4 & Hr5 & Hr6 & Hr7) Hus [A1 A2 A3] [F1 F2 F3] Hi Hc. destruct Hs as [S1 S2 S3 S4 S5 _]. rewrite Forall_forall in Hus.
  assert (0 <= sumOf (fun u => MinMemory (u_res u)) us) by (apply sumOf_nonneg; intros x Hx; apply (Hus x Hx)).
  assert (0 <= sumOf (fun u => MaxMemory (u_res u)) us) by (apply sumOf_nonneg; intros x Hx; apply (Hus x Hx)).
  assert (0 <= sumOf (threads (wi_Resources info)) us) by (apply sumOf_nonneg; intros x Hx; apply (Hus x Hx)).
  unfold CanHandleRequest in Hc. case_match; [done|]. rewrite Hi, A1, A2, A3 in Hc. change (2 ^ 64) with 18446744073709551616 in *.
  set (wr := wi_Resources info) in *. set (m1 := sumOf (fun u => MinMemory (u_res u)) us) in *. set (m2 := sumOf (fun u => MaxMemory (u_res u)) us) in *.
  set (m3 := sumOf (threads wr) us) in *.
  rewrite (u64_id m1), (u64_id m2), (u64_id m3), (u64_id (MinMemory _ + _)), (u64_id (MaxMemory _ + _)), (u64_id (MemPhysical wr - m1)), (u64_id (MemUsed wr + _)),
    (u64_id (MemPhysical wr + _)), (u64_id (m3 + _)) in Hc by (unfold in_u64; lia).
  destruct (Z.ltb_spec (MemPhysical wr - m1) (MinMemory (u_res u) + BaseMinMemory (u_res u))); [done|].
  match type of Hc with context [u64 (MemPhysical wr + MemSwap wr - ?v)] => remember v as used eqn:Eu end.
  assert (m2 <= used <= MemPhysical wr + MemSwap wr) as Hu by (subst used; zcases; lia). rewrite u64_id in Hc by (unfold in_u64; lia).
  destruct (Z.ltb_spec (MemPhysical wr + MemSwap wr - used) (MaxMemory (u_res u) + BaseMinMemory (u_res u))); [done|].
  destruct (Z.ltb_spec (CPUs wr) (m3 + Threads (u_res u) (CPUs wr) (gpus wr))); [done|].
  split; rewrite sumOf_cons; fold wr; fold m1 m2 m3; unfold threads; lia.
Qed.

(** ** Counters *)

Definition cntU (st : SealTaskType) (id : UUID) (us : list use) : Z := sumOf (fun u => if decide (u_task u = st /\ u_id u = id) then 1 else 0) us.

(** The counters count the uses of each type by each request. *)
Record counted (tc : taskCounter) (us : list use) : Prop := {
  co_val st id : default 0 (tc_Get st tc !! id) = cntU st id us;
  co_pos st id v : tc_Get st tc !! id = Some v -> 0 < v;
}.

Lemma counted_perm tc us us' : us ≡ₚ us' -> counted tc us -> counted tc us'.
Proof. intros Hp [Hv Hpos]. split; [|done]. intros st id. rewrite Hv. by apply sumOf_perm. Qed.

Lemma counted_empty : counted ∅ [].
Proof. split; [done|]. intros st id v Hv. change (None = Some v) in Hv. done. Qed.

Lemma tc_Get_insert st st' m tc : tc_Get st' (<[st := m]> tc) = if decide (st = st') then m else tc_Get st' tc.
Proof. unfold tc_Get. case_decide as E; [by rewrite E, lookup_insert_eq|by rewrite lookup_insert_ne]. Qed.

Lemma counted_add tc us u : counted tc us -> counted (tc_Add (u_task u) (u_id u) tc) (u :: us).
Proof.
  intros [Hv Hp]. unfold tc_Add. split.
  - intros st id. rewrite tc_Get_insert. unfold cntU. rewrite sumOf_cons. fold (cntU st id us). rewrite <-Hv. destruct (decide (u_task u = st)) as [<-|Hst].
    + destruct (decide (u_id u = id)) as [<-|Hid]; [rewrite lookup_insert_eq, decide_True by done; cbn; lia|]. rewrite lookup_insert_ne, decide_False by naive_solver. lia.
    + rewrite decide_False by naive_solver. lia.
  - intros st id v. rewrite tc_Get_insert. case_decide as Hst; [|apply Hp]. intros [[<- <-]|[_ Hx]]%lookup_insert_Some; [|by eapply Hp].
    destruct (tc_Get (u_task u) tc !! u_id u) as [x|] eqn:Ex; cbn; [apply Hp in Ex|]; lia.
Qed.

Lemma counted_free tc us u : counted tc (u :: us) -> counted (tc_Free (u_task u) (u_id u) tc) us.
Proof.
  intros [Hv Hp]. assert (0 <= cntU (u_task u) (u_id u) us) as Hpos by (apply sumOf_nonneg; intros x _; case_decide; lia).
  assert (default 0 (tc_Get (u_task u) tc !! u_id u) = 1 + cntU (u_task u) (u_id u) us) as Hu by (rewrite Hv; unfold cntU; by rewrite sumOf_cons, decide_True).
  unfold tc_Free. split.
  - intros st id. rewrite tc_Get_insert. destruct (decide (u_task u = st)) as [<-|Hst].
    + destruct (decide (u_id u = id)) as [<-|Hid].
      * case_match; [rewrite lookup_delete_eq; cbn; lia|]. rewrite lookup_insert_eq. cbn. lia.
      * specialize (Hv (u_task u) id). unfold cntU in Hv. rewrite sumOf_cons, decide_False in Hv by naive_solver. case_match; [rewrite lookup_delete_ne by done|rewrite lookup_insert_ne by done]; done.
    + specialize (Hv st id). unfold cntU in Hv. rewrite sumOf_cons, decide_False in Hv by naive_solver. done.
  - intros st id v. rewrite tc_Get_insert. case_decide as Hst; [|apply Hp]. case_match eqn:Hle; [intros [_ Hx]%lookup_delete_Some; by eapply Hp|].
    intros [[<- <-]|[_ Hx]]%lookup_insert_Some; [|by eapply Hp]. apply Z.leb_gt in Hle. lia.
Qed.

(** The limit for tasks of a type. *)
Definition limit (wr : WorkerResources) (st : SealTaskType) : Z := MaxConcurrent (ResourceSpec wr st.2 st.1).

Definition limited (wr : WorkerResources) (tc : taskCounter) : Prop :=
  forall st, st.1 <> TTNoop -> 0 < limit wr st -> Z.of_nat (size (tc_Get st tc)) <= limit wr st.

Lemma limited_add info tc us id st r a : counted tc us -> limited (wi_Resources info) tc -> (st.1 <> TTNoop -> MaxConcurrent r = limit (wi_Resources info) st) ->
  CanHandleRequest id st r info a tc = true -> limited (wi_Resources info) (tc_Add st id tc).
Proof.
  intros [Hv Hp] Hl Hr Hc st' Hst Hlim. unfold tc_Add. rewrite tc_Get_insert. case_decide as Heq; [subst st'|by apply Hl]. specialize (Hl st Hst Hlim).
  destruct (tc_Get st tc !! id) as [v|] eqn:Ev; [by rewrite map_size_insert_Some by by exists v|]. rewrite map_size_insert_None by done.
  unfold CanHandleRequest in Hc. rewrite Hr, Ev in Hc by done. cbn [default from_option] in Hc. rewrite (proj2 (Z.ltb_lt _ _) Hlim) in Hc. cbn [andb] in Hc.
  destruct (Z.leb_spec (limit (wi_Resources info) st) (Z.of_nat (size (tc_Get st tc)))); [|lia]. cbn [andb] in Hc. by rewrite Z.eqb_refl, orb_true_r in Hc.
Qed.

Lemma limited_free wr tc st id : limited wr tc -> limited wr (tc_Free st id tc).
Proof.
  intros Hl st' Hst Hlim. unfold tc_Free. rewrite tc_Get_insert. case_decide as Heq; [subst st'|by apply Hl]. specialize (Hl st Hst Hlim). case_match eqn:Hle.
  - destruct (tc_Get st tc !! id) as [v|] eqn:Ev; [rewrite map_size_delete_Some by (by exists v); lia|by rewrite delete_id].
  - destruct (tc_Get st tc !! id) as [v|] eqn:Ev; [by rewrite map_size_insert_Some by by exists v|]. cbn in Hle. done.
Qed.

(** ** The books of a worker *)

(** An account of uses that fit, unless resources are ignored. *)
Record booked (info : WorkerInfo) (a : ActiveResources) (us : list use) : Prop := {
  bk_account : account (wi_Resources info) a us;
  bk_fits : IgnoreResources info = false -> fits info us;
  bk_sane : Forall (fun u => saneRes (wi_Resources info) (u_res u)) us;
}.

Lemma booked_perm info a us us' : us ≡ₚ us' -> booked info a us -> booked info a us'.
Proof. intros Hp [Ha Hf Hs]. split; [by eapply account_perm|intros Hi; eapply fits_perm; [done|auto]|by rewrite <-Hp]. Qed.

Lemma booked_empty info : sane (wi_Resources info) -> booked info NewActiveResources [].
Proof. intros []. split; [done| |constructor]. intros _. split; unfold sumOf; cbn; lia. Qed.

Lemma booked_waiting info a us n : booked info a us -> booked info (setWaiting n a) us.
Proof. intros [[] Hf Hs]. by split. Qed.

Lemma booked_add info a us u id st tc : sane (wi_Resources info) -> saneRes (wi_Resources info) (u_res u) -> booked info a us ->
  CanHandleRequest id st (u_res u) info a tc = true -> booked info (addUse (wi_Resources info) (u_res u) a) (u :: us).
Proof.
  intros Hs Hr [Ha Hf Hus] Hc. split; [by apply account_add| |by constructor]. intros Hi. by eapply CanHandle_fits; eauto.
Qed.

Lemma booked_free info a us u id st tc : booked info a (u :: us) -> booked info (ar_Free id st (wi_Resources info) (u_res u) a tc).1 us.
Proof.
  intros [Ha Hf [Hu Hus]%Forall_cons]. split; [by eapply account_free| |done]. intros Hi. eapply fits_free; [exact Hu|auto].
Qed.

Definition isPrep (p : Phase) : bool := match p with Preparing | Blocked | Woken => true | _ => false end.
Definition waits (p : Phase) : bool := match p with Blocked | Woken => true | _ => false end.

Definition usePrep (wr : WorkerResources) (r : WorkerRequest) : use :=
  {| u_res := PrepResourceSpec wr (ProofType r) (req_TaskType r) (PrepType r); u_task := PrepSealTask r; u_id := SchedId r |}.
Definition useWork (wr : WorkerResources) (r : WorkerRequest) : use :=
  {| u_res := ResourceSpec wr (ProofType r) (req_TaskType r); u_task := SealTask r; u_id := SchedId r |}.

Definition prepUses (wr : WorkerResources) (ts : list (WorkerRequest * Phase)) : list use := usePrep wr <$> (filter (fun t => isPrep t.2 = true) ts).*1.
Definition workUses (wr : WorkerResources) (ts : list (WorkerRequest * Phase)) : list use := useWork wr <$> (filter (fun t => isPrep t.2 = false) ts).*1.
Definition waitsOf (ts : list (WorkerRequest * Phase)) : Z := Z.of_nat (length (filter (fun t => waits t.2 = true) ts)).

(** The books of a worker with these tasks. *)
Record books (info : WorkerInfo) (prep act : ActiveResources) (tc : taskCounter) (ts : list (WorkerRequest * Phase)) : Prop := {
  bo_prep : booked info prep (prepUses (wi_Resources info) ts);
  bo_work : booked info act (workUses (wi_Resources info) ts);
  bo_count : counted tc (prepUses (wi_Resources info) ts ++ workUses (wi_Resources info) ts);
  bo_limit : limited (wi_Resources info) tc;
  bo_waiting : waiting act = waitsOf ts;
}.

Lemma prepUses_cons wr r p ts : prepUses wr ((r, p) :: ts) = if isPrep p then usePrep wr r :: prepUses wr ts else prepUses wr ts.
Proof. unfold prepUses. rewrite filter_cons. cbn [snd]. by destruct p. Qed.

Lemma workUses_cons wr r p ts : workUses wr ((r, p) :: ts) = if isPrep p then workUses wr ts else useWork wr r :: workUses wr ts.
Proof. unfold workUses. rewrite filter_cons. cbn [snd]. by destruct p. Qed.

Lemma waitsOf_cons r p ts : waitsOf ((r, p) :: ts) = (if waits p then 1 else 0) + waitsOf ts.
Proof. unfold waitsOf. rewrite filter_cons. cbn [snd]. destruct p; cbn [waits length]; rewrite ?decide_True, ?decide_False by done; cbn [length]; lia. Qed.

Lemma books_perm info prep act tc ts ts' : ts ≡ₚ ts' -> books info prep act tc ts -> books info prep act tc ts'.
Proof.
  intros Hp [H1 H2 H3 H4 H5]. assert (prepUses (wi_Resources info) ts ≡ₚ prepUses (wi_Resources info) ts') as Hp1 by (unfold prepUses; by rewrite Hp).
  assert (workUses (wi_Resources info) ts ≡ₚ workUses (wi_Resources info) ts') as Hp2 by (unfold workUses; by rewrite Hp).
  split; [by eapply booked_perm|by eapply booked_perm|eapply counted_perm; [|done]; by rewrite Hp1, Hp2|done|]. rewrite H5. unfold waitsOf. by rewrite Hp.
Qed.

Lemma limit_work wr r : MaxConcurrent (u_res (useWork wr r)) = limit wr (SealTask r).
Proof. done. Qed.

Lemma limit_prep wr r : PrepType r <> TTNoop -> MaxConcurrent (u_res (usePrep wr r)) = limit wr (PrepSealTask r).
Proof.
  intros Hn. cbn. unfold PrepResourceSpec, limit. cbn. case_bool_decide as E; cbn [negb andb]; [by rewrite E|]. by rewrite bool_decide_false.
Qed.

Lemma sane_work wr r : sane wr -> saneRes wr (u_res (useWork wr r)).
Proof. intros Hs. apply (sane_spec wr Hs). Qed.

Lemma sane_prep wr r : sane wr -> saneRes wr (u_res (usePrep wr r)).
Proof. intros Hs. cbn. unfold PrepResourceSpec. case_match; [|apply (sane_spec wr Hs)]. apply (sane_spec wr Hs (ProofType r) (req_TaskType r)). Qed.

Section books.
Context (info : WorkerInfo).
#[local] Notation wr := (wi_Resources info).
Hypothesis Hsane : sane wr.

(** A task starts to be prepared. *)
Lemma books_prepare prep act tc ts r : books info prep act tc ts ->
  CanHandleRequest (SchedId r) (PrepSealTask r) (u_res (usePrep wr r)) info prep tc = true ->
  books info (addUse wr (u_res (usePrep wr r)) prep) act (tc_Add (PrepSealTask r) (SchedId r) tc) ((r, Preparing) :: ts).
Proof.
  intros [H1 H2 H3 H4 H5] Hc. split; rewrite ?prepUses_cons, ?workUses_cons, ?waitsOf_cons; cbn [isPrep waits]; [|done| | |lia].
  - eapply booked_add; [done|by apply sane_prep|done|done].
  - apply (counted_add _ _ (usePrep wr r) H3).
  - eapply limited_add; [done|done|apply limit_prep|done].
Qed.

(** A task starts to work at once. *)
Lemma books_work prep act tc ts r p : isPrep p = false -> books info prep act tc ts -> CanHandleRequest (SchedId r) (SealTask r) (u_res (useWork wr r)) info act tc = true ->
  books info prep (addUse wr (u_res (useWork wr r)) act) (tc_Add (SealTask r) (SchedId r) tc) ((r, p) :: ts).
Proof.
  intros Hp [H1 H2 H3 H4 H5] Hc. split; rewrite ?prepUses_cons, ?workUses_cons, ?waitsOf_cons, ?Hp; [done| | | |].
  - eapply booked_add; [done|by apply sane_work|done|done].
  - eapply counted_perm; [apply Permutation_middle|]. apply (counted_add _ _ (useWork wr r) H3).
  - eapply limited_add; [done|done|done|done].
  - destruct p; cbn [waits]; done || cbn; lia.
Qed.

(** The resources of a task that was prepared, or failed to be, are free. *)
Lemma books_prepared prep act tc ts r p : isPrep p = true -> waits p = false -> books info prep act tc ((r, p) :: ts) ->
  books info (ar_Free (SchedId r) (PrepSealTask r) wr (u_res (usePrep wr r)) prep tc).1 act (tc_Free (PrepSealTask r) (SchedId r) tc) ts.
Proof.
  intros Hp Hw [H1 H2 H3 H4 H5]. rewrite prepUses_cons, workUses_cons, waitsOf_cons, Hp, Hw in *. split; [by eapply booked_free|done| |by apply limited_free|lia].
  apply (counted_free _ _ (usePrep wr r) H3).
Qed.

(** A task is done. *)
Lemma books_done prep act tc ts r p : isPrep p = false -> books info prep act tc ((r, p) :: ts) ->
  books info prep (ar_Free (SchedId r) (SealTask r) wr (u_res (useWork wr r)) act tc).1 (tc_Free (SealTask r) (SchedId r) tc) ts.
Proof.
  intros Hp [H1 H2 H3 H4 H5]. rewrite prepUses_cons, workUses_cons, waitsOf_cons, Hp in *. split; [done|by eapply booked_free| |by apply limited_free|].
  - apply (counted_free _ _ (useWork wr r)). eapply counted_perm; [symmetry; apply Permutation_middle|done].
  - cbn. rewrite H5. destruct p; cbn [waits]; done || lia.
Qed.

(** A task changes its phase: it begins or ends to wait, or has answered. *)
Lemma books_phase prep act tc ts r p p' : isPrep p' = isPrep p -> books info prep act tc ((r, p) :: ts) ->
  books info prep (setWaiting (waiting act - (if waits p then 1 else 0) + (if waits p' then 1 else 0)) act) tc ((r, p') :: ts).
Proof.
  intros Hp [H1 H2 H3 H4 H5]. rewrite prepUses_cons, workUses_cons, waitsOf_cons in *. rewrite <-Hp in *.
  split; rewrite ?prepUses_cons, ?workUses_cons, ?waitsOf_cons; [done|by apply booked_waiting|done|done|]. cbn [waiting setWaiting]. rewrite H5. lia.
Qed.
End books.

(** ** Handles *)

Definition handleBooks (h : WorkerHandle) : Prop := sane (workerRes h) /\ books (Info h) (preparing h) (active h) (counters h) (tasks h).

Lemma handleBooks_frame h h' : handleBooks h -> Info h' = Info h -> preparing h' = preparing h -> active h' = active h -> counters h' = counters h -> tasks h' = tasks h -> handleBooks h'.
Proof. unfold handleBooks, workerRes. by intros Hb -> -> -> -> ->. Qed.

Lemma prepare_books h r : handleBooks h -> canPrepare h r = true -> handleBooks (startProcessingTask r h).
Proof.
  intros [Hs Hb] Hc. split; [done|]. eapply books_perm; [apply Permutation_cons_append|]. by apply books_prepare.
Qed.

Lemma ready_books h r : handleBooks h -> readyTask h r = true -> handleBooks (startProcessingReadyTask r h).
Proof.
  intros [Hs Hb] [_ Hc]%andb_true_iff. split; [done|]. eapply books_perm; [apply Permutation_cons_append|]. by apply books_work.
Qed.

Lemma startTasks_books can start k todo h : (forall h t, handleBooks h -> can h t = true -> handleBooks (start t h)) -> handleBooks h -> handleBooks (startTasks can start k todo h).2.
Proof.
  intros Hst. revert todo h. induction k as [|k IH]; intros todo h Hb; cbn [startTasks]; [done|]. destruct (list_find _ todo) as [[i t]|] eqn:Ef; [|done].
  apply list_find_Some in Ef as (_ & Hc & _). apply IH. by apply Hst.
Qed.

Lemma assignWork_books can start ws h : (forall h t, handleBooks h -> can h t = true -> handleBooks (start t h)) -> handleBooks h -> handleBooks (assignWork can start ws h).2.
Proof.
  intros Hst. revert h. induction ws as [|w ws IH]; intros h Hb; cbn [assignWork]; [done|]. pose proof (startTasks_books can start (length (Todo w)) (Todo w) h Hst Hb) as Hb'.
  destruct (startTasks _ _ _ _ _) as [[|t todo] h']; [by apply IH|done].
Qed.

Lemma assignWindows_books can start h : (forall h t, handleBooks h -> can h t = true -> handleBooks (start t h)) -> handleBooks h -> handleBooks (assignWindows can start h).
Proof.
  intros Hst Hb. unfold assignWindows. pose proof (assignWork_books can start (activeWindows h) h Hst Hb) as Hb'. destruct (assignWork _ _ _ _) as [ws h']. by eapply handleBooks_frame.
Qed.

Lemma process_books h : handleBooks h -> handleBooks (processAssignedWindows (workerCompactWindows h)).
Proof.
  intros Hb. assert (handleBooks (workerCompactWindows h)) as Hb' by by eapply handleBooks_frame. unfold processAssignedWindows, assignPreparingWork, assignReadyWork.
  apply assignWindows_books; [apply prepare_books|]. case_match; [done|]. by apply assignWindows_books; [apply ready_books|].
Qed.

(** A task that has its resources for preparing, and is not waiting. *)
Lemma withResources_books i r p h : tasks h !! i = Some (r, p) -> sane (workerRes h) ->
  books (Info h) (preparing h) (active h) (counters h) ((r, Preparing) :: delete i (tasks h)) -> handleBooks (withResources i r h).
Proof.
  intros Hi Hs Hb. unfold withResources. case_match eqn:Hc.
  - split; [done|]. eapply books_perm; [symmetry; by eapply insert_perm|].
    refine (books_prepared (Info h) (preparing h) _ _ _ r Preparing eq_refl eq_refl _). eapply books_perm; [apply Permutation_swap|]. by apply books_work.
  - split; [done|]. eapply books_perm; [symmetry; by eapply insert_perm|]. apply (books_phase _ _ _ _ _ r Preparing Blocked) in Hb; [|done]. cbn in Hb |- *. by rewrite Z.sub_0_r in Hb.
Qed.

Lemma wake_books info prep act tc ts : books info prep act tc ts -> books info prep act tc (wake <$> ts).
Proof.
  intros [H1 H2 H3 H4 H5]. assert (forall wr, prepUses wr (wake <$> ts) = prepUses wr ts) as E1.
  { intros wr. clear. induction ts as [|[r p] ts IH]; [done|]. cbn [fmap list_fmap]. rewrite prepUses_cons, <-IH. unfold wake at 1. by destruct p; cbn [fst snd]; rewrite prepUses_cons. }
  assert (forall wr, workUses wr (wake <$> ts) = workUses wr ts) as E2.
  { intros wr. clear. induction ts as [|[r p] ts IH]; [done|]. cbn [fmap list_fmap]. rewrite workUses_cons, <-IH. unfold wake at 1. by destruct p; cbn [fst snd]; rewrite workUses_cons. }
  assert (waitsOf (wake <$> ts) = waitsOf ts) as E3.
  { clear. induction ts as [|[r p] ts IH]; [done|]. cbn [fmap list_fmap]. rewrite waitsOf_cons, <-IH. unfold wake at 1. by destruct p; cbn [fst snd]; rewrite waitsOf_cons. }
  split; by rewrite ?E1, ?E2, ?E3.
Qed.

Lemma delete_cons_perm {A} (l : list A) i x : l !! i = Some x -> l ≡ₚ x :: delete i l.
Proof. apply delete_Permutation. Qed.

(** ** Windows *)

(** The window has the resources of its tasks, and maybe of some that it had. *)
Definition winBooked (info : WorkerInfo) (w : SchedWindow) : Prop := exists xs, let us := useWork (wi_Resources info) <$> (Todo w ++ xs) in
  booked info (Allocated w) us /\ counted (w_counters w) us /\ limited (wi_Resources info) (w_counters w).

Lemma new_booked info : sane (wi_Resources info) -> winBooked info newWindow.
Proof. intros Hs. exists []. split; [by apply booked_empty|]. split; [apply counted_empty|]. intros st _ Hl. change (tc_Get st (w_counters newWindow)) with (∅ : gmap UUID Z). rewrite map_size_empty. lia. Qed.

Lemma allocate_booked h t w : sane (workerRes h) -> winBooked (Info h) w ->
  CanHandleRequest (SchedId t) (SealTask t) (needRes h t) (Info h) (Allocated w) (w_counters w) = true -> winBooked (Info h) (allocate h t w).1.
Proof.
  intros Hs (xs & Hb & Hc & Hl) Hcan. exists xs. assert (useWork (workerRes h) <$> Todo (allocate h t w).1 ++ xs ≡ₚ useWork (workerRes h) t :: (useWork (workerRes h) <$> Todo w ++ xs)) as Hp.
  { rewrite <-fmap_cons. apply fmap_Permutation. cbn. rewrite <-app_assoc. symmetry. apply Permutation_middle. }
  split_and!.
  - eapply booked_perm; [symmetry; exact Hp|]. by apply (booked_add (Info h) _ _ (useWork (workerRes h) t) (SchedId t) (SealTask t) (w_counters w) Hs (sane_work _ t Hs) Hb).
  - eapply counted_perm; [symmetry; exact Hp|]. apply (counted_add _ _ (useWork (workerRes h) t) Hc).
  - eapply limited_add; [done|done| |done]. done.
Qed.

Lemma moveTasks_booked h lower window ts keep xs : sane (workerRes h) -> winBooked (Info h) lower ->
  booked (Info h) (Allocated window) (useWork (workerRes h) <$> (keep ++ ts ++ xs)) -> counted (w_counters window) (useWork (workerRes h) <$> (keep ++ ts ++ xs)) ->
  limited (workerRes h) (w_counters window) ->
  winBooked (Info h) (moveTasks h lower window ts keep).1 /\ winBooked (Info h) (moveTasks h lower window ts keep).2.
Proof.
  intros Hs. revert lower window keep. induction ts as [|t ts IH]; intros lower window keep Hlow Hb Hc Hl; cbn [moveTasks]; [split; [done|by exists xs]|].
  assert (useWork (workerRes h) <$> keep ++ (t :: ts) ++ xs ≡ₚ useWork (workerRes h) t :: (useWork (workerRes h) <$> keep ++ ts ++ xs)) as Hp.
  { rewrite <-fmap_cons. apply fmap_Permutation. symmetry. apply Permutation_middle. }
  case_match eqn:Hcan.
  - apply IH; cbn [Allocated w_counters]; [by apply allocate_booked| | |by apply limited_free].
    + apply (booked_free (Info h) _ _ (useWork (workerRes h) t) (SchedId t) (SealTask t) (w_counters window)). by eapply booked_perm.
    + apply (counted_free _ _ (useWork (workerRes h) t)). by eapply counted_perm.
  - assert (keep ++ (t :: ts) ++ xs = (keep ++ [t]) ++ ts ++ xs) as E by by rewrite <-app_assoc. rewrite E in *. by apply IH.
Qed.

Lemma compactLoop_booked h lower ws : sane (workerRes h) -> winBooked (Info h) lower -> Forall (winBooked (Info h)) ws -> Forall (winBooked (Info h)) (compactLoop h lower ws).
Proof.
  intros Hs. revert lower. induction ws as [|w ws IH]; intros lower Hl Hws; cbn [compactLoop]; [by constructor|]. apply Forall_cons in Hws as [(xs & Hb & Hc & Hlim) Hws].
  destruct (moveTasks_booked h lower w (Todo w) [] xs Hs Hl Hb Hc Hlim) as [H1 H2]. destruct (moveTasks _ _ _ _ _) as [l w']. constructor; [done|]. by apply IH.
Qed.

Lemma startTasks_perm can start k todo h : exists st, todo ≡ₚ (startTasks can start k todo h).1 ++ st.
Proof.
  revert todo h. induction k as [|k IH]; intros todo h; cbn [startTasks]; [exists []; by rewrite app_nil_r|]. destruct (list_find _ todo) as [[i t]|] eqn:Ef; [|exists []; by rewrite app_nil_r].
  apply list_find_Some in Ef as (Hi & _). destruct (IH (delete i todo) (start t h)) as [st Hst]. exists (t :: st).
  etrans; [by apply delete_Permutation|]. etrans; [apply Permutation_skip, Hst|]. apply Permutation_middle.
Qed.

Lemma assignWork_booked can start ws h info : Forall (winBooked info) ws -> Forall (winBooked info) (assignWork can start ws h).1.
Proof.
  revert h. induction ws as [|w ws IH]; intros h Hws; cbn [assignWork]; [done|]. apply Forall_cons in Hws as [(xs & Hb & Hc & Hl) Hws].
  destruct (startTasks_perm can start (length (Todo w)) (Todo w) h) as [st Hst]. destruct (startTasks _ _ _ _ _) as [[|t todo] h']; [by apply IH|]. constructor; [|done].
  exists (st ++ xs). cbn [fst Todo Allocated w_counters] in *.
  assert (useWork (wi_Resources info) <$> Todo w ++ xs ≡ₚ useWork (wi_Resources info) <$> (t :: todo) ++ st ++ xs) as Hp by (apply fmap_Permutation; by rewrite Hst, <-app_assoc).
  split_and!; [by eapply booked_perm|by eapply counted_perm|done].
Qed.

Lemma filter_booked info ws : Forall (winBooked info) ws -> Forall (winBooked info) (List.filter hasTasks ws).
Proof. induction 1; cbn [List.filter]; [constructor|]. case_match; [by constructor|done]. Qed.

Lemma assignWindows_booked can start h : starts start -> Forall (winBooked (Info h)) (activeWindows h) ->
  let h' := assignWindows can start h in Info h' = Info h /\ Forall (winBooked (Info h)) (activeWindows h').
Proof.
  intros Hst Hw. unfold assignWindows. pose proof (assignWork_booked can start (activeWindows h) h (Info h) Hw) as Hw'.
  destruct (assignWork_ok can start (activeWindows h) h Hst) as ([] & _). destruct (assignWork _ _ _ _) as [ws h']. done.
Qed.

Lemma process_booked h : sane (workerRes h) -> Forall (winBooked (Info h)) (activeWindows h) ->
  let h' := processAssignedWindows (workerCompactWindows h) in Info h' = Info h /\ Forall (winBooked (Info h)) (activeWindows h').
Proof.
  intros Hs Hw. set (h1 := workerCompactWindows h). assert (Forall (winBooked (Info h1)) (activeWindows h1)) as Hc.
  { unfold h1, workerCompactWindows. cbn [activeWindows set_windows Info]. apply filter_booked. destruct (activeWindows h); [done|]. apply Forall_cons in Hw as [? ?]. by apply compactLoop_booked. }
  unfold processAssignedWindows, assignPreparingWork, assignReadyWork. change (Info h) with (Info h1). case_match.
  - apply assignWindows_booked; [apply startPreparing|done].
  - destruct (assignWindows_booked readyTask _ h1 startReady Hc) as [E1 H1]. rewrite <-E1. apply assignWindows_booked; [apply startPreparing|by rewrite E1].
Qed.

(** ** Steps *)

Record resOk (s : Sys) : Prop := {
  ro_books n h : handles s !! n = Some h -> handleBooks h;
  ro_windows n h : handles s !! n = Some h -> pc h <> Exited -> Forall (winBooked (Info h)) (scheduledWindows h ++ activeWindows h);
  ro_done q : q ∈ windowRequests s ++ OpenWindows s -> exists h, handles s !! Done q = Some h /\ swr_Worker q = wid h;
}.

Lemma handle_cases n h' s m x : handles (set_handle n h' s) !! m = Some x -> (n = m /\ h' = x) \/ (n <> m /\ handles s !! m = Some x).
Proof. apply lookup_insert_Some. Qed.

Lemma resOk_set_handle n h h' s : resOk s -> handles s !! n = Some h -> wid h' = wid h -> handleBooks h' ->
  (pc h' <> Exited -> Forall (winBooked (Info h')) (scheduledWindows h' ++ activeWindows h')) -> resOk (set_handle n h' s).
Proof.
  intros [Hb Hw Hd] Hh Hwid Hb' Hw'. split.
  - intros m x [[<- <-]|[_ Hx]]%handle_cases; [done|by eapply Hb].
  - intros m x [[<- <-]|[_ Hx]]%handle_cases; [done|by eapply Hw].
  - intros q Hq. destruct (Hd q Hq) as (x & Hx & Hqx). cbn. destruct (decide (Done q = n)) as [E|Hne].
    + rewrite E in *. rewrite lookup_insert_eq. exists h'. split; [done|]. congruence.
    + rewrite lookup_insert_ne by done. by exists x.
Qed.

Lemma resOk_frame s s' : resOk s -> handles s' = handles s -> (forall q, q ∈ windowRequests s' ++ OpenWindows s' -> q ∈ windowRequests s ++ OpenWindows s) -> resOk s'.
Proof. intros [Hb Hw Hd] E Hq. split; rewrite E; [done..|]. intros q ?%Hq. by apply Hd. Qed.

(** The same handle but for its place in the loop, flags and numbers. *)
Lemma resOk_same n h h' s : resOk s -> handles s !! n = Some h -> wid h' = wid h -> Info h' = Info h -> preparing h' = preparing h -> active h' = active h ->
  counters h' = counters h -> tasks h' = tasks h -> (pc h' <> Exited -> pc h <> Exited /\ scheduledWindows h' ++ activeWindows h' ⊆ scheduledWindows h ++ activeWindows h) -> resOk (set_handle n h' s).
Proof.
  intros Hr Hh Hwid Ei Ep Ea Ec Et Hw. eapply resOk_set_handle; [done..| |].
  - eapply handleBooks_frame; [by eapply (ro_books s Hr)|done..].
  - intros [Hp Hs]%Hw. rewrite Ei. pose proof (ro_windows s Hr n h Hh Hp) as Hf. rewrite Forall_forall in *. intros w Hx. apply Hf. by apply Hs.
Qed.

Lemma sendWindow_res s req w : resOk s -> (forall h, handles s !! Done req = Some h -> pc h <> Exited -> winBooked (Info h) w) -> resOk (sendWindow s req w) /\
  forall n h', handles (sendWindow s req w) !! n = Some h' -> exists h, handles s !! n = Some h /\ Info h' = Info h /\ pc h' = pc h.
Proof.
  intros Hr Hw. unfold sendWindow. destruct (handles s !! Done req) as [h|] eqn:Hh; [|split; [by eapply resOk_frame|by eauto]].
  case_match; [|split; [by eapply resOk_frame|by eauto]]. split.
  - eapply resOk_set_handle; [done..| |]; [eapply handleBooks_frame; [by eapply (ro_books s Hr)|done..]|]. cbn. intros Hp.
    pose proof (ro_windows s Hr _ h Hh Hp) as Hf. apply Forall_app in Hf as [H1 H2]. rewrite <-app_assoc. apply Forall_app. split; [done|]. constructor; [by apply Hw|done].
  - intros n h' [[<- <-]|[_ Hx]]%handle_cases; [by exists h|by eauto].
Qed.

Lemma submitWindows_res s open windows keep : resOk s ->
  (forall i req w h, open !! i = Some req -> windows !! i = Some w -> handles s !! Done req = Some h -> pc h <> Exited -> winBooked (Info h) w) ->
  resOk (submitWindows s open windows keep).1 /\ (submitWindows s open windows keep).2 ⊆ keep ++ open /\
  windowRequests (submitWindows s open windows keep).1 = windowRequests s /\ OpenWindows (submitWindows s open windows keep).1 = OpenWindows s.
Proof.
  revert s windows keep. induction open as [|req open IH]; intros s [|w windows] keep Hr Hw; cbn [submitWindows]; try by (split_and!; [done|set_solver|done..]).
  destruct (Todo w).
  - destruct (IH s windows (keep ++ [req]) Hr) as (H1 & H2 & H3 & H4); [intros i; apply (Hw (S i))|]. split_and!; [done| |done..]. by rewrite <-app_assoc in H2.
  - destruct (sendWindow_res s req w Hr) as [Hr' Hs]; [intros h; by apply (Hw O)|].
    destruct (IH (sendWindow s req w) windows keep Hr') as (H1 & H2 & H3 & H4).
    { intros i rq x h' Ho Hx Hh' Hp. destruct (Hs _ _ Hh') as (h & Hh & -> & Ep). eapply (Hw (S i)); [done..|congruence]. }
    assert (windowRequests (sendWindow s req w) = windowRequests s /\ OpenWindows (sendWindow s req w) = OpenWindows s) as [E1 E2] by (unfold sendWindow; by repeat case_match).
    split_and!; [done|set_solver|congruence..].
Qed.

Section res_steps.
Context `{GoSortOk}.

Lemma TrySched_res a ans s rs : kept rs s -> noTies rs -> resOk s -> ends_in resOk (TrySched a ans s).
Proof.
  intros Hk Hn Hr. destruct Hk as [Hwf Ht] eqn:Ek. destruct (TrySched_spec (fun i w => forall req h, OpenWindows s !! i = Some req -> workerOf s (swr_Worker req) = Some h -> winBooked (Info h) w) a ans s)
    as (q & ts & windows & _ & _ & Hl & HQ & _ & Hres); [| |done|by eapply kept_queue|].
  - intros i req w window task Hreq Hw HQ Hc rq h Hrq Hh. simplify_eq. apply allocate_booked; [|by eapply HQ|done].
    unfold workerOf in Hw. destruct (Workers s !! swr_Worker req) as [m|] eqn:Em; [|done]. by apply (ro_books s Hr m).
  - intros i req h Hreq Hw. apply new_booked. unfold workerOf in Hw. destruct (Workers s !! swr_Worker req) as [m|] eqn:Em; [|done]. by apply (ro_books s Hr m).
  - destruct Hres as [[_ ->]| ->]; [by eapply resOk_frame|].
    destruct (submitWindows_res (set_SchedQueue q s) (OpenWindows s) windows []) as (H1 & H2 & H3 & H4); [by eapply resOk_frame| |].
    + intros i req w h Hreq Hw Hh Hp. eapply (HQ i w Hw req h Hreq). destruct (ro_done s Hr req) as (h0 & Hh0 & Ew); [apply elem_of_app; right; by eapply list_elem_of_lookup_2|].
      unfold workerOf. assert (Workers s !! swr_Worker req = Some (Done req)) as ->; [|done]. apply (wf_workers s Hwf). exists h. split; [done|]. split; [|done]. cbn in Hh. congruence.
    + eapply resOk_frame; [exact H1|done|]. cbn. rewrite H3, H4. cbn. set_solver.
Qed.

Lemma receive_res m s ns : resOk s -> ends_in (fun x => resOk x.1) (receive m s ns).
Proof.
  intros Hr. destruct m as [id| |n|r| |]; cbn [receive]; try (case_match; [|done]); try (by eapply resOk_frame).
  - unfold removeRequest. destruct (list_find _ _) as [[i r]|]; [|done]. destruct (queue_Remove _ _); [|done..]. by eapply resOk_frame.
  - destruct (pc w) eqn:Hp; try done. eapply resOk_same; [done..|]. intros _. by rewrite Hp.
  - destruct (windowRequests s) as [|req reqs] eqn:Er; [done|]. eapply resOk_frame; [done..|]. cbn. rewrite Er. set_solver.
  - case_match; [done|]. by eapply resOk_frame.
Qed.

Lemma gather_res ms s ns : resOk s -> ends_in (fun x => resOk x.1) (gatherMsgs ms s ns).
Proof.
  revert s ns. induction ms as [|m ms IH]; intros s ns Hr; cbn [gatherMsgs]; [done|]. case_match; [|done]. eapply ends_bind; [by apply receive_res|].
  intros [s1 ns1] _ Hr1. by apply IH.
Qed.

Lemma disableWorker_res n s : resOk s -> ends_in resOk (disableWorker n s).
Proof.
  intros Hr. unfold disableWorker. destruct (handles s !! n) as [h|] eqn:Hh; [|done]. destruct (Workers s !! wid h) as [m|]; [|done]. destruct (handles s !! m) as [w|] eqn:Hm; [|done]. cbn [ends_in].
  set (s1 := set_OpenWindows _ _). assert (resOk s1) as Hr1 by (eapply resOk_frame; [done..|]; cbn; intros q; rewrite !elem_of_app, list_elem_of_filter; tauto).
  set (s2 := set_handle m _ s1). assert (resOk s2) as Hr2 by by eapply resOk_same. destruct (handles s2 !! n) as [h2|] eqn:Hh2; [|done]. destruct (pc h2) eqn:Hp; try done.
  eapply resOk_same; [done..|]. intros _. by rewrite Hp.
Qed.

Lemma disableWorkers_res ns s : resOk s -> ends_in resOk (disableWorkers ns s).
Proof. revert s. induction ns as [|n ns IH]; intros s Hr; cbn [disableWorkers]; [done|]. eapply ends_bind; [by apply disableWorker_res|]. intros s1 _ Hr1. by apply IH. Qed.

Lemma runSched_res a m ms ans s rs : kept rs s -> noTies (rs ++ scheduled m ++ concat (scheduled <$> ms)) -> resOk s -> ends_in resOk (runSched a m ms ans s).
Proof.
  intros Hk Hn Hr. unfold runSched. pose proof (receive_ok m s rs [] Hk) as Hr1. pose proof (receive_res m s [] Hr) as Hs1. rewrite app_assoc in Hn.
  destruct (receive m s []) as [[s1 ns1]| |]; [|done..].
  destruct Hr1 as [Hk1 Hd1]; [split; [constructor|set_solver]|eapply noTies_sub; [done|set_solver]|]. cbn [mbind outcome_bind fst snd] in *. case_match; [|by destruct ms].
  pose proof (gather_ok ms s1 (rs ++ scheduled m) ns1 Hk1 Hd1 Hn) as Hg. pose proof (gather_res ms s1 ns1 Hs1) as Hs2. destruct (gatherMsgs ms s1 ns1) as [[s2 ns2]| |]; [|done..].
  destruct Hg as [Hk2 Hd2]. cbn [mbind outcome_bind fst snd] in *. pose proof (disableWorkers_ok ns2 s2 _ Hk2 Hn Hd2) as Hk3. pose proof (disableWorkers_res ns2 s2 Hs2) as Hs3.
  destruct (disableWorkers ns2 s2) as [s3| |]; [|done..]. cbn [mbind outcome_bind]. by eapply TrySched_res.
Qed.

Lemma handleWorker_res n st s : resOk s -> ends_in resOk (handleWorker n st s).
Proof.
  intros Hr. unfold handleWorker. destruct (handles s !! n) as [h|] eqn:Hh; [|done]. destruct (pc h) eqn:Hp, st; try done; cbn [ends_in];
    try (eapply resOk_same; [done..|]; intros _; by rewrite Hp).
  - unfold requestWindows. case_match; [case_match; [|done]|cbn [ends_in]; eapply resOk_same; [done..|]; intros _; by rewrite Hp]. cbn [ends_in].
    assert (resOk (set_handle n (set_windows (activeWindows h) (windowsRequested h + 1) h) s)) as [R1 R2 R3] by by eapply resOk_same. split; [done..|].
    cbn. intros q. rewrite <-app_assoc. rewrite !elem_of_app, list_elem_of_singleton. intros [Hq|[->|Hq]]; [apply R3, elem_of_app; by left| |apply R3, elem_of_app; by right]. cbn. rewrite lookup_insert_eq. by eexists.
  - unfold checkSession. destruct answer; [| |destruct (Enabled h)]; (eapply resOk_same; [done..|]; intros _; by rewrite Hp).
  - unfold disabled. assert (forall p, resOk (set_handle n (set_pc p (set_windows [] 0 h)) s)) as Hx.
    { intros p. eapply resOk_same; [done..|]. intros _. rewrite Hp. split; [done|]. cbn. set_solver. }
    destruct k; [apply Hx..|]. eapply resOk_frame; [apply (Hx Exited)|done..].
  - unfold receiveWindow. destruct (scheduledWindows h) as [|w ws] eqn:Es; [done|]. eapply resOk_same; [done..|]. intros _. rewrite Hp, Es. split; [done|]. cbn. set_solver.
  - unfold receiveWindow. destruct (scheduledWindows h) as [|w ws] eqn:Es; [done|]. eapply resOk_same; [done..|]. intros _. rewrite Hp, Es. split; [done|]. cbn. set_solver.
  - case_match; [|done]. cbn [ends_in]. eapply (resOk_frame (set_handle n _ s)); [|reflexivity|done]. eapply resOk_same; [done..|]. intros _. by rewrite Hp.
  - destruct (ro_books s Hr n h Hh) as [Hs Hb]. assert (pc h <> Exited) as Hne by by rewrite Hp. pose proof (ro_windows s Hr n h Hh Hne) as [Hw1 Hw2]%Forall_app.
    destruct (process_booked h Hs Hw2) as [Ei Hw3]. destruct (process_processed h) as (_ & Ew & _ & Es & _). eapply resOk_set_handle; [done..| |].
    + eapply handleBooks_frame; [apply (process_books h); by split|done..].
    + intros _. cbn. rewrite Ei, Es. apply Forall_app. by split.
Qed.

(** The numbers of the workers that are added. *)
Definition saneEvent (e : SchedEvent) : Prop := match e with EAdd _ _ info => sane (wi_Resources info) | _ => True end.

Lemma runWorker_res n w info s : sane (wi_Resources info) -> resOk s -> ends_in resOk (runWorker n w info s).
Proof.
  intros Hs [Hb Hw Hd]. unfold runWorker. destruct (handles s !! n) eqn:Hh; [done|]. destruct (Workers s !! w); [done|]. cbn. split.
  - intros m x [[<- <-]|[_ Hx]]%handle_cases; [|by eapply Hb]. split; [done|]. split; [by apply booked_empty..|apply counted_empty| |done].
    intros st _ Hl. change (tc_Get st (counters (newWorkerHandle w info))) with (∅ : gmap UUID Z). rewrite map_size_empty. lia.
  - intros m x [[<- <-]|[_ Hx]]%handle_cases; [constructor|by eapply Hw].
  - intros q Hq. destruct (Hd q Hq) as (x & Hx & Hqx). exists x. split; [|done]. cbn. rewrite lookup_insert_ne; [done|]. congruence.
Qed.

Lemma runTask_res n i st s : resOk s -> ends_in resOk (runTask n i st s).
Proof.
  intros Hr. unfold runTask. destruct (handles s !! n) as [h|] eqn:Hh; [|done]. destruct (tasks h !! i) as [[r p]|] eqn:Hi; [|done].
  destruct (ro_books s Hr n h Hh) as [Hs Hb]. pose proof (ro_windows s Hr n h Hh) as Hw. apply (books_perm _ _ _ _ _ ((r, p) :: delete i (tasks h))) in Hb as Hb'; [|by apply delete_Permutation].
  assert (forall h0 p', tasks h0 !! i = Some (r, p') -> wid h0 = wid h -> Info h0 = Info h -> pc h0 = pc h -> scheduledWindows h0 = scheduledWindows h -> activeWindows h0 = activeWindows h ->
    books (Info h0) (preparing h0) (active h0) (counters h0) ((r, Preparing) :: delete i (tasks h0)) -> resOk (set_handle n (withResources i r h0) s)) as Hwith.
  { intros h0 p' Hi0 Ew Ei Ep Es Ea Hb0. assert (sane (workerRes h0)) as Hs0 by (unfold workerRes; by rewrite Ei). eapply resOk_set_handle; [done..| |by eapply withResources_books|];
      unfold withResources; case_match; cbn; rewrite ?Ew, ?Ei, ?Ep, ?Es, ?Ea; done. }
  destruct p, st; try done.
  - by eapply Hwith.
  - cbn [ends_in]. eapply (resOk_frame (set_handle n _ s)); [|reflexivity|done]. eapply resOk_set_handle; [done..| |done]. split; [done|].
    refine (books_prepared (Info h) (preparing h) _ _ _ r Preparing eq_refl eq_refl Hb').
  - cbn [ends_in]. eapply Hwith; [done..|]. apply (books_phase _ _ _ _ _ r Woken Preparing) in Hb'; [|done]. cbn in Hb' |- *. by rewrite Z.add_0_r in Hb'.
  - cbn [ends_in]. eapply (resOk_frame (set_handle n _ s)); [|reflexivity|done]. eapply resOk_set_handle; [done..| |done]. split; [done|].
    eapply books_perm; [symmetry; by eapply insert_perm|]. apply (books_phase _ _ _ _ _ r Working Responded) in Hb'; [|done]. cbn in Hb' |- *.
    rewrite Z.sub_0_r, Z.add_0_r in Hb'. by destruct (active h).
  - cbn [ends_in]. eapply resOk_set_handle; [done..| |done]. split; [done|]. apply wake_books. refine (books_done (Info h) _ _ _ _ r Responded eq_refl Hb').
Qed.

Lemma step_res a e s rs : kept rs s -> noTies (rs ++ requests e) -> saneEvent e -> resOk s -> ends_in resOk (schedStep a e s).
Proof.
  intros Hk Hn He Hr. destruct e as [m ms ans|n w info|n st|n i st]; cbn [schedStep requests] in *.
  - by eapply runSched_res.
  - by apply runWorker_res.
  - by apply handleWorker_res.
  - by apply runTask_res.
Qed.

Lemma run_res a es s rs : kept rs s -> noTies (rs ++ scheduledBy a es s) -> Forall saneEvent es -> resOk s -> ends_in resOk (schedRun a es s).
Proof.
  revert s rs. induction es as [|e es IH]; intros s rs Hk Hn Hes Hr; cbn [schedRun scheduledBy] in *; [done|]. apply Forall_cons in Hes as [He Hes].
  pose proof (schedStep_ok a e s rs Hk) as Hst. pose proof (step_res a e s rs Hk) as Hc. destruct (schedStep a e s) as [s1| |] eqn:E; [|by eapply IH|done].
  rewrite app_assoc in Hn. assert (noTies (rs ++ requests e)) as Hn1 by (eapply noTies_sub; [done|set_solver]). eapply (IH s1 (rs ++ requests e)); [by apply Hst|done..|by apply Hc].
Qed.

End res_steps.

(** ** Numbers that are sane *)

Definition entryOk (r : Resources) : bool :=
  (0 <=? MinMemory r) && (MinMemory r <? 2 ^ 62) && (0 <=? MaxMemory r) && (MaxMemory r <? 2 ^ 62) && (0 <=? BaseMinMemory r) && (BaseMinMemory r <? 2 ^ 62) &&
  (-1 <=? MaxParallelism r) && (MaxParallelism r <? 2 ^ 31) && (-1 <=? MaxParallelismGPU r) && (MaxParallelismGPU r <? 2 ^ 31).

Definition tableOk (t : gmap TaskType (gmap Z Resources)) : Prop := map_Forall (fun _ m => map_Forall (fun _ r => entryOk r = true) m) t.

Lemma ResourceTable_ok : tableOk ResourceTable.
Proof. unfold tableOk. refine (bool_decide_unpack _ _). vm_compute. exact I. Qed.

(** The table of the repository, and any with such entries, on a machine of up to 2^32 CPUs. *)
Lemma sane_machine wr : 0 <= MemPhysical wr -> 0 <= MemSwap wr -> MemPhysical wr + MemSwap wr < 2 ^ 64 -> 0 <= MemUsed wr + MemSwapUsed wr <= MemPhysical wr + MemSwap wr ->
  0 <= CPUs wr < 2 ^ 32 -> (forall t, CustomResources wr = Some t -> tableOk t) -> sane wr.
Proof.
  intros Hp Hs Hsum Hu Hc Ht. split; [lia..|]. intros spt tt. assert (entryOk (ResourceSpec wr spt tt) = true) as He.
  { assert (forall t m r, tableOk t -> t !! tt = Some m -> m !! spt = Some r -> entryOk r = true) as Hx by (intros t m r Htab Hm Hr; exact (Htab tt m Hm spt r Hr)).
    assert (entryOk (default noResources (ResourceTable !! tt ≫= (.!! spt))) = true) as Hdef.
    { destruct (ResourceTable !! tt) as [m|] eqn:Em; cbn; [|done]. destruct (m !! spt) as [r|] eqn:Er; cbn; [|done]. eapply Hx; [apply ResourceTable_ok|done..]. }
    unfold ResourceSpec. destruct (CustomResources wr) as [t|]; [|done]. destruct (t !! tt) as [m|] eqn:Em; [|done]. destruct (m !! spt) as [r|] eqn:Er; [|done]. eapply Hx; [by apply Ht|done..]. }
  generalize dependent (ResourceSpec wr spt tt). intros r He. unfold entryOk in He. rewrite !andb_true_iff, !Z.leb_le, !Z.ltb_lt in He.
  assert (0 <= Threads r (CPUs wr) (gpus wr) < 2 ^ 33); [|unfold saneRes; lia]. unfold Threads. set (mp := if (_ : bool) then MaxParallelismGPU r else MaxParallelism r).
  assert (-1 <= mp < 2 ^ 31) as Hmp by (unfold mp; case_match; lia). destruct (Z.eqb_spec mp (-1)).
  - unfold ParallelNum, ParallelDenom. rewrite u64_id by (unfold in_u64; lia). case_match; [lia|]. split; [apply Z.div_pos; lia|]. apply Z.div_lt_upper_bound; lia.
  - rewrite u64_id by (unfold in_u64; lia). lia.
Qed.

Lemma demo_sane : sane (wi_Resources demoInfo).
Proof.
  apply sane_machine; cbn; try lia. intros t [= <-]. unfold tableOk. refine (bool_decide_unpack _ _). vm_compute. exact I.
Qed.


(** ** Rounding *)

(** Three tasks with 0.2, 0.35 and 0.3 of a GPU run and end.  The sum that is left is not zero, and
    a task that needs the GPU is refused although nothing runs. *)
Lemma gpu_drift :
  let gpu x := mkResources 0 0 0 0 x 0 in let r1 := gpu (fdiv (float_of 2) (float_of 10)) in let r2 := gpu (fdiv (float_of 35) (float_of 100)) in let r3 := gpu (fdiv (float_of 3) (float_of 10)) in
  let info := {| Hostname := "w"; IgnoreResources := false; wi_Resources := {| MemPhysical := 1024; MemUsed := 0; MemSwap := 0; MemSwapUsed := 0; CPUs := 4; GPUs := ["gpu"];
    CustomResources := None |} |} in
  let st := (TTCommit2, StackedDrg2KiBV1) in let add r a := addUse (wi_Resources info) r a in let free r a := (ar_Free 1 st (wi_Resources info) r a ∅).1 in
  let a := free r3 (free r2 (free r1 (add r3 (add r2 (add r1 NewActiveResources))))) in
  CanHandleRequest 1 st (gpu float_one) info NewActiveResources ∅ = true /\ CanHandleRequest 1 st (gpu float_one) info a ∅ = false /\
  memUsedMin a = 0 /\ cpuUse a = 0.
Proof. vm_compute. by split_and!. Qed.
