(* ===== verification/CtlAddr.v ===== *)
(** * The address that pays for a message: storage/ctladdr/addresses.go

    Messages of a miner are sent from one of its control addresses, its worker or its owner.  The
    selector asks the node for balances and keys, with a state that each call may change, and takes
    the first address that can pay for all, or else the richest it has seen.

    [address_selected] is about a node whose answers do not change while it is asked;
    [AddressFor_control] holds for any node. *)

From stdpp Require Import gmap.
From S2P Require Import Prelude TipSet.

(** What a call gives: an error or a value. *)
Notation reply A := (string + A)%type.

Record MinerInfo := {
  Owner : Address;
  Worker : Address;
  ControlAddresses : list Address;
}.

Inductive AddrUse := PreCommitAddr | CommitAddr | DealPublishAddr | PoStAddr | TerminateSectorsAddr.

Record AddressConfig := {
  PreCommitControl : list Address;
  CommitControl : list Address;
  TerminateControl : list Address;
  DealPublishControl : list Address;
  DisableOwnerFallback : bool;
  DisableWorkerFallback : bool;
}.

(** The node, and the protocol of an address, which go-address tells. *)
Class CtlNode := {
  node : Type;
  isIDAddress : Address -> bool;
  WalletBalance : Address -> node -> reply Z * node;
  WalletHas : Address -> node -> reply bool * node;
  StateAccountKey : Address -> node -> reply Address * node;
  StateLookupID : Address -> node -> reply Address * node;
  rangeOrder : list Address -> node -> list Address * node; (* the order in which a map is ranged over *)
}.

Class CtlNodeOk `{CtlNode} : Prop := {
  rangeOrder_perm l w : (rangeOrder l w).1 ≡ₚ l;
}.

Section select.
Context `{CtlNode} `{BigOps}.

(** The ID address, if it is found. *)
Definition resolve (addr : Address) (w : node) : option Address * node :=
  if isIDAddress addr then (Some addr, w)
  else match StateLookupID addr w with
       | (inr addr, w) => (Some addr, w)
       | (_, w) => (None, w)
       end.

(** Whether the address can pay for all, with the least bad address so far and what it has. *)
Definition maybeUseAddress (addr : Address) (goodFunds : Z) (leastBad : Address) (bestAvail : Z) (w : node) : bool * Address * Z * node :=
  match WalletBalance addr w with
  | (inr b, w) =>
      if big_GreaterThanEqual b goodFunds then
        match StateAccountKey addr w with
        | (inr k, w) =>
            match WalletHas k w with
            | (inr true, w) => (true, addr, b, w)
            | (_, w) => (false, leastBad, bestAvail, w)
            end
        | (_, w) => (false, leastBad, bestAvail, w)
        end
      else if big_GreaterThan b bestAvail then (false, addr, b, w)
      else (false, leastBad, bestAvail, w)
  | (_, w) => (false, leastBad, bestAvail, w)
  end.

Fixpoint pickLoop (ctl : list Address) (goodFunds : Z) (addrs : list Address) (leastBad : Address) (bestAvail : Z) (w : node) : Address * Z * node :=
  match addrs with
  | [] => (leastBad, bestAvail, w)
  | addr :: addrs =>
      match resolve addr w with
      | (None, w) => pickLoop ctl goodFunds addrs leastBad bestAvail w
      | (Some addr, w) =>
          if negb (bool_decide (addr ∈ ctl)) then pickLoop ctl goodFunds addrs leastBad bestAvail w
          else
            let '(found, leastBad, bestAvail, w) := maybeUseAddress addr goodFunds leastBad bestAvail w in
            if (found : bool) then (leastBad, bestAvail, w) else pickLoop ctl goodFunds addrs leastBad bestAvail w
      end
  end.

Definition pickAddress (mi : MinerInfo) (goodFunds minFunds : Z) (addrs : list Address) (w : node) : Address * Z * node :=
  pickLoop (ControlAddresses mi ++ [Owner mi; Worker mi]) goodFunds addrs (Worker mi) minFunds w.

(** [delete(defaultCtl, addr)] for the configured addresses that are found. *)
Fixpoint dropConfigured (configCtl : list Address) (defaultCtl : gset Address) (w : node) : gset Address * node :=
  match configCtl with
  | [] => (defaultCtl, w)
  | addr :: configCtl =>
      match resolve addr w with
      | (None, w) => dropConfigured configCtl defaultCtl w
      | (Some addr, w) => dropConfigured configCtl (defaultCtl ∖ {[addr]}) w
      end
  end.

Definition payers (as_ : AddressConfig) (mi : MinerInfo) (use : AddrUse) (w : node) : list Address * node :=
  let '(addrs, w) :=
    match use with
    | PreCommitAddr => (PreCommitControl as_, w)
    | CommitAddr => (CommitControl as_, w)
    | TerminateSectorsAddr => (TerminateControl as_, w)
    | DealPublishAddr => (DealPublishControl as_, w)
    | PoStAddr =>
        let defaultCtl := list_to_set (ControlAddresses mi) ∖ {[Owner mi]} ∖ {[Worker mi]} in
        let configCtl := PreCommitControl as_ ++ CommitControl as_ ++ TerminateControl as_ ++ DealPublishControl as_ in
        let '(defaultCtl, w) := dropConfigured configCtl defaultCtl w in
        rangeOrder (elements defaultCtl) w
    end in
  let addrs := if bool_decide (addrs = []) || negb (DisableWorkerFallback as_) then addrs ++ [Worker mi] else addrs in
  let addrs := if negb (DisableOwnerFallback as_) then addrs ++ [Owner mi] else addrs in
  (addrs, w).

(** A nil selector takes the worker. *)
Definition AddressFor (as_ : option AddressConfig) (mi : MinerInfo) (use : AddrUse) (goodFunds minFunds : Z) (w : node) : reply (Address * Z) * node :=
  match as_ with
  | None => (inr (Worker mi, big_NewInt 0), w)
  | Some as_ =>
      let '(addrs, w) := payers as_ mi use w in
      let '(addr, avail, w) := pickAddress mi goodFunds minFunds addrs w in
      (inr (addr, avail), w)
  end.
End select.

(** ** Any node *)

Definition controls (mi : MinerInfo) : list Address := ControlAddresses mi ++ [Owner mi; Worker mi].

Section any.
Context `{CtlNode} `{BigOps}.

Lemma maybeUseAddress_cases addr good lb ba w :
  let '(_, a, _, _) := maybeUseAddress addr good lb ba w in a = addr \/ a = lb.
Proof. unfold maybeUseAddress. repeat (case_match; simplify_eq); auto. Qed.

Lemma pickLoop_control ctl good addrs lb ba w : lb ∈ ctl -> (pickLoop ctl good addrs lb ba w).1.1 ∈ ctl.
Proof.
  revert lb ba w. induction addrs as [|addr addrs IH]; intros lb ba w Hlb; [done|]. cbn [pickLoop].
  destruct (resolve addr w) as [[a|] w']; [|by apply IH]. case_bool_decide as Ha; [|by apply IH]. cbn [negb].
  pose proof (maybeUseAddress_cases a good lb ba w') as Hc.
  destruct (maybeUseAddress a good lb ba w') as [[[found lb'] ba'] w'']. assert (lb' ∈ ctl) by (destruct Hc; by subst).
  destruct found; [done|by apply IH].
Qed.

(** The selector gives an address of the miner and no error, whatever the node answers. *)
Lemma AddressFor_control as_ mi use good minF w :
  exists a avail, (AddressFor as_ mi use good minF w).1 = inr (a, avail) /\ a ∈ controls mi.
Proof.
  assert (Hw : Worker mi ∈ controls mi) by (unfold controls; clear; set_solver).
  destruct as_ as [c|]; [|by exists (Worker mi), (big_NewInt 0)].
  unfold AddressFor. destruct (payers c mi use w) as [addrs w']. unfold pickAddress. fold (controls mi).
  pose proof (pickLoop_control (controls mi) good addrs (Worker mi) minF w' Hw) as Hp.
  destruct (pickLoop _ _ _ _ _ _) as [[a x] w'']. eauto.
Qed.
End any.

(** ** A node that does not change its answers *)

Record Answers := {
  an_bal : Address -> reply Z;
  an_key : Address -> reply Address;
  an_has : Address -> reply bool;
  an_lookup : Address -> reply Address;
}.

Section still.
Context `{CtlNode} `{BigOps}.

(** In states of [W] the node answers so, and stays in [W]. *)
Record still (an : Answers) (W : node -> Prop) : Prop := {
  still_bal a w : W w -> (WalletBalance a w).1 = an_bal an a /\ W (WalletBalance a w).2;
  still_key a w : W w -> (StateAccountKey a w).1 = an_key an a /\ W (StateAccountKey a w).2;
  still_has a w : W w -> (WalletHas a w).1 = an_has an a /\ W (WalletHas a w).2;
  still_lookup a w : W w -> (StateLookupID a w).1 = an_lookup an a /\ W (StateLookupID a w).2;
  still_order l w : W w -> W (rangeOrder l w).2;
}.

Definition resolved (an : Answers) (addr : Address) : option Address :=
  if isIDAddress addr then Some addr else match an_lookup an addr with inr a => Some a | _ => None end.

(** A candidate of the miner with its balance. *)
Definition funded (an : Answers) (mi : MinerInfo) (addr : Address) : option (Address * Z) :=
  a ← resolved an addr;
  if bool_decide (a ∈ controls mi) then match an_bal an a with inr b => Some (a, b) | _ => None end else None.

(** One that can pay for all and whose key is in the wallet. *)
Definition usable (an : Answers) (mi : MinerInfo) (good : Z) (addr : Address) : option (Address * Z) :=
  '(a, b) ← funded an mi addr;
  if good <=? b then
    match an_key an a with
    | inr k => match an_has an k with inr true => Some (a, b) | _ => None end
    | _ => None
    end
  else None.

(** One that cannot. *)
Definition poor (an : Answers) (mi : MinerInfo) (good : Z) (addr : Address) : option (Address * Z) :=
  '(a, b) ← funded an mi addr; if good <=? b then None else Some (a, b).

(** The addresses configured for a use; for the proofs, the control addresses of no other use. *)
Definition configured (an : Answers) (c : AddressConfig) (mi : MinerInfo) (use : AddrUse) (l : list Address) : Prop :=
  match use with
  | PreCommitAddr => l = PreCommitControl c
  | CommitAddr => l = CommitControl c
  | TerminateSectorsAddr => l = TerminateControl c
  | DealPublishAddr => l = DealPublishControl c
  | PoStAddr => NoDup l /\ forall a, a ∈ l <->
      a ∈ ControlAddresses mi /\ a <> Owner mi /\ a <> Worker mi /\
      forall addr, addr ∈ PreCommitControl c ++ CommitControl c ++ TerminateControl c ++ DealPublishControl c -> resolved an addr <> Some a
  end.

Definition fallback (c : AddressConfig) (mi : MinerInfo) (l : list Address) : list Address :=
  (if bool_decide (l = []) || negb (DisableWorkerFallback c) then [Worker mi] else []) ++
  (if DisableOwnerFallback c then [] else [Owner mi]).

Context (an : Answers) (W : node -> Prop) (Hst : still an W).

Lemma resolve_still addr w : W w -> (resolve addr w).1 = resolved an addr /\ W (resolve addr w).2.
Proof.
  intros Hw. unfold resolve, resolved. destruct (isIDAddress addr); [done|].
  destruct (still_lookup _ _ Hst addr w Hw) as [E HW]. destruct (StateLookupID addr w) as [o w']. cbn in *. subst o. by destruct (an_lookup an addr).
Qed.

Lemma dropConfigured_still cs d w : W w ->
  W (dropConfigured cs d w).2 /\ forall a, a ∈ (dropConfigured cs d w).1 <-> a ∈ d /\ forall addr, addr ∈ cs -> resolved an addr <> Some a.
Proof.
  revert d w. induction cs as [|c cs IH]; intros d w Hw; cbn [dropConfigured].
  - split; [done|]. intros a. split; [intros ?; split; [done|]; intros ? Hx; inversion Hx|by intros [? _]].
  - destruct (resolve_still c w Hw) as [E HW]. destruct (resolve c w) as [o w']. cbn in E, HW. subst o.
    destruct (resolved an c) as [b|] eqn:Eb.
    + destruct (IH (d ∖ {[b]}) w' HW) as [? Ha]. split; [done|]. intros a. rewrite Ha, elem_of_difference, elem_of_singleton. split.
      * intros [[? ?] Hr]. split; [done|]. intros addr. rewrite elem_of_cons. intros [->|?]; [congruence|auto].
      * intros [? Hr]. split; [split; [done|]|]; [|intros; apply Hr; by constructor]. intros ->. by apply (Hr c); [constructor|].
    + destruct (IH d w' HW) as [? Ha]. split; [done|]. intros a. rewrite Ha. split.
      * intros [? Hr]. split; [done|]. intros addr. rewrite elem_of_cons. intros [->|?]; [congruence|auto].
      * intros [? Hr]. split; [done|]. intros; apply Hr; by constructor.
Qed.

Lemma payers_still `{!CtlNodeOk} c mi use w : W w ->
  exists l, configured an c mi use l /\ (payers c mi use w).1 = l ++ fallback c mi l /\ W (payers c mi use w).2.
Proof.
  intros Hw.
  assert (Hf : forall l w', W w' -> configured an c mi use l -> exists l', configured an c mi use l' /\
    (let addrs := if bool_decide (l = []) || negb (DisableWorkerFallback c) then l ++ [Worker mi] else l in
     if negb (DisableOwnerFallback c) then addrs ++ [Owner mi] else addrs) = l' ++ fallback c mi l' /\ W w').
  { intros l w' HW Hl. exists l. split; [done|]. split; [|done]. unfold fallback. destruct (bool_decide _ || _), (DisableOwnerFallback c); cbn; rewrite ?app_nil_r, <- ?app_assoc; done. }
  unfold payers. destruct use; try (by apply Hf).
  set (d0 := list_to_set (ControlAddresses mi) ∖ {[Owner mi]} ∖ {[Worker mi]} : gset Address).
  set (cs := PreCommitControl c ++ _). destruct (dropConfigured_still cs d0 w Hw) as [HW Hd].
  destruct (dropConfigured cs d0 w) as [d w1]. cbn in HW, Hd.
  pose proof (still_order _ _ Hst (elements d) w1 HW) as HW2. pose proof (rangeOrder_perm (elements d) w1) as Hp.
  destruct (rangeOrder (elements d) w1) as [l w2]. cbn in HW2, Hp. apply Hf; [done|]. split.
  - rewrite Hp. apply NoDup_elements.
  - intros a. rewrite Hp, elem_of_elements, Hd. unfold d0. rewrite !elem_of_difference, elem_of_list_to_set, !elem_of_singleton. fold cs. tauto.
Qed.
End still.

Section picked.
Context `{CtlNode} `{BigOpsOk}.
Context (an : Answers) (W : node -> Prop) (Hst : still an W).

(** The address is the first that is usable, or else the richest of those that cannot pay for
    all, or the worker if none has more than [minFunds]. *)
Definition selected (mi : MinerInfo) (good : Z) (addrs : list Address) (lb : Address) (minF : Z) (a : Address) (x : Z) : Prop :=
  match head (omap (usable an mi good) addrs) with
  | Some p => (a, x) = p
  | None => ((a, x) = (lb, minF) \/ (a, x) ∈ omap (poor an mi good) addrs /\ minF < x) /\ Forall (fun p => p.2 <= x) (omap (poor an mi good) addrs) /\ minF <= x
  end.

Lemma selected_skip mi good addr addrs lb ba a x :
  usable an mi good addr = None -> poor an mi good addr = None -> selected mi good addrs lb ba a x -> selected mi good (addr :: addrs) lb ba a x.
Proof. unfold selected. cbn [omap list_omap]. by intros -> ->. Qed.

Lemma selected_poor mi good addr addrs lb ba b y a x :
  usable an mi good addr = None -> poor an mi good addr = Some (b, y) ->
  (if ba <? y then selected mi good addrs b y a x else selected mi good addrs lb ba a x) -> selected mi good (addr :: addrs) lb ba a x.
Proof.
  unfold selected. cbn [omap list_omap]. intros -> ->.
  destruct (head (omap (usable an mi good) addrs)) as [p|]; [by destruct (ba <? y)|].
  zcases; intros (Hc & Hf & Hle); (split; [|split; [constructor; [cbn|done]|]]); try lia;
    destruct Hc as [[= -> ->]|[Hin ?]]; auto; right; (split; [constructor|]); try done; lia.
Qed.

Lemma pickLoop_still mi good addrs lb ba w : W w ->
  let '(a, x, w') := pickLoop (controls mi) good addrs lb ba w in selected mi good addrs lb ba a x.
Proof.
  revert lb ba w. induction addrs as [|addr addrs IH]; intros lb ba w Hw; cbn [pickLoop].
  { split; [by left|]. split; [constructor|lia]. }
  destruct (resolve_still an W Hst addr w Hw) as [E HW]. destruct (resolve addr w) as [o w1]. cbn in E, HW. subst o.
  assert (Hs : forall w', W w' -> usable an mi good addr = None -> poor an mi good addr = None ->
    let '(a, x, _) := pickLoop (controls mi) good addrs lb ba w' in selected mi good (addr :: addrs) lb ba a x).
  { intros w' HW' Hu Hp. specialize (IH lb ba w' HW'). destruct (pickLoop _ _ _ _ _ _) as [[a x] w'']. by apply selected_skip. }
  destruct (resolved an addr) as [a|] eqn:Ea; [|apply Hs; [done|..]; unfold usable, poor, funded; by rewrite Ea].
  case_bool_decide as Hc; cbn [negb]; [|apply Hs; [done|..]; unfold usable, poor, funded; rewrite Ea; cbn; by rewrite bool_decide_false].
  assert (Hu : funded an mi addr = match an_bal an a with inr b => Some (a, b) | _ => None end).
  { unfold funded. rewrite Ea. cbn. by rewrite bool_decide_true. }
  unfold maybeUseAddress. destruct (still_bal _ _ Hst a w1 HW) as [E HW2]. destruct (WalletBalance a w1) as [ob w2]. cbn in E, HW2. subst ob.
  destruct (an_bal an a) as [e|b]; [apply Hs; [done|..]; unfold usable, poor; by rewrite Hu|].
  autorewrite with bigs. destruct (good <=? b) eqn:Eg.
  - destruct (still_key _ _ Hst a w2 HW2) as [E HW3]. destruct (StateAccountKey a w2) as [ok w3]. cbn in E, HW3. subst ok.
    assert (Hp : poor an mi good addr = None) by (unfold poor; rewrite Hu; cbn; by rewrite Eg).
    destruct (an_key an a) as [e|k] eqn:Ek; [apply Hs; [done| |done]; unfold usable; rewrite Hu; cbn; by rewrite Eg, Ek|].
    destruct (still_has _ _ Hst k w3 HW3) as [E HW4]. destruct (WalletHas k w3) as [oh w4]. cbn in E, HW4. subst oh.
    destruct (an_has an k) as [e|[|]] eqn:Eh; [apply Hs; [done| |done]; unfold usable; rewrite Hu; cbn; by rewrite Eg, Ek, Eh| |apply Hs; [done| |done]; unfold usable; rewrite Hu; cbn; by rewrite Eg, Ek, Eh].
    unfold selected. cbn [omap list_omap]. replace (usable an mi good addr) with (Some (a, b)); [done|].
    unfold usable. rewrite Hu. cbn. by rewrite Eg, Ek, Eh.
  - assert (Hn : usable an mi good addr = None) by (unfold usable; rewrite Hu; cbn; by rewrite Eg).
    assert (Hp : poor an mi good addr = Some (a, b)) by (unfold poor; rewrite Hu; cbn; by rewrite Eg).
    destruct (ba <? b) eqn:El.
    + specialize (IH a b w2 HW2). destruct (pickLoop _ _ _ _ _ _) as [[a' x] w'']. eapply selected_poor; [done..|]. by rewrite El.
    + specialize (IH lb ba w2 HW2). destruct (pickLoop _ _ _ _ _ _) as [[a' x] w'']. eapply selected_poor; [done..|]. by rewrite El.
Qed.

(** [C40] While the node does not change its answers, the address that pays for a message is the
    first of the configured addresses and the fallbacks that belongs to the miner, has the good
    funds and has its key in the wallet.  If there is none it is the richest of those of the miner
    that have less than the good funds and more than the least funds, or else the worker. *)
Theorem address_selected `{!CtlNodeOk} c mi use good minF w : W w ->
  exists l a avail, configured an c mi use l /\ (AddressFor (Some c) mi use good minF w).1 = inr (a, avail) /\ a ∈ controls mi /\
    selected mi good (l ++ fallback c mi l) (Worker mi) minF a avail.
Proof.
  intros Hw. destruct (AddressFor_control (Some c) mi use good minF w) as (a & avail & Ha & Hc).
  destruct (payers_still an W Hst c mi use w Hw) as (l & Hl & E & HW). exists l, a, avail. do 3 (split; [done|]).
  unfold AddressFor in Ha. destruct (payers c mi use w) as [addrs w1]. cbn in E, HW. subst addrs.
  pose proof (pickLoop_still mi good (l ++ fallback c mi l) (Worker mi) minF w1 HW) as Hp. unfold pickAddress in Ha. fold (controls mi) in Ha.
  destruct (pickLoop _ _ _ _ _ _) as [[a' x] w2]. cbn in Ha. congruence.
Qed.
End picked.

(** ** Examples *)

(** Balances and keys that do not change. *)
Definition stillNode (bal : Address -> Z) (has : Address -> bool) : CtlNode := {|
  node := unit;
  isIDAddress := fun a => negb (bool_decide (a = "t1named"));
  WalletBalance := fun a w => (inr (bal a), w);
  WalletHas := fun a w => (inr (has a), w);
  StateAccountKey := fun a w => (inr a, w);
  StateLookupID := fun a w => (inr "t0102", w);
  rangeOrder := fun l w => (reverse l, w);
|}.

Lemma stillNode_ok bal has : @CtlNodeOk (stillNode bal has).
Proof. constructor. intros l w. apply reverse_Permutation. Qed.

Definition stillAnswers (bal : Address -> Z) (has : Address -> bool) : Answers := {|
  an_bal := fun a => inr (bal a); an_key := fun a => inr a; an_has := fun a => inr (has a); an_lookup := fun _ => inr "t0102" |}.

Lemma stillNode_still bal has : @still (stillNode bal has) (stillAnswers bal has) (fun _ => True).
Proof. by split. Qed.

Definition demoBal (a : Address) : Z := if bool_decide (a = "t0102") then 70 else if bool_decide (a = "t0101") then 90 else 10.

Definition demoMiner : MinerInfo := {| Owner := "t0100"; Worker := "t0101"; ControlAddresses := ["t0102"; "t0103"] |}.

Definition demoAddrs : AddressConfig := {|
  PreCommitControl := ["t1named"; "t0999"]; CommitControl := []; TerminateControl := []; DealPublishControl := []; DisableOwnerFallback := false; DisableWorkerFallback := false |}.

(** The first address that has 60 is the one that is found under its name. *)
Lemma address_selected_witness :
  exists a avail, (@AddressFor (stillNode demoBal (fun _ => true)) ZBig (Some demoAddrs) demoMiner PreCommitAddr 60 20 tt).1 = inr (a, avail) /\ a = "t0102" /\ avail = 70 /\ a ∈ controls demoMiner.
Proof.
  destruct (@address_selected (stillNode demoBal (fun _ => true)) ZBig ZBigOk (stillAnswers demoBal (fun _ => true)) (fun _ => True) (stillNode_still _ _) (stillNode_ok _ _)
    demoAddrs demoMiner PreCommitAddr 60 20 tt I) as (l & a & avail & Hl & E & Hc & Hs).
  exists a, avail. cbn in Hl. subst l. vm_compute in Hs. injection Hs as -> ->. auto.
Defined.

(** Keys are only asked for if the funds are good: the least bad address need not have its key in the wallet. *)
Lemma least_bad_without_key :
  (@AddressFor (stillNode demoBal (fun a => bool_decide (a = "t0102"))) ZBig (Some demoAddrs) demoMiner PreCommitAddr 100 20 tt).1 = inr ("t0101", 90).
Proof. by vm_compute. Qed.
