(* ===== verification/Batcher.v ===== *)
(** * The batchers of the sealing pipeline: what they share, and storage/pipeline/precommit_batch.go

    A batcher collects what sectors want to say on the chain and sends it in few messages.  A call
    of [Add...] registers the sector and waits on a channel; the goroutine of the batcher runs when
    it is notified, when its timer fires, or when an operator forces it, and then sends messages
    and gives the result to the channels.  The batchers for pre-commits and for commits have the
    same maps, the same timer and the same end of a batch, which are given once for entries [E] and
    results [R].

    A computation [BM] may wait for ever, at a full channel or for a chain that stands still
    ([Waits]), or crash the process ([Crash]).  [sent] is the trace of the messages that were
    pushed. *)

From stdpp Require Import gmap.
From S2P Require Import Prelude TipSet CtlAddr SealingTypes.

(** ** The node *)

Record BatchHead := {
  bh_Key : TipSetKey;
  bh_Height : Z;
  bh_BaseFee : Z; (* [MinTicketBlock().ParentBaseFee] *)
}.

(** [miner.SectorPreCommitInfo]: its number, and the rest. *)
Record PreCommitInfo := {
  pci_SectorNumber : Z;
  pci_rest : opaque;
}.

Record PreCommitOnChain := {
  poc_Info : PreCommitInfo;
  poc_PreCommitDeposit : Z;
  poc_PreCommitEpoch : Z;
}.

(** The fields of [sealiface.Config] that the batchers use. *)
Record BatchConfig := {
  bc_CollateralFromMinerBalance : bool;
  bc_AvailableBalanceBuffer : Z;
  bc_DisableCollateralFallback : bool;
  MaxPreCommitBatch : Z;
  PreCommitBatchWait : Z;
  PreCommitBatchSlack : Z;
  BatchPreCommitAboveBaseFee : Z;
  MinCommitBatch : Z;
  MaxCommitBatch : Z;
  CommitBatchWait : Z;
  CommitBatchSlack : Z;
  AggregateAboveBaseFee : Z;
  MaxSectorProveCommitsSubmittedPerEpoch : Z;
  TerminateBatchMax : Z;
  TerminateBatchMin : Z;
  TerminateBatchWait : Z;
}.

(** [config.BatchFeeConfig] *)
Record BatchFeeConfig := {
  bf_Base : Z;
  bf_PerSector : Z;
}.

(** What an estimate of gas gives; [oog] is that the error is or wraps an [api.ErrOutOfGas]. *)
Inductive GasAnswer :=
| GasOk
| GasErr (e : string) (oog : bool).

(** The node for the miner of the batcher; every call may change its state.  The encodings and the
    policies are those of other modules. *)
Class BatchNode := {
  bn_ctl :: CtlNode;
  ChainHead : node -> reply BatchHead * node;
  StateNetworkVersion : TipSetKey -> node -> reply Z * node;
  StateMinerInfo : node -> reply MinerInfo * node;
  StateMinerAvailableBalance : node -> reply Z * node;
  StateGetAllocationForPendingDeal : Z -> node -> option Z * node; (* the expiration; errors are dropped *)
  StateSectorPreCommitInfo : Z -> TipSetKey -> node -> reply (option PreCommitOnChain) * node;
  StateMinerInitialPledgeCollateral : PreCommitInfo -> TipSetKey -> node -> reply Z * node;
  GasEstimateMessageGas : Address -> Z -> Z -> bytes -> node -> GasAnswer * node; (* from, method, value, params *)
  MpoolPushMessage : Address -> Z -> Z -> Z -> bytes -> node -> reply Cid * node; (* from, method, value, max fee, params *)
  getConfig : node -> reply BatchConfig * node;
  timeNow : node -> Z * node; (* nanoseconds from the zero time *)
  rangeMap : list Z -> node -> list Z * node; (* the order in which a map with these keys is ranged over *)
  marshalPreCommitBatch : list PreCommitInfo -> reply bytes; (* [PreCommitSectorBatchParams2] *)
  VersionForNetwork : Z -> reply Z;
  minerPreCommitFee : Z -> Z -> Z -> Z; (* of the actors of a version *)
  minerProveCommitFee : Z -> Z -> Z -> Z;
  GetMaxProveCommitDuration : Z -> Z -> reply Z;
  IDFromAddress : reply Z; (* of the miner *)
  addrSel : option AddressConfig;
  MaxPreCommitBatchGasFee : BatchFeeConfig;
  MaxCommitBatchGasFee : BatchFeeConfig;
  MaxCommitGasFee : Z;
  MaxTerminateGasFee : Z;
  MaxPreCommitRandomnessLookback : Z;
  BlockDelaySecs : Z;
  MethodPreCommitSectorBatch2 : Z;
  MethodProveCommitAggregate : Z;
  MethodProveCommitSector : Z;
  MethodTerminateSectors : Z;
}.

Class BatchNodeOk `{BatchNode} : Prop := {
  rangeMap_perm l w : (rangeMap l w).1 ≡ₚ l;
}.

(** ** Computations *)

Inductive res (A : Type) :=
| Done (a : A)
| Crash
| Waits.
Arguments Done {A} a.
Arguments Crash {A}.
Arguments Waits {A}.

(** A message that was pushed. *)
Record Sent := {
  s_from : Address;
  s_method : Z;
  s_value : Z;
  s_maxFee : Z;
  s_params : bytes;
  s_cid : Cid;
}.

Record BSt `{BatchNode} (B : Type) := {
  bat : B;
  wld : node;
  sent : list Sent;
}.
Arguments bat {_ _} _.
Arguments wld {_ _} _.
Arguments sent {_ _} _.

Section monad.
Context `{BatchNode} {B : Type}.

Definition BM (A : Type) : Type := BSt B -> res A * BSt B.

#[export] Instance BM_ret : MRet BM := fun A a s => (Done a, s).

#[export] Instance BM_bind : MBind BM := fun A A' f m s =>
  match m s with
  | (Done a, s) => f a s
  | (Crash, s) => (Crash, s)
  | (Waits, s) => (Waits, s)
  end.

Definition crash {A} : BM A := fun s => (Crash, s).
Definition waits {A} : BM A := fun s => (Waits, s).

Definition ask {A} (f : node -> A * node) : BM A := fun s =>
  let '(a, w) := f (wld s) in (Done a, {| bat := bat s; wld := w; sent := sent s |}).

Definition orWaits {A} (o : option A) : BM A := match o with Some a => mret a | None => waits end.

(** Errors of another module, or a panic. *)
Definition lift {A} (o : outcome A) : BM (reply A) := match o with Ret a => mret (inr a) | Err e => mret (inl e) | Panic => crash end.

Definition batcher : BM B := fun s => (Done (bat s), s).

Definition setBatcher (b : B) : BM unit := fun s => (Done tt, {| bat := b; wld := wld s; sent := sent s |}).

Definition record (m : Sent) : BM unit := fun s => (Done tt, {| bat := bat s; wld := wld s; sent := sent s ++ [m] |}).
End monad.
Arguments BM {_} B A.

(** [x, err := m; if err != nil { h }; k] *)
Notation "x ⇐ m 'iferr' e => h ; k" :=
  (mbind (fun r => match r with inr x => k | inl e => h end) m) (at level 20, m at level 100, e name, h at level 100, k at level 200, right associativity).

Section utils.
Context `{BatchNode} `{BigOps} {B : Type}.

(** ** storage/pipeline/utils.go and policies *)

Definition collateralSendAmount (cfg : BatchConfig) (collateral : Z) : BM B (reply Z) :=
  if bc_CollateralFromMinerBalance cfg then
    if bc_DisableCollateralFallback cfg then mret (inr (big_NewInt 0))
    else
      avail ⇐ ask StateMinerAvailableBalance iferr e => mret (inl ("getting available miner balance: " +:+ e));
      let avail := big_Sub avail (bc_AvailableBalanceBuffer cfg) in
      let avail := if big_LessThan avail (big_NewInt 0) then big_NewInt 0 else avail in
      let collateral := big_Sub collateral avail in
      mret (inr (if big_LessThan collateral (big_NewInt 0) then big_NewInt 0 else collateral))
  else mret (inr collateral).

Definition simulateMsgGas (from : Address) (method value : Z) (params : bytes) : BM B GasAnswer :=
  ask (GasEstimateMessageGas from method value params).

Definition sendMsg (from : Address) (method value maxFee : Z) (params : bytes) : BM B (reply Cid) :=
  smsg ⇐ ask (MpoolPushMessage from method value maxFee params) iferr e => mret (inl e);
  _ ← record {| s_from := from; s_method := method; s_value := value; s_maxFee := maxFee; s_params := params; s_cid := smsg |};
  mret (inr smsg).

Definition FeeForSectors (b : BatchFeeConfig) (nSectors : Z) : Z :=
  big_Add (bf_Base b) (big_Mul (big_NewInt nSectors) (bf_PerSector b)).

Definition AggregatePreCommitNetworkFee (nwVer aggregateSize baseFee : Z) : reply Z :=
  match VersionForNetwork nwVer with
  | inl e => inl e
  | inr v =>
      if bool_decide (v ∈ [0; 2; 3; 4; 5]) then inr (big_NewInt 0)
      else if bool_decide (v ∈ [6; 7; 8; 9; 10; 11; 12]) then inr (minerPreCommitFee v aggregateSize baseFee)
      else inl "unsupported network version"
  end.

Definition AggregateProveCommitNetworkFee (nwVer aggregateSize baseFee : Z) : reply Z :=
  match VersionForNetwork nwVer with
  | inl e => inl e
  | inr v =>
      if bool_decide (v ∈ [0; 2; 3; 4]) then inr (big_NewInt 0)
      else if bool_decide (v ∈ [5; 6; 7; 8; 9; 10; 11; 12]) then inr (minerProveCommitFee v aggregateSize baseFee)
      else inl "unsupported network version"
  end.

(** [aggFeeNum] and [aggFeeDen]: ten percent more than the fee. *)
Definition withMargin (aggFeeRaw : Z) : Z := big_Div (big_Mul aggFeeRaw (big_NewInt 110)) (big_NewInt 100).
End utils.

(** ** Time *)

Definition timeSecond : Z := 1000000000.

(** [Time.Sub], which saturates. *)
Definition timeSub (t u : Z) : Z := Z.max (-9223372036854775808) (Z.min (t - u) 9223372036854775807).

(** [time.Duration(cutoffEpoch-height) * time.Duration(build.BlockDelaySecs) * time.Second] *)
Definition epochsDuration `{BatchNode} (cutoffEpoch height : Z) : Z :=
  i64 (i64 (i64 (cutoffEpoch - height) * BlockDelaySecs) * timeSecond).

(** The least of the epoch and the starts of the deals. *)
Definition earliestStart (pieces : list SectorPiece) (cutoffEpoch : Z) : Z :=
  foldl (fun cutoffEpoch p =>
    match DealInfo p with
    | None => cutoffEpoch
    | Some d => if StartEpoch (Schedule d) <? cutoffEpoch then StartEpoch (Schedule d) else cutoffEpoch
    end) cutoffEpoch pieces.

(** The order of sectors in [Pending]: the miner, then the number. *)
Definition sectorLess (x y : Z * Z) : bool := if negb (x.1 =? y.1) then x.1 <? y.1 else x.2 <? y.2.

(** ** Those that wait *)

(** The channels on which sectors are waited for.  [chans] are the channels made, with a buffer of
    one, each with the sector it was made for and what is in it; [told] is the trace of what was
    sent on them. *)
Record Waiters (R : Type) := {
  waiting : gmap Z (list nat);
  chans : list (Z * list R);
  told : list (nat * R);
}.
Arguments waiting {_} _.
Arguments chans {_} _.
Arguments told {_} _.

Section waiters.
Context {R : Type}.

Definition newWaiters : Waiters R := {| waiting := ∅; chans := []; told := [] |}.

(** [sent := make(chan R, 1); b.waiting[sn] = append(b.waiting[sn], sent)] *)
Definition newChan (sn : Z) (ws : Waiters R) : nat * Waiters R :=
  let ch := length (chans ws) in
  (ch, {| waiting := <[sn := default [] (waiting ws !! sn) ++ [ch]]> (waiting ws); chans := chans ws ++ [(sn, [])]; told := told ws |}).

(** [ch <- r], which waits if the buffer is full. *)
Definition chanSend (ch : nat) (r : R) (ws : Waiters R) : option (Waiters R) :=
  match chans ws !! ch with
  | Some (sn, []) => Some {| waiting := waiting ws; chans := <[ch := (sn, [r])]> (chans ws); told := told ws ++ [(ch, r)] |}
  | _ => None
  end.

Fixpoint tellChans (chs : list nat) (r : R) (ws : Waiters R) : option (Waiters R) :=
  match chs with
  | [] => Some ws
  | ch :: chs => ws ← chanSend ch r ws; tellChans chs r ws
  end.

(** [for _, ch := range b.waiting[sn] { ch <- r }; delete(b.waiting, sn)] *)
Definition tellSector (sn : Z) (r : R) (ws : Waiters R) : option (Waiters R) :=
  ws ← tellChans (default [] (waiting ws !! sn)) r ws;
  Some {| waiting := delete sn (waiting ws); chans := chans ws; told := told ws |}.

(** What is received from the channel, if there is something. *)
Definition chanReceive (ch : nat) (ws : Waiters R) : option R * Waiters R :=
  match chans ws !! ch with
  | Some (sn, r :: l) => (Some r, {| waiting := waiting ws; chans := <[ch := (sn, l)]> (chans ws); told := told ws |})
  | _ => (None, ws)
  end.
End waiters.

(** ** The maps of a batcher *)

Record Batcher (E R : Type) := {
  cutoffs : gmap Z Z;
  todo : gmap Z E;
  waiters : Waiters R;
  notify : bool;
  stopped : bool;
}.
Arguments cutoffs {_ _} _.
Arguments todo {_ _} _.
Arguments waiters {_ _} _.
Arguments notify {_ _} _.
Arguments stopped {_ _} _.

Definition newBatcher {E R} : Batcher E R := {| cutoffs := ∅; todo := ∅; waiters := newWaiters; notify := false; stopped := false |}.

Section batcher.
Context `{BatchNode} {E R : Type}.

Notation BM' := (BM (Batcher E R)).

(** One look at a sector in the loops of [batchWait]; a sector without a cutoff has the zero time. *)
Definition earlier (cs : gmap Z Z) (cutoff sn : Z) : Z :=
  let sectorCutoff := default 0 (cs !! sn) in
  if (cutoff =? 0) || (negb (sectorCutoff =? 0) && (sectorCutoff <? cutoff)) then sectorCutoff else cutoff.

Definition batchWait (maxWait slack : Z) : BM' Z :=
  now ← ask timeNow;
  b ← batcher;
  if bool_decide (todo b = ∅) then mret maxWait
  else
    todoKeys ← ask (rangeMap (map_to_list (todo b)).*1);
    waitingKeys ← ask (rangeMap (map_to_list (waiting (waiters b))).*1);
    let cutoff := foldl (earlier (cutoffs b)) (foldl (earlier (cutoffs b)) 0 todoKeys) waitingKeys in
    if cutoff =? 0 then mret maxWait
    else
      let cutoff := cutoff - slack in
      if cutoff <? now then mret 1
      else
        let wait := timeSub cutoff now in
        mret (if maxWait <? wait then maxWait else wait).

Fixpoint tellSectors (sns : list Z) (r : R) : BM' unit :=
  match sns with
  | [] => mret tt
  | sn :: sns =>
      b ← batcher;
      ws ← orWaits (tellSector sn r (waiters b));
      _ ← setBatcher {| cutoffs := delete sn (cutoffs b); todo := delete sn (todo b); waiters := ws; notify := notify b; stopped := stopped b |};
      tellSectors sns r
  end.

(** The end of a batch: each result, with the error if there is one, goes to the channels of its sectors. *)
Fixpoint tellResults (sectors : R -> list Z) (setError : string -> R -> R) (err : option string) (rs : list R) : BM' unit :=
  match rs with
  | [] => mret tt
  | r :: rs =>
      let r := match err with Some e => setError e r | None => r end in
      _ ← tellSectors (sectors r) r;
      tellResults sectors setError err rs
  end.

(** The part of [Add...] under the lock; the result is the channel it waits on. *)
Definition register (sn cutoff : Z) (in_ : E) : BM' nat :=
  b ← batcher;
  let '(ch, ws) := newChan sn (waiters b) in
  _ ← setBatcher {| cutoffs := <[sn := cutoff]> (cutoffs b); todo := <[sn := in_]> (todo b); waiters := ws; notify := true; stopped := stopped b |};
  mret ch.

(** The end of [Add...]: the answer is taken from the channel. *)
Definition takeAnswer (ch : nat) : BM' (option R) :=
  b ← batcher;
  let '(r, ws) := chanReceive ch (waiters b) in
  _ ← setBatcher {| cutoffs := cutoffs b; todo := todo b; waiters := ws; notify := notify b; stopped := stopped b |};
  mret r.

(** What wakes the goroutine. *)
Inductive Wake :=
| WNotified (* [b.notify] *)
| WTimer
| WForced. (* [b.force], by [Flush] *)

(** One round of [run]: the results that [Flush] gives, and the time until the timer fires.  A
    round begins when a notification is there, which it takes, or with the other two. *)
Definition runRound (maybeStartBatch : bool -> BM' (list R * option string)) (maxWait slack : Z) (wake : Wake) : BM' (list R * Z) :=
  b ← batcher;
  _ ← (match wake with
       | WNotified => setBatcher {| cutoffs := cutoffs b; todo := todo b; waiters := waiters b; notify := false; stopped := stopped b |}
       | _ => mret tt
       end : BM' unit);
  '(lastRes, _) ← maybeStartBatch (match wake with WNotified => true | _ => false end);
  wait ← batchWait maxWait slack;
  mret (lastRes, wait).

(** [Pending]: the sectors of the entries, ordered. *)
Definition pendingSectors (number : E -> Z) : BM' (reply (list (Z * Z))) :=
  b ← batcher;
  match IDFromAddress with
  | inl e => mret (inl e)
  | inr mid =>
      keys ← ask (rangeMap (map_to_list (todo b)).*1);
      mret (inr (sortSlice sectorLess ((fun e => (mid, number e)) <$> omap (fun k => todo b !! k) keys)))
  end.

(** [close(b.stop)]: a second close panics; the goroutine ends at its next round. *)
Definition Stop : BM' unit :=
  b ← batcher;
  if stopped b then crash
  else setBatcher {| cutoffs := cutoffs b; todo := todo b; waiters := waiters b; notify := notify b; stopped := true |}.
End batcher.

(** ** storage/pipeline/precommit_batch.go *)

Record preCommitEntry := {
  deposit : Z;
  pci : PreCommitInfo;
}.

Record PreCommitBatchRes := {
  pb_Sectors : list Z;
  pb_Msg : option Cid;
  pb_Error : string;
}.

Definition pb_setError (e : string) (r : PreCommitBatchRes) : PreCommitBatchRes :=
  {| pb_Sectors := pb_Sectors r; pb_Msg := pb_Msg r; pb_Error := e |}.

Section precommit.
Context `{BatchNode} `{BigOps}.

Notation PM := (BM (Batcher preCommitEntry PreCommitBatchRes)).

(** [fuel] bounds how often a batch is split; without a bound an empty batch would be split for
    ever, until the stack overflows. *)
Fixpoint processPreCommitBatch (fuel : nat) (cfg : BatchConfig) (bf : Z) (entries : list preCommitEntry) (nv : Z) : PM (list PreCommitBatchRes * option string) :=
  match fuel with
  | O => crash
  | S fuel =>
      let r := {| pb_Sectors := (fun p => pci_SectorNumber (pci p)) <$> entries; pb_Msg := None; pb_Error := EmptyString |} in
      let dep := foldl (fun d p => big_Add d (deposit p)) (big_NewInt 0) entries in
      let failed e msg := mret ([pb_setError e r], Some (msg +:+ e)) in
      enc ⇐ mret (marshalPreCommitBatch (pci <$> entries)) iferr e => failed e "couldn't serialize PreCommitSectorBatchParams: ";
      mi ⇐ ask StateMinerInfo iferr e => failed e "couldn't get miner info: ";
      let maxFee := FeeForSectors MaxPreCommitBatchGasFee (len entries) in
      aggFeeRaw ⇐ mret (AggregatePreCommitNetworkFee nv (len entries) bf) iferr e => failed e "getting aggregate precommit network fee: ";
      let needFunds := big_Add dep (withMargin aggFeeRaw) in
      needFunds ⇐ collateralSendAmount cfg needFunds iferr e => mret ([r], Some e);
      let goodFunds := big_Add maxFee needFunds in
      from ⇐ ask (AddressFor addrSel mi PreCommitAddr goodFunds dep) iferr e => mret ([r], Some ("no good address found: " +:+ e));
      gas ← simulateMsgGas from.1 MethodPreCommitSectorBatch2 needFunds enc;
      match gas with
      | GasErr e oog =>
          if negb oog || (len entries =? 1) then failed e "simulating PreCommitBatch message failed: "
          else
            let mid := (length entries / 2)%nat in
            '(ret0, _) ← processPreCommitBatch fuel cfg bf (take mid entries) nv;
            '(ret1, _) ← processPreCommitBatch fuel cfg bf (drop mid entries) nv;
            mret (ret0 ++ ret1, None)
      | GasOk =>
          mcid ⇐ sendMsg from.1 MethodPreCommitSectorBatch2 needFunds maxFee enc iferr e => failed e "pushing message to mpool: ";
          mret ([{| pb_Sectors := pb_Sectors r; pb_Msg := Some mcid; pb_Error := EmptyString |}], None)
      end
  end.

Definition processBatch (cfg : BatchConfig) (bf nv : Z) : PM (list PreCommitBatchRes * option string) :=
  b ← batcher;
  keys ← ask (rangeMap (map_to_list (todo b)).*1);
  let pcEntries := omap (fun k => todo b !! k) keys in
  processPreCommitBatch (length pcEntries) cfg bf pcEntries nv.

Definition maybeStartBatch (notif : bool) : PM (list PreCommitBatchRes * option string) :=
  b ← batcher;
  let total := Z.of_nat (size (todo b)) in
  if total =? 0 then mret ([], None)
  else
    cfg ⇐ ask getConfig iferr e => mret ([], Some ("getting config: " +:+ e));
    ts ⇐ ask ChainHead iferr e => mret ([], Some e);
    let curBasefeeLow := negb (big_Equals (BatchPreCommitAboveBaseFee cfg) (big_NewInt 0)) && big_LessThan (bh_BaseFee ts) (BatchPreCommitAboveBaseFee cfg) in
    if notif && (total <? MaxPreCommitBatch cfg) && negb curBasefeeLow then mret ([], None)
    else
      nv ⇐ ask (StateNetworkVersion (bh_Key ts)) iferr e => mret ([], Some ("couldn't get network version: " +:+ e));
      '(rs, err) ← processBatch cfg (bh_BaseFee ts) nv;
      if bool_decide (err <> None) && bool_decide (rs = []) then mret ([], err)
      else
        _ ← tellResults pb_Sectors pb_setError err rs;
        mret (rs, None).

Definition getDealStartCutoff (si : SectorInfo) : Z := earliestStart (Pieces si) (i64 (TicketEpoch si + MaxPreCommitRandomnessLookback)).

Fixpoint allocationCutoffLoop (pieces : list SectorPiece) (cutoff : Z) : PM Z :=
  match pieces with
  | [] => mret cutoff
  | p :: pieces =>
      match DealInfo p with
      | None => allocationCutoffLoop pieces cutoff
      | Some d =>
          alloc ← ask (StateGetAllocationForPendingDeal (DealID d));
          allocationCutoffLoop pieces (match alloc with Some exp => if exp <? cutoff then exp else cutoff | None => cutoff end)
      end
  end.

Definition getAllocationCutoff (si : SectorInfo) : PM Z :=
  allocationCutoffLoop (Pieces si) (i64 (TicketEpoch si + MaxPreCommitRandomnessLookback)).

(** Up to the wait for the channel that is the result. *)
Definition AddPreCommit (s : SectorInfo) (dep : Z) (in_ : PreCommitInfo) : PM (reply nat) :=
  ts ⇐ ask ChainHead iferr e => mret (inl e);
  let dealStartCutoff := getDealStartCutoff s in
  if dealStartCutoff <=? bh_Height ts then mret (inl "cutoff has already passed")
  else
    allocationCutoff ← getAllocationCutoff s;
    let cutoffEpoch := if dealStartCutoff <? allocationCutoff then dealStartCutoff else allocationCutoff in
    now ← ask timeNow;
    ch ← register (SectorNumber s) (now + epochsDuration cutoffEpoch (bh_Height ts)) {| deposit := dep; pci := in_ |};
    mret (inr ch).

(** [cfg] is the configuration when the batcher was made. *)
Definition run (cfg : BatchConfig) : Wake -> PM (list PreCommitBatchRes * Z) :=
  runRound maybeStartBatch (PreCommitBatchWait cfg) (PreCommitBatchSlack cfg).

Definition Pending : PM (reply (list (Z * Z))) := pendingSectors (fun e => pci_SectorNumber (pci e)).
End precommit.
