(* ===== verification/BatcherProps.v ===== *)
(** * The batchers: those that wait are answered, and the pre-commit batcher

    [wok] is the invariant of the channels: none is told twice, what it is told names its sector,
    and one that was not told is registered under its sector with an empty buffer, so that no send
    blocks while the lock is held.  [bok] adds that the maps of a batcher have the same sectors.

    [batchWait_exact] shows that the timer does not depend on the order in which maps are ranged
    over; [processPreCommitBatch_ok] is about the messages of one batch of pre-commits, split or not. *)

From stdpp Require Import gmap.
From S2P Require Import Prelude TipSet CtlAddr SealingTypes Batcher.

(** ** Computations that end *)

Section wp.
Context `{BatchNode} {B : Type}.

(** The computation does not crash, and what it gives satisfies [Q]; it may wait for ever if [mayWait]. *)
Definition wp (mayWait : bool) {A} (m : BM B A) (s : BSt B) (Q : A -> BSt B -> Prop) : Prop :=
  match m s with
  | (Done a, s') => Q a s'
  | (Crash, _) => False
  | (Waits, _) => mayWait = true
  end.

Lemma wp_ret k {A} (a : A) s Q : Q a s -> wp k (mret a) s Q.
Proof. done. Qed.

Lemma wp_bind k {A A'} (m : BM B A) (f : A -> BM B A') s Q : wp k m s (fun a s' => wp k (f a) s' Q) -> wp k (m ≫= f) s Q.
Proof. unfold wp, mbind, BM_bind. by destruct (m s) as [[a| |] s']. Qed.

Lemma wp_mono k {A} (m : BM B A) s (P Q : A -> BSt B -> Prop) : wp k m s P -> (forall a s', P a s' -> Q a s') -> wp k m s Q.
Proof. unfold wp. destruct (m s) as [[a| |] s']; auto. Qed.

Lemma wp_ask k {A} (f : node -> A * node) s Q :
  (forall w', Q (f (wld s)).1 {| bat := bat s; wld := w'; sent := sent s |}) -> wp k (ask f) s Q.
Proof. intros HQ. unfold wp, ask. specialize (HQ (f (wld s)).2). by destruct (f (wld s)). Qed.

Lemma wp_batcher k s (Q : B -> BSt B -> Prop) : Q (bat s) s -> wp k batcher s Q.
Proof. done. Qed.

Lemma wp_setBatcher k b s (Q : unit -> BSt B -> Prop) : Q tt {| bat := b; wld := wld s; sent := sent s |} -> wp k (setBatcher b) s Q.
Proof. done. Qed.

Lemma wp_record k m s (Q : unit -> BSt B -> Prop) : Q tt {| bat := bat s; wld := wld s; sent := sent s ++ [m] |} -> wp k (record m) s Q.
Proof. done. Qed.

Lemma wp_lift k {A} (o : outcome A) s (Q : reply A -> BSt B -> Prop) :
  o <> Panic -> (forall a, o = Ret a -> Q (inr a) s) -> (forall e, o = Err e -> Q (inl e) s) -> wp k (lift o) s Q.
Proof. destruct o; unfold wp; cbn; auto. Qed.
End wp.

(** ** Those that wait *)

Section waiters.
Context {R : Type} (names : R -> Z -> Prop).

Record wok (ws : Waiters R) : Prop := {
  w_wait sn (chs : list nat) : waiting ws !! sn = Some chs -> chs <> [] /\ NoDup chs /\ forall ch, ch ∈ chs -> chans ws !! ch = Some (sn, []);
  w_chan ch sn (l : list R) : chans ws !! ch = Some (sn, l) ->
    ch ∈ default [] (waiting ws !! sn) \/ exists r, (ch, r) ∈ told ws /\ names r sn /\ (l = [] \/ l = [r]);
  w_told : NoDup (told ws).*1;
  w_made ch : ch ∈ (told ws).*1 -> (ch < length (chans ws))%nat;
  w_gone ch sn chs : ch ∈ (told ws).*1 -> waiting ws !! sn = Some chs -> ch ∉ chs;
}.

Lemma wok_new : wok newWaiters.
Proof. split; cbn; [done|done|constructor|by intros ? ?%elem_of_nil|by intros ? ? ? ?%elem_of_nil]. Qed.

Lemma tellChans_spec chs (r : R) (ws : Waiters R) sn :
  NoDup chs -> (forall ch, ch ∈ chs -> chans ws !! ch = Some (sn, [])) ->
  exists ws', tellChans chs r ws = Some ws' /\ waiting ws' = waiting ws /\ told ws' = told ws ++ ((fun ch => (ch, r)) <$> chs) /\
    (forall ch, ch ∈ chs -> chans ws' !! ch = Some (sn, [r])) /\ (forall ch, ch ∉ chs -> chans ws' !! ch = chans ws !! ch) /\
    length (chans ws') = length (chans ws).
Proof.
  revert ws. induction chs as [|c chs IH]; intros ws Hnd He; cbn [tellChans].
  { exists ws. cbn. rewrite app_nil_r. split_and!; try done. by intros ? ?%elem_of_nil. }
  apply NoDup_cons in Hnd as [Hc Hnd]. unfold chanSend. rewrite (He c) by constructor. cbn.
  edestruct (IH {| waiting := waiting ws; chans := <[c := (sn, [r])]> (chans ws); told := told ws ++ [(c, r)] |} Hnd) as (ws' & E & Ew & Et & Hin & Hout & El).
  { intros ch Hch. cbn. rewrite list_lookup_insert_ne by (by intros ->). apply He. by constructor. }
  assert (Hlt : (c < length (chans ws))%nat) by (apply lookup_lt_is_Some; rewrite (He c) by constructor; eauto).
  exists ws'. cbn in *. rewrite E. rewrite length_insert in El. split_and!; try done.
  - by rewrite Et, <- app_assoc.
  - intros ch. rewrite elem_of_cons. intros [->|?]; [|by apply Hin]. rewrite Hout by done. by apply list_lookup_insert_eq.
  - intros ch. rewrite not_elem_of_cons. intros [? ?]. rewrite Hout by done. by apply list_lookup_insert_ne.
Qed.

Lemma tellSector_ok sn r ws : wok ws -> names r sn ->
  exists ws', tellSector sn r ws = Some ws' /\ wok ws' /\ waiting ws' = delete sn (waiting ws) /\
    told ws' = told ws ++ ((fun ch => (ch, r)) <$> default [] (waiting ws !! sn)) /\ (chans ws').*1 = (chans ws).*1.
Proof.
  intros Hok Hn. set (chs := default [] (waiting ws !! sn)).
  assert (Hchs : NoDup chs /\ (forall ch, ch ∈ chs -> chans ws !! ch = Some (sn, [])) /\ (forall ch, ch ∈ chs -> ch ∉ (told ws).*1)).
  { unfold chs. destruct (waiting ws !! sn) as [c|] eqn:E; cbn; [|split_and!; [constructor|by intros ? ?%elem_of_nil..]].
    destruct (w_wait _ Hok _ _ E) as (_ & ? & ?). split_and!; try done. intros ch ? Ht. by apply (w_gone _ Hok ch sn c). }
  destruct Hchs as (Hnd & He & Hnt). destruct (tellChans_spec chs r ws sn Hnd He) as (ws' & E & Ew & Et & Hin & Hout & El).
  unfold tellSector. fold chs. rewrite E. cbn. eexists. split; [done|]. rewrite Ew.
  assert (Hfst : ((fun ch => (ch, r)) <$> chs).*1 = chs) by (rewrite <- list_fmap_compose; apply list_fmap_id).
  assert (Hother : forall sn' chs' ch, delete sn (waiting ws) !! sn' = Some chs' -> ch ∈ chs' -> ch ∉ chs).
  { intros sn' chs' ch [Hne Hl]%lookup_delete_Some Hch Hch'. destruct (w_wait _ Hok _ _ Hl) as (_ & _ & Hx). specialize (Hx ch Hch). rewrite (He ch Hch') in Hx. congruence. }
  split; [|split_and!; try done].
  - split; cbn.
    + intros sn' chs' Hl. destruct (lookup_delete_Some (waiting ws) sn sn' chs') as [[Hne Hl'] _]; [done|]. destruct (w_wait _ Hok _ _ Hl') as (? & ? & Hx).
      split_and!; try done. intros ch Hch. rewrite Hout; eauto.
    + intros ch sn' l Hl. destruct (decide (ch ∈ chs)) as [Hch|Hch].
      * right. exists r. rewrite (Hin ch Hch) in Hl. injection Hl as <- <-. rewrite Et. split_and!; [|done|by right].
        apply elem_of_app. right. apply list_elem_of_fmap. eauto.
      * rewrite Hout in Hl by done. destruct (w_chan _ Hok _ _ _ Hl) as [Hw|(r' & ? & ? & ?)].
        -- left. rewrite lookup_delete_ne; [done|]. intros <-. by apply Hch.
        -- right. exists r'. rewrite Et, elem_of_app. auto.
    + rewrite Et, fmap_app, Hfst. apply NoDup_app. split_and!; [apply (w_told _ Hok)| |done]. intros ch ? ?. by apply (Hnt ch).
    + intros ch. rewrite Et, fmap_app, Hfst, elem_of_app, El. intros [?|Hch]; [by apply (w_made _ Hok)|]. apply lookup_lt_is_Some. rewrite (He ch Hch). eauto.
    + intros ch sn' chs'. rewrite Et, fmap_app, Hfst, elem_of_app. intros [Ht|Hch] Hl Hx; [|by eapply Hother].
      apply lookup_delete_Some in Hl as [_ Hl]. by apply (w_gone _ Hok ch sn' chs').
  - cbn. apply list_eq. intros i. rewrite !list_lookup_fmap. destruct (decide (i ∈ chs)) as [Hi|Hi]; [by rewrite (Hin i Hi), (He i Hi)|by rewrite Hout].
Qed.

Lemma newChan_ok sn ws : wok ws -> wok (newChan sn ws).2.
Proof.
  intros Hok. split; cbn.
  - intros sn' chs. rewrite lookup_insert. case_decide as Heq.
    + subst sn'. intros [= <-].
      assert (Hd : NoDup (default [] (waiting ws !! sn)) /\ forall ch, ch ∈ default [] (waiting ws !! sn) -> chans ws !! ch = Some (sn, [])).
      { destruct (waiting ws !! sn) eqn:E; cbn; [apply (w_wait _ Hok _ _ E)|split; [constructor|by intros ? ?%elem_of_nil]]. }
      destruct Hd as [Hnd Hx]. split_and!.
      * by destruct (default [] (waiting ws !! sn)).
      * apply NoDup_app. split_and!; [done| |apply NoDup_singleton]. intros ch Hch ->%list_elem_of_singleton. specialize (Hx _ Hch). apply lookup_lt_Some in Hx. lia.
      * intros ch. rewrite elem_of_app, list_elem_of_singleton. intros [Hch| ->]; [apply lookup_app_l_Some; auto|]. by rewrite lookup_app_r, Nat.sub_diag by lia.
    + intros Hl. destruct (w_wait _ Hok _ _ Hl) as (? & ? & Hx). split_and!; try done. intros ch Hch. apply lookup_app_l_Some. auto.
  - intros ch sn' l Hl. apply lookup_app_Some in Hl as [Hl|[Hge Hl]].
    + destruct (w_chan _ Hok _ _ _ Hl) as [Hw|?]; [left|by right]. rewrite lookup_insert. case_decide as Heq; [subst sn'; cbn; apply elem_of_app; by left|done].
    + apply list_lookup_singleton_Some in Hl as [E [= <- <-]]. left. rewrite lookup_insert_eq. cbn. apply elem_of_app. right.
      apply list_elem_of_singleton. lia.
  - apply (w_told _ Hok).
  - intros ch Hch. rewrite length_app. cbn. pose proof (w_made _ Hok ch Hch). lia.
  - intros ch sn' chs Ht. rewrite lookup_insert. case_decide as Heq; [|by apply (w_gone _ Hok)]. intros [= <-]. rewrite elem_of_app, list_elem_of_singleton. subst sn'.
    pose proof (w_made _ Hok ch Ht). intros [Hch| ->]; [|lia]. destruct (waiting ws !! sn) eqn:E; cbn in Hch; [by apply (w_gone _ Hok ch sn l)|by apply elem_of_nil in Hch].
Qed.

Lemma chanReceive_ok ch ws : wok ws -> wok (chanReceive ch ws).2.
Proof.
  intros Hok. unfold chanReceive. destruct (chans ws !! ch) as [[sn [|r l]]|] eqn:E; [done| |done].
  assert (Hne : forall sn' chs ch', waiting ws !! sn' = Some chs -> ch' ∈ chs -> ch' <> ch).
  { intros sn' chs ch' Hl Hch ->. destruct (w_wait _ Hok _ _ Hl) as (_ & _ & Hx). specialize (Hx ch Hch). congruence. }
  split; cbn; try apply Hok.
  - intros sn' chs Hl. destruct (w_wait _ Hok _ _ Hl) as (? & ? & Hx). split_and!; try done. intros ch' Hch. rewrite list_lookup_insert_ne; [auto|]. apply not_eq_sym. eauto.
  - intros ch' sn' l'. destruct (decide (ch' = ch)) as [->|Hn].
    + rewrite list_lookup_insert_eq by (by apply lookup_lt_Some in E). intros [= <- <-]. destruct (w_chan _ Hok _ _ _ E) as [Hw|(r' & ? & ? & Hl)].
      * exfalso. destruct (waiting ws !! sn) eqn:Ew; cbn in Hw; [by eapply Hne|by apply elem_of_nil in Hw].
      * right. exists r'. split_and!; try done. destruct Hl as [[=]|[= -> ->]]. by left.
    + rewrite list_lookup_insert_ne by done. apply (w_chan _ Hok).
  - intros ch' Hch. rewrite length_insert. by apply (w_made _ Hok).
Qed.

(** Only the buffer changes. *)
Lemma chanReceive_keeps ch (ws : Waiters R) :
  waiting (chanReceive ch ws).2 = waiting ws /\ told (chanReceive ch ws).2 = told ws /\ (chans (chanReceive ch ws).2).*1 = (chans ws).*1.
Proof.
  unfold chanReceive. destruct (chans ws !! ch) as [[sn [|r l]]|] eqn:E; try done. cbn. split_and!; try done. rewrite list_fmap_insert. cbn.
  apply list_insert_id. by rewrite list_lookup_fmap, E.
Qed.
End waiters.

(** Events one after the other. *)
Fixpoint runAll `{BatchNode} {B Ev : Type} (step : Ev -> BM B unit) (evs : list Ev) : BM B unit :=
  match evs with
  | [] => mret tt
  | ev :: evs => _ ← step ev; runAll step evs
  end.

Section runs.
Context `{BatchNode} {B : Type} (stoppedOf : B -> bool) (I : nat -> BSt B -> Prop) (mw : bool).
Context {Ev : Type} (step : Ev -> BM B unit) (stops : Ev -> Z) (Ev_ok : Ev -> Prop).
Hypothesis stops_01 : forall ev, stops ev = 0 \/ stops ev = 1.
Hypothesis step_ok : forall n ev s, I (S n) s -> Ev_ok ev -> (stoppedOf (bat s) = true -> stops ev = 0) ->
  wp mw (step ev) s (fun _ s' => I n s' /\ (stoppedOf (bat s') = true -> stoppedOf (bat s) = true \/ stops ev = 1)).

(** [I n] is kept if [n] events are to come and there is one stop at most. *)
Lemma runAll_ok evs s : I (length evs) s -> Forall Ev_ok evs -> (if stoppedOf (bat s) then 1 else 0) + sumZ stops evs <= 1 -> wp mw (runAll step evs) s (fun _ => I 0).
Proof using stops_01 step_ok.
  revert s. induction evs as [|ev evs IH]; intros s Hg Hev Hst; cbn [runAll]; [by apply wp_ret|].
  apply Forall_cons in Hev as [He Hev]. rewrite sumZ_cons in Hst.
  assert (Hpos : 0 <= sumZ stops evs).
  { clear -stops_01. induction evs as [|ev evs IH]; [done|]. rewrite sumZ_cons. pose proof (stops_01 ev). lia. }
  pose proof (stops_01 ev) as Hs. apply wp_bind. eapply wp_mono; [apply (step_ok (length evs)); [done|done|]|].
  - intros Et. rewrite Et in Hst. lia.
  - cbn beta. intros _ s' [Hg' Hst']. apply IH; [done|done|]. destruct (stoppedOf (bat s')); [|destruct (stoppedOf (bat s)); lia].
    destruct (Hst' eq_refl) as [Et|Et]; [rewrite Et in Hst; lia|destruct (stoppedOf (bat s)); lia].
Qed.
End runs.

(** ** The timer *)

Section timer.
Context `{BatchNode} `{!BatchNodeOk} {E R : Type}.

Definition cutoffOf (cs : gmap Z Z) (sn : Z) : Z := default 0 (cs !! sn).

Lemma foldl_earlier cs c0 ks :
  let v := foldl (earlier cs) c0 ks in
  (v = 0 <-> c0 = 0 /\ forall k, k ∈ ks -> cutoffOf cs k = 0) /\
  (v <> 0 -> (v = c0 \/ exists k, k ∈ ks /\ cutoffOf cs k = v) /\ (c0 <> 0 -> v <= c0) /\ forall k, k ∈ ks -> cutoffOf cs k <> 0 -> v <= cutoffOf cs k).
Proof.
  revert c0. induction ks as [|k ks IH]; intros c0; cbn [foldl].
  { split; [split; [intros ->; split; [done|by intros ? ?%elem_of_nil]|by intros [? _]]|]. intros _. split_and!; [by left|lia|by intros ? ?%elem_of_nil]. }
  destruct (IH (earlier cs c0 k)) as [IH1 IH2]. set (v := foldl _ _ _) in *. clearbody v. unfold earlier in *. fold (cutoffOf cs k) in *.
  assert (Hall : (forall j, j ∈ k :: ks -> cutoffOf cs j = 0) <-> cutoffOf cs k = 0 /\ forall j, j ∈ ks -> cutoffOf cs j = 0).
  { setoid_rewrite elem_of_cons. naive_solver. }
  rewrite Hall. setoid_rewrite elem_of_cons. destruct (Z.eqb_spec c0 0) as [Hc|Hc], (Z.eqb_spec (cutoffOf cs k) 0) as [Hk|Hk], (Z.ltb_spec (cutoffOf cs k) c0); cbn [orb andb negb] in *;
    (split; [rewrite IH1; clear -Hc Hk; intuition (subst; auto; lia)|]); intros Hv; destruct (IH2 Hv) as (Hw & ? & Hm);
    (split_and!; [destruct Hw as [?|(j & ? & ?)]; eauto|lia|]); intros j [->|?] Hj; try (by apply Hm); lia.
Qed.

(** The sectors whose cutoffs count, and the earliest cutoff there is. *)
Definition awaited (b : Batcher E R) (sn : Z) : Prop := is_Some (todo b !! sn) \/ is_Some (waiting (waiters b) !! sn).

Definition earliest (b : Batcher E R) (t : Z) : Prop :=
  t <> 0 /\ (exists sn, awaited b sn /\ cutoffOf (cutoffs b) sn = t) /\ forall sn, awaited b sn -> cutoffOf (cutoffs b) sn <> 0 -> t <= cutoffOf (cutoffs b) sn.

Lemma rangeMap_keys {V} (m : gmap Z V) w k : k ∈ (rangeMap (map_to_list m).*1 w).1 <-> is_Some (m !! k).
Proof.
  rewrite rangeMap_perm, list_elem_of_fmap. split.
  - intros ([? v] & -> & Hp). apply elem_of_map_to_list in Hp. eauto.
  - intros [v Hv]. exists (k, v). split; [done|]. by apply elem_of_map_to_list.
Qed.

(** The timer is set to the earliest cutoff less the slack, at most to [maxWait] and at least to
    one nanosecond, whatever the order of the maps; without sectors or cutoffs it is [maxWait]. *)
Lemma batchWait_exact mw maxWait slack (s : BSt (Batcher E R)) :
  wp mw (batchWait maxWait slack) s (fun wait s' => bat s' = bat s /\ sent s' = sent s /\
    let now := (timeNow (wld s)).1 in
    (todo (bat s) = ∅ \/ (forall sn, awaited (bat s) sn -> cutoffOf (cutoffs (bat s)) sn = 0) -> wait = maxWait) /\
    (todo (bat s) <> ∅ -> forall t, earliest (bat s) t -> wait = if t - slack <? now then 1 else Z.min maxWait (timeSub (t - slack) now))).
Proof.
  unfold batchWait. apply wp_bind, wp_ask. intros w1. apply wp_bind, wp_batcher. cbn [bat wld]. case_bool_decide as Ht.
  { apply wp_ret. split_and!; try done. }
  apply wp_bind, wp_ask. intros w2. apply wp_bind, wp_ask. intros w3. cbn [bat wld].
  rewrite <- foldl_app. set (ks := _ ++ _). set (c := foldl _ _ _).
  assert (Hks : forall k, k ∈ ks <-> awaited (bat s) k) by (intros k; unfold ks; by rewrite elem_of_app, !rangeMap_keys).
  destruct (foldl_earlier (cutoffs (bat s)) 0 ks) as [H1 H2]. fold c in H1, H2. destruct (Z.eqb_spec c 0) as [Hc|Hc].
  { apply wp_ret. cbn. split_and!; [done|done|done|]. intros _ t (Ht0 & (sn & Hsn & Hcut) & _). destruct Ht0. rewrite <- Hcut. apply H1; [done|]. by apply Hks. }
  assert (Hno : ~ (todo (bat s) = ∅ \/ forall sn, awaited (bat s) sn -> cutoffOf (cutoffs (bat s)) sn = 0)).
  { intros [?|Hz]; [done|]. apply Hc, H1. split; [done|]. intros k Hk. by apply Hz, Hks. }
  assert (Hmin : forall t, earliest (bat s) t -> t = c).
  { intros t (Ht0 & (sn & Hsn & Hcut) & Hle). destruct (H2 Hc) as ([?|(k & Hk & Ek)] & _ & Hm); [done|].
    apply Hks in Hk, Hsn. specialize (Hm sn Hsn). specialize (Hle k Hk). lia. }
  destruct (c - slack <? (timeNow (wld s)).1) eqn:El; apply wp_ret; (split_and!; [done|done|by intros ?|]); intros _ t <-%Hmin; rewrite El; [done|].
  zcases.
Qed.
End timer.

(** ** The maps of a batcher *)

Definition owner {R} (ws : Waiters R) (ch : nat) : option Z := (chans ws).*1 !! ch.

Section batcher.
Context `{BatchNode} {E R : Type} (number : E -> Z) (sectors : R -> list Z) (setError : string -> R -> R).
Hypothesis setError_sectors : forall e r, sectors (setError e r) = sectors r.

Notation St := (BSt (Batcher E R)).

Record bok (b : Batcher E R) : Prop := {
  b_wok : wok (fun r sn => sn ∈ sectors r) (waiters b);
  b_dom k : is_Some (waiting (waiters b) !! k) <-> is_Some (todo b !! k);
  b_cut k : is_Some (cutoffs b !! k) <-> is_Some (todo b !! k);
  b_num k e : todo b !! k = Some e -> number e = k;
}.

Lemma bok_new : bok newBatcher.
Proof. split; [apply wok_new|intros k; cbn; by rewrite !lookup_empty..|intros k e; cbn; by rewrite lookup_empty]. Qed.

Lemma waiting_owner b sn ch : bok b -> ch ∈ default [] (waiting (waiters b) !! sn) -> owner (waiters b) ch = Some sn.
Proof.
  intros Hok Hch. destruct (waiting (waiters b) !! sn) as [chs|] eqn:Ew; cbn in Hch; [|by apply elem_of_nil in Hch].
  destruct (w_wait _ _ (b_wok _ Hok) _ _ Ew) as (_ & _ & Hx). unfold owner. rewrite list_lookup_fmap, (Hx ch Hch). done.
Qed.

(** Someone waits for a sector that is to be done. *)
Lemma someone_waits b sn : bok b -> is_Some (todo b !! sn) -> exists ch, ch ∈ default [] (waiting (waiters b) !! sn).
Proof.
  intros Hok [chs Hchs]%(b_dom _ Hok). rewrite Hchs. destruct (w_wait _ _ (b_wok _ Hok) _ _ Hchs) as (Hne & _ & _). destruct chs as [|ch chs]; [done|].
  exists ch. constructor.
Qed.

(** [gone] are the sectors that are removed and [rs] the results that were told. *)
Record spread (rs : list R) (gone : list Z) (s s' : St) : Prop := {
  sp_ok : bok (bat s');
  sp_wld : wld s' = wld s;
  sp_sent : sent s' = sent s;
  sp_stop : stopped (bat s') = stopped (bat s);
  sp_todo k : todo (bat s') !! k = if decide (k ∈ gone) then None else todo (bat s) !! k;
  sp_wait k : waiting (waiters (bat s')) !! k = if decide (k ∈ gone) then None else waiting (waiters (bat s)) !! k;
  sp_owner ch : owner (waiters (bat s')) ch = owner (waiters (bat s)) ch;
  sp_told : exists ext, told (waiters (bat s')) = told (waiters (bat s)) ++ ext /\ forall p, p ∈ ext -> p.2 ∈ rs;
}.

Lemma spread_refl s : bok (bat s) -> spread [] [] s s.
Proof. intros Hok. split; try done. exists []. rewrite app_nil_r. split; [done|]. by intros ? ?%elem_of_nil. Qed.

Lemma spread_trans rs1 rs2 g1 g2 s1 s2 s3 : spread rs1 g1 s1 s2 -> spread rs2 g2 s2 s3 -> spread (rs1 ++ rs2) (g1 ++ g2) s1 s3.
Proof.
  intros [_ W1 S1 Z1 T1 X1 O1 (e1 & E1 & P1)] [K2 W2 S2 Z2 T2 X2 O2 (e2 & E2 & P2)]. split; try done; try congruence.
  - intros k. rewrite T2, T1. repeat case_decide; set_solver.
  - intros k. rewrite X2, X1. repeat case_decide; set_solver.
  - exists (e1 ++ e2). rewrite E2, E1, app_assoc. split; [done|]. intros p. rewrite !elem_of_app. naive_solver.
Qed.

Lemma spread_kept rs g s s' p : spread rs g s s' -> p ∈ told (waiters (bat s)) -> p ∈ told (waiters (bat s')).
Proof. intros [_ _ _ _ _ _ _ (e & -> & _)] Hp. apply elem_of_app. by left. Qed.

Lemma delete_is_Some {V} (m : gmap Z V) i k : is_Some (delete i m !! k) <-> i <> k /\ is_Some (m !! k).
Proof. rewrite lookup_delete_is_Some. done. Qed.

Lemma tellSectors_ok mw sns r s : bok (bat s) -> (forall sn, sn ∈ sns -> sn ∈ sectors r) ->
  wp mw (tellSectors sns r) s (fun _ s' => spread [r] sns s s' /\
    forall sn ch, sn ∈ sns -> ch ∈ default [] (waiting (waiters (bat s)) !! sn) -> (ch, r) ∈ told (waiters (bat s'))).
Proof.
  revert s. induction sns as [|sn sns IH]; intros s Hok Hn; cbn [tellSectors].
  { apply wp_ret. split; [|by intros ? ? ?%elem_of_nil]. destruct (spread_refl s Hok) as [? ? ? ? ? ? ? (e & E1 & He)]. split; try done. exists e. split; [done|]. intros p Hp. by apply He, elem_of_nil in Hp. }
  destruct (tellSector_ok _ sn r _ (b_wok _ Hok) (Hn sn (list_elem_of_here _ _))) as (ws & Ew & Hws & Hw & Ht & Hc).
  apply wp_bind, wp_batcher, wp_bind. rewrite Ew. cbn [orWaits]. apply wp_ret, wp_bind, wp_setBatcher.
  set (b' := {| cutoffs := _ |}). set (s1 := {| bat := b' |}).
  assert (Hs1 : spread [r] [sn] s s1).
  { split; cbn; try done.
    - split; cbn; [done|..].
      + intros k. rewrite Hw, !delete_is_Some. by rewrite (b_dom _ Hok).
      + intros k. rewrite !delete_is_Some. by rewrite (b_cut _ Hok).
      + intros k e [_ Hl]%lookup_delete_Some. by apply (b_num _ Hok).
    - intros k. rewrite lookup_delete. repeat case_decide; set_solver.
    - intros k. rewrite Hw, lookup_delete. repeat case_decide; set_solver.
    - intros ch. unfold owner. by rewrite Hc.
    - eexists. split; [exact Ht|]. intros p. rewrite list_elem_of_fmap. intros (ch & -> & _). by apply list_elem_of_singleton. }
  eapply wp_mono; [apply IH; [apply Hs1|]; intros; apply Hn; by constructor|]. cbn beta. intros _ s' [Hs Hcov]. split.
  - destruct (spread_trans _ _ _ _ _ _ _ Hs1 Hs) as [? ? ? ? ? ? ? (e & E1 & He)]. split; try done. exists e. split; [done|]. intros p Hp. specialize (He p Hp). set_solver.
  - intros k ch. rewrite elem_of_cons. intros Hk Hch. destruct (decide (k = sn)) as [->|Hne].
    + eapply spread_kept; [exact Hs|]. cbn. rewrite Ht. apply elem_of_app. right. apply list_elem_of_fmap. eauto.
    + destruct Hk as [?|Hk]; [done|]. apply (Hcov k); [done|]. cbn. rewrite Hw, lookup_delete_ne by done. done.
Qed.

Definition adjust (err : option string) (r : R) : R := match err with Some e => setError e r | None => r end.

Lemma adjust_sectors err r : sectors (adjust err r) = sectors r.
Proof. destruct err; [apply setError_sectors|done]. Qed.

Lemma tellResults_ok mw err rs s : bok (bat s) -> NoDup (rs ≫= sectors) ->
  wp mw (tellResults sectors setError err rs) s (fun _ s' => spread (adjust err <$> rs) (rs ≫= sectors) s s' /\
    forall r sn ch, r ∈ rs -> sn ∈ sectors r -> ch ∈ default [] (waiting (waiters (bat s)) !! sn) -> (ch, adjust err r) ∈ told (waiters (bat s'))).
Proof.
  revert s. induction rs as [|r rs IH]; intros s Hok Hnd; cbn [tellResults].
  { apply wp_ret. split; [by apply spread_refl|by intros ? ? ? ?%elem_of_nil]. }
  cbn in Hnd. apply NoDup_app in Hnd as (_ & Hd & Hnd). fold (adjust err r). apply wp_bind. rewrite adjust_sectors.
  eapply wp_mono; [apply tellSectors_ok; [done|]; intros sn; by rewrite adjust_sectors|]. cbn beta. intros _ s1 [Hs1 Hc1].
  eapply wp_mono; [apply IH; [apply Hs1|done]|]. cbn beta. intros _ s' [Hs Hc]. split.
  - apply (spread_trans [_] _ _ _ _ _ _ Hs1 Hs).
  - intros r' sn ch. rewrite elem_of_cons. intros [->|Hr] Hsn Hch; [eapply spread_kept; eauto|].
    apply (Hc r' sn); [done..|]. rewrite (sp_wait _ _ _ _ Hs1). case_decide as Hd'; [|done].
    exfalso. apply (Hd sn Hd'). apply list_elem_of_bind. eauto.
Qed.

Lemma register_ok mw sn cutoff in_ s : bok (bat s) -> number in_ = sn ->
  wp mw (register sn cutoff in_) s (fun ch s' => bok (bat s') /\ wld s' = wld s /\ sent s' = sent s /\ told (waiters (bat s')) = told (waiters (bat s)) /\
    (forall c sn', owner (waiters (bat s)) c = Some sn' -> owner (waiters (bat s')) c = Some sn') /\
    owner (waiters (bat s')) ch = Some sn /\ ch ∈ default [] (waiting (waiters (bat s')) !! sn) /\ todo (bat s') = <[sn := in_]> (todo (bat s)) /\ stopped (bat s') = stopped (bat s)).
Proof.
  intros Hok Hn. apply wp_bind, wp_batcher. cbn [newChan]. apply wp_bind, wp_setBatcher, wp_ret. cbn. split_and!; try done.
  - split; cbn.
    + apply (newChan_ok _ sn _ (b_wok _ Hok)).
    + intros k. rewrite !lookup_insert_is_Some. by rewrite (b_dom _ Hok).
    + intros k. rewrite !lookup_insert_is_Some. by rewrite (b_cut _ Hok).
    + intros k e. rewrite lookup_insert_Some. intros [[<- <-]|[_ Hl]]; [done|by apply (b_num _ Hok)].
  - intros c sn' Hc. unfold owner in *. cbn. rewrite fmap_app. by apply lookup_app_l_Some.
  - unfold owner. cbn. rewrite fmap_app, lookup_app_r, length_fmap, Nat.sub_diag by (rewrite length_fmap; lia). done.
  - rewrite lookup_insert_eq. cbn. apply elem_of_app. right. by apply list_elem_of_singleton.
Qed.

(** ** Steps and runs *)

Definition sameMaps (b b' : Batcher E R) : Prop := cutoffs b' = cutoffs b /\ todo b' = todo b /\ waiters b' = waiters b.

Lemma bok_same b b' : sameMaps b b' -> bok b -> bok b'.
Proof. intros (Ec & Et & Ew) [W1 W2 W3 W4]. split; rewrite ?Ec, ?Et, ?Ew; done. Qed.

Lemma takeAnswer_ok mw ch s : bok (bat s) ->
  wp mw (takeAnswer ch) s (fun _ s' => bok (bat s') /\ sent s' = sent s /\ todo (bat s') = todo (bat s) /\ stopped (bat s') = stopped (bat s) /\
    told (waiters (bat s')) = told (waiters (bat s)) /\ forall c, owner (waiters (bat s')) c = owner (waiters (bat s)) c).
Proof.
  intros [W1 W2 W3 W4]. apply wp_bind, wp_batcher. pose proof (chanReceive_ok _ ch _ W1) as Hr. destruct (chanReceive_keeps ch (waiters (bat s))) as (Kw & Kt & Kc).
  destruct (chanReceive ch (waiters (bat s))) as [r ws]. cbn [snd] in *. apply wp_bind, wp_setBatcher, wp_ret. unfold owner. cbn. rewrite Kc. split_and!; try done. split; cbn; try done.
  intros k. by rewrite Kw.
Qed.

Context (I : St -> Prop) (mw : bool).

(** A round keeps what a batch keeps. *)
Lemma runRound_ok `{!BatchNodeOk} msb maxWait slack wake s :
  (forall s s', sameMaps (bat s) (bat s') -> sent s' = sent s -> I s -> I s') ->
  (forall notif s, I s -> wp mw (msb notif) s (fun _ s' => I s' /\ stopped (bat s') = stopped (bat s))) ->
  I s -> wp mw (runRound msb maxWait slack wake) s (fun _ s' => I s' /\ stopped (bat s') = stopped (bat s)).
Proof.
  intros Hsame Hmsb Hs. unfold runRound. apply wp_bind, wp_batcher, wp_bind.
  assert (Hw : forall s1 : St, I s1 -> stopped (bat s1) = stopped (bat s) ->
    wp mw ('(lastRes, _) ← msb (match wake with WNotified => true | _ => false end); wait ← batchWait maxWait slack; mret (lastRes, wait)) s1
      (fun _ s' => I s' /\ stopped (bat s') = stopped (bat s))).
  { intros s1 Hs1 Hst. apply wp_bind. eapply wp_mono; [by apply Hmsb|]. cbn beta. intros [rs err] s2 [Hs2 Hst2].
    apply wp_bind. eapply wp_mono; [apply batchWait_exact|]. cbn beta. intros wait s3 (B3 & S3 & _). apply wp_ret. rewrite B3.
    split; [|congruence]. by apply (Hsame s2); [rewrite B3|..]. }
  destruct wake; [apply wp_setBatcher|apply wp_ret|apply wp_ret]; apply Hw; try done. by apply (Hsame s).
Qed.
End batcher.

(** ** The pre-commit batcher *)

Definition numbers (es : list preCommitEntry) : list Z := (fun p => pci_SectorNumber (pci p)) <$> es.

Section precommit.
Context `{BatchNode} `{!BatchNodeOk} `{BigOpsOk}.

(** The part of [need] that a message carries. *)
Definition paid (cfg : BatchConfig) (need value : Z) : Prop :=
  if bc_CollateralFromMinerBalance cfg then
    if bc_DisableCollateralFallback cfg then value = 0
    else exists w avail, (StateMinerAvailableBalance w).1 = inr avail /\ value = Z.max 0 (need - Z.max 0 (avail - bc_AvailableBalanceBuffer cfg))
  else value = need.

Lemma collateralSendAmount_ok {B} mw cfg need (s : BSt B) :
  wp mw (collateralSendAmount cfg need) s (fun r s' => bat s' = bat s /\ sent s' = sent s /\ forall v, r = inr v -> paid cfg need v).
Proof.
  unfold collateralSendAmount, paid. destruct (bc_CollateralFromMinerBalance cfg); [|apply wp_ret; naive_solver].
  destruct (bc_DisableCollateralFallback cfg); [apply wp_ret; autorewrite with bigs; naive_solver|].
  apply wp_bind, wp_ask. intros w'. destruct (StateMinerAvailableBalance (wld s)).1 as [e|avail] eqn:Ea; apply wp_ret; [naive_solver|].
  split_and!; [done..|]. intros v [= <-]. exists (wld s), avail. split; [done|]. autorewrite with bigs. zcases.
Qed.

(** The sender is an address of the miner. *)
Definition fromMiner (m : Sent) : Prop := exists w mi, (StateMinerInfo w).1 = inr mi /\ s_from m ∈ controls mi.

(** A message that pre-commits the sectors of the entries: the deposits and the fee are paid, from
    an address of the miner. *)
Definition preCommits (es : list preCommitEntry) (m : Sent) : Prop :=
  marshalPreCommitBatch (pci <$> es) = inr (s_params m) /\ s_method m = MethodPreCommitSectorBatch2 /\
  s_maxFee m = FeeForSectors MaxPreCommitBatchGasFee (len es) /\
  (exists cfg nv bf fee, AggregatePreCommitNetworkFee nv (len es) bf = inr fee /\ paid cfg (sumZ deposit es + fee * 110 / 100) (s_value m)) /\
  fromMiner m.

(** What comes of a batch: a message, a failure, or that of its halves. *)
Inductive comesOf : list preCommitEntry -> list PreCommitBatchRes -> list Sent -> Prop :=
| co_sent es m : es <> [] -> preCommits es m -> comesOf es [{| pb_Sectors := numbers es; pb_Msg := Some (s_cid m); pb_Error := EmptyString |}] [m]
| co_failed es e : es <> [] -> comesOf es [{| pb_Sectors := numbers es; pb_Msg := None; pb_Error := e |}] []
| co_split es1 es2 rs1 rs2 ms1 ms2 : comesOf es1 rs1 ms1 -> comesOf es2 rs2 ms2 -> comesOf (es1 ++ es2) (rs1 ++ rs2) (ms1 ++ ms2).

Lemma comesOf_sectors es rs ms : comesOf es rs ms -> rs ≫= pb_Sectors = numbers es /\ rs <> [].
Proof.
  induction 1 as [es m Hes|es e Hes|es1 es2 rs1 rs2 ms1 ms2 _ [IH1 N1] _ [IH2 _]]; cbn; [by rewrite app_nil_r..|].
  split; [by rewrite bind_app, IH1, IH2; unfold numbers; rewrite fmap_app|]. by destruct rs1.
Qed.

Lemma comesOf_sent es rs ms m : comesOf es rs ms -> m ∈ ms ->
  exists es' r, es' ⊆ es /\ es' <> [] /\ preCommits es' m /\ r ∈ rs /\ pb_Msg r = Some (s_cid m) /\ pb_Sectors r = numbers es'.
Proof.
  induction 1 as [es m' Hes Hm|es e Hes|es1 es2 rs1 rs2 ms1 ms2 _ IH1 _ IH2].
  - intros ->%list_elem_of_singleton. eexists es, _. split_and!; [done..|by apply list_elem_of_singleton|done|done].
  - by intros ?%elem_of_nil.
  - intros [Hm|Hm]%elem_of_app; [destruct (IH1 Hm) as (es' & r & ? & ? & ? & ? & ? & ?)|destruct (IH2 Hm) as (es' & r & ? & ? & ? & ? & ? & ?)];
      exists es', r; rewrite elem_of_app; (split_and!; auto); set_solver.
Qed.

Lemma comesOf_msg es rs ms r c : comesOf es rs ms -> r ∈ rs -> pb_Msg r = Some c ->
  pb_Error r = EmptyString /\ exists m es', m ∈ ms /\ s_cid m = c /\ preCommits es' m /\ pb_Sectors r = numbers es'.
Proof.
  induction 1 as [es m' Hes Hm|es e Hes|es1 es2 rs1 rs2 ms1 ms2 _ IH1 _ IH2].
  - intros ->%list_elem_of_singleton [= <-]. split; [done|]. exists m', es. split_and!; try done. by apply list_elem_of_singleton.
  - by intros ->%list_elem_of_singleton.
  - intros [Hr|Hr]%elem_of_app Hc; [destruct (IH1 Hr Hc) as (? & m & es' & ? & ? & ? & ?)|destruct (IH2 Hr Hc) as (? & m & es' & ? & ? & ? & ?)];
      (split; [done|]); exists m, es'; rewrite elem_of_app; auto.
Qed.

Lemma foldl_deposits es d : foldl (fun d p => big_Add d (deposit p)) d es = d + sumZ deposit es.
Proof. revert d. induction es as [|e es IH]; intros d; cbn [foldl]; [cbn; lia|]. rewrite IH, sumZ_cons. autorewrite with bigs. lia. Qed.

Notation PSt := (BSt (Batcher preCommitEntry PreCommitBatchRes)).

Definition processed (es : list preCommitEntry) (s : PSt) (r : list PreCommitBatchRes * option string) (s' : PSt) : Prop :=
  bat s' = bat s /\ exists ms, sent s' = sent s ++ ms /\ comesOf es r.1 ms /\ (r.2 <> None -> ms = []).

Lemma processPreCommitBatch_ok mw fuel cfg bf es nv (s : PSt) : es <> [] -> (length es <= fuel)%nat ->
  wp mw (processPreCommitBatch fuel cfg bf es nv) s (processed es s).
Proof.
  revert es s. induction fuel as [|fuel IH]; intros es s Hes Hf; [destruct es; [done|cbn in Hf; lia]|]. cbn [processPreCommitBatch].
  assert (Hfail : forall e x (s' : PSt), bat s' = bat s -> sent s' = sent s ->
    wp mw (mret ([{| pb_Sectors := numbers es; pb_Msg := None; pb_Error := e |}], x)) s' (processed es s)).
  { intros e x s' B1 S1. unfold processed. rewrite <- B1, <- S1. apply wp_ret. split; [done|]. exists []. rewrite app_nil_r. split_and!; [done|by constructor|done]. }
  apply wp_bind, wp_ret. destruct (marshalPreCommitBatch (pci <$> es)) as [e|enc] eqn:Em; [by apply Hfail|].
  apply wp_bind, wp_ask. intros w1. destruct (StateMinerInfo (wld s)).1 as [e|mi] eqn:Emi; [by apply Hfail|].
  apply wp_bind, wp_ret. destruct (AggregatePreCommitNetworkFee nv (len es) bf) as [e|fee] eqn:Efee; [by apply Hfail|].
  apply wp_bind. eapply wp_mono; [apply collateralSendAmount_ok|]. cbn beta. intros [e|need] s2 (B2 & S2 & Hpaid); [by apply Hfail|]. specialize (Hpaid _ eq_refl). cbn in B2, S2.
  apply wp_bind, wp_ask. intros w3. set (good := big_Add _ need). set (dep := foldl _ _ es).
  destruct (AddressFor_control addrSel mi PreCommitAddr good dep (wld s2)) as (a & avail & Ea & Hctl). rewrite Ea. cbn [fst].
  unfold simulateMsgGas. apply wp_bind, wp_ask. intros w4. destruct (GasEstimateMessageGas _ _ _ _ _).1 as [|e oog].
  - unfold sendMsg. apply wp_bind, wp_bind, wp_ask. intros w5. destruct (MpoolPushMessage _ _ _ _ _ _).1 as [e|c]; [apply wp_ret; by apply Hfail|].
    cbn. apply wp_ret. cbn. rewrite B2, S2. split; [done|]. eexists [_]. split; [done|]. split; [|done]. apply (co_sent es {| s_cid := c |}); [done|].
    split_and!; cbn; try done; [|by exists (wld s), mi]. exists cfg, nv, bf, fee. split; [done|]. revert Hpaid. unfold withMargin. rewrite foldl_deposits. by autorewrite with bigs.
  - destruct (negb oog || (len es =? 1)) eqn:Eo; [by apply Hfail|]. apply orb_false_iff in Eo as [_ Hlen]. apply Z.eqb_neq in Hlen. unfold len in Hlen.
    assert (Hl : (2 <= length es)%nat) by (destruct es as [|? [|? ?]]; cbn in *; [done|lia|lia]).
    pose proof (Nat.div_lt (length es) 2 ltac:(lia) ltac:(lia)). pose proof (Nat.div_le_lower_bound (length es) 2 1 ltac:(lia) ltac:(lia)).
    assert (Hne : forall l : list preCommitEntry, (0 < length l)%nat -> l <> []) by (intros []; cbn; [lia|done]).
    apply wp_bind. eapply wp_mono; [apply IH; [apply Hne|]; rewrite length_take; lia|]. cbn beta. intros [rs1 e1] s5 (B5 & ms1 & S5 & C1 & _).
    apply wp_bind. eapply wp_mono; [apply IH; [apply Hne|]; rewrite length_drop; lia|]. cbn beta. intros [rs2 e2] s6 (B6 & ms2 & S6 & C2 & _).
    apply wp_ret. cbn in *. split; [congruence|]. exists (ms1 ++ ms2). rewrite S6, S5, S2, app_assoc. split_and!; [done| |done].
    rewrite <- (take_drop (length es / 2) es). by constructor.
Qed.

Lemma omap_keys {V} (num : V -> Z) (m : gmap Z V) (keys : list Z) :
  (forall k, k ∈ keys -> is_Some (m !! k)) -> (forall k e, m !! k = Some e -> num e = k) -> num <$> omap (fun k => m !! k) keys = keys.
Proof.
  intros Hs Hn. induction keys as [|k keys IH]; [done|]. cbn [omap list_omap].
  destruct (Hs k) as [e He]; [constructor|]. rewrite He. cbn. rewrite IH by (intros; apply Hs; by constructor). by rewrite (Hn k e He).
Qed.

Lemma rangeMap_NoDup {V} (m : gmap Z V) w : NoDup (rangeMap (map_to_list m).*1 w).1.
Proof. rewrite rangeMap_perm. apply NoDup_fst_map_to_list. Qed.

Definition entryNumber (e : preCommitEntry) : Z := pci_SectorNumber (pci e).

Definition pok : Batcher preCommitEntry PreCommitBatchRes -> Prop := bok entryNumber pb_Sectors.

Definition toldOf (s : PSt) : list (nat * PreCommitBatchRes) := told (waiters (bat s)).

(** Each message pre-commits sectors of which those that waited were told of it; who was told of a
    message was told without an error, and the message was sent and has its sector. *)
Record messages (s : PSt) : Prop := {
  ms_sent m : m ∈ sent s -> exists es, es <> [] /\ preCommits es m /\ forall e, e ∈ es ->
    exists ch r, (ch, r) ∈ toldOf s /\ owner (waiters (bat s)) ch = Some (entryNumber e) /\ pb_Msg r = Some (s_cid m) /\ pb_Sectors r = numbers es;
  ms_told ch r c : (ch, r) ∈ toldOf s -> pb_Msg r = Some c ->
    pb_Error r = EmptyString /\ exists m es, m ∈ sent s /\ s_cid m = c /\ preCommits es m /\ pb_Sectors r = numbers es;
}.

Definition good (s : PSt) : Prop := pok (bat s) /\ messages s.

Lemma messages_ext (s s' : PSt) : toldOf s' = toldOf s -> sent s' = sent s ->
  (forall ch sn, owner (waiters (bat s)) ch = Some sn -> owner (waiters (bat s')) ch = Some sn) -> messages s -> messages s'.
Proof.
  intros Ht Hs Ho [M1 M2]. split; rewrite ?Ht, ?Hs; [|done].
  intros m Hm. destruct (M1 m Hm) as (es & ? & ? & He). exists es. split_and!; try done. intros e Hin. destruct (He e Hin) as (ch & r & ? & ? & ? & ?). eauto 10.
Qed.

(** What a batch leaves: nothing was done, for a reason, or all that waited were answered. *)
Definition rounded (notif : bool) (s : PSt) (r : list PreCommitBatchRes * option string) (s' : PSt) : Prop :=
  good s' /\ stopped (bat s') = stopped (bat s) /\
  (bat s' = bat s /\ sent s' = sent s /\ r.1 = [] /\ (r.2 <> None \/ todo (bat s) = ∅ \/ notif = true) \/
   todo (bat s') = ∅ /\ r.2 = None /\ forall sn ch, ch ∈ default [] (waiting (waiters (bat s)) !! sn) -> ch ∈ (toldOf s').*1).

Lemma pb_setError_sectors e r : pb_Sectors (pb_setError e r) = pb_Sectors r.
Proof. done. Qed.

(** The results of the whole batch are told. *)
Lemma told_messages (s1 s2 s3 : PSt) es rs err ms : pok (bat s1) -> messages s1 -> bat s2 = bat s1 -> sent s2 = sent s1 ++ ms ->
  comesOf es rs ms -> (err <> None -> ms = []) -> (forall e, e ∈ es -> todo (bat s1) !! entryNumber e = Some e) ->
  spread entryNumber pb_Sectors (adjust pb_setError err <$> rs) (rs ≫= pb_Sectors) s2 s3 ->
  (forall r sn ch, r ∈ rs -> sn ∈ pb_Sectors r -> ch ∈ default [] (waiting (waiters (bat s2)) !! sn) -> (ch, adjust pb_setError err r) ∈ toldOf s3) ->
  messages s3.
Proof.
  intros Hok [M1 M2] B2 S2 Hco Herr Hes Hsp Hcov. pose proof (sp_told _ _ _ _ _ _ Hsp) as (ext & Et & Hext). fold (toldOf s3) in Et. rewrite B2 in Et, Hcov. fold (toldOf s1) in Et.
  assert (Ho : forall ch, owner (waiters (bat s3)) ch = owner (waiters (bat s1)) ch) by (intros; rewrite (sp_owner _ _ _ _ _ _ Hsp); by rewrite B2).
  pose proof (sp_sent _ _ _ _ _ _ Hsp) as S3. rewrite S2 in S3.
  assert (Hadj : forall r c, r ∈ rs -> pb_Msg (adjust pb_setError err r) = Some c -> err = None).
  { intros r c Hr Hc. destruct err as [e|]; [|done]. destruct (comesOf_msg _ _ _ r c Hco Hr Hc) as (_ & m & ? & Hm & _). rewrite Herr in Hm by done. by apply elem_of_nil in Hm. }
  split.
  - intros m. rewrite S3. intros [Hm|Hm]%elem_of_app.
    + destruct (M1 m Hm) as (es' & ? & ? & He). exists es'. split_and!; try done. intros e Hin. destruct (He e Hin) as (ch & r & ? & ? & ? & ?).
      exists ch, r. rewrite Et, Ho, elem_of_app. auto.
    + destruct (comesOf_sent _ _ _ m Hco Hm) as (es' & r & Hsub & ? & ? & Hr & Hmsg & Hsec). exists es'. split_and!; try done. intros e He.
      assert (err = None) as -> by (destruct err; [|done]; rewrite Herr in Hm by done; by apply elem_of_nil in Hm).
      destruct (someone_waits _ _ _ (entryNumber e) Hok) as [ch Hch]; [rewrite Hes; eauto|].
      exists ch, r. rewrite Ho. split_and!; try done.
      * apply (Hcov r (entryNumber e) ch Hr); [rewrite Hsec; by apply list_elem_of_fmap_2|done].
      * by apply (waiting_owner entryNumber pb_Sectors).
  - intros ch r c. rewrite Et, S3. intros [Hr|Hr]%elem_of_app Hc.
    + destruct (M2 ch r c Hr Hc) as (? & m & es' & ? & ? & ? & ?). split; [done|]. exists m, es'. rewrite elem_of_app. auto.
    + apply Hext in Hr. cbn in Hr. apply list_elem_of_fmap in Hr as (r' & -> & Hr). pose proof (Hadj r' c Hr Hc) as ->.
      destruct (comesOf_msg _ _ _ r' c Hco Hr Hc) as (? & m & es' & ? & ? & ? & ?). split; [done|]. exists m, es'. rewrite elem_of_app. auto.
Qed.

Lemma maybeStartBatch_ok mw notif (s : PSt) : good s -> wp mw (maybeStartBatch notif) s (rounded notif s).
Proof.
  intros [Hok Hms]. unfold maybeStartBatch. apply wp_bind, wp_batcher.
  assert (Hidle : forall e (s' : PSt), bat s' = bat s -> sent s' = sent s -> (e <> None \/ todo (bat s) = ∅ \/ notif = true) -> wp mw (mret ([], e)) s' (rounded notif s)).
  { intros e s' B1 S1 He. apply wp_ret. unfold rounded, good, pok. rewrite B1. split_and!; [done| |done|left; done].
    apply (messages_ext s); unfold toldOf; rewrite ?B1; done. }
  destruct (Z.eqb_spec (Z.of_nat (size (todo (bat s)))) 0) as [Hz|Hz]; [apply Hidle; try done; right; left; apply map_size_empty_iff; lia|].
  apply wp_bind, wp_ask. intros w1. destruct (getConfig (wld s)).1 as [e|cfg]; [apply Hidle; auto|].
  apply wp_bind, wp_ask. intros w2. destruct (ChainHead _).1 as [e|ts]; [apply Hidle; auto|].
  destruct (notif && _ && negb _) eqn:Eg; [apply Hidle; try done; right; right; by destruct notif|].
  apply wp_bind, wp_ask. intros w3. destruct (StateNetworkVersion _ _).1 as [e|nv]; [apply Hidle; auto|].
  apply wp_bind. unfold processBatch. apply wp_bind, wp_batcher, wp_bind, wp_ask. intros w4. cbn [bat wld sent].
  set (keys := (rangeMap _ _).1). set (es := omap _ keys).
  assert (Hkeys : forall k, k ∈ keys <-> is_Some (todo (bat s) !! k)) by (intros k; apply rangeMap_keys).
  assert (Hnum : numbers es = keys) by (apply (omap_keys entryNumber); [intros k; apply Hkeys|apply (b_num _ _ _ Hok)]).
  assert (Hes : forall e, e ∈ es -> todo (bat s) !! entryNumber e = Some e).
  { intros e (k & Hk & He)%list_elem_of_omap. by rewrite (b_num _ _ _ Hok k e He). }
  assert (Hne : es <> []).
  { intros E0. rewrite E0 in Hnum. cbn in Hnum. apply Hz. rewrite (proj2 (map_size_empty_iff (todo (bat s)))); [done|]. apply map_empty. intros k. destruct (todo (bat s) !! k) eqn:Ek; [|done].
    exfalso. apply (not_elem_of_nil k). rewrite Hnum. apply Hkeys. eauto. }
  eapply wp_mono; [apply processPreCommitBatch_ok; [done|lia]|]. intros [rs err] s2 (B2 & ms & S2 & Hco & Herr). cbn [fst snd bat sent] in *.
  destruct (comesOf_sectors _ _ _ Hco) as [Hsec Hrs]. rewrite (bool_decide_false (rs = [])), andb_false_r by done.
  apply wp_bind. eapply wp_mono.
  { apply (tellResults_ok entryNumber _ _ pb_setError_sectors); [by rewrite B2|]. rewrite Hsec, Hnum. apply rangeMap_NoDup. }
  cbn beta. intros _ s3 [Hsp Hcov]. apply wp_ret. unfold rounded. split_and!.
  - split; [apply Hsp|]. by eapply told_messages.
  - rewrite (sp_stop _ _ _ _ _ _ Hsp). by rewrite B2.
  - right. cbn. split_and!; [|done|].
    + apply map_empty. intros k. rewrite (sp_todo _ _ _ _ _ _ Hsp), Hsec, Hnum, B2. case_decide as Hk; [done|]. apply eq_None_not_Some. by rewrite <- Hkeys.
    + intros sn ch Hch. assert (Hsn : sn ∈ rs ≫= pb_Sectors).
      { rewrite Hsec, Hnum, Hkeys. apply (b_dom _ _ _ Hok). destruct (waiting (waiters (bat s)) !! sn); [eauto|by apply elem_of_nil in Hch]. }
      apply list_elem_of_bind in Hsn as (r & Hsn & Hr). apply list_elem_of_fmap. exists (ch, adjust pb_setError err r). split; [done|].
      apply (Hcov r sn); [done..|]. by rewrite B2.
Qed.
End precommit.
