(* ===== verification/PreCommitRuns.v ===== *)
(** * Runs of the pre-commit batcher

    Calls of [AddPreCommit], rounds of the goroutine, callers that take their answers and one
    [Stop], in any order, with a node that answers anything. *)

From stdpp Require Import gmap.
From Stdlib Require Import Ascii.
From S2P Require Import Prelude TipSet CtlAddr SealingTypes Batcher BatcherProps.

Inductive PreEvent :=
| PAdd (s : SectorInfo) (dep : Z) (in_ : PreCommitInfo)
| PRun (wake : Wake)
| PReceive (ch : nat)
| PStop.

(** The pre-commit is that of the sector. *)
Definition PreEvent_ok (ev : PreEvent) : Prop :=
  match ev with PAdd s _ in_ => pci_SectorNumber in_ = SectorNumber s | _ => True end.

Definition stops (ev : PreEvent) : Z := match ev with PStop => 1 | _ => 0 end.

Lemma stops_01 ev : stops ev = 0 \/ stops ev = 1.
Proof. destruct ev; auto. Qed.

Section runs.
Context `{BatchNode} `{BigOps}.

Notation PSt := (BSt (Batcher preCommitEntry PreCommitBatchRes)).
Notation PM := (BM (Batcher preCommitEntry PreCommitBatchRes)).

Definition preStep (cfg : BatchConfig) (ev : PreEvent) : PM unit :=
  match ev with
  | PAdd s dep in_ => _ ← AddPreCommit s dep in_; mret tt
  | PRun wake => _ ← run cfg wake; mret tt
  | PReceive ch => _ ← takeAnswer ch; mret tt
  | PStop => Stop
  end.

Definition preRun (cfg : BatchConfig) : list PreEvent -> PM unit := runAll (preStep cfg).

Definition preStart (w : node) : PSt := {| bat := newBatcher; wld := w; sent := [] |}.

Context `{!BatchNodeOk} `{!BigOpsOk}.

Lemma wp_Done {B A} (m : BM B A) s Q : wp false m s Q -> exists a s', m s = (Done a, s') /\ Q a s'.
Proof. unfold wp. destruct (m s) as [[a| |] s']; naive_solver. Qed.

Lemma good_ext (s s' : PSt) : sameMaps (bat s) (bat s') -> sent s' = sent s -> good s -> good s'.
Proof.
  intros Hb Hs [Hp Hm]. split; [by eapply bok_same|]. destruct Hb as (_ & _ & Hw). apply (messages_ext s); unfold toldOf; rewrite ?Hw; done.
Qed.

Lemma allocationCutoffLoop_ok mw ps c (s : PSt) : wp mw (allocationCutoffLoop ps c) s (fun _ s' => bat s' = bat s /\ sent s' = sent s).
Proof.
  revert c s. induction ps as [|p ps IH]; intros c s; cbn [allocationCutoffLoop]; [by apply wp_ret|].
  destruct (DealInfo p); [|apply IH]. apply wp_bind, wp_ask. intros w'. eapply wp_mono; [apply IH|]. done.
Qed.

Lemma AddPreCommit_ok mw si dep in_ (s : PSt) : good s -> pci_SectorNumber in_ = SectorNumber si ->
  wp mw (AddPreCommit si dep in_) s (fun r s' => good s' /\ stopped (bat s') = stopped (bat s) /\
    match r with
    | inl _ => bat s' = bat s
    | inr ch => ch ∈ default [] (waiting (waiters (bat s')) !! SectorNumber si) /\ todo (bat s') = <[SectorNumber si := {| deposit := dep; pci := in_ |}]> (todo (bat s))
    end).
Proof.
  intros Hg Hn. unfold AddPreCommit. apply wp_bind, wp_ask. intros w1.
  destruct (ChainHead (wld s)).1 as [e|ts]; [apply wp_ret; split_and!; try done; by apply (good_ext s)|].
  destruct (_ <=? _); [apply wp_ret; split_and!; try done; by apply (good_ext s)|].
  apply wp_bind. eapply wp_mono; [apply allocationCutoffLoop_ok|]. cbn beta. intros ac s2 [B2 S2]. cbn in B2, S2. apply wp_bind, wp_ask. intros w3.
  apply wp_bind. eapply wp_mono; [apply (register_ok entryNumber pb_Sectors); [|exact Hn]; cbn; rewrite B2; apply Hg|]. cbn beta.
  intros ch s' (Hok & _ & S' & Ht & Ho & _ & Hch & Htd & Hst). cbn [bat sent] in S', Ht, Ho, Htd, Hst. apply wp_ret. rewrite B2 in Ht, Ho, Htd, Hst. split_and!; try done.
  split; [done|]. apply (messages_ext s); [done|congruence|done|apply Hg].
Qed.

Lemma preStep_ok mw cfg ev (s : PSt) : good s -> PreEvent_ok ev -> (stopped (bat s) = true -> stops ev = 0) ->
  wp mw (preStep cfg ev) s (fun _ s' => good s' /\ (stopped (bat s') = true -> stopped (bat s) = true \/ stops ev = 1)).
Proof.
  intros Hg Hev Hst. destruct ev as [si dep in_|wake|ch|]; cbn [preStep].
  - apply wp_bind. eapply wp_mono; [by apply AddPreCommit_ok|]. cbn beta. intros r s' (? & Hs & _). apply wp_ret. rewrite Hs. auto.
  - apply wp_bind. eapply wp_mono; [apply (runRound_ok good mw); [apply good_ext| |done]|].
    + intros notif s1 Hg1. eapply wp_mono; [by apply maybeStartBatch_ok|]. cbn beta. intros r s2 (? & ? & _). done.
    + cbn beta. intros r s' [? Hs]. apply wp_ret. rewrite Hs. auto.
  - apply wp_bind. eapply wp_mono; [apply takeAnswer_ok, Hg|]. cbn beta. intros r s' (Hok & Hs & _ & Hs' & Ht & Ho). apply wp_ret. rewrite Hs'.
    split; [|by left]. split; [done|]. apply (messages_ext s); [done|done|intros c sn; by rewrite Ho|apply Hg].
  - apply wp_bind, wp_batcher. cbn in Hst. destruct (stopped (bat s)); [by specialize (Hst eq_refl)|]. apply wp_setBatcher. split; [by apply (good_ext s)|by right].
Qed.

End runs.

(** ** A node *)

(** What is different in the examples: whether collateral comes from the balance, the least number
    of sectors of an aggregate, the limit of messages per epoch, whether the head is not known once,
    and whether pre-commits are found. *)
Record DemoOpts := {
  o_balance : bool;
  o_min : Z;
  o_limit : Z;
  o_down : bool;
  o_known : bool;
}.

Definition demoOpts : DemoOpts := {| o_balance := false; o_min := 2; o_limit := 0; o_down := false; o_known := true |}.

Definition demoConfig (o : DemoOpts) : BatchConfig := {|
  bc_CollateralFromMinerBalance := o_balance o; bc_AvailableBalanceBuffer := 0; bc_DisableCollateralFallback := false;
  MaxPreCommitBatch := 10; PreCommitBatchWait := 3600; PreCommitBatchSlack := 60; BatchPreCommitAboveBaseFee := 0;
  MinCommitBatch := o_min o; MaxCommitBatch := 10; CommitBatchWait := 3600; CommitBatchSlack := 60; AggregateAboveBaseFee := 0;
  MaxSectorProveCommitsSubmittedPerEpoch := o_limit o; TerminateBatchMax := 10; TerminateBatchMin := 1; TerminateBatchWait := 60 |}.

(** Its state counts the messages that were pushed, the heads that were not known and the balances
    that were asked for; only the first balance is known, and messages of two parameters are out of
    gas. *)
#[local] Instance demoCtl : CtlNode := {|
  node := Z;
  isIDAddress := fun _ => true;
  WalletBalance := fun _ w => (inr 1000000, w);
  WalletHas := fun _ w => (inr true, w);
  StateAccountKey := fun a w => (inr a, w);
  StateLookupID := fun a w => (inr a, w);
  rangeOrder := fun l w => (l, w);
|}.

Definition demoCid (w : Z) : Cid := String (ascii_of_nat (48 + Z.to_nat w)) EmptyString.

Definition demoNode (o : DemoOpts) : BatchNode := {|
  bn_ctl := demoCtl;
  ChainHead := fun w => if o_down o && (w =? 1) then (inl "down", 2) else (inr {| bh_Key := "head"; bh_Height := 100 + w; bh_BaseFee := 5 |}, w);
  StateNetworkVersion := fun _ w => (inr 21, w);
  StateMinerInfo := fun w => (inr {| Owner := "t0100"; Worker := "t0101"; ControlAddresses := ["t0102"] |}, w);
  StateMinerAvailableBalance := fun w => if w =? 0 then (inr 30, 1) else (inl "timeout", w);
  StateGetAllocationForPendingDeal := fun _ w => (None, w);
  StateSectorPreCommitInfo := fun sn _ w =>
    (if o_known o || (w <? 0) then inr (Some {| poc_Info := {| pci_SectorNumber := sn; pci_rest := "rest" |}; poc_PreCommitDeposit := 10; poc_PreCommitEpoch := 50 |})
     else inr None, if w <? 0 then w + 1 else w);
  StateMinerInitialPledgeCollateral := fun _ _ w => (inr 15, w);
  GasEstimateMessageGas := fun _ _ _ params w => (if (1 <? length params)%nat then GasErr "out of gas" true else GasOk, w);
  MpoolPushMessage := fun _ _ _ _ _ w => (inr (demoCid w), w + 1);
  getConfig := fun w => (inr (demoConfig o), w);
  timeNow := fun w => (1000, w);
  rangeMap := fun l w => (l, w);
  marshalPreCommitBatch := fun l => inr (pci_SectorNumber <$> l);
  VersionForNetwork := fun _ => inr 12;
  minerPreCommitFee := fun _ n _ => 10 * n;
  minerProveCommitFee := fun _ n _ => 10 * n;
  GetMaxProveCommitDuration := fun _ _ => inr 1000;
  IDFromAddress := inr 1000;
  addrSel := Some {| PreCommitControl := ["t0102"]; CommitControl := []; TerminateControl := []; DealPublishControl := []; DisableOwnerFallback := false; DisableWorkerFallback := false |};
  MaxPreCommitBatchGasFee := {| bf_Base := 0; bf_PerSector := 20 |};
  MaxCommitBatchGasFee := {| bf_Base := 0; bf_PerSector := 20 |};
  MaxCommitGasFee := 50;
  MaxTerminateGasFee := 50;
  MaxPreCommitRandomnessLookback := 900;
  BlockDelaySecs := 30;
  MethodPreCommitSectorBatch2 := 28;
  MethodProveCommitAggregate := 26;
  MethodProveCommitSector := 7;
  MethodTerminateSectors := 9;
|}.

Lemma demoNode_ok o : @BatchNodeOk (demoNode o).
Proof. by constructor. Qed.

Definition demoAdd (n : Z) : PreEvent := PAdd (set_SectorNumber n zeroSectorInfo) 40 {| pci_SectorNumber := n; pci_rest := "rest" |}.

(** Two sectors, a notification that is not enough for a batch, and a forced batch that is split. *)
Definition demoEvents : list PreEvent := [demoAdd 7; demoAdd 8; PRun WNotified; PRun WForced; PReceive 0; PStop].


(** The error of a half is dropped if it is about the balance of the miner: the caller is told
    neither of a message nor of an error. *)
Lemma half_without_error :
  let o := {| o_balance := true; o_min := 2; o_limit := 0; o_down := false; o_known := true |} in
  exists s, @preRun (demoNode o) ZBig (demoConfig o) [demoAdd 7; demoAdd 8; PRun WForced] (@preStart (demoNode o) 0) = (Done tt, s) /\
    exists ch r, (ch, r) ∈ told (waiters (bat s)) /\ pb_Msg r = None /\ pb_Error r = EmptyString.
Proof. intros o. eexists. split; [vm_compute; reflexivity|]. do 2 eexists. split; [constructor|done]. Qed.
