(* ===== verification/BatchCommit.v ===== *)
(** * The commit batcher: storage/pipeline/commit_batch.go

    Proofs of sectors are sent in one aggregate, or each in a message of its own if there are too
    few of them, if the base fee is low or shortly before an upgrade.  An aggregate that is out of
    gas is split in halves.  The maps, the timer and the end of a batch are those of [Batcher]. *)

From stdpp Require Import gmap.
From S2P Require Import Prelude TipSet CtlAddr SealingTypes Kv NumAssign Batcher.

(** [proof.AggregateSealVerifyInfo]: its number, and the rest. *)
Record SealVerifyInfo := {
  svi_Number : Z;
  svi_rest : opaque;
}.

Record AggregateInput := {
  Spt : Z;
  ai_Info : SealVerifyInfo; (* [Info] *)
  ai_Proof : bytes; (* [Proof] *)
}.

Definition zeroInput : AggregateInput := {| Spt := 0; ai_Info := {| svi_Number := 0; svi_rest := EmptyString |}; ai_Proof := [] |}.

Record CommitBatchRes := {
  cb_Sectors : list Z;
  FailedSectors : gmap Z string;
  cb_Msg : option Cid;
  cb_Error : string;
}.

Definition cb_setError (e : string) (r : CommitBatchRes) : CommitBatchRes :=
  {| cb_Sectors := cb_Sectors r; FailedSectors := FailedSectors r; cb_Msg := cb_Msg r; cb_Error := e |}.

(** The prover, the encodings and the constants of other modules. *)
Class CommitNode `{BatchNode} `{BitFields} := {
  AggregateSealProofs : Z -> Z -> Z -> list SealVerifyInfo -> list bytes -> node -> reply bytes * node; (* miner, seal proof, aggregate proof *)
  marshalCommitAggregate : BitField -> bytes -> reply bytes;
  marshalProveCommit : Z -> bytes -> reply bytes;
  MinAggregatedSectors : Z;
  UpgradeSkyrHeight : Z;
  SnarkPackV1 : Z;
  SnarkPackV2 : Z;
}.

Class CommitNodeOk `{CommitNode} : Prop := {
  MinAggregatedSectors_pos : 0 < MinAggregatedSectors;
}.

(** [types.TotalFilecoinInt]: two billion FIL. *)
Definition TotalFilecoinInt : Z := 2000000000 * 1000000000000000000.

Section commit.
Context `{CommitNode} `{BigOps}.

Notation CM := (BM (Batcher AggregateInput CommitBatchRes)).

Definition getSectorCollateral (sn : Z) (tsk : TipSetKey) : CM (reply Z) :=
  pci ⇐ ask (StateSectorPreCommitInfo sn tsk) iferr e => mret (inl ("getting precommit info: " +:+ e));
  match pci with
  | None => mret (inl "precommit info not found on chain")
  | Some pci =>
      collateral ⇐ ask (StateMinerInitialPledgeCollateral (poc_Info pci) tsk) iferr e => mret (inl ("getting initial pledge collateral: " +:+ e));
      let collateral := big_Sub collateral (poc_PreCommitDeposit pci) in
      mret (inr (if big_LessThan collateral (big_NewInt 0) then big_NewInt 0 else collateral))
  end.

Definition aggregateProofType (nv : Z) : reply Z := if nv <? 16 then inr SnarkPackV1 else inr SnarkPackV2.

(** What the loop over the sectors of an aggregate collects. *)
Record Collected := {
  c_failed : gmap Z string;
  c_collateral : Z;
  c_numbers : BitField;
  c_infos : list SealVerifyInfo;
}.

Fixpoint collectSectors (todo : gmap Z AggregateInput) (tsk : TipSetKey) (sectors : list Z) (c : Collected) : CM Collected :=
  match sectors with
  | [] => mret c
  | sector :: sectors =>
      sc ← getSectorCollateral sector tsk;
      match sc with
      | inl e =>
          collectSectors todo tsk sectors
            {| c_failed := <[sector := e]> (c_failed c); c_collateral := c_collateral c; c_numbers := c_numbers c; c_infos := c_infos c |}
      | inr sc =>
          collectSectors todo tsk sectors
            {| c_failed := c_failed c; c_collateral := big_Add (c_collateral c) sc; c_numbers := bf_Set (u64 sector) (c_numbers c);
               c_infos := c_infos c ++ [ai_Info (default zeroInput (todo !! sector))] |}
      end
  end.

(** [fuel] bounds how often a batch is split, as for pre-commits. *)
Fixpoint processBatch (fuel : nat) (cfg : BatchConfig) (sectors : list Z) : CM (list CommitBatchRes * option string) :=
  match fuel with
  | O => crash
  | S fuel =>
      ts ⇐ ask ChainHead iferr e => mret ([], Some e);
      b ← batcher;
      c ← collectSectors (todo b) (bh_Key ts) sectors {| c_failed := ∅; c_collateral := big_NewInt 0; c_numbers := bf_New; c_infos := [] |};
      if bool_decide (c_infos c = []) then mret ([], None)
      else
        let r := {| cb_Sectors := sectors; FailedSectors := c_failed c; cb_Msg := None; cb_Error := EmptyString |} in
        let failed e msg := mret ([cb_setError e r], Some (msg +:+ e)) in
        let infos := sortSlice (fun i j => svi_Number i <? svi_Number j) (c_infos c) in
        let proofs := (fun info => ai_Proof (default zeroInput (todo b !! svi_Number info))) <$> infos in
        mid ⇐ mret IDFromAddress iferr e => failed e "getting miner id: ";
        nv ⇐ ask (StateNetworkVersion (bh_Key ts)) iferr e => failed e "getting network version: ";
        arp ⇐ mret (aggregateProofType nv) iferr e => failed e "getting aggregate proof type: ";
        let spt := Spt (default zeroInput (match infos with i :: _ => todo b !! svi_Number i | [] => None end)) in
        agg ⇐ ask (AggregateSealProofs mid spt arp infos proofs) iferr e => failed e "aggregating proofs: ";
        enc ⇐ mret (marshalCommitAggregate (c_numbers c) agg) iferr e => failed e "couldn't serialize ProveCommitAggregateParams: ";
        mi ⇐ ask StateMinerInfo iferr e => failed e "couldn't get miner info: ";
        let maxFee := FeeForSectors MaxCommitBatchGasFee (len infos) in
        aggFeeRaw ⇐ mret (AggregateProveCommitNetworkFee nv (len infos) (bh_BaseFee ts)) iferr e => failed e "getting aggregate commit network fee: ";
        let needFunds := big_Add (c_collateral c) (withMargin aggFeeRaw) in
        needFunds ⇐ collateralSendAmount cfg needFunds iferr e => failed e EmptyString;
        let goodFunds := big_Add maxFee needFunds in
        from ⇐ ask (AddressFor addrSel mi CommitAddr goodFunds needFunds) iferr e => failed e "no good address found: ";
        gas ← simulateMsgGas from.1 MethodProveCommitAggregate needFunds enc;
        match gas with
        | GasErr e oog =>
            if negb oog || (len sectors <? MinAggregatedSectors * 2) then failed e "simulating CommitBatch message failed: "
            else
              let mid := (length sectors / 2)%nat in
              '(ret0, _) ← processBatch fuel cfg (take mid sectors);
              '(ret1, _) ← processBatch fuel cfg (drop mid sectors);
              mret (ret0 ++ ret1, None)
        | GasOk =>
            mcid ⇐ sendMsg from.1 MethodProveCommitAggregate needFunds maxFee enc iferr e => mret ([r], Some ("sending message failed: " +:+ e));
            mret ([{| cb_Sectors := sectors; FailedSectors := c_failed c; cb_Msg := Some mcid; cb_Error := EmptyString |}], None)
        end
  end.

(** The message of one sector, and what is left of the available balance. *)
Definition processSingle (cfg : BatchConfig) (mi : MinerInfo) (avail sn : Z) (info : AggregateInput) (tsk : TipSetKey) : CM (reply Cid * Z) :=
  enc ⇐ mret (marshalProveCommit sn (ai_Proof info)) iferr e => mret (inl ("marshaling commit params: " +:+ e), avail);
  collateral ⇐ getSectorCollateral sn tsk iferr e => mret (inl e, avail);
  let '(collateral, avail) :=
    if bc_CollateralFromMinerBalance cfg then
      let c := big_Sub collateral avail in
      let avail := big_Sub avail collateral in
      (if big_LessThan c (big_NewInt 0) then big_NewInt 0 else c, if big_LessThan avail (big_NewInt 0) then big_NewInt 0 else avail)
    else (collateral, avail) in
  let goodFunds := big_Add collateral MaxCommitGasFee in
  from ⇐ ask (AddressFor addrSel mi CommitAddr goodFunds collateral) iferr e => mret (inl ("no good address to send commit message from: " +:+ e), avail);
  mcid ⇐ sendMsg from.1 MethodProveCommitSector collateral MaxCommitGasFee enc iferr e => mret (inl ("pushing message to mpool: " +:+ e), avail);
  mret (inr mcid, avail).

(** The loop that waits for a head above the height; [spins] is how often it looks. *)
Fixpoint nextHead (spins : nat) (height : Z) : CM (reply BatchHead) :=
  match spins with
  | O => waits
  | S spins =>
      tmp ⇐ ask ChainHead iferr e => mret (inl e);
      if bh_Height tmp <=? height then nextHead spins height else mret (inr tmp)
  end.

Fixpoint individualLoop (spins : nat) (cfg : BatchConfig) (mi : MinerInfo) (sectors : list (Z * AggregateInput)) (avail : Z) (ts : BatchHead)
    (sectorsProcessed : Z) (rs : list CommitBatchRes) : CM (list CommitBatchRes * option string) :=
  match sectors with
  | [] => mret (rs, None)
  | (sn, info) :: sectors =>
      let limit := (0 <? MaxSectorProveCommitsSubmittedPerEpoch cfg) && (MaxSectorProveCommitsSubmittedPerEpoch cfg <=? sectorsProcessed) in
      tp ⇐ (if limit then tmp ⇐ nextHead spins (bh_Height ts) iferr e => mret (inl e); mret (inr (tmp, 0))
            else mret (inr (ts, sectorsProcessed))) iferr e => mret ([], Some e);
      '(mcid, avail) ← processSingle cfg mi avail sn info (bh_Key tp.1);
      let r := match mcid with
               | inl e => {| cb_Sectors := [sn]; FailedSectors := {[sn := e]}; cb_Msg := None; cb_Error := EmptyString |}
               | inr c => {| cb_Sectors := [sn]; FailedSectors := ∅; cb_Msg := Some c; cb_Error := EmptyString |}
               end in
      individualLoop spins cfg mi sectors avail tp.1 (tp.2 + 1) (rs ++ [r])
  end.

Definition processIndividually (spins : nat) (cfg : BatchConfig) : CM (list CommitBatchRes * option string) :=
  mi ⇐ ask StateMinerInfo iferr e => mret ([], Some ("couldn't get miner info: " +:+ e));
  avail ⇐ (if bc_CollateralFromMinerBalance cfg && negb (bc_DisableCollateralFallback cfg) then
             avail ⇐ ask StateMinerAvailableBalance iferr e => mret (inl e);
             let avail := big_Sub avail (bc_AvailableBalanceBuffer cfg) in
             mret (inr (if big_LessThan avail (big_NewInt 0) then big_NewInt 0 else avail))
           else mret (inr TotalFilecoinInt)) iferr e => mret ([], Some ("getting available miner balance: " +:+ e));
  ts ⇐ ask ChainHead iferr e => mret ([], Some e);
  b ← batcher;
  keys ← ask (rangeMap (map_to_list (todo b)).*1);
  individualLoop spins cfg mi (omap (fun k => pair k <$> todo b !! k) keys) avail ts 0 [].

Definition blackedOut (height : Z) : bool := (height <=? UpgradeSkyrHeight) && (i64 (UpgradeSkyrHeight - height) <? 20).

Definition maybeStartBatch (spins : nat) (notif : bool) : CM (list CommitBatchRes * option string) :=
  b ← batcher;
  let total := Z.of_nat (size (todo b)) in
  if total =? 0 then mret ([], None)
  else
    cfg ⇐ ask getConfig iferr e => mret ([], Some ("getting config: " +:+ e));
    if notif && (total <? MaxCommitBatch cfg) then mret ([], None)
    else
      ts ⇐ ask ChainHead iferr e => mret ([], Some e);
      let individual := (total <? MinCommitBatch cfg) || (total <? MinAggregatedSectors) || blackedOut (bh_Height ts) in
      let individual := if negb individual && negb (big_Equals (AggregateAboveBaseFee cfg) (big_NewInt 0))
                        then big_LessThan (bh_BaseFee ts) (AggregateAboveBaseFee cfg) else individual in
      '(rs, err) ← (if individual then processIndividually spins cfg
                    else sectors ← ask (rangeMap (map_to_list (todo b)).*1); processBatch (length sectors) cfg sectors);
      if bool_decide (err <> None) && bool_decide (rs = []) then mret ([], err)
      else
        _ ← tellResults cb_Sectors cb_setError err rs;
        mret (rs, None).

Definition getCommitCutoff (si : SectorInfo) : CM (reply Z) :=
  ts ⇐ ask ChainHead iferr e => mret (inl ("getting chain head: " +:+ e));
  nv ⇐ ask (StateNetworkVersion (bh_Key ts)) iferr e => mret (inl ("getting network version: " +:+ e));
  pci ⇐ ask (StateSectorPreCommitInfo (SectorNumber si) (bh_Key ts)) iferr e => mret (inl e);
  match pci with
  | None => mret (inl "precommit info not found")
  | Some pci =>
      av ⇐ mret (VersionForNetwork nv) iferr e => mret (inl e);
      mpcd ⇐ mret (GetMaxProveCommitDuration av (SectorType si)) iferr e => mret (inl e);
      let cutoffEpoch := earliestStart (Pieces si) (i64 (poc_PreCommitEpoch pci + mpcd)) in
      now ← ask timeNow;
      mret (inr (if cutoffEpoch <=? bh_Height ts then now else now + epochsDuration cutoffEpoch (bh_Height ts)))
  end.

(** Up to the wait for the channel that is the result. *)
Definition AddCommit (s : SectorInfo) (in_ : AggregateInput) : CM (reply nat) :=
  cu ⇐ getCommitCutoff s iferr e => mret (inl e);
  ch ← register (SectorNumber s) cu in_;
  mret (inr ch).

(** The same as for pre-commits. *)
Definition commitBatchWait : Z -> Z -> CM Z := batchWait.

(** [cfg] is the configuration when the batcher was made. *)
Definition run (spins : nat) (cfg : BatchConfig) : Wake -> CM (list CommitBatchRes * Z) :=
  runRound (maybeStartBatch spins) (CommitBatchWait cfg) (CommitBatchSlack cfg).

Definition Pending : CM (reply (list (Z * Z))) := pendingSectors (fun e => svi_Number (ai_Info e)).
End commit.
