(* ===== verification/BatchTerminate.v ===== *)
(** * The termination batcher: storage/pipeline/terminate_batch.go

    Sectors to terminate are collected as bitfields per deadline and partition, and sent in one
    message with a declaration for each partition that is not challenged about now.  The bitfields
    are those of go-bitfield. *)

From stdpp Require Import gmap.
From S2P Require Import Prelude TipSet CtlAddr SealingTypes Kv NumAssign Batcher.

(** [lminer.SectorLocation]: deadline and partition. *)
Notation Location := (Z * Z)%type.

(** The rest of go-bitfield that is used, the calls of the node and the constants of the actors. *)
Class TermNode `{BatchNode} `{BitFields} := {
  bf_Copy : BitField -> outcome BitField;
  bf_IsSet : BitField -> Z -> outcome bool;
  bf_ForEach : BitField -> outcome (list Z); (* the calls of the callback *)
  NewIDAddress : Z -> reply Address;
  minerAddr : Address; (* [b.maddr] *)
  StateSectorPartition : Address -> Z -> node -> reply (option Location) * node;
  StateMinerProvingDeadline : node -> reply Z * node; (* the index *)
  StateMinerPartitions : Address -> Z -> node -> reply (list BitField) * node; (* the live sectors *)
  rangeLocs : list Location -> node -> list Location * node; (* the order in which [todo] is ranged over *)
  marshalTerminate : list (Location * BitField) -> reply bytes;
  WPoStPeriodDeadlines : Z;
  AddressedSectorsMax : Z;
  DeclarationsMax : Z;
}.

Record TBatcher `{BitFields} := {
  tb_todo : gmap Location BitField;
  tb_waiters : Waiters Cid;
  tb_notify : bool;
  tb_stopped : bool;
}.

Section terminate.
Context `{TermNode} `{BigOps}.

Notation TM := (BM TBatcher).

Definition newTBatcher : TBatcher := {| tb_todo := ∅; tb_waiters := newWaiters; tb_notify := false; tb_stopped := false |}.

Definition setTodo (m : gmap Location BitField) : TM unit :=
  b ← batcher; setBatcher {| tb_todo := m; tb_waiters := tb_waiters b; tb_notify := tb_notify b; tb_stopped := tb_stopped b |}.

(** Whether the deadline is the next, the current or the previous one. *)
Definition challenged (dlIndex deadline : Z) : bool :=
  (deadline =? u64 (dlIndex + 1) mod WPoStPeriodDeadlines) || (deadline =? dlIndex) || (u64 (deadline + 1) mod WPoStPeriodDeadlines =? dlIndex).

(** What is declared for a bucket, with its number of sectors; [None] is [continue]. *)
Definition declare (dlIndex total : Z) (loc : Location) : TM (option (Z * BitField)) :=
  b ← batcher;
  match tb_todo b !! loc with
  | None => mret None
  | Some sectors =>
      n ⇐ lift (bf_Count sectors) iferr _e => mret None;
      if challenged dlIndex loc.1 then mret None
      else if n <? 1 then mret None
      else
        toTerminate ⇐ lift (bf_Copy sectors) iferr _e => mret None;
        ps ⇐ ask (StateMinerPartitions minerAddr loc.1) iferr _e => mret None;
        live ⇐ lift (index ps loc.2) iferr _e => mret None;
        toTerminate ⇐ lift (bf_Intersect live toTerminate) iferr _e => mret None;
        if AddressedSectorsMax <? u64 (total + n) then
          let n := u64 (AddressedSectorsMax - total) in
          toTerminate ⇐ lift (bf_Slice toTerminate 0 n) iferr _e => mret None;
          s ⇐ lift (bf_Subtract sectors toTerminate) iferr _e => mret None;
          _ ← setTodo (<[loc := s]> (tb_todo b));
          mret (Some (n, toTerminate))
        else mret (Some (n, toTerminate))
  end.

Fixpoint declareLoop (cfg : BatchConfig) (dlIndex : Z) (locs : list Location) (total : Z) (terms : list (Location * BitField)) : TM (Z * list (Location * BitField)) :=
  match locs with
  | [] => mret (total, terms)
  | loc :: locs =>
      d ← declare dlIndex total loc;
      match d with
      | None => declareLoop cfg dlIndex locs total terms
      | Some (n, toTerminate) =>
          let total := u64 (total + n) in
          let terms := terms ++ [(loc, toTerminate)] in
          if (AddressedSectorsMax <=? total) || (TerminateBatchMax cfg <=? total) then mret (total, terms)
          else if DeclarationsMax <=? len terms then mret (total, terms)
          else declareLoop cfg dlIndex locs total terms
      end
  end.

Fixpoint tellAll (sns : list Z) (mcid : Cid) : TM unit :=
  match sns with
  | [] => mret tt
  | sn :: sns =>
      b ← batcher;
      ws ← orWaits (tellSector sn mcid (tb_waiters b));
      _ ← setBatcher {| tb_todo := tb_todo b; tb_waiters := ws; tb_notify := tb_notify b; tb_stopped := tb_stopped b |};
      tellAll sns mcid
  end.

(** After the message: the buckets are deleted and those that wait are told. *)
Fixpoint tellTerms (terms : list (Location * BitField)) (mcid : Cid) : TM (option string) :=
  match terms with
  | [] => mret None
  | (loc, sectors) :: terms =>
      b ← batcher;
      _ ← setTodo (delete loc (tb_todo b));
      sns ⇐ lift (bf_ForEach sectors) iferr e => mret (Some ("sectors foreach: " +:+ e));
      _ ← tellAll sns mcid;
      tellTerms terms mcid
  end.

Definition processBatch (notif after : bool) : TM (reply (option Cid)) :=
  dl ⇐ ask StateMinerProvingDeadline iferr e => mret (inl ("getting proving deadline info failed: " +:+ e));
  cfg ⇐ ask getConfig iferr e => mret (inl ("getting sealing config: " +:+ e));
  b ← batcher;
  locs ← ask (rangeLocs (map_to_list (tb_todo b)).*1);
  '(total, terms) ← declareLoop cfg dl locs 0 [];
  if bool_decide (terms = []) then mret (inr None)
  else if notif && (total <? TerminateBatchMax cfg) then mret (inr None)
  else if after && (total <? TerminateBatchMin cfg) then mret (inr None)
  else
    enc ⇐ mret (marshalTerminate terms) iferr e => mret (inl ("couldn't serialize TerminateSectors params: " +:+ e));
    mi ⇐ ask StateMinerInfo iferr e => mret (inl ("couldn't get miner info: " +:+ e));
    from ⇐ ask (AddressFor addrSel mi TerminateSectorsAddr MaxTerminateGasFee MaxTerminateGasFee) iferr e => mret (inl ("no good address found: " +:+ e));
    mcid ⇐ sendMsg from.1 MethodTerminateSectors (big_NewInt 0) MaxTerminateGasFee enc iferr e => mret (inl ("sending message failed: " +:+ e));
    err ← tellTerms terms mcid;
    mret (match err with Some e => inl e | None => inr (Some mcid) end).

(** Up to the wait: the channel it waits on, or that the sector is already terminated. *)
Definition AddTermination (miner number : Z) : TM (reply (option nat)) :=
  maddr ⇐ mret (NewIDAddress (u64 miner)) iferr e => mret (inl e);
  loc ⇐ ask (StateSectorPartition maddr number) iferr e => mret (inl ("getting sector location: " +:+ e));
  match loc with
  | None => mret (inl "sector location not found")
  | Some loc =>
      parts ⇐ ask (StateMinerPartitions maddr loc.1) iferr e => mret (inl ("getting partitions: " +:+ e));
      part ⇐ lift (index parts loc.2) iferr e => mret (inl e);
      live ⇐ lift (bf_IsSet part (u64 number)) iferr e => mret (inl ("checking if sector is in live set: " +:+ e));
      if negb live then mret (inr None)
      else
        b ← batcher;
        let bf := bf_Set (u64 number) (default bf_New (tb_todo b !! loc)) in
        let '(ch, ws) := newChan number (tb_waiters b) in
        _ ← setBatcher {| tb_todo := <[loc := bf]> (tb_todo b); tb_waiters := ws; tb_notify := true; tb_stopped := tb_stopped b |};
        mret (inr (Some ch))
  end.

(** One round of [run]; an error is only logged, and [Flush] gets what the batch gives. *)
Definition runT (wake : Wake) : TM (option Cid) :=
  b ← batcher;
  _ ← (match wake with
       | WNotified => setBatcher {| tb_todo := tb_todo b; tb_waiters := tb_waiters b; tb_notify := false; tb_stopped := tb_stopped b |}
       | _ => mret tt
       end : TM unit);
  lastMsg ← processBatch (match wake with WNotified => true | _ => false end) (match wake with WTimer => true | _ => false end);
  mret (match lastMsg with inr c => c | inl _ => None end).

Fixpoint pendingLoop (mid : Z) (bfs : list BitField) (rs : list (Z * Z)) : TM (reply (list (Z * Z))) :=
  match bfs with
  | [] => mret (inr rs)
  | bf :: bfs => ids ⇐ lift (bf_ForEach bf) iferr e => mret (inl e); pendingLoop mid bfs (rs ++ (pair mid <$> ids))
  end.

Definition Pending : TM (reply (list (Z * Z))) :=
  b ← batcher;
  mid ⇐ mret IDFromAddress iferr e => mret (inl e);
  locs ← ask (rangeLocs (map_to_list (tb_todo b)).*1);
  rs ⇐ pendingLoop mid (omap (fun l => tb_todo b !! l) locs) [] iferr e => mret (inl e);
  mret (inr (sortSlice sectorLess rs)).

Definition Stop : TM unit :=
  b ← batcher;
  if tb_stopped b then crash
  else setBatcher {| tb_todo := tb_todo b; tb_waiters := tb_waiters b; tb_notify := tb_notify b; tb_stopped := true |}.
End terminate.
