(* ===== verification/BatchCommitProps.v ===== *)
(** * The commit batcher: aggregates, single messages and answers

    [aggregates] says what an aggregate message has: the inputs of the prover in ascending order of
    the sectors, each with its proof, and the bitfield of the same sectors.  [singles] is about
    messages of one sector, and what they draw from the balance of the miner. *)

From stdpp Require Import gmap sorting.
From S2P Require Import Prelude TipSet CtlAddr SealingTypes Kv NumAssign Batcher BatcherProps PreCommitRuns BatchCommit.

Definition inNumber (i : AggregateInput) : Z := svi_Number (ai_Info i).

Definition inputOf (td : gmap Z AggregateInput) (sn : Z) : AggregateInput := default zeroInput (td !! sn).

Definition inputLess (a b : AggregateInput) : bool := inNumber a <? inNumber b.

Lemma sortInsert_fmap {A B} (f : A -> B) (less : B -> B -> bool) x l :
  sortInsert less (f x) (f <$> l) = f <$> sortInsert (fun a b => less (f a) (f b)) x l.
Proof. induction l as [|y l IH]; cbn; [done|]. destruct (less (f y) (f x)); cbn; [by rewrite IH|done]. Qed.

Lemma sortSlice_fmap {A B} (f : A -> B) (less : B -> B -> bool) l :
  sortSlice less (f <$> l) = f <$> sortSlice (fun a b => less (f a) (f b)) l.
Proof. induction l as [|x l IH]; [done|]. unfold sortSlice in *. cbn. fold (@fmap list _ A B f l). rewrite IH. apply sortInsert_fmap. Qed.

Lemma sort_ascending l : NoDup (inNumber <$> l) -> StronglySorted Z.lt (inNumber <$> sortSlice inputLess l).
Proof.
  intros Hnd. assert (Hs : StronglySorted (fun x y => inputLess y x = false) (sortSlice inputLess l)).
  { apply sortSlice_sorted; unfold inputLess; intros; zcases. }
  assert (Hn : NoDup (inNumber <$> sortSlice inputLess l)) by (by rewrite sortSlice_perm).
  clear Hnd. induction Hs as [|x k Hs IH Hx]; cbn in *; [constructor|]. apply NoDup_cons in Hn as [Hx' Hn]. constructor; [auto|].
  apply Forall_fmap, Forall_forall. intros y Hy. rewrite Forall_forall in Hx. specialize (Hx y Hy). unfold inputLess in Hx. cbn.
  assert (inNumber x <> inNumber y) by (intros E; apply Hx'; rewrite E; by apply list_elem_of_fmap_2). zcases.
Qed.

Section commit.
Context `{CommitNode} `{!BatchNodeOk} `{!CommitNodeOk} `{!BitFieldsOk} `{BigOpsOk}.

Notation CSt := (BSt (Batcher AggregateInput CommitBatchRes)).

(** The collateral that is missing for a sector. *)
Definition pledged (sn c : Z) : Prop :=
  exists tsk w pci w' pl, (StateSectorPreCommitInfo sn tsk w).1 = inr (Some pci) /\ (StateMinerInitialPledgeCollateral (poc_Info pci) tsk w').1 = inr pl /\
    c = Z.max 0 (pl - poc_PreCommitDeposit pci).

Definition aggregates (ins : list AggregateInput) (m : Sent) : Prop :=
  ins <> [] /\ StronglySorted Z.lt (inNumber <$> ins) /\ s_method m = MethodProveCommitAggregate /\
  s_maxFee m = FeeForSectors MaxCommitBatchGasFee (len ins) /\ fromMiner m /\
  (exists bf agg mid nv w, marshalCommitAggregate bf agg = inr (s_params m) /\ bits bf = list_to_set (inNumber <$> ins) /\
     (AggregateSealProofs mid (Spt (default zeroInput (head ins))) (if nv <? 16 then SnarkPackV1 else SnarkPackV2) (ai_Info <$> ins) (ai_Proof <$> ins) w).1 = inr agg) /\
  exists cfg nv bf fee ps, AggregateProveCommitNetworkFee nv (len ins) bf = inr fee /\ ps.*1 ≡ₚ inNumber <$> ins /\ Forall (fun p => pledged p.1 p.2) ps /\
    paid cfg (sumZ snd ps + fee * 110 / 100) (s_value m).

Definition provesOne (sn : Z) (i : AggregateInput) (m : Sent) : Prop :=
  marshalProveCommit sn (ai_Proof i) = inr (s_params m) /\ s_method m = MethodProveCommitSector /\ s_maxFee m = MaxCommitGasFee /\ fromMiner m /\
  0 <= s_value m.

Lemma getSectorCollateral_ok mw sn tsk (s : CSt) :
  wp mw (getSectorCollateral sn tsk) s (fun r s' => bat s' = bat s /\ sent s' = sent s /\ forall c, r = inr c -> pledged sn c).
Proof.
  unfold getSectorCollateral. apply wp_bind, wp_ask. intros w1. destruct (StateSectorPreCommitInfo sn tsk (wld s)).1 as [e|[pci|]] eqn:E1; [by apply wp_ret| |by apply wp_ret].
  apply wp_bind, wp_ask. intros w2. destruct (StateMinerInitialPledgeCollateral _ _ _).1 as [e|pl] eqn:E2; [by apply wp_ret|]. apply wp_ret. split_and!; [done..|].
  intros c [= <-]. eexists tsk, _, pci, _, pl. split_and!; [done..|]. autorewrite with bigs. zcases.
Qed.

(** ** Aggregates *)

(** What the loop collects: the sectors whose collateral is known, and the others with an error. *)
Lemma collectSectors_ok mw td tsk sns c0 (s : CSt) : Forall in_u64 sns -> NoDup sns ->
  wp mw (collectSectors td tsk sns c0) s (fun c s' => bat s' = bat s /\ sent s' = sent s /\ exists ps : list (Z * Z),
    sublist ps.*1 sns /\ Forall (fun p => pledged p.1 p.2) ps /\ c_infos c = c_infos c0 ++ ((fun sn => ai_Info (inputOf td sn)) <$> ps.*1) /\
    c_collateral c = c_collateral c0 + sumZ snd ps /\ bits (c_numbers c) = bits (c_numbers c0) ∪ list_to_set ps.*1 /\
    forall sn, is_Some (c_failed c !! sn) <-> is_Some (c_failed c0 !! sn) \/ sn ∈ sns /\ sn ∉ ps.*1).
Proof.
  revert c0 s. induction sns as [|sn sns IH]; intros c0 s Hu Hnd; cbn [collectSectors].
  { apply wp_ret. split_and!; [done..|]. exists []. cbn. rewrite app_nil_r. split_and!; [constructor|constructor|done|lia|by rewrite (right_id_L ∅ (∪))|].
    intros sn. rewrite elem_of_nil. tauto. }
  apply Forall_cons in Hu as [Hsn Hu]. apply NoDup_cons in Hnd as [Hni Hnd]. apply wp_bind. eapply wp_mono; [apply getSectorCollateral_ok|]. cbn beta.
  intros [e|sc] s1 (B1 & S1 & Hp); (eapply wp_mono; [by apply IH|]); cbn beta; cbn [c_infos c_collateral c_numbers c_failed];
    intros c s' (B' & S' & ps & Hsub & Hps & Hi & Hc & Hb & Hfl); (split_and!; [congruence..|]).
  - assert (Hnp : sn ∉ ps.*1) by (intros Hin; by apply Hni, (elem_of_sublist _ _ _ Hin Hsub)).
    exists ps. split_and!; try done; [by constructor|]. intros k. rewrite Hfl, lookup_insert_is_Some, elem_of_cons. clear -Hnp. destruct (decide (k = sn)) as [->|]; intuition congruence.
  - exists ((sn, sc) :: ps). cbn [fmap list_fmap fst]. split_and!.
    + by constructor.
    + constructor; [by apply Hp|done].
    + rewrite Hi, <- app_assoc. done.
    + rewrite Hc, sumZ_cons. autorewrite with bigs. cbn. lia.
    + rewrite Hb, u64_id, bits_Set, list_to_set_cons by (done || apply Hsn). by rewrite (comm_L (∪) {[sn]} (bits _)), (assoc_L (∪)).
    + intros k. rewrite Hfl, !elem_of_cons. clear -Hni. destruct (decide (k = sn)) as [->|]; intuition congruence.
Qed.

(** What comes of sectors: an aggregate, a message of one, a failure, nothing, or that of parts. *)
Inductive madeOf (td : gmap Z AggregateInput) : list Z -> list CommitBatchRes -> list Sent -> Prop :=
| mo_aggregate sns fl ins m :
    aggregates ins m -> (forall i, i ∈ ins -> td !! inNumber i = Some i /\ inNumber i ∈ sns) ->
    (forall sn, sn ∈ sns -> is_Some (fl !! sn) <-> sn ∉ inNumber <$> ins) ->
    madeOf td sns [{| cb_Sectors := sns; FailedSectors := fl; cb_Msg := Some (s_cid m); cb_Error := EmptyString |}] [m]
| mo_single sn i m : td !! sn = Some i -> provesOne sn i m ->
    madeOf td [sn] [{| cb_Sectors := [sn]; FailedSectors := ∅; cb_Msg := Some (s_cid m); cb_Error := EmptyString |}] [m]
| mo_failed sns fl e : madeOf td sns [{| cb_Sectors := sns; FailedSectors := fl; cb_Msg := None; cb_Error := e |}] []
| mo_kept sns : madeOf td sns [] []
| mo_parts sns1 sns2 rs1 rs2 ms1 ms2 : madeOf td sns1 rs1 ms1 -> madeOf td sns2 rs2 ms2 -> madeOf td (sns1 ++ sns2) (rs1 ++ rs2) (ms1 ++ ms2).

Lemma madeOf_sectors td sns rs ms : madeOf td sns rs ms -> sublist (rs ≫= cb_Sectors) sns.
Proof.
  induction 1 as [| | | |sns1 sns2 rs1 rs2 ms1 ms2 _ IH1 _ IH2]; cbn; rewrite ?app_nil_r; try done; [apply sublist_nil_l|].
  rewrite bind_app. by apply sublist_app.
Qed.

(** A result with a message was sent, and each of its sectors is in the message or has failed. *)
Definition within (r : CommitBatchRes) (m : Sent) : Prop :=
  (exists ins, aggregates ins m /\ forall sn, sn ∈ cb_Sectors r -> is_Some (FailedSectors r !! sn) <-> sn ∉ inNumber <$> ins) \/
  (exists sn i, cb_Sectors r = [sn] /\ FailedSectors r = ∅ /\ provesOne sn i m).

Lemma madeOf_msg td sns rs ms r c : madeOf td sns rs ms -> r ∈ rs -> cb_Msg r = Some c ->
  cb_Error r = EmptyString /\ exists m, m ∈ ms /\ s_cid m = c /\ within r m.
Proof.
  induction 1 as [sns fl ins m Ha Hi Hf|sn i m Ht Hp| | |sns1 sns2 rs1 rs2 ms1 ms2 _ IH1 _ IH2].
  - intros ->%list_elem_of_singleton [= <-]. split; [done|]. exists m. split_and!; [by apply list_elem_of_singleton|done|left; eauto].
  - intros ->%list_elem_of_singleton [= <-]. split; [done|]. exists m. split_and!; [by apply list_elem_of_singleton|done|right; eauto 6].
  - by intros ->%list_elem_of_singleton.
  - by intros ?%elem_of_nil.
  - intros [Hr|Hr]%elem_of_app Hc; [destruct (IH1 Hr Hc) as (? & m & ? & ? & ?)|destruct (IH2 Hr Hc) as (? & m & ? & ? & ?)];
      (split; [done|]); exists m; rewrite elem_of_app; auto.
Qed.

(** A message is an aggregate with a result that has its sectors, or of one sector. *)
Lemma madeOf_sent td sns rs ms m : madeOf td sns rs ms -> m ∈ ms ->
  (exists ins r, aggregates ins m /\ r ∈ rs /\ cb_Msg r = Some (s_cid m) /\ forall i, i ∈ ins -> td !! inNumber i = Some i /\ inNumber i ∈ cb_Sectors r) \/
  (exists sn i, provesOne sn i m).
Proof.
  induction 1 as [sns fl ins m' Ha Hi Hf|sn i m' Ht Hp| | |sns1 sns2 rs1 rs2 ms1 ms2 _ IH1 _ IH2].
  - intros ->%list_elem_of_singleton. left. eexists ins, _. split_and!; [done|by apply list_elem_of_singleton|done|done].
  - intros ->%list_elem_of_singleton. eauto.
  - by intros ?%elem_of_nil.
  - by intros ?%elem_of_nil.
  - intros [Hm|Hm]%elem_of_app; [destruct (IH1 Hm) as [(ins & r & ? & ? & ? & ?)|?]|destruct (IH2 Hm) as [(ins & r & ? & ? & ? & ?)|?]]; auto;
      left; exists ins, r; rewrite elem_of_app; auto.
Qed.

Definition cprocessed (td : gmap Z AggregateInput) (sns : list Z) (s : CSt) (r : list CommitBatchRes * option string) (s' : CSt) : Prop :=
  bat s' = bat s /\ exists ms, sent s' = sent s ++ ms /\ madeOf td sns r.1 ms /\ (r.2 <> None -> ms = []).

(** The inputs of an aggregate are those of the sectors that are known, in order. *)
Lemma aggregate_inputs td (kn : list Z) : (forall sn i, td !! sn = Some i -> inNumber i = sn) -> (forall sn, sn ∈ kn -> is_Some (td !! sn)) -> NoDup kn ->
  let ins := sortSlice inputLess (inputOf td <$> kn) in
  sortSlice (fun i j => svi_Number i <? svi_Number j) ((fun sn => ai_Info (inputOf td sn)) <$> kn) = ai_Info <$> ins /\
  ((fun info => ai_Proof (default zeroInput (td !! svi_Number info))) <$> (ai_Info <$> ins)) = ai_Proof <$> ins /\
  (inNumber <$> ins) ≡ₚ kn /\ StronglySorted Z.lt (inNumber <$> ins) /\ (forall i, i ∈ ins -> td !! inNumber i = Some i) /\ len ins = len kn.
Proof.
  intros Hnum Hdom Hnd ins.
  assert (Hin : forall i, i ∈ ins -> td !! inNumber i = Some i).
  { intros i. unfold ins. rewrite sortSlice_perm, list_elem_of_fmap. intros (sn & -> & Hsn). destruct (Hdom sn Hsn) as [j Hj]. unfold inputOf. rewrite Hj. cbn. by rewrite (Hnum sn j Hj). }
  assert (Hkn : inNumber <$> (inputOf td <$> kn) = kn).
  { rewrite <- list_fmap_compose. etrans; [|apply list_fmap_id]. apply list_fmap_ext. intros k sn Hk. destruct (Hdom sn) as [j Hj]; [by apply list_elem_of_lookup_2 in Hk|].
    unfold inputOf. cbn. rewrite Hj. cbn. apply (Hnum sn j Hj). }
  assert (Hperm : inNumber <$> ins ≡ₚ kn) by (unfold ins; rewrite sortSlice_perm; by rewrite Hkn).
  split_and!; try done.
  - rewrite (list_fmap_compose (inputOf td) ai_Info). apply (sortSlice_fmap ai_Info).
  - rewrite <- list_fmap_compose. apply list_fmap_ext. intros k i Hk. cbn. fold (inNumber i). rewrite Hin; [done|]. by apply list_elem_of_lookup_2 in Hk.
  - apply sort_ascending. by rewrite Hkn.
  - unfold len. apply Permutation_length in Hperm. rewrite length_fmap in Hperm. lia.
Qed.

Lemma processBatch_ok mw fuel cfg td sns (s : CSt) : sns <> [] -> (length sns <= fuel)%nat -> todo (bat s) = td ->
  (forall sn i, td !! sn = Some i -> inNumber i = sn) -> (forall sn, sn ∈ sns -> is_Some (td !! sn) /\ in_u64 sn) -> NoDup sns ->
  wp mw (processBatch fuel cfg sns) s (cprocessed td sns s).
Proof.
  intros Hne Hf Htd Hnum Hdom Hnd. revert sns s Hne Hf Htd Hdom Hnd. induction fuel as [|fuel IH]; intros sns s Hne Hf Htd Hdom Hnd; [destruct sns; [done|cbn in Hf; lia]|].
  cbn [processBatch].
  assert (Hkeep : forall x (s' : CSt), bat s' = bat s -> sent s' = sent s -> wp mw (mret ([], x)) s' (cprocessed td sns s)).
  { intros x s' B1 S1. apply wp_ret. split; [done|]. exists []. rewrite app_nil_r. split_and!; [done|constructor|done]. }
  assert (Hfail : forall fl e x (s' : CSt), bat s' = bat s -> sent s' = sent s ->
    wp mw (mret ([{| cb_Sectors := sns; FailedSectors := fl; cb_Msg := None; cb_Error := e |}], x)) s' (cprocessed td sns s)).
  { intros fl e x s' B1 S1. apply wp_ret. split; [done|]. exists []. rewrite app_nil_r. split_and!; [done|constructor|done]. }
  apply wp_bind, wp_ask. intros w1. destruct (ChainHead (wld s)).1 as [e|ts]; [by apply Hkeep|].
  apply wp_bind, wp_batcher. cbn [bat]. rewrite Htd. apply wp_bind. eapply wp_mono; [apply collectSectors_ok; [|done]; apply Forall_forall; intros sn Hsn; apply Hdom, Hsn|].
  cbn beta. intros c s2 (B2 & S2 & ps & Hsub & Hps & Hi & Hc & Hb & Hfl). cbn [c_infos c_collateral c_numbers c_failed bat sent] in *.
  case_bool_decide as Hinf; [by apply Hkeep|].
  assert (Hkn : NoDup ps.*1 /\ forall sn, sn ∈ ps.*1 -> is_Some (td !! sn)).
  { split; [by eapply sublist_NoDup|]. intros sn Hsn. apply Hdom. by eapply elem_of_sublist. }
  destruct (aggregate_inputs td ps.*1 Hnum (proj2 Hkn) (proj1 Hkn)) as (Hsi & Hpr & Hperm & Hasc & Hins & Hlen). set (ins := sortSlice inputLess _) in *.
  assert (Hspt : Spt (default zeroInput (match ai_Info <$> ins with i :: _ => td !! svi_Number i | [] => None end)) = Spt (default zeroInput (head ins))).
  { destruct ins as [|i l]; [done|]. cbn. fold (inNumber i). by rewrite Hins by constructor. }
  assert (Hne' : ins <> []).
  { intros E. apply Hinf. rewrite Hi. rewrite E in Hperm. apply Permutation_nil_l in Hperm. by rewrite <- Hperm. }
  rewrite app_nil_l in Hi. rewrite Hi, Hsi, Hpr, Hspt. unfold len. rewrite length_fmap. fold (len ins).
  apply wp_bind, wp_ret. destruct IDFromAddress as [e|mid]; [by apply Hfail|].
  apply wp_bind, wp_ask. intros w3. destruct (StateNetworkVersion _ _).1 as [e|nv]; [by apply Hfail|].
  apply wp_bind, wp_ret. unfold aggregateProofType. replace (if nv <? 16 then inr SnarkPackV1 else inr SnarkPackV2) with (inr (if nv <? 16 then SnarkPackV1 else SnarkPackV2) : reply Z) by (by destruct (nv <? 16)).
  apply wp_bind, wp_ask. intros w4. destruct (AggregateSealProofs _ _ _ _ _ _).1 as [e|agg] eqn:Eagg; [by apply Hfail|].
  apply wp_bind, wp_ret. destruct (marshalCommitAggregate (c_numbers c) agg) as [e|enc] eqn:Eenc; [by apply Hfail|].
  apply wp_bind, wp_ask. intros w5. destruct (StateMinerInfo _).1 as [e|mi] eqn:Emi; [by apply Hfail|].
  apply wp_bind, wp_ret. destruct (AggregateProveCommitNetworkFee nv (len ins) (bh_BaseFee ts)) as [e|fee] eqn:Efee; [by apply Hfail|].
  apply wp_bind. eapply wp_mono; [apply collateralSendAmount_ok|]. cbn beta. intros [e|need] s6 (B6 & S6 & Hpaid); cbn [bat sent] in B6, S6; [apply Hfail; congruence|].
  specialize (Hpaid _ eq_refl). apply wp_bind, wp_ask. intros w7. set (good := big_Add _ need).
  destruct (AddressFor_control addrSel mi CommitAddr good need (wld s6)) as (a & avail & Ea & Hctl). rewrite Ea. cbn [fst].
  unfold simulateMsgGas. apply wp_bind, wp_ask. intros w8. destruct (GasEstimateMessageGas _ _ _ _ _).1 as [|e oog].
  - unfold sendMsg. apply wp_bind, wp_bind, wp_ask. intros w9. destruct (MpoolPushMessage _ _ _ _ _ _).1 as [e|mc]; [apply wp_ret, Hfail; cbn; congruence|].
    cbn. apply wp_ret. split; [cbn; congruence|]. cbn. rewrite S6, S2. eexists [_]. split; [done|]. split; [|done]. apply (mo_aggregate td sns (c_failed c) ins {| s_cid := mc |}).
    + split_and!; cbn; try done; [by exists w4, mi| |].
      * exists (c_numbers c), agg, mid, nv, w3. split_and!; try done. rewrite Hb, bits_New, (left_id_L ∅ (∪)). apply set_eq. intros k. by rewrite !elem_of_list_to_set, Hperm.
      * exists cfg, nv, (bh_BaseFee ts), fee, ps. split_and!; try done. revert Hpaid. rewrite Hc. unfold withMargin. by autorewrite with bigs.
    + intros i Hi'. split; [by apply Hins|]. eapply elem_of_sublist, Hsub. rewrite <- Hperm. by apply list_elem_of_fmap_2.
    + intros sn Hsn. rewrite Hfl, Hperm, lookup_empty. split; [by intros [[? [=]]|[? ?]]|auto].
  - destruct (negb oog || _) eqn:Eo; [apply Hfail; cbn; congruence|]. apply orb_false_iff in Eo as [_ Hlen']. apply Z.ltb_ge in Hlen'.
    pose proof MinAggregatedSectors_pos as Hmin. unfold len in Hlen'.
    assert (Hl : (2 <= length sns)%nat) by lia.
    pose proof (Nat.div_lt (length sns) 2 ltac:(lia) ltac:(lia)). pose proof (Nat.div_le_lower_bound (length sns) 2 1 ltac:(lia) ltac:(lia)).
    assert (Hlt : forall l : list Z, (0 < length l)%nat -> l <> []) by (intros []; cbn; [lia|done]).
    rewrite <- (take_drop (length sns / 2) sns) in Hdom, Hnd. apply NoDup_app in Hnd as (Hnd1 & _ & Hnd2).
    apply wp_bind. eapply wp_mono; [apply IH; [apply Hlt; rewrite length_take; lia|rewrite length_take; lia|cbn; congruence|intros; apply Hdom, elem_of_app; by left|done]|].
    cbn beta. intros [rs1 e1] s9 (B9 & ms1 & S9 & M1 & _). cbn [bat sent fst] in *.
    apply wp_bind. eapply wp_mono; [apply IH; [apply Hlt; rewrite length_drop; lia|rewrite length_drop; lia|congruence|intros; apply Hdom, elem_of_app; by right|done]|].
    cbn beta. intros [rs2 e2] s10 (B10 & ms2 & S10 & M2 & _). cbn [fst] in *.
    apply wp_ret. split; [congruence|]. exists (ms1 ++ ms2). rewrite S10, S9, S6, S2, app_assoc. split_and!; [done| |done].
    rewrite <- (take_drop (length sns / 2) sns). by constructor.
Qed.

(** ** Messages of one sector *)

(** The results of sectors one by one, the messages, and what they draw from the balance. *)
Inductive singles (td : gmap Z AggregateInput) : list Z -> list CommitBatchRes -> list Sent -> Z -> Prop :=
| si_nil : singles td [] [] [] 0
| si_sent sn i m c sns rs ms d : td !! sn = Some i -> provesOne sn i m -> pledged sn c -> s_value m <= c -> singles td sns rs ms d ->
    singles td (sn :: sns) ({| cb_Sectors := [sn]; FailedSectors := ∅; cb_Msg := Some (s_cid m); cb_Error := EmptyString |} :: rs) (m :: ms) (c - s_value m + d)
| si_failed sn e sns rs ms d : singles td sns rs ms d ->
    singles td (sn :: sns) ({| cb_Sectors := [sn]; FailedSectors := {[sn := e]}; cb_Msg := None; cb_Error := EmptyString |} :: rs) ms d.

Lemma singles_madeOf td sns rs ms d : singles td sns rs ms d -> madeOf td sns rs ms.
Proof.
  induction 1 as [|sn i m c sns rs ms d Ht Hp _ _ _ IH|sn e sns rs ms d _ IH]; [constructor| |].
  - apply (mo_parts td [sn] sns [_] rs [m] ms); [|done]. by apply (mo_single td sn i m).
  - apply (mo_parts td [sn] sns [_] rs [] ms); [|done]. constructor.
Qed.

Lemma singles_proves td sns rs ms d m : singles td sns rs ms d -> m ∈ ms -> exists sn i, provesOne sn i m.
Proof. induction 1; rewrite ?elem_of_nil, ?elem_of_cons; naive_solver. Qed.

Lemma pledged_nonneg sn c : pledged sn c -> 0 <= c.
Proof. intros (tsk & w & pci & w' & pl & _ & _ & ->). lia. Qed.

(** The rest of the balance: what the message does not carry is taken from it, once. *)
Lemma processSingle_ok mw cfg mi avail sn i tsk (s : CSt) : 0 <= avail -> (exists w, (StateMinerInfo w).1 = inr mi) ->
  wp mw (processSingle cfg mi avail sn i tsk) s (fun r s' => bat s' = bat s /\ 0 <= r.2 <= avail /\
    match r.1 with
    | inl _ => sent s' = sent s
    | inr mc => exists m c, s_cid m = mc /\ sent s' = sent s ++ [m] /\ provesOne sn i m /\ pledged sn c /\ s_value m <= c /\ c - s_value m <= avail - r.2
    end).
Proof.
  intros Hav [wm Emi]. unfold processSingle. apply wp_bind, wp_ret. destruct (marshalProveCommit sn (ai_Proof i)) as [e|enc] eqn:Eenc; [apply wp_ret; cbn; split_and!; (done || lia)|].
  apply wp_bind. eapply wp_mono; [apply getSectorCollateral_ok|]. cbn beta. intros [e|c] s1 (B1 & S1 & Hp); [apply wp_ret; cbn; split_and!; (done || lia)|].
  specialize (Hp _ eq_refl). pose proof (pledged_nonneg _ _ Hp) as Hc.
  assert (Hpair : exists v av, (if bc_CollateralFromMinerBalance cfg then
      (if big_LessThan (big_Sub c avail) (big_NewInt 0) then big_NewInt 0 else big_Sub c avail,
       if big_LessThan (big_Sub avail c) (big_NewInt 0) then big_NewInt 0 else big_Sub avail c)
    else (c, avail)) = (v, av) /\ 0 <= v <= c /\ 0 <= av <= avail /\ c - v <= avail - av).
  { autorewrite with bigs. destruct (bc_CollateralFromMinerBalance cfg); [|exists c, avail; split; [done|lia]].
    destruct (Z.ltb_spec (c - avail) 0), (Z.ltb_spec (avail - c) 0); do 2 eexists; (split; [done|]); lia. }
  destruct Hpair as (v & av & -> & Hv & Hav' & Hd). apply wp_bind, wp_ask. intros w2.
  destruct (AddressFor_control addrSel mi CommitAddr (big_Add v MaxCommitGasFee) v (wld s1)) as (a & bal & Ea & Hctl). rewrite Ea. cbn [fst].
  unfold sendMsg. apply wp_bind, wp_bind, wp_ask. intros w3. destruct (MpoolPushMessage _ _ _ _ _ _).1 as [e|mc]; [apply wp_ret, wp_ret; cbn; split_and!; (done || lia)|].
  cbn. apply wp_ret. cbn. split_and!; [done|lia|lia|]. eexists _, c. split; [|split; [by rewrite <- S1|]]; [done|]. cbn. split; [|split_and!; (done || lia)]. split_and!; try done; cbn; [by exists wm, mi|lia].
Qed.

Lemma nextHead_ok spins h (s : CSt) : wp true (nextHead spins h) s (fun _ s' => bat s' = bat s /\ sent s' = sent s).
Proof.
  revert s. induction spins as [|spins IH]; intros s; cbn [nextHead]; [done|]. apply wp_bind, wp_ask. intros w. destruct (ChainHead _).1 as [e|tmp]; [by apply wp_ret|].
  destruct (_ <=? _); [|by apply wp_ret]. eapply wp_mono; [apply IH|]. done.
Qed.

Lemma individualLoop_ok mw spins cfg mi td l avail ts n rs0 (s : CSt) : (mw = false -> MaxSectorProveCommitsSubmittedPerEpoch cfg <= 0) -> 0 <= avail -> (exists w, (StateMinerInfo w).1 = inr mi) -> Forall (fun p => td !! p.1 = Some p.2) l ->
  wp mw (individualLoop spins cfg mi l avail ts n rs0) s (fun r s' => bat s' = bat s /\ exists l1 l2 rs ms d,
    l = l1 ++ l2 /\ sent s' = sent s ++ ms /\ singles td l1.*1 rs ms d /\ d <= avail /\ (r = (rs0 ++ rs, None) /\ l2 = [] \/ r.1 = [] /\ r.2 <> None)).
Proof.
  intros Hlim Hav Hmi. revert avail ts n rs0 s Hav. induction l as [|[sn i] l IH]; intros avail ts n rs0 s Hav Hl; cbn [individualLoop].
  { apply wp_ret. split; [done|]. exists [], [], [], [], 0. rewrite !app_nil_r. split_and!; [done|done|constructor|done|by left]. }
  apply Forall_cons in Hl as [Hi Hl]. apply wp_bind.
  eapply (wp_mono _ _ _ (fun (_ : reply (BatchHead * Z)) s' => bat s' = bat s /\ sent s' = sent s)).
  { destruct (Z.ltb_spec 0 (MaxSectorProveCommitsSubmittedPerEpoch cfg)); [|by apply wp_ret]. destruct mw; [|specialize (Hlim eq_refl); lia]. cbn [andb].
    destruct (_ <=? _); [|by apply wp_ret]. apply wp_bind. eapply wp_mono; [apply nextHead_ok|]. cbn beta. intros [e|tmp] s1 [? ?]; by apply wp_ret. }
  intros [e|[ts' n']] s1 [B1 S1].
  { apply wp_ret. split; [done|]. exists [], ((sn, i) :: l), [], [], 0. rewrite app_nil_r. split_and!; [done|done|constructor|done|by right]. }
  apply wp_bind. eapply wp_mono; [by apply processSingle_ok|]. cbn beta. intros [[e|mc] av] s2 (B2 & Hav2 & Hs2); cbn [fst snd] in *; (eapply wp_mono; [apply IH; [lia|done]|]); cbn beta;
    intros r s' (B' & l1 & l2 & rs & ms & d & -> & S' & Hs & Hd & Hr); (split; [congruence|]).
  - eexists ((sn, i) :: l1), l2, (_ :: rs), ms, d. split_and!; [done|congruence|by constructor|lia|]. rewrite <- app_assoc in Hr. exact Hr.
  - destruct Hs2 as (m & c & <- & S2 & Hp & Hc & Hv & Hdr). eexists ((sn, i) :: l1), l2, (_ :: rs), (m :: ms), (c - s_value m + d).
    split_and!; [done|by rewrite S', S2, S1, <- app_assoc|by eapply si_sent|lia|]. rewrite <- app_assoc in Hr. exact Hr.
Qed.
End commit.
