(* ===== verification/CommitRuns.v ===== *)
(** * Runs of the commit batcher

    Calls of [AddCommit], rounds of the goroutine, callers that take their answers and one [Stop],
    in any order, with a node that answers anything.  A round may wait for ever for the next head
    if the number of messages per epoch is limited. *)

From stdpp Require Import gmap sorting.
From S2P Require Import Prelude TipSet CtlAddr SealingTypes Kv NumAssign Batcher BatcherProps PreCommitRuns BatchCommit BatchCommitProps.

Section rounds.
Context `{CommitNode} `{!BatchNodeOk} `{!CommitNodeOk} `{!BitFieldsOk} `{BigOpsOk}.

Notation CSt := (BSt (Batcher AggregateInput CommitBatchRes)).

Definition ctold (s : CSt) : list (nat * CommitBatchRes) := told (waiters (bat s)).

Definition cok (b : Batcher AggregateInput CommitBatchRes) : Prop := bok inNumber cb_Sectors b /\ forall k, is_Some (todo b !! k) -> in_u64 k.

(** A message is of one sector or an aggregate, and then those that waited for its sectors were
    told of it; who was told of a message was told without an error, and the message was sent and
    has its sector, unless the sector is told to have failed. *)
Record cmessages (s : CSt) : Prop := {
  cm_sent m : m ∈ sent s ->
    (exists ins, aggregates ins m /\ forall i, i ∈ ins -> exists ch r, (ch, r) ∈ ctold s /\ owner (waiters (bat s)) ch = Some (inNumber i) /\ cb_Msg r = Some (s_cid m)) \/
    (exists sn i, provesOne sn i m);
  cm_told ch r c : (ch, r) ∈ ctold s -> cb_Msg r = Some c -> cb_Error r = EmptyString /\ exists m, m ∈ sent s /\ s_cid m = c /\ within r m;
}.

Definition cgood (s : CSt) : Prop := cok (bat s) /\ cmessages s.

Lemma cmessages_ext (s s' : CSt) : ctold s' = ctold s -> sent s' = sent s ->
  (forall ch sn, owner (waiters (bat s)) ch = Some sn -> owner (waiters (bat s')) ch = Some sn) -> cmessages s -> cmessages s'.
Proof.
  intros Ht Hs Ho [M1 M2]. split; rewrite ?Ht, ?Hs; [|done].
  intros m Hm. destruct (M1 m Hm) as [(ins & Ha & Hi)|?]; [left|by right]. exists ins. split; [done|]. intros i Hin. destruct (Hi i Hin) as (ch & r & ? & ? & ?). eauto 10.
Qed.

Lemma cgood_ext (s s' : CSt) : bat s' = bat s -> sent s' = sent s -> cgood s -> cgood s'.
Proof. intros E1 E2 [Hp Hm]. split; [by rewrite E1|]. apply (cmessages_ext s); unfold ctold; rewrite ?E1; done. Qed.

(** Messages of one sector may be sent before an error ends the batch. *)
Lemma cmessages_singles (s s' : CSt) td sns rs ms d : bat s' = bat s -> sent s' = sent s ++ ms -> singles td sns rs ms d -> cmessages s -> cmessages s'.
Proof.
  intros B1 S1 Hs [M1 M2]. split; unfold ctold; rewrite ?B1, S1.
  - intros m [Hm|Hm]%elem_of_app; [by apply M1|]. right. by eapply singles_proves.
  - intros ch r c Hr Hc. destruct (M2 ch r c Hr Hc) as (? & m & ? & ? & ?). split; [done|]. exists m. rewrite elem_of_app. auto.
Qed.

(** The results of a batch are told. *)
Lemma cmessages_told (s1 s2 s3 : CSt) sns rs err ms : cok (bat s1) -> cmessages s1 -> bat s2 = bat s1 -> sent s2 = sent s1 ++ ms ->
  madeOf (todo (bat s1)) sns rs ms -> (err <> None -> ms = []) ->
  spread inNumber cb_Sectors (adjust cb_setError err <$> rs) (rs ≫= cb_Sectors) s2 s3 ->
  (forall r sn ch, r ∈ rs -> sn ∈ cb_Sectors r -> ch ∈ default [] (waiting (waiters (bat s2)) !! sn) -> (ch, adjust cb_setError err r) ∈ ctold s3) ->
  cmessages s3.
Proof.
  intros [Hok _] [M1 M2] B2 S2 Hmo Herr Hsp Hcov. pose proof (sp_told _ _ _ _ _ _ Hsp) as (ext & Et & Hext). fold (ctold s3) in Et. rewrite B2 in Et, Hcov. fold (ctold s1) in Et.
  assert (Ho : forall ch, owner (waiters (bat s3)) ch = owner (waiters (bat s1)) ch) by (intros; rewrite (sp_owner _ _ _ _ _ _ Hsp); by rewrite B2).
  pose proof (sp_sent _ _ _ _ _ _ Hsp) as S3. rewrite S2 in S3.
  assert (Hadj : forall r c, r ∈ rs -> cb_Msg (adjust cb_setError err r) = Some c -> err = None).
  { intros r c Hr Hc. destruct err as [e|]; [|done]. destruct (madeOf_msg _ _ _ _ r c Hmo Hr Hc) as (_ & m & Hm & _). rewrite Herr in Hm by done. by apply elem_of_nil in Hm. }
  split.
  - intros m. rewrite S3. intros [Hm|Hm]%elem_of_app.
    + destruct (M1 m Hm) as [(ins & Ha & Hi)|?]; [left|by right]. exists ins. split; [done|]. intros i Hin. destruct (Hi i Hin) as (ch & r & ? & ? & ?).
      exists ch, r. rewrite Et, Ho, elem_of_app. auto.
    + destruct (madeOf_sent _ _ _ _ m Hmo Hm) as [(ins & r & Ha & Hr & Hmsg & Hi)|?]; [left|by right]. exists ins. split; [done|]. intros i Hin. destruct (Hi i Hin) as [Ht Hs].
      assert (err = None) as -> by (destruct err; [|done]; rewrite Herr in Hm by done; by apply elem_of_nil in Hm).
      destruct (someone_waits _ _ _ (inNumber i) Hok) as [ch Hch]; [rewrite Ht; eauto|].
      exists ch, r. rewrite Ho. split_and!; [by apply (Hcov r (inNumber i))|by apply (waiting_owner inNumber cb_Sectors)|done].
  - intros ch r c. rewrite Et, S3. intros [Hr|Hr]%elem_of_app Hc.
    + destruct (M2 ch r c Hr Hc) as (? & m & ? & ? & ?). split; [done|]. exists m. rewrite elem_of_app. auto.
    + apply Hext in Hr. cbn in Hr. apply list_elem_of_fmap in Hr as (r' & -> & Hr). pose proof (Hadj r' c Hr Hc) as ->.
      destruct (madeOf_msg _ _ _ _ r' c Hmo Hr Hc) as (? & m & ? & ? & ?). split; [done|]. exists m. rewrite elem_of_app. auto.
Qed.

(** What messages of one sector may draw: the balance the miner has over the buffer. *)
Definition draws (d : Z) : Prop :=
  exists cfg, if bc_CollateralFromMinerBalance cfg && negb (bc_DisableCollateralFallback cfg)
              then exists w avail, (StateMinerAvailableBalance w).1 = inr avail /\ d <= Z.max 0 (avail - bc_AvailableBalanceBuffer cfg)
              else d <= TotalFilecoinInt.

(** One by one: all sectors, or an error before the end, after which the messages that were sent have no result. *)
Definition oneByOne (td : gmap Z AggregateInput) (s : CSt) (r : list CommitBatchRes * option string) (s' : CSt) : Prop :=
  bat s' = bat s /\ exists sns rs ms d, sent s' = sent s ++ ms /\ singles td sns rs ms d /\ NoDup sns /\
    (r = (rs, None) /\ (forall k, k ∈ sns <-> is_Some (td !! k)) /\ draws d \/ r.1 = [] /\ r.2 <> None).

Lemma processIndividually_ok mw spins cfg (s : CSt) : (mw = false -> MaxSectorProveCommitsSubmittedPerEpoch cfg <= 0) ->
  wp mw (processIndividually spins cfg) s (oneByOne (todo (bat s)) s).
Proof.
  intros Hlim. unfold processIndividually.
  assert (Hno : forall e (s' : CSt), bat s' = bat s -> sent s' = sent s -> wp mw (mret ([], Some e)) s' (oneByOne (todo (bat s)) s)).
  { intros e s' B1 S1. apply wp_ret. split; [done|]. exists [], [], [], 0. rewrite app_nil_r. split_and!; [done|constructor|constructor|by right]. }
  apply wp_bind, wp_ask. intros w1. destruct (StateMinerInfo (wld s)).1 as [e|mi] eqn:Emi; [by apply Hno|]. apply wp_bind.
  eapply (wp_mono _ _ _ (fun (r : reply Z) s' => bat s' = bat s /\ sent s' = sent s /\ forall av, r = inr av -> 0 <= av /\ forall d, d <= av -> draws d)).
  { unfold draws. destruct (_ && _) eqn:Eb; [|apply wp_ret; split_and!; [done..|]; intros av [= <-]; split; [done|]; intros d Hd; exists cfg; by rewrite Eb].
    apply wp_bind, wp_ask. intros w2. destruct (StateMinerAvailableBalance _).1 as [e|av] eqn:Ea; apply wp_ret; (split_and!; [done..|]); [done|]. intros av' [= <-].
    autorewrite with bigs. split; [zcases|]. intros d Hd. exists cfg. rewrite Eb. eexists _, av. split; [exact Ea|]. revert Hd. zcases. }
  intros [e|av] s2 (B2 & S2 & Hav); [by apply Hno|]. destruct (Hav av eq_refl) as [Hpos Hdr].
  apply wp_bind, wp_ask. intros w3. destruct (ChainHead _).1 as [e|ts]; [by apply Hno|]. apply wp_bind, wp_batcher, wp_bind, wp_ask. intros w4. cbn [bat wld sent].
  rewrite B2. set (td := todo (bat s)). set (keys := (rangeMap _ _).1). set (l := omap _ keys).
  assert (Hk : forall k, k ∈ keys <-> is_Some (td !! k)) by (intros k; apply rangeMap_keys).
  assert (Hl : l.*1 = keys /\ Forall (fun p => td !! p.1 = Some p.2) l).
  { unfold l. assert (Hs : forall k, k ∈ keys -> is_Some (td !! k)) by (intros; by apply Hk). clear -Hs. induction keys as [|k keys IH]; [by split|]. cbn.
    destruct (Hs k) as [i Hi]; [constructor|]. rewrite Hi. cbn. destruct IH as [IH1 IH2]; [intros; apply Hs; by constructor|]. split; [by f_equal|by constructor]. }
  destruct Hl as [Hl1 Hl2]. eapply wp_mono; [apply (individualLoop_ok _ _ _ _ td); [done|done|by exists (wld s)|done]|]. cbn beta.
  intros r s' (B' & l1 & l2 & rs & ms & d & El & S' & Hs & Hd & Hr). cbn [bat sent] in *. split; [congruence|]. exists l1.*1, rs, ms, d.
  assert (Hnd : NoDup l.*1) by (rewrite Hl1; apply rangeMap_NoDup). split_and!; [congruence|done| |].
  - rewrite El, fmap_app in Hnd. by apply NoDup_app in Hnd as [? _].
  - destruct Hr as [[-> ->]|?]; [left|by right]. rewrite app_nil_r in El. subst l1. rewrite Hl1. split_and!; [done|done|by apply Hdr].
Qed.

(** What a batch leaves: the sectors of its results are removed and those that waited for them were
    told; the others stay.  It was made of aggregates, or one by one. *)
Definition crounded (s : CSt) (r : list CommitBatchRes * option string) (s' : CSt) : Prop :=
  cgood s' /\ stopped (bat s') = stopped (bat s) /\
  (forall k, todo (bat s') !! k = if decide (k ∈ r.1 ≫= cb_Sectors) then None else todo (bat s) !! k) /\
  (forall sn ch, sn ∈ r.1 ≫= cb_Sectors -> ch ∈ default [] (waiting (waiters (bat s)) !! sn) -> ch ∈ (ctold s').*1) /\
  exists ms, sent s' = sent s ++ ms /\
    ((exists sns, madeOf (todo (bat s)) sns r.1 ms) \/
     (exists sns rs d, singles (todo (bat s)) sns rs ms d /\ (r.1 = rs /\ todo (bat s') = ∅ /\ draws d \/ r.1 = [] /\ r.2 <> None))).

Lemma cb_setError_sectors e r : cb_Sectors (cb_setError e r) = cb_Sectors r.
Proof. done. Qed.

Lemma crounded_idle (s s' : CSt) err : cgood s -> bat s' = bat s -> sent s' = sent s -> crounded s ([], err) s'.
Proof.
  intros Hg B1 S1. split_and!; [by apply (cgood_ext s)|by rewrite B1|by rewrite B1|by intros ? ? ?%elem_of_nil|].
  exists []. rewrite app_nil_r. split; [done|]. left. exists []. constructor.
Qed.

(** The results are told, if there are some. *)
Lemma tell_ok mw (s s2 : CSt) sns rs err ms : cgood s -> bat s2 = bat s -> sent s2 = sent s ++ ms -> madeOf (todo (bat s)) sns rs ms -> NoDup sns -> (err <> None -> ms = []) ->
  wp mw (tellResults cb_Sectors cb_setError err rs) s2 (fun _ s3 => cgood s3 /\ stopped (bat s3) = stopped (bat s) /\ sent s3 = sent s ++ ms /\
    (forall k, todo (bat s3) !! k = if decide (k ∈ rs ≫= cb_Sectors) then None else todo (bat s) !! k) /\
    (forall sn ch, sn ∈ rs ≫= cb_Sectors -> ch ∈ default [] (waiting (waiters (bat s)) !! sn) -> ch ∈ (ctold s3).*1)).
Proof.
  intros [[Hok Hu] Hms] B2 S2 Hmo Hnd Herr. eapply wp_mono.
  { apply (tellResults_ok inNumber _ _ cb_setError_sectors); [by rewrite B2|]. by eapply sublist_NoDup, madeOf_sectors. }
  cbn beta. intros _ s3 [Hsp Hcov].
  assert (Htd : forall k, todo (bat s3) !! k = if decide (k ∈ rs ≫= cb_Sectors) then None else todo (bat s) !! k) by (intros k; rewrite (sp_todo _ _ _ _ _ _ Hsp); by rewrite B2).
  split_and!; try done.
  - split; [split; [apply Hsp|]|by eapply cmessages_told]. intros k. rewrite Htd. case_decide; [by intros []|apply Hu].
  - rewrite (sp_stop _ _ _ _ _ _ Hsp). by rewrite B2.
  - rewrite (sp_sent _ _ _ _ _ _ Hsp). done.
  - intros sn ch (r & Hsn & Hr)%list_elem_of_bind Hch. apply list_elem_of_fmap. exists (ch, adjust cb_setError err r). split; [done|]. apply (Hcov r sn); [done..|]. by rewrite B2.
Qed.

(** The number of messages per epoch is not limited. *)
Definition unlimited : Prop := forall w cfg, (getConfig w).1 = inr cfg -> MaxSectorProveCommitsSubmittedPerEpoch cfg <= 0.

Lemma commitBatch_ok mw spins notif (s : CSt) : (mw = false -> unlimited) -> cgood s -> wp mw (BatchCommit.maybeStartBatch spins notif) s (crounded s).
Proof.
  intros Hlim Hg. unfold BatchCommit.maybeStartBatch. apply wp_bind, wp_batcher. destruct (Z.eqb_spec (Z.of_nat (size (todo (bat s)))) 0) as [Hz|Hz]; [by apply wp_ret, crounded_idle|].
  apply wp_bind, wp_ask. intros w1. destruct (getConfig _).1 as [e|cfg] eqn:Ecfg; [by apply wp_ret, crounded_idle|]. destruct (notif && _); [by apply wp_ret, crounded_idle|].
  apply wp_bind, wp_ask. intros w2. destruct (ChainHead _).1 as [e|ts]; [by apply wp_ret, crounded_idle|].
  apply wp_bind. match goal with |- context [if ?b then processIndividually _ _ else _] => destruct b end.
  - eapply wp_mono; [apply processIndividually_ok; intros Hmw; by eapply (Hlim Hmw)|]. cbn beta. intros [rs err] s2 (B2 & sns & rs' & ms & d & S2 & Hs & Hnd & Hr). cbn [bat sent fst snd] in *.
    destruct Hr as [([= -> ->] & Hk & Hd)|[-> Herr]].
    + rewrite (bool_decide_false (None <> None)) by (intros Hn; by apply Hn). cbn [andb]. apply wp_bind. pose proof (singles_madeOf _ _ _ _ _ Hs) as Hmo.
      eapply wp_mono; [by eapply (tell_ok _ s)|]. cbn beta. intros _ s3 (Hg3 & Hst & S3 & Htd & Hcov). apply wp_ret. split_and!; try done. exists ms. split; [done|]. right. exists sns, rs', d. split; [done|].
      left. split_and!; [done| |done]. apply map_empty. intros k. rewrite Htd. case_decide as Hin; [done|]. apply eq_None_not_Some. rewrite <- Hk. intros Hks. apply Hin.
      clear -Hs Hks. induction Hs as [|sn i m c sns rs ms d _ _ _ _ _ IH|sn e sns rs ms d _ IH]; [by apply elem_of_nil in Hks|..]; apply elem_of_cons in Hks as [->|Hks]; cbn; constructor; auto.
    + rewrite (bool_decide_true (err <> None)), (bool_decide_true ([] = [])) by done. cbn [andb]. apply wp_ret. destruct Hg as [Hok Hms].
      split_and!; [split; [by rewrite B2|by eapply cmessages_singles]|by rewrite B2|by rewrite B2|by intros ? ? ?%elem_of_nil|]. exists ms. split; [done|]. right. exists sns, rs', d. auto.
  - apply wp_bind, wp_ask. intros w3. cbn [bat wld sent]. set (keys := (rangeMap _ _).1).
    assert (Hk : forall k, k ∈ keys <-> is_Some (todo (bat s) !! k)) by (intros k; apply rangeMap_keys).
    assert (Hnd : NoDup keys) by apply rangeMap_NoDup.
    eapply wp_mono; [apply (processBatch_ok _ _ _ (todo (bat s))); [|lia|done|apply (b_num _ _ _ (proj1 (proj1 Hg)))|intros sn Hsn; split; [by apply Hk|apply (proj2 (proj1 Hg)); by apply Hk]|done]|].
    { intros E0. apply Hz. rewrite (proj2 (map_size_empty_iff (todo (bat s)))); [done|]. apply map_empty. intros k. apply eq_None_not_Some. rewrite <- Hk, E0. apply not_elem_of_nil. }
    cbn beta. intros [rs err] s2 (B2 & ms & S2 & Hmo & Herr). cbn [bat sent fst snd] in *. destruct (bool_decide (err <> None) && bool_decide (rs = [])) eqn:Eb.
    + apply andb_true_iff in Eb as [He Hr]. apply bool_decide_eq_true in He, Hr. rewrite (Herr He), app_nil_r in S2. by apply wp_ret, crounded_idle.
    + apply wp_bind. eapply wp_mono; [by eapply (tell_ok _ s)|]. cbn beta. intros _ s3 (Hg3 & Hst & S3 & Htd & Hcov). apply wp_ret. split_and!; try done. exists ms. split; [done|]. left. eauto.
Qed.
End rounds.

(** ** Runs *)

Inductive CommitEvent :=
| CAdd (s : SectorInfo) (in_ : AggregateInput)
| CRun (spins : nat) (wake : Wake)
| CReceive (ch : nat)
| CStop.

(** The input is that of the sector. *)
Definition CommitEvent_ok (ev : CommitEvent) : Prop :=
  match ev with CAdd s in_ => inNumber in_ = SectorNumber s /\ in_u64 (SectorNumber s) | _ => True end.

Definition cstops (ev : CommitEvent) : Z := match ev with CStop => 1 | _ => 0 end.

Section runs.
Context `{CommitNode} `{BigOps}.

Notation CSt := (BSt (Batcher AggregateInput CommitBatchRes)).
Notation CM := (BM (Batcher AggregateInput CommitBatchRes)).

Definition commitStep (cfg : BatchConfig) (ev : CommitEvent) : CM unit :=
  match ev with
  | CAdd s in_ => _ ← AddCommit s in_; mret tt
  | CRun spins wake => _ ← BatchCommit.run spins cfg wake; mret tt
  | CReceive ch => _ ← takeAnswer ch; mret tt
  | CStop => Stop
  end.

Definition commitRun (cfg : BatchConfig) : list CommitEvent -> CM unit := runAll (commitStep cfg).

Definition commitStart (w : node) : CSt := {| bat := newBatcher; wld := w; sent := [] |}.

Context `{!BatchNodeOk} `{!CommitNodeOk} `{!BitFieldsOk} `{!BigOpsOk}.

Lemma cgood_same (s s' : CSt) : sameMaps (bat s) (bat s') -> sent s' = sent s -> cgood s -> cgood s'.
Proof.
  intros Hb Hs [[Hp Hu] Hm]. pose proof Hb as (_ & Ht & Hw). split; [split; [by eapply bok_same|by rewrite Ht]|]. apply (cmessages_ext s); unfold ctold; rewrite ?Hw; done.
Qed.

Lemma getCommitCutoff_ok mw si (s : CSt) : wp mw (getCommitCutoff si) s (fun _ s' => bat s' = bat s /\ sent s' = sent s).
Proof.
  unfold getCommitCutoff. apply wp_bind, wp_ask. intros w1. destruct (ChainHead _).1; [by apply wp_ret|]. apply wp_bind, wp_ask. intros w2.
  destruct (StateNetworkVersion _ _).1; [by apply wp_ret|]. apply wp_bind, wp_ask. intros w3. destruct (StateSectorPreCommitInfo _ _ _).1 as [|[pci|]]; [by apply wp_ret| |by apply wp_ret].
  apply wp_bind, wp_ret. destruct (VersionForNetwork _); [by apply wp_ret|]. apply wp_bind, wp_ret. destruct (GetMaxProveCommitDuration _ _); [by apply wp_ret|].
  apply wp_bind, wp_ask. intros w4. by apply wp_ret.
Qed.

Lemma AddCommit_ok mw si in_ (s : CSt) : cgood s -> inNumber in_ = SectorNumber si -> in_u64 (SectorNumber si) ->
  wp mw (AddCommit si in_) s (fun r s' => cgood s' /\ stopped (bat s') = stopped (bat s) /\
    match r with
    | inl _ => bat s' = bat s
    | inr ch => ch ∈ default [] (waiting (waiters (bat s')) !! SectorNumber si) /\ todo (bat s') = <[SectorNumber si := in_]> (todo (bat s))
    end).
Proof.
  intros Hg Hn Hu. unfold AddCommit. apply wp_bind. eapply wp_mono; [apply getCommitCutoff_ok|]. cbn beta. intros [e|cu] s1 [B1 S1].
  { apply wp_ret. rewrite B1. split_and!; try done. by apply (cgood_ext s). }
  apply wp_bind. eapply wp_mono; [apply (register_ok inNumber cb_Sectors); [|exact Hn]; rewrite B1; apply Hg|]. cbn beta.
  intros ch s' (Hok & _ & S' & Ht & Ho & _ & Hch & Htd & Hst). rewrite B1 in Ht, Ho, Htd, Hst. apply wp_ret. split_and!; try done.
  split; [split; [done|]|].
  - intros k. rewrite Htd, lookup_insert_is_Some. intros [<-|[_ Hk]]; [done|]. by apply (proj2 (proj1 Hg)).
  - apply (cmessages_ext s); [done|congruence|done|apply Hg].
Qed.

Lemma commitStep_ok mw cfg ev (s : CSt) : (mw = false -> unlimited) -> cgood s -> CommitEvent_ok ev -> (stopped (bat s) = true -> cstops ev = 0) ->
  wp mw (commitStep cfg ev) s (fun _ s' => cgood s' /\ (stopped (bat s') = true -> stopped (bat s) = true \/ cstops ev = 1)).
Proof.
  intros Hlim Hg Hev Hst. destruct ev as [si in_|spins wake|ch|]; cbn [commitStep].
  - destruct Hev. apply wp_bind. eapply wp_mono; [by apply AddCommit_ok|]. cbn beta. intros r s' (? & Hs & _). apply wp_ret. rewrite Hs. auto.
  - apply wp_bind. eapply wp_mono; [apply (runRound_ok cgood mw); [apply cgood_same| |done]|].
    + intros notif s1 Hg1. eapply wp_mono; [by apply commitBatch_ok|]. cbn beta. intros r s2 (? & ? & _). done.
    + cbn beta. intros r s' [? Hs]. apply wp_ret. rewrite Hs. auto.
  - apply wp_bind. eapply wp_mono; [apply takeAnswer_ok, Hg|]. cbn beta. intros r s' (Hok & Hs & Htd & Hs' & Ht & Ho). apply wp_ret. rewrite Hs'.
    split; [|by left]. split; [split; [done|rewrite Htd; apply Hg]|]. apply (cmessages_ext s); [done|done|intros c sn; by rewrite Ho|apply Hg].
  - apply wp_bind, wp_batcher. cbn in Hst. destruct (stopped (bat s)); [by specialize (Hst eq_refl)|]. apply wp_setBatcher. split; [by apply (cgood_same s)|by right].
Qed.

Lemma cstops_01 ev : cstops ev = 0 \/ cstops ev = 1.
Proof. destruct ev; auto. Qed.

End runs.

(** ** Examples *)

Definition demoCommit (o : DemoOpts) : @CommitNode (demoNode o) setFields :=
  @Build_CommitNode (demoNode o) setFields
    (fun _ _ _ infos proofs w => (inr (concat proofs), w))
    (fun bf agg => inr [Z.of_nat (size bf) * 1000 + sumZ id agg])
    (fun sn _ => inr [sn])
    2 (-1) 0 1.

Lemma demoCommit_ok o : @CommitNodeOk (demoNode o) setFields (demoCommit o).
Proof. by constructor. Qed.

Definition demoCAdd (n : Z) : CommitEvent :=
  CAdd (set_SectorNumber n zeroSectorInfo) {| Spt := 8; ai_Info := {| svi_Number := n; svi_rest := "rest" |}; ai_Proof := [n] |}.

Notation demoCommitRunFrom w o evs := (@commitRun (demoNode o) setFields (demoCommit o) ZBig (demoConfig o) evs (@commitStart (demoNode o) w)).
Notation demoCommitRun o evs := (demoCommitRunFrom 0 o evs).

(** Two sectors in one aggregate. *)
Definition demoCommits : list CommitEvent := [demoCAdd 8; demoCAdd 7; CRun 0 WForced; CReceive 1; CStop].


(** A head that is not known ends a batch of messages of one sector without results: the message
    that was sent is sent again by the next batch. *)
Lemma sent_twice :
  let o := {| o_balance := false; o_min := 3; o_limit := 1; o_down := true; o_known := true |} in
  exists s, demoCommitRun o [demoCAdd 7; demoCAdd 8; CRun 3 WForced; CRun 3 WForced] = (Done tt, s) /\ (s_params <$> sent s) = [[7]; [7]; [8]].
Proof. intros o. eexists. split; [vm_compute; reflexivity|]. done. Qed.

(** If no sector of an aggregate is found on the chain there is no result: a forced batch ends
    without an error, and those that wait are not told. *)
Lemma none_found :
  let o := {| o_balance := false; o_min := 2; o_limit := 0; o_down := false; o_known := false |} in
  exists s, demoCommitRunFrom (-2) o [demoCAdd 7; demoCAdd 8; CRun 3 WForced] = (Done tt, s) /\
    sent s = [] /\ told (waiters (bat s)) = [] /\ (map_to_list (waiting (waiters (bat s)))).*1 = [7; 8].
Proof. intros o. eexists. split; [vm_compute; reflexivity|]. vm_compute. auto. Qed.
