(* ===== verification/TerminateRuns.v ===== *)
(** * Runs of the termination batcher

    Calls of [AddTermination], rounds of the goroutine, callers that take their answers and one
    [Stop], in any order.  [termination_batches] is about the messages that are sent and about who
    is told of them; [rest_forgotten] and [not_live_forgotten] show sectors that are not sent and
    that nobody will send. *)

From stdpp Require Import gmap.
From S2P Require Import Prelude TipSet CtlAddr SealingTypes Kv NumAssign Batcher BatcherProps PreCommitRuns BatchTerminate.

(** The other operations of bitfields, and what the chain says of deadlines and partitions: they
    are numbered, and a partition that was given for a sector stays. *)
Class TermNodeOk `{TermNode} `{!BitFieldsOk} : Prop := {
  rangeLocs_perm l w : (rangeLocs l w).1 ≡ₚ l;
  bits_Count a n : bf_Count a = Ret n -> n = Z.of_nat (size (bits a));
  bits_Copy a b : bf_Copy a = Ret b -> bits b = bits a;
  bits_Intersect a b c : bf_Intersect a b = Ret c -> bits c = bits a ∩ bits b;
  bits_Subtract a b c : bf_Subtract a b = Ret c -> bits c = bits a ∖ bits b;
  bits_Slice a n c : 0 <= n -> bf_Slice a 0 n = Ret c -> bits c ⊆ bits a /\ Z.of_nat (size (bits c)) = n;
  bits_IsSet a n b : bf_IsSet a n = Ret b -> b = bool_decide (n ∈ bits a);
  bits_ForEach a l : bf_ForEach a = Ret l -> forall n, n ∈ l <-> n ∈ bits a;
  np_Copy a : bf_Copy a <> Panic;
  np_IsSet a n : bf_IsSet a n <> Panic;
  np_ForEach a : bf_ForEach a <> Panic;
  deadlines_bound : 0 < WPoStPeriodDeadlines < 9223372036854775808;
  addressed_bound : 0 < AddressedSectorsMax <= 4611686018427387904;
  declarations_bound : 0 < DeclarationsMax;
  deadline_index w d : (StateMinerProvingDeadline w).1 = inr d -> 0 <= d < WPoStPeriodDeadlines;
  location_index a n w loc : (StateSectorPartition a n w).1 = inr (Some loc) -> 0 <= loc.1 < WPoStPeriodDeadlines /\ 0 <= loc.2;
  location_stays a n w loc a' w' ps : (StateSectorPartition a n w).1 = inr (Some loc) -> (StateMinerPartitions a' loc.1 w').1 = inr ps -> loc.2 < len ps;
}.

Section terminate.
Context `{TermNodeOk} `{!BatchNodeOk} `{BigOpsOk}.

Notation TSt := (BSt TBatcher).

(** ** What is declared *)

(** Not the current deadline nor one next to it. *)
Definition elsewhere (dl d : Z) : Prop := forall k, -1 <= k <= 1 -> d <> (dl + k) mod WPoStPeriodDeadlines.

Lemma challenged_elsewhere dl d : 0 <= dl < WPoStPeriodDeadlines -> 0 <= d < WPoStPeriodDeadlines -> challenged dl d = false -> elsewhere dl d.
Proof.
  pose proof deadlines_bound as Hb. intros Hdl Hd Hc k Hk E. unfold challenged in Hc. rewrite !u64_id in Hc by (unfold in_u64; lia).
  apply orb_false_iff in Hc as [[Hc1 Hc2]%orb_false_iff Hc3]. apply Z.eqb_neq in Hc1, Hc2, Hc3.
  assert (k = -1 \/ k = 0 \/ k = 1) as [->|[->| ->]] by lia.
  - apply Hc3. rewrite E, Zplus_mod_idemp_l. rewrite Z.mod_small; lia.
  - rewrite Z.add_0_r, Z.mod_small in E by lia. done.
  - done.
Qed.

Definition aliveIn (loc : Location) (bf : BitField) : Prop :=
  exists w ps live, (StateMinerPartitions minerAddr loc.1 w).1 = inr ps /\ index ps loc.2 = Ret live /\ bits bf ⊆ bits live.

(** A declaration for a bucket. *)
Definition declares (dl : Z) (td : gmap Location BitField) (t : Location * BitField) : Prop :=
  elsewhere dl t.1.1 /\ aliveIn t.1 t.2 /\ exists bf0, td !! t.1 = Some bf0 /\ bits t.2 ⊆ bits bf0.

(** Buckets only lose sectors. *)
Definition smaller (td td' : gmap Location BitField) : Prop :=
  forall loc bf', td' !! loc = Some bf' -> exists bf, td !! loc = Some bf /\ bits bf' ⊆ bits bf.

Lemma smaller_trans td1 td2 td3 : smaller td1 td2 -> smaller td2 td3 -> smaller td1 td3.
Proof. intros S1 S2 loc bf3 E3. destruct (S2 _ _ E3) as (bf2 & E2 & ?). destruct (S1 _ _ E2) as (bf1 & ? & ?). exists bf1. split; [done|]. by etrans. Qed.

Definition known (loc : Location) : Prop := exists a n w, (StateSectorPartition a n w).1 = inr (Some loc).

(** The buckets are of partitions that were given for sectors, and not too large to count. *)
Definition buckets (N : Z) (td : gmap Location BitField) : Prop := forall loc bf, td !! loc = Some bf -> known loc /\ Z.of_nat (size (bits bf)) <= N.

Lemma buckets_smaller N td td' : smaller td td' -> buckets N td -> buckets N td'.
Proof. intros Hs Hb loc bf' E. destruct (Hs _ _ E) as (bf & E' & Hsub). destruct (Hb _ _ E'). split; [done|]. apply subseteq_size in Hsub. lia. Qed.

(** Nothing but buckets has changed. *)
Definition onlyTodo (s s' : TSt) : Prop :=
  tb_waiters (bat s') = tb_waiters (bat s) /\ tb_stopped (bat s') = tb_stopped (bat s) /\ sent s' = sent s.

Lemma index_inside {A} (l : list A) i : 0 <= i < len l -> index l i <> Panic.
Proof. intros Hi. unfold index, len in *. destruct (Z.ltb_spec i 0); [lia|]. destruct (lookup_lt_is_Some_2 l (Z.to_nat i)) as [x ->]; [lia|done]. Qed.

Lemma declare_ok mw N dl total loc (s : TSt) : 0 <= dl < WPoStPeriodDeadlines -> buckets N (tb_todo (bat s)) -> N <= 4611686018427387904 -> 0 <= total < AddressedSectorsMax ->
  wp mw (declare dl total loc) s (fun r s' => onlyTodo s s' /\ smaller (tb_todo (bat s)) (tb_todo (bat s')) /\ (forall l, l <> loc -> tb_todo (bat s') !! l = tb_todo (bat s) !! l) /\
    forall n bf, r = Some (n, bf) -> declares dl (tb_todo (bat s)) (loc, bf) /\ Z.of_nat (size (bits bf)) <= n /\ 0 < n /\ total + n <= AddressedSectorsMax).
Proof.
  intros Hdl Hb HN Ht. pose proof addressed_bound as Hmax. unfold declare. apply wp_bind, wp_batcher.
  assert (Hsame : forall s' : TSt, bat s' = bat s -> sent s' = sent s -> onlyTodo s s' /\ smaller (tb_todo (bat s)) (tb_todo (bat s')) /\
    forall l, l <> loc -> tb_todo (bat s') !! l = tb_todo (bat s) !! l).
  { intros s' B1 S1. rewrite B1. split; [by unfold onlyTodo; rewrite B1|split; [intros l bf E; eauto|done]]. }
  assert (Hnone : forall s' : TSt, bat s' = bat s -> sent s' = sent s -> wp mw (mret None) s' (fun r s' => onlyTodo s s' /\ smaller (tb_todo (bat s)) (tb_todo (bat s')) /\
    (forall l, l <> loc -> tb_todo (bat s') !! l = tb_todo (bat s) !! l) /\
    forall n bf, r = Some (n, bf) -> declares dl (tb_todo (bat s)) (loc, bf) /\ Z.of_nat (size (bits bf)) <= n /\ 0 < n /\ total + n <= AddressedSectorsMax)).
  { intros s' B1 S1. apply wp_ret. destruct (Hsame s' B1 S1) as (? & ? & ?). split_and!; done. }
  destruct (tb_todo (bat s) !! loc) as [sectors|] eqn:El; [|by apply Hnone].
  destruct (Hb _ _ El) as [(a & k & w0 & Hk) Hsz]. destruct (location_index _ _ _ _ Hk) as [Hd Hp].
  apply wp_bind, wp_lift; [auto with nopanic| |by intros; apply Hnone]. intros n Hn. apply bits_Count in Hn.
  destruct (challenged dl loc.1) eqn:Ec; [by apply Hnone|]. destruct (Z.ltb_spec n 1); [by apply Hnone|].
  apply wp_bind, wp_lift; [apply np_Copy| |by intros; apply Hnone]. intros t0 Et0%bits_Copy.
  apply wp_bind, wp_ask. intros w1. destruct (StateMinerPartitions minerAddr loc.1 (wld s)).1 as [e|ps] eqn:Eps; [by apply Hnone|].
  pose proof (location_stays _ _ _ _ _ _ _ Hk Eps) as Hin. apply wp_bind, wp_lift.
  { by apply index_inside. }
  2: { by intros; apply Hnone. }
  intros live Hlive. apply wp_bind, wp_lift; [auto with nopanic| |by intros; apply Hnone]. intros t1 Et1%bits_Intersect. rewrite Et0 in Et1.
  assert (Hdec : forall bf, bits bf ⊆ bits t1 -> declares dl (tb_todo (bat s)) (loc, bf)).
  { intros bf Hbf. rewrite Et1 in Hbf. split_and!; cbn; [by apply challenged_elsewhere|exists (wld s), ps, live; split_and!; [done..|clear -Hbf; set_solver]|].
    exists sectors. split; [done|]. clear -Hbf. set_solver. }
  rewrite u64_id by (unfold in_u64; lia). destruct (Z.ltb_spec AddressedSectorsMax (total + n)).
  - rewrite u64_id by (unfold in_u64; lia). apply wp_bind, wp_lift; [auto with nopanic| |by intros; apply Hnone]. intros t2 [Hsub Hsize]%bits_Slice; [|lia].
    apply wp_bind, wp_lift; [auto with nopanic| |by intros; apply Hnone]. intros rest Hrest%bits_Subtract. apply wp_bind. unfold setTodo.
    apply wp_bind, wp_batcher, wp_setBatcher, wp_ret. cbn. split_and!.
    + done.
    + intros l bf'. rewrite lookup_insert_Some. intros [[<- <-]|[_ E]]; [|eauto]. exists sectors. split; [done|]. rewrite Hrest. clear. set_solver.
    + intros l Hl. by rewrite lookup_insert_ne.
    + intros n' bf [= <- <-]. split_and!; [by apply Hdec|lia|lia|lia].
  - apply wp_ret. destruct (Hsame {| bat := bat s; wld := w1; sent := sent s |}) as (? & ? & ?); [done..|]. split_and!; try done. intros n' bf [= <- <-].
    split_and!; [by apply Hdec| |lia|lia]. rewrite Hn. apply inj_le, subseteq_size. rewrite Et1. clear. set_solver.
Qed.

(** The number of sectors that are declared. *)
Definition declaredSize (terms : list (Location * BitField)) : Z := sumZ (fun t => Z.of_nat (size (bits t.2))) terms.

Lemma declareLoop_ok mw N cfg dl td locs total terms (s : TSt) :
  0 <= dl < WPoStPeriodDeadlines -> buckets N (tb_todo (bat s)) -> N <= 4611686018427387904 -> 0 <= total < AddressedSectorsMax ->
  smaller td (tb_todo (bat s)) -> (forall l, l ∈ locs -> tb_todo (bat s) !! l = td !! l) -> NoDup (terms.*1 ++ locs) ->
  Forall (declares dl td) terms -> declaredSize terms <= total -> len terms < DeclarationsMax ->
  wp mw (declareLoop cfg dl locs total terms) s (fun r s' => onlyTodo s s' /\ smaller td (tb_todo (bat s')) /\
    NoDup r.2.*1 /\ Forall (declares dl td) r.2 /\ declaredSize r.2 <= AddressedSectorsMax /\ len r.2 <= DeclarationsMax).
Proof.
  intros Hdl Hb HN. revert total terms s Hb. pose proof addressed_bound as Hmax.
  induction locs as [|loc locs IH]; intros total terms s Hb Ht Hsm Htd Hnd Hdec Hsz Hlen; cbn [declareLoop].
  { apply wp_ret. rewrite app_nil_r in Hnd. cbn [snd]. split; [done|]. split_and!; try done; lia. }
  apply wp_bind. eapply wp_mono; [by apply (declare_ok mw N)|]. cbn beta. intros r s1 (Ho & Hsm1 & Hl & Hr).
  assert (Hsm' : smaller td (tb_todo (bat s1))) by exact (smaller_trans _ _ _ Hsm Hsm1).
  assert (Hb1 : buckets N (tb_todo (bat s1))) by exact (buckets_smaller _ _ _ Hsm1 Hb).
  assert (Hni : loc ∉ locs) by (apply NoDup_app in Hnd as (_ & _ & Hnd); by apply NoDup_cons in Hnd as [? _]).
  assert (Htd1 : forall l, l ∈ locs -> tb_todo (bat s1) !! l = td !! l).
  { intros l Hin. rewrite Hl by (by intros ->). apply Htd. by constructor. }
  assert (Hon : forall s', onlyTodo s1 s' -> onlyTodo s s').
  { destruct Ho as (O1 & O2 & O3). intros s' (O1' & O2' & O3'). unfold onlyTodo. by rewrite O1', O2', O3'. }
  destruct r as [[n bf]|].
  - destruct (Hr n bf eq_refl) as ((He & Ha & bf0 & E0 & Hsub) & Hn & Hpos & Htot). rewrite Htd in E0 by constructor. rewrite u64_id by (unfold in_u64; lia).
    assert (Hnd' : NoDup ((terms ++ [(loc, bf)]).*1 ++ locs)) by (rewrite fmap_app, <- app_assoc; exact Hnd).
    assert (Hdec' : Forall (declares dl td) (terms ++ [(loc, bf)])).
    { apply Forall_app. split; [done|]. apply Forall_singleton. split_and!; [done..|eauto]. }
    assert (Hsz' : declaredSize (terms ++ [(loc, bf)]) <= total + n) by (unfold declaredSize in *; rewrite sumZ_app, sumZ_cons; cbn; lia).
    assert (Hlen' : len (terms ++ [(loc, bf)]) = len terms + 1) by (rewrite len_app; done).
    assert (Hdone : wp mw (mret (total + n, terms ++ [(loc, bf)])) s1 (fun r s' => onlyTodo s s' /\ smaller td (tb_todo (bat s')) /\
      NoDup r.2.*1 /\ Forall (declares dl td) r.2 /\ declaredSize r.2 <= AddressedSectorsMax /\ len r.2 <= DeclarationsMax)).
    { apply wp_ret. split; [done|]. cbn [snd]. apply NoDup_app in Hnd' as [? _]. split_and!; try done; lia. }
    destruct (Z.leb_spec AddressedSectorsMax (total + n)); [done|]. cbn [orb]. destruct (_ <=? total + n); [done|].
    destruct (Z.leb_spec DeclarationsMax (len (terms ++ [(loc, bf)]))); [done|].
    eapply wp_mono; [apply IH; (done || lia)|]. cbn beta. intros r s' (? & ?). split; [by apply Hon|done].
  - eapply wp_mono; [apply IH; try done|].
    + apply NoDup_app in Hnd as (? & Hd & Hnd). apply NoDup_app. split_and!; [done| |by apply NoDup_cons in Hnd as [_ ?]]. intros x Hx Hx'. apply (Hd x Hx). by constructor.
    + cbn beta. intros r s' (? & ?). split; [by apply Hon|done].
Qed.

(** ** Who is told *)

Notation anyone := (fun (_ : Cid) (_ : Z) => True).

(** The sectors of [ns] were told of the message, and nobody else. *)
Record toldOfTerms (c : Cid) (ns : Z -> Prop) (s s' : TSt) : Prop := {
  to_ok : wok anyone (tb_waiters (bat s'));
  to_sent : sent s' = sent s;
  to_stop : tb_stopped (bat s') = tb_stopped (bat s);
  to_todo : smaller (tb_todo (bat s)) (tb_todo (bat s'));
  to_owner : (chans (tb_waiters (bat s'))).*1 = (chans (tb_waiters (bat s))).*1;
  to_wait n chs : waiting (tb_waiters (bat s')) !! n = Some chs -> waiting (tb_waiters (bat s)) !! n = Some chs;
  to_left n : ~ ns n -> waiting (tb_waiters (bat s')) !! n = waiting (tb_waiters (bat s)) !! n;
  to_told : exists ext, told (tb_waiters (bat s')) = told (tb_waiters (bat s)) ++ ext /\
    forall p, p ∈ ext -> p.2 = c /\ exists n, ns n /\ owner (tb_waiters (bat s)) p.1 = Some n;
}.

Definition answered (c : Cid) (n : Z) (s s' : TSt) : Prop := forall ch, ch ∈ default [] (waiting (tb_waiters (bat s)) !! n) -> (ch, c) ∈ told (tb_waiters (bat s')).

Lemma toldOf_refl c ns (s : TSt) : wok anyone (tb_waiters (bat s)) -> toldOfTerms c ns s s.
Proof. intros Hok. split; try done; [intros l bf E; eauto|]. exists []. rewrite app_nil_r. split; [done|]. by intros ? ?%elem_of_nil. Qed.

Lemma toldOf_trans c (ns1 ns2 ns : Z -> Prop) (s1 s2 s3 : TSt) : (forall n, ns1 n -> ns n) -> (forall n, ns2 n -> ns n) -> toldOfTerms c ns1 s1 s2 -> toldOfTerms c ns2 s2 s3 -> toldOfTerms c ns s1 s3.
Proof.
  intros Hn1 Hn2 [K1 S1 Z1 T1 O1 W1 L1 (e1 & E1 & P1)] [K2 S2 Z2 T2 O2 W2 L2 (e2 & E2 & P2)]. split; try congruence; [by eapply smaller_trans|eauto| |].
  - intros n Hn. rewrite L2, L1; auto.
  - exists (e1 ++ e2). rewrite E2, E1, app_assoc. split; [done|]. intros p [Hp|Hp]%elem_of_app; [destruct (P1 p Hp) as (? & n & ? & ?)|destruct (P2 p Hp) as (? & n & ? & ?)]; (split; [done|]); exists n; [auto|].
    unfold owner in *. rewrite <- O1. auto.
Qed.

Lemma answered_later c n ns1 ns2 (s1 s2 s3 : TSt) : toldOfTerms c ns1 s1 s2 -> toldOfTerms c ns2 s2 s3 -> answered c n s1 s2 \/ answered c n s2 s3 /\ waiting (tb_waiters (bat s2)) !! n = waiting (tb_waiters (bat s1)) !! n -> answered c n s1 s3.
Proof.
  intros [_ _ _ _ _ _ _ (e1 & E1 & _)] [_ _ _ _ _ _ _ (e2 & E2 & _)] [Ha|[Ha Hw]] ch Hch; [rewrite E2; apply elem_of_app; left; by apply Ha|]. apply Ha. by rewrite Hw.
Qed.

Lemma tellAll_ok mw sns c (s : TSt) : wok anyone (tb_waiters (bat s)) ->
  wp mw (tellAll sns c) s (fun _ s' => toldOfTerms c (fun n => n ∈ sns) s s' /\ tb_todo (bat s') = tb_todo (bat s) /\ forall n, n ∈ sns -> answered c n s s').
Proof.
  revert s. induction sns as [|sn sns IH]; intros s Hok; cbn [tellAll].
  { apply wp_ret. split_and!; [by apply toldOf_refl|done|by intros ? ?%elem_of_nil]. }
  destruct (tellSector_ok anyone sn c _ Hok I) as (ws & Ews & Hws & Hw & Ht & Hc). apply wp_bind, wp_batcher, wp_bind. rewrite Ews. cbn [orWaits]. apply wp_ret, wp_bind, wp_setBatcher.
  set (s1 := {| bat := {| tb_todo := _ |} |}). eapply wp_mono; [by apply (IH s1)|]. cbn beta. intros _ s' (Hto & Htd & Hans).
  assert (Hchs : forall ch, ch ∈ default [] (waiting (tb_waiters (bat s)) !! sn) -> owner (tb_waiters (bat s)) ch = Some sn).
  { intros ch Hch. destruct (waiting (tb_waiters (bat s)) !! sn) as [chs|] eqn:Ew; cbn in Hch; [|by apply elem_of_nil in Hch].
    destruct (w_wait _ _ Hok _ _ Ew) as (_ & _ & Hx). unfold owner. rewrite list_lookup_fmap, (Hx ch Hch). done. }
  assert (Hto1 : toldOfTerms c (fun n => n = sn) s s1).
  { split; cbn; try done; [intros l bf E; eauto| | |].
    - intros n chs. rewrite Hw. by intros [_ ?]%lookup_delete_Some.
    - intros n Hn. rewrite Hw. by rewrite lookup_delete_ne.
    - eexists. split; [exact Ht|]. intros p. rewrite list_elem_of_fmap. intros (ch & -> & Hch). cbn. eauto. }
  split; [|split; [done|]].
  - eapply (toldOf_trans c _ _ _ s s1 s'); [..|exact Hto1|exact Hto]; [intros n ->; constructor|intros; by constructor].
  - intros n Hn. eapply answered_later; [exact Hto1|exact Hto|]. destruct (decide (n = sn)) as [->|Hne].
    + left. intros ch Hch. cbn. rewrite Ht. apply elem_of_app. right. apply list_elem_of_fmap. eauto.
    + right. apply elem_of_cons in Hn as [?|Hn]; [done|]. split; [by apply Hans|]. cbn. rewrite Hw. by rewrite lookup_delete_ne.
Qed.

Definition declared (terms : list (Location * BitField)) (n : Z) : Prop := exists t, t ∈ terms /\ n ∈ bits t.2.

Lemma tellTerms_ok mw terms c (s : TSt) : wok anyone (tb_waiters (bat s)) ->
  wp mw (tellTerms terms c) s (fun r s' => toldOfTerms c (declared terms) s s' /\ (r = None -> forall n, declared terms n -> answered c n s s')).
Proof.
  revert s. induction terms as [|[loc bf] terms IH]; intros s Hok; cbn [tellTerms].
  { apply wp_ret. split; [by apply toldOf_refl|]. intros _ n (t & Ht & _). by apply elem_of_nil in Ht. }
  apply wp_bind, wp_batcher, wp_bind. unfold setTodo. apply wp_bind, wp_batcher, wp_setBatcher. set (s1 := {| bat := {| tb_todo := _ |} |}).
  assert (Hs1 : forall ns, toldOfTerms c ns s s1).
  { intros ns. split; cbn; try done; [intros l b [_ E]%lookup_delete_Some; eauto|]. exists []. rewrite app_nil_r. split; [done|]. by intros ? ?%elem_of_nil. }
  apply wp_bind, wp_lift; [apply np_ForEach| |intros e _; apply wp_ret; split; [apply Hs1|done]]. intros sns Hsns. pose proof (bits_ForEach _ _ Hsns) as Hb.
  apply wp_bind. eapply wp_mono; [by apply (tellAll_ok mw sns c s1)|]. cbn beta. intros _ s2 (Ht2 & _ & Ha2).
  eapply wp_mono; [apply IH, Ht2|]. cbn beta. intros r s3 (Ht3 & Ha3).
  assert (Hto2 : toldOfTerms c (fun n => n ∈ sns) s s2) by (eapply (toldOf_trans c (fun _ => False) _ _ s s1 s2); [..|apply Hs1|exact Ht2]; done).
  split.
  - eapply toldOf_trans; [..|exact Hto2|exact Ht3]; cbn beta.
    + intros n Hn. exists (loc, bf). split; [constructor|]. by apply Hb.
    + intros n (t & ? & ?). exists t. split; [by constructor|done].
  - intros -> n (t & Ht & Hn). eapply answered_later; [exact Hto2|exact Ht3|]. destruct (decide (n ∈ sns)) as [Hin|Hin].
    + left. intros ch Hch. by apply (Ha2 n Hin).
    + right. split; [|by apply (to_left _ _ _ _ Hto2)]. apply Ha3; [done|]. apply elem_of_cons in Ht as [->|Ht]; [by apply Hb in Hn|by exists t].
Qed.

(** ** Messages *)

(** A message that terminates: its declarations are of different partitions, of sectors that are
    alive, none at the deadline [dl] or next to it, and within the limits of the actor. *)
Definition terminates (dl : Z) (terms : list (Location * BitField)) (m : Sent) : Prop :=
  marshalTerminate terms = inr (s_params m) /\ s_method m = MethodTerminateSectors /\ s_value m = 0 /\ s_maxFee m = MaxTerminateGasFee /\ fromMiner m /\
  terms <> [] /\ NoDup terms.*1 /\ declaredSize terms <= AddressedSectorsMax /\ len terms <= DeclarationsMax /\
  Forall (fun t => elsewhere dl t.1.1 /\ aliveIn t.1 t.2) terms.

Record tmessages (s : TSt) : Prop := {
  tm_sent m : m ∈ sent s -> exists w dl terms, (StateMinerProvingDeadline w).1 = inr dl /\ terminates dl terms m;
  tm_told ch c : (ch, c) ∈ told (tb_waiters (bat s)) ->
    exists m dl terms n, m ∈ sent s /\ s_cid m = c /\ terminates dl terms m /\ owner (tb_waiters (bat s)) ch = Some n /\ declared terms n;
}.

Definition made (s : TSt) : Z := len (chans (tb_waiters (bat s))).

(** [n] channels more can be made before counts are too large. *)
Record tgood (n : nat) (s : TSt) : Prop := {
  tg_ok : wok anyone (tb_waiters (bat s));
  tg_msgs : tmessages s;
  tg_todo : buckets (made s) (tb_todo (bat s));
  tg_made : made s + Z.of_nat n <= 4611686018427387904;
}.

Lemma tgood_le n n' s : (n' <= n)%nat -> tgood n s -> tgood n' s.
Proof. intros Hn [G1 G2 G3 G4]. split; try done. lia. Qed.

Lemma tmessages_ext (s s' : TSt) : told (tb_waiters (bat s')) = told (tb_waiters (bat s)) -> sent s' = sent s ->
  (forall ch k, owner (tb_waiters (bat s)) ch = Some k -> owner (tb_waiters (bat s')) ch = Some k) -> tmessages s -> tmessages s'.
Proof.
  intros Ht Hs Ho [M1 M2]. split; rewrite ?Ht, ?Hs; [done|]. intros ch c Hc. destruct (M2 ch c Hc) as (m & dl & terms & k & ? & ? & ? & ? & ?).
  exists m, dl, terms, k. auto 6.
Qed.

Lemma tgood_only n (s s' : TSt) : onlyTodo s s' -> smaller (tb_todo (bat s)) (tb_todo (bat s')) -> tgood n s -> tgood n s'.
Proof.
  intros (Ow & Os & Oe) Hs [G1 G2 G3 G4]. split; unfold made in *; rewrite ?Ow; try done; [|by eapply buckets_smaller]. apply (tmessages_ext s); rewrite ?Ow; done.
Qed.

(** What a batch leaves: no message, or one of which all that waited for its sectors were told. *)
Definition trounded (n : nat) (s : TSt) (r : reply (option Cid)) (s' : TSt) : Prop :=
  tgood n s' /\ tb_stopped (bat s') = tb_stopped (bat s) /\
  ((sent s' = sent s /\ tb_waiters (bat s') = tb_waiters (bat s) /\ (forall c, r <> inr (Some c))) \/
   exists m dl terms, sent s' = sent s ++ [m] /\ terminates dl terms m /\ Forall (declares dl (tb_todo (bat s))) terms /\
     forall c, r = inr (Some c) -> s_cid m = c /\ forall k, declared terms k -> answered c k s s').

Lemma termBatch_ok mw n notif after (s : TSt) : tgood n s -> wp mw (processBatch notif after) s (trounded n s).
Proof.
  intros Hg. unfold processBatch. pose proof Hg as [G1 G2 G3 G4]. pose proof addressed_bound as Hmax.
  assert (Hno : forall r (s' : TSt), onlyTodo s s' -> smaller (tb_todo (bat s)) (tb_todo (bat s')) -> (forall c, r <> inr (Some c)) -> wp mw (mret r) s' (trounded n s)).
  { intros r s' Ho Hs Hr. apply wp_ret. split; [by eapply tgood_only|]. destruct Ho as (? & ? & ?). split; [done|]. by left. }
  assert (Hsm : smaller (tb_todo (bat s)) (tb_todo (bat s))) by (intros l bf E; eauto).
  apply wp_bind, wp_ask. intros w1. destruct (StateMinerProvingDeadline (wld s)).1 as [e|dl] eqn:Edl; [by apply Hno|].
  apply wp_bind, wp_ask. intros w2. destruct (getConfig _).1 as [e|cfg]; [by apply Hno|]. apply wp_bind, wp_batcher, wp_bind, wp_ask. intros w3. cbn [bat wld sent].
  apply wp_bind. eapply wp_mono; [apply (declareLoop_ok mw (made s) cfg dl (tb_todo (bat s)))|]; try done; cbn [bat].
  { by eapply deadline_index. }
  { lia. }
  { lia. }
  { cbn. rewrite rangeLocs_perm. apply NoDup_fst_map_to_list. }
  { apply declarations_bound. }
  cbn beta. intros [total terms] s4 (Ho & Hs4 & Hnd & Hdec & Hsz & Hlen). cbn [snd] in *.
  change (onlyTodo s s4) in Ho. pose proof Ho as (Ow & Ost & Ose).
  case_bool_decide as Hne; [by apply Hno|]. destruct (notif && _); [by apply Hno|]. destruct (after && _); [by apply Hno|].
  apply wp_bind, wp_ret. destruct (marshalTerminate terms) as [e|enc] eqn:Eenc; [by apply Hno|].
  apply wp_bind, wp_ask. intros w5. destruct (StateMinerInfo _).1 as [e|mi] eqn:Emi; [by apply Hno|]. apply wp_bind, wp_ask. intros w6.
  destruct (AddressFor_control addrSel mi TerminateSectorsAddr MaxTerminateGasFee MaxTerminateGasFee w5) as (a & bal & Ea & Hctl). cbn [wld]. rewrite Ea. cbn [fst].
  unfold sendMsg. apply wp_bind, wp_bind, wp_ask. intros w7. destruct (MpoolPushMessage _ _ _ _ _ _).1 as [e|mc]; [apply wp_ret; by apply Hno|].
  apply wp_bind, wp_record, wp_ret, wp_bind. set (m := {| s_from := a |}). set (s8 := {| bat := _; sent := _ |}).
  eapply wp_mono; [apply (tellTerms_ok mw terms mc s8); cbn; by rewrite Ow|]. cbn beta. intros err s9 (Hto & Hans). apply wp_ret.
  assert (Hm : terminates dl terms m).
  { split_and!; cbn; try done; [by autorewrite with bigs|by eexists _, mi|]. eapply Forall_impl; [exact Hdec|]. by intros t (? & ? & _). }
  destruct Hto as [K9 S9 Z9 T9 O9 W9 L9 (ext & E9 & P9)]. subst s8. cbn [bat sent] in S9, Z9, T9, O9, E9, P9. rewrite Ow in O9, E9, P9. rewrite Ose in S9.
  assert (Hmade : made s9 = made s) by (unfold made, len; by rewrite <- (length_fmap fst (chans (tb_waiters (bat s9)))), O9, length_fmap).
  split; [|split; [congruence|]].
  - split; rewrite ?Hmade; try done; [|eapply buckets_smaller, G3; by eapply smaller_trans]. destruct G2 as [M1 M2]. split; rewrite S9.
    + intros x [Hx| ->%list_elem_of_singleton]%elem_of_app; [by apply M1|]. by exists (wld s), dl, terms.
    + intros ch c. rewrite E9. unfold owner. rewrite O9. fold (owner (tb_waiters (bat s)) ch). intros [Hc|Hc]%elem_of_app.
      * destruct (M2 ch c Hc) as (x & dl' & terms' & k & ? & ? & ? & ? & ?). exists x, dl', terms', k. rewrite elem_of_app. auto 6.
      * destruct (P9 _ Hc) as (Ec & k & ? & ?). cbn in Ec. subst c. exists m, dl, terms, k. split_and!; try done. apply elem_of_app. right. by apply list_elem_of_singleton.
  - right. exists m, dl, terms. split_and!; try done. intros c Hc. destruct err as [e|]; [done|]. injection Hc as <-. split; [done|].
    intros k Hk ch Hch. apply (Hans eq_refl k Hk). cbn. by rewrite Ow.
Qed.

(** ** Steps *)

Definition registered (n : nat) (number : Z) (s : TSt) (r : reply (option nat)) (s' : TSt) : Prop :=
  tgood n s' /\ tb_stopped (bat s') = tb_stopped (bat s) /\
  forall ch, r = inr (Some ch) -> ch ∈ default [] (waiting (tb_waiters (bat s')) !! number) /\ exists loc bf, tb_todo (bat s') !! loc = Some bf /\ number ∈ bits bf.

Lemma AddTermination_ok mw n miner number (s : TSt) : tgood (S n) s -> in_u64 number ->
  wp mw (AddTermination miner number) s (registered n number s).
Proof.
  intros Hg Hu. unfold AddTermination.
  assert (Hno : forall r (s' : TSt), bat s' = bat s -> sent s' = sent s -> (forall ch, r <> inr (Some ch)) -> wp mw (mret r) s' (registered n number s)).
  { intros r s' B1 S1 Hr. apply wp_ret. unfold registered. rewrite B1. split; [|split; [done|by intros ch ?%Hr]]. apply (tgood_le (S n)); [lia|]. apply (tgood_only _ s); [by unfold onlyTodo; rewrite B1| |done].
    rewrite B1. intros l bf E. eauto. }
  apply wp_bind, wp_ret. destruct (NewIDAddress (u64 miner)) as [e|maddr]; [by apply Hno|].
  apply wp_bind, wp_ask. intros w1. destruct (StateSectorPartition maddr number (wld s)).1 as [e|[loc|]] eqn:Eloc; [by apply Hno| |by apply Hno].
  apply wp_bind, wp_ask. intros w2. destruct (StateMinerPartitions _ _ _).1 as [e|ps] eqn:Eps; [by apply Hno|].
  destruct (location_index _ _ _ _ Eloc) as [_ Hp]. pose proof (location_stays _ _ _ _ _ _ _ Eloc Eps) as Hin.
  apply wp_bind, wp_lift; [by apply index_inside| |by intros; apply Hno]. intros part _. apply wp_bind, wp_lift; [apply np_IsSet| |by intros; apply Hno]. intros live _.
  destruct live; [|by apply Hno]. cbn [negb]. apply wp_bind, wp_batcher. cbn [newChan bat]. apply wp_bind, wp_setBatcher, wp_ret. rewrite u64_id by done.
  destruct Hg as [G1 G2 G3 G4]. set (b' := {| tb_todo := _ |}). set (s' := {| bat := b' |}).
  assert (Hmade : made s' = made s + 1) by (unfold made, s'; cbn; by rewrite len_app).
  assert (Hbits : bits (bf_Set number (default bf_New (tb_todo (bat s) !! loc))) = {[number]} ∪ bits (default bf_New (tb_todo (bat s) !! loc))) by (apply bits_Set, Hu).
  split; [|split; [done|]].
  - split; rewrite ?Hmade; [apply (newChan_ok _ number _ G1)| | |lia].
    + apply (tmessages_ext s); cbn; try done. intros c k Hc. unfold owner in *. cbn. rewrite fmap_app. by apply lookup_app_l_Some.
    + intros l bf. cbn. rewrite lookup_insert_Some. intros [[<- <-]|[_ E]]; [|destruct (G3 _ _ E); split; [done|lia]].
      split; [by exists maddr, number, (wld s)|]. rewrite Hbits. pose proof (size_union_alt {[number]} (bits (default bf_New (tb_todo (bat s) !! loc)))) as Hsz.
      rewrite Hsz, size_singleton. assert (Z.of_nat (size (bits (default bf_New (tb_todo (bat s) !! loc)))) <= made s).
      { destruct (tb_todo (bat s) !! loc) as [b0|] eqn:E0; cbn; [by apply G3 in E0 as [_ ?]|]. rewrite bits_New, size_empty. unfold made, len. lia. }
      pose proof (subseteq_size (bits (default bf_New (tb_todo (bat s) !! loc)) ∖ {[number]}) (bits (default bf_New (tb_todo (bat s) !! loc))) ltac:(clear; set_solver)). lia.
  - intros ch [= <-]. split; [cbn; rewrite lookup_insert_eq; cbn; apply elem_of_app; right; by apply list_elem_of_singleton|].
    exists loc. eexists. split; [cbn; apply lookup_insert_eq|]. rewrite Hbits. clear. set_solver.
Qed.
End terminate.

(** ** Runs *)

Inductive TermEvent :=
| TAdd (miner number : Z)
| TRun (wake : Wake)
| TReceive (ch : nat)
| TStop.

Definition TermEvent_ok (ev : TermEvent) : Prop := match ev with TAdd _ number => in_u64 number | _ => True end.

Definition tstops (ev : TermEvent) : Z := match ev with TStop => 1 | _ => 0 end.

Lemma tstops_01 ev : tstops ev = 0 \/ tstops ev = 1.
Proof. destruct ev; auto. Qed.

Section runs.
Context `{TermNode} `{BigOps}.

Notation TSt := (BSt TBatcher).
Notation TM := (BM TBatcher).

Definition termStep (ev : TermEvent) : TM unit :=
  match ev with
  | TAdd miner number => _ ← AddTermination miner number; mret tt
  | TRun wake => _ ← runT wake; mret tt
  | TReceive ch =>
      b ← batcher;
      setBatcher {| tb_todo := tb_todo b; tb_waiters := (chanReceive ch (tb_waiters b)).2; tb_notify := tb_notify b; tb_stopped := tb_stopped b |}
  | TStop => BatchTerminate.Stop
  end.

Definition termRun : list TermEvent -> TM unit := runAll termStep.

Definition termStart (w : node) : TSt := {| bat := newTBatcher; wld := w; sent := [] |}.

Context `{!BitFieldsOk} `{!TermNodeOk} `{!BatchNodeOk} `{!BigOpsOk}.

Lemma termStep_ok mw n ev (s : TSt) : tgood (S n) s -> TermEvent_ok ev -> (tb_stopped (bat s) = true -> tstops ev = 0) ->
  wp mw (termStep ev) s (fun _ s' => tgood n s' /\ (tb_stopped (bat s') = true -> tb_stopped (bat s) = true \/ tstops ev = 1)).
Proof.
  intros Hg Hev Hst. assert (Hg' : tgood n s) by (apply (tgood_le (S n)); [lia|done]). destruct ev as [miner number|wake|ch|]; cbn [termStep].
  - apply wp_bind. eapply wp_mono; [by apply AddTermination_ok|]. cbn beta. intros r s' (? & Hs & _). apply wp_ret. rewrite Hs. auto.
  - apply wp_bind, wp_bind, wp_batcher, wp_bind.
    assert (Hw : forall s1 : TSt, tgood n s1 -> tb_stopped (bat s1) = tb_stopped (bat s) ->
      wp mw (lastMsg ← BatchTerminate.processBatch (match wake with WNotified => true | _ => false end) (match wake with WTimer => true | _ => false end); mret (match lastMsg with inr c => c | inl _ => None end)) s1
        (fun a s' => wp mw (mret tt) s' (fun _ s' => tgood n s' /\ (tb_stopped (bat s') = true -> tb_stopped (bat s) = true \/ tstops (TRun wake) = 1)))).
    { intros s1 Hg1 Hst1. apply wp_bind. eapply wp_mono; [by apply termBatch_ok|]. cbn beta. intros r s2 (Hg2 & Hst2 & _). apply wp_ret, wp_ret. rewrite Hst2, Hst1. auto. }
    destruct wake; [apply wp_setBatcher|apply wp_ret|apply wp_ret]; apply Hw; try done. by apply (tgood_only _ s); [|intros l bf E; eauto|].
  - apply wp_bind, wp_batcher, wp_setBatcher. split; [|by left]. destruct Hg' as [G1 G2 G3 G4]. destruct (chanReceive_keeps ch (tb_waiters (bat s))) as (_ & Kt & Kc).
    set (s' := {| bat := _ |}). assert (Hmade : made s' = made s) by (unfold made, len, s'; cbn [bat tb_waiters]; by rewrite <- (length_fmap fst), Kc, length_fmap).
    split; rewrite ?Hmade; try done; [by apply chanReceive_ok|]. apply (tmessages_ext s); try done. intros c k. unfold owner. cbn. by rewrite Kc.
  - apply wp_bind, wp_batcher. cbn in Hst. destruct (tb_stopped (bat s)); [by specialize (Hst eq_refl)|]. apply wp_setBatcher.
    split; [|by right]. destruct Hg' as [G1 G2 G3 G4]. split; try done. by apply (tmessages_ext s).
Qed.

End runs.

(** ** Examples *)

#[local] Existing Instances setFields setFieldsOk.

(** A chain with the sectors 5 and 6 in a partition of the tenth deadline, of which [live] are
    alive from the third look on, and an actor that takes [most] sectors in a message. *)
Definition demoTerm (live : gset N) (most : Z) : @TermNode (demoNode demoOpts) setFields :=
  @Build_TermNode (demoNode demoOpts) setFields
    (fun b => Ret b) (fun b n => Ret (bool_decide (n ∈ bits b))) (fun b => Ret (elements (bits b)))
    (fun _ => inr "t01000") "t01000"
    (fun _ _ w => (inr (Some (10, 0)), w)) (fun w => (inr 3, w)) (fun _ _ w => (inr [if w <? 2 then {[5%N; 6%N]} else live], w + 1))
    (fun l w => (l, w)) (fun terms => inr (terms ≫= fun t => elements (bits t.2)))
    48 most 3000.

Lemma size_bits (b : gset N) : size (bits b) = size b.
Proof.
  cbn. unfold size, set_size. cbn. rewrite <- (length_fmap Z.of_N (elements b)). apply Permutation_length, NoDup_Permutation.
  - apply NoDup_elements.
  - apply NoDup_fmap_2; [apply _|apply NoDup_elements].
  - intros x. rewrite elem_of_elements, elem_of_map, list_elem_of_fmap. by setoid_rewrite elem_of_elements.
Qed.

Lemma elem_of_bits (b : gset N) z : z ∈ bits b <-> 0 <= z /\ Z.to_N z ∈ b.
Proof.
  cbn. rewrite elem_of_map. split; [intros (x & -> & Hx); by rewrite N2Z.id; split; [lia|]|]. intros [Hz Hin]. exists (Z.to_N z). split; [lia|done].
Qed.

Lemma demoTerm_ok live most : 0 < most <= 4611686018427387904 -> @TermNodeOk _ _ (demoTerm live most) setFieldsOk.
Proof.
  intros Hmost. split; try done.
  - intros a n [= <-]. by rewrite size_bits.
  - by intros a b [= <-].
  - intros a b c [= <-]. apply set_eq. intros z. rewrite elem_of_intersection, !elem_of_bits, elem_of_intersection. tauto.
  - intros a b c [= <-]. apply set_eq. intros z. rewrite elem_of_difference, !elem_of_bits, elem_of_difference. tauto.
  - intros a n c Hn. intros Hc. unfold bf_Slice, setFields in Hc. match type of Hc with (if ?b then _ else _) = _ => destruct b eqn:E end; [done|]. apply Z.ltb_ge in E. injection Hc as <-. rewrite drop_0. split.
    + intros z. rewrite !elem_of_bits, elem_of_list_to_set. intros [? Hin]. split; [done|]. apply elem_of_elements. apply (elem_of_sublist _ _ _ Hin), sublist_take.
    + rewrite size_bits, size_list_to_set by (eapply sublist_NoDup, sublist_take; apply NoDup_elements). rewrite length_take. unfold size, set_size in *. cbn in *. lia.
  - intros a n b [= <-]. done.
  - intros a l [= <-] n. apply elem_of_elements.
  - intros w d [= <-]. cbn. lia.
  - intros a n w loc [= <-]. cbn. lia.
  - intros a n w loc a' w' ps [= <-] [= <-]. done.
Qed.

Notation demoTermRun live most evs :=
  (@termRun (demoNode demoOpts) setFields (demoTerm live most) ZBig evs (@termStart (demoNode demoOpts) setFields 0)).

Definition demoTerms : list TermEvent := [TAdd 1000 5; TAdd 1000 6; TRun WForced; TReceive 0; TStop].


(** A bucket with more sectors than a message takes is deleted with the rest in it: who waits for
    the rest is not told, and no later batch sends it. *)
Lemma rest_forgotten :
  let '(r, s) := demoTermRun {[5%N; 6%N]} 1 [TAdd 1000 5; TAdd 1000 6; TRun WForced; TRun WForced] in r = Done tt /\
    (s_params <$> sent s) = [[6]] /\ map_to_list (tb_todo (bat s)) = [] /\ (map_to_list (waiting (tb_waiters (bat s)))).*1 = [5].
Proof. vm_compute. auto. Qed.

(** So is a sector that is no longer alive. *)
Lemma not_live_forgotten :
  let '(r, s) := demoTermRun {[6%N]} 10 [TAdd 1000 5; TAdd 1000 6; TRun WForced] in r = Done tt /\
    (s_params <$> sent s) = [[6]] /\ map_to_list (tb_todo (bat s)) = [] /\ (map_to_list (waiting (tb_waiters (bat s)))).*1 = [5].
Proof. vm_compute. auto. Qed.
